(* ===== verification/_CoqProject ===== *)
-Q . S2P
Prelude.v
ExecResult.v
GcpStatus.v
Provider.v
UuidLib.v
Serialization.v
Wasm.v
WasmSpec.v
ProxyBuffer.v
ProxyBufferSpec.v
ProxyQueue.v
Socks5.v
ProxyBridge.v
Containers.v
ExpiryMap.v
TaskExecutor.v
PriorityExecutor.v
AsyncExecutor.v
Dispatcher.v
Streaming.v
Decimal.v
Utils.v
AsyncProg.v
Threads.v
JobClient.v
JobClientSpec.v
JobClientRuns.v
Queue.v
AwsQueue.v
GcpQueue.v
QueueSpec.v
NoSql.v
GcpNoSql.v
GcpNoSqlSpec.v
AwsNoSql.v
AwsNoSqlSpec.v
JobDatabase.v
GcpJobs.v
AwsJobs.v
TransactionEngine.v
TransactionEngineSpec.v
HttpClient.v
PrivacyBudgetHttp.v
PrivacyBudgetHttpSpec.v
PrivacyBudgetRuns.v
KeyFetcher.v
PrivateKeyClient.v
PrivateKeyClientSpec.v
PrivateKeyClientRuns.v
Timers.v
MetricCloud.v
MetricClient.v
MetricClientSpec.v
MetricAggregation.v
MetricAggregationSpec.v
BlobStorage.v
AwsBlob.v
AwsBlobSpec.v
GcpBlob.v
GcpBlobSpec.v
HttpExchange.v
HttpConnection.v
HttpConnectionSpec.v
HttpPool.v
HttpPoolSpec.v
CurlClient.v
