(* ===== verification/Prelude.v ===== *)
(** * Privacy Sandbox control-plane shared libraries: verification library

    The repository holds the libraries that the Privacy Sandbox services share:
    C++ under [cc] (results and error codes, containers, executors, the nitro
    enclave proxy, the cloud client providers) and Java under [java] (the client
    of the privacy budget service, HTTP clients, cloud bindings).  This library
    translates the parts below to Rocq and proves what makes them correct.

    ** Conventions

    Integers are [Z] with their wrap-around written out ([u32], [u64]).  [None]
    as the result of an operation stands for undefined behaviour, an uncaught
    exception or a loop that does not end; each file says which.  Mutable
    objects are records passed along, heap nodes are addresses in finite maps.
    Threads interleave at their critical sections: a step function on an
    explicit state and [run_ops], below, over any sequence of events.  Code
    that is not in the repository (tbb, the standard heap, protobuf, OpenSSL,
    boost::asio, Jackson, Apache's HTTP clients, the cloud services) is a class
    whose laws are its documented behaviour, with an instance that shows that
    the laws can hold, or an environment whose answers are events.

    ** Parts, files and what is proved

    Results ([cc/public/core/interface/execution_result.h],
    [cc/core/interface/errors.h]): [ExecResult].  Status and code, the proto
    conversions, the error code registry: codes have the fields they are made
    of.

    Identifiers ([cc/core/common/uuid]): [UuidLib].  Printing and parsing are
    inverse; parsing also accepts dashes in the place of digits.

    Serialization ([cc/core/common/serialization]): [Serialization].  What is
    written is what is read; the bounds test can overflow.

    The proxy ([cc/aws/proxy/src]): [ProxyBuffer] and [ProxyBufferSpec] are the
    buffer of linked blocks and its freelist; [ProxyQueue] is the byte queue it
    refines; [Socks5] is the handshake, which implements a specification of the
    protocol whatever way the bytes arrive; [ProxyBridge] is one connection on
    top of both: every byte is relayed once and in order, no operation fails,
    and something is always pending until both sides are closed.

    Containers ([cc/core/common/lru_cache], [cc/roma/common]): [Containers].
    The LRU cache refines a list in order of recency, the map of Roma a list in
    order of insertion.

    Maps ([cc/core/common/concurrent_map],
    [cc/core/common/auto_expiry_concurrent_map]): [ExpiryMap].  One collector at
    a time, and only expired entries are evicted, in every interleaving; except
    that an entry that replaces an evicted one is lost.

    Executors ([cc/core/async_executor]): [TaskExecutor], [PriorityExecutor] and
    [AsyncExecutor].  Accepted tasks run exactly once and in order, a due task
    wakes the worker, cancelled tasks do not run, [Stop] drains and ends; the
    round robin is fair.

    Contexts ([cc/core/interface], [cc/core/common/operation_dispatcher]):
    [Dispatcher] and [Streaming].  A dispatched operation finishes within its
    retries and its deadline; a stream delivers every message in order.

    Utilities ([cc/core/utils]): [Utils].  Base64, splitting, public results.

    The job client ([cc/cpio/client_providers/job_client_provider]): [AsyncProg]
    has chains of asynchronous calls and runs any number of them concurrently;
    [JobClient] is every operation and callback of the client; [JobClientSpec]
    has the behaviour of the database and the queue, and proves that the table
    of jobs stays well typed and that jobs keep their identity; [JobClientRuns]
    has the operations on every branch, and runs that go wrong.

    The privacy budget client
    ([java/com/google/scp/operator/cpio/distributedprivacybudgetclient]):
    [TransactionEngine] is the two-phase commit over the interface of a
    coordinator's client; [TransactionEngineSpec] proves that it ends, commits
    only after everybody has prepared, and what a return means; [HttpClient]
    has the Java HTTP clients ([java/com/google/scp/shared/api/util]);
    [PrivacyBudgetHttp] implements the interface over HTTP;
    [PrivacyBudgetHttpSpec] states the guarantees about the exchanges on the
    wire; [PrivacyBudgetRuns] has scripted runs.

    Private keys ([cc/cpio/client_providers/private_key_fetcher_provider],
    [private_key_client_provider]): [Threads] has callbacks as trees of atomic
    actions, and every interleaving of any number of them; [KeyFetcher] asks one
    key vending service for keys and parses its answer; [PrivateKeyClient] asks
    all of them, decrypts the splits and combines them.
    [PrivateKeyClientSpec]: when callbacks do not overlap, the caller is called
    exactly once; [PrivateKeyClientRuns]: and, with services that answer
    correctly, with exactly the keys; but callbacks that overlap lose keys or
    call the caller twice.

    Metrics ([cc/cpio/client_providers/metric_client_provider],
    [cc/public/cpio/utils/metric_aggregation]): [Timers] is what the executor
    promises to its clients; [MetricCloud] validates requests and packs them
    into calls of CloudWatch or Cloud Monitoring within their limits;
    [MetricClient] is the provider over either of them; [MetricClientSpec]: in
    every interleaving a request is finished at most once, and [Stop] pushes
    what waits; but a request that races with [Stop] is lost, and a second [Run]
    locks everybody out.  [MetricAggregation] counts events and pushes the
    counts; [MetricAggregationSpec]: no increment is lost or counted twice,
    unless it races with [Stop].  The proofs give each thread the contexts, or
    the counts, that it holds ([Threads.owns]).

    Blob storage ([cc/cpio/client_providers/blob_storage_client_provider]):
    [BlobStorage] has the messages, and the contract of reading that both clouds
    share; [AwsBlob] and [GcpBlob] are the providers for S3 and Cloud Storage,
    [Provider] what the methods of providers have in common, [Decimal] the
    numbers in the headers of S3, [GcpStatus] Google's errors.
    [AwsBlobSpec] and [GcpBlobSpec]: a stream delivers the range that was asked
    for, in order and in portions; following the page tokens lists every blob
    once; in every interleaving an upload finishes once, with the portions that
    were taken, and with all of them when nothing runs at the same time.  But a
    portion that comes while a callback runs can be lost, S3's stream of single
    bytes ends early, and bytes that Google's service had not committed when an
    upload was suspended are dropped.

    NoSQL databases ([cc/cpio/client_providers/nosql_database_client_provider]):
    [NoSql] has the errors and JSON documents, [GcpNoSql] and [AwsNoSql] the
    providers for Spanner and DynamoDB, with the SQL statements and expressions
    that they build.  [GcpNoSqlSpec] and [AwsNoSqlSpec]: the texts are those of
    queries and conditions with a given structure, and with a database that
    answers them as documented every operation is the one on rows that
    [JobClientSpec] assumes; in Spanner a failed condition is reported as a
    missing record, and items whose sort key is a number cannot be upserted.
    [Queue], [AwsQueue] and [GcpQueue] are the queue clients
    ([queue_client_provider]) for SQS and Pub/Sub, and [QueueSpec] says what the
    services promise.  [JobDatabase] is the interface between the job client and
    a database client, against which a job that was put or updated is read back;
    [GcpJobs] and [AwsJobs] are its instances, and prove that the clients of a
    cloud together simulate the cloud of [JobClientSpec].

    HTTP clients ([cc/core/http2_client], [cc/core/curl_client]): [HttpExchange]
    is what one request sends and what its response becomes; [HttpConnection] is
    a connection, with its worker, its pending calls and the callbacks of
    nghttp2; [HttpPool] has the pool of connections and the client.
    [HttpConnectionSpec] and [HttpPoolSpec]: in every interleaving a request is
    finished at most once, [Stop] of a connection finishes every call that was
    pending, and an entry of the pool has all its connections; but a request
    that races with [Stop] is never finished, and one that races with the
    recycling of its connection uses a destroyed object.  The connection's
    theorems serve the pool through code on a part of the state
    ([Threads.focus], [Threads.within], [Threads.neutral]).  [CurlClient] is the
    HTTP/1 client: the options, the callbacks, and the result of a transfer,
    which loses all but the last piece of a response.

    WASM ([cc/roma/wasm], and [cc/roma/worker/src/execution_utils.cc] where it
    uses it): [Wasm] writes arguments into the memory of a module and reads its
    results; [WasmSpec]: what is written is what is read, and reading is safe
    whatever the module has left there, except in a memory of 4 GiB.

    ** Bounds and fuel

    Loops of the code that are not structural take fuel, and a theorem says that
    the fuel given is enough: the handshake consumes a byte or stops in every
    round ([Socks5]); the engine has five phases of at most five tries
    ([TransactionEngine.execute_fuel]); splitting a string takes at most one
    round per character ([Utils]); walks over linked blocks take the number of
    blocks.

    ** Not modelled

    Code that only makes system calls or calls of a cloud SDK, a JavaScript
    engine or a logging library: sockets and process set-up of the proxy, the
    process launcher, Roma's workers and sandbox, the other cloud-specific
    providers, the configuration providers, dependency injection in Java.  Time passes only through clocks that are arguments or events.  Memory
    orders weaker than sequential consistency are not modelled. *)

From stdpp Require Export prelude list list_numbers gmap strings.

(** ** Machine integers

    [uN z] is the value of an unsigned N-bit integer after the C++ conversion
    or arithmetic operation that produced [z]; [size_t] is 64 bits wide. *)

Declare Scope scp_scope.
Delimit Scope scp_scope with scp.

Definition u8 (z : Z) : Z := (z `mod` 2 ^ 8)%Z.
Definition u16 (z : Z) : Z := (z `mod` 2 ^ 16)%Z.
Definition u32 (z : Z) : Z := (z `mod` 2 ^ 32)%Z.
Definition u64 (z : Z) : Z := (z `mod` 2 ^ 64)%Z.

(** [s64 z]: the conversion to [int64_t].  [int64 z]: the result of signed arithmetic, [None] when it
    overflows, which is undefined. *)
Definition s64 (z : Z) : Z := ((z + 2 ^ 63) `mod` 2 ^ 64 - 2 ^ 63)%Z.
Definition s32 (z : Z) : Z := ((z + 2 ^ 31) `mod` 2 ^ 32 - 2 ^ 31)%Z.
Definition int64 (z : Z) : option Z := if bool_decide (- 2 ^ 63 ≤ z < 2 ^ 63)%Z then Some z else None.

Abbreviation is_u8 x := (0 ≤ x < 2 ^ 8)%Z (only parsing).
Abbreviation is_u32 x := (0 ≤ x < 2 ^ 32)%Z (only parsing).
Abbreviation is_u64 x := (0 ≤ x < 2 ^ 64)%Z (only parsing).

(** The length of a vector, as the [size_t] the code computes with. *)
Abbreviation zlen l := (Z.of_nat (length l)) (only parsing).

Lemma u64_small z : (0 ≤ z < 2 ^ 64)%Z → u64 z = z.
Proof. apply Z.mod_small. Qed.

Lemma u64_range z : (0 ≤ u64 z < 2 ^ 64)%Z.
Proof. apply Z.mod_pos_bound. lia. Qed.

Lemma s64_small z : (- 2 ^ 63 ≤ z < 2 ^ 63)%Z → s64 z = z.
Proof. intros H. unfold s64. rewrite Z.mod_small; lia. Qed.

Lemma s32_small z : (- 2 ^ 31 ≤ z < 2 ^ 31)%Z → s32 z = z.
Proof. intros H. unfold s32. rewrite Z.mod_small; lia. Qed.

Lemma int64_small z : (- 2 ^ 63 ≤ z < 2 ^ 63)%Z → int64 z = Some z.
Proof. intros H. unfold int64. by rewrite bool_decide_true. Qed.

Lemma u32_small z : (0 ≤ z < 2 ^ 32)%Z → u32 z = z.
Proof. apply Z.mod_small. Qed.

Lemma u32_range z : (0 ≤ u32 z < 2 ^ 32)%Z.
Proof. apply Z.mod_pos_bound. lia. Qed.

Lemma u8_small z : (0 ≤ z < 2 ^ 8)%Z → u8 z = z.
Proof. apply Z.mod_small. Qed.

Lemma u8_range z : (0 ≤ u8 z < 2 ^ 8)%Z.
Proof. apply Z.mod_pos_bound. lia. Qed.

(** Bit-or of fields that do not overlap is addition. *)
Lemma lor_disjoint_add a b k :
  (0 ≤ k)%Z → (0 ≤ b < 2 ^ k)%Z → Z.lor (a * 2 ^ k) b = (a * 2 ^ k + b)%Z.
Proof.
  intros Hk Hb.
  assert (Z.land (a * 2 ^ k) b = 0)%Z as Hand.
  { apply Z.bits_inj'. intros n Hn.
    rewrite Z.land_spec, Z.bits_0. destruct (decide (n < k)%Z).
    - rewrite Z.mul_pow2_bits_low by lia. done.
    - rewrite andb_comm, <-(Z.mod_small b (2 ^ k)) by lia.
      rewrite Z.mod_pow2_bits_high by lia. done. }
  rewrite <-Z.lxor_lor by done. symmetry. by apply Z.add_nocarry_lxor.
Qed.

(** ** Byte memory

    A [std::vector] of bytes or a C array is a list of bytes.  Copies into
    and out of it return [None] when they touch a byte outside of the
    allocation: that is undefined behaviour of the C++ program, and the
    theorems below show where it cannot happen. *)

Definition mem_read (m : list Z) (off n : Z) : option (list Z) :=
  if bool_decide (0 ≤ off ∧ 0 ≤ n ∧ off + n ≤ zlen m)%Z
  then Some (take (Z.to_nat n) (drop (Z.to_nat off) m)) else None.

Definition mem_write (m : list Z) (off : Z) (bs : list Z) : option (list Z) :=
  if bool_decide (0 ≤ off ∧ off + zlen bs ≤ zlen m)%Z
  then Some (take (Z.to_nat off) m ++ bs ++ drop (Z.to_nat off + length bs) m)
  else None.

Create HintDb scp.
Create Rewrite HintDb scp_rw.
#[export] Hint Resolve u64_range u32_range u8_range : scp.

(** Case analysis on the decisions and matches of a goal and its hypotheses. *)
Ltac scp_case :=
  repeat (case_bool_decide || case_decide || case_match); simplify_eq/=.

(** Destructs the list [ds], of the known length stated by [H], into its
    elements. *)
Ltac explode_list ds H :=
  repeat (let c := fresh "c" in
          destruct ds as [|c ds]; [discriminate H|]; apply (f_equal Nat.pred) in H;
          cbn [length Nat.pred] in H);
  destruct ds; [clear H|discriminate H].

(** [lia] with the equations that define division and remainder. *)
Ltac zlia := Z.to_euclidean_division_equations; lia.

Section memory.
Implicit Types m bs : list Z.

Lemma mem_write_length m off bs m' :
  mem_write m off bs = Some m' → length m' = length m.
Proof.
  unfold mem_write. intros. scp_case.
  rewrite !length_app, length_take, length_drop. lia.
Qed.

Lemma mem_write_Some m off bs :
  (0 ≤ off)%Z → (off + zlen bs ≤ zlen m)%Z →
  mem_write m off bs =
    Some (take (Z.to_nat off) m ++ bs ++ drop (Z.to_nat off + length bs) m).
Proof. intros. unfold mem_write. rewrite bool_decide_eq_true_2 by lia. done. Qed.

Lemma mem_read_Some m off n :
  (0 ≤ off)%Z → (0 ≤ n)%Z → (off + n ≤ zlen m)%Z →
  mem_read m off n = Some (take (Z.to_nat n) (drop (Z.to_nat off) m)).
Proof. intros. unfold mem_read. rewrite bool_decide_eq_true_2 by lia. done. Qed.

(** What was written is what is read. *)
Lemma mem_read_write m off bs m' :
  mem_write m off bs = Some m' → mem_read m' off (zlen bs) = Some bs.
Proof.
  intros Hw. pose proof (mem_write_length _ _ _ _ Hw) as Hl.
  unfold mem_write in Hw. scp_case.
  rewrite mem_read_Some by lia. f_equal.
  rewrite drop_app_length', Nat2Z.id by (rewrite length_take; lia).
  apply take_app_length.
Qed.

(** A write leaves a disjoint range as it was. *)
Lemma mem_read_write_disjoint m off bs m' off2 n2 :
  mem_write m off bs = Some m' →
  (off2 + n2 ≤ off ∨ off + zlen bs ≤ off2)%Z →
  mem_read m' off2 n2 = mem_read m off2 n2.
Proof.
  intros Hw Hdis. pose proof (mem_write_length _ _ _ _ Hw) as Hl.
  unfold mem_write in Hw. scp_case. unfold mem_read. rewrite Hl.
  case_bool_decide; [|done]. f_equal. destruct Hdis.
  - apply list_eq. intros i.
    destruct (decide (i < Z.to_nat n2)) as [Hi|].
    + rewrite !lookup_take_lt, !lookup_drop by lia.
      rewrite lookup_app_l by (rewrite length_take; lia).
      by rewrite lookup_take_lt by lia.
    + rewrite !lookup_take_ge by lia. done.
  - f_equal. rewrite app_assoc, drop_app_ge by (rewrite length_app, length_take; lia).
    rewrite drop_drop. f_equal. rewrite length_app, length_take. lia.
Qed.

(** Writing in two pieces. *)
Lemma mem_write_app m off xs ys :
  (0 ≤ off)%Z → mem_write m off (xs ++ ys) = m' ← mem_write m off xs; mem_write m' (off + zlen xs) ys.
Proof.
  intros Hoff. destruct (decide (off + zlen xs + zlen ys ≤ zlen m)%Z) as [Hfit|Hlong].
  - rewrite !mem_write_Some by (rewrite ?length_app; lia). cbn [mbind option_bind].
    assert (length (take (Z.to_nat off) m ++ xs) = Z.to_nat (off + zlen xs)) as Hl by (rewrite length_app, length_take; lia).
    rewrite (app_assoc _ xs (drop _ _)), mem_write_Some by (rewrite ?length_app, ?length_take, ?length_drop; lia). f_equal.
    rewrite (take_app_length' _ _ _ (eq_sym Hl)), drop_app_ge by (rewrite Hl; lia). rewrite Hl, drop_drop, <-!app_assoc, length_app.
    do 3 f_equal. f_equal. lia.
  - transitivity (@None (list Z)); [unfold mem_write; rewrite bool_decide_eq_false_2; [done|rewrite length_app; lia]|].
    destruct (mem_write m off xs) as [m'|] eqn:E; [|done]. apply mem_write_length in E. cbn. unfold mem_write.
    rewrite bool_decide_eq_false_2; [done|]. lia.
Qed.

Lemma mem_write_nil m off : (0 ≤ off ≤ zlen m)%Z → mem_write m off [] = Some m.
Proof. intros. rewrite mem_write_Some by (cbn; lia). cbn. rewrite Nat.add_0_r. by rewrite take_drop. Qed.

Lemma mem_write_nth m off bs m' i :
  mem_write m off bs = Some m' → (off ≤ Z.of_nat i < off + zlen bs)%Z → m' !! i = bs !! (i - Z.to_nat off).
Proof.
  unfold mem_write. intros Hw Hi. scp_case. rewrite lookup_app_r by (rewrite length_take; lia).
  rewrite length_take, lookup_app_l by lia. f_equal. lia.
Qed.

(** Reading in two pieces. *)
Lemma mem_read_app m off xs ys :
  (0 ≤ off)%Z → mem_read m off (zlen (xs ++ ys)) = Some (xs ++ ys) →
  mem_read m off (zlen xs) = Some xs ∧ mem_read m (off + zlen xs) (zlen ys) = Some ys.
Proof.
  intros Hoff. rewrite length_app, Nat2Z.inj_add. unfold mem_read. case_bool_decide as H1; [|done]. intros [= E].
  rewrite !bool_decide_eq_true_2 by lia.
  assert (take (length xs + length ys) (drop (Z.to_nat off) m) = xs ++ ys) as E' by (rewrite <-E; f_equal; lia).
  split; f_equal.
  - apply (f_equal (take (length xs))) in E'. rewrite take_take, take_app_length in E'. rewrite <-E' at 2. f_equal. lia.
  - apply (f_equal (drop (length xs))) in E'. rewrite drop_app_length, <-take_drop_commute, drop_drop in E'. rewrite <-E' at 2.
    f_equal; [lia|]. f_equal. lia.
Qed.

Lemma mem_read_nth m off bs i : mem_read m off (zlen bs) = Some bs → (i < length bs)%nat → m !! (Z.to_nat off + i)%nat = bs !! i.
Proof.
  unfold mem_read. case_bool_decide; [|done]. intros [= E] Hi. rewrite Nat2Z.id in E.
  transitivity (take (length bs) (drop (Z.to_nat off) m) !! i); [|by rewrite E].
  by rewrite lookup_take_lt, lookup_drop by lia.
Qed.
End memory.

Lemma bind_ext_in {A B : Type} (f g : A → list B) l : (∀ x, x ∈ l → f x = g x) → l ≫= f = l ≫= g.
Proof.
  induction l as [|x l IH]; intros H; [done|]. cbn. rewrite (H x), IH; [done| |by left]. intros y Hy. apply H. by right.
Qed.

(** ** Sequences of operations *)

(** The results of running [os] from [s], and the state it ends in. *)
Fixpoint run_ops {S O R : Type} (step : S → O → option (R * S)) (s : S) (os : list O)
  : option (list R * S) :=
  match os with
  | [] => Some ([], s)
  | o :: os => r ← step s o; rs ← run_ops step r.2 os; Some (r.1 :: rs.1, rs.2)
  end.

(** A run of two parts. *)
Lemma run_ops_app {S O R : Type} (step : S → O → option (R * S)) s xs ys :
  run_ops step s (xs ++ ys) =
    '(rs, s) ← run_ops step s xs; '(rs', s) ← run_ops step s ys; Some (rs ++ rs', s).
Proof.
  revert s. induction xs as [|x xs IH]; intros s; cbn.
  - by destruct (run_ops step s ys) as [[]|].
  - destruct (step s x) as [[r s1]|]; [|done]. cbn. rewrite IH.
    destruct (run_ops step s1 xs) as [[rs s2]|]; [|done]. cbn.
    by destruct (run_ops step s2 ys) as [[]|].
Qed.

(** A simulation of steps is a simulation of runs. *)
Lemma run_ops_sim {S S' O R : Type} (step : S → O → option (R * S)) (step' : S' → O → option (R * S'))
    (rel : S → S' → Prop) :
  (∀ s s' o r t', rel s s' → step' s' o = Some (r, t') → ∃ t, step s o = Some (r, t) ∧ rel t t') →
  ∀ os s s' rs t', rel s s' → run_ops step' s' os = Some (rs, t') →
  ∃ t, run_ops step s os = Some (rs, t) ∧ rel t t'.
Proof.
  intros Hstep os. induction os as [|o os IH]; intros s s' rs t' Hr Hrun; simplify_eq/=; [eauto|].
  apply bind_Some in Hrun as ([r u']&Ho&Hrun). apply bind_Some in Hrun as ([rs' v']&Hos&Hrun).
  simplify_eq/=. destruct (Hstep _ _ _ _ _ Hr Ho) as (u&Hu&Hr').
  destruct (IH _ _ _ _ Hr' Hos) as (t&Ht&Hrt). exists t. split; [|done].
  rewrite Hu. simpl. by rewrite Ht.
Qed.

(** An invariant of the steps is an invariant of the runs. *)
Lemma run_ops_invariant {S O R : Type} (step : S → O → option (R * S)) (P : O → Prop) (I : S → Prop) :
  (∀ s o r s', I s → P o → step s o = Some (r, s') → I s') →
  ∀ os s rs s', I s → Forall P os → run_ops step s os = Some (rs, s') → I s'.
Proof.
  intros Hstep os. induction os as [|o os IH]; intros s rs s' Hi HP Hrun; simplify_eq/=; [done|].
  apply Forall_cons in HP as [Ho HP]. apply bind_Some in Hrun as ([r s1]&E&Hrun).
  apply bind_Some in Hrun as ([rs1 s2]&E2&Hrun). simplify_eq/=. eauto.
Qed.

Lemma last_snoc_inv' {A} (xs : list A) : xs ≠ [] → ∃ ys y, xs = ys ++ [y].
Proof. intros Hne. destruct (exists_last Hne) as (ys&y&->). eauto. Qed.

Lemma list_filter_all {A} (P : A → Prop) `{∀ x, Decision (P x)} (l : list A) :
  (∀ x, x ∈ l → P x) → filter P l = l.
Proof.
  induction l as [|x l IH]; intros HP; [done|].
  rewrite filter_cons_True by (apply HP; set_solver). f_equal. apply IH. set_solver.
Qed.

Lemma list_filter_iff' {A} (P Q : A → Prop) `{∀ x, Decision (P x), ∀ x, Decision (Q x)} (l : list A) :
  (∀ x, x ∈ l → P x ↔ Q x) → filter P l = filter Q l.
Proof.
  induction l as [|x l IH]; intros HPQ; [done|]. rewrite !filter_cons, IH by set_solver.
  assert (P x ↔ Q x) by (apply HPQ; set_solver). repeat case_decide; tauto.
Qed.
