(* ===== verification/ExecResult.v ===== *)
(** * Execution results and error codes

    Models [cc/public/core/interface/execution_result.h] with its [.cc] (the
    status/code pair every operation of the libraries returns, the
    [ExecutionResultOr] sum and the proto conversions) and
    [cc/core/interface/errors.h] (the global registry of error codes). *)

From S2P Require Import Prelude.

(** ** ExecutionResult *)

Inductive ExecutionStatus := Success | Failure | Retry.

#[global] Instance ExecutionStatus_eq_dec : EqDecision ExecutionStatus.
Proof. solve_decision. Defined.

Definition SC_OK : Z := 0.
Definition SC_UNKNOWN : Z := 1.

Record ExecutionResult := mkResult { status : ExecutionStatus; status_code : Z }.

#[global] Instance ExecutionResult_eq_dec : EqDecision ExecutionResult.
Proof. solve_decision. Defined.

(** The default constructor. *)
Definition DefaultExecutionResult : ExecutionResult := mkResult Failure SC_UNKNOWN.

Definition SuccessExecutionResult : ExecutionResult := mkResult Success SC_OK.
Definition FailureExecutionResult (code : Z) : ExecutionResult := mkResult Failure code.
Definition RetryExecutionResult (code : Z) : ExecutionResult := mkResult Retry code.

(** [operator==]. *)
Definition result_eqb (a b : ExecutionResult) : bool :=
  bool_decide (status a = status b) && bool_decide (status_code a = status_code b).

Definition Successful (r : ExecutionResult) : bool :=
  result_eqb r SuccessExecutionResult.

Definition Retryable (r : ExecutionResult) : bool := bool_decide (status r = Retry).

(** ** ExecutionResultOr

    A [std::variant<ExecutionResult, T>]: it may also hold a result that is
    a success, with no value. *)
Inductive ExecutionResultOr (T : Type) :=
  | HasResult (r : ExecutionResult)
  | HasValue (v : T).
Arguments HasResult {T} r.
Arguments HasValue {T} v.

Definition result_of {T} (x : ExecutionResultOr T) : ExecutionResult :=
  match x with HasResult r => r | HasValue _ => SuccessExecutionResult end.

Definition SuccessfulOr {T} (x : ExecutionResultOr T) : bool := Successful (result_of x).

Definition has_value {T} (x : ExecutionResultOr T) : bool :=
  match x with HasResult _ => false | HasValue _ => true end.

(** [value()] on a variant that holds no value throws: [None]. *)
Definition value {T} (x : ExecutionResultOr T) : option T :=
  match x with HasResult _ => None | HasValue v => Some v end.

(** ** Proto conversions *)

Inductive ExecutionStatusProto :=
  | EXECUTION_STATUS_UNKNOWN
  | EXECUTION_STATUS_SUCCESS
  | EXECUTION_STATUS_FAILURE
  | EXECUTION_STATUS_RETRY.

#[global] Instance ExecutionStatusProto_eq_dec : EqDecision ExecutionStatusProto.
Proof. solve_decision. Defined.

Record ExecutionResultProto :=
  mkResultProto { proto_status : ExecutionStatusProto; proto_status_code : Z }.

(** [std::map] as the association list of its entries in key order. *)
Definition kExecutionStatusToProtoMap : list (ExecutionStatus * ExecutionStatusProto) :=
  [(Success, EXECUTION_STATUS_SUCCESS);
   (Failure, EXECUTION_STATUS_FAILURE);
   (Retry, EXECUTION_STATUS_RETRY)].

Definition ReverseMap (m : list (ExecutionStatus * ExecutionStatusProto))
  : list (ExecutionStatusProto * ExecutionStatus) :=
  foldl (λ r kv, (kv.2, kv.1) :: filter (λ e, e.1 ≠ kv.2) r) [] m.

Definition kProtoToExecutionStatusMap : list (ExecutionStatusProto * ExecutionStatus) :=
  ReverseMap kExecutionStatusToProtoMap.

Definition assoc_find {K V} `{EqDecision K} (k : K) (m : list (K * V)) : option V :=
  snd <$> List.find (λ e, bool_decide (e.1 = k)) m.

(** [map::at] throws on a missing key. *)
Definition ToStatusProto (s : ExecutionStatus) : option ExecutionStatusProto :=
  assoc_find s kExecutionStatusToProtoMap.

Definition ToProto (r : ExecutionResult) : option ExecutionResultProto :=
  s ← ToStatusProto (status r); Some (mkResultProto s (status_code r)).

Definition FromProto (p : ExecutionResultProto) : ExecutionResult :=
  mkResult
    (match assoc_find (proto_status p) kProtoToExecutionStatusMap with
     | Some s => s
     | None => Failure
     end)
    (proto_status_code p).

(** ** Error codes *)

(** [HttpStatusCode] by its numeric value. *)
Definition HttpStatusCode : Type := Z.
Definition INTERNAL_SERVER_ERROR : HttpStatusCode := 500%Z.
Definition BAD_REQUEST : HttpStatusCode := 400%Z.
Definition CONFLICT : HttpStatusCode := 409%Z.

Definition IsRetriableErrorCode (c : HttpStatusCode) : bool :=
  (INTERNAL_SERVER_ERROR <=? c)%Z.

Record SCPError := mkSCPError { error_message : string; error_http_status_code : HttpStatusCode }.

Definition MakeErrorCode (component error : Z) : Z :=
  Z.lor (Z.lor (u64 (1 ≪ 31)) (u64 (component ≪ 16))) error.

Definition ExtractComponentCode (error_code : Z) : Z :=
  Z.land (error_code ≫ 16) 0x7FFF.

(** The two function-local static maps. *)
Record ErrorRegistry := mkRegistry {
  GlobalErrorCodes : gmap Z (gmap Z SCPError);
  PublicErrorCodesMap : gmap Z Z
}.

Definition global_codes_of (reg : ErrorRegistry) (component : Z) : gmap Z SCPError :=
  default ∅ (GlobalErrorCodes reg !! component).

(** [DEFINE_ERROR_CODE]: [operator[]] creates the inner map, [emplace] keeps
    an existing entry. *)
Definition DEFINE_ERROR_CODE (reg : ErrorRegistry) (component error : Z)
    (message : string) (http : HttpStatusCode) : Z * ErrorRegistry :=
  let error_name := MakeErrorCode component error in
  let inner := global_codes_of reg component in
  let inner' := match inner !! error_name with
                | Some _ => inner
                | None => <[error_name := mkSCPError message http]> inner
                end in
  (error_name,
   mkRegistry (<[component := inner']> (GlobalErrorCodes reg)) (PublicErrorCodesMap reg)).

Definition MAP_TO_PUBLIC_ERROR_CODE (reg : ErrorRegistry) (error_code public_code : Z)
  : ErrorRegistry :=
  mkRegistry (GlobalErrorCodes reg)
    (match PublicErrorCodesMap reg !! error_code with
     | Some _ => PublicErrorCodesMap reg
     | None => <[error_code := public_code]> (PublicErrorCodesMap reg)
     end).

Definition GetErrorMessage (reg : ErrorRegistry) (error_code : Z) : string :=
  if bool_decide (error_code = SC_OK) then "Success"
  else if bool_decide (error_code = SC_UNKNOWN) then "Unknown Error"
  else
    match global_codes_of reg (ExtractComponentCode error_code) !! error_code with
    | Some e => error_message e
    | None => "InvalidErrorCode"
    end.

(** Dereferencing the end iterator for an unregistered code: [None]. *)
Definition GetErrorHttpStatusCode (reg : ErrorRegistry) (error_code : Z)
  : option HttpStatusCode :=
  error_http_status_code <$>
    global_codes_of reg (ExtractComponentCode error_code) !! error_code.

Definition GetPublicErrorCode (reg : ErrorRegistry) (error_code : Z) : Z :=
  if bool_decide (error_code = SC_OK) then SC_OK
  else match PublicErrorCodesMap reg !! error_code with
       | Some c => c
       | None => SC_UNKNOWN
       end.

(** ** Properties *)

Lemma result_eqb_eq a b : result_eqb a b = true ↔ a = b.
Proof.
  unfold result_eqb. destruct a, b; simpl.
  rewrite andb_true_iff, !bool_decide_eq_true. naive_solver.
Qed.

Lemma Successful_iff r : Successful r = true ↔ r = SuccessExecutionResult.
Proof. apply result_eqb_eq. Qed.

Lemma Successful_success : Successful SuccessExecutionResult = true.
Proof. done. Qed.

Lemma Successful_failure c : Successful (FailureExecutionResult c) = false.
Proof. done. Qed.

Lemma Successful_retry c : Successful (RetryExecutionResult c) = false.
Proof. done. Qed.

Lemma not_Successful_iff r : Successful r = false ↔ r ≠ SuccessExecutionResult.
Proof. rewrite <-Successful_iff. destruct (Successful r); naive_solver. Qed.

#[export] Hint Rewrite Successful_success Successful_failure Successful_retry : scp_rw.
#[export] Hint Resolve Successful_success Successful_failure : scp.

(** The three fields of an error code do not overlap. *)
Lemma MakeErrorCode_add c e :
  (0 ≤ c < 0x8000)%Z → (0 ≤ e < 0x10000)%Z →
  MakeErrorCode c e = (2 ^ 31 + c * 2 ^ 16 + e)%Z.
Proof.
  intros Hc He. unfold MakeErrorCode.
  rewrite !Z.shiftl_mul_pow2 by lia. rewrite !u64_small by lia.
  rewrite (lor_disjoint_add 1%Z (c * 2 ^ 16)%Z 31%Z) by lia.
  replace (1 * 2 ^ 31 + c * 2 ^ 16)%Z with ((2 ^ 15 + c) * 2 ^ 16)%Z by lia.
  rewrite (lor_disjoint_add (2 ^ 15 + c)%Z e 16%Z) by lia. lia.
Qed.

Lemma ExtractComponentCode_Make c e :
  (0 ≤ c < 0x8000)%Z → (0 ≤ e < 0x10000)%Z →
  ExtractComponentCode (MakeErrorCode c e) = c.
Proof.
  intros Hc He. unfold ExtractComponentCode.
  change 0x7FFF%Z with (Z.ones 15).
  rewrite MakeErrorCode_add, Z.land_ones, Z.shiftr_div_pow2 by lia.
  replace (2 ^ 31 + c * 2 ^ 16 + e)%Z with (e + (2 ^ 15 + c) * 2 ^ 16)%Z by lia.
  rewrite Z.div_add, (Z.div_small e) by lia.
  replace (0 + (2 ^ 15 + c))%Z with (c + 1 * 2 ^ 15)%Z by lia.
  rewrite Z.mod_add, Z.mod_small by lia. done.
Qed.

Lemma MakeErrorCode_reserved c e :
  (0 ≤ c < 0x8000)%Z → (0 ≤ e < 0x10000)%Z →
  MakeErrorCode c e ≠ SC_OK ∧ MakeErrorCode c e ≠ SC_UNKNOWN.
Proof.
  intros. rewrite MakeErrorCode_add by lia. unfold SC_OK, SC_UNKNOWN. lia.
Qed.

Lemma DEFINE_ERROR_CODE_lookup reg c e msg http :
  global_codes_of reg c !! MakeErrorCode c e = None →
  global_codes_of (DEFINE_ERROR_CODE reg c e msg http).2 c !! MakeErrorCode c e
    = Some (mkSCPError msg http).
Proof.
  intros Hn. unfold DEFINE_ERROR_CODE. rewrite Hn.
  unfold global_codes_of; simpl. rewrite lookup_insert_eq; simpl.
  by rewrite lookup_insert_eq.
Qed.

Lemma DEFINE_ERROR_CODE_other reg c e msg http c' code :
  code ≠ MakeErrorCode c e →
  global_codes_of (DEFINE_ERROR_CODE reg c e msg http).2 c' !! code
    = global_codes_of reg c' !! code.
Proof.
  intros Hn. unfold DEFINE_ERROR_CODE, global_codes_of; simpl.
  destruct (decide (c = c')) as [->|]; [|by rewrite lookup_insert_ne].
  rewrite lookup_insert_eq; simpl.
  case_match; [done|]. by rewrite lookup_insert_ne.
Qed.

(** ** Claims *)

(** The component and the error number packed into a code by
    [MakeErrorCode] are recovered from it: [ExtractComponentCode] returns the
    component, two codes are equal only for equal components and errors, and
    no code collides with the reserved [SC_OK] and [SC_UNKNOWN]; this for all
    components and errors the [static_assert]s of [DEFINE_ERROR_CODE] allow. *)
Theorem error_code_fields c e c' e' :
  (0 ≤ c < 0x8000)%Z → (0 ≤ e < 0x10000)%Z →
  (0 ≤ c' < 0x8000)%Z → (0 ≤ e' < 0x10000)%Z →
  ExtractComponentCode (MakeErrorCode c e) = c ∧
  (MakeErrorCode c e = MakeErrorCode c' e' → c = c' ∧ e = e') ∧
  MakeErrorCode c e ≠ SC_OK ∧ MakeErrorCode c e ≠ SC_UNKNOWN.
Proof.
  intros. split; [by apply ExtractComponentCode_Make|].
  split; [|by apply MakeErrorCode_reserved].
  rewrite !MakeErrorCode_add by lia. lia.
Qed.

Lemma error_code_fields_witness :
  ExtractComponentCode (MakeErrorCode 0x0CC0 0xFFFF) = 0x0CC0%Z.
Proof. apply (error_code_fields 0x0CC0 0xFFFF 1 1); lia. Defined.

(** Registering a fresh error code makes exactly that code resolvable:
    its message and http status are the ones registered, and the message and
    status of every other code are what they were. *)
Theorem define_error_code_spec reg c e msg http :
  (0 ≤ c < 0x8000)%Z → (0 ≤ e < 0x10000)%Z →
  global_codes_of reg c !! MakeErrorCode c e = None →
  let '(code, reg') := DEFINE_ERROR_CODE reg c e msg http in
  GetErrorMessage reg' code = msg ∧
  GetErrorHttpStatusCode reg' code = Some http ∧
  (∀ other, other ≠ code →
     GetErrorMessage reg' other = GetErrorMessage reg other ∧
     GetErrorHttpStatusCode reg' other = GetErrorHttpStatusCode reg other).
Proof.
  intros Hc He Hn.
  pose proof (DEFINE_ERROR_CODE_lookup reg c e msg http Hn) as Hl.
  pose proof (DEFINE_ERROR_CODE_other reg c e msg http) as Ho.
  destruct (MakeErrorCode_reserved c e Hc He) as [Hok Hunk].
  destruct (DEFINE_ERROR_CODE reg c e msg http) as [code reg'] eqn:E.
  assert (code = MakeErrorCode c e) as -> by (unfold DEFINE_ERROR_CODE in E; naive_solver).
  simpl in Hl, Ho. unfold GetErrorMessage, GetErrorHttpStatusCode.
  rewrite ExtractComponentCode_Make, Hl, !bool_decide_eq_false_2 by done.
  split_and!; [done..|]. intros other Hne. by rewrite Ho.
Qed.

Lemma define_error_code_spec_witness :
  GetErrorMessage (DEFINE_ERROR_CODE (mkRegistry ∅ ∅) 0x000B 1 "Cannot write" INTERNAL_SERVER_ERROR).2
    (MakeErrorCode 0x000B 1) = "Cannot write".
Proof.
  apply (define_error_code_spec (mkRegistry ∅ ∅) 0x000B 1 "Cannot write" INTERNAL_SERVER_ERROR);
    [lia|lia|vm_compute; reflexivity].
Defined.

(** Every execution result survives the trip through its proto message,
    [ToProto] never throws, and a proto status the map does not know is read
    back as a failure with the same code. *)
Theorem execution_result_proto_roundtrip :
  (∀ r, FromProto <$> ToProto r = Some r) ∧
  (∀ code, FromProto (mkResultProto EXECUTION_STATUS_UNKNOWN code)
           = FailureExecutionResult code).
Proof. split; [by intros [[] code]|done]. Qed.
