(* ===== verification/GcpStatus.v ===== *)
(** * GcpStatus: errors of Google's services

    The status codes of the client libraries, and
    [GcpUtils::GcpErrorConverter] of [cc/cpio/common/src/gcp/gcp_utils.cc],
    which has the same cases for [cloud::Status] and [grpc::Status]. *)

From S2P Require Import Prelude ExecResult.

Local Open Scope Z_scope.

Abbreviation SC_GCP := 0x0230%Z (only parsing).
Abbreviation SC_GCP_INTERNAL_SERVICE_ERROR := (MakeErrorCode SC_GCP 0x0001).
Abbreviation SC_GCP_NOT_FOUND := (MakeErrorCode SC_GCP 0x0002).
Abbreviation SC_GCP_INVALID_ARGUMENT := (MakeErrorCode SC_GCP 0x0003).
Abbreviation SC_GCP_DEADLINE_EXCEEDED := (MakeErrorCode SC_GCP 0x0004).
Abbreviation SC_GCP_UNAUTHENTICATED := (MakeErrorCode SC_GCP 0x0005).
Abbreviation SC_GCP_CANCELLED := (MakeErrorCode SC_GCP 0x0006).
Abbreviation SC_GCP_ALREADY_EXISTS := (MakeErrorCode SC_GCP 0x0007).
Abbreviation SC_GCP_OUT_OF_RANGE := (MakeErrorCode SC_GCP 0x0008).
Abbreviation SC_GCP_UNIMPLEMENTED := (MakeErrorCode SC_GCP 0x0009).
Abbreviation SC_GCP_UNAVAILABLE := (MakeErrorCode SC_GCP 0x000A).
Abbreviation SC_GCP_UNKNOWN := (MakeErrorCode SC_GCP 0x000B).
Abbreviation SC_GCP_PERMISSION_DENIED := (MakeErrorCode SC_GCP 0x000C).
Abbreviation SC_GCP_RESOURCE_EXHAUSTED := (MakeErrorCode SC_GCP 0x000D).
Abbreviation SC_GCP_FAILED_PRECONDITION := (MakeErrorCode SC_GCP 0x000E).
Abbreviation SC_GCP_ABORTED := (MakeErrorCode SC_GCP 0x000F).
Abbreviation SC_GCP_DATA_LOSS := (MakeErrorCode SC_GCP 0x0010).

Inductive StatusCode :=
  | kOk | kCancelled | kUnknown | kInvalidArgument | kDeadlineExceeded | kNotFound | kAlreadyExists | kPermissionDenied
  | kUnauthenticated | kResourceExhausted | kFailedPrecondition | kAborted | kOutOfRange | kUnimplemented | kInternal
  | kUnavailable | kDataLoss.

#[global] Instance StatusCode_eq_dec : EqDecision StatusCode.
Proof. solve_decision. Defined.

Definition GcpErrorConverter (status_code : StatusCode) : ExecutionResult :=
  match status_code with
  | kOk => SuccessExecutionResult
  | kNotFound => FailureExecutionResult SC_GCP_NOT_FOUND
  | kInvalidArgument => FailureExecutionResult SC_GCP_INVALID_ARGUMENT
  | kDeadlineExceeded => FailureExecutionResult SC_GCP_DEADLINE_EXCEEDED
  | kAlreadyExists => FailureExecutionResult SC_GCP_ALREADY_EXISTS
  | kUnimplemented => FailureExecutionResult SC_GCP_UNIMPLEMENTED
  | kOutOfRange => FailureExecutionResult SC_GCP_OUT_OF_RANGE
  | kCancelled => FailureExecutionResult SC_GCP_CANCELLED
  | kAborted => FailureExecutionResult SC_GCP_ABORTED
  | kUnavailable => FailureExecutionResult SC_GCP_UNAVAILABLE
  | kUnauthenticated => FailureExecutionResult SC_GCP_UNAUTHENTICATED
  | kPermissionDenied => FailureExecutionResult SC_GCP_PERMISSION_DENIED
  | kDataLoss => FailureExecutionResult SC_GCP_DATA_LOSS
  | kFailedPrecondition => FailureExecutionResult SC_GCP_FAILED_PRECONDITION
  | kResourceExhausted => FailureExecutionResult SC_GCP_RESOURCE_EXHAUSTED
  | kInternal => FailureExecutionResult SC_GCP_INTERNAL_SERVICE_ERROR
  | kUnknown => FailureExecutionResult SC_GCP_UNKNOWN
  end.

Lemma converted_success c : Successful (GcpErrorConverter c) = bool_decide (c = kOk).
Proof. by destruct c. Qed.
