(* ===== verification/Provider.v ===== *)
(** * Provider: what the methods of the client providers have in common

    A method of a provider in [cc/cpio/client_providers] tests its request and
    hands a task to an executor, or makes a call of the cloud. *)

From Stdlib Require Import Ascii.
From S2P Require Import Prelude ExecResult.

Local Open Scope string_scope.

(** The errors of AWS ([cc/cpio/common/src/aws/error_codes.h]). *)
Abbreviation SC_AWS := 0x0212%Z (only parsing).
Abbreviation SC_AWS_INTERNAL_SERVICE_ERROR := (MakeErrorCode SC_AWS 0x0009).
Abbreviation SC_AWS_INVALID_CREDENTIALS := (MakeErrorCode SC_AWS 0x000A).
Abbreviation SC_AWS_INVALID_REQUEST := (MakeErrorCode SC_AWS 0x000B).
Abbreviation SC_AWS_REQUEST_LIMIT_REACHED := (MakeErrorCode SC_AWS 0x000C).
Abbreviation SC_AWS_SERVICE_UNAVAILABLE := (MakeErrorCode SC_AWS 0x000D).
Abbreviation SC_AWS_VALIDATION_FAILED := (MakeErrorCode SC_AWS 0x000E).
Abbreviation SC_AWS_NOT_FOUND := (MakeErrorCode SC_AWS 0x000F).

(** How a method ends: [Rejected r f] returns [r], and has finished the caller's context with it when
    [f]; [Sent c] has made the call [c] of the service, or handed [c] to the executor. *)
Inductive Started (Call : Type) :=
  | Rejected (r : ExecutionResult) (finished : bool)
  | Sent (c : Call).
Arguments Rejected {Call} r finished.
Arguments Sent {Call} c.

(** The end of a method: its task is handed to the I/O executor. *)
Definition scheduled {Call} (schedule_result : ExecutionResult) (c : Call) : Started Call :=
  if negb (Successful schedule_result) then Rejected schedule_result true else Sent c.

(** [Run] of the AWS provider, with the region, and [Init] of Google's, with the project: the client is made. *)
Definition connect {Client} (place : ExecutionResult + string) (CreateClient : string → ExecutionResult + Client)
  : ExecutionResult + Client :=
  match place with inl r => inl r | inr p => CreateClient p end.

(** A step of a method that may fail: the method returns its result, and finishes the context with it when
    [finished]. *)
Definition or_reject {A B} (finished : bool) (x : ExecutionResultOr A) (k : A → Started B) : Started B :=
  match x with HasResult r => Rejected r finished | HasValue v => k v end.

(** A C string ends at its first NUL. *)
Fixpoint c_str (s : string) : string :=
  match s with
  | String c s => if bool_decide (c = "000"%char) then "" else String c (c_str s)
  | "" => ""
  end.

Definition no_nul (s : string) : Prop := c_str s = s.
