(* ===== verification/UuidLib.v ===== *)
(** * Uuid

    Models [cc/core/common/uuid/src/uuid.h] and [uuid.cc]: the 128-bit
    identifier, its comparison operators, and the conversions from and to
    the guid string [00000000-0000-0000-0000-000000000000].  [GenerateUuid]
    reads the clock and a random device; both are arguments here. *)

From S2P Require Import Prelude ExecResult.
From Stdlib Require Import Ascii.

Local Open Scope Z_scope.

Record Uuid := mkUuid { high : Z; low : Z }.

#[global] Instance Uuid_eq_dec : EqDecision Uuid.
Proof. solve_decision. Defined.

#[global] Instance Uuid_countable : Countable Uuid.
Proof.
  by refine (inj_countable' (λ u, (high u, low u)) (λ p, mkUuid p.1 p.2) _); intros [].
Defined.

Definition kZeroUuid : Uuid := mkUuid 0 0.

(** [operator==] and [operator<]. *)
Definition uuid_eqb (a b : Uuid) : bool :=
  bool_decide (high a = high b) && bool_decide (low a = low b).
Definition uuid_ltb (a b : Uuid) : bool := bool_decide (high a < high b).

(** [UuidCompare::hash] and [UuidHash]. *)
Definition uuid_hash (u : Uuid) : Z := Z.lxor (high u) (low u).

(** [GenerateUuid] with the process-wide clock counter and the random draw;
    the counter is incremented with wrap-around. *)
Definition GenerateUuid (current_clock random : Z) : Uuid * Z :=
  (mkUuid current_clock random, u64 (current_clock + 1)).

(** A [std::string] is the list of its characters. *)
Abbreviation cstring := (list ascii).

Definition kHexMap : cstring := String.list_ascii_of_string "0123456789ABCDEF".

(** Indexing [kHexMap] out of its bounds is undefined: [None]. *)
Definition AppendHex (byte : Z) (string_to_append : cstring) : option cstring :=
  first_digit ← kHexMap !! Z.to_nat (byte ≫ 4);
  second_digit ← kHexMap !! Z.to_nat (Z.land byte 0x0F);
  Some (string_to_append ++ [first_digit; second_digit]).

Definition code (c : ascii) : Z := Z.of_nat (nat_of_ascii c).

(** [isxdigit], [islower] and [isspace] of the C locale. *)
Definition isxdigit (c : ascii) : bool :=
  bool_decide (48 ≤ code c ≤ 57) || bool_decide (65 ≤ code c ≤ 70)
  || bool_decide (97 ≤ code c ≤ 102).
Definition islower (c : ascii) : bool := bool_decide (97 ≤ code c ≤ 122).
Definition isspace (c : ascii) : bool :=
  bool_decide (code c = 32) || bool_decide (9 ≤ code c ≤ 13).

Definition hex_digit (c : ascii) : Z :=
  if bool_decide (code c ≤ 57) then code c - 48
  else if bool_decide (code c ≤ 70) then code c - 55
  else code c - 87.

(** [istream >> std::hex >> int]: skip blanks, an optional sign, then the
    longest run of hexadecimal digits; with no digit the result is 0. *)
Fixpoint hex_run (acc : Z) (s : cstring) : Z :=
  match s with
  | c :: s' => if isxdigit c then hex_run (16 * acc + hex_digit c) s' else acc
  | [] => acc
  end.

Fixpoint skipws (s : cstring) : cstring :=
  match s with
  | c :: s' => if isspace c then skipws s' else s
  | [] => []
  end.

Definition istream_hex_int (s : cstring) : Z :=
  match skipws s with
  | "-"%char :: s' => - hex_run 0 s'
  | "+"%char :: s' => hex_run 0 s'
  | s' => hex_run 0 s'
  end.

(** [substr(offset, 2)], parsed as an [int] and returned as a [uint64_t]. *)
Definition ReadHex (string_to_read : cstring) (offset : nat) : Z :=
  u64 (istream_hex_int (take 2 (drop offset string_to_read))).

Definition dash : ascii := "-"%char.

Definition ToString (uuid : Uuid) : option cstring :=
  let high := high uuid in
  let low := low uuid in
  s ← AppendHex (Z.land (high ≫ 56) 0xFF) [];
  s ← AppendHex (Z.land (high ≫ 48) 0xFF) s;
  s ← AppendHex (Z.land (high ≫ 40) 0xFF) s;
  s ← AppendHex (Z.land (high ≫ 32) 0xFF) s;
  let s := s ++ [dash] in
  s ← AppendHex (Z.land (high ≫ 24) 0xFF) s;
  s ← AppendHex (Z.land (high ≫ 16) 0xFF) s;
  let s := s ++ [dash] in
  s ← AppendHex (Z.land (high ≫ 8) 0xFF) s;
  s ← AppendHex (Z.land high 0xFF) s;
  let s := s ++ [dash] in
  s ← AppendHex (Z.land (low ≫ 56) 0xFF) s;
  s ← AppendHex (Z.land (low ≫ 48) 0xFF) s;
  let s := s ++ [dash] in
  s ← AppendHex (Z.land (low ≫ 40) 0xFF) s;
  s ← AppendHex (Z.land (low ≫ 32) 0xFF) s;
  s ← AppendHex (Z.land (low ≫ 24) 0xFF) s;
  s ← AppendHex (Z.land (low ≫ 16) 0xFF) s;
  s ← AppendHex (Z.land (low ≫ 8) 0xFF) s;
  AppendHex (Z.land low 0xFF) s.

Abbreviation SC_UUID_INVALID_STRING := (MakeErrorCode 0x0011 0x0001).

(** The loop over the characters: it stops at the first character that is
    neither a dash nor an upper-case hexadecimal digit. *)
Fixpoint valid_chars (s : cstring) : bool :=
  match s with
  | [] => true
  | c :: s' =>
      if bool_decide (c = dash) then valid_chars s'
      else if negb (isxdigit c) then false
      else if islower c then false
      else valid_chars s'
  end.

Definition char_at (s : cstring) (i : nat) : ascii := nth i s "000"%char.

(** [FromString] writes into the uuid it is given. *)
Definition FromString (uuid_string : cstring) (uuid : Uuid) : ExecutionResult * Uuid :=
  if negb (bool_decide (length uuid_string = 36%nat)) then
    (FailureExecutionResult SC_UUID_INVALID_STRING, uuid)
  else if negb (bool_decide (char_at uuid_string 8 = dash))
       || negb (bool_decide (char_at uuid_string 13 = dash))
       || negb (bool_decide (char_at uuid_string 18 = dash))
       || negb (bool_decide (char_at uuid_string 23 = dash)) then
    (FailureExecutionResult SC_UUID_INVALID_STRING, uuid)
  else if negb (valid_chars uuid_string) then
    (FailureExecutionResult SC_UUID_INVALID_STRING, uuid)
  else
    let rd := ReadHex uuid_string in
    let high := high uuid in
    let high := Z.lor high (u64 (rd 0%nat ≪ 56)) in
    let high := Z.lor high (u64 (rd 2%nat ≪ 48)) in
    let high := Z.lor high (u64 (rd 4%nat ≪ 40)) in
    let high := Z.lor high (u64 (rd 6%nat ≪ 32)) in
    let high := Z.lor high (u64 (rd 9%nat ≪ 24)) in
    let high := Z.lor high (u64 (rd 11%nat ≪ 16)) in
    let high := Z.lor high (u64 (rd 14%nat ≪ 8)) in
    let high := Z.lor high (rd 16%nat) in
    let low := low uuid in
    let low := Z.lor low (u64 (rd 19%nat ≪ 56)) in
    let low := Z.lor low (u64 (rd 21%nat ≪ 48)) in
    let low := Z.lor low (u64 (rd 24%nat ≪ 40)) in
    let low := Z.lor low (u64 (rd 26%nat ≪ 32)) in
    let low := Z.lor low (u64 (rd 28%nat ≪ 24)) in
    let low := Z.lor low (u64 (rd 30%nat ≪ 16)) in
    let low := Z.lor low (u64 (rd 32%nat ≪ 8)) in
    let low := Z.lor low (rd 34%nat) in
    (SuccessExecutionResult, mkUuid high low).

(** ** Hexadecimal digits *)

(** An upper-case hexadecimal digit. *)
Definition is_hex_upper (c : ascii) : bool := isxdigit c && negb (islower c).

Lemma ascii_cases (P : ascii → bool) :
  forallb (λ n, P (ascii_of_nat n)) (seq 0 256) = true → ∀ c, P c = true.
Proof.
  intros H c. rewrite forallb_forall in H.
  rewrite <-(ascii_nat_embedding c). apply H. apply in_seq.
  pose proof (nat_ascii_bounded c). lia.
Qed.

Definition upper_digit_ok (c : ascii) : bool :=
  implb (is_hex_upper c)
    (bool_decide (0 ≤ hex_digit c < 16)
     && bool_decide (kHexMap !! Z.to_nat (hex_digit c) = Some c)
     && negb (isspace c) && negb (bool_decide (c = dash))
     && negb (bool_decide (c = "+"%char))).

Lemma is_hex_upper_spec c :
  is_hex_upper c = true →
  0 ≤ hex_digit c < 16 ∧ kHexMap !! Z.to_nat (hex_digit c) = Some c ∧
  isspace c = false ∧ c ≠ dash ∧ c ≠ "+"%char ∧ isxdigit c = true ∧ islower c = false.
Proof.
  intros Hc. pose proof (ascii_cases upper_digit_ok ltac:(vm_compute; done) c) as H.
  unfold upper_digit_ok in H. rewrite Hc in H. simpl in H.
  rewrite !andb_true_iff, !negb_true_iff, !bool_decide_eq_true, !bool_decide_eq_false in H.
  unfold is_hex_upper in Hc. rewrite andb_true_iff, negb_true_iff in Hc. naive_solver.
Qed.

Lemma kHexMap_spec d :
  0 ≤ d < 16 →
  ∃ c, kHexMap !! Z.to_nat d = Some c ∧ is_hex_upper c = true ∧ hex_digit c = d.
Proof.
  intros Hd. assert (Z.to_nat d ∈ seq 0 16) as Hin by (apply elem_of_seq; lia).
  assert (H : Forall (λ n, match kHexMap !! n with
     | Some c => is_hex_upper c = true ∧ hex_digit c = Z.of_nat n | None => False end) (seq 0 16))
    by (repeat constructor).
  rewrite Forall_forall in H. specialize (H _ Hin).
  case_match; [|done]. eexists. split; [done|]. rewrite Z2Nat.id in H by lia. done.
Qed.

Lemma istream_hex_pair c1 c2 :
  is_hex_upper c1 = true → is_hex_upper c2 = true →
  istream_hex_int [c1; c2] = 16 * hex_digit c1 + hex_digit c2.
Proof.
  intros (?&_&Hs&Hd&Hp&Hx&_)%is_hex_upper_spec (?&_&_&_&_&Hx2&_)%is_hex_upper_spec.
  unfold istream_hex_int. simpl. rewrite Hs.
  assert (hex_run 0 [c1; c2] = 16 * hex_digit c1 + hex_digit c2) as Hr
    by (cbn [hex_run]; rewrite Hx, Hx2; lia).
  repeat (case_match; simplify_eq; try done).
Qed.

Definition pair_val (c1 c2 : ascii) : Z := 16 * hex_digit c1 + hex_digit c2.

Lemma pair_val_range c1 c2 :
  is_hex_upper c1 = true → is_hex_upper c2 = true → 0 ≤ pair_val c1 c2 < 256.
Proof.
  intros (?&_)%is_hex_upper_spec (?&_)%is_hex_upper_spec. unfold pair_val. lia.
Qed.

Lemma byte_pair b :
  0 ≤ b < 256 →
  ∃ c1 c2, is_hex_upper c1 = true ∧ is_hex_upper c2 = true ∧ pair_val c1 c2 = b.
Proof.
  intros Hb.
  destruct (kHexMap_spec (b `div` 16)) as (c1&_&Hc1&Hd1); [zlia|].
  destruct (kHexMap_spec (b `mod` 16)) as (c2&_&Hc2&Hd2); [zlia|].
  exists c1, c2. split_and!; [done..|]. unfold pair_val. zlia.
Qed.

Lemma AppendHex_pair c1 c2 s :
  is_hex_upper c1 = true → is_hex_upper c2 = true →
  AppendHex (pair_val c1 c2) s = Some (s ++ [c1; c2]).
Proof.
  intros (?&Hl1&_)%is_hex_upper_spec (?&Hl2&_)%is_hex_upper_spec. unfold AppendHex.
  change 0x0F with (Z.ones 4).
  rewrite Z.land_ones, Z.shiftr_div_pow2 by lia.
  replace (pair_val c1 c2 `div` 2 ^ 4) with (hex_digit c1) by (unfold pair_val; zlia).
  replace (pair_val c1 c2 `mod` 2 ^ 4) with (hex_digit c2) by (unfold pair_val; zlia).
  by rewrite Hl1, Hl2.
Qed.

Lemma istream_pair_val c1 c2 :
  is_hex_upper c1 = true → is_hex_upper c2 = true →
  u64 (istream_hex_int [c1; c2]) = pair_val c1 c2.
Proof.
  intros H1 H2. rewrite istream_hex_pair by done.
  apply u64_small. pose proof (pair_val_range _ _ H1 H2). unfold pair_val in *. lia.
Qed.

(** ** Eight bytes and a 64-bit word *)

(** The accumulation [FromString] does for one half of the uuid. *)
Definition combine8 (w b7 b6 b5 b4 b3 b2 b1 b0 : Z) : Z :=
  Z.lor (Z.lor (Z.lor (Z.lor (Z.lor (Z.lor (Z.lor (Z.lor w
    (u64 (b7 ≪ 56))) (u64 (b6 ≪ 48))) (u64 (b5 ≪ 40))) (u64 (b4 ≪ 32)))
    (u64 (b3 ≪ 24))) (u64 (b2 ≪ 16))) (u64 (b1 ≪ 8))) b0.

Definition byte_at (w k : Z) : Z := Z.land (w ≫ k) 0xFF.

Lemma byte_at_div w k : 0 ≤ k → byte_at w k = (w `div` 2 ^ k) `mod` 256.
Proof.
  intros. unfold byte_at. change 0xFF with (Z.ones 8).
  by rewrite Z.land_ones, Z.shiftr_div_pow2 by lia.
Qed.

Lemma byte_at_range w k : 0 ≤ k → 0 ≤ byte_at w k < 256.
Proof. intros. rewrite byte_at_div by done. zlia. Qed.

Lemma combine8_sum b7 b6 b5 b4 b3 b2 b1 b0 :
  0 ≤ b7 < 256 → 0 ≤ b6 < 256 → 0 ≤ b5 < 256 → 0 ≤ b4 < 256 →
  0 ≤ b3 < 256 → 0 ≤ b2 < 256 → 0 ≤ b1 < 256 → 0 ≤ b0 < 256 →
  combine8 0 b7 b6 b5 b4 b3 b2 b1 b0 =
  b7 * 2 ^ 56 + b6 * 2 ^ 48 + b5 * 2 ^ 40 + b4 * 2 ^ 32
  + b3 * 2 ^ 24 + b2 * 2 ^ 16 + b1 * 2 ^ 8 + b0.
Proof.
  intros. unfold combine8. rewrite Z.lor_0_l.
  rewrite !Z.shiftl_mul_pow2 by lia. rewrite !u64_small by lia.
  rewrite (lor_disjoint_add b7 (b6 * 2 ^ 48) 56) by lia.
  replace (b7 * 2 ^ 56 + b6 * 2 ^ 48) with ((b7 * 2 ^ 8 + b6) * 2 ^ 48) by lia.
  rewrite (lor_disjoint_add _ (b5 * 2 ^ 40) 48) by lia.
  replace ((b7 * 2 ^ 8 + b6) * 2 ^ 48 + b5 * 2 ^ 40)
    with ((b7 * 2 ^ 16 + b6 * 2 ^ 8 + b5) * 2 ^ 40) by lia.
  rewrite (lor_disjoint_add _ (b4 * 2 ^ 32) 40) by lia.
  replace ((b7 * 2 ^ 16 + b6 * 2 ^ 8 + b5) * 2 ^ 40 + b4 * 2 ^ 32)
    with ((b7 * 2 ^ 24 + b6 * 2 ^ 16 + b5 * 2 ^ 8 + b4) * 2 ^ 32) by lia.
  rewrite (lor_disjoint_add _ (b3 * 2 ^ 24) 32) by lia.
  replace ((b7 * 2 ^ 24 + b6 * 2 ^ 16 + b5 * 2 ^ 8 + b4) * 2 ^ 32 + b3 * 2 ^ 24)
    with ((b7 * 2 ^ 32 + b6 * 2 ^ 24 + b5 * 2 ^ 16 + b4 * 2 ^ 8 + b3) * 2 ^ 24) by lia.
  rewrite (lor_disjoint_add _ (b2 * 2 ^ 16) 24) by lia.
  replace ((b7 * 2 ^ 32 + b6 * 2 ^ 24 + b5 * 2 ^ 16 + b4 * 2 ^ 8 + b3) * 2 ^ 24 + b2 * 2 ^ 16)
    with ((b7 * 2 ^ 40 + b6 * 2 ^ 32 + b5 * 2 ^ 24 + b4 * 2 ^ 16 + b3 * 2 ^ 8 + b2) * 2 ^ 16)
    by lia.
  rewrite (lor_disjoint_add _ (b1 * 2 ^ 8) 16) by lia.
  replace ((b7 * 2 ^ 40 + b6 * 2 ^ 32 + b5 * 2 ^ 24 + b4 * 2 ^ 16 + b3 * 2 ^ 8 + b2) * 2 ^ 16
           + b1 * 2 ^ 8)
    with ((b7 * 2 ^ 48 + b6 * 2 ^ 40 + b5 * 2 ^ 32 + b4 * 2 ^ 24 + b3 * 2 ^ 16 + b2 * 2 ^ 8 + b1)
          * 2 ^ 8) by lia.
  rewrite lor_disjoint_add by lia. lia.
Qed.

Lemma combine8_bytes w :
  is_u64 w →
  combine8 0 (byte_at w 56) (byte_at w 48) (byte_at w 40) (byte_at w 32)
             (byte_at w 24) (byte_at w 16) (byte_at w 8) (byte_at w 0) = w.
Proof.
  intros. rewrite combine8_sum by (apply byte_at_range; lia).
  rewrite !byte_at_div by lia. zlia.
Qed.

Lemma bytes_combine8 b7 b6 b5 b4 b3 b2 b1 b0 :
  0 ≤ b7 < 256 → 0 ≤ b6 < 256 → 0 ≤ b5 < 256 → 0 ≤ b4 < 256 →
  0 ≤ b3 < 256 → 0 ≤ b2 < 256 → 0 ≤ b1 < 256 → 0 ≤ b0 < 256 →
  let w := combine8 0 b7 b6 b5 b4 b3 b2 b1 b0 in
  byte_at w 56 = b7 ∧ byte_at w 48 = b6 ∧ byte_at w 40 = b5 ∧ byte_at w 32 = b4 ∧
  byte_at w 24 = b3 ∧ byte_at w 16 = b2 ∧ byte_at w 8 = b1 ∧ byte_at w 0 = b0.
Proof.
  intros. subst w. rewrite combine8_sum by done. rewrite !byte_at_div by lia.
  split_and!; zlia.
Qed.

(** ** The guid layout *)

(** 32 digits with dashes after the 8th, 12th, 16th and 20th. *)
Definition guid (ds : cstring) : cstring :=
  take 8 ds ++ dash :: take 4 (drop 8 ds) ++ dash :: take 4 (drop 12 ds)
  ++ dash :: take 4 (drop 16 ds) ++ dash :: drop 20 ds.

(** The [k]th byte written by the digits [ds]. *)
Definition digit_byte (ds : cstring) (k : nat) : Z :=
  pair_val (nth (2 * k) ds "000"%char) (nth (2 * k + 1) ds "000"%char).

Definition high_of_digits (w : Z) (ds : cstring) : Z :=
  combine8 w (digit_byte ds 0) (digit_byte ds 1) (digit_byte ds 2) (digit_byte ds 3)
             (digit_byte ds 4) (digit_byte ds 5) (digit_byte ds 6) (digit_byte ds 7).

Definition low_of_digits (w : Z) (ds : cstring) : Z :=
  combine8 w (digit_byte ds 8) (digit_byte ds 9) (digit_byte ds 10) (digit_byte ds 11)
             (digit_byte ds 12) (digit_byte ds 13) (digit_byte ds 14) (digit_byte ds 15).

Lemma digit_byte_range ds k :
  Forall (λ c, is_hex_upper c = true) ds → (2 * k + 1 < length ds)%nat →
  0 ≤ digit_byte ds k < 256.
Proof.
  intros Hds Hk. rewrite Forall_forall in Hds. setoid_rewrite list_elem_of_In in Hds.
  apply pair_val_range; apply Hds, nth_In; lia.
Qed.

Lemma valid_chars_app s1 s2 : valid_chars (s1 ++ s2) = valid_chars s1 && valid_chars s2.
Proof. induction s1 as [|c s1 IH]; [done|]. simpl. rewrite IH. by repeat case_match. Qed.

Lemma valid_chars_digits ds :
  Forall (λ c, is_hex_upper c = true) ds → valid_chars ds = true.
Proof.
  induction 1 as [|c ds Hc _ IH]; [done|]. simpl.
  apply is_hex_upper_spec in Hc as (_&_&_&_&_&->&->). by case_match.
Qed.

Lemma AppendHex_digit ds k s :
  length ds = 32%nat → Forall (λ c, is_hex_upper c = true) ds → (k < 16)%nat →
  AppendHex (digit_byte ds k) s =
    Some (s ++ [nth (2 * k) ds "000"%char; nth (2 * k + 1) ds "000"%char]).
Proof.
  intros Hlen Hds Hk. rewrite Forall_forall in Hds. setoid_rewrite list_elem_of_In in Hds.
  apply AppendHex_pair; apply Hds, nth_In; lia.
Qed.

#[local] Opaque AppendHex digit_byte combine8.

Lemma ToString_guid ds u :
  length ds = 32%nat → Forall (λ c, is_hex_upper c = true) ds →
  high u = high_of_digits 0 ds → low u = low_of_digits 0 ds →
  ToString u = Some (guid ds).
Proof.
  intros Hlen Hds Hh Hl.
  assert (∀ k, (k < 16)%nat → 0 ≤ digit_byte ds k < 256) as Hr
    by (intros; apply digit_byte_range; [done|lia]).
  pose proof (λ k s, AppendHex_digit ds k s Hlen Hds) as Ha.
  destruct (bytes_combine8 (digit_byte ds 0) (digit_byte ds 1) (digit_byte ds 2)
    (digit_byte ds 3) (digit_byte ds 4) (digit_byte ds 5) (digit_byte ds 6) (digit_byte ds 7))
    as (H0&H1&H2&H3&H4&H5&H6&H7); [apply Hr; lia..|].
  destruct (bytes_combine8 (digit_byte ds 8) (digit_byte ds 9) (digit_byte ds 10)
    (digit_byte ds 11) (digit_byte ds 12) (digit_byte ds 13) (digit_byte ds 14)
    (digit_byte ds 15)) as (L0&L1&L2&L3&L4&L5&L6&L7); [apply Hr; lia..|].
  unfold byte_at in *. rewrite Z.shiftr_0_r in H7, L7.
  unfold ToString. rewrite Hh, Hl. unfold high_of_digits, low_of_digits.
  rewrite H0, H1, H2, H3, H4, H5, H6, H7, L0, L1, L2, L3, L4, L5, L6, L7.
  cbv zeta. repeat (rewrite Ha by lia; cbn [mbind option_bind]).
  f_equal. clear -Hlen. explode_list ds Hlen. reflexivity.
Qed.

#[local] Transparent AppendHex digit_byte combine8.

(** Where the digits of the [k]th byte are in the guid. *)
Definition byte_offset (k : nat) : nat :=
  2 * k + (if bool_decide (4 ≤ k)%nat then 1 else 0) + (if bool_decide (6 ≤ k)%nat then 1 else 0)
  + (if bool_decide (8 ≤ k)%nat then 1 else 0) + (if bool_decide (10 ≤ k)%nat then 1 else 0).

Lemma guid_bytes ds k :
  length ds = 32%nat → (k < 16)%nat →
  take 2 (drop (byte_offset k) (guid ds)) =
    [nth (2 * k) ds "000"%char; nth (2 * k + 1) ds "000"%char].
Proof.
  intros Hlen Hk. explode_list ds Hlen.
  do 16 (destruct k as [|k]; [reflexivity|]). lia.
Qed.

Lemma ReadHex_guid ds k :
  length ds = 32%nat → Forall (λ c, is_hex_upper c = true) ds → (k < 16)%nat →
  ReadHex (guid ds) (byte_offset k) = digit_byte ds k.
Proof.
  intros Hlen Hds Hk. unfold ReadHex. rewrite guid_bytes by done.
  rewrite Forall_forall in Hds. setoid_rewrite list_elem_of_In in Hds.
  apply istream_pair_val; apply Hds, nth_In; lia.
Qed.

Lemma guid_shape ds :
  length ds = 32%nat →
  length (guid ds) = 36%nat ∧ char_at (guid ds) 8 = dash ∧ char_at (guid ds) 13 = dash ∧
  char_at (guid ds) 18 = dash ∧ char_at (guid ds) 23 = dash.
Proof. intros Hlen. explode_list ds Hlen. done. Qed.

Lemma guid_valid_chars ds :
  Forall (λ c, is_hex_upper c = true) ds → valid_chars (guid ds) = true.
Proof.
  intros. unfold guid. repeat (rewrite valid_chars_app; cbn [valid_chars];
    rewrite bool_decide_eq_true_2 by done).
  by rewrite !valid_chars_digits by auto using Forall_take, Forall_drop.
Qed.

Lemma FromString_guid ds u :
  length ds = 32%nat → Forall (λ c, is_hex_upper c = true) ds →
  FromString (guid ds) u =
    (SuccessExecutionResult, mkUuid (high_of_digits (high u) ds) (low_of_digits (low u) ds)).
Proof.
  intros Hlen Hds. pose proof (λ k, ReadHex_guid ds k Hlen Hds) as Hread.
  destruct (guid_shape ds Hlen) as (Hl&H8&H13&H18&H23).
  unfold FromString. rewrite guid_valid_chars by done.
  rewrite !bool_decide_eq_true_2 by done. cbn [negb orb].
  unfold high_of_digits, low_of_digits, combine8. rewrite <-!Hread by lia. done.
Qed.

(** A canonical guid string: 36 characters, dashes at positions 8, 13, 18
    and 23 and upper-case hexadecimal digits elsewhere. *)
Definition canonical (s : cstring) : Prop :=
  ∃ ds, length ds = 32%nat ∧ Forall (λ c, is_hex_upper c = true) ds ∧ s = guid ds.

Lemma word_digits w :
  ∃ ds, length ds = 16%nat ∧ Forall (λ c, is_hex_upper c = true) ds ∧
    ∀ rest, digit_byte (ds ++ rest) 0 = byte_at w 56 ∧ digit_byte (ds ++ rest) 1 = byte_at w 48 ∧
      digit_byte (ds ++ rest) 2 = byte_at w 40 ∧ digit_byte (ds ++ rest) 3 = byte_at w 32 ∧
      digit_byte (ds ++ rest) 4 = byte_at w 24 ∧ digit_byte (ds ++ rest) 5 = byte_at w 16 ∧
      digit_byte (ds ++ rest) 6 = byte_at w 8 ∧ digit_byte (ds ++ rest) 7 = byte_at w 0.
Proof.
  assert (∀ k, 0 ≤ k → ∃ c1 c2, is_hex_upper c1 = true ∧ is_hex_upper c2 = true ∧
    pair_val c1 c2 = byte_at w k) as Hp by (intros; by apply byte_pair, byte_at_range).
  destruct (Hp 56) as (a0&a1&?&?&?); [lia|]. destruct (Hp 48) as (a2&a3&?&?&?); [lia|].
  destruct (Hp 40) as (a4&a5&?&?&?); [lia|]. destruct (Hp 32) as (a6&a7&?&?&?); [lia|].
  destruct (Hp 24) as (a8&a9&?&?&?); [lia|]. destruct (Hp 16) as (a10&a11&?&?&?); [lia|].
  destruct (Hp 8) as (a12&a13&?&?&?); [lia|]. destruct (Hp 0) as (a14&a15&?&?&?); [lia|].
  exists [a0; a1; a2; a3; a4; a5; a6; a7; a8; a9; a10; a11; a12; a13; a14; a15].
  split; [done|]. split; [by repeat constructor|]. intros rest. by split_and!.
Qed.

Lemma digit_byte_app ds rest k :
  length ds = 16%nat → digit_byte (ds ++ rest) (8 + k) = digit_byte rest k.
Proof.
  intros Hlen. unfold digit_byte. rewrite !app_nth2 by lia.
  rewrite Hlen. f_equal; f_equal; lia.
Qed.

Lemma uuid_digits u :
  is_u64 (high u) → is_u64 (low u) →
  ∃ ds, length ds = 32%nat ∧ Forall (λ c, is_hex_upper c = true) ds ∧
    high_of_digits 0 ds = high u ∧ low_of_digits 0 ds = low u.
Proof.
  intros Hh Hl.
  destruct (word_digits (high u)) as (d1&Hlen1&Hd1&Hb1).
  destruct (word_digits (low u)) as (d2&Hlen2&Hd2&Hb2).
  exists (d1 ++ d2). split; [rewrite length_app; lia|]. split; [by apply Forall_app|].
  unfold high_of_digits, low_of_digits.
  specialize (Hb1 d2) as (->&->&->&->&->&->&->&->).
  specialize (Hb2 []) as (H0&H1&H2&H3&H4&H5&H6&H7). rewrite app_nil_r in *.
  pose proof (λ k, digit_byte_app d1 d2 k Hlen1) as Happ.
  rewrite <-(Happ 0%nat) in H0. rewrite <-(Happ 1%nat) in H1. rewrite <-(Happ 2%nat) in H2.
  rewrite <-(Happ 3%nat) in H3. rewrite <-(Happ 4%nat) in H4. rewrite <-(Happ 5%nat) in H5.
  rewrite <-(Happ 6%nat) in H6. rewrite <-(Happ 7%nat) in H7. cbn [Nat.add] in *.
  rewrite H0, H1, H2, H3, H4, H5, H6, H7. split; by apply combine8_bytes.
Qed.

(** ** Claims *)

(** Printing then parsing: every uuid prints without error as a canonical
    guid string, and [FromString] reads that string back as the same uuid. *)
Theorem uuid_print_parse u :
  is_u64 (high u) → is_u64 (low u) →
  ∃ s, ToString u = Some s ∧ canonical s ∧
       FromString s kZeroUuid = (SuccessExecutionResult, u).
Proof.
  intros Hh Hl. destruct (uuid_digits u Hh Hl) as (ds&Hlen&Hds&Eh&El).
  exists (guid ds). split; [by apply ToString_guid|]. split; [by exists ds|].
  rewrite FromString_guid by done. simpl. rewrite Eh, El. by destruct u.
Qed.

Lemma uuid_print_parse_witness :
  ∃ s, ToString (mkUuid 0x0123456789ABCDEF 0xFFFFFFFFFFFFFFFF) = Some s ∧ canonical s ∧
    FromString s kZeroUuid
    = (SuccessExecutionResult, mkUuid 0x0123456789ABCDEF 0xFFFFFFFFFFFFFFFF).
Proof. apply (uuid_print_parse (mkUuid 0x0123456789ABCDEF 0xFFFFFFFFFFFFFFFF)); simpl; lia. Defined.

(** Parsing then printing: every canonical guid string is accepted, and
    printing the parsed uuid gives the same string, so that on canonical
    strings the two conversions are inverse bijections. *)
Theorem uuid_parse_print s :
  canonical s →
  ∃ u, FromString s kZeroUuid = (SuccessExecutionResult, u) ∧ ToString u = Some s.
Proof.
  intros (ds&Hlen&Hds&->). eexists. split; [by apply FromString_guid|].
  by apply ToString_guid.
Qed.

Lemma uuid_parse_print_witness :
  ∃ u, FromString (guid (replicate 32 "A"%char)) kZeroUuid = (SuccessExecutionResult, u) ∧
    ToString u = Some (guid (replicate 32 "A"%char)).
Proof.
  apply (uuid_parse_print (guid (replicate 32 "A"%char))).
  exists (replicate 32 "A"%char). split; [reflexivity|].
  split; [apply Forall_replicate; reflexivity|reflexivity].
Defined.

(** [FromString] decides by the shape of the string alone: it succeeds
    exactly on 36 characters with dashes at positions 8, 13, 18 and 23 and only
    dashes and upper-case hexadecimal digits elsewhere; otherwise it fails with
    [SC_UUID_INVALID_STRING] and leaves the uuid as it was. *)
Theorem uuid_parse_shape s u :
  let shape := length s = 36%nat ∧ char_at s 8 = dash ∧ char_at s 13 = dash ∧
               char_at s 18 = dash ∧ char_at s 23 = dash ∧
               Forall (λ c, c = dash ∨ is_hex_upper c = true) s in
  (shape → (FromString s u).1 = SuccessExecutionResult) ∧
  (~ shape → FromString s u = (FailureExecutionResult SC_UUID_INVALID_STRING, u)).
Proof.
  assert (valid_chars s = true ↔ Forall (λ c, c = dash ∨ is_hex_upper c = true) s) as Hv.
  { induction s as [|c s IH]; [done|]. rewrite Forall_cons, <-IH. simpl.
    unfold is_hex_upper. case_bool_decide; [naive_solver|].
    destruct (isxdigit c), (islower c); simpl; naive_solver. }
  cbv zeta. rewrite <-Hv. unfold FromString. split.
  - intros (Hl&H8&H13&H18&H23&->).
    rewrite !bool_decide_eq_true_2 by done. done.
  - intros Hn. repeat case_bool_decide; simpl; try done.
    destruct (valid_chars s); naive_solver.
Qed.

(** The check of the characters does not confine dashes to their four
    places: 36 dashes parse successfully, and a dash in a digit position is
    read as a sign, so that [00-A0000-0000-0000-0000-000000000000] is accepted
    and sets the byte before it as well. *)
Theorem uuid_parse_accepts_stray_dash :
  FromString (replicate 36 dash) kZeroUuid = (SuccessExecutionResult, kZeroUuid) ∧
  ∃ u, FromString (guid ("0" :: "0" :: dash :: "A" :: replicate 28 "0")%char) kZeroUuid
       = (SuccessExecutionResult, u) ∧ high u = 0xFFF6000000000000 ∧
       ToString u ≠ Some (guid ("0" :: "0" :: dash :: "A" :: replicate 28 "0")%char).
Proof. split; [vm_compute; done|]. eexists. split_and!; [vm_compute; reflexivity..|vm_compute; done]. Qed.
