(* ===== verification/Serialization.v ===== *)
(** * Serialization

    Models [cc/core/common/serialization/src/serialization.h] and the
    [BytesBuffer] and [Version] structures of
    [cc/core/interface/type_def.h]: integers, uuids, versions and protobuf
    messages written into and read from a byte buffer at an offset.

    Every operation returns [None] when it would touch memory outside of the
    buffer's vector.  Reference parameters are passed in and returned.
    Integers are laid out as on the x86-64 targets of the libraries:
    little-endian two's complement.  Protobuf is not part of the sources: a
    message type is an instance of [ProtoMessage]. *)

From S2P Require Import Prelude ExecResult UuidLib.

Local Open Scope Z_scope.

(** ** Data *)

Record BytesBuffer := mkBytesBuffer {
  bytes : option (list Z);  (* the shared vector; [None] is the null pointer *)
  length_ : Z;
  capacity : Z
}.

(** [BytesBuffer(size_t)]. *)
Definition BytesBuffer_of_size (size : Z) : BytesBuffer :=
  mkBytesBuffer (Some (replicate (Z.to_nat size) 0)) 0 size.

(** [BytesBuffer(const std::string&)]. *)
Definition BytesBuffer_of_string (buffer_string : list Z) : BytesBuffer :=
  mkBytesBuffer (Some buffer_string) (zlen buffer_string) (zlen buffer_string).

(** [BytesBuffer(bytes_buffer, prefix_length_to_use)], with its assertion. *)
Definition BytesBuffer_prefix (b : BytesBuffer) (prefix_length_to_use : Z) : option BytesBuffer :=
  if bool_decide (prefix_length_to_use ≤ capacity b)
  then Some (mkBytesBuffer (bytes b) prefix_length_to_use (capacity b)) else None.

Definition BytesBuffer_ToString (b : BytesBuffer) : option (list Z) :=
  v ← bytes b; mem_read v 0 (length_ b).

Definition BytesBuffer_Reset (b : BytesBuffer) : BytesBuffer := mkBytesBuffer None 0 0.

Definition BytesBuffer_Size (b : BytesBuffer) : Z := length_ b.

Record Version := mkVersion { major : Z; minor : Z }.

(** The scalar types [Serialize<T>] is instantiated with: their size in
    bytes, and whether [std::is_integral_v] holds of them. *)
Inductive CxxType :=
  | Integral (size : Z) (signed : bool)
  | NonIntegral (size : Z).

Definition sizeof (t : CxxType) : Z :=
  match t with Integral n _ => n | NonIntegral n => n end.

Definition is_integral (t : CxxType) : bool :=
  match t with Integral _ _ => true | NonIntegral _ => false end.

Definition uint64_t : CxxType := Integral 8 false.

(** The object representation of an integer, and the value it represents. *)
Definition object_bytes (t : CxxType) (v : Z) : list Z := Z_to_little_endian (sizeof t) 8 v.

#[global] Arguments object_bytes : simpl never.

Definition value_of_bytes (t : CxxType) (bs : list Z) : Z :=
  let z := little_endian_to_Z 8 bs in
  match t with
  | Integral n true => if bool_decide (2 ^ (8 * n - 1) ≤ z) then z - 2 ^ (8 * n) else z
  | _ => z
  end.

Definition in_range (t : CxxType) (v : Z) : Prop :=
  match t with
  | Integral n true => - 2 ^ (8 * n - 1) ≤ v < 2 ^ (8 * n - 1)
  | Integral n false => 0 ≤ v < 2 ^ (8 * n)
  | NonIntegral _ => False
  end.

(** What the code uses of a protobuf message. *)
Class ProtoMessage (M : Type) := {
  ByteSizeLong : M → Z;
  (** [SerializeToArray] into a region of the given size: the bytes written,
      or [None] when it returns false. *)
  SerializeToArray : M → Z → option (list Z);
  (** [ParseFromArray] into an object: whether it succeeds, and the object
      it leaves. *)
  ParseFromArray : M → list Z → bool * M
}.

(** The documented behaviour of protobuf: serialization of a message fills
    exactly [ByteSizeLong] bytes, and parsing them into any object yields the
    message; the size fits a [size_t]. *)
Class ProtoMessageLaws (M : Type) `{ProtoMessage M} := {
  ByteSizeLong_range m : 0 ≤ ByteSizeLong m < 2 ^ 64;
  SerializeToArray_spec m :
    ∃ bs, SerializeToArray m (ByteSizeLong m) = Some bs ∧
          zlen bs = ByteSizeLong m ∧ ∀ m0, ParseFromArray m0 bs = (true, m)
}.

(** ** Error codes *)

Definition SC_SERIALIZATION_BUFFER_NOT_WRITABLE : Z := MakeErrorCode 0x000B 1.
Definition SC_SERIALIZATION_BUFFER_NOT_READABLE : Z := MakeErrorCode 0x000B 2.
Definition SC_SERIALIZATION_PROTO_SERIALIZATION_FAILED : Z := MakeErrorCode 0x000B 3.
Definition SC_SERIALIZATION_PROTO_DESERIALIZATION_FAILED : Z := MakeErrorCode 0x000B 4.
Definition SC_SERIALIZATION_INVALID_SERIALIZATION_TYPE : Z := MakeErrorCode 0x000B 5.
Definition SC_SERIALIZATION_VERSION_IS_INVALID : Z := MakeErrorCode 0x000B 6.

(** ** Operations *)

(** [memcpy] to and from [bytes_buffer.bytes->data() + offset]. *)
Definition store (b : BytesBuffer) (offset : Z) (bs : list Z) : option BytesBuffer :=
  v ← bytes b; v' ← mem_write v offset bs;
  Some (mkBytesBuffer (Some v') (length_ b) (capacity b)).

Definition load (b : BytesBuffer) (offset n : Z) : option (list Z) :=
  v ← bytes b; mem_read v offset n.

(** [Serialize<T>] for a scalar [T]. *)
Definition Serialize (t : CxxType) (bytes_buffer : BytesBuffer) (buffer_offset : Z)
    (value_to_serialize : Z) (bytes_serialized : Z)
  : option (ExecutionResult * BytesBuffer * Z) :=
  if negb (is_integral t) then
    Some (FailureExecutionResult SC_SERIALIZATION_INVALID_SERIALIZATION_TYPE,
          bytes_buffer, bytes_serialized)
  else
    let size_of_object_in_bytes := sizeof t in
    if bool_decide (capacity bytes_buffer < u64 (buffer_offset + size_of_object_in_bytes)) then
      Some (FailureExecutionResult SC_SERIALIZATION_BUFFER_NOT_WRITABLE, bytes_buffer, 0)
    else
      bb ← store bytes_buffer buffer_offset (object_bytes t value_to_serialize);
      Some (SuccessExecutionResult, bb, size_of_object_in_bytes).

(** [Deserialize<T>] for a scalar [T]. *)
Definition Deserialize (t : CxxType) (bytes_buffer : BytesBuffer) (buffer_offset : Z)
    (value_to_deserialize : Z) (bytes_deserialized : Z)
  : option (ExecutionResult * Z * Z) :=
  if negb (is_integral t) then
    Some (FailureExecutionResult SC_SERIALIZATION_INVALID_SERIALIZATION_TYPE,
          value_to_deserialize, bytes_deserialized)
  else
    let size_of_object_in_bytes := sizeof t in
    if bool_decide (length_ bytes_buffer < u64 (buffer_offset + size_of_object_in_bytes)) then
      Some (FailureExecutionResult SC_SERIALIZATION_BUFFER_NOT_READABLE,
            value_to_deserialize, 0)
    else
      bs ← load bytes_buffer buffer_offset size_of_object_in_bytes;
      Some (SuccessExecutionResult, value_of_bytes t bs, size_of_object_in_bytes).

(** [Serialize<common::Uuid>]. *)
Definition Serialize_Uuid (bytes_buffer : BytesBuffer) (buffer_offset : Z)
    (value_to_serialize : Uuid) : option (ExecutionResult * BytesBuffer * Z) :=
  let size_of_object_in_bytes := 2 * 8 in
  if bool_decide (capacity bytes_buffer < u64 (buffer_offset + size_of_object_in_bytes)) then
    Some (FailureExecutionResult SC_SERIALIZATION_BUFFER_NOT_WRITABLE, bytes_buffer, 0)
  else
    '(r, bb, n) ← Serialize uint64_t bytes_buffer buffer_offset (high value_to_serialize) 0;
    if negb (Successful r) then Some (r, bb, n) else
    '(r, bb, n) ← Serialize uint64_t bb (u64 (buffer_offset + n)) (low value_to_serialize) n;
    if negb (Successful r) then Some (r, bb, n) else
    Some (SuccessExecutionResult, bb, size_of_object_in_bytes).

(** [Deserialize<common::Uuid>]. *)
Definition Deserialize_Uuid (bytes_buffer : BytesBuffer) (buffer_offset : Z)
    (value_to_deserialize : Uuid) : option (ExecutionResult * Uuid * Z) :=
  let size_of_object_in_bytes := 2 * 8 in
  if bool_decide (length_ bytes_buffer < u64 (buffer_offset + size_of_object_in_bytes)) then
    Some (FailureExecutionResult SC_SERIALIZATION_BUFFER_NOT_READABLE, value_to_deserialize, 0)
  else
    '(r, h, n) ← Deserialize uint64_t bytes_buffer buffer_offset (high value_to_deserialize) 0;
    let value := mkUuid h (low value_to_deserialize) in
    if negb (Successful r) then Some (r, value, n) else
    '(r, l, n) ← Deserialize uint64_t bytes_buffer (u64 (buffer_offset + n)) (low value) n;
    let value := mkUuid (high value) l in
    if negb (Successful r) then Some (r, value, n) else
    Some (SuccessExecutionResult, value, size_of_object_in_bytes).

(** [Serialize<Version>]. *)
Definition Serialize_Version (bytes_buffer : BytesBuffer) (buffer_offset : Z)
    (value_to_serialize : Version) : option (ExecutionResult * BytesBuffer * Z) :=
  let size_of_object_in_bytes := 2 * 8 in
  if bool_decide (capacity bytes_buffer < u64 (buffer_offset + size_of_object_in_bytes)) then
    Some (FailureExecutionResult SC_SERIALIZATION_BUFFER_NOT_WRITABLE, bytes_buffer, 0)
  else
    '(r, bb, n) ← Serialize uint64_t bytes_buffer buffer_offset (major value_to_serialize) 0;
    if negb (Successful r) then Some (r, bb, n) else
    '(r, bb, n) ← Serialize uint64_t bb (u64 (buffer_offset + n)) (minor value_to_serialize) n;
    if negb (Successful r) then Some (r, bb, n) else
    Some (SuccessExecutionResult, bb, size_of_object_in_bytes).

(** [Deserialize<Version>]. *)
Definition Deserialize_Version (bytes_buffer : BytesBuffer) (buffer_offset : Z)
    (value_to_deserialize : Version) : option (ExecutionResult * Version * Z) :=
  let size_of_object_in_bytes := 2 * 8 in
  if bool_decide (length_ bytes_buffer < u64 (buffer_offset + size_of_object_in_bytes)) then
    Some (FailureExecutionResult SC_SERIALIZATION_BUFFER_NOT_READABLE, value_to_deserialize, 0)
  else
    '(r, h, n) ← Deserialize uint64_t bytes_buffer buffer_offset (major value_to_deserialize) 0;
    let value := mkVersion h (minor value_to_deserialize) in
    if negb (Successful r) then Some (r, value, n) else
    '(r, l, n) ← Deserialize uint64_t bytes_buffer (u64 (buffer_offset + n)) (minor value) n;
    let value := mkVersion (major value) l in
    if negb (Successful r) then Some (r, value, n) else
    Some (SuccessExecutionResult, value, size_of_object_in_bytes).

Section proto.
  Context {M : Type} `{ProtoMessage M}.

Definition CalculateSerializationByteSize (value_to_serialize : M) : ExecutionResult * Z :=
  (SuccessExecutionResult, u64 (8 + ByteSizeLong value_to_serialize)).

(** [SerializeProtoMessage]: the bytes of the message alone. *)
Definition SerializeProtoMessage (bytes_buffer : BytesBuffer) (buffer_offset : Z)
    (value_to_serialize : M) : option (ExecutionResult * BytesBuffer * Z) :=
  let size_of_serialized_proto := ByteSizeLong value_to_serialize in
  if bool_decide (capacity bytes_buffer < u64 (buffer_offset + size_of_serialized_proto)) then
    Some (FailureExecutionResult SC_SERIALIZATION_BUFFER_NOT_WRITABLE, bytes_buffer, 0)
  else
    match SerializeToArray value_to_serialize size_of_serialized_proto with
    | None => Some (FailureExecutionResult SC_SERIALIZATION_PROTO_SERIALIZATION_FAILED,
                    bytes_buffer, 0)
    | Some bs =>
        bb ← store bytes_buffer buffer_offset bs;
        Some (SuccessExecutionResult, bb, size_of_serialized_proto)
    end.

(** [DeserializeProtoMessage] from a buffer. *)
Definition DeserializeProtoMessage (bytes_buffer : BytesBuffer) (buffer_offset message_length : Z)
    (value_to_deserialize : M) : option (ExecutionResult * M * Z) :=
  if bool_decide (length_ bytes_buffer < u64 (buffer_offset + message_length)) then
    Some (FailureExecutionResult SC_SERIALIZATION_BUFFER_NOT_READABLE, value_to_deserialize, 0)
  else if bool_decide (length_ bytes_buffer = 0) then
    Some (FailureExecutionResult SC_SERIALIZATION_PROTO_DESERIALIZATION_FAILED,
          value_to_deserialize, 0)
  else
    bs ← load bytes_buffer buffer_offset message_length;
    match ParseFromArray value_to_deserialize bs with
    | (false, m) =>
        Some (FailureExecutionResult SC_SERIALIZATION_PROTO_DESERIALIZATION_FAILED, m, 0)
    | (true, m) => Some (SuccessExecutionResult, m, ByteSizeLong m)
    end.

(** [DeserializeProtoMessage] from a string. *)
Definition DeserializeProtoMessage_string (proto_message : list Z) (value_to_deserialize : M)
  : ExecutionResult * M * Z :=
  if bool_decide (length proto_message = 0%nat) then
    (FailureExecutionResult SC_SERIALIZATION_PROTO_DESERIALIZATION_FAILED,
     value_to_deserialize, 0)
  else
    match ParseFromArray value_to_deserialize proto_message with
    | (false, m) =>
        (FailureExecutionResult SC_SERIALIZATION_PROTO_DESERIALIZATION_FAILED, m, 0)
    | (true, m) => (SuccessExecutionResult, m, zlen proto_message)
    end.

(** [Serialize<google::protobuf::Message>]: a 64-bit size, then the message. *)
Definition Serialize_Message (bytes_buffer : BytesBuffer) (buffer_offset : Z)
    (value_to_serialize : M) : option (ExecutionResult * BytesBuffer * Z) :=
  let size_of_object_size_block := 8 in
  let size_of_serialized_proto := ByteSizeLong value_to_serialize in
  if bool_decide (capacity bytes_buffer <
       u64 (buffer_offset + size_of_object_size_block + size_of_serialized_proto)) then
    Some (FailureExecutionResult SC_SERIALIZATION_BUFFER_NOT_WRITABLE, bytes_buffer, 0)
  else
    '(r, bb, n) ← Serialize uint64_t bytes_buffer buffer_offset size_of_serialized_proto 0;
    if negb (Successful r) then Some (r, bb, n) else
    match SerializeToArray value_to_serialize size_of_serialized_proto with
    | None => Some (FailureExecutionResult SC_SERIALIZATION_PROTO_SERIALIZATION_FAILED, bb, n)
    | Some bs =>
        bb ← store bb (u64 (buffer_offset + n)) bs;
        Some (SuccessExecutionResult, bb,
              u64 (size_of_object_size_block + size_of_serialized_proto))
    end.

(** [Deserialize<google::protobuf::Message>]; a message of size 0 is left as
    it was given. *)
Definition Deserialize_Message (bytes_buffer : BytesBuffer) (buffer_offset : Z)
    (value_to_deserialize : M) : option (ExecutionResult * M * Z) :=
  let size_of_object_size_block := 8 in
  if bool_decide (length_ bytes_buffer < u64 (buffer_offset + size_of_object_size_block)) then
    Some (FailureExecutionResult SC_SERIALIZATION_BUFFER_NOT_READABLE, value_to_deserialize, 0)
  else
    '(r, size_of_serialized_proto, n) ← Deserialize uint64_t bytes_buffer buffer_offset 0 0;
    if negb (Successful r) then Some (r, value_to_deserialize, n) else
    if bool_decide (length_ bytes_buffer <
         u64 (buffer_offset + size_of_object_size_block + size_of_serialized_proto)) then
      Some (FailureExecutionResult SC_SERIALIZATION_BUFFER_NOT_READABLE, value_to_deserialize, n)
    else
      let total := u64 (size_of_object_size_block + size_of_serialized_proto) in
      if bool_decide (size_of_serialized_proto = 0) then
        Some (SuccessExecutionResult, value_to_deserialize, total)
      else
        bs ← load bytes_buffer (u64 (buffer_offset + n)) size_of_serialized_proto;
        match ParseFromArray value_to_deserialize bs with
        | (false, m) =>
            Some (FailureExecutionResult SC_SERIALIZATION_PROTO_DESERIALIZATION_FAILED, m, n)
        | (true, m) => Some (SuccessExecutionResult, m, total)
        end.

Definition ValidateVersion (version_of : M → Version) (proto_message : M)
    (supported_version : Version) : ExecutionResult :=
  if negb (bool_decide (major (version_of proto_message) = major supported_version))
     || negb (bool_decide (minor (version_of proto_message) = minor supported_version))
  then FailureExecutionResult SC_SERIALIZATION_VERSION_IS_INVALID
  else SuccessExecutionResult.
End proto.

(** ** Lemmas *)

(** The buffers the constructors make: the vector has the stated capacity,
    and the used length is within it. *)
Definition buffer_wf (b : BytesBuffer) : Prop :=
  (∃ v, bytes b = Some v ∧ zlen v = capacity b) ∧
  0 ≤ length_ b ≤ capacity b ∧ capacity b < 2 ^ 64.

(** The buffer with its [length] field set by the caller. *)
Definition with_length (b : BytesBuffer) (n : Z) : BytesBuffer :=
  mkBytesBuffer (bytes b) n (capacity b).

Lemma buffer_wf_of_size n : 0 ≤ n < 2 ^ 64 → buffer_wf (BytesBuffer_of_size n).
Proof.
  intros. split; simpl; [|lia]. eexists. split; [done|].
  rewrite length_replicate. lia.
Qed.

Lemma object_bytes_length t v : 0 ≤ sizeof t → zlen (object_bytes t v) = sizeof t.
Proof. intros. unfold object_bytes. by apply length_Z_to_little_endian. Qed.

Lemma value_of_object_bytes t v :
  0 < sizeof t → in_range t v → value_of_bytes t (object_bytes t v) = v.
Proof.
  intros Hn Hr. unfold value_of_bytes, object_bytes.
  rewrite little_endian_to_Z_to_little_endian by lia.
  destruct t as [n [] | n]; simpl in *; [|rewrite Z.mul_comm, Z.mod_small; lia|done].
  rewrite (Z.mul_comm n 8).
  assert (2 ^ (8 * n) = 2 * 2 ^ (8 * n - 1)) as Hp
    by (rewrite <-Z.pow_succ_r by lia; f_equal; lia).
  assert (0 < 2 ^ (8 * n - 1)) by (apply Z.pow_pos_nonneg; lia).
  destruct (decide (0 ≤ v)) as [Hv|Hv].
  - rewrite Z.mod_small by lia. rewrite bool_decide_eq_false_2 by lia. done.
  - rewrite <-(Z.mod_add v 1), Z.mod_small by lia.
    rewrite bool_decide_eq_true_2 by lia. lia.
Qed.

Lemma store_spec b off bs :
  buffer_wf b → 0 ≤ off → off + zlen bs ≤ capacity b →
  ∃ b', store b off bs = Some b' ∧ buffer_wf b' ∧
    length_ b' = length_ b ∧ capacity b' = capacity b ∧
    load b' off (zlen bs) = Some bs ∧
    (∀ off2 n2, off2 + n2 ≤ off ∨ off + zlen bs ≤ off2 → load b' off2 n2 = load b off2 n2).
Proof.
  intros ((v&Hv&Hlen)&Hl&Hc) Hoff Hfit. unfold store, load. rewrite Hv. simpl.
  destruct (mem_write v off bs) as [v'|] eqn:Hw;
    [|rewrite mem_write_Some in Hw by lia; done].
  eexists. split; [done|]. simpl. pose proof (mem_write_length _ _ _ _ Hw) as Hl'.
  split_and!; try done.
  - split; simpl; [exists v'; split; [done|lia]|lia].
  - by eapply mem_read_write.
  - intros. by eapply mem_read_write_disjoint.
Qed.

(** A scalar that fits is written at the offset, and nothing else changes. *)
Lemma Serialize_fits t b off v n0 :
  is_integral t = true → 0 < sizeof t → buffer_wf b → 0 ≤ off → off + sizeof t ≤ capacity b →
  ∃ b', Serialize t b off v n0 = Some (SuccessExecutionResult, b', sizeof t) ∧
    buffer_wf b' ∧ length_ b' = length_ b ∧ capacity b' = capacity b ∧
    load b' off (sizeof t) = Some (object_bytes t v) ∧
    (∀ off2 n2, off2 + n2 ≤ off ∨ off + sizeof t ≤ off2 → load b' off2 n2 = load b off2 n2).
Proof.
  intros Hint Hs Hwf Hoff Hfit.
  pose proof (object_bytes_length t v ltac:(lia)) as Hlen.
  destruct (store_spec b off (object_bytes t v)) as (b'&Hst&Hwf'&Hl&Hc&Hrd&Hfr);
    [done..|lia|].
  destruct Hwf as (_&_&Hcap). unfold Serialize. rewrite Hint. simpl.
  rewrite u64_small, bool_decide_eq_false_2, Hst by lia. simpl.
  exists b'. rewrite Hlen in *. split_and!; done.
Qed.

Lemma Serialize_too_long t b off v n0 :
  is_integral t = true → capacity b < off + sizeof t → 0 ≤ off + sizeof t < 2 ^ 64 →
  Serialize t b off v n0 =
    Some (FailureExecutionResult SC_SERIALIZATION_BUFFER_NOT_WRITABLE, b, 0).
Proof.
  intros Hint Hlong Hr. unfold Serialize. rewrite Hint. simpl.
  rewrite u64_small, bool_decide_eq_true_2 by lia. done.
Qed.

Lemma Deserialize_load t b off v0 n0 bs :
  is_integral t = true → 0 < sizeof t → length_ b < 2 ^ 64 →
  0 ≤ off → off + sizeof t ≤ length_ b → load b off (sizeof t) = Some bs →
  Deserialize t b off v0 n0 = Some (SuccessExecutionResult, value_of_bytes t bs, sizeof t).
Proof.
  intros Hint Hs Hl Hoff Hfit Hld. unfold Deserialize. rewrite Hint. simpl.
  rewrite u64_small, bool_decide_eq_false_2, Hld by lia. done.
Qed.

Lemma load_with_length b n off k : load (with_length b n) off k = load b off k.
Proof. done. Qed.

(** Two adjacent loads make one. *)
Lemma load_split b off n1 n2 bs1 bs2 :
  0 ≤ n1 → 0 ≤ n2 → load b off n1 = Some bs1 → load b (off + n1) n2 = Some bs2 →
  load b off (n1 + n2) = Some (bs1 ++ bs2).
Proof.
  intros Hn1 Hn2. unfold load. destruct (bytes b) as [v|]; [|done]. simpl.
  unfold mem_read. intros H1 H2. scp_case; try lia. f_equal.
  rewrite Z2Nat.inj_add, (Z2Nat.inj_add off) by lia.
  by rewrite <-drop_drop, take_take_drop.
Qed.

(** Two consecutive 64-bit words, as uuids and versions are laid out. *)
Lemma Serialize_two_words b off x y :
  buffer_wf b → 0 ≤ off → off + 16 ≤ capacity b →
  ∃ b1 b2,
    Serialize uint64_t b off x 0 = Some (SuccessExecutionResult, b1, 8) ∧
    Serialize uint64_t b1 (u64 (off + 8)) y 8 = Some (SuccessExecutionResult, b2, 8) ∧
    buffer_wf b2 ∧ capacity b2 = capacity b ∧ length_ b2 = length_ b ∧
    load b2 off 8 = Some (object_bytes uint64_t x) ∧
    load b2 (off + 8) 8 = Some (object_bytes uint64_t y) ∧
    (∀ off2 n2, off2 + n2 ≤ off ∨ off + 16 ≤ off2 → load b2 off2 n2 = load b off2 n2).
Proof.
  intros Hwf Hoff Hfit.
  destruct (Serialize_fits uint64_t b off x 0) as (b1&H1&Hwf1&Hl1&Hc1&Hr1&Hf1);
    [done|done|done|lia|simpl; lia|].
  destruct (Serialize_fits uint64_t b1 (off + 8) y 8) as (b2&H2&Hwf2&Hl2&Hc2&Hr2&Hf2);
    [done|done|done|lia|simpl; lia|].
  exists b1, b2. rewrite u64_small by (destruct Hwf as (_&_&?); lia). simpl in *.
  split_and!; [done|done|done|congruence|congruence| |done|].
  - rewrite Hf2 by lia. done.
  - intros. rewrite Hf2, Hf1 by lia. done.
Qed.

Lemma Deserialize_two_words b off x y len x0 y0 :
  load b off 8 = Some (object_bytes uint64_t x) →
  load b (off + 8) 8 = Some (object_bytes uint64_t y) →
  is_u64 x → is_u64 y → 0 ≤ off → off + 16 ≤ len → len < 2 ^ 64 →
  Deserialize uint64_t (with_length b len) off x0 0 = Some (SuccessExecutionResult, x, 8) ∧
  Deserialize uint64_t (with_length b len) (u64 (off + 8)) y0 8
    = Some (SuccessExecutionResult, y, 8).
Proof.
  intros Hx Hy Rx Ry Hoff Hfit Hlen.
  rewrite <-(value_of_object_bytes uint64_t x), <-(value_of_object_bytes uint64_t y) by done.
  rewrite u64_small by lia.
  split; apply Deserialize_load; simpl; (done || lia).
Qed.

Lemma serialize_version_roundtrip b off ver len ver0 :
  buffer_wf b → is_u64 (major ver) → is_u64 (minor ver) → 0 ≤ off →
  off + 16 ≤ len ≤ capacity b →
  ∃ b', Serialize_Version b off ver = Some (SuccessExecutionResult, b', 16) ∧ buffer_wf b' ∧
    Deserialize_Version (with_length b' len) off ver0 = Some (SuccessExecutionResult, ver, 16).
Proof.
  intros Hwf Hh Hlow Hoff Hlen. pose proof Hwf as (_&_&Hcap).
  destruct (Serialize_two_words b off (major ver) (minor ver))
    as (b1&b2&H1&H2&Hwf2&Hc2&Hl2&Hr1&Hr2&_); [done..|lia|].
  exists b2. unfold Serialize_Version, Deserialize_Version. cbv zeta.
  simpl capacity. simpl length_.
  rewrite u64_small, !bool_decide_eq_false_2, H1 by lia. simpl. rewrite H2. simpl.
  split_and!; [done|done|].
  destruct (Deserialize_two_words b2 off (major ver) (minor ver) len (major ver0) (minor ver0))
    as [-> E2]; [done..|lia|lia|]. simpl. rewrite E2. by destruct ver.
Qed.

(** ** Claims *)

(** Scalars round trip: an integer of the type's range that fits in the
    buffer is serialized with success and the size of the type, the bytes
    outside of its place are untouched, and once the caller has set the used
    length to cover it, [Deserialize] at the same offset returns the integer. *)
Theorem serialize_roundtrip t b off v n0 len v0 m0 :
  is_integral t = true → 0 < sizeof t → in_range t v → buffer_wf b →
  0 ≤ off → off + sizeof t ≤ len ≤ capacity b →
  ∃ b', Serialize t b off v n0 = Some (SuccessExecutionResult, b', sizeof t) ∧
    buffer_wf b' ∧
    (∀ off2 n2, off2 + n2 ≤ off ∨ off + sizeof t ≤ off2 → load b' off2 n2 = load b off2 n2) ∧
    Deserialize t (with_length b' len) off v0 m0 = Some (SuccessExecutionResult, v, sizeof t).
Proof.
  intros Hint Hs Hr Hwf Hoff Hfit.
  destruct (Serialize_fits t b off v n0) as (b'&HS&Hwf'&Hl&Hc&Hrd&Hfr); [done..|lia|].
  exists b'. split_and!; [done..|]. destruct Hwf as (_&_&?).
  erewrite Deserialize_load; [|done|done|simpl; lia|done|simpl; lia|done].
  by rewrite value_of_object_bytes.
Qed.

Lemma serialize_roundtrip_witness :
  ∃ b', Serialize (Integral 4 true) (BytesBuffer_of_size 12) 3 (-5) 0
          = Some (SuccessExecutionResult, b', 4) ∧
    Deserialize (Integral 4 true) (with_length b' 12) 3 0 0
      = Some (SuccessExecutionResult, -5, 4).
Proof.
  destruct (serialize_roundtrip (Integral 4 true) (BytesBuffer_of_size 12) 3 (-5) 0 12 0 0)
    as (b'&H1&_&_&H2); [reflexivity|reflexivity|simpl; lia|apply buffer_wf_of_size; lia
    |lia|simpl; lia|].
  exists b'. split; assumption.
Defined.

(** Within a 64-bit range of offsets the scalar operations are total:
    [Serialize] and [Deserialize] on a well-formed buffer never touch memory
    outside of it; [Serialize] fails with [BUFFER_NOT_WRITABLE], the buffer
    unchanged, exactly when the value does not fit the capacity, and
    [Deserialize] with [BUFFER_NOT_READABLE] exactly when it does not fit the
    used length. *)
Theorem serialize_total t b off v n0 :
  is_integral t = true → 0 < sizeof t → buffer_wf b →
  0 ≤ off → off + sizeof t < 2 ^ 64 →
  (capacity b < off + sizeof t →
     Serialize t b off v n0 =
       Some (FailureExecutionResult SC_SERIALIZATION_BUFFER_NOT_WRITABLE, b, 0)) ∧
  (off + sizeof t ≤ capacity b →
     ∃ b', Serialize t b off v n0 = Some (SuccessExecutionResult, b', sizeof t)) ∧
  (length_ b < off + sizeof t →
     Deserialize t b off v n0 =
       Some (FailureExecutionResult SC_SERIALIZATION_BUFFER_NOT_READABLE, v, 0)) ∧
  (off + sizeof t ≤ length_ b →
     ∃ w, Deserialize t b off v n0 = Some (SuccessExecutionResult, w, sizeof t)).
Proof.
  intros Hint Hs Hwf Hoff Hr. split_and!.
  - intros. apply Serialize_too_long; [done|lia|lia].
  - intros. destruct (Serialize_fits t b off v n0) as (b'&HS&_); [done..|]. eauto.
  - intros. unfold Deserialize. rewrite Hint. simpl.
    rewrite u64_small, bool_decide_eq_true_2 by lia. done.
  - intros Hfit. destruct Hwf as ((u&Hu&Hlen)&Hl&Hc).
    eexists. apply Deserialize_load; [done|done|lia|done|done|].
    unfold load. rewrite Hu. simpl. apply mem_read_Some; lia.
Qed.

Lemma serialize_total_witness :
  Serialize uint64_t (BytesBuffer_of_size 10) 3 1 7 =
    Some (FailureExecutionResult SC_SERIALIZATION_BUFFER_NOT_WRITABLE, BytesBuffer_of_size 10, 0).
Proof.
  apply (serialize_total uint64_t (BytesBuffer_of_size 10) 3 1 7);
    [reflexivity|reflexivity|apply buffer_wf_of_size; lia|lia|simpl; lia|simpl; lia].
Defined.

(** The bounds check adds the offset and the size in [size_t], which
    wraps: for an offset in the last [sizeof t] bytes of the address range the
    check passes on any buffer, and the copy is outside of the vector. *)
Theorem serialize_offset_overflow t b off v n0 :
  is_integral t = true → 0 < sizeof t < 2 ^ 63 → buffer_wf b →
  2 ^ 64 - sizeof t ≤ off < 2 ^ 64 → off + sizeof t - 2 ^ 64 ≤ capacity b →
  Serialize t b off v n0 = None.
Proof.
  intros Hint Hs ((u&Hu&Hlen)&Hl&Hc) Hoff Hcap. unfold Serialize. rewrite Hint. simpl.
  assert (u64 (off + sizeof t) = off + sizeof t - 2 ^ 64) as ->.
  { unfold u64. rewrite <-(Z.mod_add _ (-1)) by lia. rewrite Z.mod_small; lia. }
  rewrite bool_decide_eq_false_2 by lia. unfold store. rewrite Hu. simpl.
  pose proof (object_bytes_length t v ltac:(lia)).
  unfold mem_write. rewrite bool_decide_eq_false_2 by lia. done.
Qed.

Lemma serialize_offset_overflow_witness :
  Serialize uint64_t (BytesBuffer_of_size 16) (2 ^ 64 - 8) 1 0 = None.
Proof.
  apply (serialize_offset_overflow uint64_t (BytesBuffer_of_size 16) (2 ^ 64 - 8) 1 0);
    [reflexivity|simpl; lia|apply buffer_wf_of_size; lia|simpl; lia|simpl; lia].
Defined.

(** Uuids round trip: a uuid is serialized into sixteen bytes, the high
    word before the low word, and read back unchanged; when it does not fit,
    both operations fail with their error and change nothing. *)
Theorem serialize_uuid_roundtrip b off u len u0 :
  buffer_wf b → is_u64 (high u) → is_u64 (low u) → 0 ≤ off → off + 16 < 2 ^ 64 →
  0 ≤ len ≤ capacity b →
  (off + 16 ≤ len →
   ∃ b', Serialize_Uuid b off u = Some (SuccessExecutionResult, b', 16) ∧ buffer_wf b' ∧
     load b' off 16 = Some (object_bytes uint64_t (high u) ++ object_bytes uint64_t (low u)) ∧
     Deserialize_Uuid (with_length b' len) off u0 = Some (SuccessExecutionResult, u, 16)) ∧
  (capacity b < off + 16 →
   Serialize_Uuid b off u
     = Some (FailureExecutionResult SC_SERIALIZATION_BUFFER_NOT_WRITABLE, b, 0)) ∧
  (len < off + 16 →
   Deserialize_Uuid (with_length b len) off u0
     = Some (FailureExecutionResult SC_SERIALIZATION_BUFFER_NOT_READABLE, u0, 0)).
Proof.
  intros Hwf Hh Hlow Hoff Hr Hlen. pose proof Hwf as (_&_&Hcap). split_and!.
  - intros Hfit.
    destruct (Serialize_two_words b off (high u) (low u))
      as (b1&b2&H1&H2&Hwf2&Hc2&Hl2&Hr1&Hr2&_); [done..|lia|].
    pose proof (load_split b2 off 8 8 _ _ ltac:(lia) ltac:(lia) Hr1 Hr2) as Hr12.
    exists b2. unfold Serialize_Uuid, Deserialize_Uuid. cbv zeta. simpl capacity. simpl length_.
    rewrite u64_small, !bool_decide_eq_false_2, H1 by lia. simpl. rewrite H2. simpl.
    split_and!; [done|done|exact Hr12|].
    destruct (Deserialize_two_words b2 off (high u) (low u) len (high u0) (low u0))
      as [-> E2]; [done..|lia|lia|]. simpl. rewrite E2. by destruct u.
  - intros. unfold Serialize_Uuid. cbv zeta.
    rewrite u64_small, bool_decide_eq_true_2 by lia. done.
  - intros. unfold Deserialize_Uuid. cbv zeta. simpl length_.
    rewrite u64_small, bool_decide_eq_true_2 by lia. done.
Qed.

Lemma serialize_uuid_roundtrip_witness :
  ∃ b', Serialize_Uuid (BytesBuffer_of_size 20) 2 (mkUuid 7 9)
          = Some (SuccessExecutionResult, b', 16) ∧
        Deserialize_Uuid (with_length b' 20) 2 kZeroUuid
          = Some (SuccessExecutionResult, mkUuid 7 9, 16).
Proof.
  destruct (serialize_uuid_roundtrip (BytesBuffer_of_size 20) 2 (mkUuid 7 9) 20 kZeroUuid)
    as [H _]; [apply buffer_wf_of_size; lia|simpl; lia|simpl; lia|lia|lia|simpl; lia|].
  destruct H as (b'&H1&_&_&H2); [lia|]. exists b'. split; assumption.
Defined.

(** Messages round trip: a protobuf message that fits after its 64-bit
    size header is serialized into the buffer as the header followed by the
    message, exactly the size [CalculateSerializationByteSize] announces, and
    [Deserialize] returns the message; reading it back into an empty object
    also when the message itself is empty. *)
Theorem serialize_message_roundtrip {M} `{ProtoMessageLaws M} b off (m m0 : M) len :
  buffer_wf b → 0 ≤ off → off + 8 + ByteSizeLong m ≤ len ≤ capacity b →
  (ByteSizeLong m = 0 → m0 = m) →
  ∃ b', Serialize_Message b off m
          = Some (SuccessExecutionResult, b', (CalculateSerializationByteSize m).2) ∧
    buffer_wf b' ∧
    Deserialize_Message (with_length b' len) off m0
      = Some (SuccessExecutionResult, m, (CalculateSerializationByteSize m).2).
Proof.
  intros Hwf Hoff Hfit Hempty. pose proof (ByteSizeLong_range m) as Hsz.
  destruct (SerializeToArray_spec m) as (bs&Hser&Hbl&Hparse).
  destruct (Serialize_fits uint64_t b off (ByteSizeLong m) 0)
    as (b1&H1&Hwf1&Hl1&Hc1&Hr1&_); [done|done|done|done|simpl; lia|].
  destruct (store_spec b1 (off + 8) bs) as (b2&Hst&Hwf2&Hl2&Hc2&Hr2&Hf2);
    [done|lia|lia|].
  pose proof Hwf as (_&_&Hcap).
  exists b2. unfold Serialize_Message, Deserialize_Message. cbv zeta.
  simpl length_. simpl sizeof in *.
  rewrite u64_small, bool_decide_eq_false_2, H1 by lia. simpl.
  rewrite Hser, (u64_small (off + 8)), Hst by lia. simpl.
  split_and!; [done|done|]. rewrite bool_decide_eq_false_2 by lia.
  rewrite <-Hf2 in Hr1 by lia.
  erewrite Deserialize_load; [|done|done|simpl; lia|done|simpl; lia|exact Hr1].
  rewrite value_of_object_bytes by (simpl; lia). simpl.
  rewrite u64_small, bool_decide_eq_false_2, (u64_small (off + 8)) by lia.
  case_bool_decide as Hz; [by rewrite Hempty|].
  rewrite load_with_length, <-Hbl, Hr2. simpl. by rewrite Hparse.
Qed.

(** A message type for the witness: one boolean field, absent when false. *)
#[local] Instance flag_message : ProtoMessage bool := {
  ByteSizeLong m := if m then 2 else 0;
  SerializeToArray m _ := Some (if m then [8; 1] else []);
  ParseFromArray _ bs := (true, negb (bool_decide (bs = [])))
}.

#[local] Instance flag_message_laws : ProtoMessageLaws bool.
Proof. split; [intros []; simpl; lia|intros []; eexists; split_and!; done]. Qed.

Lemma serialize_message_roundtrip_witness :
  ∃ b', Serialize_Message (BytesBuffer_of_size 16) 1 true
          = Some (SuccessExecutionResult, b', 10) ∧
    Deserialize_Message (with_length b' 12) 1 false = Some (SuccessExecutionResult, true, 10).
Proof.
  destruct (serialize_message_roundtrip (BytesBuffer_of_size 16) 1 true false 12)
    as (b'&H1&_&H2); [apply buffer_wf_of_size; lia|lia|simpl; lia|simpl; lia|].
  exists b'. split; assumption.
Defined.
