(* ===== verification/Wasm.v ===== *)
(** * Wasm: arguments and results of WASM functions in linear memory

    Models, in [cc/roma/wasm/src], [serializer.cc], [deserializer.cc] and
    [wasm_types.h], and the parts of [cc/roma/worker/src/execution_utils.cc]
    that use them: [ParseAsWasmInput] puts the arguments of a call in the
    memory of the module, [ReadFromWasmMemory] takes its result from there.

    The memory is a list of bytes of which the code knows the size; an access
    outside of it is [None].  V8's values are [JsValue]. *)

From S2P Require Import Prelude.

Local Open Scope Z_scope.

(** ** A monad for code that changes the memory *)

Definition Mem (A : Type) : Type := list Z → option (A * list Z).

#[global] Instance Mem_ret : MRet Mem := λ A a m, Some (a, m).
#[global] Instance Mem_bind : MBind Mem := λ A B f c m, '(a, m) ← c m; f a m.

(** [a && b]. *)
Definition and_then (a b : Mem bool) : Mem bool := ok ← a; if ok : bool then b else mret false.

Definition UINT32_MAX : Z := 2 ^ 32 - 1.

Section memory.
Variable mem_size : Z.

(** ** [WasmSerializer] *)

Definition WriteUint8 (offset input : Z) : Mem bool := λ m,
  if mem_size <=? offset then Some (false, m)
  else m ← mem_write m offset [u8 input]; Some (true, m).

Definition WriteUint16 (offset input : Z) : Mem bool :=
  if mem_size <=? u64 (offset + 1) then mret false
  else and_then (WriteUint8 offset (u8 input)) (WriteUint8 (u64 (offset + 1)) (u8 (Z.shiftr input 8))).

Definition WriteUint32 (offset input : Z) : Mem bool :=
  if mem_size <=? u64 (offset + 3) then mret false
  else and_then (WriteUint16 offset (u16 input)) (WriteUint16 (u64 (offset + 2)) (u16 (Z.shiftr input 16))).

Fixpoint write_chars (local_offset : Z) (str : list Z) : Mem bool :=
  match str with
  | [] => mret true
  | c :: str => and_then (WriteUint8 local_offset (u8 c)) (write_chars (u64 (local_offset + 1)) str)
  end.

Definition WriteRawString (offset : Z) (str : list Z) : Mem bool :=
  if mem_size <=? u64 (offset + zlen str - 1) then mret false else write_chars offset str.

Definition WriteCustomString (offset : Z) (str : list Z) : Mem Z :=
  let str_data_ptr := offset in
  worked ← WriteRawString str_data_ptr str;
  if negb worked then mret UINT32_MAX
  else
    let struct_offset := u64 (str_data_ptr + zlen str) in
    worked ← and_then (WriteUint32 struct_offset (u32 str_data_ptr)) (WriteUint32 (u64 (struct_offset + 4)) (u32 (zlen str)));
    if negb worked then mret UINT32_MAX else mret (u32 struct_offset).

(** [RomaWasmStringRepresentation::ComputeMemorySizeFor]. *)
Definition string_memory_size (s : list Z) : Z := u64 (zlen s + 4 + 4).

(** The strings: their pointers, [None] after a failure, and the offset that follows. *)
Fixpoint write_strings (offset : Z) (strs : list (list Z)) : Mem (option (list Z) * Z) :=
  match strs with
  | [] => mret (Some [], offset)
  | str :: strs =>
      str_ptr ← WriteCustomString offset str;
      if str_ptr =? UINT32_MAX then mret (None, offset)
      else
        '(ptrs, offset) ← write_strings (u64 (offset + string_memory_size str)) strs;
        mret (cons str_ptr <$> ptrs, offset)
  end.

(** The array of pointers: the offset that follows, [None] after a failure. *)
Fixpoint write_pointers (offset : Z) (ptrs : list Z) : Mem (option Z) :=
  match ptrs with
  | [] => mret (Some offset)
  | p :: ptrs =>
      worked ← WriteUint32 offset p;
      if negb worked then mret None else write_pointers (u64 (offset + 4)) ptrs
  end.

Definition WriteCustomListOfString (offset : Z) (strs : list (list Z)) : Mem Z :=
  '(string_ptrs, ptr_to_array_of_str_ptrs) ← write_strings offset strs;
  match string_ptrs with
  | None => mret UINT32_MAX
  | Some string_ptrs =>
      after ← write_pointers ptr_to_array_of_str_ptrs string_ptrs;
      match after with
      | None => mret UINT32_MAX
      | Some struct_offset =>
          worked ← and_then (WriteUint32 struct_offset (u32 ptr_to_array_of_str_ptrs))
                            (WriteUint32 (u64 (struct_offset + 4)) (u32 (zlen string_ptrs)));
          if negb worked then mret UINT32_MAX else mret (u32 struct_offset)
      end
  end.

(** [RomaWasmListOfStringRepresentation::ComputeMemorySizeFor]. *)
Definition list_memory_size (strs : list (list Z)) : Z :=
  let size := foldl (λ size s, u64 (size + string_memory_size s)) 0 strs in
  let size := u64 (size + zlen strs * 4) in
  u64 (size + (4 + 4)).

(** ** [WasmDeserializer] *)

Definition ReadUint8 (m : list Z) (offset : Z) : option Z :=
  if mem_size <=? offset then Some 0 else m !! Z.to_nat offset.

Definition ReadUint16 (m : list Z) (offset : Z) : option Z :=
  if mem_size <=? u64 (offset + 1) then Some 0
  else lo ← ReadUint8 m offset; hi ← ReadUint8 m (u64 (offset + 1)); Some (u16 (Z.lor lo (Z.shiftl hi 8))).

Definition ReadUint32 (m : list Z) (offset : Z) : option Z :=
  if mem_size <=? u64 (offset + 3) then Some 0
  else lo ← ReadUint16 m offset; hi ← ReadUint16 m (u64 (offset + 2)); Some (Z.lor lo (u32 (Z.shiftl hi 16))).

(** The loop; [str] is the rest of the caller's buffer and [n] the characters to be read. *)
Fixpoint read_chars (m : list Z) (local_offset : Z) (n : nat) (str : list Z) : option (list Z) :=
  match n, str with
  | O, _ => Some str
  | S n, [] => None
  | S n, _ :: str => c ← ReadUint8 m local_offset; str ← read_chars m (u64 (local_offset + 1)) n str; Some (c :: str)
  end.

Definition ReadRawString (m : list Z) (offset : Z) (str : list Z) (str_len : Z) : option (list Z) :=
  if mem_size <=? u64 (offset + str_len - 1) then mem_write str 0 [0]
  else read_chars m offset (Z.to_nat str_len) str.

(** The buffer of the temporary string: what [reserve] asks for, and the terminator.  It holds the
    empty string. *)
Definition temp_buffer (str_data_len : Z) : list Z := replicate (S (Z.to_nat (u32 (str_data_len + 1)))) 0.

Definition ReadCustomString (m : list Z) (offset : Z) : option (list Z) :=
  if mem_size <=? u64 (offset + 7) then Some []
  else
    str_data_ptr ← ReadUint32 m offset;
    str_data_len ← ReadUint32 m (u64 (offset + 4));
    if mem_size <=? u32 (u32 (str_data_ptr + str_data_len) - 1) then Some []
    else
      buffer ← ReadRawString m str_data_ptr (temp_buffer str_data_len) str_data_len;
      first ← head buffer;
      if first =? 0 then Some [] else mem_read buffer 0 str_data_len.

(** The loop: [None] inside when the output is cleared. *)
Fixpoint read_strings (m : list Z) (offset : Z) (n : nat) (output : list (list Z)) : option (list (list Z)) :=
  match n with
  | O => Some output
  | S n =>
      if mem_size <=? u64 (offset + 3) then Some []
      else
        str_ptr ← ReadUint32 m offset;
        str ← ReadCustomString m str_ptr;
        read_strings m (u64 (offset + 4)) n (output ++ [str])
  end.

Definition ReadCustomListOfString (m : list Z) (offset : Z) (output : list (list Z)) : option (list (list Z)) :=
  if mem_size <=? u64 (offset + 7) then Some []
  else
    ptr_to_list_of_str_ptrs ← ReadUint32 m offset;
    list_length ← ReadUint32 m (u64 (offset + 4));
    if mem_size <=? u32 (u32 (ptr_to_list_of_str_ptrs + list_length) - 1) then Some []
    else read_strings m ptr_to_list_of_str_ptrs (Z.to_nat list_length) output.
End memory.

(** ** [ExecutionUtils] *)

(** What V8 says about a parsed argument.  [JsArray None] is an array with an element that is not a
    string. *)
Inductive JsValue :=
  | JsUint32 (v : Z)
  | JsInt32 (v : Z)
  | JsString (s : list Z)
  | JsArray (elements : option (list (list Z)))
  | JsUndefined
  | JsOther.

Inductive WasmDataType := kUnknownType | kUint32 | kString | kListOfString.

(** The loop over the arguments; [None] when the array is empty. *)
Fixpoint wasm_args (mem_size wasm_memory_offset : Z) (args : list JsValue) : Mem (option (list JsValue)) :=
  match args with
  | [] => mret (Some [])
  | arg :: args =>
      let next new_arg offset := rest ← wasm_args mem_size offset args; mret (cons new_arg <$> rest) in
      match arg with
      | JsUint32 _ | JsInt32 _ => next arg wasm_memory_offset
      | JsString s =>
          ptr ← WriteCustomString mem_size wasm_memory_offset s;
          if ptr =? UINT32_MAX then mret None
          else next (JsUint32 ptr) (u64 (wasm_memory_offset + string_memory_size s))
      | JsArray (Some strs) =>
          ptr ← WriteCustomListOfString mem_size wasm_memory_offset strs;
          if ptr =? UINT32_MAX then mret None
          else next (JsUint32 ptr) (u64 (wasm_memory_offset + list_memory_size strs))
      | JsArray None | JsUndefined | JsOther => mret None
      end
  end.

(** [parsed_args] is what [ParseAsJsInput] returns, [None] when it is empty; [memory] is [None] when
    the module has no memory object. *)
Definition ParseAsWasmInput (input_size : nat) (parsed_args : option (list JsValue)) (memory : option (list Z))
  : option (option (list JsValue) * option (list Z)) :=
  let args := default [] parsed_args in
  if negb (length args =? input_size)%nat then Some (None, memory)
  else match memory with
       | None => Some (parsed_args, None)
       | Some m => '(r, m) ← wasm_args (zlen m) 0 args m; Some (r, Some m)
       end.

Definition ReadFromWasmMemory (memory : option (list Z)) (offset : Z) (read_value_type : WasmDataType) : option JsValue :=
  if offset <? 0 then Some JsUndefined
  else match read_value_type with
       | kUnknownType => Some JsUndefined
       | kUint32 => Some (JsUint32 offset)
       | kString =>
           match memory with
           | None => Some JsUndefined
           | Some m => s ← ReadCustomString (zlen m) m offset; Some (JsString s)
           end
       | kListOfString =>
           match memory with
           | None => Some JsUndefined
           | Some m => strs ← ReadCustomListOfString (zlen m) m offset []; Some (JsArray (Some strs))
           end
       end.
