(* ===== verification/WasmSpec.v ===== *)
(** * WasmSpec: what the WASM serializer writes and what is read back

    A string is written as its bytes followed by a pointer to them and their
    number, a list of strings as the strings, the pointers to them and again a
    pointer and a number: [string_image] and [list_image].  Every operation is
    one write of such an image, which is what the deserializer reads. *)

From S2P Require Import Prelude Wasm.

Local Open Scope Z_scope.

(** ** Images *)

Definition le16 (v : Z) : list Z := [u8 v; u8 (Z.shiftr v 8)].
Definition le32 (v : Z) : list Z := le16 (u16 v) ++ le16 (u16 (Z.shiftr v 16)).

Definition string_image (offset : Z) (s : list Z) : list Z := s ++ le32 (u32 offset) ++ le32 (u32 (zlen s)).

Fixpoint strings_image (offset : Z) (strs : list (list Z)) : list Z :=
  match strs with
  | [] => []
  | s :: strs => string_image offset s ++ strings_image (offset + zlen s + 8) strs
  end.

(** The pointers to the strings. *)
Fixpoint string_pointers (offset : Z) (strs : list (list Z)) : list Z :=
  match strs with
  | [] => []
  | s :: strs => (offset + zlen s) :: string_pointers (offset + zlen s + 8) strs
  end.

Definition pointers_image (ps : list Z) : list Z := p ← ps; le32 p.

Definition list_image (offset : Z) (strs : list (list Z)) : list Z :=
  let strings := strings_image offset strs in
  strings ++ pointers_image (string_pointers offset strs) ++
    le32 (u32 (offset + zlen strings)) ++ le32 (u32 (zlen strs)).

Lemma le32_length v : zlen (le32 v) = 4.
Proof. done. Qed.

Lemma string_image_length offset s : zlen (string_image offset s) = zlen s + 8.
Proof. unfold string_image. rewrite !length_app. cbn. lia. Qed.

Fixpoint strings_size (strs : list (list Z)) : Z :=
  match strs with [] => 0 | s :: strs => zlen s + 8 + strings_size strs end.

Lemma strings_image_length offset strs : zlen (strings_image offset strs) = strings_size strs.
Proof.
  revert offset. induction strs as [|s strs IH]; intros offset; [done|]. cbn.
  rewrite length_app, Nat2Z.inj_add, string_image_length, IH. done.
Qed.

Lemma string_pointers_length offset strs : length (string_pointers offset strs) = length strs.
Proof. revert offset. induction strs as [|s strs IH]; intros offset; cbn; auto. Qed.

Lemma pointers_image_length ps : zlen (pointers_image ps) = 4 * zlen ps.
Proof.
  induction ps as [|p ps IH]; [done|]. unfold pointers_image in *. rewrite bind_cons, length_app. cbn [length].
  change (length (le32 p)) with 4%nat. lia.
Qed.

Lemma list_image_length offset strs : zlen (list_image offset strs) = strings_size strs + 4 * zlen strs + 8.
Proof.
  unfold list_image. rewrite !length_app, !Nat2Z.inj_add, strings_image_length, pointers_image_length, string_pointers_length.
  rewrite !le32_length. lia.
Qed.

(** The declared sizes are those of the images. *)
Lemma string_memory_size_image offset s : zlen s + 8 < 2 ^ 64 → string_memory_size s = zlen (string_image offset s).
Proof. intros. unfold string_memory_size. rewrite u64_small by lia. rewrite string_image_length. lia. Qed.

Lemma strings_size_pos strs : 0 ≤ strings_size strs.
Proof. induction strs as [|s strs IH]; cbn; lia. Qed.

Lemma strings_size_fold n strs : 0 ≤ n → n + strings_size strs < 2 ^ 64 →
  foldl (λ size s, u64 (size + string_memory_size s)) n strs = n + strings_size strs.
Proof.
  revert n. induction strs as [|s strs IH]; intros n Hn Hb; cbn in *; [lia|]. pose proof (strings_size_pos strs).
  unfold string_memory_size. rewrite !u64_small by (rewrite ?u64_small; lia). rewrite IH; lia.
Qed.

Lemma list_memory_size_image offset strs : strings_size strs + 4 * zlen strs + 8 < 2 ^ 64 →
  list_memory_size strs = zlen (list_image offset strs).
Proof.
  intros Hb. pose proof (strings_size_pos strs). unfold list_memory_size.
  rewrite strings_size_fold, !u64_small, list_image_length by (rewrite ?u64_small; lia). lia.
Qed.

(** ** Writing *)

Section writing.
Variable mem_size : Z.
Hypothesis Hsize : 0 ≤ mem_size ≤ 2 ^ 32.

(** [c] writes [bs] at [offset] and returns [a]. *)
Definition produces {A} (c : Mem A) (offset : Z) (bs : list Z) (a : A) : Prop :=
  ∀ m, zlen m = mem_size → ∃ m', mem_write m offset bs = Some m' ∧ c m = Some (a, m').

Lemma produces_ret {A} (a : A) offset : 0 ≤ offset ≤ mem_size → produces (mret a) offset [] a.
Proof. intros Hoff m Hm. exists m. split; [apply mem_write_nil; lia|done]. Qed.

Lemma produces_bind {A B} (c : Mem A) (k : A → Mem B) offset xs ys a b :
  0 ≤ offset → produces c offset xs a → produces (k a) (offset + zlen xs) ys b → produces (c ≫= k) offset (xs ++ ys) b.
Proof.
  intros Hoff Hc Hk m Hm. destruct (Hc m Hm) as (m1 & H1 & E1).
  destruct (Hk m1) as (m2 & H2 & E2); [by rewrite (mem_write_length _ _ _ _ H1)|]. exists m2.
  rewrite mem_write_app, H1 by done. split; [done|]. unfold mbind, Mem_bind. by rewrite E1.
Qed.

Lemma produces_and_then a b offset xs ys :
  0 ≤ offset → produces a offset xs true → produces b (offset + zlen xs) ys true → produces (and_then a b) offset (xs ++ ys) true.
Proof. intros. by apply (produces_bind _ _ _ _ _ true). Qed.

(** A last step that writes nothing. *)
Lemma produces_return {A B} (c : Mem A) (k : A → Mem B) offset bs a b :
  produces c offset bs a → k a = mret b → produces (c ≫= k) offset bs b.
Proof.
  intros Hc Hk m Hm. destruct (Hc m Hm) as (m1 & H1 & E1). exists m1. split; [done|].
  unfold mbind, Mem_bind. rewrite E1. cbn. by rewrite Hk.
Qed.

Lemma produces_u8 offset v : is_u8 v → 0 ≤ offset < mem_size → produces (WriteUint8 mem_size offset v) offset [v] true.
Proof.
  intros Hv Hoff m Hm. unfold WriteUint8. rewrite u8_small by done. destruct (Z.leb_spec mem_size offset); [lia|].
  rewrite mem_write_Some by (cbn; lia). eexists. split; reflexivity.
Qed.

Lemma produces_u16 offset v : 0 ≤ offset → offset + 2 ≤ mem_size → produces (WriteUint16 mem_size offset v) offset (le16 v) true.
Proof.
  intros H0 H1. unfold WriteUint16. rewrite u64_small by lia. destruct (Z.leb_spec mem_size (offset + 1)); [lia|].
  apply (produces_and_then _ _ _ [_] [_]); [lia|apply produces_u8; [apply u8_range|lia]|].
  apply produces_u8; [apply u8_range|cbn; lia].
Qed.

Lemma produces_u32 offset v : 0 ≤ offset → offset + 4 ≤ mem_size → produces (WriteUint32 mem_size offset v) offset (le32 v) true.
Proof.
  intros H0 H1. unfold WriteUint32. rewrite !u64_small by lia. destruct (Z.leb_spec mem_size (offset + 3)); [lia|].
  apply produces_and_then; [lia|apply produces_u16; lia|]. apply produces_u16; cbn; lia.
Qed.

(** Bytes. *)
Definition bytes (s : list Z) : Prop := Forall (λ c, is_u8 c) s.

Lemma produces_chars offset s : bytes s → 0 ≤ offset → offset + zlen s ≤ mem_size →
  produces (write_chars mem_size offset s) offset s true.
Proof.
  revert offset. induction s as [|c s IH]; intros offset Hs H0 H1; cbn [length] in *; [by apply produces_ret; lia|].
  apply Forall_cons in Hs as [Hc Hs]. cbn [write_chars]. apply (produces_and_then _ _ _ [c] s); [lia| |].
  - rewrite u8_small by done. apply produces_u8; [done|lia].
  - rewrite u64_small by lia. apply IH; [done|cbn; lia|cbn; lia].
Qed.

Lemma produces_raw offset s : bytes s → 0 ≤ offset → 0 < offset + zlen s ≤ mem_size →
  produces (WriteRawString mem_size offset s) offset s true.
Proof.
  intros Hs H0 H1. unfold WriteRawString. rewrite u64_small by lia.
  destruct (Z.leb_spec mem_size (offset + zlen s - 1)); [lia|]. apply produces_chars; [done|lia|lia].
Qed.

Lemma produces_string offset s : bytes s → 0 ≤ offset → 0 < offset + zlen s → offset + zlen s + 8 ≤ mem_size →
  produces (WriteCustomString mem_size offset s) offset (string_image offset s) (offset + zlen s).
Proof.
  intros Hs H0 H1 H2. unfold WriteCustomString, string_image.
  apply (produces_bind _ _ _ _ _ true); [lia|apply produces_raw; [done|lia|lia]|]. cbn [negb].
  rewrite (u64_small (offset + zlen s)), (u64_small (offset + zlen s + 4)) by lia.
  apply (produces_return _ _ _ _ true); [|cbn; by rewrite u32_small by lia].
  apply produces_and_then; [lia|apply produces_u32; lia|]. rewrite le32_length. apply produces_u32; lia.
Qed.

(** An empty string cannot be written at address 0. *)
Definition placeable (offset : Z) (strs : list (list Z)) : Prop := 0 < offset ∨ head strs ≠ Some [].

Lemma produces_strings offset strs : Forall bytes strs → placeable offset strs →
  0 ≤ offset → offset + strings_size strs ≤ mem_size →
  produces (write_strings mem_size offset strs) offset (strings_image offset strs)
    (Some (string_pointers offset strs), offset + strings_size strs).
Proof.
  revert offset. induction strs as [|s strs IH]; intros offset Hs Hp H0 H1; cbn [strings_size] in *.
  { rewrite Z.add_0_r. apply produces_ret; lia. }
  apply Forall_cons in Hs as [Hs Hss]. pose proof (strings_size_pos strs).
  assert (0 < offset + zlen s) as Hpos by (destruct Hp as [|Hp]; [lia|]; destruct s; [done|cbn; lia]).
  cbn [write_strings strings_image string_pointers].
  apply (produces_bind _ _ _ _ _ (offset + zlen s)); [lia|apply produces_string; [done|lia|lia|lia]|].
  unfold UINT32_MAX. destruct (Z.eqb_spec (offset + zlen s) (2 ^ 32 - 1)); [lia|].
  rewrite (string_memory_size_image offset), string_image_length, u64_small by lia.
  replace (offset + (zlen s + 8)) with (offset + zlen s + 8) by lia.
  eapply produces_return; [apply IH; [done|left; lia|lia|lia]|]. cbn. f_equal. apply (f_equal2 pair); [done|lia].
Qed.

Lemma produces_pointers offset ps : 0 ≤ offset → offset + 4 * zlen ps ≤ mem_size →
  produces (write_pointers mem_size offset ps) offset (pointers_image ps) (Some (offset + 4 * zlen ps)).
Proof.
  revert offset. induction ps as [|p ps IH]; intros offset H0 H1.
  { cbn [length] in *. rewrite Z.add_0_r. apply produces_ret. lia. }
  cbn [length] in H1. cbn [write_pointers]. unfold pointers_image. rewrite bind_cons.
  apply (produces_bind _ _ _ _ _ true); [lia|apply produces_u32; lia|]. cbn [negb]. rewrite le32_length, u64_small by lia.
  replace (offset + 4 * zlen (p :: ps)) with (offset + 4 + 4 * zlen ps) by (cbn [length]; lia). apply IH; lia.
Qed.

Lemma produces_list offset strs : Forall bytes strs → placeable offset strs →
  0 ≤ offset → offset + zlen (list_image offset strs) ≤ mem_size →
  produces (WriteCustomListOfString mem_size offset strs) offset (list_image offset strs)
    (offset + strings_size strs + 4 * zlen strs).
Proof.
  intros Hs Hp H0. rewrite list_image_length. intros H1. pose proof (strings_size_pos strs).
  unfold WriteCustomListOfString, list_image. rewrite strings_image_length.
  eapply produces_bind; [lia|apply produces_strings; [done|done|lia|lia]|]. rewrite strings_image_length.
  eapply produces_bind; [lia|apply produces_pointers; rewrite ?string_pointers_length; lia|].
  rewrite pointers_image_length, string_pointers_length, (u64_small (_ + 4)) by lia.
  apply (produces_return _ _ _ _ true); [|cbn; by rewrite u32_small by lia].
  apply produces_and_then; [lia|apply produces_u32; lia|]. rewrite le32_length. apply produces_u32; lia.
Qed.
End writing.

(** ** Reading *)

Section reading.
Variables (m : list Z).
Abbreviation mem_size := (zlen m).
Hypothesis Hsize : mem_size ≤ 2 ^ 32.

(** The memory holds [bs] at [offset]. *)
Definition holds (offset : Z) (bs : list Z) : Prop := 0 ≤ offset ∧ mem_read m offset (zlen bs) = Some bs.

Lemma holds_app offset xs ys : holds offset (xs ++ ys) → holds offset xs ∧ holds (offset + zlen xs) ys.
Proof. intros [H0 Hr]. apply mem_read_app in Hr as [H1 H2]; [|done]. split; split; [lia|done|lia|done]. Qed.

Lemma holds_bound offset bs : holds offset bs → offset + zlen bs ≤ mem_size.
Proof. intros [H0 Hr]. unfold mem_read in Hr. case_bool_decide; [lia|done]. Qed.

Lemma read_u8_holds offset c : holds offset [c] → ReadUint8 mem_size m offset = Some c.
Proof.
  intros Hh. pose proof (holds_bound _ _ Hh) as Hb. cbn in Hb. unfold ReadUint8.
  destruct (Z.leb_spec mem_size offset); [lia|]. destruct Hh as [H0 Hr].
  pose proof (mem_read_nth _ _ _ 0 Hr) as E. rewrite Nat.add_0_r in E. apply E. cbn. lia.
Qed.

Lemma read_u16_holds offset v : 0 ≤ v < 2 ^ 16 → holds offset (le16 v) → ReadUint16 mem_size m offset = Some v.
Proof.
  intros Hv Hh. pose proof (holds_bound _ _ Hh) as Hb. cbn in Hb. pose proof (proj1 Hh).
  apply (holds_app offset [_] [_]) in Hh as [H1 H2]. unfold ReadUint16. rewrite u64_small by lia.
  destruct (Z.leb_spec mem_size (offset + 1)); [lia|]. rewrite (read_u8_holds _ _ H1), (read_u8_holds (offset + 1) _ H2). cbn. f_equal.
  rewrite Z.lor_comm, Z.shiftl_mul_pow2, lor_disjoint_add by (try apply u8_range; lia).
  unfold u8, u16. rewrite Z.shiftr_div_pow2 by lia. zlia.
Qed.

Lemma read_u32_holds offset v : is_u32 v → holds offset (le32 v) → ReadUint32 mem_size m offset = Some v.
Proof.
  intros Hv Hh. pose proof (holds_bound _ _ Hh) as Hb. cbn in Hb. pose proof (proj1 Hh).
  apply holds_app in Hh as [H1 H2]. unfold ReadUint32. rewrite !u64_small by lia.
  destruct (Z.leb_spec mem_size (offset + 3)); [lia|].
  rewrite (read_u16_holds offset (u16 v)), (read_u16_holds (offset + 2) (u16 (Z.shiftr v 16))); [|by apply Z.mod_pos_bound|done|by apply Z.mod_pos_bound|done].
  cbn. f_equal. rewrite Z.shiftl_mul_pow2, Z.shiftr_div_pow2 by lia. unfold u32, u16.
  rewrite (Z.mod_small (v / 2 ^ 16)) by zlia. rewrite (Z.mod_small (v / 2 ^ 16 * 2 ^ 16)) by zlia.
  rewrite Z.lor_comm, lor_disjoint_add by zlia. zlia.
Qed.

Lemma read_chars_holds offset s buffer : holds offset s → (length s ≤ length buffer)%nat →
  read_chars mem_size m offset (length s) buffer = Some (s ++ drop (length s) buffer).
Proof.
  revert offset buffer. induction s as [|c s IH]; intros offset buffer Hh Hb; [by destruct buffer|].
  destruct buffer as [|x buffer]; [cbn in Hb; lia|]. pose proof (holds_bound _ _ Hh) as Hbd. cbn [length] in Hbd.
  pose proof (proj1 Hh). apply (holds_app _ [c]) in Hh as [H1 H2]. cbn [read_chars length drop].
  rewrite (read_u8_holds _ _ H1), u64_small by lia. cbn [mbind option_bind]. by rewrite IH by (try done; cbn in Hb; lia).
Qed.

Lemma read_raw_holds offset s : holds offset s → zlen s + 1 < 2 ^ 32 → 0 < offset + zlen s →
  ReadRawString mem_size m offset (temp_buffer (zlen s)) (zlen s) = Some (s ++ [0; 0]).
Proof.
  intros Hh Hs Hpos. pose proof (holds_bound _ _ Hh). pose proof (proj1 Hh). unfold ReadRawString, temp_buffer.
  rewrite u64_small, u32_small by lia. destruct (Z.leb_spec mem_size (offset + zlen s - 1)); [lia|].
  rewrite Nat2Z.id, read_chars_holds by (try done; rewrite length_replicate; lia). do 2 f_equal.
  rewrite drop_replicate. replace (S (Z.to_nat (zlen s + 1)) - length s)%nat with 2%nat by lia. done.
Qed.

(** Strings that the deserializer does not take for empty ones. *)
Definition readable (s : list Z) : Prop := head s ≠ Some 0.

Lemma read_string_holds offset s : readable s → holds offset (string_image offset s) →
  ReadCustomString mem_size m (offset + zlen s) = Some s.
Proof.
  intros Hs Hh. pose proof (holds_bound _ _ Hh) as Hb. rewrite string_image_length in Hb. pose proof (proj1 Hh).
  apply holds_app in Hh as [H1 Hh]. apply holds_app in Hh as [H2 H3]. rewrite le32_length in H3.
  unfold ReadCustomString. rewrite !(u64_small (offset + zlen s + _)) by lia.
  destruct (Z.leb_spec mem_size (offset + zlen s + 7)); [lia|].
  rewrite (read_u32_holds _ _ (u32_range _) H2). cbn [mbind option_bind].
  rewrite (read_u32_holds _ _ (u32_range _) H3). cbn [mbind option_bind]. rewrite !(u32_small (zlen s)), !(u32_small offset), (u32_small (offset + zlen s)) by lia.
  destruct (decide (offset + zlen s = 0)) as [E|E].
  { assert (zlen s = 0 ∧ offset = 0) as [E0 ->] by lia. destruct s; [|cbn in E0; lia].
    destruct (_ <=? _) eqn:E1 in |- *; [done|]. clear E1. unfold ReadRawString.
    destruct (Z.leb_spec mem_size (u64 (0 + zlen (@nil Z) - 1))) as [|E1]; [done|].
    change (u64 (0 + zlen (@nil Z) - 1)) with (2 ^ 64 - 1) in E1. lia. }
  rewrite u32_small by lia. destruct (Z.leb_spec mem_size (offset + zlen s - 1)); [lia|].
  rewrite read_raw_holds by (try done; lia). cbn [mbind option_bind]. destruct s as [|c s]; [done|].
  cbn [app head mbind option_bind]. destruct (Z.eqb_spec c 0) as [->|]; [by destruct Hs|].
  rewrite mem_read_Some by (rewrite ?app_comm_cons, ?length_app; lia). change (Z.to_nat 0) with 0%nat.
  by rewrite drop_0, Nat2Z.id, app_comm_cons, take_app_length.
Qed.

Lemma read_strings_holds offset q strs output : Forall readable strs →
  holds offset (strings_image offset strs) → holds q (pointers_image (string_pointers offset strs)) →
  read_strings mem_size m q (length strs) output = Some (output ++ strs).
Proof.
  revert offset q output. induction strs as [|s strs IH]; intros offset q output Hs Hi Hp; [by rewrite app_nil_r|].
  apply Forall_cons in Hs as [Hs Hss]. pose proof (proj1 Hi). pose proof (proj1 Hp).
  cbn [strings_image string_pointers] in *. unfold pointers_image in Hp. rewrite bind_cons in Hp.
  pose proof (holds_bound _ _ Hp) as Hbp. rewrite length_app in Hbp. change (length (le32 _)) with 4%nat in Hbp.
  apply holds_app in Hi as [Hi1 Hi2]. apply holds_app in Hp as [Hp1 Hp2]. rewrite string_image_length in Hi2. rewrite le32_length in Hp2.
  pose proof (holds_bound _ _ Hi1) as Hbi. rewrite string_image_length in Hbi.
  cbn [read_strings length]. rewrite !u64_small by lia. destruct (Z.leb_spec mem_size (q + 3)); [lia|].
  rewrite (read_u32_holds q (offset + zlen s)) by (done || lia). cbn [mbind option_bind].
  rewrite (read_string_holds offset s) by done. cbn [mbind option_bind].
  rewrite (IH (offset + zlen s + 8)); [by rewrite <-app_assoc|done| |done]. by rewrite Z.add_assoc in Hi2.
Qed.

Lemma read_list_holds offset strs output : Forall readable strs → holds offset (list_image offset strs) →
  (strs = [] → output = []) →
  ReadCustomListOfString mem_size m (offset + strings_size strs + 4 * zlen strs) output = Some (output ++ strs).
Proof.
  intros Hs Hh Hout. pose proof (holds_bound _ _ Hh) as Hb. rewrite list_image_length in Hb. pose proof (proj1 Hh).
  pose proof (strings_size_pos strs). unfold list_image in Hh. rewrite strings_image_length in Hh.
  apply holds_app in Hh as [H1 Hh]. apply holds_app in Hh as [H2 Hh]. apply holds_app in Hh as [H3 H4].
  rewrite strings_image_length in *. rewrite pointers_image_length, string_pointers_length in *. rewrite le32_length in H4.
  unfold ReadCustomListOfString. rewrite !(u64_small (offset + _ + _ + _)) by lia.
  destruct (Z.leb_spec mem_size (offset + strings_size strs + 4 * zlen strs + 7)); [lia|].
  rewrite (read_u32_holds _ _ (u32_range _) H3). cbn [mbind option_bind].
  rewrite (read_u32_holds _ _ (u32_range _) H4). cbn [mbind option_bind].
  rewrite !(u32_small (zlen strs)), !(u32_small (offset + strings_size strs)), (u32_small (_ + zlen strs)) by lia.
  destruct (decide (offset + strings_size strs + zlen strs = 0)) as [E|E].
  { assert (zlen strs = 0) as E0 by lia. destruct strs; [|cbn in E0; lia]. rewrite Hout by done. by destruct (_ <=? _). }
  rewrite u32_small by lia. destruct (Z.leb_spec mem_size (offset + strings_size strs + zlen strs - 1)); [lia|].
  rewrite Nat2Z.id. by apply (read_strings_holds offset).
Qed.
End reading.

(** ** The arguments of a call *)

Definition arg_image (offset : Z) (arg : JsValue) : list Z :=
  match arg with
  | JsString s => string_image offset s
  | JsArray (Some strs) => list_image offset strs
  | _ => []
  end.

(** What the function gets. *)
Definition new_arg (offset : Z) (arg : JsValue) : JsValue :=
  match arg with
  | JsString s => JsUint32 (offset + zlen s)
  | JsArray (Some strs) => JsUint32 (offset + strings_size strs + 4 * zlen strs)
  | _ => arg
  end.

Fixpoint args_image (offset : Z) (args : list JsValue) : list Z :=
  match args with
  | [] => []
  | arg :: args => let image := arg_image offset arg in image ++ args_image (offset + zlen image) args
  end.

Fixpoint new_args (offset : Z) (args : list JsValue) : list JsValue :=
  match args with
  | [] => []
  | arg :: args => new_arg offset arg :: new_args (offset + zlen (arg_image offset arg)) args
  end.

(** Arguments that can be passed. *)
Definition arg_ok (arg : JsValue) : Prop :=
  match arg with
  | JsUint32 _ | JsInt32 _ => True
  | JsString s => bytes s ∧ readable s
  | JsArray (Some strs) => Forall bytes strs ∧ Forall readable strs
  | _ => False
  end.

Definition arg_strings (arg : JsValue) : list (list Z) :=
  match arg with JsString s => [s] | JsArray (Some strs) => strs ++ [[0]] | _ => [] end.

(** The first thing in memory is not an empty string at address 0. *)
Definition args_placeable (offset : Z) (args : list JsValue) : Prop := placeable offset (args ≫= arg_strings).

Lemma args_placeable_cons offset arg args : args_placeable offset (arg :: args) → 0 ≤ offset →
  placeable offset (arg_strings arg) ∧ args_placeable (offset + zlen (arg_image offset arg)) args.
Proof.
  unfold args_placeable, placeable. rewrite bind_cons. intros Hp H0. split.
  - destruct Hp as [|Hp]; [by left|]. right. by destruct (arg_strings arg).
  - destruct arg as [v|v|s|[strs|]| |]; cbn in *; try by rewrite Z.add_0_r.
    + left. rewrite string_image_length. lia.
    + left. rewrite list_image_length. pose proof (strings_size_pos strs). lia.
Qed.

Lemma produces_args mem_size offset args : 0 ≤ mem_size ≤ 2 ^ 32 →
  Forall arg_ok args → args_placeable offset args → 0 ≤ offset → offset + zlen (args_image offset args) ≤ mem_size →
  produces mem_size (wasm_args mem_size offset args) offset (args_image offset args) (Some (new_args offset args)).
Proof.
  intros Hsize. revert offset. induction args as [|arg args IH]; intros offset Hok Hp H0 H1.
  { apply produces_ret. cbn in H1. lia. }
  apply Forall_cons in Hok as [Hok Hoks]. apply args_placeable_cons in Hp as [Hp Hps]; [|done].
  cbn [args_image new_args] in *. rewrite length_app, Nat2Z.inj_add in H1. specialize (IH _ Hoks Hps ltac:(lia) ltac:(lia)).
  destruct arg as [v|v|s|[strs|]| |]; try done; cbn [wasm_args arg_image new_arg] in *.
  - change (offset + zlen (@nil Z)) with (offset + 0) in *. rewrite Z.add_0_r in *. by eapply produces_return.
  - change (offset + zlen (@nil Z)) with (offset + 0) in *. rewrite Z.add_0_r in *. by eapply produces_return.
  - rewrite string_image_length in *. eapply produces_bind; [done| |].
    { apply produces_string; [done|apply Hok|done| |lia]. destruct Hp as [|Hp]; [lia|]. destruct s; [done|cbn; lia]. }
    unfold UINT32_MAX. destruct (Z.eqb_spec (offset + zlen s) (2 ^ 32 - 1)); [lia|].
    rewrite (string_memory_size_image offset), string_image_length, u64_small by lia. eapply produces_return; [exact IH|done].
  - pose proof (strings_size_pos strs). pose proof (list_image_length offset strs) as Hl. eapply produces_bind; [done| |].
    { apply produces_list; [done|apply Hok| |done|lia]. destruct Hp as [|Hp]; [by left|]. right. by destruct strs. }
    unfold UINT32_MAX. destruct (Z.eqb_spec (offset + strings_size strs + 4 * zlen strs) (2 ^ 32 - 1)); [lia|].
    rewrite (list_memory_size_image offset), u64_small by lia. eapply produces_return; [exact IH|done].
Qed.

(** [new] leads the function to [arg]. *)
Definition denotes (m : list Z) (arg new : JsValue) : Prop :=
  match arg with
  | JsString s => ∃ p, new = JsUint32 p ∧ ReadFromWasmMemory (Some m) p kString = Some (JsString s)
  | JsArray (Some strs) => ∃ p, new = JsUint32 p ∧ ReadFromWasmMemory (Some m) p kListOfString = Some (JsArray (Some strs))
  | _ => new = arg
  end.

Lemma args_denoted m offset args : zlen m ≤ 2 ^ 32 → Forall arg_ok args → holds m offset (args_image offset args) →
  Forall2 (denotes m) args (new_args offset args).
Proof.
  intros Hm. revert offset. induction args as [|arg args IH]; intros offset Hok Hh; [constructor|].
  apply Forall_cons in Hok as [Hok Hoks]. cbn [args_image new_args] in *. apply holds_app in Hh as [H1 H2].
  constructor; [|by apply IH]. pose proof (proj1 H1). destruct arg as [v|v|s|[strs|]| |]; try done; cbn in *; eexists; (split; [done|]).
  - unfold ReadFromWasmMemory. destruct (Z.ltb_spec (offset + zlen s) 0); [lia|].
    rewrite read_string_holds; [done|done|apply Hok|done].
  - pose proof (strings_size_pos strs). unfold ReadFromWasmMemory.
    destruct (Z.ltb_spec (offset + strings_size strs + 4 * zlen strs) 0); [lia|].
    rewrite read_list_holds; [done|done|apply Hok|done|done].
Qed.



(** ** Any memory *)

Section safety.
Variable m : list Z.
Abbreviation mem_size := (zlen m).
Hypothesis Hbytes : bytes m.

Lemma read_u8_safe offset : 0 ≤ offset → ∃ v, ReadUint8 mem_size m offset = Some v ∧ is_u8 v.
Proof.
  intros H0. unfold ReadUint8. destruct (Z.leb_spec mem_size offset); [exists 0; split; [done|lia]|].
  destruct (lookup_lt_is_Some_2 m (Z.to_nat offset)) as [v Hv]; [lia|]. exists v. split; [done|].
  exact (Forall_lookup_1 _ _ _ _ Hbytes Hv).
Qed.

Lemma read_u16_safe offset : 0 ≤ offset → ∃ v, ReadUint16 mem_size m offset = Some v ∧ 0 ≤ v < 2 ^ 16.
Proof.
  intros H0. unfold ReadUint16. destruct (_ <=? _); [exists 0; split; [done|lia]|].
  destruct (read_u8_safe offset) as (lo & -> & _); [done|].
  destruct (read_u8_safe (u64 (offset + 1))) as (hi & Ehi & _); [apply u64_range|]. cbn. rewrite Ehi. eexists. split; [done|].
  by apply Z.mod_pos_bound.
Qed.

Lemma read_u32_safe offset : 0 ≤ offset → ∃ v, ReadUint32 mem_size m offset = Some v ∧ is_u32 v.
Proof.
  intros H0. unfold ReadUint32. destruct (_ <=? _); [exists 0; split; [done|lia]|].
  destruct (read_u16_safe offset) as (lo & -> & Hlo); [done|].
  destruct (read_u16_safe (u64 (offset + 2))) as (hi & Ehi & Hhi); [apply u64_range|]. cbn [mbind option_bind]. rewrite Ehi.
  eexists. split; [done|]. rewrite Z.shiftl_mul_pow2, u32_small, Z.lor_comm, lor_disjoint_add by lia. lia.
Qed.

Lemma read_chars_safe offset n buffer : 0 ≤ offset → (n ≤ length buffer)%nat →
  ∃ cs, read_chars mem_size m offset n buffer = Some cs ∧ length cs = length buffer.
Proof.
  revert offset buffer. induction n as [|n IH]; intros offset buffer H0 Hn; [by destruct buffer; eexists|].
  destruct buffer as [|x buffer]; [cbn in Hn; lia|]. cbn [read_chars]. destruct (read_u8_safe offset H0) as (c & -> & _).
  destruct (IH (u64 (offset + 1)) buffer) as (cs & E & Hl); [apply u64_range|cbn in Hn; lia|]. cbn [mbind option_bind].
  rewrite E. eexists. split; [done|]. cbn. by rewrite Hl.
Qed.

Lemma read_string_safe offset : mem_size ≤ 2 ^ 32 - 2 → 0 ≤ offset → is_Some (ReadCustomString mem_size m offset).
Proof.
  intros Hsize H0. unfold ReadCustomString. destruct (_ <=? _); [done|].
  destruct (read_u32_safe offset H0) as (ptr & -> & Hptr).
  destruct (read_u32_safe (u64 (offset + 4))) as (len & Elen & Hlen); [apply u64_range|]. cbn [mbind option_bind].
  rewrite Elen. cbn [mbind option_bind]. destruct (_ <=? _); [done|]. unfold ReadRawString, temp_buffer.
  destruct (Z.leb_spec mem_size (u64 (ptr + len - 1))) as [|Hin];
    [rewrite mem_write_Some by (cbn [length replicate]; lia); done|].
  assert (1 ≤ ptr + len) as Hpos.
  { destruct (decide (ptr + len = 0)) as [E|]; [|lia]. rewrite E in Hin. change (u64 (0 - 1)) with (2 ^ 64 - 1) in Hin. lia. }
  rewrite u64_small in Hin by lia. rewrite u32_small by lia.
  destruct (read_chars_safe ptr (Z.to_nat len) (replicate (S (Z.to_nat (len + 1))) 0)) as (cs & -> & Hl);
    [lia|rewrite length_replicate; lia|]. cbn [mbind option_bind]. rewrite length_replicate in Hl.
  destruct cs as [|c cs]; [done|]. cbn [head mbind option_bind]. destruct (_ =? _); [done|].
  rewrite mem_read_Some by (rewrite ?Hl; lia). done.
Qed.

Lemma read_strings_safe offset n output : mem_size ≤ 2 ^ 32 - 2 → 0 ≤ offset →
  is_Some (read_strings mem_size m offset n output).
Proof.
  intros Hsize. revert offset output. induction n as [|n IH]; intros offset output H0; [done|]. cbn [read_strings].
  destruct (_ <=? _); [done|]. destruct (read_u32_safe offset H0) as (ptr & -> & Hptr). cbn [mbind option_bind].
  destruct (read_string_safe ptr Hsize) as [s ->]; [lia|]. apply IH, u64_range.
Qed.

(** C27: Whatever a WASM module leaves in a memory of less than 4 GiB, and whatever it returns as the
    offset of its result, the deserializer ends and touches neither the memory nor its own buffer
    outside of their bounds. *)
Theorem wasm_read_is_safe offset type : mem_size ≤ 2 ^ 32 - 2 → is_Some (ReadFromWasmMemory (Some m) offset type).
Proof.
  intros Hsize. unfold ReadFromWasmMemory. destruct (Z.ltb_spec offset 0); [done|]. destruct type; [done|done|..].
  - by destruct (read_string_safe offset Hsize) as [s ->].
  - unfold ReadCustomListOfString. destruct (_ <=? _); [done|].
    destruct (read_u32_safe offset) as (ptr & -> & Hptr); [done|].
    destruct (read_u32_safe (u64 (offset + 4))) as (len & Elen & Hlen); [apply u64_range|]. cbn [mbind option_bind].
    rewrite Elen. cbn [mbind option_bind]. destruct (_ <=? _); [done|].
    by destruct (read_strings_safe ptr (Z.to_nat len) [] Hsize) as [strs ->]; [lia|].
Qed.
End safety.

Lemma wasm_read_is_safe_witness :
  is_Some (ReadFromWasmMemory (Some (replicate 32 255)) 3 kListOfString).
Proof. apply (wasm_read_is_safe (replicate 32 255)); [repeat constructor; lia|vm_compute; discriminate]. Defined.

(** ** What goes wrong *)

(** In a memory of 4 GiB, the largest there is, a string of length 2^32 - 1 at address 0 passes
    the tests, and the buffer for it, whose size wraps around to zero, is overrun. *)
Theorem wasm_read_overflows_buffer m offset : zlen m = 2 ^ 32 →
  holds m offset (le32 0 ++ le32 (2 ^ 32 - 1)) → ReadCustomString (zlen m) m offset = None.
Proof.
  intros Hm Hh. pose proof (holds_bound _ _ _ Hh) as Hb. change (zlen (_ ++ _)) with 8 in Hb. pose proof (proj1 Hh) as H0.
  apply holds_app in Hh as [H1 H2]. rewrite le32_length in H2. unfold ReadCustomString. rewrite !u64_small by lia.
  destruct (Z.leb_spec (zlen m) (offset + 7)); [lia|].
  rewrite (read_u32_holds m ltac:(lia) offset 0), (read_u32_holds m ltac:(lia) (offset + 4) (2 ^ 32 - 1)) by (done || lia).
  cbn [mbind option_bind]. rewrite Hm. change (2 ^ 32 <=? u32 (u32 (0 + (2 ^ 32 - 1)) - 1)) with false. cbn iota.
  unfold ReadRawString. change (2 ^ 32 <=? u64 (0 + (2 ^ 32 - 1) - 1)) with false. cbn iota.
  change (temp_buffer (2 ^ 32 - 1)) with [0]. replace (Z.to_nat (2 ^ 32 - 1)) with (S (S (Z.to_nat (2 ^ 32 - 3))))
    by (rewrite <-!Z2Nat.inj_succ by lia; f_equal; lia).
  cbn [read_chars]. by destruct (ReadUint8 (2 ^ 32) m 0).
Qed.

Definition largest_memory : list Z := le32 0 ++ le32 (2 ^ 32 - 1) ++ replicate (Z.to_nat (2 ^ 32 - 8)) 0.

Lemma wasm_read_overflows_buffer_witness : ReadCustomString (zlen largest_memory) largest_memory 0 = None.
Proof.
  assert (zlen largest_memory = 2 ^ 32) as Hl.
  { unfold largest_memory. rewrite !length_app, length_replicate, !Nat2Z.inj_add, !le32_length. lia. }
  apply wasm_read_overflows_buffer; [done|]. split; [done|]. change (zlen (_ ++ _)) with 8.
  rewrite mem_read_Some by (rewrite ?Hl; lia). done.
Defined.

(** A string that starts with a NUL is written, and read back as an empty one. *)
Theorem wasm_nul_string_is_lost m offset s : zlen m ≤ 2 ^ 32 → zlen s + 2 < 2 ^ 32 →
  holds m offset (string_image offset (0 :: s)) → ReadCustomString (zlen m) m (offset + zlen (0 :: s)) = Some [].
Proof.
  intros Hm Hs Hh. pose proof (holds_bound _ _ _ Hh) as Hb. rewrite string_image_length in Hb. pose proof (proj1 Hh).
  apply holds_app in Hh as [H1 Hh]. apply holds_app in Hh as [H2 H3]. rewrite le32_length in H3. set (t := 0 :: s) in *.
  unfold ReadCustomString. rewrite !(u64_small (offset + zlen t + _)) by lia.
  destruct (Z.leb_spec (zlen m) (offset + zlen t + 7)); [lia|].
  rewrite (read_u32_holds _ Hm _ _ (u32_range _) H2). cbn [mbind option_bind].
  rewrite (read_u32_holds _ Hm _ _ (u32_range _) H3). cbn [mbind option_bind].
  rewrite !(u32_small (zlen t)), !(u32_small offset), (u32_small (offset + zlen t)) by lia.
  assert (1 ≤ zlen t) by (unfold t; cbn; lia). rewrite u32_small by lia. destruct (_ <=? _); [done|].
  rewrite read_raw_holds by (try done; unfold t in *; cbn [length] in *; lia). done.
Qed.

(** A call whose first argument in memory is an empty string fails, however large the memory. *)
Theorem wasm_empty_first_argument_fails m args : zlen m < 2 ^ 64 →
  ParseAsWasmInput (S (length args)) (Some (JsString [] :: args)) (Some m) = Some (None, Some m).
Proof.
  intros Hm. unfold ParseAsWasmInput. change (default [] (Some (JsString [] :: args))) with (JsString [] :: args).
  cbn [length]. rewrite Nat.eqb_refl. cbn [negb wasm_args]. unfold WriteCustomString, WriteRawString.
  destruct (Z.leb_spec (zlen m) (u64 (0 + zlen (@nil Z) - 1))) as [|E]; [done|].
  change (u64 (0 + zlen (@nil Z) - 1)) with (2 ^ 64 - 1) in E. lia.
Qed.

Lemma wasm_empty_first_argument_fails_witness :
  ParseAsWasmInput 2 (Some [JsString []; JsUint32 3]) (Some (replicate 64 0)) = Some (None, Some (replicate 64 0)).
Proof. apply (wasm_empty_first_argument_fails (replicate 64 0) [JsUint32 3]). vm_compute. reflexivity. Defined.
