(* ===== verification/ProxyBuffer.v ===== *)
(** * The proxy's scatter-gather buffer

    Models [cc/aws/proxy/src/buffer.h] and [freelist.h]: a byte queue kept in
    a singly linked list of fixed-size blocks, with the blocks taken from and
    returned to a freelist that several buffers may share.

    The heap maps block addresses to blocks, so that the [next] pointers, the
    [head_], [end_] and [tail_] pointers of a buffer and the freelist are the
    pointers of the code.  An operation returns [None] when it fails an
    assertion, dereferences a null or dangling pointer, copies outside of a
    block, or does not terminate; the theorems show that it does not.
    [size_t] quantities are natural numbers: the invariant keeps each below
    the memory that is allocated.  The freelist's compare-and-swap loops are
    modelled for one thread, where they succeed at once. *)

From S2P Require Import Prelude.

(** ** Data *)

Abbreviation loc := positive.

Record Block := mkBlock {
  next : option loc;
  offset : nat;
  len : nat;
  buf : list Z
}.

(** The blocks in memory, and the freelist's [head_] and [size_]. *)
Record Mem := mkMem {
  heap : gmap loc Block;
  fl_head : option loc;
  fl_size : nat
}.

Record BasicBuffer := mkBuffer {
  head_ : option loc;
  end_ : option loc;
  tail_ : option loc;
  block_cnt_ : nat;
  data_size_ : nat;
  reserved_ : bool;
  peeked_ : bool
}.

(** A [SysBuf]: the address of a byte of a block, and a length. *)
Record SysBuf := mkSysBuf { iov_block : loc; iov_off : nat; iov_len : nat }.

Section BasicBuffer.

(** [kBlockSize], and whether [posix_memalign] fails in a given memory. *)
Context (BlockSize : nat) (memalign_fails : gmap loc Block → bool).

(** ** Blocks *)

(** [kBlockSize - sizeof(Block)]: a pointer and two sizes. *)
Definition capacity : nat := BlockSize - 24.

Definition DataLen (b : Block) : nat := len b.
Definition SpaceLen (b : Block) : nat := capacity - offset b - len b.

Definition Block_Commit (b : Block) (size : nat) : Block * nat :=
  let space_len := SpaceLen b in
  let to_commit := if size <? space_len then size else space_len in
  (mkBlock (next b) (offset b) (len b + to_commit) (buf b), size - to_commit).

Definition Block_Drain (b : Block) (size : nat) : Block * nat :=
  let data_len := DataLen b in
  let to_drain := if data_len <? size then data_len else size in
  (mkBlock (next b) (offset b + to_drain) (len b - to_drain) (buf b), size - to_drain).

(** A new address; the bytes of a new block are zero in the model. *)
Definition Alloc (m : Mem) : option loc * Mem :=
  if memalign_fails (heap m) then (None, m)
  else
    let l := fresh (dom (heap m)) in
    (Some l, mkMem (<[l := mkBlock None 0 0 (replicate capacity 0%Z)]> (heap m))
                   (fl_head m) (fl_size m)).

Definition Dealloc (m : Mem) (l : loc) : Mem :=
  mkMem (delete l (heap m)) (fl_head m) (fl_size m).

(** ** Freelist *)

(** [New]: the inner [option] is the pointer returned. *)
Definition Freelist_New (m : Mem) : option (option loc * Mem) :=
  match fl_head m with
  | None => Some (Alloc m)
  | Some l =>
      b ← heap m !! l;
      Some (Some l, mkMem (<[l := mkBlock None 0 0 (buf b)]> (heap m)) (next b)
                          (fl_size m - 1))
  end.

Definition Freelist_Delete (m : Mem) (l : loc) : option Mem :=
  b ← heap m !! l;
  Some (mkMem (<[l := mkBlock (fl_head m) (offset b) (len b) (buf b)]> (heap m))
              (Some l) (S (fl_size m))).

(** The walk to the last block of a chain, with the number of blocks. *)
Fixpoint chain_tail (fuel : nat) (h : gmap loc Block) (tail : loc) (count : nat)
  : option (loc * nat) :=
  match fuel with
  | O => None
  | S fuel =>
      b ← h !! tail;
      match next b with
      | None => Some (tail, count)
      | Some t => chain_tail fuel h t (S count)
      end
  end.

Definition Freelist_DeleteChain (m : Mem) (head : option loc) : option Mem :=
  match head with
  | None => Some m
  | Some h =>
      '(tail, count) ← chain_tail (S (size (heap m))) (heap m) h 1;
      b ← heap m !! tail;
      Some (mkMem (<[tail := mkBlock (fl_head m) (offset b) (len b) (buf b)]> (heap m))
                  (Some h) (fl_size m + count))
  end.

Fixpoint Freelist_Clear (fuel : nat) (m : Mem) : option Mem :=
  match fl_head m with
  | None => Some m
  | Some _ =>
      match fuel with
      | O => None
      | S fuel =>
          '(p, m) ← Freelist_New m;
          l ← p;
          Freelist_Clear fuel (Dealloc m l)
      end
  end.

Fixpoint Freelist_FillN (n : nat) (m : Mem) : option Mem :=
  match n with
  | O => Some m
  | S n =>
      let '(p, m) := Alloc m in
      l ← p;
      m ← Freelist_Delete m l;
      Freelist_FillN n m
  end.

(** ** Buffer *)

Definition empty_buffer : BasicBuffer := mkBuffer None None None 0 0 false false.

Definition space_size (m : Mem) (bb : BasicBuffer) : option nat :=
  match head_ bb with
  | None => Some 0
  | Some h =>
      b ← heap m !! h;
      Some (block_cnt_ bb * capacity - data_size_ bb - offset b)
  end.

Definition set_next (m : Mem) (l : loc) (p : option loc) : option Mem :=
  b ← heap m !! l;
  Some (mkMem (<[l := mkBlock p (offset b) (len b) (buf b)]> (heap m)) (fl_head m) (fl_size m)).

(** The loop that links [count] new blocks behind [tail_]. *)
Fixpoint append_blocks (count : nat) (m : Mem) (bb : BasicBuffer)
  : option (Mem * BasicBuffer) :=
  match count with
  | O => Some (m, bb)
  | S count =>
      '(p, m) ← Freelist_New m;
      t ← tail_ bb;
      m ← set_next m t p;
      append_blocks count m
        (mkBuffer (head_ bb) (end_ bb) p (S (block_cnt_ bb)) (data_size_ bb)
                  (reserved_ bb) (peeked_ bb))
  end.

Definition AppendNewBlock (m : Mem) (bb : BasicBuffer) (count : nat)
  : option (Mem * BasicBuffer) :=
  '(m, bb, count) ←
    match head_ bb with
    | None =>
        '(p, m) ← Freelist_New m;
        Some (m, mkBuffer p p p (S (block_cnt_ bb)) (data_size_ bb)
                          (reserved_ bb) (peeked_ bb), count - 1)
    | Some _ => Some (m, bb, count)
    end;
  _ ← tail_ bb;  (* assert(tail_ != nullptr) *)
  append_blocks count m bb.

(** [SpaceStepper]: its state is [block_]. *)
Definition SpaceStepper (m : Mem) (bb : BasicBuffer) : option (option loc) :=
  match end_ bb with
  | None => Some None
  | Some e =>
      b ← heap m !! e;
      Some (if SpaceLen b =? 0 then next b else Some e)
  end.

Definition NumBuffersToReserve (m : Mem) (bb : BasicBuffer) (buffer_size : nat) : option nat :=
  '(num_blocks, buffer_size) ←
    match end_ bb with
    | None => Some (0, buffer_size)
    | Some e =>
        b ← heap m !! e;
        Some (if SpaceLen b =? 0
              then (1, buffer_size - (if SpaceLen b <? buffer_size then SpaceLen b
                                      else buffer_size))
              else (0, buffer_size))
    end;
  Some (num_blocks + (buffer_size + capacity - 1) / capacity).

Definition Next (m : Mem) (bb : BasicBuffer) (block_ : option loc)
  : option (loc * option loc * Mem * BasicBuffer) :=
  '(m, bb, block_) ←
    match block_ with
    | None => '(m, bb) ← AppendNewBlock m bb 1; Some (m, bb, tail_ bb)
    | Some _ => Some (m, bb, block_)
    end;
  ret ← block_;
  b ← heap m !! ret;
  Some (ret, next b, m, bb).

Definition SpaceHead (l : loc) (b : Block) (n : nat) : SysBuf :=
  mkSysBuf l (offset b + len b) n.

(** The loop of [Reserve]; a run of [remaining] rounds is enough when each
    block has space. *)
Fixpoint reserve_loop (fuel : nat) (m : Mem) (bb : BasicBuffer) (block_ : option loc)
    (remaining : nat) : option (list SysBuf * Mem * BasicBuffer) :=
  match remaining, fuel with
  | O, _ => Some ([], m, bb)
  | S _, O => None
  | S _, S fuel =>
      '(l, block_, m, bb) ← Next m bb block_;
      b ← heap m !! l;
      let space_len := if SpaceLen b <=? remaining then SpaceLen b else remaining in
      '(ret, m, bb) ← reserve_loop fuel m bb block_ (remaining - space_len);
      Some (SpaceHead l b space_len :: ret, m, bb)
  end.

Definition set_reserved (bb : BasicBuffer) (r : bool) : BasicBuffer :=
  mkBuffer (head_ bb) (end_ bb) (tail_ bb) (block_cnt_ bb) (data_size_ bb) r (peeked_ bb).

Definition Reserve (m : Mem) (bb : BasicBuffer) (size : nat)
  : option (list SysBuf * Mem * BasicBuffer) :=
  if reserved_ bb then None else  (* assert(!reserved_) *)
  let bb := set_reserved bb true in
  block_ ← SpaceStepper m bb;
  _ ← NumBuffersToReserve m bb size;
  reserve_loop size m bb block_ size.

(** The loop of [ReserveAtLeast]: whole blocks until [size] is reached. *)
Fixpoint reserve_at_least_loop (fuel : nat) (m : Mem) (bb : BasicBuffer)
    (block_ : option loc) (reserved_size size : nat)
  : option (list SysBuf * nat * Mem * BasicBuffer) :=
  if size <=? reserved_size then Some ([], reserved_size, m, bb) else
  match fuel with
  | O => None
  | S fuel =>
      '(l, block_, m, bb) ← Next m bb block_;
      b ← heap m !! l;
      '(ret, sz, m, bb) ←
        reserve_at_least_loop fuel m bb block_ (reserved_size + SpaceLen b) size;
      Some (SpaceHead l b (SpaceLen b) :: ret, sz, m, bb)
  end.

(** Returns the buffers and the updated size. *)
Definition ReserveAtLeast (m : Mem) (bb : BasicBuffer) (size : nat)
  : option (list SysBuf * nat * Mem * BasicBuffer) :=
  if reserved_ bb then None else
  let bb := set_reserved bb true in
  block_ ← SpaceStepper m bb;
  _ ← NumBuffersToReserve m bb size;
  reserve_at_least_loop size m bb block_ 0 size.

Definition set_block (m : Mem) (l : loc) (b : Block) : Mem :=
  mkMem (<[l := b]> (heap m)) (fl_head m) (fl_size m).

Fixpoint commit_loop (fuel : nat) (m : Mem) (bb : BasicBuffer) (block_ : option loc)
    (remaining : nat) : option (Mem * BasicBuffer) :=
  match remaining, fuel with
  | O, _ => Some (m, bb)
  | S _, O => None
  | S _, S fuel =>
      '(l, block_, m, bb) ← Next m bb block_;
      b ← heap m !! l;
      let '(b, remaining) := Block_Commit b remaining in
      commit_loop fuel (set_block m l b)
        (mkBuffer (head_ bb) (Some l) (tail_ bb) (block_cnt_ bb) (data_size_ bb)
                  (reserved_ bb) (peeked_ bb)) block_ remaining
  end.

Definition Commit (m : Mem) (bb : BasicBuffer) (size : nat) : option (Mem * BasicBuffer) :=
  if negb (reserved_ bb) then None else
  _ ← head_ bb;
  sp ← space_size m bb;
  if sp <? size then None else
  block_ ← SpaceStepper m bb;
  '(m, bb) ← commit_loop size m bb block_ size;
  Some (m, mkBuffer (head_ bb) (end_ bb) (tail_ bb) (block_cnt_ bb) (data_size_ bb + size)
                    false (peeked_ bb)).

Fixpoint peek_loop (fuel : nat) (h : gmap loc Block) (b : option loc) : option (list SysBuf) :=
  match b with
  | None => Some []
  | Some l =>
      match fuel with
      | O => None
      | S fuel =>
          blk ← h !! l;
          if DataLen blk =? 0 then Some []
          else ret ← peek_loop fuel h (next blk);
               Some (mkSysBuf l (offset blk) (DataLen blk) :: ret)
      end
  end.

Definition set_peeked (bb : BasicBuffer) (p : bool) : BasicBuffer :=
  mkBuffer (head_ bb) (end_ bb) (tail_ bb) (block_cnt_ bb) (data_size_ bb) (reserved_ bb) p.

Definition Peek (m : Mem) (bb : BasicBuffer) : option (list SysBuf * BasicBuffer) :=
  if peeked_ bb then None else
  ret ← peek_loop (size (heap m)) (heap m) (head_ bb);
  Some (ret, set_peeked bb true).

(** The loop of [Drain]: it only changes [head_] and [block_cnt_]. *)
Fixpoint drain_loop (fuel : nat) (m : Mem) (bb : BasicBuffer) (remaining : nat)
  : option (Mem * BasicBuffer) :=
  match remaining, fuel with
  | O, _ => Some (m, bb)
  | S _, O => None
  | S _, S fuel =>
      h ← head_ bb;
      b ← heap m !! h;
      let '(b, remaining) := Block_Drain b remaining in
      let m := set_block m h b in
      if (DataLen b =? 0) && (SpaceLen b =? 0) then
        m ← Freelist_Delete m h;
        drain_loop fuel m
          (mkBuffer (next b) (end_ bb) (tail_ bb) (block_cnt_ bb - 1) (data_size_ bb)
                    (reserved_ bb) (peeked_ bb)) remaining
      else drain_loop fuel m bb remaining
  end.

Definition Drain (m : Mem) (bb : BasicBuffer) (size : nat) : option (Mem * BasicBuffer) :=
  if negb (peeked_ bb) then None else
  if data_size_ bb <? size then None else
  '(m, bb) ← drain_loop size m bb size;
  let data_size := data_size_ bb - size in
  let bb := mkBuffer (head_ bb) (if data_size =? 0 then head_ bb else end_ bb) (tail_ bb)
                     (block_cnt_ bb) data_size (reserved_ bb) false in
  match head_ bb with
  | Some h =>
      if (data_size =? 0) && negb (reserved_ bb) then
        b ← heap m !! h;
        Some (set_block m h (mkBlock (next b) 0 (len b) (buf b)), bb)
      else Some (m, bb)
  | None => Some (m, bb)
  end.

(** [memcpy] into a buffer handed out by [Reserve], and out of one handed out
    by [Peek]. *)
Definition iov_write (m : Mem) (v : SysBuf) (bs : list Z) : option Mem :=
  b ← heap m !! iov_block v;
  if iov_len v <? length bs then None else
  buf' ← mem_write (buf b) (Z.of_nat (iov_off v)) bs;
  Some (set_block m (iov_block v) (mkBlock (next b) (offset b) (len b) buf')).

Definition iov_read (m : Mem) (v : SysBuf) (n : nat) : option (list Z) :=
  b ← heap m !! iov_block v;
  if iov_len v <? n then None else
  mem_read (buf b) (Z.of_nat (iov_off v)) (Z.of_nat n).

(** Bytes written in order into a list of buffers: the loop of [CopyIn], and
    what a scatter read of a socket does with the bytes it received. *)
Fixpoint scatter (m : Mem) (vs : list SysBuf) (bs : list Z) : option Mem :=
  match vs with
  | [] => if bool_decide (bs = []) then Some m else None
  | v :: vs =>
      m ← iov_write m v (take (iov_len v) bs);
      scatter m vs (drop (iov_len v) bs)
  end.

(** The bytes of a list of buffers, in order: what a gather write of a socket
    sends. *)
Fixpoint gather (m : Mem) (vs : list SysBuf) : option (list Z) :=
  match vs with
  | [] => Some []
  | v :: vs =>
      bs ← iov_read m v (iov_len v);
      rest ← gather m vs;
      Some (bs ++ rest)
  end.

Definition CopyIn (m : Mem) (bb : BasicBuffer) (from : list Z) : option (Mem * BasicBuffer) :=
  '(buffers, m, bb) ← Reserve m bb (length from);
  m ← scatter m buffers from;
  Commit m bb (length from).

(** The loop of [CopyOut]: the bytes copied to [to]. *)
Fixpoint copy_out_loop (m : Mem) (buffers : list SysBuf) (size size_copied : nat)
  : option (list Z * nat) :=
  match buffers with
  | [] => Some ([], size_copied)
  | v :: buffers =>
      if size =? 0 then Some ([], size_copied) else
      let remaining := size - size_copied in
      let to_copy := if iov_len v <? remaining then iov_len v else remaining in
      bs ← iov_read m v to_copy;
      '(rest, size_copied) ← copy_out_loop m buffers size (size_copied + to_copy);
      Some (bs ++ rest, size_copied)
  end.

(** Returns the bytes copied; with [to == nullptr] the code discards them. *)
Definition CopyOut (m : Mem) (bb : BasicBuffer) (size : nat)
  : option (list Z * Mem * BasicBuffer) :=
  '(buffers, bb) ← Peek m bb;
  '(bs, size_copied) ← copy_out_loop m buffers size 0;
  '(m, bb) ← Drain m bb size_copied;
  Some (bs, m, bb).

(** The destructor. *)
Definition Buffer_destroy (m : Mem) (bb : BasicBuffer) : option Mem :=
  Freelist_DeleteChain m (head_ bb).

End BasicBuffer.
