(* ===== verification/ProxyBufferSpec.v ===== *)
(** * Correctness of the proxy buffer

    The blocks of a buffer form a chain from [head_]; the invariant says
    where data and space lie in it.  Every operation keeps the invariant,
    never fails, and acts on the queue of bytes [contents] as the operation
    of a first-in first-out queue. *)

From S2P Require Import Prelude ProxyBuffer.

(** ** Chains of blocks *)

(** A block without its [next] pointer. *)
Record Data := mkData { d_off : nat; d_len : nat; d_buf : list Z }.

Definition blk (nxt : option loc) (d : Data) : Block :=
  mkBlock nxt (d_off d) (d_len d) (d_buf d).

(** From [p] the [next] pointers lead through the blocks [xs] to [q]. *)
Fixpoint chain (h : gmap loc Block) (p : option loc) (xs : list (loc * Data))
    (q : option loc) : Prop :=
  match xs with
  | [] => p = q
  | (l, d) :: xs => p = Some l ∧ ∃ nxt, h !! l = Some (blk nxt d) ∧ chain h nxt xs q
  end.

Section chain.
Implicit Types (h : gmap loc Block) (xs ys : list (loc * Data)).

Lemma chain_app h p xs ys q :
  chain h p (xs ++ ys) q ↔ ∃ r, chain h p xs r ∧ chain h r ys q.
Proof.
  revert p. induction xs as [|[l d] xs IH]; intros p; simpl; [naive_solver|].
  setoid_rewrite IH. naive_solver.
Qed.

Lemma chain_insert_other h p xs q l b :
  l ∉ xs.*1 → chain h p xs q → chain (<[l:=b]> h) p xs q.
Proof.
  revert p. induction xs as [|[l' d] xs IH]; intros p; simpl; [done|].
  rewrite not_elem_of_cons. intros [Hne Hni] (->&nxt&Hl&Hc).
  split; [done|]. exists nxt. rewrite lookup_insert_ne by done. auto.
Qed.

Lemma chain_delete_other h p xs q l :
  l ∉ xs.*1 → chain h p xs q → chain (delete l h) p xs q.
Proof.
  revert p. induction xs as [|[l' d] xs IH]; intros p; simpl; [done|].
  rewrite not_elem_of_cons. intros [Hne Hni] (->&nxt&Hl&Hc).
  split; [done|]. exists nxt. rewrite lookup_delete_ne by done. auto.
Qed.

Lemma chain_in_dom h p xs q l :
  chain h p xs q → l ∈ xs.*1 → is_Some (h !! l).
Proof.
  revert p. induction xs as [|[l' d] xs IH]; intros p; simpl; [by intros ? ?%elem_of_nil|].
  intros (->&nxt&Hl&Hc) [->|?]%elem_of_cons; eauto.
Qed.

Lemma chain_fresh h p xs q l : chain h p xs q → h !! l = None → l ∉ xs.*1.
Proof. intros Hc Hn Hin. destruct (chain_in_dom _ _ _ _ _ Hc Hin) as [? ?]. congruence. Qed.

(** The pointer at which a suffix of the chain starts. *)
Definition first_loc (xs : list (loc * Data)) (q : option loc) : option loc :=
  match xs with [] => q | x :: _ => Some x.1 end.

Lemma chain_first h p xs q : chain h p xs q → p = first_loc xs q.
Proof. destruct xs as [|[l d] xs]; simpl; naive_solver. Qed.

(** The block at a place of the chain, with the pointer to its successor. *)
Lemma chain_middle h p xs l d ys q :
  chain h p (xs ++ (l, d) :: ys) q → h !! l = Some (blk (first_loc ys q) d).
Proof.
  rewrite chain_app. simpl. intros (r&_&->&nxt&Hl&Hc).
  apply chain_first in Hc as ->. done.
Qed.

(** Changing the data of one block of the chain. *)
Lemma chain_update h p xs l d ys q d' :
  NoDup ((xs ++ (l, d) :: ys).*1) →
  chain h p (xs ++ (l, d) :: ys) q →
  chain (<[l := blk (first_loc ys q) d']> h) p (xs ++ (l, d') :: ys) q.
Proof.
  rewrite fmap_app, fmap_cons; simpl. intros Hnd Hc.
  apply NoDup_app in Hnd as (_&Hdis&Hnd). apply NoDup_cons in Hnd as [Hni _].
  rewrite chain_app in Hc |- *. destruct Hc as (r&Hc1&->&nxt&Hl&Hc2).
  exists (Some l). split.
  - apply chain_insert_other; [|done]. intros Hin. by eapply Hdis, list_elem_of_here.
  - simpl. split; [done|]. eexists. rewrite lookup_insert_eq. split; [done|].
    rewrite <-(chain_first _ _ _ _ Hc2). by apply chain_insert_other.
Qed.

(** Linking one more block behind the last. *)
Lemma chain_snoc h p xs t d l d' :
  NoDup ((xs ++ [(t, d)]).*1) → l ∉ (xs ++ [(t, d)]).*1 →
  chain h p (xs ++ [(t, d)]) None →
  chain (<[t := blk (Some l) d]> (<[l := blk None d']> h)) p (xs ++ [(t, d); (l, d')]) None.
Proof.
  rewrite fmap_app; simpl. intros Hnd Hni Hc.
  apply NoDup_app in Hnd as (_&Hdis&_). apply not_elem_of_app in Hni as [Hl1 Hl2].
  apply not_elem_of_cons in Hl2 as [Hlt _].
  rewrite chain_app in Hc |- *. destruct Hc as (r&Hc1&->&nxt&Hl&Hc2).
  exists (Some t). split.
  - apply chain_insert_other.
    + intros Hin. by eapply Hdis, list_elem_of_here.
    + by apply chain_insert_other.
  - simpl. split; [done|]. exists (Some l). rewrite lookup_insert_eq. split; [done|].
    split; [done|]. exists None. rewrite lookup_insert_ne by done.
    by rewrite lookup_insert_eq.
Qed.

(** A chain without repetition is no longer than the heap. *)
Lemma chain_length h p xs q : NoDup (xs.*1) → chain h p xs q → length xs ≤ size h.
Proof.
  intros Hnd Hc. rewrite <-(length_fmap fst), <-(size_dom h).
  rewrite <-(size_list_to_set (C:=gset loc)) by done.
  apply subseteq_size. intros l Hl%elem_of_list_to_set.
  apply elem_of_dom. by eapply chain_in_dom.
Qed.
End chain.

(** ** Ownership

    The operations of one buffer may run while other buffers hold blocks of
    the same heap: [extends] says that the blocks not owned before are neither
    changed nor taken. *)

Definition extends (m : Mem) (own : list loc) (m' : Mem) (own' : list loc) : Prop :=
  ∀ l b, heap m !! l = Some b → l ∉ own → heap m' !! l = Some b ∧ l ∉ own'.

Lemma extends_refl m own : extends m own m own.
Proof. done. Qed.

Lemma extends_trans m1 o1 m2 o2 m3 o3 :
  extends m1 o1 m2 o2 → extends m2 o2 m3 o3 → extends m1 o1 m3 o3.
Proof. intros H12 H23 l b Hl Hni. destruct (H12 l b Hl Hni). eauto. Qed.

Lemma extends_perm m o m' o1 o2 :
  (∀ l, l ∈ o2 → l ∈ o1) → extends m o m' o1 → extends m o m' o2.
Proof. intros Hin He l b Hl Hni. destruct (He l b Hl Hni). naive_solver. Qed.

Section spec.
Context (BlockSize : nat) (memalign_fails : gmap loc Block → bool).
Context (HBlockSize : 24 < BlockSize) (Hmemalign : ∀ h, memalign_fails h = false).

Local Abbreviation cap := (capacity BlockSize).
Local Abbreviation SpaceLen := (SpaceLen BlockSize).
Local Abbreviation Freelist_New := (Freelist_New BlockSize memalign_fails).
Local Abbreviation AppendNewBlock := (AppendNewBlock BlockSize memalign_fails).
Local Abbreviation Next := (Next BlockSize memalign_fails).
Local Abbreviation Reserve := (Reserve BlockSize memalign_fails).
Local Abbreviation ReserveAtLeast := (ReserveAtLeast BlockSize memalign_fails).
Local Abbreviation Commit := (Commit BlockSize memalign_fails).
Local Abbreviation Drain := (Drain BlockSize).
Local Abbreviation CopyIn := (CopyIn BlockSize memalign_fails).
Local Abbreviation CopyOut := (CopyOut BlockSize).

Lemma cap_pos : 0 < cap.
Proof. unfold capacity. lia. Qed.

Definition space (d : Data) : nat := cap - d_off d - d_len d.

(** What each block satisfies. *)
Definition data_ok (d : Data) : Prop := length (d_buf d) = cap ∧ d_off d + d_len d ≤ cap.

(** A block as [New] returns it. *)
Definition data_new (d : Data) : Prop := length (d_buf d) = cap ∧ d_off d = 0 ∧ d_len d = 0.

Lemma data_new_ok d : data_new d → data_ok d.
Proof. intros (?&?&?). split; [done|lia]. Qed.

Lemma data_new_space d : data_new d → space d = cap.
Proof. intros (?&?&?). unfold space. lia. Qed.

(** The freelist holds the blocks [fl]. *)
Record freelist (m : Mem) (fl : list (loc * Data)) : Prop := {
  fl_chain : chain (heap m) (fl_head m) fl None;
  fl_count : fl_size m = length fl;
  fl_ok : Forall (λ x, length (d_buf x.2) = cap) fl
}.

(** The buffer's pointers and counts describe the blocks [xs], which are
    disjoint from the freelist. *)
Record shape (m : Mem) (bb : BasicBuffer) (xs fl : list (loc * Data)) : Prop := {
  sh_chain : chain (heap m) (head_ bb) xs None;
  sh_tail : xs ≠ [] → fst <$> last xs = tail_ bb;
  sh_count : block_cnt_ bb = length xs;
  sh_fl : freelist m fl;
  sh_nodup : NoDup (xs.*1 ++ fl.*1);
  sh_ok : Forall (λ x, data_ok x.2) xs
}.

Definition owned (xs fl : list (loc * Data)) : list loc := xs.*1 ++ fl.*1.

(** *** Taking a block from the freelist *)

Lemma Freelist_New_spec m fl ls :
  freelist m fl → NoDup (ls ++ fl.*1) → (∀ l, l ∈ ls → is_Some (heap m !! l)) →
  ∃ l d m' fl',
    Freelist_New m = Some (Some l, m') ∧ data_new d ∧
    heap m' = <[l := blk None d]> (heap m) ∧ freelist m' fl' ∧
    l ∉ ls ∧ NoDup (ls ++ l :: fl'.*1) ∧
    extends m (ls ++ fl.*1) m' (ls ++ l :: fl'.*1).
Proof.
  intros [Hc Hn Hok] Hnd Hdom. unfold ProxyBuffer.Freelist_New.
  destruct fl as [|[l d] fl]; simpl in Hc.
  - rewrite Hc. unfold Alloc. rewrite Hmemalign.
    set (l := fresh (dom (heap m))).
    assert (heap m !! l = None) as Hl by (apply not_elem_of_dom; apply is_fresh).
    assert (l ∉ ls) as Hni.
    { intros Hin%Hdom. destruct Hin. congruence. }
    exists l, (mkData 0 0 (replicate cap 0%Z)). eexists _, [].
    split; [done|]. simpl. rewrite app_nil_r in Hnd.
    split_and!; try done.
    + split_and!; simpl; [by rewrite length_replicate|done|done].
    + apply NoDup_app. split_and!; [done| |by apply NoDup_singleton].
      intros x Hx ->%list_elem_of_singleton. done.
    + intros l' b Hl' Hni'. simpl.
      assert (l ≠ l') by congruence. rewrite lookup_insert_ne by done.
      rewrite app_nil_r in Hni'. set_solver.
  - destruct Hc as (Hh&nxt&Hl&Hc). rewrite Hh, Hl. simpl.
    apply Forall_cons in Hok as [Hd Hok]. simpl in *.
    pose proof Hnd as Hnd'. apply NoDup_app in Hnd' as (Hnd1&Hdis&Hnd2).
    apply NoDup_cons in Hnd2 as [Hni Hnd2].
    eexists l, (mkData 0 0 (d_buf d)), _, fl. split; [done|]. simpl.
    split_and!; try done.
    + split; simpl; [by apply chain_insert_other|rewrite Hn; simpl; lia|done].
    + intros Hin. by eapply Hdis, list_elem_of_here.
    + intros l' b Hl' Hni'. simpl. rewrite lookup_insert_ne by set_solver. done.
Qed.

Lemma shape_dom m bb xs fl l : shape m bb xs fl → l ∈ xs.*1 → is_Some (heap m !! l).
Proof. intros Hs. by eapply chain_in_dom, sh_chain. Qed.

(** *** Growing the list *)

Lemma AppendNewBlock_spec m bb xs fl :
  shape m bb xs fl →
  ∃ l d m' bb' fl',
    AppendNewBlock m bb 1 = Some (m', bb') ∧ data_new d ∧
    shape m' bb' (xs ++ [(l, d)]) fl' ∧ tail_ bb' = Some l ∧
    end_ bb' = (if decide (xs = []) then Some l else end_ bb) ∧
    data_size_ bb' = data_size_ bb ∧ reserved_ bb' = reserved_ bb ∧
    peeked_ bb' = peeked_ bb ∧
    extends m (owned xs fl) m' (owned (xs ++ [(l, d)]) fl').
Proof.
  intros Hs. destruct (Freelist_New_spec m fl (xs.*1))
    as (l&d&m1&fl'&Hnew&Hd&Hheap&Hfl&Hni&Hnd&Hext);
    [apply Hs|apply Hs|by intros; eapply shape_dom|].
  unfold ProxyBuffer.AppendNewBlock. pose proof (sh_chain _ _ _ _ Hs) as Hc.
  assert (NoDup ((xs ++ [(l, d)]).*1 ++ fl'.*1)) as Hnd'
    by (by rewrite fmap_app; simpl; rewrite <-app_assoc).
  destruct (decide (xs = [])) as [->|Hne].
  - simpl in Hc. rewrite Hc, Hnew. simpl.
    eexists l, d, _, _, fl'. split; [done|]. split; [done|]. simpl.
    split_and!; try done. split; simpl; try done.
    + split; [done|]. exists None. rewrite Hheap, lookup_insert_eq. done.
    + rewrite (sh_count _ _ _ _ Hs). done.
    + by apply Forall_singleton, data_new_ok.
  - destruct (exists_last Hne) as [ys [[t dt] ->]].
    pose proof (sh_tail _ _ _ _ Hs Hne) as Ht. rewrite last_snoc in Ht. simpl in Ht.
    assert (∃ h, head_ bb = Some h) as [h Hh].
    { destruct ys as [|[??] ?]; simpl in Hc; naive_solver. }
    rewrite Hh. simpl. rewrite <-Ht. simpl. rewrite Hnew. simpl.
    assert (t ≠ l) as Htl.
    { intros ->. apply Hni. rewrite fmap_app. set_solver. }
    pose proof (chain_middle _ _ _ _ _ _ _ Hc) as Hlt. simpl in Hlt.
    assert (heap m1 !! t = Some (blk None dt)) as Hlt1
      by (by rewrite Hheap, lookup_insert_ne).
    unfold set_next. rewrite Hlt1. simpl.
    pose proof (sh_nodup _ _ _ _ Hs) as HndS. apply NoDup_app in HndS as (HndX&_&_).
    assert (t ∉ l :: fl'.*1) as Htfl.
    { rewrite fmap_app in Hnd. apply NoDup_app in Hnd as (_&Hdis&_).
      apply Hdis. set_solver. }
    eexists l, d, _, _, fl'. split; [rewrite Hh; done|]. split; [done|]. simpl.
    split_and!; try done. split; simpl.
    + rewrite Hheap, <-app_assoc. rewrite Hh in Hc. by apply chain_snoc.
    + intros _. by rewrite last_snoc.
    + rewrite (sh_count _ _ _ _ Hs), !length_app. simpl. lia.
    + destruct Hfl as [Hfc Hfn Hfo]. split; simpl; [|done|done].
      apply chain_insert_other; [set_solver|done].
    + done.
    + apply Forall_app. split; [apply Hs|]. by apply Forall_singleton, data_new_ok.
    + intros l' b Hl' Hni'. destruct (Hext l' b Hl') as [Hl1 Hni1]; [done|].
      simpl. assert (t ≠ l') by (intros <-; apply Hni'; unfold owned;
        rewrite fmap_app; set_solver).
      rewrite lookup_insert_ne by done. split; [done|].
      unfold owned. rewrite fmap_app. set_solver.
Qed.

(** *** Stepping through the blocks with space *)

(** The fields the stepping leaves alone. *)
Definition same_status (bb bb' : BasicBuffer) : Prop :=
  data_size_ bb' = data_size_ bb ∧ reserved_ bb' = reserved_ bb ∧ peeked_ bb' = peeked_ bb.

Lemma same_status_trans a b c : same_status a b → same_status b c → same_status a c.
Proof. unfold same_status. intuition congruence. Qed.

(** [Next] moves over the remaining blocks [todo], and allocates one more
    when there is none. *)
Lemma Next_spec m bb vs todo fl :
  shape m bb (vs ++ todo) fl →
  ∃ l d t new m' bb' fl',
    Next m bb (first_loc todo None) = Some (l, first_loc t None, m', bb') ∧
    todo ++ new = (l, d) :: t ∧ Forall (λ x, data_new x.2) new ∧
    shape m' bb' (vs ++ (l, d) :: t) fl' ∧
    heap m' !! l = Some (blk (first_loc t None) d) ∧
    end_ bb' = (if decide (vs ++ todo = []) then first_loc new (end_ bb) else end_ bb) ∧
    same_status bb bb' ∧ (todo ≠ [] → m' = m ∧ bb' = bb ∧ new = [] ∧ fl' = fl) ∧
    extends m (owned (vs ++ todo) fl) m' (owned (vs ++ (l, d) :: t) fl').
Proof.
  intros Hs. unfold ProxyBuffer.Next. destruct todo as [|[l d] t].
  - destruct (AppendNewBlock_spec _ _ _ _ Hs)
      as (l&d&m'&bb'&fl'&Ha&Hd&Hs'&Ht&He&H1&H2&H3&Hext).
    simpl. rewrite Ha. simpl. rewrite Ht. simpl. rewrite app_nil_r in *.
    pose proof (chain_middle _ _ _ _ _ _ _ (sh_chain _ _ _ _ Hs')) as Hl.
    rewrite Hl. simpl.
    exists l, d, [], [(l, d)], m', bb', fl'. simpl.
    split_and!; try done. by apply Forall_singleton.
  - pose proof (chain_middle _ _ _ _ _ _ _ (sh_chain _ _ _ _ Hs)) as Hl. simpl.
    rewrite Hl. simpl.
    exists l, d, t, [], m, bb, fl. simpl. rewrite app_nil_r.
    split_and!; try done. by destruct (decide _).
Qed.

Definition total_space (xs : list (loc * Data)) : nat := sum_list ((λ x, space x.2) <$> xs).

Lemma total_space_cons x xs : total_space (x :: xs) = space x.2 + total_space xs.
Proof. done. Qed.

Lemma total_space_app xs ys : total_space (xs ++ ys) = total_space xs + total_space ys.
Proof. induction xs; [done|]. simpl. rewrite !total_space_cons. lia. Qed.

Definition iov_of (x : loc * Data) (n : nat) : SysBuf :=
  mkSysBuf x.1 (d_off x.2 + d_len x.2) n.

(** The buffers that cover the first [n] bytes of space of the blocks. *)
Fixpoint cut (n : nat) (todo : list (loc * Data)) : list SysBuf :=
  match todo with
  | [] => []
  | x :: t =>
      if n =? 0 then []
      else let k := if space x.2 <=? n then space x.2 else n in
           iov_of x k :: cut (n - k) t
  end.

Lemma cut_0 xs : cut 0 xs = [].
Proof. by destruct xs. Qed.

(** What stepping over blocks with space leaves: [new] blocks behind. *)
Record grown (m : Mem) (bb : BasicBuffer) (vs todo fl : list (loc * Data))
    (m' : Mem) (bb' : BasicBuffer) (new fl' : list (loc * Data)) : Prop := {
  gr_shape : shape m' bb' (vs ++ todo ++ new) fl';
  gr_new : Forall (λ x, data_new x.2) new;
  gr_end : end_ bb' = if decide (vs ++ todo = []) then first_loc new (end_ bb) else end_ bb;
  gr_status : same_status bb bb';
  gr_ext : extends m (owned (vs ++ todo) fl) m' (owned (vs ++ todo ++ new) fl')
}.

Lemma grown_refl m bb vs todo fl :
  shape m bb (vs ++ todo) fl → grown m bb vs todo fl m bb [] fl.
Proof.
  intros. split; rewrite ?app_nil_r; simpl; try done.
  by destruct (decide _).
Qed.

(** One step of [Next], then the growth of the rest. *)
Lemma grown_step m bb vs todo fl l d t new1 m1 bb1 fl1 m2 bb2 new2 fl2 :
  todo ++ new1 = (l, d) :: t → Forall (λ x, data_new x.2) new1 →
  end_ bb1 = (if decide (vs ++ todo = []) then first_loc new1 (end_ bb) else end_ bb) →
  same_status bb bb1 →
  extends m (owned (vs ++ todo) fl) m1 (owned (vs ++ (l, d) :: t) fl1) →
  grown m1 bb1 (vs ++ [(l, d)]) t fl1 m2 bb2 new2 fl2 →
  grown m bb vs todo fl m2 bb2 (new1 ++ new2) fl2 ∧
  (l, d) :: t ++ new2 = todo ++ new1 ++ new2.
Proof.
  intros Heq Hnew Hend Hst Hext [G1 G2 G3 G4 G5].
  assert ((l, d) :: t ++ new2 = todo ++ new1 ++ new2) as E
    by (by rewrite app_assoc, Heq).
  assert (∀ ys, (vs ++ [(l, d)]) ++ ys = vs ++ (l, d) :: ys) as Hass
    by (intros; by rewrite <-app_assoc).
  rewrite !Hass in *. rewrite E in G1, G5.
  split; [|done]. split; try done.
  - by apply Forall_app.
  - rewrite G3, decide_False by (by destruct vs). rewrite Hend.
    destruct (decide (vs ++ todo = [])) as [Hd|]; [|done].
    destruct new1; [|done]. rewrite app_nil_r in Heq. by subst; destruct vs.
  - by eapply same_status_trans.
  - by eapply extends_trans.
Qed.

Lemma reserve_loop_spec fuel remaining m bb vs todo fl :
  shape m bb (vs ++ todo) fl → Forall (λ x, 0 < space x.2) todo → remaining ≤ fuel →
  ∃ new m' bb' fl',
    reserve_loop BlockSize memalign_fails fuel m bb (first_loc todo None) remaining
      = Some (cut remaining (todo ++ new), m', bb') ∧
    grown m bb vs todo fl m' bb' new fl' ∧ remaining ≤ total_space (todo ++ new).
Proof.
  revert remaining m bb vs todo fl.
  induction fuel as [|fuel IH]; intros [|remaining] m bb vs todo fl Hs Hsp Hf; simpl.
  - exists [], m, bb, fl. rewrite cut_0. split_and!; [done|by apply grown_refl|lia].
  - lia.
  - exists [], m, bb, fl. rewrite cut_0. split_and!; [done|by apply grown_refl|lia].
  - destruct (Next_spec _ _ _ _ _ Hs)
      as (l&d&t&new1&m1&bb1&fl1&HN&Heq&Hnew&Hs1&Hl&He&Hst&_&Hext).
    rewrite HN. simpl. rewrite Hl. simpl. rewrite (cons_middle (l, d)) in Hs1.
    assert (Forall (λ x, 0 < space x.2) ((l, d) :: t)) as Hsp'.
    { rewrite <-Heq. apply Forall_app. split; [done|].
      eapply Forall_impl; [done|]. simpl. intros x Hx. rewrite data_new_space by done.
      apply cap_pos. }
    apply Forall_cons in Hsp' as [Hspd Hspt]. simpl in Hspd.
    change (SpaceLen (blk (first_loc t None) d)) with (space d).
    set (k := if space d <=? S remaining then space d else S remaining).
    assert (0 < k ≤ S remaining ∧ k ≤ space d) as Hk
      by (unfold k; destruct (Nat.leb_spec (space d) (S remaining)); lia).
    destruct (IH (S remaining - k) m1 bb1 (vs ++ [(l, d)]) t fl1)
      as (new2&m2&bb2&fl2&HR&HG&Htot); [by rewrite <-app_assoc|done|lia|].
    rewrite HR. simpl.
    destruct (grown_step _ _ _ _ _ _ _ _ _ _ _ _ _ _ _ _ Heq Hnew He Hst Hext HG)
      as [HG' E].
    exists (new1 ++ new2), m2, bb2, fl2. split_and!.
    + rewrite <-E. simpl. done.
    + done.
    + rewrite <-E. clearbody k. rewrite total_space_cons. simpl. lia.
Qed.

Lemma reserve_at_least_loop_spec fuel size got m bb vs todo fl :
  shape m bb (vs ++ todo) fl → Forall (λ x, 0 < space x.2) todo → size - got ≤ fuel →
  ∃ new sz m' bb' fl',
    reserve_at_least_loop BlockSize memalign_fails fuel m bb (first_loc todo None) got size
      = Some (cut (sz - got) (todo ++ new), sz, m', bb') ∧
    grown m bb vs todo fl m' bb' new fl' ∧ sz - got ≤ total_space (todo ++ new) ∧
    size ≤ sz ∧ got ≤ sz.
Proof.
  revert got m bb vs todo fl.
  induction fuel as [|fuel IH]; intros got m bb vs todo fl Hs Hsp Hf; simpl;
    destruct (Nat.leb_spec size got) as [Hle|Hlt].
  1,3: exists [], got, m, bb, fl; rewrite Nat.sub_diag, cut_0; 
       split_and!; [done|by apply grown_refl|lia..].
  - lia.
  - destruct (Next_spec _ _ _ _ _ Hs)
      as (l&d&t&new1&m1&bb1&fl1&HN&Heq&Hnew&Hs1&Hl&He&Hst&_&Hext).
    rewrite HN. simpl. rewrite Hl. simpl. rewrite (cons_middle (l, d)) in Hs1.
    assert (Forall (λ x, 0 < space x.2) ((l, d) :: t)) as Hsp'.
    { rewrite <-Heq. apply Forall_app. split; [done|].
      eapply Forall_impl; [done|]. simpl. intros x Hx. rewrite data_new_space by done.
      apply cap_pos. }
    apply Forall_cons in Hsp' as [Hspd Hspt]. simpl in Hspd.
    change (SpaceLen (blk (first_loc t None) d)) with (space d).
    destruct (IH (got + space d) m1 bb1 (vs ++ [(l, d)]) t fl1)
      as (new2&sz&m2&bb2&fl2&HR&HG&Htot&Hsz&Hgot); [by rewrite <-app_assoc|done|lia|].
    rewrite HR. simpl.
    destruct (grown_step _ _ _ _ _ _ _ _ _ _ _ _ _ _ _ _ Heq Hnew He Hst Hext HG)
      as [HG' E].
    exists (new1 ++ new2), sz, m2, bb2, fl2. split_and!; [|done| |lia..].
    + rewrite <-E. simpl. destruct (Nat.eqb_spec (sz - got) 0); [lia|].
      destruct (Nat.leb_spec (space d) (sz - got)); [|lia].
      by rewrite Nat.sub_add_distr.
    + rewrite <-E. rewrite total_space_cons. simpl. lia.
Qed.

(** ** The invariant

    A buffer is a run of [full] blocks followed by the blocks with space,
    [avail]; the first of these may hold data, the others are as new.  Only
    the first block of all may have an offset. *)

Definition end_of (full avail : list (loc * Data)) : option loc :=
  match avail with
  | [] => fst <$> last full
  | a :: _ => if (0 <? d_len a.2) || (length full =? 0) then Some a.1 else fst <$> last full
  end.

Record inv0 (m : Mem) (bb : BasicBuffer) (full avail fl : list (loc * Data)) : Prop := {
  iv_shape : shape m bb (full ++ avail) fl;
  iv_full : Forall (λ x, space x.2 = 0 ∧ 0 < d_len x.2) full;
  iv_avail : Forall (λ x, 0 < space x.2) avail;
  iv_new : Forall (λ x, data_new x.2) (tail avail);
  iv_off : Forall (λ x, d_off x.2 = 0) (tail (full ++ avail));
  iv_end : end_ bb = end_of full avail
}.

(** The bytes held, and the bytes of the space behind them. *)
Definition block_data (d : Data) : list Z := take (d_len d) (drop (d_off d) (d_buf d)).
Definition block_space (d : Data) : list Z := drop (d_off d + d_len d) (d_buf d).
Definition contents (xs : list (loc * Data)) : list Z := concat ((λ x, block_data x.2) <$> xs).
Definition spaces (xs : list (loc * Data)) : list Z := concat ((λ x, block_space x.2) <$> xs).

Lemma contents_app xs ys : contents (xs ++ ys) = contents xs ++ contents ys.
Proof. unfold contents. by rewrite fmap_app, concat_app. Qed.

Lemma spaces_app xs ys : spaces (xs ++ ys) = spaces xs ++ spaces ys.
Proof. unfold spaces. by rewrite fmap_app, concat_app. Qed.

Lemma contents_cons x xs : contents (x :: xs) = block_data x.2 ++ contents xs.
Proof. done. Qed.

Lemma spaces_cons x xs : spaces (x :: xs) = block_space x.2 ++ spaces xs.
Proof. done. Qed.

Lemma length_block_data d : data_ok d → length (block_data d) = d_len d.
Proof. intros [??]. unfold block_data. rewrite length_take, length_drop. lia. Qed.

Lemma length_block_space d : data_ok d → length (block_space d) = space d.
Proof. intros [??]. unfold block_space, space. rewrite length_drop. lia. Qed.

Lemma length_spaces xs : Forall (λ x, data_ok x.2) xs → length (spaces xs) = total_space xs.
Proof.
  induction 1 as [|x xs Hx _ IH]; [done|].
  rewrite spaces_cons, length_app, length_block_space, IH by done. done.
Qed.

(** Blocks that are new hold nothing. *)
Lemma contents_new xs : Forall (λ x, data_new x.2) xs → contents xs = [].
Proof.
  induction 1 as [|x xs Hx _ IH]; [done|].
  rewrite contents_cons, IH. unfold block_data. destruct Hx as (_&_&->). done.
Qed.

Definition inv (m : Mem) (bb : BasicBuffer) (full avail fl : list (loc * Data)) : Prop :=
  inv0 m bb full avail fl ∧ data_size_ bb = length (contents (full ++ avail)).

Lemma inv_ok m bb full avail fl :
  inv0 m bb full avail fl → Forall (λ x, data_ok x.2) (full ++ avail).
Proof. intros H. apply H. Qed.

Lemma last_snoc_inv {A} (xs : list A) : xs ≠ [] → ∃ ys y, xs = ys ++ [y].
Proof. intros H. destruct (exists_last H) as (ys&y&->). eauto. Qed.

Lemma SpaceStepper_spec m bb full avail fl :
  inv0 m bb full avail fl → SpaceStepper BlockSize m bb = Some (first_loc avail None).
Proof.
  intros I. unfold SpaceStepper. rewrite (iv_end _ _ _ _ _ I).
  pose proof (sh_chain _ _ _ _ (iv_shape _ _ _ _ _ I)) as Hc.
  assert (fst <$> last full = None ∨
    ∃ l d, fst <$> last full = Some l ∧ SpaceLen (blk (first_loc avail None) d) = 0 ∧
      heap m !! l = Some (blk (first_loc avail None) d)) as Hlast.
  { destruct (decide (full = [])) as [->|Hne]; [by left|right].
    destruct (last_snoc_inv _ Hne) as (ys&[l d]&->).
    exists l, d. rewrite last_snoc. split; [done|].
    rewrite <-app_assoc in Hc. simpl in Hc. apply chain_middle in Hc.
    pose proof (iv_full _ _ _ _ _ I) as Hf. apply Forall_app in Hf as [_ Hf].
    apply Forall_singleton in Hf as [Hf _]. done. }
  destruct avail as [|[a d] rest]; simpl.
  - destruct Hlast as [->|(l&d&->&Hsp&Hl)]; [done|].
    rewrite Hl. simpl. unfold SpaceLen in *. simpl in *. by rewrite Hsp.
  - destruct ((0 <? d_len d) || (length full =? 0)) eqn:Hif.
    + apply chain_middle in Hc. rewrite Hc. simpl.
      pose proof (iv_avail _ _ _ _ _ I) as Ha. apply Forall_cons in Ha as [Ha _].
      simpl in Ha. unfold space in Ha. unfold ProxyBuffer.SpaceLen. simpl.
      destruct (Nat.eqb_spec (cap - d_off d - d_len d) 0); [lia|done].
    + destruct Hlast as [Hn|(l&d'&->&Hsp&Hl)].
      * apply orb_false_elim in Hif as [_ Hif]. apply Nat.eqb_neq in Hif.
        destruct (last full) eqn:E; [done|]. apply last_None in E as ->. done.
      * rewrite Hl. simpl. unfold ProxyBuffer.SpaceLen in *. simpl in *. by rewrite Hsp.
Qed.

(** Growing keeps the invariant. *)
Lemma grown_inv0 m bb full avail fl m' bb' new fl' :
  inv0 m bb full avail fl → grown m bb full avail fl m' bb' new fl' →
  inv0 m' bb' full (avail ++ new) fl'.
Proof.
  intros I G. pose proof (gr_new _ _ _ _ _ _ _ _ _ G) as Hn. split.
  - apply G.
  - apply I.
  - apply Forall_app. split; [apply I|]. eapply Forall_impl; [done|].
    simpl. intros x Hx. rewrite data_new_space by done. apply cap_pos.
  - pose proof (iv_new _ _ _ _ _ I). destruct avail; simpl in *.
    + by destruct new; [|apply Forall_cons in Hn as [_ ?]].
    + by apply Forall_app.
  - pose proof (iv_off _ _ _ _ _ I) as Ho. rewrite app_assoc.
    assert (Forall (λ x, d_off x.2 = 0) new).
    { eapply Forall_impl; [done|]. intros x (_&?&_). done. }
    destruct (full ++ avail); simpl in *; [by destruct new; [|eapply Forall_cons]|].
    by apply Forall_app.
  - rewrite (gr_end _ _ _ _ _ _ _ _ _ G), (iv_end _ _ _ _ _ I).
    destruct (decide (full ++ avail = [])) as [[-> ->]%app_eq_nil|Hne]; simpl.
    + destruct new; simpl; [done|]. by rewrite orb_true_r.
    + destruct avail as [|a rest]; [|done]. rewrite app_nil_r in Hne. simpl.
      destruct new as [|x new]; [done|]. simpl. apply Forall_cons in Hn as [(_&_&->) _].
      destruct full; [done|]. done.
Qed.

(** The buffers that cover the first [k] bytes of data of the blocks. *)
Fixpoint view (k : nat) (xs : list (loc * Data)) : list SysBuf :=
  match xs with
  | [] => []
  | x :: t =>
      if k =? 0 then []
      else let j := if d_len x.2 <=? k then d_len x.2 else k in
           mkSysBuf x.1 (d_off x.2) j :: view (k - j) t
  end.

Lemma view_0 xs : view 0 xs = [].
Proof. by destruct xs. Qed.

Definition total_len (xs : list (loc * Data)) : nat := sum_list ((λ x, d_len x.2) <$> xs).

Lemma total_len_cons x xs : total_len (x :: xs) = d_len x.2 + total_len xs.
Proof. done. Qed.

Lemma total_len_app xs ys : total_len (xs ++ ys) = total_len xs + total_len ys.
Proof. induction xs; [done|]. simpl. rewrite !total_len_cons. lia. Qed.

(** Data committed behind the first [k] bytes does not change their buffers. *)
Lemma view_app_l k xs ys ys' :
  k ≤ total_len xs → view k (xs ++ ys) = view k (xs ++ ys').
Proof.
  revert k. induction xs as [|x xs IH]; intros k Hk; rewrite ?total_len_cons in Hk; simpl.
  - assert (k = 0) as -> by (cbv in Hk; lia). by rewrite !view_0.
  - destruct (k =? 0); [done|]. f_equal. apply IH.
    destruct (Nat.leb_spec (d_len x.2) k); lia.
Qed.

Lemma length_contents xs :
  Forall (λ x, data_ok x.2) xs → length (contents xs) = total_len xs.
Proof.
  induction 1 as [|x xs Hx _ IH]; [done|].
  by rewrite contents_cons, total_len_cons, length_app, length_block_data, IH.
Qed.

Lemma view_commit k n full l d rest :
  k ≤ total_len full + d_len d →
  view k (full ++ (l, mkData (d_off d) (d_len d + n) (d_buf d)) :: rest)
    = view k (full ++ (l, d) :: rest).
Proof.
  revert k. induction full as [|x full IH]; intros k Hk;
    rewrite ?total_len_cons in Hk; cbn [app view snd fst d_len d_off].
  - change (total_len []) with 0 in Hk. destruct (Nat.eqb_spec k 0) as [|H0]; [done|].
    replace (if d_len d + n <=? k then d_len d + n else k) with k
      by (destruct (Nat.leb_spec (d_len d + n) k); lia).
    replace (if d_len d <=? k then d_len d else k) with k
      by (destruct (Nat.leb_spec (d_len d) k); lia).
    by rewrite Nat.sub_diag, !view_0.
  - destruct (k =? 0); [done|]. f_equal. apply IH.
    destruct (Nat.leb_spec (d_len x.2) k); lia.
Qed.

(** *** [Commit] *)

Lemma take_drop_split {A} (k n : nat) (xs ys : list A) :
  k ≤ n → (k = length xs ∨ k = n ∧ k ≤ length xs) →
  take n (xs ++ ys) = take k xs ++ take (n - k) ys ∧
  drop n (xs ++ ys) = drop k xs ++ drop (n - k) ys.
Proof.
  intros Hk [->|[-> ?]].
  - rewrite take_app, drop_app, (take_ge xs), (drop_ge xs), firstn_all, drop_all by lia. done.
  - rewrite take_app, drop_app, Nat.sub_diag, (proj2 (Nat.sub_0_le n (length xs))) by lia.
    rewrite !take_0, !drop_0. done.
Qed.

(** The data of a block after [k] bytes were committed. *)
Definition commit_data (d : Data) (k : nat) : Data := mkData (d_off d) (d_len d + k) (d_buf d).

Lemma commit_data_data d k :
  data_ok d → k ≤ space d →
  block_data (commit_data d k) = block_data d ++ take k (block_space d).
Proof.
  intros [Hb Ho] Hk. unfold space, block_data, block_space in *. simpl.
  rewrite <-drop_drop. by rewrite take_take_drop.
Qed.

Lemma commit_data_space d k :
  block_space (commit_data d k) = drop k (block_space d).
Proof. unfold block_space. simpl. rewrite drop_drop. f_equal. lia. Qed.

(** Changing the data of one block of a buffer. *)
Lemma shape_update m bb xs l d ys fl d' :
  shape m bb (xs ++ (l, d) :: ys) fl → data_ok d' →
  let m' := set_block m l (blk (first_loc ys None) d') in
  shape m' bb (xs ++ (l, d') :: ys) fl ∧
  extends m (owned (xs ++ (l, d) :: ys) fl) m' (owned (xs ++ (l, d') :: ys) fl).
Proof.
  intros [Hc Ht Hn Hf Hnd Hok] Hd'. simpl.
  assert ((xs ++ (l, d') :: ys).*1 = (xs ++ (l, d) :: ys).*1) as E
    by (rewrite !fmap_app; done).
  pose proof Hnd as Hnd'. apply NoDup_app in Hnd' as (Hnd1&Hdis&_).
  assert (l ∈ (xs ++ (l, d) :: ys).*1) as Hin by (rewrite fmap_app; set_solver).
  split.
  - split; simpl.
    + by eapply chain_update.
    + intros _. rewrite <-Ht by (by destruct xs).
      rewrite <-!fmap_last. by rewrite E.
    + rewrite Hn, !length_app. done.
    + destruct Hf as [Hf1 Hf2 Hf3]. split; simpl; [|done..].
      apply chain_insert_other; [by apply Hdis|done].
    + by rewrite E.
    + apply Forall_app in Hok as [Hok1 Hok2]. apply Forall_cons in Hok2 as [_ Hok2].
      apply Forall_app. split; [done|]. by apply Forall_cons.
  - intros l' b Hl' Hni. unfold owned in *. rewrite E. split; [|done].
    simpl. rewrite lookup_insert_ne; [done|]. intros <-. apply Hni. set_solver.
Qed.

(** Changing [end_] and the status of a buffer leaves the shape. *)
Lemma shape_fields m bb bb' xs fl :
  head_ bb' = head_ bb → tail_ bb' = tail_ bb → block_cnt_ bb' = block_cnt_ bb →
  shape m bb xs fl → shape m bb' xs fl.
Proof. intros E1 E2 E3 []. split; try done; by rewrite ?E1, ?E2, ?E3. Qed.

Lemma inv0_fields m bb bb' full avail fl :
  head_ bb' = head_ bb → tail_ bb' = tail_ bb → block_cnt_ bb' = block_cnt_ bb →
  end_ bb' = end_ bb → inv0 m bb full avail fl → inv0 m bb' full avail fl.
Proof.
  intros E1 E2 E3 E4 I. split; try apply I.
  - eapply shape_fields; [done..|apply I].
  - rewrite E4. apply I.
Qed.

Lemma spaces_full xs :
  Forall (λ x, data_ok x.2) xs → Forall (λ x, space x.2 = 0 ∧ 0 < d_len x.2) xs → spaces xs = [].
Proof.
  induction 1 as [|x xs Hx _ IH]; intros Hf; [done|].
  apply Forall_cons in Hf as [[Hf _] Hr]. rewrite spaces_cons, IH by done.
  rewrite <-length_block_space in Hf by done. by apply nil_length_inv in Hf as ->.
Qed.

Definition set_end (bb : BasicBuffer) (e : option loc) : BasicBuffer :=
  mkBuffer (head_ bb) e (tail_ bb) (block_cnt_ bb) (data_size_ bb) (reserved_ bb) (peeked_ bb).

(** One round of the commit loop: [k] bytes of the first block with space,
    which is full then when [k] is all of it. *)
Lemma commit_step m bb full l d rest fl k :
  inv0 m bb full ((l, d) :: rest) fl → 0 < k → k ≤ space d →
  let d' := commit_data d k in
  let m' := set_block m l (blk (first_loc rest None) d') in
  ∃ full' avail',
    inv0 m' (set_end bb (Some l)) full' avail' fl ∧
    full' ++ avail' = full ++ (l, d') :: rest ∧
    (k = space d → avail' = rest) ∧ (k < space d → avail' = (l, d') :: rest) ∧
    extends m (owned (full ++ (l, d) :: rest) fl) m' (owned (full' ++ avail') fl).
Proof.
  intros I H0 Hk. simpl.
  pose proof (inv_ok _ _ _ _ _ I) as Hok. apply Forall_app in Hok as [_ Hok].
  apply Forall_cons in Hok as [[Hb Ho] _]. simpl in *.
  assert (data_ok (commit_data d k)) as Hd' by (unfold space in *; split; simpl; [done|lia]).
  destruct (shape_update _ _ _ _ _ _ _ _ (iv_shape _ _ _ _ _ I) Hd') as [Hs' Hext].
  pose proof (iv_new _ _ _ _ _ I) as Hnew. simpl in Hnew.
  pose proof (iv_avail _ _ _ _ _ I) as Hav. apply Forall_cons in Hav as [_ Hav].
  assert (Forall (λ x, d_off x.2 = 0) (tail (full ++ (l, commit_data d k) :: rest))) as Hoff.
  { pose proof (iv_off _ _ _ _ _ I) as Hoff. destruct full; simpl in *; [done|].
    apply Forall_app in Hoff as [? Hoff]. apply Forall_cons in Hoff as [? ?].
    apply Forall_app. split; [done|]. by apply Forall_cons. }
  destruct (decide (k = space d)) as [E|Hne].
  - exists (full ++ [(l, commit_data d k)]), rest.
    rewrite <-app_assoc in *. simpl in *. split_and!; try done; [|lia].
    split; try done.
    + rewrite <-app_assoc. by eapply shape_fields; [..|done].
    + apply Forall_app. split; [apply I|]. apply Forall_singleton.
      unfold space in *. simpl. lia.
    + by destruct rest; [|apply Forall_cons in Hnew as [_ ?]].
    + by rewrite <-app_assoc.
    + unfold set_end, end_of. rewrite last_snoc. simpl.
      destruct rest as [|r rest]; [done|]. apply Forall_cons in Hnew as [(_&_&->) _].
      rewrite length_app. simpl. by rewrite Nat.add_1_r.
  - exists full, ((l, commit_data d k) :: rest). split_and!; try done; try lia.
    split; try done.
    + by eapply shape_fields; [..|done].
    + apply I.
    + apply Forall_cons. split; [|done]. unfold space in *. simpl. lia.
    + simpl. destruct (Nat.ltb_spec 0 (d_len d + k)); [done|lia].
Qed.

Lemma commit_step_bytes full l d rest k :
  data_ok d → Forall (λ x, data_new x.2) rest → k ≤ space d →
  contents (full ++ (l, commit_data d k) :: rest)
    = contents (full ++ (l, d) :: rest) ++ take k (block_space d).
Proof.
  intros Hd Hr Hk. rewrite !contents_app, !contents_cons, (contents_new rest) by done.
  simpl. rewrite commit_data_data, !app_nil_r by done. by rewrite app_assoc.
Qed.

Lemma commit_view_bound full l d rest j :
  Forall (λ x, data_ok x.2) (full ++ (l, d) :: rest) → Forall (λ x, data_new x.2) rest →
  j ≤ length (contents (full ++ (l, d) :: rest)) →
  j ≤ total_len full + d_len d.
Proof.
  intros [Hf Hr]%Forall_app Hn. apply Forall_cons in Hr as [Hd _].
  rewrite contents_app, contents_cons, (contents_new rest), app_nil_r by done.
  by rewrite length_app, length_contents, length_block_data.
Qed.

Lemma commit_loop_spec fuel n m bb full avail fl :
  inv0 m bb full avail fl → n ≤ total_space avail → n ≤ fuel →
  ∃ m' bb' full' avail',
    commit_loop BlockSize memalign_fails fuel m bb (first_loc avail None) n = Some (m', bb') ∧
    inv0 m' bb' full' avail' fl ∧ same_status bb bb' ∧
    contents (full' ++ avail') = contents (full ++ avail) ++ take n (spaces avail) ∧
    spaces avail' = drop n (spaces avail) ∧
    (∀ k, k ≤ length (contents (full ++ avail)) →
      view k (full' ++ avail') = view k (full ++ avail)) ∧
    extends m (owned (full ++ avail) fl) m' (owned (full' ++ avail') fl).
Proof.
  revert n m bb full avail.
  induction fuel as [|fuel IH]; intros [|n] m bb full avail I Hn Hf; simpl.
  1,3: exists m, bb, full, avail; rewrite take_0, app_nil_r; done.
  - lia.
  - destruct avail as [|[l d] rest]; [cbv in Hn; lia|].
    destruct (Next_spec _ _ _ _ _ (iv_shape _ _ _ _ _ I))
      as (l'&d'&t&new&m1&bb1&fl1&HN&Heq&_&_&Hl&_&_&Hsame&_).
    destruct Hsame as (->&->&->&->); [done|]. rewrite app_nil_r in Heq.
    injection Heq as <- <- <-. rewrite HN. simpl. rewrite Hl. simpl.
    change (ProxyBuffer.SpaceLen BlockSize (blk (first_loc rest None) d)) with (space d).
    pose proof (inv_ok _ _ _ _ _ I) as Hok. apply Forall_app in Hok as [_ Hok].
    apply Forall_cons in Hok as [Hd _]. pose proof (iv_new _ _ _ _ _ I) as Hnew.
    pose proof (iv_avail _ _ _ _ _ I) as Hav. apply Forall_cons in Hav as [Hav _].
    simpl in Hd, Hav, Hnew.
    set (k := if S n <? space d then S n else space d).
    assert (0 < k ≤ space d ∧ k ≤ S n ∧ (k = space d ∨ k = S n ∧ k ≤ space d)) as (Hk&Hkn&Hor)
      by (unfold k; destruct (Nat.ltb_spec (S n) (space d)); lia).
    change (mkBlock (first_loc rest None) (d_off d) (d_len d + k) (d_buf d))
      with (blk (first_loc rest None) (commit_data d k)). clearbody k.
    rewrite spaces_cons. cbn [snd]. rewrite <-length_block_space in Hor by done.
    destruct (take_drop_split k (S n) (block_space d) (spaces rest) Hkn Hor) as [-> ->].
    rewrite length_block_space in Hor by done.
    destruct (commit_step _ _ _ _ _ _ _ k I) as (full'&avail'&I'&E&Hall&Hpart&Hext); [lia..|].
    pose proof (commit_step_bytes full l d rest k Hd Hnew) as Hbytes.
    rewrite <-E in Hbytes.
    assert (∀ j, j ≤ length (contents (full ++ (l, d) :: rest)) →
      view j (full' ++ avail') = view j (full ++ (l, d) :: rest)) as Hview.
    { intros j Hj. rewrite E. apply view_commit. eapply commit_view_bound; [|done..].
      by apply (inv_ok _ _ _ _ _ I). }
    destruct (decide (k = S n)) as [->|Hne].
    + replace (S n - S n) with 0 by lia. rewrite take_0, drop_0, app_nil_r.
      exists (set_block m l (blk (first_loc rest None) (commit_data d (S n)))),
        (set_end bb (Some l)), full', avail'.
      split_and!; try done; [by destruct fuel|apply Hbytes; lia|].
      destruct (decide (S n = space d)) as [Hs|Hs].
      * rewrite (Hall Hs), drop_ge; [done|]. rewrite length_block_space by done. lia.
      * rewrite Hpart, spaces_cons by lia. simpl. by rewrite commit_data_space.
    + assert (k = space d) as -> by lia. rewrite (Hall eq_refl) in *.
      destruct (IH (S n - space d) _ _ _ _ I')
        as (m2&bb2&full2&avail2&HR&I2&Hst&Hc&Hsp&Hview2&Hext2).
      { rewrite total_space_cons in Hn. simpl in Hn. lia. }
      { lia. }
      exists m2, bb2, full2, avail2. split_and!; try done.
      * rewrite Hc, Hbytes, <-app_assoc by lia. done.
      * rewrite (drop_ge (block_space d)) by (rewrite length_block_space by done; lia). done.
      * intros j Hj. rewrite Hview2, Hview; [done|done|].
        rewrite Hbytes, length_app by lia. lia.
      * by eapply extends_trans.
Qed.

(** *** [space_size] and [Peek] *)

Lemma capacity_split xs :
  Forall (λ x, data_ok x.2) xs → Forall (λ x, d_off x.2 = 0) (tail xs) →
  length xs * cap
    = length (contents xs) + total_space xs + from_option (λ x, d_off x.2) 0 (head xs).
Proof.
  assert (∀ ys, Forall (λ x, data_ok x.2) ys → Forall (λ x, d_off x.2 = 0) ys →
    length ys * cap = length (contents ys) + total_space ys) as Haux.
  { induction 1 as [|y ys Hy _ IH]; intros Ho; [done|].
    apply Forall_cons in Ho as [Ho Hos]. rewrite contents_cons, total_space_cons, length_app.
    rewrite length_block_data by done. specialize (IH Hos).
    unfold space. destruct Hy. simpl. lia. }
  intros Hok Hoff. destruct xs as [|x xs]; [done|].
  apply Forall_cons in Hok as [[Hb Ho] Hok]. simpl in Hoff. specialize (Haux xs Hok Hoff).
  rewrite contents_cons, total_space_cons, length_app, length_block_data by done.
  unfold space. simpl. lia.
Qed.

Lemma total_space_full xs :
  Forall (λ x, space x.2 = 0 ∧ 0 < d_len x.2) xs → total_space xs = 0.
Proof. induction 1 as [|x xs [Hx _] _ IH]; [done|]. rewrite total_space_cons. lia. Qed.

Lemma inv_total_space m bb full avail fl :
  inv0 m bb full avail fl → length (spaces avail) = total_space (full ++ avail).
Proof.
  intros I. pose proof (inv_ok _ _ _ _ _ I) as Hok. apply Forall_app in Hok as [_ Hok].
  rewrite total_space_app, (total_space_full full) by apply I. by apply length_spaces.
Qed.

Lemma space_size_spec m bb full avail fl :
  inv m bb full avail fl → space_size BlockSize m bb = Some (length (spaces avail)).
Proof.
  intros [I Hds]. pose proof (iv_shape _ _ _ _ _ I) as Hs.
  pose proof (sh_chain _ _ _ _ Hs) as Hc. unfold space_size.
  rewrite (inv_total_space _ _ _ _ _ I), (sh_count _ _ _ _ Hs), Hds.
  pose proof (capacity_split _ (inv_ok _ _ _ _ _ I) (iv_off _ _ _ _ _ I)) as E.
  destruct (full ++ avail) as [|[l d] xs]; simpl in Hc; [by rewrite Hc|].
  destruct Hc as (->&nxt&->&_). cbn [mbind option_bind]. simpl in E |- *.
  f_equal. lia.
Qed.

Lemma peek_loop_spec fuel h p xs ys :
  chain h p (xs ++ ys) None → Forall (λ x, 0 < d_len x.2) xs →
  Forall (λ x, d_len x.2 = 0) ys → length (xs ++ ys) ≤ fuel →
  peek_loop fuel h p = Some (view (total_len xs) xs).
Proof.
  revert fuel p. induction xs as [|[l d] xs IH]; intros fuel p Hc Hx Hy Hf; simpl in Hc.
  - destruct ys as [|[l d] ys]; simpl in Hc.
    + subst. by destruct fuel.
    + destruct Hc as (->&nxt&Hl&_). destruct fuel; [simpl in Hf; lia|].
      apply Forall_cons in Hy as [Hy _]. simpl in *. rewrite Hl. simpl.
      unfold DataLen. simpl. by rewrite Hy.
  - destruct Hc as (->&nxt&Hl&Hc). destruct fuel; [simpl in Hf; lia|].
    apply Forall_cons in Hx as [Hd Hx]. simpl in *. rewrite Hl. simpl.
    unfold DataLen. simpl. destruct (Nat.eqb_spec (d_len d) 0); [lia|].
    rewrite (IH fuel nxt) by (done || lia). rewrite total_len_cons. simpl.
    destruct (Nat.eqb_spec (d_len d + total_len xs) 0); [lia|].
    destruct (Nat.leb_spec (d_len d) (d_len d + total_len xs)); [|lia].
    by rewrite Nat.add_comm, Nat.add_sub.
Qed.

(** The blocks that hold data are a prefix. *)
Lemma inv_data_prefix m bb full avail fl :
  inv0 m bb full avail fl →
  ∃ xs ys, full ++ avail = xs ++ ys ∧ Forall (λ x, 0 < d_len x.2) xs ∧
           Forall (λ x, d_len x.2 = 0) ys.
Proof.
  intros I. assert (Forall (λ x, 0 < d_len x.2) full) as Hfull.
  { eapply Forall_impl; [apply I|]. by intros x [??]. }
  pose proof (iv_new _ _ _ _ _ I) as Hn. destruct avail as [|[l d] rest]; simpl in Hn.
  { exists full, []. done. }
  assert (Forall (λ x, d_len x.2 = 0) rest) as Hrest.
  { eapply Forall_impl; [done|]. by intros x (_&_&?). }
  destruct (decide (0 < d_len d)).
  - exists (full ++ [(l, d)]), rest. rewrite <-app_assoc. split; [done|].
    split; [|done]. apply Forall_app. split; [done|]. by apply Forall_singleton.
  - exists full, ((l, d) :: rest). split_and!; try done. apply Forall_cons. split; [|done].
    simpl. lia.
Qed.

Lemma Peek_loop_inv m bb full avail fl :
  inv0 m bb full avail fl →
  peek_loop (size (heap m)) (heap m) (head_ bb)
    = Some (view (length (contents (full ++ avail))) (full ++ avail)).
Proof.
  intros I. rewrite (length_contents _ (inv_ok _ _ _ _ _ I)).
  destruct (inv_data_prefix _ _ _ _ _ I) as (xs&ys&E&Hx&Hy).
  pose proof (iv_shape _ _ _ _ _ I) as Hs. rewrite E in *.
  assert (total_len ys = 0) as Hy0.
  { clear E Hs. induction Hy as [|y ys Hy _ IH]; [done|]. rewrite total_len_cons. lia. }
  rewrite total_len_app, Hy0, Nat.add_0_r, (view_app_l _ xs ys []), app_nil_r by lia.
  apply peek_loop_spec with ys; [apply Hs|done|done|].
  eapply chain_length; [|apply Hs]. pose proof (sh_nodup _ _ _ _ Hs) as Hnd.
  by apply NoDup_app in Hnd as [? _].
Qed.

(** *** [Drain] *)

Definition drain_data (d : Data) (k : nat) : Data := mkData (d_off d + k) (d_len d - k) (d_buf d).

Lemma drain_data_data d k : block_data (drain_data d k) = drop k (block_data d).
Proof. unfold block_data. simpl. by rewrite skipn_firstn_comm, drop_drop. Qed.

Lemma drain_data_space d k : k ≤ d_len d → block_space (drain_data d k) = block_space d.
Proof. intros. unfold block_space. simpl. f_equal. lia. Qed.

(** The first block goes back to the freelist. *)
Lemma shape_prune m bb l d xs fl :
  shape m bb ((l, d) :: xs) fl →
  ∃ m' bb',
    Freelist_Delete m l = Some m' ∧
    bb' = mkBuffer (first_loc xs None) (end_ bb) (tail_ bb) (block_cnt_ bb - 1)
            (data_size_ bb) (reserved_ bb) (peeked_ bb) ∧
    shape m' bb' xs ((l, d) :: fl) ∧
    extends m (owned ((l, d) :: xs) fl) m' (owned xs ((l, d) :: fl)).
Proof.
  intros [Hc Ht Hn Hf Hnd Hok]. simpl in Hc. destruct Hc as (Hh&nxt&Hl&Hc).
  unfold Freelist_Delete. rewrite Hl. simpl. eexists _, _. split; [done|].
  split; [done|]. apply Forall_cons in Hok as [[Hb Ho] Hok]. simpl in *.
  apply NoDup_cons in Hnd as [Hni Hnd]. apply not_elem_of_app in Hni as [Hni1 Hni2].
  split.
  - split; simpl; try done.
    + rewrite <-(chain_first _ _ _ _ Hc). by apply chain_insert_other.
    + intros Hne. rewrite <-Ht by done. destruct xs; done.
    + rewrite Hn. lia.
    + destruct Hf as [Hf1 Hf2 Hf3]. split; simpl.
      * split; [done|]. eexists. rewrite lookup_insert_eq. split; [done|].
        by apply chain_insert_other.
      * by rewrite Hf2.
      * by apply Forall_cons.
    + rewrite <-Permutation_middle. apply NoDup_cons. split; [|done].
      by apply not_elem_of_app.
  - intros l' b Hl' Hni'. unfold owned in *. simpl in *. split; [|set_solver].
    rewrite lookup_insert_ne; [done|]. set_solver.
Qed.

(** The invariant of the loop, in which [end_] may be out of date. *)
Definition inv_end m bb full avail fl : Prop :=
  inv0 m (set_end bb (end_of full avail)) full avail fl.

Lemma drain_full_step m bb l d full avail fl k :
  inv_end m bb ((l, d) :: full) avail fl → k < d_len d →
  let m' := set_block m l (blk (first_loc (full ++ avail) None) (drain_data d k)) in
  inv_end m' bb ((l, drain_data d k) :: full) avail fl ∧
  extends m (owned ((l, d) :: full ++ avail) fl) m'
    (owned ((l, drain_data d k) :: full ++ avail) fl).
Proof.
  intros I Hk. simpl. pose proof (inv_ok _ _ _ _ _ I) as Hok.
  apply Forall_cons in Hok as [[Hb Ho] _]. simpl in Ho, Hb.
  assert (data_ok (drain_data d k)) as Hd' by (split; simpl; [done|lia]).
  destruct (shape_update _ _ [] _ _ _ _ _ (iv_shape _ _ _ _ _ I) Hd') as [Hs' Hext].
  split; [|done]. pose proof (iv_full _ _ _ _ _ I) as Hfull.
  apply Forall_cons in Hfull as [Hf1 Hf2]. split; try apply I.
  - by eapply shape_fields; [..|done].
  - apply Forall_cons. split; [|done]. unfold space in *. simpl in *. lia.
  - done.
Qed.

Lemma drain_avail_step m bb l d rest fl k :
  inv_end m bb [] ((l, d) :: rest) fl → k ≤ d_len d →
  let m' := set_block m l (blk (first_loc rest None) (drain_data d k)) in
  inv_end m' bb [] ((l, drain_data d k) :: rest) fl ∧
  extends m (owned ((l, d) :: rest) fl) m' (owned ((l, drain_data d k) :: rest) fl).
Proof.
  intros I Hk. simpl. pose proof (inv_ok _ _ _ _ _ I) as Hok.
  apply Forall_cons in Hok as [[Hb Ho] _]. simpl in Ho, Hb.
  assert (data_ok (drain_data d k)) as Hd' by (split; simpl; [done|lia]).
  destruct (shape_update _ _ [] _ _ _ _ _ (iv_shape _ _ _ _ _ I) Hd') as [Hs' Hext].
  split; [|done]. pose proof (iv_avail _ _ _ _ _ I) as Hav.
  apply Forall_cons in Hav as [Hf1 Hf2]. split; try apply I.
  - by eapply shape_fields; [..|done].
  - apply Forall_cons. split; [|done]. unfold space in *. simpl in *. lia.
  - done.
Qed.

Lemma end_of_prune x full avail :
  Forall (λ x, data_new x.2) (tail avail) → contents (full ++ avail) ≠ [] →
  end_of (x :: full) avail = end_of full avail.
Proof.
  intros Hn Hne. destruct full as [|y full]; [|by destruct avail].
  destruct avail as [|a rest]; [done|]. simpl in *.
  destruct (Nat.ltb_spec 0 (d_len a.2)) as [|Hl]; [done|].
  rewrite contents_cons, (contents_new rest) in Hne by done.
  unfold block_data in Hne. rewrite (proj1 (Nat.le_0_r _) Hl) in Hne. done.
Qed.

Lemma drain_prune_step m bb l d full avail fl :
  inv_end m bb ((l, d) :: full) avail fl →
  let d' := drain_data d (d_len d) in
  ∃ m' bb',
    Freelist_Delete (set_block m l (blk (first_loc (full ++ avail) None) d')) l = Some m' ∧
    bb' = mkBuffer (first_loc (full ++ avail) None) (end_ bb) (tail_ bb) (block_cnt_ bb - 1)
            (data_size_ bb) (reserved_ bb) (peeked_ bb) ∧
    inv_end m' bb' full avail ((l, d') :: fl) ∧
    extends m (owned ((l, d) :: full ++ avail) fl) m' (owned (full ++ avail) ((l, d') :: fl)).
Proof.
  intros I d'. pose proof (inv_ok _ _ _ _ _ I) as Hok.
  apply Forall_cons in Hok as [[Hb Ho] _]. simpl in Ho, Hb.
  assert (data_ok d') as Hd' by (split; simpl; [done|lia]).
  destruct (shape_update _ _ [] _ _ _ _ _ (iv_shape _ _ _ _ _ I) Hd') as [Hs' Hext].
  destruct (shape_prune _ _ _ _ _ _ Hs') as (m'&bb'&HD&Hbb&Hs2&Hext2).
  exists m'. eexists. split; [done|]. split; [done|].
  split; [|by eapply extends_trans].
  pose proof (iv_full _ _ _ _ _ I) as Hfull. apply Forall_cons in Hfull as [_ Hfull].
  pose proof (iv_off _ _ _ _ _ I) as Hoff. simpl in Hoff.
  split; try done; [|apply I|apply I|by destruct (full ++ avail); [|apply Forall_cons in Hoff as [_ ?]]].
  eapply shape_fields; [..|exact Hs2]; by rewrite Hbb.
Qed.

(** What draining leaves behind, [end_] aside. *)
Record drained (n : nat) (m : Mem) (bb : BasicBuffer) (full avail fl : list (loc * Data))
    (m' : Mem) (bb' : BasicBuffer) (full' avail' fl' : list (loc * Data)) : Prop := {
  dr_inv : inv_end m' bb' full' avail' fl';
  dr_status : same_status bb bb';
  dr_end : end_ bb' = end_ bb;
  dr_end_of : contents (full' ++ avail') ≠ [] → end_of full' avail' = end_of full avail;
  dr_contents : contents (full' ++ avail') = drop n (contents (full ++ avail));
  dr_spaces : spaces avail' = spaces avail;
  dr_cut : ∀ k, cut k avail' = cut k avail;
  dr_ext : extends m (owned (full ++ avail) fl) m' (owned (full' ++ avail') fl')
}.

Lemma drained_refl m bb full avail fl :
  inv_end m bb full avail fl → drained 0 m bb full avail fl m bb full avail fl.
Proof. by split. Qed.

Lemma drained_trans n1 n2 m1 b1 f1 a1 l1 m2 b2 f2 a2 l2 m3 b3 f3 a3 l3 :
  drained n1 m1 b1 f1 a1 l1 m2 b2 f2 a2 l2 → drained n2 m2 b2 f2 a2 l2 m3 b3 f3 a3 l3 →
  drained (n1 + n2) m1 b1 f1 a1 l1 m3 b3 f3 a3 l3.
Proof.
  intros [] []. split; try done; try congruence.
  - by eapply same_status_trans.
  - intros H. rewrite dr_end_of1, dr_end_of0; [done| |done].
    intros E. rewrite dr_contents1, E, drop_nil in H. done.
  - by rewrite dr_contents1, dr_contents0, drop_drop.
  - by eapply extends_trans.
Qed.

Lemma drained_full m bb l d full avail fl k :
  inv_end m bb ((l, d) :: full) avail fl → k < d_len d →
  drained k m bb ((l, d) :: full) avail fl
    (set_block m l (blk (first_loc (full ++ avail) None) (drain_data d k))) bb
    ((l, drain_data d k) :: full) avail fl.
Proof.
  intros I Hk. destruct (drain_full_step _ _ _ _ _ _ _ _ I Hk) as [I' Hext].
  pose proof (inv_ok _ _ _ _ _ I) as Hok. apply Forall_cons in Hok as [Hd _].
  split; try done.
  - intros _. destruct avail, full; done.
  - simpl. rewrite !contents_cons. simpl. rewrite drain_data_data, drop_app_le; [done|].
    rewrite length_block_data by done. lia.
Qed.

Lemma drained_prune m bb l d full avail fl :
  inv_end m bb ((l, d) :: full) avail fl →
  let d' := drain_data d (d_len d) in
  ∃ m' bb',
    Freelist_Delete (set_block m l (blk (first_loc (full ++ avail) None) d')) l = Some m' ∧
    bb' = mkBuffer (first_loc (full ++ avail) None) (end_ bb) (tail_ bb) (block_cnt_ bb - 1)
            (data_size_ bb) (reserved_ bb) (peeked_ bb) ∧
    drained (d_len d) m bb ((l, d) :: full) avail fl m' bb' full avail ((l, d') :: fl).
Proof.
  intros I d'. destruct (drain_prune_step _ _ _ _ _ _ _ I) as (m'&bb'&HD&Hbb&I'&Hext).
  pose proof (inv_ok _ _ _ _ _ I) as Hok. apply Forall_cons in Hok as [Hd _].
  exists m', bb'. split_and!; [done|done|]. split; try done; try (by rewrite Hbb).
  - intros Hne. symmetry. apply end_of_prune; [apply I|done].
  - simpl. rewrite !contents_cons. simpl.
    by rewrite drop_app_length' by (rewrite length_block_data; done).
Qed.

Lemma drained_avail m bb l d rest fl k :
  inv_end m bb [] ((l, d) :: rest) fl → k ≤ d_len d →
  drained k m bb [] ((l, d) :: rest) fl
    (set_block m l (blk (first_loc rest None) (drain_data d k))) bb
    [] ((l, drain_data d k) :: rest) fl.
Proof.
  intros I Hk. destruct (drain_avail_step _ _ _ _ _ _ _ I Hk) as [I' Hext].
  pose proof (inv_ok _ _ _ _ _ I) as Hok. apply Forall_cons in Hok as [Hd _].
  split; try done.
  - intros _. simpl. by rewrite !orb_true_r.
  - simpl. rewrite !contents_cons. simpl. rewrite drain_data_data, drop_app_le; [done|].
    rewrite length_block_data by done. lia.
  - rewrite !spaces_cons. simpl. by rewrite drain_data_space.
  - intros n. simpl. unfold iov_of, space. simpl.
    replace (d_off d + k + (d_len d - k)) with (d_off d + d_len d) by lia.
    replace (cap - (d_off d + k) - (d_len d - k)) with (cap - d_off d - d_len d) by lia. done.
Qed.

Lemma drain_loop_spec fuel n m bb full avail fl :
  inv_end m bb full avail fl → n ≤ length (contents (full ++ avail)) → n ≤ fuel →
  ∃ m' bb' full' avail' fl',
    drain_loop BlockSize fuel m bb n = Some (m', bb') ∧
    drained n m bb full avail fl m' bb' full' avail' fl'.
Proof.
  revert n m bb full avail fl.
  induction fuel as [|fuel IH]; intros [|n] m bb full avail fl I Hn Hf; simpl.
  1,3: eauto 10 using drained_refl.
  { lia. }
  pose proof (sh_chain _ _ _ _ (iv_shape _ _ _ _ _ I)) as Hc.
  pose proof (inv_ok _ _ _ _ _ I) as Hok. destruct full as [|[l d] full].
  - destruct avail as [|[l d] rest]; [simpl in Hn; lia|].
    apply (chain_middle _ _ []) in Hc as Hl. destruct Hc as [Hh _]. simpl in Hh.
    rewrite Hh. simpl. rewrite Hl. simpl. apply Forall_cons in Hok as [Hd _].
    pose proof (iv_new _ _ _ _ _ I) as Hnew. simpl in Hn, Hnew.
    rewrite contents_cons, (contents_new rest), app_nil_r, length_block_data in Hn by done.
    simpl in Hn. unfold DataLen, ProxyBuffer.SpaceLen. simpl.
    destruct (Nat.ltb_spec (d_len d) (S n)); [lia|].
    pose proof (iv_avail _ _ _ _ _ I) as Hav. apply Forall_cons in Hav as [Hav _].
    unfold space in Hav. simpl in Hav.
    destruct (Nat.eqb_spec (cap - (d_off d + S n) - (d_len d - S n)) 0); [lia|].
    rewrite andb_false_r, Nat.sub_diag. pose proof (drained_avail _ _ _ _ _ _ (S n) I Hn) as HD.
    eexists _, _, _, _, _. split; [by destruct fuel|exact HD].
  - apply (chain_middle _ _ [] l d (full ++ avail)) in Hc as Hl.
    destruct Hc as [Hh _]. simpl in Hh.
    rewrite Hh. simpl. rewrite Hl. simpl. apply Forall_cons in Hok as [Hd _].
    pose proof (iv_full _ _ _ _ _ I) as Hfl. apply Forall_cons in Hfl as [[Hsp Hlen] _].
    simpl in Hn. rewrite contents_cons, length_app, length_block_data in Hn by done.
    simpl in Hn, Hsp, Hlen. unfold DataLen, ProxyBuffer.SpaceLen. simpl.
    destruct (decide (S n < d_len d)) as [Hlt|Hge].
    + destruct (Nat.ltb_spec (d_len d) (S n)); [lia|].
      destruct (Nat.eqb_spec (d_len d - S n) 0); [lia|]. simpl. rewrite Nat.sub_diag.
      pose proof (drained_full _ _ _ _ _ _ _ (S n) I Hlt) as HD.
      eexists _, _, _, _, _. split; [by destruct fuel|exact HD].
    + replace (if d_len d <? S n then d_len d else S n) with (d_len d)
        by (destruct (Nat.ltb_spec (d_len d) (S n)); lia).
      rewrite Nat.sub_diag. destruct Hd as [Hb Ho]. simpl in Ho. unfold space in Hsp.
      replace (cap - (d_off d + d_len d) - 0) with 0 by lia. simpl.
      destruct (drained_prune _ _ _ _ _ _ _ I) as (m1&bb1&HF&Hbb&HD).
      unfold drain_data, blk in HF. simpl in HF. rewrite Nat.sub_diag in HF.
      rewrite HF. simpl. rewrite <-Hbb.
      destruct (IH (S n - d_len d) m1 bb1 full avail ((l, drain_data d (d_len d)) :: fl))
        as (m2&bb2&f2&a2&fl2&HR&HD2); [apply HD|lia|lia|].
      exists m2, bb2, f2, a2, fl2. split; [done|].
      replace (S n) with (d_len d + (S n - d_len d)) by lia. by eapply drained_trans.
Qed.

(** *** Writing into reserved space *)

(** Blocks that differ at most in the bytes of their space. *)
Definition same_layout (x y : loc * Data) : Prop :=
  x.1 = y.1 ∧ d_off x.2 = d_off y.2 ∧ d_len x.2 = d_len y.2 ∧
  length (d_buf x.2) = length (d_buf y.2) ∧ block_data x.2 = block_data y.2.

#[local] Instance same_layout_equiv : Equivalence same_layout.
Proof. unfold same_layout. split; repeat intro; intuition congruence. Qed.

Definition write_data (d : Data) (bs : list Z) : Data :=
  let k := d_off d + d_len d in
  mkData (d_off d) (d_len d) (take k (d_buf d) ++ bs ++ drop (k + length bs) (d_buf d)).

Lemma write_data_spec l d bs :
  data_ok d → length bs ≤ space d →
  same_layout (l, d) (l, write_data d bs) ∧ data_ok (write_data d bs) ∧
  block_space (write_data d bs) = bs ++ drop (length bs) (block_space d).
Proof.
  intros [Hb Ho] Hl. unfold space in Hl.
  assert (length (d_buf (write_data d bs)) = cap) as Hcap.
  { simpl. rewrite !length_app, length_take, length_drop. lia. }
  split_and!.
  - unfold same_layout. split_and!; try done; cbn [snd]; [congruence|].
    unfold block_data. simpl. rewrite drop_app_le by (rewrite length_take; lia).
    rewrite take_app_le by (rewrite length_drop, length_take; lia).
    rewrite skipn_firstn_comm, take_take. f_equal. lia.
  - split; [done|simpl; lia].
  - unfold block_space. simpl. rewrite drop_app_length' by (rewrite length_take; lia).
    by rewrite drop_drop.
Qed.

Lemma cut_layout n xs ys : Forall2 same_layout xs ys → cut n xs = cut n ys.
Proof.
  intros H. revert n. induction H as [|x y xs ys (H1&H2&H3&_) _ IH]; intros n; [done|].
  simpl. unfold iov_of, space. rewrite H1, H2, H3. destruct (n =? 0); [done|].
  f_equal. apply IH.
Qed.

Lemma contents_layout xs ys : Forall2 same_layout xs ys → contents xs = contents ys.
Proof.
  induction 1 as [|x y xs ys (_&_&_&_&H) _ IH]; [done|].
  by rewrite !contents_cons, H, IH.
Qed.

Lemma view_layout n xs ys : Forall2 same_layout xs ys → view n xs = view n ys.
Proof.
  intros H. revert n. induction H as [|x y xs ys (H1&H2&H3&_) _ IH]; intros n; [done|].
  simpl. rewrite H1, H2, H3. destruct (n =? 0); [done|]. f_equal. apply IH.
Qed.

Lemma total_space_layout xs ys : Forall2 same_layout xs ys → total_space xs = total_space ys.
Proof.
  induction 1 as [|x y xs ys (_&H2&H3&_) _ IH]; [done|].
  rewrite !total_space_cons, IH. unfold space. by rewrite H2, H3.
Qed.

Lemma layout_fst xs ys : Forall2 same_layout xs ys → xs.*1 = ys.*1.
Proof. induction 1 as [|x y xs ys [H _] _ IH]; [done|]. by rewrite !fmap_cons, H, IH. Qed.

(** A property of the layout alone. *)
Lemma Forall_layout (P : loc * Data → Prop) xs ys :
  (∀ x y, same_layout x y → P x → P y) → Forall2 same_layout xs ys → Forall P xs → Forall P ys.
Proof. intros HP. induction 1; intros HF; inversion_clear HF; constructor; eauto. Qed.

Lemma inv0_layout m bb full avail fl m' avail' :
  inv0 m bb full avail fl → shape m' bb (full ++ avail') fl → Forall2 same_layout avail avail' →
  inv0 m' bb full avail' fl.
Proof.
  intros I Hs Hlay. split; try done; try apply I.
  - eapply Forall_layout; [|done|apply I]. intros x y (_&H2&H3&_). unfold space. by rewrite H2, H3.
  - pose proof (iv_new _ _ _ _ _ I) as H. destruct Hlay as [|x y xs ys _ Hlay]; [done|].
    eapply Forall_layout; [|done|exact H]. intros ? ? (_&H2&H3&H4&_).
    unfold data_new. by rewrite H2, H3, H4.
  - pose proof (iv_off _ _ _ _ _ I) as H.
    assert (Forall2 same_layout (tail (full ++ avail)) (tail (full ++ avail'))) as Ht.
    { destruct full; simpl; [by destruct Hlay|]. by apply Forall2_app. }
    eapply Forall_layout; [|exact Ht|exact H]. intros ? ? (_&H2&_). by rewrite H2.
  - rewrite (iv_end _ _ _ _ _ I). destruct Hlay as [|x y xs ys (H1&_&H3&_) _]; [done|].
    simpl. by rewrite H1, H3.
Qed.

Lemma iov_write_spec m bb vs l d t fl bs k :
  shape m bb (vs ++ (l, d) :: t) fl → length bs ≤ k → length bs ≤ space d →
  let m' := set_block m l (blk (first_loc t None) (write_data d bs)) in
  iov_write m (iov_of (l, d) k) bs = Some m' ∧
  shape m' bb (vs ++ (l, write_data d bs) :: t) fl ∧
  extends m (owned (vs ++ (l, d) :: t) fl) m' (owned (vs ++ (l, write_data d bs) :: t) fl).
Proof.
  intros Hs Hk Hsp. simpl. pose proof (sh_ok _ _ _ _ Hs) as Hok.
  apply Forall_app in Hok as [_ Hok]. apply Forall_cons in Hok as [Hd _].
  destruct (write_data_spec l d bs Hd Hsp) as (_&Hd'&_).
  destruct (shape_update _ _ _ _ _ _ _ _ Hs Hd') as [Hs' Hext].
  split; [|done]. unfold iov_write. simpl.
  rewrite (chain_middle _ _ _ _ _ _ _ (sh_chain _ _ _ _ Hs)). simpl.
  destruct (Nat.ltb_spec k (length bs)); [lia|].
  destruct Hd as [Hb Ho]. simpl in *. unfold space in Hsp.
  rewrite mem_write_Some by lia. simpl. rewrite Nat2Z.id. done.
Qed.

Lemma scatter_bytes {A} (k n : nat) (bs sp rest : list A) :
  length bs ≤ n → k ≤ n → (k = length sp ∨ k = n ∧ k ≤ length sp) →
  (take k bs ++ drop (length (take k bs)) sp) ++
    (drop k bs ++ drop (length (drop k bs)) rest) = bs ++ drop (length bs) (sp ++ rest).
Proof.
  intros Hn Hk Hor. rewrite length_take, length_drop, drop_app.
  destruct (decide (length bs ≤ k)) as [Hle|Hgt].
  - rewrite (take_ge bs), (drop_ge bs) by lia.
    replace (length bs - k) with 0 by lia. rewrite drop_0.
    replace (length bs - length sp) with 0 by lia. rewrite drop_0.
    replace (k `min` length bs) with (length bs) by lia. by rewrite <-app_assoc.
  - assert (k = length sp) as -> by lia.
    rewrite (drop_ge sp), (drop_ge sp (length bs)), app_nil_r by lia. simpl.
    by rewrite app_assoc, take_drop.
Qed.

Lemma scatter_spec todo n bs m bb vs fl :
  shape m bb (vs ++ todo) fl → n ≤ total_space todo → length bs ≤ n →
  ∃ m' todo',
    scatter m (cut n todo) bs = Some m' ∧ shape m' bb (vs ++ todo') fl ∧
    Forall2 same_layout todo todo' ∧ spaces todo' = bs ++ drop (length bs) (spaces todo) ∧
    extends m (owned (vs ++ todo) fl) m' (owned (vs ++ todo') fl).
Proof.
  revert n bs m vs. induction todo as [|[l d] t IH]; intros n bs m vs Hs Hn Hbs.
  { assert (bs = []) as -> by (apply nil_length_inv; cbv in Hn; lia).
    exists m, []. done. }
  simpl cut. destruct (Nat.eqb_spec n 0) as [->|Hn0].
  { assert (bs = []) as -> by (apply nil_length_inv; lia).
    exists m, ((l, d) :: t). done. }
  set (k := if space d <=? n then space d else n).
  assert (k ≤ space d ∧ k ≤ n ∧ (k = space d ∨ k = n ∧ k ≤ space d)) as (Hks&Hkn&Hor)
    by (unfold k; destruct (Nat.leb_spec (space d) n); lia). clearbody k. simpl.
  pose proof (sh_ok _ _ _ _ Hs) as Hok. apply Forall_app in Hok as [_ Hok].
  apply Forall_cons in Hok as [Hd _]. simpl in Hd.
  rewrite total_space_cons in Hn. simpl in Hn.
  pose proof (length_take bs k) as Ht.
  destruct (iov_write_spec _ _ _ _ _ _ _ (take k bs) k Hs) as (->&Hs1&Hext1); [lia..|]. simpl.
  destruct (write_data_spec l d (take k bs) Hd) as (Hlay&_&Hsp1); [lia|].
  rewrite cons_middle, app_assoc in Hs1.
  destruct (IH (n - k) (drop k bs) _ _ Hs1) as (m2&t2&HS&Hs2&Hlay2&Hsp2&Hext2);
    [lia|rewrite length_drop; lia|].
  rewrite HS. exists m2, ((l, write_data d (take k bs)) :: t2).
  assert (∀ ys, (vs ++ [(l, write_data d (take k bs))]) ++ ys =
    vs ++ (l, write_data d (take k bs)) :: ys) as Hass by (intros; by rewrite <-app_assoc).
  rewrite !Hass in *. split_and!; try done.
  - by constructor.
  - rewrite !spaces_cons, Hsp2. simpl. rewrite Hsp1.
    apply (scatter_bytes k n); [done..|]. by rewrite length_block_space.
  - by eapply extends_trans.
Qed.

(** ** The operations

    [rep m bb q s g p own]: the buffer holds the bytes [q] and then space with
    the bytes [s]; [g] are the buffers of an outstanding reservation, [p] those
    of an outstanding [Peek], and [own] the blocks of the buffer and of the
    freelist. *)

Definition iovs_len (vs : list SysBuf) : nat := sum_list (iov_len <$> vs).

Lemma iovs_len_cons v vs : iovs_len (v :: vs) = iov_len v + iovs_len vs.
Proof. done. Qed.

Definition grant_ok (bb : BasicBuffer) (avail : list (loc * Data)) (g : option (list SysBuf))
  : Prop :=
  match g with
  | None => reserved_ bb = false
  | Some vs => reserved_ bb = true ∧ vs = cut (iovs_len vs) avail ∧
               iovs_len vs ≤ total_space avail
  end.

Definition peek_ok (bb : BasicBuffer) (xs : list (loc * Data)) (p : option (list SysBuf))
  : Prop :=
  match p with
  | None => peeked_ bb = false
  | Some vs => peeked_ bb = true ∧ vs = view (iovs_len vs) xs ∧
               iovs_len vs ≤ length (contents xs)
  end.

(** The blocks of a buffer, and those of the freelist. *)
Definition Own : Type := list loc * list loc.

(** No block of another owner is changed or taken. *)
Definition keeps (m : Mem) (own : Own) (m' : Mem) (own' : Own) : Prop :=
  extends m (own.1 ++ own.2) m' (own'.1 ++ own'.2).

Lemma keeps_trans m1 o1 m2 o2 m3 o3 :
  keeps m1 o1 m2 o2 → keeps m2 o2 m3 o3 → keeps m1 o1 m3 o3.
Proof. apply extends_trans. Qed.

Definition rep (m : Mem) (bb : BasicBuffer) (q s : list Z) (g p : option (list SysBuf))
    (own : Own) : Prop :=
  ∃ full avail fl,
    inv m bb full avail fl ∧ contents (full ++ avail) = q ∧ spaces avail = s ∧
    grant_ok bb avail g ∧ peek_ok bb (full ++ avail) p ∧
    own = (((full ++ avail).*1, fl.*1) : Own).

Lemma cut_len n xs : n ≤ total_space xs → iovs_len (cut n xs) = n.
Proof.
  revert n. induction xs as [|x xs IH]; intros n Hn; [cbv in *; lia|].
  rewrite total_space_cons in Hn. simpl. destruct (Nat.eqb_spec n 0) as [->|]; [done|].
  rewrite iovs_len_cons, IH; simpl; destruct (Nat.leb_spec (space x.2) n); lia.
Qed.

Lemma view_len k xs : k ≤ total_len xs → iovs_len (view k xs) = k.
Proof.
  revert k. induction xs as [|x xs IH]; intros n Hn; [cbv in *; lia|].
  rewrite total_len_cons in Hn. simpl. destruct (Nat.eqb_spec n 0) as [->|]; [done|].
  rewrite iovs_len_cons, IH; simpl; destruct (Nat.leb_spec (d_len x.2) n); lia.
Qed.

Lemma inv_avail_ok m bb full avail fl :
  inv0 m bb full avail fl → Forall (λ x, data_ok x.2) avail.
Proof. intros I%inv_ok. by apply Forall_app in I as [_ ?]. Qed.

(** A buffer without blocks. *)
Lemma rep_empty m fl :
  freelist m fl → NoDup fl.*1 → rep m empty_buffer [] [] None None ([], fl.*1).
Proof.
  intros Hf Hnd. exists [], [], fl. repeat split; try done; apply Hf.
Qed.

(** A growth that ends a reservation of [n] bytes. *)
Lemma rep_grown m bb full avail fl q s p n m' bb' new fl' :
  inv m bb full avail fl → contents (full ++ avail) = q → spaces avail = s →
  peek_ok bb (full ++ avail) p →
  grown m (set_reserved bb true) full avail fl m' bb' new fl' → n ≤ total_space (avail ++ new) →
  let vs := cut n (avail ++ new) in
  iovs_len vs = n ∧ n ≤ length (s ++ spaces new) ∧
  rep m' bb' q (s ++ spaces new) (Some vs) p ((full ++ avail ++ new).*1, fl'.*1).
Proof.
  intros [I Hds] Hq Hsp Hp HG Hn vs.
  assert (inv0 m (set_reserved bb true) full avail fl) as I1 by (by eapply inv0_fields; [..|exact I]).
  pose proof (grown_inv0 _ _ _ _ _ _ _ _ _ I1 HG) as I'.
  pose proof (gr_new _ _ _ _ _ _ _ _ _ HG) as Hnew.
  destruct (gr_status _ _ _ _ _ _ _ _ _ HG) as (H1&H2&H3). simpl in *.
  assert (contents (full ++ avail ++ new) = q) as Hq'
    by (by rewrite app_assoc, contents_app, (contents_new new), app_nil_r).
  pose proof (cut_len _ _ Hn) as Hlen. split; [done|]. split.
  { rewrite <-Hsp, <-spaces_app, length_spaces; [done|]. by eapply inv_avail_ok. }
  exists full, (avail ++ new), fl'. split_and!.
  - split; [done|]. by rewrite Hq', H1, Hds, Hq.
  - done.
  - by rewrite spaces_app, Hsp.
  - simpl. unfold vs. rewrite Hlen. done.
  - destruct p as [ps|]; simpl in *; [|by rewrite H3].
    destruct Hp as (Hp1&Hp2&Hp3). split; [by rewrite H3|]. rewrite Hq'.
    split; [|by rewrite <-Hq]. rewrite Hp2 at 1. rewrite app_assoc.
    rewrite <-(app_nil_r (full ++ avail)) at 1. apply view_app_l.
    rewrite <-length_contents; [done|]. by eapply inv_ok.
  - done.
Qed.

(** *** Reading data *)

Lemma iov_read_spec m bb vs l d t fl k :
  shape m bb (vs ++ (l, d) :: t) fl → k ≤ d_len d →
  iov_read m (mkSysBuf l (d_off d) k) k = Some (take k (block_data d)).
Proof.
  intros Hs Hk. pose proof (sh_ok _ _ _ _ Hs) as Hok.
  apply Forall_app in Hok as [_ Hok]. apply Forall_cons in Hok as [[Hb Ho] _]. simpl in *.
  unfold iov_read. simpl.
  rewrite (chain_middle _ _ _ _ _ _ _ (sh_chain _ _ _ _ Hs)). simpl.
  rewrite Nat.ltb_irrefl, mem_read_Some, !Nat2Z.id by lia.
  unfold block_data. rewrite take_take. do 2 f_equal. lia.
Qed.

Lemma gather_view todo k m bb vs fl :
  shape m bb (vs ++ todo) fl → k ≤ total_len todo →
  gather m (view k todo) = Some (take k (contents todo)).
Proof.
  revert k vs. induction todo as [|[l d] t IH]; intros k vs Hs Hk; [by destruct k|].
  pose proof (sh_ok _ _ _ _ Hs) as Hok. apply Forall_app in Hok as [_ Hok].
  apply Forall_cons in Hok as [Hd _]. rewrite total_len_cons in Hk. simpl in Hd, Hk. simpl view.
  destruct (Nat.eqb_spec k 0) as [->|]; [done|].
  set (j := if d_len d <=? k then d_len d else k).
  assert (j ≤ d_len d ∧ j ≤ k ∧ (j = d_len d ∨ j = k ∧ j ≤ d_len d)) as (Hj1&Hj2&Hj3)
    by (unfold j; destruct (Nat.leb_spec (d_len d) k); lia). clearbody j. simpl.
  rewrite (iov_read_spec _ _ _ _ _ _ _ _ Hs Hj1). simpl.
  rewrite (IH (k - j) (vs ++ [(l, d)])); [|by rewrite <-app_assoc|lia]. simpl.
  rewrite contents_cons. simpl. f_equal. symmetry.
  apply take_drop_split; [done|]. by rewrite length_block_data.
Qed.

(** Part of a buffer that can be read whole. *)
Lemma iov_read_part m v bs j :
  iov_read m v (iov_len v) = Some bs → j ≤ iov_len v →
  iov_read m v j = Some (take j bs) ∧ length bs = iov_len v.
Proof.
  unfold iov_read. destruct (heap m !! iov_block v) as [b|]; [simpl|done].
  rewrite Nat.ltb_irrefl. destruct (Nat.ltb_spec (iov_len v) j); [lia|]. intros Hr Hj.
  unfold mem_read in *. case_bool_decide; [|done]. rewrite bool_decide_eq_true_2 by lia.
  injection Hr as <-. rewrite !Nat2Z.id, take_take, length_take, length_drop.
  split; [|lia]. do 2 f_equal. lia.
Qed.

Lemma copy_out_loop_spec m vs bs size got :
  gather m vs = Some bs → got ≤ size →
  copy_out_loop m vs size got
    = Some (take (size - got) bs, got + (size - got) `min` length bs).
Proof.
  revert bs got. induction vs as [|v vs IH]; intros bs got Hg Hle; simpl in *.
  { injection Hg as <-. rewrite take_nil, Nat.min_0_r, Nat.add_0_r. done. }
  apply bind_Some in Hg as (b1&Hb1&Hg). apply bind_Some in Hg as (b2&Hb2&Hg).
  injection Hg as <-. destruct (Nat.eqb_spec size 0) as [->|].
  { by rewrite Nat.add_0_r. }
  set (j := if iov_len v <? size - got then iov_len v else size - got).
  assert (j = (size - got) `min` iov_len v) as Hj
    by (unfold j; destruct (Nat.ltb_spec (iov_len v) (size - got)); lia). clearbody j.
  destruct (iov_read_part _ _ _ j Hb1) as [-> Hlen]; [lia|]. simpl.
  rewrite (IH b2) by (done || lia). simpl. rewrite length_app, take_app, Hlen.
  f_equal. f_equal; [|lia].
  f_equal; [|f_equal; lia]. destruct (decide (size - got ≤ length b1)).
  - f_equal. lia.
  - rewrite !take_ge by lia. done.
Qed.

(** *** The end of [Drain] *)

(** With no data left, all blocks have space. *)
Lemma inv_no_data m bb full avail fl :
  inv0 m bb full avail fl → contents (full ++ avail) = [] → full = [].
Proof.
  intros I Hc. pose proof (inv_ok _ _ _ _ _ I) as Hok. pose proof (iv_full _ _ _ _ _ I) as Hf.
  destruct full as [|x full]; [done|]. apply Forall_cons in Hok as [Hx _].
  apply Forall_cons in Hf as [[_ Hf] _]. rewrite <-length_block_data in Hf by done.
  simpl in Hc. rewrite contents_cons in Hc. apply app_eq_nil in Hc as [Hc _].
  rewrite Hc in Hf. simpl in Hf. lia.
Qed.

(** The new value of [end_]. *)
Lemma drained_end n m bb full avail fl m' bb' full' avail' fl' :
  drained n m bb full avail fl m' bb' full' avail' fl' → end_ bb = end_of full avail →
  (if length (contents (full' ++ avail')) =? 0 then head_ bb' else end_ bb')
    = end_of full' avail'.
Proof.
  intros [I _ He Hec _ _ _ _] Hend. destruct (contents (full' ++ avail')) as [|c cs] eqn:E; simpl.
  - pose proof (inv_no_data _ _ _ _ _ I E) as ->.
    pose proof (chain_first _ _ _ _ (sh_chain _ _ _ _ (iv_shape _ _ _ _ _ I))) as Hh.
    simpl in Hh. rewrite Hh. destruct avail'; simpl; [done|]. by rewrite orb_true_r.
  - rewrite Hec, He by done. done.
Qed.

(** Resetting the offset of a first block without data. *)
Lemma reset_head m bb l d rest fl :
  inv0 m bb [] ((l, d) :: rest) fl → contents ((l, d) :: rest) = [] →
  let d' := mkData 0 (d_len d) (d_buf d) in
  let m' := set_block m l (blk (first_loc rest None) d') in
  inv0 m' bb [] ((l, d') :: rest) fl ∧ contents ((l, d') :: rest) = [] ∧
  extends m (owned ((l, d) :: rest) fl) m' (owned ((l, d') :: rest) fl).
Proof.
  intros I Hc d' m'. pose proof (inv_ok _ _ _ _ _ I) as Hok.
  apply Forall_cons in Hok as [[Hb Ho] Hok]. simpl in Hb, Ho.
  assert (data_ok d') as Hd' by (split; simpl; [done|lia]).
  destruct (shape_update _ _ [] _ _ _ _ _ (iv_shape _ _ _ _ _ I) Hd') as [Hs' Hext].
  rewrite contents_cons in Hc. apply app_eq_nil in Hc as [Hc1 Hc2].
  apply (f_equal length) in Hc1. rewrite length_block_data in Hc1 by done. simpl in Hc1.
  split_and!; [|by rewrite contents_cons, Hc2; unfold block_data; simpl; rewrite Hc1|done].
  pose proof (iv_avail _ _ _ _ _ I) as Hav. apply Forall_cons in Hav as [Ha Hav].
  split; try done; try apply I. apply Forall_cons. split; [|done].
  unfold space in *. simpl in *. lia.
Qed.

Section ops.
Context (m : Mem) (bb : BasicBuffer) (q s : list Z).

Lemma NumBuffersToReserve_total full avail fl n :
  inv0 m bb full avail fl →
  is_Some (NumBuffersToReserve BlockSize m (set_reserved bb true) n).
Proof.
  intros I. pose proof (SpaceStepper_spec _ _ _ _ _ I) as Hst.
  unfold SpaceStepper, NumBuffersToReserve in *. simpl. destruct (end_ bb) as [e|]; [|by eauto].
  destruct (heap m !! e) as [b|]; [|done]. simpl. destruct (_ =? 0); by eauto.
Qed.

Lemma Reserve_rep p own n :
  rep m bb q s None p own →
  ∃ vs m' bb' s' own',
    Reserve m bb n = Some (vs, m', bb') ∧ iovs_len vs = n ∧ n ≤ length (s ++ s') ∧
    rep m' bb' q (s ++ s') (Some vs) p own' ∧ keeps m own m' own'.
Proof.
  intros (full&avail&fl&I&Hq&Hs&Hg&Hp&->). simpl in Hg. unfold ProxyBuffer.Reserve. rewrite Hg.
  destruct (NumBuffersToReserve_total _ _ _ n (proj1 I)) as [k Hk].
  assert (inv0 m (set_reserved bb true) full avail fl) as I1
    by (by eapply inv0_fields; [..|apply I]).
  rewrite (SpaceStepper_spec _ _ _ _ _ I1). simpl. rewrite Hk. simpl.
  destruct (reserve_loop_spec n n m (set_reserved bb true) full avail fl)
    as (new&m'&bb'&fl'&->&HG&Hn); [apply I1|apply I1|done|].
  destruct (rep_grown _ _ _ _ _ _ _ _ _ _ _ _ _ I Hq Hs Hp HG Hn) as (Hlen&Hsp&Hrep).
  eexists _, _, _, _, _. split_and!; try done. apply HG.
Qed.

Lemma ReserveAtLeast_rep p own n :
  rep m bb q s None p own →
  ∃ vs sz m' bb' s' own',
    ReserveAtLeast m bb n = Some (vs, sz, m', bb') ∧ n ≤ sz ∧ iovs_len vs = sz ∧
    sz ≤ length (s ++ s') ∧
    rep m' bb' q (s ++ s') (Some vs) p own' ∧ keeps m own m' own'.
Proof.
  intros (full&avail&fl&I&Hq&Hs&Hg&Hp&->). simpl in Hg.
  unfold ProxyBuffer.ReserveAtLeast. rewrite Hg.
  destruct (NumBuffersToReserve_total _ _ _ n (proj1 I)) as [k Hk].
  assert (inv0 m (set_reserved bb true) full avail fl) as I1
    by (by eapply inv0_fields; [..|apply I]).
  rewrite (SpaceStepper_spec _ _ _ _ _ I1). simpl. rewrite Hk. simpl.
  destruct (reserve_at_least_loop_spec n n 0 m (set_reserved bb true) full avail fl)
    as (new&sz&m'&bb'&fl'&->&HG&Hn&Hsz&_); [apply I1|apply I1|lia|].
  rewrite Nat.sub_0_r in *.
  destruct (rep_grown _ _ _ _ _ _ _ _ _ _ _ _ _ I Hq Hs Hp HG Hn) as (Hlen&Hsp&Hrep).
  eexists _, _, _, _, _, _. split_and!; try done. apply HG.
Qed.

Lemma scatter_rep p own vs bs :
  rep m bb q s (Some vs) p own → length bs ≤ iovs_len vs →
  ∃ m',
    scatter m vs bs = Some m' ∧
    rep m' bb q (bs ++ drop (length bs) s) (Some vs) p own ∧ keeps m own m' own.
Proof.
  intros (full&avail&fl&[I Hds]&Hq&Hs&(Hr&Hcut&Hle)&Hp&->) Hbs.
  destruct (scatter_spec avail (iovs_len vs) bs m bb full fl)
    as (m'&avail'&HS&Hs'&Hlay&Hsp&Hext); [apply I|done..|].
  rewrite <-Hcut in HS. exists m'. split; [done|].
  assert (Forall2 same_layout (full ++ avail) (full ++ avail')) as Hlay'
    by (by apply Forall2_app).
  assert (owned (full ++ avail') fl = owned (full ++ avail) fl) as Hown
    by (unfold owned; by rewrite (layout_fst _ _ Hlay')).
  rewrite Hown in Hext. split; [|done].
  exists full, avail', fl. rewrite (layout_fst _ _ Hlay'). rewrite <-(contents_layout _ _ Hlay'). split_and!; try done.
  - split; [by eapply inv0_layout|]. by rewrite <-(contents_layout _ _ Hlay').
  - by rewrite Hsp, Hs.
  - simpl. by rewrite <-(cut_layout _ _ _ Hlay), <-(total_space_layout _ _ Hlay).
  - destruct p as [ps|]; [|done]. simpl.
    by rewrite <-(view_layout _ _ _ Hlay'), <-(contents_layout _ _ Hlay').
Qed.

(** [n] bytes of the space become data; [Peek]ed buffers are as before. *)
Lemma Commit_rep g p own n :
  rep m bb q s (Some g) p own → n ≤ length s → q ++ s ≠ [] →
  ∃ m' bb',
    Commit m bb n = Some (m', bb') ∧
    ∃ own', rep m' bb' (q ++ take n s) (drop n s) None p own' ∧ keeps m own m' own'.
Proof.
  intros (full&avail&fl&[I Hds]&Hq&Hs&(Hr&_&_)&Hp&->) Hn Hne.
  unfold ProxyBuffer.Commit. rewrite Hr. simpl.
  assert (∃ h, head_ bb = Some h) as [h Hh].
  { pose proof (sh_chain _ _ _ _ (iv_shape _ _ _ _ _ I)) as Hc.
    destruct (full ++ avail) as [|[l d] xs] eqn:E; [|exists l; apply Hc].
    apply app_eq_nil in E as [-> ->]. simpl in *. by subst. }
  rewrite Hh. simpl. rewrite (space_size_spec _ _ _ _ _ (conj I Hds)). simpl.
  rewrite Hs. destruct (Nat.ltb_spec (length s) n); [lia|].
  rewrite (SpaceStepper_spec _ _ _ _ _ I). simpl.
  destruct (commit_loop_spec n n m bb full avail fl I)
    as (m'&bb'&full'&avail'&->&I'&(H1&H2&H3)&Hc&Hsp&Hv&Hext); [|done|].
  { rewrite <-length_spaces by (by eapply inv_avail_ok). by rewrite Hs. }
  simpl. eexists _, _. split; [done|]. exists ((full' ++ avail').*1, fl.*1). split; [|exact Hext].
  exists full', avail', fl. rewrite Hs, Hq in Hc. rewrite Hs in Hsp. split_and!; try done.
  - split; [by eapply inv0_fields; [..|exact I']|]. simpl.
    rewrite Hc, H1, Hds, Hq, length_app, length_take. lia.
  - destruct p as [ps|]; simpl in *; [|by rewrite H3].
    destruct Hp as (Hp1&Hp2&Hp3). rewrite H3, Hv, Hc, length_app by done.
    rewrite Hq in Hp3. split_and!; [done|done|lia].
Qed.

Lemma Peek_rep g own :
  rep m bb q s g None own →
  ∃ vs bb',
    Peek m bb = Some (vs, bb') ∧ iovs_len vs = length q ∧ rep m bb' q s g (Some vs) own.
Proof.
  intros (full&avail&fl&[I Hds]&Hq&Hs&Hg&Hp&->). simpl in Hp. unfold Peek. rewrite Hp.
  rewrite (Peek_loop_inv _ _ _ _ _ I). simpl. eexists _, _. split; [done|]. rewrite Hq.
  assert (iovs_len (view (length q) (full ++ avail)) = length q) as Hlen.
  { apply view_len. rewrite <-Hq, length_contents; [done|]. by eapply inv_ok. }
  split; [done|]. exists full, avail, fl. split_and!; try done.
  - split; [by eapply inv0_fields; [..|exact I]|done].
  - simpl. by rewrite Hlen, Hq.
Qed.

(** The buffers of an outstanding [Peek] hold the first bytes of the queue. *)
Lemma gather_rep g own vs :
  rep m bb q s g (Some vs) own →
  iovs_len vs ≤ length q ∧ gather m vs = Some (take (iovs_len vs) q).
Proof.
  intros (full&avail&fl&[I Hds]&Hq&Hs&Hg&(_&Hv&Hle)&->). rewrite Hq in Hle.
  split; [done|]. rewrite Hv at 1. rewrite <-Hq. apply gather_view with bb [] fl; [apply I|].
  rewrite <-length_contents; [by rewrite Hq|]. by eapply inv_ok.
Qed.

(** [Drain] takes bytes from the front; an outstanding reservation keeps its
    buffers and their bytes. *)
Lemma Drain_rep g vs own n :
  rep m bb q s g (Some vs) own → n ≤ length q →
  ∃ m' bb',
    Drain m bb n = Some (m', bb') ∧
    ∃ s' own', rep m' bb' (drop n q) s' g None own' ∧ (g ≠ None → s' = s) ∧
               keeps m own m' own'.
Proof.
  intros (full&avail&fl&[I Hds]&Hq&Hs&Hg&(Hpk&_&_)&->) Hn.
  unfold ProxyBuffer.Drain. rewrite Hpk. simpl.
  assert (data_size_ bb = length q) as Hsz by (by rewrite Hds, Hq).
  rewrite Hsz. destruct (Nat.ltb_spec (length q) n); [lia|].
  assert (inv_end m bb full avail fl) as Ie.
  { eapply inv0_fields; [..|exact I]; try done. simpl. symmetry. apply I. }
  destruct (drain_loop_spec n n m bb full avail fl Ie) as (m1&bb1&f1&a1&fl1&->&HD);
    [by rewrite Hq|done|]. simpl.
  pose proof (drained_end _ _ _ _ _ _ _ _ _ _ _ HD (iv_end _ _ _ _ _ I)) as Hend.
  destruct (dr_status _ _ _ _ _ _ _ _ _ _ _ HD) as (H1&H2&H3).
  pose proof (dr_contents _ _ _ _ _ _ _ _ _ _ _ HD) as Hc. rewrite Hq in Hc.
  rewrite Hc, length_drop in Hend. rewrite H1, Hsz, H2, Hend.
  set (bb2 := mkBuffer _ _ _ _ _ _ _).
  assert (inv0 m1 bb2 f1 a1 fl1) as I2
    by (eapply inv0_fields; [..|apply (dr_inv _ _ _ _ _ _ _ _ _ _ _ HD)]; done).
  assert (grant_ok bb2 a1 g) as Hg2.
  { destruct g as [vs'|]; simpl in *; [|done].
    rewrite (dr_cut _ _ _ _ _ _ _ _ _ _ _ HD).
    rewrite <-length_spaces, (dr_spaces _ _ _ _ _ _ _ _ _ _ _ HD), length_spaces; [done|..];
      by eapply inv_avail_ok. }
  assert (∃ s' own', rep m1 bb2 (drop n q) s' g None own' ∧ (g ≠ None → s' = s) ∧
            keeps m ((full ++ avail).*1, fl.*1) m1 own') as Hdone.
  { exists (spaces a1), ((f1 ++ a1).*1, fl1.*1). split; [|split; [|apply HD]].
    - exists f1, a1, fl1. split_and!; try done. split; [done|].
      rewrite Hc, length_drop. done.
    - intros _. rewrite (dr_spaces _ _ _ _ _ _ _ _ _ _ _ HD). done. }
  destruct (head_ bb1) as [h|] eqn:Hh; [|by exists m1, bb2].
  destruct ((length q - n =? 0) && negb (reserved_ bb)) eqn:Hif; [|by exists m1, bb2].
  apply andb_true_iff in Hif as [Hz Hres]. apply Nat.eqb_eq in Hz.
  assert (g = None) as -> by (by destruct g as [vs'|]; [destruct Hg as [Hg _]; rewrite Hg in Hres|]).
  assert (drop n q = []) as Hnil by (apply drop_ge; lia). rewrite Hnil in *.
  pose proof (inv_no_data _ _ _ _ _ I2 Hc) as ->. simpl in Hc.
  pose proof (sh_chain _ _ _ _ (iv_shape _ _ _ _ _ I2)) as Hch.
  simpl in Hch.
  destruct a1 as [|[l d] rest]; [done|]. destruct Hch as [[= ->] _].
  pose proof (chain_middle _ _ [] _ _ _ _ (sh_chain _ _ _ _ (iv_shape _ _ _ _ _ I2))) as Hl.
  rewrite Hl. simpl. eexists _, _. split; [done|].
  destruct (reset_head _ _ _ _ _ _ I2 Hc) as (I3&Hc3&Hext3).
  eexists (spaces ((l, mkData 0 (d_len d) (d_buf d)) :: rest)), (l :: rest.*1, fl1.*1).
  split; [|split; [done|eapply extends_trans; [apply HD|exact Hext3]]].
  exists [], ((l, mkData 0 (d_len d) (d_buf d)) :: rest), fl1. split_and!; try done.
  split; [done|]. simpl app. rewrite Hc3. simpl. lia.
Qed.
End ops.

(** *** [CopyIn], [CopyOut] and the destructor *)

Lemma CopyIn_rep m bb q s p own from :
  rep m bb q s None p own → q ++ from ≠ [] →
  ∃ m' bb' s' own',
    CopyIn m bb from = Some (m', bb') ∧ rep m' bb' (q ++ from) s' None p own' ∧
    keeps m own m' own'.
Proof.
  intros HR Hne. unfold ProxyBuffer.CopyIn.
  destruct (Reserve_rep _ _ _ _ _ _ (length from) HR) as (vs&m1&bb1&s1&o1&->&Hlen&Hsp&HR1&He1).
  simpl. destruct (scatter_rep _ _ _ _ _ _ _ from HR1) as (m2&->&HR2&He2); [lia|]. simpl.
  destruct (Commit_rep _ _ _ _ _ _ _ (length from) HR2) as (m3&bb3&->&o3&HR3&He3).
  { rewrite length_app. lia. }
  { by destruct q, from. }
  eexists m3, bb3, _, o3. split; [done|].
  rewrite take_app_length in HR3. split; [exact HR3|].
  eapply keeps_trans; [exact He1|]. by eapply keeps_trans.
Qed.

Lemma CopyOut_rep m bb q s g own n :
  rep m bb q s g None own →
  ∃ m' bb' s' own',
    CopyOut m bb n = Some (take n q, m', bb') ∧ rep m' bb' (drop n q) s' g None own' ∧
    (g ≠ None → s' = s) ∧ keeps m own m' own'.
Proof.
  intros HR. unfold ProxyBuffer.CopyOut.
  destruct (Peek_rep _ _ _ _ _ _ HR) as (vs&bb1&->&Hlen&HR1). simpl.
  destruct (gather_rep _ _ _ _ _ _ _ HR1) as [_ Hg]. rewrite take_ge in Hg by lia.
  rewrite (copy_out_loop_spec _ _ _ n 0 Hg), Nat.sub_0_r by lia. simpl.
  destruct (Drain_rep _ _ _ _ _ _ _ (n `min` length q) HR1)
    as (m2&bb2&->&s2&o2&HR2&Hs2&He2); [lia|].
  simpl. exists m2, bb2, s2, o2. split; [done|]. split; [|done].
  replace (drop n q) with (drop (n `min` length q) q); [done|].
  destruct (decide (n ≤ length q)); [f_equal; lia|]. rewrite !drop_ge by lia. done.
Qed.

Lemma chain_tail_spec fuel h p xs l d count :
  chain h p (xs ++ [(l, d)]) None → length xs < fuel →
  ∃ t, p = Some t ∧ chain_tail fuel h t count = Some (l, count + length xs).
Proof.
  revert fuel p count. induction xs as [|[l' d'] xs IH]; intros fuel p count Hc Hf; simpl in Hc.
  - destruct Hc as (->&nxt&Hl&->). exists l. split; [done|]. destruct fuel; [simpl in Hf; lia|].
    simpl. rewrite Hl. simpl. by rewrite Nat.add_0_r.
  - destruct Hc as (->&nxt&Hl&Hc). exists l'. split; [done|].
    destruct fuel as [|fuel]; [simpl in Hf; lia|]. simpl in *. rewrite Hl. simpl.
    destruct (IH fuel nxt (S count) Hc) as (t&->&->); [lia|]. do 2 f_equal. lia.
Qed.

(** The destructor returns every block of the buffer to the freelist. *)
Lemma Buffer_destroy_rep m bb q s g p own :
  rep m bb q s g p own →
  ∃ m' fl', Buffer_destroy m bb = Some m' ∧ freelist m' fl' ∧ fl'.*1 = own.1 ++ own.2 ∧
            keeps m own m' ([], fl'.*1).
Proof.
  intros (full&avail&fl&[I _]&_&_&_&_&->). unfold Buffer_destroy, Freelist_DeleteChain.
  pose proof (iv_shape _ _ _ _ _ I) as [Hc _ _ [Hf1 Hf2 Hf3] Hnd Hok].
  destruct (decide (full ++ avail = [])) as [E|Hne].
  { rewrite E in *. simpl in Hc. rewrite Hc. exists m, fl. split_and!; try done. }
  destruct (last_snoc_inv _ Hne) as (xs&[l d]&E). rewrite E in *.
  apply NoDup_app in Hnd as (Hnd&Hdis&_).
  pose proof (chain_length _ _ _ _ Hnd Hc) as Hlen. rewrite length_app in Hlen. simpl in Hlen.
  destruct (chain_tail_spec (S (size (heap m))) _ _ _ _ _ 1 Hc) as (t&Ht&HT); [lia|].
  rewrite Ht, HT. cbn [mbind option_bind].
  pose proof (chain_middle _ _ _ _ _ _ _ Hc) as Hl. rewrite Hl. simpl.
  eexists _, (xs ++ (l, d) :: fl). split; [done|].
  assert ((xs ++ [(l, d)]).*1 ++ fl.*1 = (xs ++ (l, d) :: fl).*1) as Hown
    by (rewrite !fmap_app; simpl; by rewrite <-app_assoc).
  unfold keeps. simpl fst. simpl snd. rewrite Hown.
  rewrite fmap_app in Hnd, Hdis. apply NoDup_app in Hnd as (_&Hdis2&_).
  assert (l ∉ xs.*1) as Hl1 by (intros Hin; by eapply Hdis2, list_elem_of_here).
  assert (l ∉ fl.*1) as Hl2 by (apply Hdis; set_solver).
  split_and!; [|done|].
  - rewrite chain_app in Hc. destruct Hc as (r&Hc1&->&_). split; simpl.
    + rewrite chain_app. exists (Some l). rewrite <-Ht.
      split; [by apply chain_insert_other|]. split; [done|].
      exists (fl_head m). rewrite lookup_insert_eq. split; [done|]. by apply chain_insert_other.
    + rewrite Hf2, length_app. simpl. lia.
    + apply Forall_app in Hok as [Hok1 Hok2]. apply Forall_app. split.
      * eapply Forall_impl; [exact Hok1|]. by intros x [??].
      * apply Forall_cons. split; [|done]. by apply Forall_singleton in Hok2 as [??].
  - intros l' b Hl' Hni. simpl. split; [|done]. rewrite lookup_insert_ne; [done|].
    intros <-. apply Hni. rewrite fmap_app. set_solver.
Qed.

(** *** Buffers that share a freelist *)

Lemma chain_agree h h' p xs q :
  (∀ l b, l ∈ xs.*1 → h !! l = Some b → h' !! l = Some b) → chain h p xs q → chain h' p xs q.
Proof.
  revert p. induction xs as [|[l d] xs IH]; intros p Ha; [done|].
  intros (->&nxt&Hl&Hc). split; [done|]. exists nxt. split.
  - apply Ha; [set_solver|done].
  - apply IH; [|done]. intros l' b Hin. apply Ha. set_solver.
Qed.

(** An operation of one buffer leaves another one, with its reservation and
    its peeked data, as it was. *)
Lemma rep_frame m own m' own' A' qA sA gA pA B qB sB gB pB blB :
  rep m B qB sB gB pB (blB, own.2) → (∀ l, l ∈ blB → l ∉ own.1) →
  keeps m own m' own' → rep m' A' qA sA gA pA own' →
  rep m' B qB sB gB pB (blB, own'.2) ∧ (∀ l, l ∈ blB → l ∉ own'.1).
Proof.
  intros (full&avail&fl&[I Hds]&Hq&Hs&Hg&Hp&[= -> Hfl]) Hdis Hk
    (fullA&availA&fl'&[IA _]&_&_&_&_&->). simpl in *.
  pose proof (iv_shape _ _ _ _ _ I) as Hsh. pose proof (sh_nodup _ _ _ _ Hsh) as Hnd.
  apply NoDup_app in Hnd as (Hnd1&Hnd2&_). rewrite <-Hfl in Hnd2.
  assert (∀ l, l ∈ (full ++ avail).*1 → l ∉ own.1 ++ own.2) as Hni.
  { intros l Hl. apply not_elem_of_app. auto. }
  assert (∀ l b, l ∈ (full ++ avail).*1 → heap m !! l = Some b →
    heap m' !! l = Some b ∧ l ∉ (fullA ++ availA).*1 ∧ l ∉ fl'.*1) as Hold.
  { intros l b Hl Hb. destruct (Hk l b Hb (Hni l Hl)) as [? Ho].
    by apply not_elem_of_app in Ho as [? ?]. }
  assert (∀ l, l ∈ (full ++ avail).*1 → l ∉ (fullA ++ availA).*1 ∧ l ∉ fl'.*1) as Hnew.
  { intros l Hl. destruct (shape_dom _ _ _ _ _ Hsh Hl) as [b Hb]. by eapply Hold. }
  split; [|by intros; apply Hnew].
  exists full, avail, fl'. split_and!; try done. split; [|done]. split; try apply I.
  destruct Hsh. pose proof (iv_shape _ _ _ _ _ IA) as []. split; try done.
  - eapply chain_agree; [|done]. intros l b Hl Hb. by destruct (Hold l b Hl Hb).
  - apply NoDup_app. split_and!; [done|by intros; apply Hnew|].
    by apply NoDup_app in sh_nodup1 as (_&_&?).
Qed.

End spec.
