(* ===== verification/ProxyQueue.v ===== *)
(** * The proxy buffer as a byte queue

    The contract of [BasicBuffer] as its users rely on it: a first-in
    first-out queue of bytes that is filled in two steps ([Reserve] hands out
    buffers, [Commit] makes the bytes written there data) and emptied in two
    steps ([Peek], [Drain]), where the two sides interleave.  The buffer of
    [ProxyBuffer] refines it for every sequence of calls the contract allows. *)

From stdpp Require Import functions.
From S2P Require Import Prelude ProxyBuffer ProxyBufferSpec.

(** ** The contract *)

(** The data; of an outstanding reservation its size and the bytes written
    into it so far; of an outstanding peek the number of bytes in view. *)
Record Queue := mkQueue {
  q_data : list Z;
  q_grant : option (nat * list Z);
  q_peek : option nat
}.

Definition empty_queue : Queue := mkQueue [] None None.

Inductive Op :=
  | OReserve (n : nat)
  | OReserveAtLeast (n : nat)
  | OWrite (bs : list Z)
  | OCommit (n : nat)
  | OPeek
  | OSend
  | ODrain (n : nat)
  | OCopyIn (bs : list Z)
  | OCopyOut (n : nat).

Inductive Out := NoOut | Size (n : nat) | Bytes (bs : list Z).

(** When a call is allowed. *)
Definition enabled (a : Queue) (o : Op) : Prop :=
  match o with
  | OReserve _ | OReserveAtLeast _ => q_grant a = None
  | OWrite bs => ∃ n w, q_grant a = Some (n, w) ∧ length bs ≤ n
  | OCommit k => ∃ n w, q_grant a = Some (n, w) ∧ k ≤ length w ∧ (q_data a ≠ [] ∨ 0 < n)
  | OPeek | OCopyOut _ => q_peek a = None
  | OSend => is_Some (q_peek a)
  | ODrain k => is_Some (q_peek a) ∧ k ≤ length (q_data a)
  | OCopyIn bs => q_grant a = None ∧ q_data a ++ bs ≠ []
  end.

(** What it does. *)
Inductive qstep (a : Queue) : Op → Out → Queue → Prop :=
  | step_reserve n :
      qstep a (OReserve n) (Size n) (mkQueue (q_data a) (Some (n, [])) (q_peek a))
  | step_reserve_at_least n sz :
      n ≤ sz →
      qstep a (OReserveAtLeast n) (Size sz) (mkQueue (q_data a) (Some (sz, [])) (q_peek a))
  | step_write bs n w :
      q_grant a = Some (n, w) →
      qstep a (OWrite bs) NoOut
        (mkQueue (q_data a) (Some (n, bs ++ drop (length bs) w)) (q_peek a))
  | step_commit k n w :
      q_grant a = Some (n, w) →
      qstep a (OCommit k) NoOut (mkQueue (q_data a ++ take k w) None (q_peek a))
  | step_peek :
      qstep a OPeek (Bytes (q_data a)) (mkQueue (q_data a) (q_grant a) (Some (length (q_data a))))
  | step_send j :
      q_peek a = Some j → qstep a OSend (Bytes (take j (q_data a))) a
  | step_drain k :
      qstep a (ODrain k) NoOut (mkQueue (drop k (q_data a)) (q_grant a) None)
  | step_copy_in bs :
      qstep a (OCopyIn bs) NoOut (mkQueue (q_data a ++ bs) None (q_peek a))
  | step_copy_out n :
      qstep a (OCopyOut n) (Bytes (take n (q_data a)))
        (mkQueue (drop n (q_data a)) (q_grant a) None).

(** Every call is allowed where it is made, whatever the calls before returned. *)
Fixpoint allowed (a : Queue) (os : list Op) : Prop :=
  match os with
  | [] => True
  | o :: os => enabled a o ∧ ∀ r a', qstep a o r a' → allowed a' os
  end.

Inductive qrun : Queue → list Op → list Out → Queue → Prop :=
  | qrun_nil a : qrun a [] [] a
  | qrun_cons a o r a1 os rs a2 :
      qstep a o r a1 → qrun a1 os rs a2 → qrun a (o :: os) (r :: rs) a2.

(** ** Two queues

    What the users of a connection's two buffers rely on. *)

Inductive Side := Upstream | Downstream.

#[global] Instance Side_eq_dec : EqDecision Side.
Proof. solve_decision. Defined.

Class Queues (W : Type) := {
  q_exec : W → Side → Op → option (Out * W);
  q_data_size : W → Side → nat;
  q_rep : W → (Side → Queue) → Prop;
  q_exec_ok : ∀ w a i o,
    q_rep w a → enabled (a i) o →
    ∃ r w' ai, q_exec w i o = Some (r, w') ∧ qstep (a i) o r ai ∧ q_rep w' (<[i := ai]> a);
  q_data_size_ok : ∀ w a i, q_rep w a → q_data_size w i = length (q_data (a i));
  q_rep_ext w :: Proper (pointwise_relation Side eq ==> iff) (q_rep w)
}.

Fixpoint allowed2 (a : Side → Queue) (os : list (Side * Op)) : Prop :=
  match os with
  | [] => True
  | (i, o) :: os => enabled (a i) o ∧ ∀ r ai, qstep (a i) o r ai → allowed2 (<[i := ai]> a) os
  end.

Inductive qrun2 : (Side → Queue) → list (Side * Op) → list Out → (Side → Queue) → Prop :=
  | qrun2_nil a : qrun2 a [] [] a
  | qrun2_cons a i o r ai os rs a2 :
      qstep (a i) o r ai → qrun2 (<[i := ai]> a) os rs a2 → qrun2 a ((i, o) :: os) (r :: rs) a2.

Section queues.
Context `{Queues W}.

Fixpoint run2 (w : W) (os : list (Side * Op)) : option (list Out * W) :=
  match os with
  | [] => Some ([], w)
  | (i, o) :: os => '(r, w) ← q_exec w i o; '(rs, w) ← run2 w os; Some (r :: rs, w)
  end.

Lemma run2_ok os w a :
  q_rep w a → allowed2 a os →
  ∃ rs w' a', run2 w os = Some (rs, w') ∧ qrun2 a os rs a' ∧ q_rep w' a'.
Proof.
  revert w a. induction os as [|[i o] os IH]; intros w a HR Ha; simpl in *.
  { exists [], w, a. split_and!; try done. constructor. }
  destruct Ha as [He Hnext].
  destruct (q_exec_ok w a i o HR He) as (r&w1&ai&->&Hs1&HR1).
  destruct (IH w1 _ HR1 (Hnext _ _ Hs1)) as (rs&w2&a2&Hrun&Hs2&HR2).
  simpl. rewrite Hrun. simpl. exists (r :: rs), w2, a2. split_and!; try done.
  by econstructor.
Qed.
End queues.

(** The queues themselves, computed. *)
Definition queue_exec (a : Queue) (o : Op) : option (Out * Queue) :=
  let (d, g, p) := a in
  match o, g, p with
  | OReserve n, None, _ => Some (Size n, mkQueue d (Some (n, [])) p)
  | OReserveAtLeast n, None, _ => Some (Size n, mkQueue d (Some (n, [])) p)
  | OWrite bs, Some (n, w), _ =>
      if length bs <=? n then Some (NoOut, mkQueue d (Some (n, bs ++ drop (length bs) w)) p)
      else None
  | OCommit k, Some (n, w), _ =>
      if (k <=? length w) && ((0 <? length d) || (0 <? n))
      then Some (NoOut, mkQueue (d ++ take k w) None p) else None
  | OPeek, _, None => Some (Bytes d, mkQueue d g (Some (length d)))
  | OSend, _, Some j => Some (Bytes (take j d), a)
  | ODrain k, _, Some _ =>
      if k <=? length d then Some (NoOut, mkQueue (drop k d) g None) else None
  | OCopyIn bs, None, _ =>
      if 0 <? length (d ++ bs) then Some (NoOut, mkQueue (d ++ bs) None p) else None
  | OCopyOut n, _, None => Some (Bytes (take n d), mkQueue (drop n d) g None)
  | _, _, _ => None
  end.

Lemma queue_exec_ok a o :
  enabled a o → ∃ r a', queue_exec a o = Some (r, a') ∧ qstep a o r a'.
Proof.
  assert (∀ l : list Z, l ≠ [] → (0 <? length l) = true) as Hne by (by intros []).
  destruct a as [d g p], o; simpl; intros He; destruct_and?; destruct_or?.
  - subst. eexists _, _. split; [done|]. constructor.
  - subst. eexists _, _. split; [done|]. by constructor.
  - destruct He as (n&w&->&Hl). apply Nat.leb_le in Hl. rewrite Hl.
    eexists _, _. split; [done|]. by constructor.
  - destruct He as (n'&w&->&Hl&Hor). apply Nat.leb_le in Hl. rewrite Hl. simpl.
    assert ((0 <? length d) || (0 <? n') = true) as ->.
    { destruct Hor as [Hd|Hn]; [by rewrite Hne|]. apply Nat.ltb_lt in Hn. by rewrite Hn, orb_true_r. }
    eexists _, _. split; [done|]. by econstructor.
  - subst. eexists _, _. split; [done|]. constructor.
  - destruct He as [j ->]. eexists _, _. split; [done|]. by constructor.
  - destruct H as [j ->]. apply Nat.leb_le in H0. rewrite H0.
    eexists _, _. split; [done|]. constructor.
  - subst. rewrite Hne by done. eexists _, _. split; [done|]. constructor.
  - subst. eexists _, _. split; [done|]. constructor.
Qed.

#[global] Program Instance plain_queues : Queues (Side → Queue) := {
  q_exec w i o := '(r, ai) ← queue_exec (w i) o; Some (r, <[i := ai]> w);
  q_data_size w i := length (q_data (w i));
  q_rep w a := ∀ i, w i = a i
}.
Next Obligation.
  intros w a i o HR He. simpl in *. rewrite HR. destruct (queue_exec_ok _ _ He) as (r&ai&->&Hs).
  exists r, (<[i := ai]> w), ai. split; [done|]. split; [done|]. intros j.
  destruct (decide (i = j)) as [<-|]; [by rewrite !fn_lookup_insert|].
  by rewrite !fn_lookup_insert_ne.
Qed.
Next Obligation. intros w a i HR. simpl in *. by rewrite HR. Qed.
Next Obligation.
  intros w a a' E. simpl. split; intros HR i; rewrite HR; [|symmetry]; apply E.
Qed.

(** ** A client of the buffer

    It keeps the buffers it was handed out, writes the bytes it receives into
    the reserved ones and sends those of the peeked ones. *)

Record Client := mkClient {
  c_mem : Mem;
  c_buf : BasicBuffer;
  c_grant : list SysBuf;
  c_peek : list SysBuf
}.

Section refinement.
Context (BlockSize : nat) (memalign_fails : gmap loc Block → bool).

Definition cexec (c : Client) (o : Op) : option (Out * Client) :=
  let (m, bb, g, p) := c in
  match o with
  | OReserve n =>
      '(vs, m, bb) ← Reserve BlockSize memalign_fails m bb n;
      Some (Size (iovs_len vs), mkClient m bb vs p)
  | OReserveAtLeast n =>
      '(vs, sz, m, bb) ← ReserveAtLeast BlockSize memalign_fails m bb n;
      Some (Size sz, mkClient m bb vs p)
  | OWrite bs => m ← scatter m g bs; Some (NoOut, mkClient m bb g p)
  | OCommit k =>
      '(m, bb) ← Commit BlockSize memalign_fails m bb k; Some (NoOut, mkClient m bb g p)
  | OPeek =>
      '(vs, bb) ← Peek m bb;
      bs ← gather m vs;
      Some (Bytes bs, mkClient m bb g vs)
  | OSend => bs ← gather m p; Some (Bytes bs, mkClient m bb g p)
  | ODrain k => '(m, bb) ← Drain BlockSize m bb k; Some (NoOut, mkClient m bb g p)
  | OCopyIn bs =>
      '(m, bb) ← CopyIn BlockSize memalign_fails m bb bs; Some (NoOut, mkClient m bb g p)
  | OCopyOut n =>
      '(bs, m, bb) ← CopyOut BlockSize m bb n; Some (Bytes bs, mkClient m bb g p)
  end.

Fixpoint crun (c : Client) (os : list Op) : option (list Out * Client) :=
  match os with
  | [] => Some ([], c)
  | o :: os => '(r, c) ← cexec c o; '(rs, c) ← crun c os; Some (r :: rs, c)
  end.

Context (HBlockSize : 24 < BlockSize) (Hmemalign : ∀ h, memalign_fails h = false).

Local Abbreviation rep := (rep BlockSize).

(** The client's buffer holds what the queue holds. *)
Definition refines (c : Client) (a : Queue) (own : Own) : Prop :=
  ∃ s g p,
    rep (c_mem c) (c_buf c) (q_data a) s g p own ∧
    match q_grant a with
    | None => g = None
    | Some (n, w) => g = Some (c_grant c) ∧ iovs_len (c_grant c) = n ∧ w `prefix_of` s
    end ∧
    match q_peek a with
    | None => p = None
    | Some j => p = Some (c_peek c) ∧ iovs_len (c_peek c) = j
    end.

Lemma grant_space m bb q s vs p own :
  rep m bb q s (Some vs) p own → iovs_len vs ≤ length s.
Proof.
  intros (full&avail&fl&[I _]&_&<-&(_&_&Hle)&_).
  rewrite (length_spaces BlockSize); try done. by eapply inv_avail_ok.
Qed.

Lemma prefix_write {A} (bs w s : list A) :
  w `prefix_of` s → bs ++ drop (length bs) w `prefix_of` bs ++ drop (length bs) s.
Proof. intros [k ->]. apply prefix_app. rewrite drop_app. by eexists. Qed.

Lemma prefix_take {A} (w s : list A) n : w `prefix_of` s → n ≤ length w → take n s = take n w.
Proof. intros [k ->] Hn. by rewrite take_app_le. Qed.

Lemma cexec_refines c a own o :
  refines c a own → enabled a o →
  ∃ r c' a' own',
    cexec c o = Some (r, c') ∧ qstep a o r a' ∧ refines c' a' own' ∧
    keeps (c_mem c) own (c_mem c') own'.
Proof.
  destruct c as [m bb vg vp], a as [q qg qp]. intros (s&g&p&HR&Hg&Hp) He. simpl in *.
  destruct o as [n|n|bs|k| | |k|bs|n]; simpl in *.
  - subst qg g. destruct (Reserve_rep _ _ HBlockSize Hmemalign _ _ _ _ _ _ n HR)
      as (vs&m'&bb'&s'&own'&->&Hlen&_&HR'&Hk).
    eexists _, _, _, own'. split; [done|]. rewrite Hlen. split; [constructor|].
    split; [|done]. exists (s ++ s'), (Some vs), p. simpl. split_and!; try done. apply prefix_nil.
  - subst qg g. destruct (ReserveAtLeast_rep _ _ HBlockSize Hmemalign _ _ _ _ _ _ n HR)
      as (vs&sz&m'&bb'&s'&own'&->&Hsz&Hlen&_&HR'&Hk).
    eexists _, _, _, own'. split; [done|]. split; [by constructor|].
    split; [|done]. exists (s ++ s'), (Some vs), p. simpl. split_and!; try done. apply prefix_nil.
  - destruct He as (n&w&->&Hbs). destruct Hg as (->&Hlen&Hw).
    destruct (scatter_rep _ memalign_fails HBlockSize Hmemalign _ _ _ _ _ _ _ bs HR) as (m'&->&HR'&Hk); [lia|].
    eexists _, _, _, own. split; [done|]. split; [by constructor|].
    split; [|done]. eexists _, _, _. split; [done|]. simpl. split_and!; try done.
    by apply prefix_write.
  - destruct He as (n&w&->&Hkw&Hne). destruct Hg as (->&Hlen&Hw).
    pose proof (grant_space _ _ _ _ _ _ _ HR) as Hsp. pose proof (prefix_length _ _ Hw) as Hws.
    destruct (Commit_rep _ memalign_fails HBlockSize Hmemalign _ _ _ _ _ _ _ k HR)
      as (m'&bb'&->&own'&HR'&Hk); [lia| |].
    { destruct q, s; simpl in *; try done. destruct Hne; [done|lia]. }
    eexists _, _, _, own'. split; [done|]. split; [by econstructor|]. split; [|done].
    eexists _, None, p. simpl. rewrite (prefix_take w s k) in HR' by done.
    split_and!; try done.
  - subst qp p. destruct (Peek_rep _ HBlockSize _ _ _ _ _ _ HR) as (vs&bb'&->&Hlen&HR'). simpl.
    destruct (gather_rep _ HBlockSize _ _ _ _ _ _ _ HR') as [_ ->]. simpl.
    rewrite Hlen, take_ge by done. eexists _, _, _, own. split; [done|]. split; [by constructor|].
    split; [|done]. by exists s, g, (Some vs).
  - destruct He as [j ->]. destruct Hp as (->&Hlen).
    destruct (gather_rep _ HBlockSize _ _ _ _ _ _ _ HR) as [_ ->]. simpl.
    rewrite Hlen. eexists _, _, _, own. split; [done|]. split; [by constructor|].
    split; [|done]. by exists s, g, (Some vp).
  - destruct He as [[j ->] Hkq]. destruct Hp as (->&Hlen).
    destruct (Drain_rep _ memalign_fails HBlockSize Hmemalign _ _ _ _ _ _ _ k HR) as (m'&bb'&->&s'&own'&HR'&Hs&Hk); [done|].
    eexists _, _, _, own'. split; [done|]. split; [by constructor|]. split; [|done].
    exists s', g, None. split; [done|]. split; [|done]. simpl.
    destruct qg as [[n w]|]; [|done]. destruct Hg as (->&?&?). by rewrite Hs.
  - destruct He as [-> Hne]. subst g.
    destruct (CopyIn_rep _ _ HBlockSize Hmemalign _ _ _ _ _ _ bs HR Hne)
      as (m'&bb'&s'&own'&->&HR'&Hk).
    eexists _, _, _, own'. split; [done|]. split; [by constructor|]. split; [|done].
    by exists s', None, p.
  - subst qp p. destruct (CopyOut_rep _ memalign_fails HBlockSize Hmemalign _ _ _ _ _ _ n HR) as (m'&bb'&s'&own'&->&HR'&Hs&Hk).
    eexists _, _, _, own'. split; [done|]. split; [by constructor|]. split; [|done].
    exists s', g, None. split; [done|]. split; [|done]. simpl.
    destruct qg as [[n' w]|]; [|done]. destruct Hg as (->&?&?). by rewrite Hs.
Qed.

Lemma crun_refines os c a own :
  refines c a own → allowed a os →
  ∃ rs c' a' own',
    crun c os = Some (rs, c') ∧ qrun a os rs a' ∧ refines c' a' own' ∧
    keeps (c_mem c) own (c_mem c') own'.
Proof.
  revert c a own. induction os as [|o os IH]; intros c a own HR Ha; simpl in *.
  { exists [], c, a, own. split_and!; try done. constructor. }
  destruct Ha as [He Hnext].
  destruct (cexec_refines _ _ _ _ HR He) as (r&c1&a1&own1&->&Hs1&HR1&Hk1).
  destruct (IH c1 a1 own1 HR1 (Hnext _ _ Hs1)) as (rs&c2&a2&own2&Hrun&Hs2&HR2&Hk2).
  simpl. rewrite Hrun. simpl. exists (r :: rs), c2, a2, own2. split_and!; try done.
  - by econstructor.
  - by eapply keeps_trans.
Qed.

(** C1: A buffer is a byte queue: for every sequence of calls that respects
    the contract (no second reservation or peek while one is outstanding, no
    more bytes written than reserved, committed than written or drained than
    held), starting from a buffer without blocks over any freelist, no
    assertion fails, no block is accessed out of bounds, every loop ends, the
    calls return what the queue returns, and blocks of other owners are not
    touched.  In particular a reservation stays valid while data is drained,
    and peeked data while more is committed. *)
Theorem buffer_refines_queue os m fl :
  freelist BlockSize m fl → NoDup fl.*1 → allowed empty_queue os →
  ∃ rs c a own,
    crun (mkClient m empty_buffer [] []) os = Some (rs, c) ∧
    qrun empty_queue os rs a ∧ refines c a own ∧ keeps m ([], fl.*1) (c_mem c) own.
Proof.
  intros Hf Hnd Ha. apply (crun_refines os (mkClient m empty_buffer [] []) empty_queue); [|done].
  exists [], None, None. split; [|done]. by apply rep_empty.
Qed.

(** A call on one of two buffers that share a freelist. *)
Lemma cexec_frame c1 a1 own c2 a2 bl2 o :
  refines c1 a1 own → c_mem c2 = c_mem c1 → refines c2 a2 (bl2, own.2) →
  (∀ l, l ∈ bl2 → l ∉ own.1) → enabled a1 o →
  ∃ r c1' a1' own',
    cexec c1 o = Some (r, c1') ∧ qstep a1 o r a1' ∧ refines c1' a1' own' ∧
    refines (mkClient (c_mem c1') (c_buf c2) (c_grant c2) (c_peek c2)) a2 (bl2, own'.2) ∧
    (∀ l, l ∈ bl2 → l ∉ own'.1).
Proof.
  intros HR1 Hm (s2&g2&p2&HR2&Hg2&Hp2) Hdis He.
  destruct (cexec_refines _ _ _ _ HR1 He) as (r&c1'&a1'&own'&Hc&Hs&HR1'&Hk).
  pose proof HR1' as (s1&g1&p1&Hrep1&_). rewrite Hm in HR2.
  destruct (rep_frame _ memalign_fails HBlockSize Hmemalign _ _ _ _ _ _ _ _ _ _ _ _ _ _ _
    HR2 Hdis Hk Hrep1) as [HR2' Hdis'].
  exists r, c1', a1', own'. split_and!; try done. by exists s2, g2, p2.
Qed.

(** The destructor of a buffer, at any point of its use, returns every
    block the buffer holds to the freelist, in one piece and without
    disturbing the blocks of other owners. *)
Theorem buffer_destroy_returns_blocks c a own :
  refines c a own →
  ∃ m' fl,
    Buffer_destroy (c_mem c) (c_buf c) = Some m' ∧ freelist BlockSize m' fl ∧
    fl.*1 = own.1 ++ own.2 ∧ fl_size m' = length (own.1 ++ own.2) ∧
    keeps (c_mem c) own m' ([], fl.*1).
Proof.
  intros (s&g&p&HR&_).
  destruct (Buffer_destroy_rep _ memalign_fails HBlockSize Hmemalign _ _ _ _ _ _ _ HR)
    as (m'&fl&HD&Hf&Hown&Hk).
  exists m', fl. split_and!; try done.
  rewrite (fl_count _ _ _ Hf), <-Hown. by rewrite length_fmap.
Qed.

Lemma refines_data_size c a own : refines c a own → data_size_ (c_buf c) = length (q_data a).
Proof. intros (s&g&p&(full&avail&fl&[_ ->]&->&_)&_). done. Qed.

(** ** Two buffers over one freelist

    A proxy connection has a buffer per direction; both take their blocks
    from one freelist. *)

Record Buffers := mkBuffers {
  b_mem : Mem;
  b_buf : Side → BasicBuffer * list SysBuf * list SysBuf
}.

Definition client_of (w : Buffers) (i : Side) : Client :=
  let '(bb, g, p) := b_buf w i in mkClient (b_mem w) bb g p.

Definition b_exec (w : Buffers) (i : Side) (o : Op) : option (Out * Buffers) :=
  '(r, c) ← cexec (client_of w i) o;
  Some (r, mkBuffers (c_mem c) (<[i := (c_buf c, c_grant c, c_peek c)]> (b_buf w))).

Definition b_data_size (w : Buffers) (i : Side) : nat := data_size_ (b_buf w i).1.1.

Definition other (i : Side) : Side := match i with Upstream => Downstream | Downstream => Upstream end.

Definition b_rep (w : Buffers) (a : Side → Queue) : Prop :=
  ∃ (bl : Side → list loc) fl,
    (∀ i, refines (client_of w i) (a i) (bl i, fl)) ∧
    (∀ i l, l ∈ bl i → l ∉ bl (other i)).

Lemma b_exec_ok w a i o :
  b_rep w a → enabled (a i) o →
  ∃ r w' ai, b_exec w i o = Some (r, w') ∧ qstep (a i) o r ai ∧ b_rep w' (<[i := ai]> a).
Proof.
  intros (bl&fl&HR&Hdis) He.
  destruct (cexec_frame (client_of w i) (a i) (bl i, fl) (client_of w (other i)) (a (other i))
    (bl (other i)) o) as (r&c'&ai&[bl' fl']&Hc&Hs&HR1&HR2&Hdis').
  - apply HR.
  - unfold client_of. by destruct (b_buf w i) as [[??]?], (b_buf w (other i)) as [[??]?].
  - apply HR.
  - intros l Hl. specialize (Hdis (other i) l Hl). by destruct i.
  - done.
  - unfold b_exec. rewrite Hc. simpl. eexists _, _, ai. split; [done|]. split; [done|].
    exists (<[i := bl']> bl), fl'. simpl in *. split.
    + intros j. destruct (decide (i = j)) as [<-|Hne].
      * unfold client_of. simpl. rewrite !fn_lookup_insert. by destruct c'.
      * assert (j = other i) as -> by (by destruct i, j).
        unfold client_of in *. simpl. rewrite !fn_lookup_insert_ne by done.
        by destruct (b_buf w (other i)) as [[??]?].
    + intros j l. destruct i, j; simpl;
        rewrite ?fn_lookup_insert, ?fn_lookup_insert_ne by done; simpl; firstorder.
Qed.

#[global] Program Instance Buffers_Queues : Queues Buffers := {
  q_exec := b_exec; q_data_size := b_data_size; q_rep := b_rep
}.
Next Obligation. intros. by apply b_exec_ok. Qed.
Next Obligation.
  intros w a i (bl&fl&HR&_). specialize (HR i). apply refines_data_size in HR.
  unfold client_of, b_data_size in *. by destruct (b_buf w i) as [[??]?].
Qed.
Next Obligation.
  intros w a a' E. unfold b_rep. by setoid_rewrite E.
Qed.

(** Two buffers that share a freelist are independent: a sequence of
    calls, interleaved in any way over the two, runs on each of them as on a
    queue of its own; no call disturbs the data, the reservation or the peeked
    data of the other buffer. *)
Theorem buffers_independent os w a :
  b_rep w a → allowed2 a os →
  ∃ rs w' a', run2 w os = Some (rs, w') ∧ qrun2 a os rs a' ∧ b_rep w' a'.
Proof. exact (run2_ok (W := Buffers) os w a). Qed.

End refinement.

(** ** The hypotheses are satisfiable

    Blocks of four bytes, and an allocator that does not fail. *)

Definition no_failure (h : gmap loc Block) : bool := false.
Definition no_blocks : Mem := mkMem ∅ None 0.

(** Proves that a concrete sequence of calls respects the contract. *)
Ltac solve_allowed :=
  repeat match goal with
  | |- allowed _ [] => exact I
  | |- allowed2 _ [] => exact I
  | |- allowed _ (_ :: _) => split
  | |- allowed2 _ (_ :: _) => split
  | |- ∀ r a, qstep _ _ r a → _ =>
      let H := fresh in intros ? ? H; inversion H; clear H; simplify_eq/=
  | |- enabled _ _ => simpl
  | |- is_Some _ ∧ _ => split
  | |- is_Some _ => by eexists
  | |- ∃ _ _, _ => do 2 eexists; split; [reflexivity|]
  | |- _ => first [reflexivity | discriminate | lia | split; [lia|]; right; lia | split]
  end.

Definition sample_calls : list Op :=
  [OCopyIn [1; 2; 3; 4; 5]%Z; OPeek; OReserveAtLeast 3; ODrain 2; OWrite [6; 7; 8]%Z;
   OPeek; OCommit 3; OSend; OReserve 9; ODrain 3; OCopyOut 9].

Lemma sample_allowed : allowed empty_queue sample_calls.
Proof. unfold sample_calls, empty_queue. solve_allowed. Qed.

Lemma no_blocks_freelist n : freelist n no_blocks [].
Proof. split; [done|done|constructor]. Qed.

Lemma buffer_refines_queue_witness :
  ∃ rs c a own,
    crun 28 no_failure (mkClient no_blocks empty_buffer [] []) sample_calls = Some (rs, c) ∧
    qrun empty_queue sample_calls rs a ∧ refines 28 c a own ∧
    keeps no_blocks ([], []) (c_mem c) own.
Proof.
  apply (buffer_refines_queue 28 no_failure ltac:(lia) (λ _, eq_refl) sample_calls no_blocks []).
  - apply no_blocks_freelist.
  - constructor.
  - apply sample_allowed.
Defined.

(** What the calls return. *)
Lemma sample_outputs :
  fst <$> crun 28 no_failure (mkClient no_blocks empty_buffer [] []) sample_calls
  = Some [NoOut; Bytes [1; 2; 3; 4; 5]; Size 3; NoOut; NoOut; Bytes [3; 4; 5]; NoOut;
          Bytes [3; 4; 5]; Size 9; NoOut; Bytes [6; 7; 8]]%Z.
Proof. vm_compute. reflexivity. Qed.

Definition two_empty : Buffers := mkBuffers no_blocks (λ _, (empty_buffer, [], [])).

Definition sample_calls2 : list (Side * Op) :=
  [(Upstream, OCopyIn [1; 2; 3; 4; 5]%Z); (Downstream, OReserve 2);
   (Upstream, OCopyOut 5); (Downstream, OWrite [7; 8]%Z); (Upstream, OCopyIn [9]%Z);
   (Downstream, OCommit 2)].

Lemma two_empty_rep : b_rep 28 two_empty (λ _, empty_queue).
Proof.
  exists (λ _, []), []. split; [|by intros i l Hl%elem_of_nil].
  intros i. exists [], None, None. split; [|done].
  apply (rep_empty 28 no_blocks []); [apply no_blocks_freelist|constructor].
Qed.

Lemma buffers_independent_witness :
  ∃ rs w' a',
    @run2 _ (Buffers_Queues 28 no_failure ltac:(lia) (λ _, eq_refl)) two_empty sample_calls2
      = Some (rs, w') ∧
    qrun2 (λ _, empty_queue) sample_calls2 rs a' ∧ b_rep 28 w' a'.
Proof.
  apply (buffers_independent 28 no_failure ltac:(lia) (λ _, eq_refl) sample_calls2 two_empty).
  - apply two_empty_rep.
  - unfold sample_calls2, empty_queue. solve_allowed.
Defined.

Lemma buffer_destroy_returns_blocks_witness :
  ∃ rs c m' fl own,
    crun 28 no_failure (mkClient no_blocks empty_buffer [] []) [OCopyIn [1; 2; 3; 4; 5]%Z]
      = Some (rs, c) ∧
    Buffer_destroy (c_mem c) (c_buf c) = Some m' ∧ freelist 28 m' fl ∧ fl.*1 = own.1 ++ own.2.
Proof.
  destruct (crun_refines 28 no_failure ltac:(lia) (λ _, eq_refl) [OCopyIn [1; 2; 3; 4; 5]%Z]
    (mkClient no_blocks empty_buffer [] []) empty_queue ([], [])) as (rs&c&a&own&Hc&_&HR&_).
  - exists [], None, None. split; [|done].
    apply (rep_empty 28 no_blocks []); [apply no_blocks_freelist|constructor].
  - unfold empty_queue. solve_allowed.
  - destruct (buffer_destroy_returns_blocks 28 no_failure ltac:(lia) (λ _, eq_refl) c a own HR)
      as (m'&fl&HD&Hf&Ho&_).
    exists rs, c, m', fl, own. done.
Defined.
