(* ===== verification/Socks5.v ===== *)
(** * The SOCKS5 handshake

    Models [cc/aws/proxy/src/socks5_state.h], [socks5_state.cc] and
    [FillAddrPort] of [protocol.cc]: the state machine that reads a client's
    greeting and request from the proxy's buffer and answers them through
    callbacks.

    The machine is written over any reader [W] of bytes with the two buffer
    operations it uses, [CopyOut] and [data_size]; [E] is the state of the
    world behind the callbacks.  A result [None] stands for a read of
    uninitialised memory or a call of an empty [std::function]. *)

From S2P Require Import Prelude.

(** ** Data *)

Inductive HandshakeState :=
  | kGreetingHeader | kGreetingMethods | kRequestHeader | kRequestAddrV4 | kRequestAddrV6
  | kRequestBind | kWaitConnect | kWaitAccept | kResponse | kSuccess | kFail.

#[global] Instance HandshakeState_eq_dec : EqDecision HandshakeState.
Proof. solve_decision. Defined.

Inductive CallbackStatus := kStatusOK | kStatusInProgress | kStatusFail.

#[global] Instance CallbackStatus_eq_dec : EqDecision CallbackStatus.
Proof. solve_decision. Defined.

(** A [sockaddr]: address and port as the bytes in network order. *)
Inductive Sockaddr :=
  | sockaddr_in (addr port : list Z)
  | sockaddr_in6 (addr port : list Z)
  | sockaddr_other.

Definition sockaddr_ok (a : Sockaddr) : Prop :=
  match a with
  | sockaddr_in addr port => length addr = 4 ∧ length port = 2
  | sockaddr_in6 addr port => length addr = 16 ∧ length port = 2
  | sockaddr_other => True
  end.

Record Callbacks (E : Type) := mkCallbacks {
  response_callback_ : option (E → list Z → CallbackStatus * E);
  connect_callback_ : option (E → Sockaddr → CallbackStatus * E);
  dest_address_callback_ : option (E → bool → CallbackStatus * Sockaddr * E);
  bind_callback_ : option (E → Z → CallbackStatus * Z * E)
}.
Arguments response_callback_ {E}. Arguments connect_callback_ {E}.
Arguments dest_address_callback_ {E}. Arguments bind_callback_ {E}.

Record Socks5State := mkSocks5 { state_ : HandshakeState; required_size_ : nat }.

(** The constructor. *)
Definition Socks5State_init : Socks5State := mkSocks5 kGreetingHeader 2.

Definition Failed (s : Socks5State) : bool := bool_decide (state_ s = kFail).

(** ** Responses *)

Definition kATYP_v4 : Z := 1.
Definition kATYP_v6 : Z := 4.

(** The bytes [FillAddrPort] writes; their number is what it returns. *)
Definition FillAddrPort (addr : Sockaddr) : list Z :=
  match addr with
  | sockaddr_in a p => kATYP_v4 :: a ++ p
  | sockaddr_in6 a p => kATYP_v6 :: a ++ p
  | sockaddr_other => []
  end.

(** [n] bytes copied over a zeroed field of the same size. *)
Definition pad (n : nat) (bs : list Z) : list Z := bs ++ replicate (n - length bs) 0%Z.

Definition ntohs (bs : list Z) : Z :=
  match bs with [hi; lo] => (hi * 256 + lo)%Z | _ => 0 end.

Definition htons (port : Z) : list Z := [(port / 256) `mod` 256; port `mod` 256]%Z.

Section Socks5State.
Context {W E : Type} (copy_out : W → nat → option (list Z * W)) (data_size : W → nat).
Context (cbs : Callbacks E).

Definition err_resp_template : list Z := [5; 1; 0; 1; 0; 0; 0; 0; 0; 0]%Z.

Definition CreateResp (e : E) (is_bind : bool) : list Z * E :=
  match dest_address_callback_ cbs with
  | Some cb =>
      match cb e is_bind with
      | (kStatusOK, addr, e) => ([5; 0; 0]%Z ++ FillAddrPort addr, e)
      | (_, _, e) => (err_resp_template, e)
      end
  | None => (err_resp_template, e)
  end.

Definition InsufficientBuffer (s : Socks5State) (w : W) : bool :=
  data_size w <? required_size_ s.

(** The result of [Proceed], the machine, the buffer and the world after it. *)
Abbreviation result := (option (bool * Socks5State * W * E)).

(** [break] out of the [switch]: true unless the machine failed. *)
Definition brk (s : Socks5State) (w : W) (e : E) : result := Some (negb (Failed s), s, w, e).

Definition fail (s : Socks5State) (w : W) (e : E) : result :=
  brk (mkSocks5 kFail (required_size_ s)) w e.

Definition call_response (e : E) (bs : list Z) : option (CallbackStatus * E) :=
  cb ← response_callback_ cbs; Some (cb e bs).

(** ** The states of [Proceed] *)

Definition on_greeting_header (s : Socks5State) (w : W) (e : E) : result :=
  '(greeting, w) ← copy_out w 2;
  match greeting with
  | [g0; g1] =>
      if bool_decide (g0 ≠ 5 ∨ g1 = 0)%Z then fail s w e
      else brk (mkSocks5 kGreetingMethods (Z.to_nat g1)) w e
  | _ => None
  end.

Definition on_greeting_methods (s : Socks5State) (w : W) (e : E) : result :=
  let n_methods := required_size_ s in
  '(methods, w) ← copy_out w n_methods;
  if bool_decide (length methods ≠ n_methods) then None else
  if bool_decide (0%Z ∉ methods) then fail s w e else
  let next e := brk (mkSocks5 kRequestHeader 4) w e in
  match response_callback_ cbs with
  | Some cb =>
      match cb e [5; 0]%Z with
      | (kStatusOK, e) => next e
      | (_, e) => fail s w e
      end
  | None => next e
  end.

Definition on_request_header (s : Socks5State) (w : W) (e : E) : result :=
  '(header, w) ← copy_out w 4;
  match header with
  | [h0; h1; h2; atyp] =>
      if bool_decide (h0 ≠ 5 ∨ h2 ≠ 0)%Z then fail s w e
      else if bool_decide (h1 = 1)%Z then  (* CONNECT *)
        if bool_decide (atyp = 1)%Z then brk (mkSocks5 kRequestAddrV4 6) w e
        else if bool_decide (atyp = 3)%Z then fail s w e
        else if bool_decide (atyp = 4)%Z then brk (mkSocks5 kRequestAddrV6 (16 + 2)) w e
        else fail s w e
      else if bool_decide (h1 = 2)%Z then  (* BIND *)
        if bool_decide (atyp = 1)%Z then brk (mkSocks5 kRequestBind 6) w e
        else if bool_decide (atyp = 3)%Z then fail s w e
        else if bool_decide (atyp = 4)%Z then brk (mkSocks5 kRequestBind (16 + 2)) w e
        else fail s w e
      else fail s w e
  | _ => None
  end.

(** The common end of the two address states; [required_size_] is zero. *)
Definition connect (addr : Sockaddr) (w : W) (e : E) : result :=
  match connect_callback_ cbs with
  | None => brk (mkSocks5 kWaitConnect 0) w e
  | Some cb =>
      match cb e addr with
      | (kStatusOK, e) => brk (mkSocks5 kResponse 0) w e
      | (kStatusInProgress, e) => Some (false, mkSocks5 kWaitConnect 0, w, e)
      | (kStatusFail, e) => brk (mkSocks5 kFail 0) w e
      end
  end.

Definition on_request_addr_v4 (w : W) (e : E) : result :=
  '(sin_addr, w) ← copy_out w 4;
  '(sin_port, w) ← copy_out w 2;
  connect (sockaddr_in (pad 4 sin_addr) (pad 2 sin_port)) w e.

Definition on_request_addr_v6 (w : W) (e : E) : result :=
  '(sin6_addr, w) ← copy_out w 16;
  '(sin6_port, w) ← copy_out w 2;
  connect (sockaddr_in6 (pad 16 sin6_addr) (pad 2 sin6_port)) w e.

(** A [required_size_] below two would make [required_size_ - sizeof(port)]
    wrap around. *)
Definition on_request_bind (s : Socks5State) (w : W) (e : E) : result :=
  if required_size_ s <? 2 then None else
  '(_, w) ← copy_out w (required_size_ s - 2);
  '(port, w) ← copy_out w 2;
  cb ← bind_callback_ cbs;
  let '(ret, port, e) := cb e (ntohs (pad 2 port)) in
  if bool_decide (ret = kStatusFail) then brk (mkSocks5 kFail 0) w e else
  '(ret, e) ← call_response e ([5; 0; 0; 1; 0; 0; 0; 0]%Z ++ htons port);
  if bool_decide (ret = kStatusFail) then brk (mkSocks5 kFail 0) w e
  else Some (false, mkSocks5 kWaitAccept 0, w, e).

Definition on_response (s : Socks5State) (w : W) (e : E) : result :=
  let '(resp, e) := CreateResp e false in
  '(ret, e) ← call_response e resp;
  if bool_decide (ret ≠ kStatusOK) then fail s w e
  else brk (mkSocks5 kSuccess 1) w e.

Definition Proceed (s : Socks5State) (w : W) (e : E) : result :=
  if InsufficientBuffer s w then Some (false, s, w, e) else
  match state_ s with
  | kGreetingHeader => on_greeting_header s w e
  | kGreetingMethods => on_greeting_methods s w e
  | kRequestHeader => on_request_header s w e
  | kRequestAddrV4 => on_request_addr_v4 w e
  | kRequestAddrV6 => on_request_addr_v6 w e
  | kRequestBind => on_request_bind s w e
  | kWaitConnect => Some (false, s, w, e)
  | kWaitAccept => Some (false, s, w, e)
  | kResponse => on_response s w e
  | kSuccess => Some (false, s, w, e)
  | kFail => Some (false, mkSocks5 kFail 0, w, e)
  end.

(** The final assignment of [kSuccess] is unconditional in the code. *)
Definition ConnectionSucceed (s : Socks5State) (e : E) : option (bool * Socks5State * E) :=
  let send is_bind :=
    let '(resp, e) := CreateResp e is_bind in
    '(ret, e) ← call_response e resp;
    let s := if bool_decide (ret ≠ kStatusOK) then mkSocks5 kFail (required_size_ s) else s in
    let s := mkSocks5 kSuccess (required_size_ s) in
    Some (bool_decide (state_ s = kSuccess), s, e) in
  match state_ s with
  | kWaitConnect => send false
  | kWaitAccept => send true
  | _ => Some (false, mkSocks5 kFail (required_size_ s), e)
  end.

(** The loop of [ProxyBridge::Socks5HandshakeHandler]:
    [while (state() != kSuccess && Proceed(buffer)) {}]. *)
Fixpoint handshake_loop (fuel : nat) (s : Socks5State) (w : W) (e : E)
  : option (Socks5State * W * E) :=
  if bool_decide (state_ s = kSuccess) then Some (s, w, e) else
  match fuel with
  | O => None
  | S fuel =>
      '(go, s, w, e) ← Proceed s w e;
      if (go : bool) then handshake_loop fuel s w e else Some (s, w, e)
  end.

End Socks5State.

(** ** Readers

    A list of bytes is a reader.  [sim] is what the machine needs of another
    reader: to return the bytes of a list. *)

Definition list_copy_out (l : list Z) (n : nat) : option (list Z * list Z) :=
  Some (take n l, drop n l).

Class Reader {W} (copy_out : W → nat → option (list Z * W)) (data_size : W → nat)
    (sim : W → list Z → Prop) : Prop := {
  reader_copy_out w l n : sim w l → ∃ w', copy_out w n = Some (take n l, w') ∧ sim w' (drop n l);
  reader_data_size w l : sim w l → data_size w = length l
}.

Section simulation.
Context {W E} copy_out data_size sim `{!@Reader W copy_out data_size sim} (cbs : Callbacks E).
Implicit Types (w : W) (l : list Z).

(** Equal results over related readers. *)
Definition res_sim (r : option (bool * Socks5State * W * E))
    (r' : option (bool * Socks5State * list Z * E)) : Prop :=
  match r, r' with
  | Some (b, s, w, e), Some (b', s', l, e') => b = b' ∧ s = s' ∧ sim w l ∧ e = e'
  | None, None => True
  | _, _ => False
  end.

Lemma brk_sim s w l e : sim w l → res_sim (brk s w e) (brk s l e).
Proof. done. Qed.

Lemma copy_out_sim n w l f g :
  sim w l → (∀ bs w' l', sim w' l' → res_sim (f (bs, w')) (g (bs, l'))) →
  res_sim (copy_out w n ≫= f) (list_copy_out l n ≫= g).
Proof.
  intros Hs Hk. destruct (reader_copy_out w l n Hs) as (w'&->&Hs'). simpl. by apply Hk.
Qed.

(** Case analysis on the test at the head of two related results. *)
Ltac sim_case :=
  repeat match goal with
  | |- res_sim (if ?b then _ else _) (if ?b then _ else _) => destruct b
  | |- res_sim (match ?x with _ => _ end) (match ?x with _ => _ end) => destruct x
  | |- res_sim (mbind _ ?x) (mbind _ ?x) => destruct x; cbn [mbind option_bind]
  | |- res_sim (mbind _ (copy_out _ _)) _ => apply copy_out_sim; [done|intros; cbv beta iota]
  | |- res_sim (fail _ _ _) _ => apply brk_sim
  | |- res_sim (brk _ _ _) _ => apply brk_sim
  end; try done.

Lemma Proceed_sim s w l e :
  sim w l →
  res_sim (Proceed copy_out data_size cbs s w e) (Proceed list_copy_out length cbs s l e).
Proof.
  intros Hs. unfold Proceed, InsufficientBuffer. rewrite (reader_data_size w l Hs).
  destruct (length l <? required_size_ s); [done|]. destruct (state_ s).
  - unfold on_greeting_header. sim_case.
  - unfold on_greeting_methods. sim_case.
  - unfold on_request_header. sim_case.
  - unfold on_request_addr_v4, connect. sim_case.
  - unfold on_request_addr_v6, connect. sim_case.
  - unfold on_request_bind. sim_case.
  - done.
  - done.
  - unfold on_response. sim_case.
  - done.
  - done.
Qed.

Lemma handshake_loop_sim fuel s w l e :
  sim w l →
  match handshake_loop copy_out data_size cbs fuel s w e,
        handshake_loop list_copy_out length cbs fuel s l e with
  | Some (s, w, e), Some (s', l, e') => s = s' ∧ sim w l ∧ e = e'
  | None, None => True
  | _, _ => False
  end.
Proof.
  revert s w l e. induction fuel as [|fuel IH]; intros s w l e Hs; simpl;
    (case_bool_decide; [done|]); [done|].
  pose proof (Proceed_sim s w l e Hs) as HP.
  destruct (Proceed copy_out _ _ s w e) as [[[[b s1] w1] e1]|],
    (Proceed list_copy_out _ _ s l e) as [[[[b' s1'] l1] e1']|]; try done.
  destruct HP as (<-&<-&Hs1&<-). simpl. destruct b; [by apply IH|done].
Qed.
End simulation.

(** ** The machine on a list of bytes *)

(** [required_size_] is the size of what the state reads. *)
Definition size_ok (s : Socks5State) : Prop :=
  match state_ s with
  | kGreetingHeader => required_size_ s = 2
  | kGreetingMethods => 1 ≤ required_size_ s ≤ 255
  | kRequestHeader => required_size_ s = 4
  | kRequestAddrV4 => required_size_ s = 6
  | kRequestAddrV6 => required_size_ s = 18
  | kRequestBind => required_size_ s = 6 ∨ required_size_ s = 18
  | kWaitConnect | kWaitAccept | kResponse => required_size_ s = 0
  | kSuccess => required_size_ s ≤ 1
  | kFail => True
  end.

(** The steps left before the machine stops. *)
Definition rank (s : Socks5State) : nat :=
  match state_ s with
  | kGreetingHeader => 6
  | kGreetingMethods => 5
  | kRequestHeader => 4
  | kRequestAddrV4 | kRequestAddrV6 | kRequestBind => 3
  | kWaitConnect | kWaitAccept => 1
  | kResponse => 2
  | kSuccess | kFail => 0
  end.

(** The states that read from the buffer. *)
Definition reads (s : Socks5State) : bool :=
  match state_ s with
  | kGreetingHeader | kGreetingMethods | kRequestHeader | kRequestAddrV4 | kRequestAddrV6
  | kRequestBind => true
  | _ => false
  end.

Section machine.
Context {E : Type} (cbs : Callbacks E).
Context (Hresp : is_Some (response_callback_ cbs)) (Hbind : is_Some (bind_callback_ cbs)).
Implicit Types (l m : list Z) (e : E).

Local Abbreviation Proceed := (Proceed list_copy_out length cbs).
Local Abbreviation InsufficientBuffer := (InsufficientBuffer length).
Local Abbreviation handshake_loop := (handshake_loop list_copy_out length cbs).

(** Case analysis on the tests of a step whose result is known. *)
Ltac step_cases H :=
  repeat match type of H with
  | None = Some _ => discriminate H
  | (match ?x with _ => _ end) = _ => destruct x eqn:?
  | mbind _ ?x = _ => destruct x eqn:?; [|discriminate H]; cbn [mbind option_bind] in H |- *
  end; simplify_eq/=.

Ltac step_inv H :=
  step_cases H;
  repeat match goal with
  | Hb : bool_decide _ = true |- _ => apply bool_decide_eq_true_1 in Hb
  | Hb : bool_decide _ = false |- _ => apply bool_decide_eq_false_1 in Hb
  end; simplify_eq/=.

Ltac step_done := split_and!; try done; try lia; intros; try done; try (split; [lia|done]).

(** A step that has its bytes: what it leaves, and that it makes progress. *)
Lemma Proceed_inv s l e go s' l' e' :
  size_ok s → Forall (λ b, is_u8 b) l → required_size_ s ≤ length l →
  Proceed s l e = Some (go, s', l', e') →
  size_ok s' ∧ l' = drop (if reads s then required_size_ s else 0) l ∧
  (go = true → rank s' < rank s ∧ state_ s' ≠ kFail) ∧
  (go = false → reads s' = false ∧ state_ s' ≠ kResponse).
Proof.
  intros Hsz Hl Hle H. unfold Socks5.Proceed, Socks5.InsufficientBuffer in H.
  destruct (Nat.ltb_spec (length l) (required_size_ s)); [lia|].
  destruct s as [st n]. unfold size_ok, rank, reads in *. simpl in *. destruct st.
  - unfold on_greeting_header, list_copy_out, fail, brk in H. simpl in H. subst n.
    assert (Forall (λ b, is_u8 b) (take 2 l)) as Hb by (by apply Forall_take).
    step_inv H; rewrite !Forall_cons in Hb; destruct Hb as (_&Hb&_); step_done.
  - unfold on_greeting_methods, list_copy_out, fail, brk in H. simpl in H.
    step_inv H; step_done.
  - unfold on_request_header, list_copy_out, fail, brk in H. simpl in H. subst n.
    step_inv H; step_done.
  - unfold on_request_addr_v4, connect, list_copy_out, brk in H. simpl in H. subst n.
    step_inv H; rewrite drop_drop; step_done.
  - unfold on_request_addr_v6, connect, list_copy_out, brk in H. simpl in H. subst n.
    step_inv H; rewrite drop_drop; step_done.
  - unfold on_request_bind, list_copy_out, brk in H. simpl in H.
    step_inv H; rewrite drop_drop, Nat.sub_add by lia; step_done.
  - by simplify_eq/=.
  - by simplify_eq/=.
  - unfold on_response, fail, brk in H. step_inv H; step_done.
  - by simplify_eq/=.
  - by simplify_eq/=.
Qed.

Lemma Proceed_total s l e : size_ok s → is_Some (Proceed s l e).
Proof.
  intros Hsz. unfold Socks5.Proceed, Socks5.InsufficientBuffer.
  destruct (Nat.ltb_spec (length l) (required_size_ s)) as [|Hl]; [by eauto|].
  destruct Hresp as [resp Hr], Hbind as [bind Hb].
  destruct s as [st n]. unfold size_ok in Hsz. simpl in *. destruct st; try (by eauto).
  - unfold on_greeting_header, fail, brk. subst n. destruct l as [|a [|b l]]; simpl in *; try lia.
    case_bool_decide; by eauto.
  - unfold on_greeting_methods, fail, brk. simpl.
    rewrite bool_decide_eq_false_2 by (rewrite length_take; lia).
    case_bool_decide; [by eauto|]. rewrite Hr. destruct (resp e _) as [[]]; by eauto.
  - unfold on_request_header, fail, brk. subst n.
    destruct l as [|a [|b [|c [|d l]]]]; simpl in *; try lia.
    repeat (case_bool_decide; [by eauto|]). repeat case_bool_decide; by eauto.
  - unfold on_request_addr_v4, connect, brk. simpl.
    destruct (connect_callback_ cbs) as [cb|]; [|by eauto]. destruct (cb e _) as [[]]; by eauto.
  - unfold on_request_addr_v6, connect, brk. simpl.
    destruct (connect_callback_ cbs) as [cb|]; [|by eauto]. destruct (cb e _) as [[]]; by eauto.
  - unfold on_request_bind, call_response, brk. simpl.
    destruct (Nat.ltb_spec n 2); [lia|]. simpl. rewrite Hb, Hr. simpl.
    destruct (bind e _) as [[ret port] e1]. case_bool_decide; [by eauto|]. simpl.
    destruct (resp e1 _) as [ret2 e2]. case_bool_decide; by eauto.
  - unfold on_response, call_response, fail, brk. destruct (CreateResp cbs e false) as [r e1].
    rewrite Hr. simpl. destruct (resp e1 r) as [ret2 e2]. case_bool_decide; by eauto.
Qed.

(** A step does not depend on bytes behind those it reads. *)
Lemma Proceed_app s l e go s' l' e' m :
  size_ok s → required_size_ s ≤ length l → Proceed s l e = Some (go, s', l', e') →
  Proceed s (l ++ m) e = Some (go, s', l' ++ m, e').
Proof.
  intros Hsz Hle. unfold Socks5.Proceed, Socks5.InsufficientBuffer. rewrite length_app.
  destruct (Nat.ltb_spec (length l) (required_size_ s)); [lia|].
  destruct (Nat.ltb_spec (length l + length m) (required_size_ s)); [lia|].
  destruct s as [st n]. unfold size_ok in Hsz. simpl in *. destruct st;
    try (intros; by simplify_eq/=);
    unfold on_greeting_header, on_greeting_methods, on_request_header, on_request_addr_v4,
      on_request_addr_v6, on_request_bind, on_response, connect, fail, brk; simpl;
    rewrite ?(take_app_le l), ?(drop_app_le l) by lia;
    rewrite ?take_app_le, ?drop_app_le by (rewrite length_drop; lia);
    intros H1; step_cases H1; done.
Qed.

(** *** The loop *)

Lemma Proceed_insufficient s l e :
  length l < required_size_ s → Proceed s l e = Some (false, s, l, e).
Proof.
  intros. unfold Socks5.Proceed, Socks5.InsufficientBuffer.
  by destruct (Nat.ltb_spec (length l) (required_size_ s)); [|lia].
Qed.

Lemma handshake_loop_step fuel s l e :
  state_ s ≠ kSuccess →
  handshake_loop (S fuel) s l e =
    ('(go, s, l, e) ← Proceed s l e;
     if (go : bool) then handshake_loop fuel s l e else Some (s, l, e)).
Proof. intros. simpl. by rewrite bool_decide_eq_false_2. Qed.

(** The machine has nothing to do before more bytes or events arrive. *)
Definition stopped (s : Socks5State) l : Prop :=
  length l < required_size_ s ∨ (reads s = false ∧ state_ s ≠ kResponse).

Lemma handshake_loop_total fuel s l e :
  size_ok s → Forall (λ b, is_u8 b) l → rank s < fuel →
  ∃ s' l' e', handshake_loop fuel s l e = Some (s', l', e') ∧ size_ok s' ∧
    stopped s' l' ∧ l' `suffix_of` l.
Proof.
  revert s l e. induction fuel as [|fuel IH]; intros s l e Hsz Hl Hf; [lia|].
  destruct (decide (state_ s = kSuccess)) as [Hs|Hs].
  { simpl. rewrite bool_decide_eq_true_2 by done. exists s, l, e. split_and!; try done.
    right. unfold reads. by rewrite Hs. }
  rewrite handshake_loop_step by done.
  destruct (decide (length l < required_size_ s)) as [Hlt|Hge].
  { rewrite Proceed_insufficient by done. simpl. exists s, l, e. split_and!; try done. by left. }
  destruct (Proceed_total s l e Hsz) as [[[[go s1] l1] e1] HP]. rewrite HP. simpl.
  destruct (Proceed_inv _ _ _ _ _ _ _ Hsz Hl ltac:(lia) HP) as (Hsz1&->&Ht&Hf1).
  destruct go.
  - destruct (Ht eq_refl) as [Hr _].
    destruct (IH s1 (drop (if reads s then required_size_ s else 0) l) e1)
      as (s2&l2&e2&->&H1&H2&H3); [done|by apply Forall_drop|lia|].
    exists s2, l2, e2. split_and!; try done. etrans; [done|]. apply suffix_drop.
  - exists s1, (drop (if reads s then required_size_ s else 0) l), e1.
    split_and!; try done; [by right; apply Hf1|apply suffix_drop].
Qed.

Lemma rank_bound s : rank s ≤ 6.
Proof. destruct s as [[]]; unfold rank; simpl; lia. Qed.

Lemma handshake_loop_more fuel k s l e r :
  handshake_loop fuel s l e = Some r → handshake_loop (fuel + k) s l e = Some r.
Proof.
  revert s l e. induction fuel as [|fuel IH]; intros s l e; simpl.
  - case_bool_decide as Hs; [|done]. intros. by destruct k; simpl; rewrite bool_decide_eq_true_2.
  - case_bool_decide as Hs; [done|].
    destruct (Proceed s l e) as [[[[go s1] l1] e1]|]; [|done]. simpl. destruct go; [apply IH|done].
Qed.

(** The results of two runs agree; after a failure the size the machine
    would wait for does not matter. *)
Definition same_outcome (r r' : Socks5State * list Z * E) : Prop :=
  let '(s, l, e) := r in let '(s', l', e') := r' in
  state_ s = state_ s' ∧ l = l' ∧ e = e' ∧
  (state_ s ≠ kFail → required_size_ s = required_size_ s').

#[local] Instance same_outcome_equiv : Equivalence same_outcome.
Proof.
  unfold same_outcome. split.
  - intros [[??]?]. done.
  - intros [[??]?] [[??]?] (H1&->&->&H2). split_and!; try done. intros Hs.
    symmetry. apply H2. congruence.
  - intros [[??]?] [[??]?] [[??]?] (H1&->&->&H2) (H3&->&->&H4). split_and!; [congruence|done|done|].
    intros Hs. rewrite H2 by done. apply H4. congruence.
Qed.

Lemma handshake_loop_stopped s l e :
  stopped s l →
  ∃ s', handshake_loop 7 s l e = Some (s', l, e) ∧ same_outcome (s, l, e) (s', l, e).
Proof.
  intros Hst. destruct (decide (state_ s = kSuccess)) as [Hs|Hs].
  { simpl. rewrite bool_decide_eq_true_2 by done. by exists s. }
  rewrite handshake_loop_step by done. destruct Hst as [Hlt|[Hr Hn]].
  { rewrite Proceed_insufficient by done. simpl. by exists s. }
  unfold Socks5.Proceed, Socks5.InsufficientBuffer.
  destruct (length l <? required_size_ s); [by exists s|].
  destruct s as [st n]; unfold reads in Hr; simpl in *. destruct st; try done; by eexists.
Qed.

Lemma handshake_loop_app fuel s l m e s1 l1 e1 :
  size_ok s → Forall (λ b, is_u8 b) l → Forall (λ b, is_u8 b) m → rank s < fuel →
  handshake_loop fuel s l e = Some (s1, l1, e1) →
  ∃ r r', handshake_loop fuel s (l ++ m) e = Some r ∧
          handshake_loop 7 s1 (l1 ++ m) e1 = Some r' ∧ same_outcome r r'.
Proof.
  revert s l e. induction fuel as [|fuel IH]; intros s l e Hsz Hl Hm Hf; [lia|].
  destruct (decide (state_ s = kSuccess)) as [Hs|Hs].
  { simpl. rewrite bool_decide_eq_true_2 by done. intros [= <- <- <-].
    rewrite bool_decide_eq_true_2 by done. by eexists _, _. }
  rewrite !handshake_loop_step by done.
  destruct (decide (length l < required_size_ s)) as [Hlt|Hge].
  { rewrite Proceed_insufficient by done. intros [= <- <- <-].
    destruct (handshake_loop_total (S fuel) s (l ++ m) e) as (s2&l2&e2&H2&_);
      [done|by apply Forall_app|done|].
    rewrite handshake_loop_step in H2 by done. exists (s2, l2, e2), (s2, l2, e2).
    split_and!; [done| |done].
    destruct (handshake_loop_total 7 s (l ++ m) e) as (s3&l3&e3&H3&_);
      [done|by apply Forall_app|pose proof (rank_bound s); lia|].
    rewrite H3. rewrite <-(handshake_loop_step fuel s (l ++ m) e Hs) in H2.
    apply (handshake_loop_more _ 7) in H2. apply (handshake_loop_more _ (S fuel)) in H3.
    rewrite Nat.add_comm in H3. congruence. }
  destruct (Proceed_total s l e Hsz) as [[[[go s2] l2] e2] HP]. rewrite HP.
  destruct (Proceed_inv _ _ _ _ _ _ _ Hsz Hl ltac:(lia) HP) as (Hsz2&Hl2&Ht&Hf2).
  rewrite (Proceed_app s l e go s2 l2 e2 m Hsz ltac:(lia) HP). cbn [mbind option_bind].
  destruct go.
  - apply IH; [done| |done|destruct (Ht eq_refl); lia]. subst l2. by apply Forall_drop.
  - intros [= <- <- <-].
    destruct (handshake_loop_stopped s2 (l2 ++ m) e2) as (s3&H3&Hsame);
      [right; by apply Hf2|].
    by eexists _, _.
Qed.

(** The loop of the handler, run after each chunk of bytes that arrives. *)
Fixpoint run_chunks (s : Socks5State) l e (cs : list (list Z)) : option (Socks5State * list Z * E) :=
  match cs with
  | [] => Some (s, l, e)
  | c :: cs => '(s, l, e) ← handshake_loop 7 s (l ++ c) e; run_chunks s l e cs
  end.

Lemma run_chunks_concat cs s l e :
  size_ok s → stopped s l → Forall (λ b, is_u8 b) l → Forall (Forall (λ b, is_u8 b)) cs →
  ∃ r r', run_chunks s l e cs = Some r ∧
          handshake_loop 7 s (l ++ concat cs) e = Some r' ∧ same_outcome r r'.
Proof.
  revert s l e. induction cs as [|c cs IH]; intros s l e Hsz Hst Hl Hcs; cbn [run_chunks].
  - destruct (handshake_loop_stopped s l e Hst) as (s'&H1&H2).
    simpl concat. rewrite app_nil_r. by eexists _, _.
  - apply Forall_cons in Hcs as [Hc Hcs].
    assert (Forall (λ b, is_u8 b) (l ++ c)) as Hlc by (by apply Forall_app).
    pose proof (rank_bound s) as Hr.
    destruct (handshake_loop_total 7 s (l ++ c) e) as (s1&l1&e1&H1&Hsz1&Hst1&Hsuf); [done..|lia|].
    destruct (handshake_loop_app 7 s (l ++ c) (concat cs) e s1 l1 e1)
      as (r2&r2'&H2&H2'&Hs2); [done|done| |lia|done|].
    { by apply Forall_concat. }
    destruct (IH s1 l1 e1 Hsz1 Hst1) as (r3&r3'&H3&H3'&Hs3); [|done|].
    { destruct Hsuf as [k Hk]. rewrite Hk in Hlc. by apply Forall_app in Hlc as [_ ?]. }
    rewrite H1. cbn [mbind option_bind]. exists r3, r2. split_and!; [done| |].
    + simpl concat. by rewrite app_assoc.
    + rewrite H2' in H3'. injection H3' as <-. by rewrite Hs3.
Qed.
End machine.

(** ** The protocol

    What RFC 1928 makes of the bytes a client sent so far, for a server that
    only offers the method "no authentication" and IP addresses. *)

Inductive Verdict :=
  | Incomplete
  | Rejected
  | Connect (addr : Sockaddr) (rest : list Z)
  | Bind (port : Z) (rest : list Z).

(** The length of an address by its type, and the address itself. *)
Definition atyp_len (atyp : Z) : option nat :=
  if decide (atyp = 1)%Z then Some 4 else if decide (atyp = 4)%Z then Some 16 else None.

Definition to_sockaddr (n : nat) (addr port : list Z) : Sockaddr :=
  if decide (n = 4) then sockaddr_in addr port else sockaddr_in6 addr port.

Definition parse_request (bs : list Z) : Verdict :=
  match bs with
  | ver :: cmd :: rsv :: atyp :: bs =>
      if decide (ver = 5 ∧ rsv = 0 ∧ (cmd = 1 ∨ cmd = 2))%Z then
        match atyp_len atyp with
        | None => Rejected
        | Some n =>
            if decide (length bs < n + 2) then Incomplete else
            let port := take 2 (drop n bs) in
            let rest := drop (n + 2) bs in
            if decide (cmd = 1)%Z then Connect (to_sockaddr n (take n bs) port) rest
            else Bind (ntohs port) rest
        end
      else Rejected
  | _ => Incomplete
  end.

Definition parse_handshake (bs : list Z) : Verdict :=
  match bs with
  | ver :: nmethods :: bs =>
      if decide (ver = 5 ∧ nmethods ≠ 0)%Z then
        if decide (length bs < Z.to_nat nmethods) then Incomplete
        else if decide (0%Z ∈ take (Z.to_nat nmethods) bs)
        then parse_request (drop (Z.to_nat nmethods) bs)
        else Rejected
      else Rejected
  | _ => Incomplete
  end.

Section protocol.
Context {E : Type} (cbs : Callbacks E).
Context (resp : E → list Z → CallbackStatus * E) (conn : E → Sockaddr → CallbackStatus * E)
        (bind : E → Z → CallbackStatus * Z * E).
Context (Hresp : response_callback_ cbs = Some resp) (Hconn : connect_callback_ cbs = Some conn)
        (Hbind : bind_callback_ cbs = Some bind).

(** Responses are sent, connections are made asynchronously and binds are
    accepted. *)
Context (Hresp_ok : ∀ e bs, (resp e bs).1 = kStatusOK)
        (Hconn_ok : ∀ e a, (conn e a).1 = kStatusInProgress)
        (Hbind_ok : ∀ e p, (bind e p).1.1 = kStatusOK).

Local Abbreviation Proceed := (Proceed list_copy_out length cbs).
Local Abbreviation handshake_loop := (handshake_loop list_copy_out length cbs).

(** The state a verdict stands for. *)
Definition verdict_post (e : E) (v : Verdict) (r : Socks5State * list Z * E) : Prop :=
  let '(s, l, e') := r in
  match v with
  | Incomplete => reads s = true ∧ InsufficientBuffer length s l = true
  | Rejected => state_ s = kFail
  | Connect addr rest =>
      s = mkSocks5 kWaitConnect 0 ∧ l = rest ∧ e' = (conn e addr).2
  | Bind port rest =>
      let '(_, bound, e1) := bind e port in
      s = mkSocks5 kWaitAccept 0 ∧ l = rest ∧
      e' = (resp e1 ([5; 0; 0; 1; 0; 0; 0; 0]%Z ++ htons bound)).2
  end.

Lemma insufficient_post s l e e' fuel :
  reads s = true → length l < required_size_ s →
  ∃ r, handshake_loop (S fuel) s l e = Some r ∧ verdict_post e' Incomplete r.
Proof.
  intros Hr Hl. rewrite handshake_loop_step by (destruct s as [[]]; done).
  rewrite Proceed_insufficient by done. eexists. split; [done|]. simpl. split; [done|].
  by apply Nat.ltb_lt.
Qed.

Lemma pad_full n bs : length bs = n → pad n bs = bs.
Proof. intros <-. unfold pad. by rewrite Nat.sub_diag, app_nil_r. Qed.

Lemma connect_post addr l e :
  ∃ r, connect cbs addr l e = Some (false, mkSocks5 kWaitConnect 0, l, r) ∧
       verdict_post e (Connect addr l) (mkSocks5 kWaitConnect 0, l, r).
Proof.
  unfold connect. rewrite Hconn. pose proof (Hconn_ok e addr) as Ho.
  destruct (conn e addr) as [st e1] eqn:Hc. simpl in Ho. subst st.
  eexists. split; [done|]. simpl. by rewrite Hc.
Qed.

Lemma address_post is4 n l e fuel :
  n = (if is4 : bool then 4 else 16) → n + 2 ≤ length l →
  ∃ r, handshake_loop (S fuel)
         (mkSocks5 (if is4 then kRequestAddrV4 else kRequestAddrV6) (n + 2)) l e = Some r ∧
       verdict_post e (Connect (to_sockaddr n (take n l) (take 2 (drop n l)))
                               (drop (n + 2) l)) r.
Proof.
  intros Hn Hl. rewrite handshake_loop_step by (by destruct is4).
  unfold Socks5.Proceed, Socks5.InsufficientBuffer. simpl required_size_.
  destruct (Nat.ltb_spec (length l) (n + 2)); [lia|]. rewrite <-drop_drop.
  destruct is4; subst n; simpl state_; cbv iota.
  - unfold on_request_addr_v4. cbn [list_copy_out mbind option_bind].
    rewrite !pad_full by (rewrite length_take, ?length_drop; lia).
    destruct (connect_post (sockaddr_in (take 4 l) (take 2 (drop 4 l))) (drop 2 (drop 4 l)) e)
      as (r&->&Hp). eexists. split; [done|]. by rewrite drop_drop in *.
  - unfold on_request_addr_v6. cbn [list_copy_out mbind option_bind].
    rewrite !pad_full by (rewrite length_take, ?length_drop; lia).
    destruct (connect_post (sockaddr_in6 (take 16 l) (take 2 (drop 16 l))) (drop 2 (drop 16 l)) e)
      as (r&->&Hp). eexists. split; [done|]. by rewrite drop_drop in *.
Qed.

#[local] Arguments Socks5.handshake_loop : simpl never.

Lemma bind_post n l e fuel :
  n = 4 ∨ n = 16 → n + 2 ≤ length l →
  ∃ r, handshake_loop (S fuel) (mkSocks5 kRequestBind (n + 2)) l e = Some r ∧
       verdict_post e (Bind (ntohs (take 2 (drop n l))) (drop (n + 2) l)) r.
Proof.
  intros Hn Hl. rewrite handshake_loop_step by done.
  unfold Socks5.Proceed, Socks5.InsufficientBuffer. simpl required_size_.
  destruct (Nat.ltb_spec (length l) (n + 2)); [lia|]. rewrite <-drop_drop. simpl state_.
  cbv iota. unfold on_request_bind, call_response. simpl required_size_.
  destruct (Nat.ltb_spec (n + 2) 2); [lia|]. rewrite Nat.add_sub.
  cbn [list_copy_out mbind option_bind]. rewrite Hbind, Hresp. cbn [mbind option_bind].
  rewrite !pad_full by (rewrite length_take, ?length_drop; lia).
  pose proof (Hbind_ok e (ntohs (take 2 (drop n l)))) as Hb.
  destruct (bind e (ntohs (take 2 (drop n l)))) as [[ret port] e1] eqn:Hbe. simpl in Hb. subst ret.
  rewrite bool_decide_eq_false_2 by done. cbn [mbind option_bind].
  pose proof (Hresp_ok e1 ([5; 0; 0; 1; 0; 0; 0; 0]%Z ++ htons port)) as Hr.
  destruct (resp e1 _) as [ret e2] eqn:Hre. simpl in Hr. subst ret.
  rewrite bool_decide_eq_false_2 by done. eexists. split; [done|]. simpl. rewrite Hbe.
  simpl in Hre. rewrite Hre. by rewrite drop_drop.
Qed.

Lemma request_post l e fuel :
  ∃ r, handshake_loop (S (S fuel)) (mkSocks5 kRequestHeader 4) l e = Some r ∧
       verdict_post e (parse_request l) r.
Proof.
  destruct l as [|h0 [|h1 [|h2 [|atyp l]]]];
    try (apply insufficient_post; [done|simpl; lia]).
  rewrite handshake_loop_step by done.
  unfold Socks5.Proceed, Socks5.InsufficientBuffer. simpl state_. cbn [length Nat.ltb Nat.leb].
  unfold on_request_header. cbn [list_copy_out mbind option_bind take drop parse_request].
  unfold atyp_len. simpl required_size_. unfold fail, brk. simpl Nat.leb. cbv iota.
  destruct (decide (h0 = 5 ∧ h2 = 0 ∧ (h1 = 1 ∨ h1 = 2))%Z) as [(->&->&Hcmd)|Hbad].
  - rewrite bool_decide_eq_false_2 by lia.
    destruct (decide (atyp = 1)%Z) as [->|Ha1]; [|destruct (decide (atyp = 4)%Z) as [->|Ha4]].
    + destruct Hcmd as [->| ->]; simpl;
        (destruct (decide (length l < 6)); [by apply insufficient_post|]).
      * apply (address_post true 4); [done|lia].
      * apply (bind_post 4); [by left|lia].
    + destruct Hcmd as [->| ->]; simpl;
        (destruct (decide (length l < 18)); [by apply insufficient_post|]).
      * apply (address_post false 16); [done|lia].
      * apply (bind_post 16); [by right|lia].
    + rewrite !(bool_decide_eq_false_2 (atyp = 1)%Z), !(bool_decide_eq_false_2 (atyp = 4)%Z) by done.
      repeat case_bool_decide; simpl; by eexists.
  - repeat case_bool_decide; simpl; try (by eexists); lia.
Qed.

Lemma handshake_post bs e :
  Forall (λ b, is_u8 b) bs →
  ∃ r, handshake_loop 7 Socks5State_init bs e = Some r ∧
       verdict_post (resp e [5; 0]%Z).2 (parse_handshake bs) r.
Proof.
  intros Hb. destruct bs as [|g0 [|g1 bs]];
    try (apply insufficient_post; [done|simpl; lia]).
  apply Forall_cons in Hb as [_ Hb]. apply Forall_cons in Hb as [Hb _].
  rewrite handshake_loop_step by done.
  unfold Socks5.Proceed at 1, Socks5.InsufficientBuffer at 1. simpl state_.
  cbn [length Nat.ltb Nat.leb]. unfold on_greeting_header, fail, brk.
  cbn [list_copy_out mbind option_bind take drop parse_handshake]. simpl Nat.leb. cbv iota.
  destruct (decide (g0 = 5 ∧ g1 ≠ 0)%Z) as [[-> Hg1]|Hbad].
  2: { rewrite bool_decide_eq_true_2 by lia. simpl. by eexists. }
  rewrite bool_decide_eq_false_2 by lia. simpl. rewrite drop_0.
  set (n := Z.to_nat g1). destruct (decide (length bs < n)) as [Hlt|Hge];
    [by apply insufficient_post|].
  rewrite handshake_loop_step by done.
  unfold Socks5.Proceed at 1, Socks5.InsufficientBuffer at 1. simpl state_. simpl required_size_.
  destruct (Nat.ltb_spec (length bs) n); [lia|].
  unfold on_greeting_methods, fail, brk. cbn [required_size_ list_copy_out mbind option_bind].
  rewrite (bool_decide_eq_false_2 (length _ ≠ _)) by (rewrite length_take; lia).
  destruct (decide (0%Z ∈ take n bs)) as [Hin|Hni].
  2: { rewrite bool_decide_eq_true_2 by done. by eexists. }
  rewrite bool_decide_eq_false_2 by (intros Hn; by apply Hn).
  rewrite Hresp. pose proof (Hresp_ok e [5; 0]%Z) as Hr.
  destruct (resp e [5; 0]%Z) as [st e1]. simpl in Hr. subst st. simpl. apply request_post.
Qed.
End protocol.

(** ** Properties *)

#[global] Instance list_reader : Reader list_copy_out length eq.
Proof. split; [|by intros ? ? ->]. intros w l n ->. by eexists. Qed.

(** Whatever bytes a client has sent, the handshake loop runs to its end
    within seven steps, never reads uninitialised memory or wraps a size, only
    takes bytes from the front of the buffer, and stops in a state that waits
    for more bytes, for the connection, or is final. *)
Theorem handshake_terminates {W E} copy_out data_size sim
    `{!@Reader W copy_out data_size sim} (cbs : Callbacks E) s w l e :
  is_Some (response_callback_ cbs) → is_Some (bind_callback_ cbs) →
  size_ok s → sim w l → Forall (λ b, is_u8 b) l →
  ∃ s' w' l' e',
    handshake_loop copy_out data_size cbs 7 s w e = Some (s', w', e') ∧ sim w' l' ∧
    l' `suffix_of` l ∧ size_ok s' ∧ stopped s' l'.
Proof.
  intros Hr Hb Hsz Hs Hl. pose proof (rank_bound s) as Hrank.
  destruct (handshake_loop_total cbs Hr Hb 7 s l e) as (s'&l'&e'&H1&H2&H3&H4); [done..|lia|].
  pose proof (handshake_loop_sim copy_out data_size sim cbs 7 s w l e Hs) as Hsim.
  rewrite H1 in Hsim. destruct (handshake_loop copy_out _ _ 7 s w e) as [[[s1 w1] e1]|]; [|done].
  destruct Hsim as (->&Hs1&->). by exists s', w1, l', e'.
Qed.

(** The outcome of the handshake does not depend on how the client's
    bytes are cut into the chunks that arrive: running the loop after every
    chunk ends in the state, with the callbacks made and the bytes left over,
    of one run on all of them. *)
Theorem handshake_chunking {E} (cbs : Callbacks E) cs e :
  is_Some (response_callback_ cbs) → is_Some (bind_callback_ cbs) →
  Forall (Forall (λ b, is_u8 b)) cs →
  ∃ r r', run_chunks cbs Socks5State_init [] e cs = Some r ∧
          handshake_loop list_copy_out length cbs 7 Socks5State_init (concat cs) e = Some r' ∧
          same_outcome r r'.
Proof.
  intros Hr Hb Hcs. apply (run_chunks_concat cbs Hr Hb cs Socks5State_init [] e); try done.
  left. simpl. lia.
Qed.

(** C4: The machine implements the protocol: after the bytes [bs] it waits for
    more input exactly when the RFC's grammar does, fails exactly on the
    requests the proxy does not support, and otherwise has answered the
    greeting, asked for exactly the connection or port requested, and left the
    bytes behind the request in the buffer. *)
Theorem handshake_implements_protocol {W E} copy_out data_size sim
    `{!@Reader W copy_out data_size sim} (cbs : Callbacks E) resp conn bind w bs e :
  response_callback_ cbs = Some resp → connect_callback_ cbs = Some conn →
  bind_callback_ cbs = Some bind →
  (∀ e bs, (resp e bs).1 = kStatusOK) → (∀ e a, (conn e a).1 = kStatusInProgress) →
  (∀ e p, (bind e p).1.1 = kStatusOK) →
  sim w bs → Forall (λ b, is_u8 b) bs →
  ∃ s w' l e',
    handshake_loop copy_out data_size cbs 7 Socks5State_init w e = Some (s, w', e') ∧
    sim w' l ∧
    verdict_post resp conn bind (resp e [5; 0]%Z).2 (parse_handshake bs) (s, l, e').
Proof.
  intros Hr Hc Hb Hro Hco Hbo Hs Hl.
  destruct (handshake_post cbs resp conn bind Hr Hc Hb Hro Hco Hbo bs e Hl)
    as ([[s l] e']&H1&H2).
  pose proof (handshake_loop_sim copy_out data_size sim cbs 7 Socks5State_init w bs e Hs) as Hsim.
  rewrite H1 in Hsim.
  destruct (handshake_loop copy_out _ _ 7 _ w e) as [[[s1 w1] e1]|]; [|done].
  destruct Hsim as (->&Hs1&->). by exists s, w1, l, e'.
Qed.

(** [ConnectionSucceed] reports success although its response could not
    be sent: the failure it records is overwritten. *)
Theorem connection_succeed_ignores_failure {E} (cbs : Callbacks E) resp s e :
  response_callback_ cbs = Some resp → (∀ e bs, (resp e bs).1 = kStatusFail) →
  state_ s = kWaitConnect ∨ state_ s = kWaitAccept →
  ∃ s' e', ConnectionSucceed cbs s e = Some (true, s', e') ∧ state_ s' = kSuccess.
Proof.
  intros Hr Hf Hs. unfold ConnectionSucceed, call_response. rewrite Hr.
  destruct Hs as [-> | ->]; destruct (CreateResp cbs e _) as [r e1]; cbn [mbind option_bind];
    destruct (resp e1 r) as [st e2]; eexists _, _; split; reflexivity.
Qed.

(** The final response to a client fits the 32 bytes set aside for it,
    whatever address the socket reports, and carries that address and port
    behind the success code. *)
Theorem response_fits {E} (cbs : Callbacks E) cb e is_bind addr e' :
  dest_address_callback_ cbs = Some cb → cb e is_bind = (kStatusOK, addr, e') →
  sockaddr_ok addr →
  let resp := (CreateResp cbs e is_bind).1 in
  length resp ≤ 32 ∧ take 3 resp = [5; 0; 0]%Z ∧
  match addr with
  | sockaddr_in a p => drop 3 resp = 1%Z :: a ++ p ∧ length resp = 10
  | sockaddr_in6 a p => drop 3 resp = 4%Z :: a ++ p ∧ length resp = 22
  | sockaddr_other => True
  end.
Proof.
  intros Hcb Hc Ha. unfold CreateResp. rewrite Hcb, Hc. simpl.
  destruct addr as [a p|a p|]; simpl in *; rewrite ?length_app; split_and!; (done || lia).
Qed.

(** ** The hypotheses are satisfiable *)

(** A world that records what is sent and asked for. *)
Inductive LogEvent := Sent (bs : list Z) | Dialled (a : Sockaddr) | Bound (port : Z).

Definition log_resp (st : CallbackStatus) (e : list LogEvent) (bs : list Z) := (st, e ++ [Sent bs]).
Definition log_conn (e : list LogEvent) (a : Sockaddr) := (kStatusInProgress, e ++ [Dialled a]).
Definition log_dest (e : list LogEvent) (is_bind : bool) :=
  (kStatusOK, sockaddr_in [127; 0; 0; 1]%Z [0; 80]%Z, e).
Definition log_bind (e : list LogEvent) (port : Z) := (kStatusOK, port, e ++ [Bound port]).
Definition log_callbacks (st : CallbackStatus) : Callbacks (list LogEvent) :=
  mkCallbacks _ (Some (log_resp st)) (Some log_conn) (Some log_dest) (Some log_bind).

Definition sample_request : list Z :=
  [5; 2; 1; 0; 5; 1; 0; 1; 10; 0; 0; 7; 31; 144; 42; 43]%Z.

Lemma sample_request_u8 : Forall (λ b, is_u8 b) sample_request.
Proof. unfold sample_request. repeat constructor; lia. Qed.

Lemma handshake_terminates_witness :
  ∃ s' w' l' e',
    handshake_loop list_copy_out length (log_callbacks kStatusOK) 7 Socks5State_init
      sample_request [] = Some (s', w', e') ∧ w' = l' ∧
    l' `suffix_of` sample_request ∧ size_ok s' ∧ stopped s' l'.
Proof.
  apply (handshake_terminates list_copy_out length eq (log_callbacks kStatusOK)
    Socks5State_init sample_request sample_request []);
    [by eexists|by eexists|reflexivity|reflexivity|apply sample_request_u8].
Defined.

Lemma handshake_chunking_witness :
  ∃ r r', run_chunks (log_callbacks kStatusOK) Socks5State_init [] []
            [[5]; [2; 1]; [0; 5; 1; 0]; [1; 10; 0; 0; 7; 31; 144; 42]]%Z = Some r ∧
          handshake_loop list_copy_out length (log_callbacks kStatusOK) 7 Socks5State_init
            [5; 2; 1; 0; 5; 1; 0; 1; 10; 0; 0; 7; 31; 144; 42]%Z [] = Some r' ∧
          same_outcome r r'.
Proof.
  apply (handshake_chunking (log_callbacks kStatusOK)
    [[5]; [2; 1]; [0; 5; 1; 0]; [1; 10; 0; 0; 7; 31; 144; 42]]%Z []);
    [by eexists|by eexists|repeat constructor; lia].
Defined.

Lemma handshake_implements_protocol_witness :
  ∃ s w' l e',
    handshake_loop list_copy_out length (log_callbacks kStatusOK) 7 Socks5State_init
      sample_request [] = Some (s, w', e') ∧ w' = l ∧
    verdict_post (log_resp kStatusOK) log_conn log_bind [Sent [5; 0]%Z]
      (Connect (sockaddr_in [10; 0; 0; 7] [31; 144]) [42; 43])%Z (s, l, e').
Proof.
  apply (handshake_implements_protocol list_copy_out length eq (log_callbacks kStatusOK)
    (log_resp kStatusOK) log_conn log_bind sample_request sample_request []);
    try reflexivity. apply sample_request_u8.
Defined.

Lemma connection_succeed_ignores_failure_witness :
  ∃ s' e', ConnectionSucceed (log_callbacks kStatusFail) (mkSocks5 kWaitConnect 0) []
             = Some (true, s', e') ∧ state_ s' = kSuccess.
Proof.
  apply (connection_succeed_ignores_failure (log_callbacks kStatusFail) (log_resp kStatusFail));
    [reflexivity|reflexivity|by left].
Defined.

Lemma response_fits_witness :
  let resp := (CreateResp (log_callbacks kStatusOK) [] false).1 in
  length resp ≤ 32 ∧ take 3 resp = [5; 0; 0]%Z ∧
  drop 3 resp = [1; 127; 0; 0; 1; 0; 80]%Z ∧ length resp = 10.
Proof.
  apply (response_fits (log_callbacks kStatusOK) log_dest [] false
    (sockaddr_in [127; 0; 0; 1]%Z [0; 80]%Z) []); [reflexivity|reflexivity|by split].
Defined.
