(* ===== verification/ProxyBridge.v ===== *)
(** * Forwarding between two sockets

    Models [cc/aws/proxy/src/proxy_bridge.h] and [proxy_bridge.cc]: a proxy
    connection first runs the SOCKS5 handshake on its upstream buffer and then
    forwards bytes in both directions through two buffers.

    The sockets, the acceptor and the event loop belong to boost::asio.  [Net]
    is what the code sees of them: the operations it has started and not yet
    heard of, what went over the sockets, and the answers of the synchronous
    calls.  The completion of an operation is an [Event]; the handlers of one
    connection run on a strand, that is, one after the other.  The
    handlers of the two directions, which mirror each other in the code, are
    one definition with the direction as an argument. *)

From stdpp Require Import functions.
From S2P Require Import Prelude ProxyQueue Socks5.

(** ** Directions and operations in progress

    A direction has a source and a destination socket and the buffer between
    them: [Upstream] runs from the client to the destination, [Downstream]
    back.  State that the code keeps per socket is kept per direction here:
    what is read from its source, what is written to its destination. *)

(** The operations the code starts, with the size of the buffers given. *)
Inductive IoOp :=
  | HandshakeRead (size : nat)
  | Read (i : Side) (size : nat)
  | Write (i : Side) (size : nat)
  | Connecting
  | Accepting
  | WaitingClient.

#[global] Instance IoOp_eq_dec : EqDecision IoOp.
Proof. solve_decision. Defined.

(** [received] is what came from the source of a direction, [forwarded] what
    was written to its destination; [shut_send] and [shut_receive] tell that
    the destination was shut down for sending and the source for receiving. *)
Record Net := mkNet {
  io : list IoOp;
  received : Side → list Z;
  forwarded : Side → list Z;
  responses : list (list Z);
  dialled : list Sockaddr;
  shut_send : Side → bool;
  shut_receive : Side → bool;
  (* answers of the synchronous calls *)
  write_fails : bool;
  local_endpoint : option Sockaddr;
  remote_endpoint : option Sockaddr;
  acceptor : Z → option Z
}.

Definition start (op : IoOp) (n : Net) : Net :=
  mkNet (op :: io n) (received n) (forwarded n) (responses n) (dialled n) (shut_send n)
    (shut_receive n) (write_fails n) (local_endpoint n) (remote_endpoint n) (acceptor n).

Definition finish (op : IoOp) (n : Net) : Net :=
  mkNet (filter (λ o, o ≠ op) (io n)) (received n) (forwarded n) (responses n) (dialled n)
    (shut_send n) (shut_receive n) (write_fails n) (local_endpoint n) (remote_endpoint n)
    (acceptor n).

Definition log_received (s : Side) (bs : list Z) (n : Net) : Net :=
  mkNet (io n) (<[s := received n s ++ bs]> (received n)) (forwarded n) (responses n) (dialled n)
    (shut_send n) (shut_receive n) (write_fails n) (local_endpoint n) (remote_endpoint n)
    (acceptor n).

Definition log_forwarded (s : Side) (bs : list Z) (n : Net) : Net :=
  mkNet (io n) (received n) (<[s := forwarded n s ++ bs]> (forwarded n)) (responses n) (dialled n)
    (shut_send n) (shut_receive n) (write_fails n) (local_endpoint n) (remote_endpoint n)
    (acceptor n).

Definition log_response (bs : list Z) (n : Net) : Net :=
  mkNet (io n) (received n) (forwarded n) (responses n ++ [bs]) (dialled n) (shut_send n)
    (shut_receive n) (write_fails n) (local_endpoint n) (remote_endpoint n) (acceptor n).

Definition log_dial (a : Sockaddr) (n : Net) : Net :=
  mkNet (io n) (received n) (forwarded n) (responses n) (dialled n ++ [a]) (shut_send n)
    (shut_receive n) (write_fails n) (local_endpoint n) (remote_endpoint n) (acceptor n).

Definition shutdown_send (s : Side) (n : Net) : Net :=
  mkNet (io n) (received n) (forwarded n) (responses n) (dialled n)
    (<[s := true]> (shut_send n)) (shut_receive n) (write_fails n) (local_endpoint n)
    (remote_endpoint n) (acceptor n).

Definition shutdown_receive (s : Side) (n : Net) : Net :=
  mkNet (io n) (received n) (forwarded n) (responses n) (dialled n) (shut_send n)
    (<[s := true]> (shut_receive n)) (write_fails n) (local_endpoint n) (remote_endpoint n)
    (acceptor n).

(** The callbacks of [SetSocks5StateCallbacks]. *)
Definition bridge_callbacks : Callbacks Net := {|
  connect_callback_ := Some (λ n addr, (kStatusInProgress, start Connecting (log_dial addr n)));
  response_callback_ := Some (λ n bs,
    if write_fails n then (kStatusFail, n) else (kStatusOK, log_response bs n));
  dest_address_callback_ := Some (λ n (remote : bool),
    match (if remote then remote_endpoint n else local_endpoint n) with
    | None => (kStatusFail, sockaddr_other, n)
    | Some ep => (kStatusOK, ep, n)
    end);
  bind_callback_ := Some (λ n port,
    match acceptor n port with
    | None => (kStatusFail, port, n)
    | Some bound => (kStatusOK, bound, start WaitingClient (start Accepting n))
    end)
|}.

(** [boost::system::error_code]: success, end of file or another error. *)
Inductive error_code := ec_ok | ec_eof | ec_error.

Definition failed (ec : error_code) : bool :=
  match ec with ec_ok => false | _ => true end.

Definition kMaxBufferSize : nat := Z.to_nat (1024 * 1024).
Definition kReadSize : nat := Z.to_nat (64 * 1024).

(** The flags of a direction.  For [Upstream] these are [reading_client_],
    [writing_dest_], [client_readable_] and [dest_writable_], for [Downstream]
    [reading_dest_], [writing_client_], [dest_readable_] and
    [client_writable_]. *)
Record Flags := mkFlags {
  reading : bool;
  writing : bool;
  readable : bool;
  writable : bool
}.

Record Bridge (W : Type) := mkBridge {
  bufs : W;
  socks5 : Socks5State;
  net : Net;
  flags : Side → Flags
}.
Arguments mkBridge {W}. Arguments bufs {W}. Arguments socks5 {W}. Arguments net {W}.
Arguments flags {W}.

Definition initial_flags : Flags := mkFlags false false true true.

Section bridge.
Context `{Queues W}.
Implicit Types b : Bridge W.

Definition up_net (f : Net → Net) b : Bridge W :=
  mkBridge (bufs b) (socks5 b) (f (net b)) (flags b).
Definition up_bufs (w : W) b : Bridge W := mkBridge w (socks5 b) (net b) (flags b).
Definition set_reading (s : Side) (v : bool) b : Bridge W :=
  let f := flags b s in
  mkBridge (bufs b) (socks5 b) (net b)
    (<[s := mkFlags v (writing f) (readable f) (writable f)]> (flags b)).
Definition set_writing (s : Side) (v : bool) b : Bridge W :=
  let f := flags b s in
  mkBridge (bufs b) (socks5 b) (net b)
    (<[s := mkFlags (reading f) v (readable f) (writable f)]> (flags b)).
Definition set_unreadable (s : Side) b : Bridge W :=
  let f := flags b s in
  mkBridge (bufs b) (socks5 b) (net b)
    (<[s := mkFlags (reading f) (writing f) false (writable f)]> (flags b)).
Definition set_unwritable (s : Side) b : Bridge W :=
  let f := flags b s in
  mkBridge (bufs b) (socks5 b) (net b)
    (<[s := mkFlags (reading f) (writing f) (readable f) false]> (flags b)).

(** ** Buffer calls *)

Definition Commit_ (i : Side) (n : nat) b : option (Bridge W) :=
  '(_, w) ← q_exec (bufs b) i (OCommit n); Some (up_bufs w b).

Definition Drain_ (i : Side) (n : nat) b : option (Bridge W) :=
  '(_, w) ← q_exec (bufs b) i (ODrain n); Some (up_bufs w b).

Definition ReserveAtLeast_ (i : Side) (n : nat) b : option (nat * Bridge W) :=
  '(r, w) ← q_exec (bufs b) i (OReserveAtLeast n);
  match r with Size sz => Some (sz, up_bufs w b) | _ => None end.

Definition Peek_ (i : Side) b : option (nat * Bridge W) :=
  '(r, w) ← q_exec (bufs b) i OPeek;
  match r with Bytes bs => Some (length bs, up_bufs w b) | _ => None end.

Definition data_size_of (i : Side) b : nat := q_data_size (bufs b) i.

(** The upstream buffer as the handshake reads it. *)
Definition up_copy_out (w : W) (n : nat) : option (list Z * W) :=
  '(r, w) ← q_exec w Upstream (OCopyOut n);
  match r with Bytes bs => Some (bs, w) | _ => None end.

Definition up_data_size (w : W) : nat := q_data_size w Upstream.

(** ** Handshake *)

Definition start_handshake_read b : option (Bridge W) :=
  '(sz, b) ← ReserveAtLeast_ Upstream 1 b;
  Some (up_net (start (HandshakeRead sz)) b).

Definition PerformSocks5Handshake b : option (Bridge W) := start_handshake_read b.

Definition Socks5HandshakeHandler (ec : error_code) (bytes_read : nat) b : option (Bridge W) :=
  b ← Commit_ Upstream bytes_read b;
  if failed ec then Some b else
  '(s, w, n) ←
    handshake_loop up_copy_out up_data_size bridge_callbacks 7 (socks5 b) (bufs b) (net b);
  let b := mkBridge w s n (flags b) in
  if InsufficientBuffer up_data_size s w then start_handshake_read b else Some b.

(** ** Forwarding *)

Definition try_read (i : Side) b : option (Bridge W) :=
  if negb (reading (flags b i)) && readable (flags b i) && writable (flags b i) &&
     (data_size_of i b <? kMaxBufferSize)
  then '(sz, b) ← ReserveAtLeast_ i kReadSize b;
       Some (up_net (start (Read i sz)) (set_reading i true b))
  else Some b.

Definition try_write (i : Side) b : option (Bridge W) :=
  if negb (writing (flags b i)) && writable (flags b i) && (0 <? data_size_of i b)
  then '(sz, b) ← Peek_ i b;
       Some (up_net (start (Write i sz)) (set_writing i true b))
  else Some b.

Definition ForwardTraffic b : option (Bridge W) :=
  b ← try_read Upstream b;
  b ← try_write Downstream b;
  b ← try_read Downstream b;
  try_write Upstream b.

(** What [ClientReadHandler] and [DestReadHandler] do in their direction. *)
Definition ReadHandler (i : Side) (ec : error_code) (bytes_read : nat) b : option (Bridge W) :=
  let b := set_reading i false b in
  b ← Commit_ i bytes_read b;
  let b :=
    if failed ec then
      let b := set_unreadable i b in
      if data_size_of i b =? 0 then up_net (shutdown_send i) b else b
    else b in
  ForwardTraffic b.

Definition ClientReadHandler (ec : error_code) (n : nat) b := ReadHandler Upstream ec n b.
Definition DestReadHandler (ec : error_code) (n : nat) b := ReadHandler Downstream ec n b.

Definition read_handler (i : Side) : error_code → nat → Bridge W → option (Bridge W) :=
  match i with Upstream => ClientReadHandler | Downstream => DestReadHandler end.

(** What [DestWriteHandler] and [ClientWriteHandler] do in their direction. *)
Definition WriteHandler (i : Side) (ec : error_code) (bytes_written : nat) b
  : option (Bridge W) :=
  let b := set_writing i false b in
  b ← Drain_ i bytes_written b;
  let b :=
    if failed ec then up_net (shutdown_receive i) (set_unwritable i b) else b in
  let b :=
    if negb (readable (flags b i)) && (data_size_of i b =? 0)
    then up_net (shutdown_send i) (set_unwritable i b) else b in
  ForwardTraffic b.

Definition DestWriteHandler (ec : error_code) (n : nat) b := WriteHandler Upstream ec n b.
Definition ClientWriteHandler (ec : error_code) (n : nat) b := WriteHandler Downstream ec n b.

Definition write_handler (i : Side) : error_code → nat → Bridge W → option (Bridge W) :=
  match i with Upstream => DestWriteHandler | Downstream => ClientWriteHandler end.

Definition connection_succeed b : option (bool * Bridge W) :=
  '(ok, s, n) ← ConnectionSucceed bridge_callbacks (socks5 b) (net b);
  Some (ok, mkBridge (bufs b) s n (flags b)).

Definition ConnectHandler (ec : error_code) b : option (Bridge W) :=
  if failed ec then Some b else
  '(ok, b) ← connection_succeed b;
  if (ok : bool) then ForwardTraffic b else Some b.

(** [cancel] makes the pending wait on the client socket complete. *)
Definition AcceptInboundConnection b : option (Bridge W) :=
  '(ok, b) ← connection_succeed b;
  if (ok : bool) then ForwardTraffic b else Some b.

(** ** Events *)

Inductive Event :=
  | EvHandshakeRead (bs : list Z) (ec : error_code)
  | EvRead (i : Side) (bs : list Z) (ec : error_code)
  | EvWrite (i : Side) (n : nat) (ec : error_code)
  | EvConnect (ec : error_code)
  | EvAccept (ec : error_code)
  | EvWaitClient (canceled : bool).

(** The completion of an operation: what asio does with the buffers, then the
    handler.  [StopWaitingInbound] only cancels other operations. *)
Definition on_event (ev : Event) b : option (Bridge W) :=
  match ev with
  | EvHandshakeRead bs ec =>
      '(_, w) ← q_exec (bufs b) Upstream (OWrite bs);
      Socks5HandshakeHandler ec (length bs) (up_net (log_received Upstream bs) (up_bufs w b))
  | EvRead i bs ec =>
      '(_, w) ← q_exec (bufs b) i (OWrite bs);
      read_handler i ec (length bs) (up_net (log_received i bs) (up_bufs w b))
  | EvWrite i n ec =>
      '(r, w) ← q_exec (bufs b) i OSend;
      match r with
      | Bytes bs =>
          write_handler i ec n (up_net (log_forwarded i (take n bs)) (up_bufs w b))
      | _ => None
      end
  | EvConnect ec => ConnectHandler ec b
  | EvAccept ec => if failed ec then Some b else AcceptInboundConnection b
  | EvWaitClient canceled => Some b
  end.

(** The operation an event completes; asio never reads more than the buffers
    hold nor writes more than they contain. *)
Definition completes (ev : Event) (op : IoOp) : Prop :=
  match ev, op with
  | EvHandshakeRead bs _, HandshakeRead sz => length bs ≤ sz
  | EvRead i bs _, Read j sz => i = j ∧ length bs ≤ sz
  | EvWrite i n _, Write j sz => i = j ∧ n ≤ sz
  | EvConnect _, Connecting => True
  | EvAccept _, Accepting => True
  | EvWaitClient _, WaitingClient => True
  | _, _ => False
  end.

Definition event_bytes (ev : Event) : list Z :=
  match ev with EvHandshakeRead bs _ | EvRead _ bs _ => bs | _ => [] end.

(** A completion runs its handler; the answers of the synchronous calls may
    change at any time. *)
Inductive bstep (b : Bridge W) : Bridge W → Prop :=
  | bstep_event ev op b' :
      op ∈ io (net b) → completes ev op → Forall (λ z, is_u8 z) (event_bytes ev) →
      on_event ev (up_net (finish op) b) = Some b' → bstep b b'
  | bstep_environment n' :
      io n' = io (net b) → received n' = received (net b) → forwarded n' = forwarded (net b) →
      responses n' = responses (net b) → dialled n' = dialled (net b) →
      shut_send n' = shut_send (net b) → shut_receive n' = shut_receive (net b) →
      bstep b (mkBridge (bufs b) (socks5 b) n' (flags b)).

(** ** Invariant

    [rd i] and [wr i] are the sizes of the read and the write in progress in a
    direction.  Until [hs] ends, the upstream read belongs to the handshake,
    which takes the bytes [consumed] from the stream. *)

Record Ghost := mkGhost {
  hs : bool;
  rd : Side → option nat;
  wr : Side → option nat;
  connecting : bool;
  accepting : bool;
  waiting : bool;
  consumed : list Z
}.

Definition hs_in (g : Ghost) (i : Side) : bool := hs g && bool_decide (i = Upstream).

Definition consumed_in (g : Ghost) (i : Side) : list Z :=
  match i with Upstream => consumed g | Downstream => [] end.

Definition pending (g : Ghost) (op : IoOp) : Prop :=
  match op with
  | HandshakeRead n => hs g = true ∧ rd g Upstream = Some n
  | Read i n => hs_in g i = false ∧ rd g i = Some n
  | Write i n => wr g i = Some n
  | Connecting => connecting g = true
  | Accepting => accepting g = true
  | WaitingClient => waiting g = true
  end.

(** One direction: its flags, its queue, and what went through it. *)
Record dir_inv (f : Flags) (q : Queue) (recv fwd pre : list Z) (r w : option nat) (h : bool)
  : Prop := {
  di_bytes : Forall (λ z, is_u8 z) (q_data q);
  di_stream : recv = pre ++ fwd ++ q_data q;
  di_grant : q_grant q = (λ n, (n, [])) <$> r;
  di_grant_pos : ∀ n, r = Some n → 0 < n;
  di_peek : q_peek q = w;
  di_peek_le : ∀ n, w = Some n → n ≤ length (q_data q);
  di_reading : reading f = bool_decide (is_Some r) && negb h;
  di_writing : writing f = bool_decide (is_Some w)
}.

(** The states before a connection is made; the connect callback never
    succeeds at once, so [kResponse] is not among them. *)
Definition hs_state (s : Socks5State) : Prop := state_ s ≠ kResponse ∧ state_ s ≠ kSuccess.

Record binv b (a : Side → Queue) (g : Ghost) : Prop := {
  bi_rep : q_rep (bufs b) a;
  bi_dir : ∀ i, dir_inv (flags b i) (a i) (received (net b) i) (forwarded (net b) i)
                  (consumed_in g i) (rd g i) (wr g i) (hs_in g i);
  bi_io : ∀ op, op ∈ io (net b) ↔ pending g op;
  bi_socks5 : size_ok (socks5 b);
  bi_handshake : hs g = true →
    (∀ i, flags b i = initial_flags ∧ wr g i = None ∧ forwarded (net b) i = []) ∧
    rd g Downstream = None ∧
    (rd g Upstream ≠ None → connecting g = false ∧ accepting g = false) ∧
    (connecting g = true → state_ (socks5 b) = kWaitConnect) ∧
    (accepting g = true → state_ (socks5 b) = kWaitAccept ∨ state_ (socks5 b) = kFail);
  bi_forward : hs g = false → connecting g = false ∧ accepting g = false;
  bi_hs_state : hs g = true → hs_state (socks5 b)
}.

(** *** Buffer calls *)

Lemma insert_twice {A} (i : Side) (x y : A) (f : Side → A) j :
  (<[i := x]> (<[i := y]> f) : Side → A) j = (<[i := x]> f : Side → A) j.
Proof.
  destruct (decide (i = j)) as [->|]; [by rewrite !fn_lookup_insert|].
  by rewrite !fn_lookup_insert_ne.
Qed.

Lemma exec_reserve w (a : Side → Queue) i n :
  q_rep w a → q_grant (a i) = None →
  ∃ sz w', q_exec w i (OReserveAtLeast n) = Some (Size sz, w') ∧ n ≤ sz ∧
    q_rep w' (<[i := mkQueue (q_data (a i)) (Some (sz, [])) (q_peek (a i))]> a).
Proof.
  intros HR Hg. destruct (q_exec_ok w a i (OReserveAtLeast n) HR Hg) as (r&w'&ai&He&Hs&HR').
  inversion Hs; subst. eauto.
Qed.

Lemma exec_peek w (a : Side → Queue) i :
  q_rep w a → q_peek (a i) = None →
  ∃ w', q_exec w i OPeek = Some (Bytes (q_data (a i)), w') ∧
    q_rep w' (<[i := mkQueue (q_data (a i)) (q_grant (a i)) (Some (length (q_data (a i))))]> a).
Proof.
  intros HR Hg. destruct (q_exec_ok w a i OPeek HR Hg) as (r&w'&ai&He&Hs&HR').
  inversion Hs; subst. eauto.
Qed.

(** A read that completes with the bytes [bs], and its commit. *)
Lemma exec_read w (a : Side → Queue) i bs sz :
  q_rep w a → q_grant (a i) = Some (sz, []) → length bs ≤ sz → 0 < sz →
  ∃ w1 w2,
    q_exec w i (OWrite bs) = Some (NoOut, w1) ∧
    q_exec w1 i (OCommit (length bs)) = Some (NoOut, w2) ∧
    q_rep w2 (<[i := mkQueue (q_data (a i) ++ bs) None (q_peek (a i))]> a).
Proof.
  intros HR Hg Hle H0.
  destruct (q_exec_ok w a i (OWrite bs) HR) as (r&w1&ai&He1&Hs1&HR1); [by eexists _, _|].
  inversion Hs1 as [| |? n' w' Hg'| | | | | |]; subst. rewrite Hg in Hg'. injection Hg' as <- <-.
  rewrite drop_nil, app_nil_r in HR1.
  destruct (q_exec_ok w1 _ i (OCommit (length bs)) HR1) as (r&w2&ai&He2&Hs2&HR2).
  { simpl. rewrite fn_lookup_insert. simpl. eexists _, _. split_and!; [done|done|by right]. }
  exists w1, w2. rewrite fn_lookup_insert in *.
  inversion Hs2 as [| | |? n2 w2' Hg2| | | | |]; subst. simpl in Hg2. injection Hg2 as <- <-.
  split; [done|]. split; [done|]. simpl in HR2. rewrite firstn_all in HR2.
  eapply q_rep_ext; [|exact HR2]. intros ?. symmetry. apply insert_twice.
Qed.

(** A write that completes after [n] bytes, and its drain. *)
Lemma exec_write w (a : Side → Queue) i j n :
  q_rep w a → q_peek (a i) = Some j → j ≤ length (q_data (a i)) → n ≤ j →
  ∃ w1 w2,
    q_exec w i OSend = Some (Bytes (take j (q_data (a i))), w1) ∧
    q_exec w1 i (ODrain n) = Some (NoOut, w2) ∧
    q_rep w2 (<[i := mkQueue (drop n (q_data (a i))) (q_grant (a i)) None]> a).
Proof.
  intros HR Hp Hj Hn.
  destruct (q_exec_ok w a i OSend HR) as (r&w1&ai&He1&Hs1&HR1); [by eexists|].
  inversion Hs1 as [| | | | |j' Hp'| | |]; subst. rewrite Hp in Hp'. injection Hp' as <-.
  destruct (q_exec_ok w1 _ i (ODrain n) HR1) as (r&w2&ai&He2&Hs2&HR2).
  { simpl. rewrite fn_lookup_insert. split; [by eexists|lia]. }
  exists w1, w2. rewrite fn_lookup_insert in *. inversion Hs2; subst.
  split; [done|]. split; [done|].
  eapply q_rep_ext; [|exact HR2]. intros ?. symmetry. apply insert_twice.
Qed.

Lemma exec_copy_out w (a : Side → Queue) i n :
  q_rep w a → q_peek (a i) = None →
  ∃ w', q_exec w i (OCopyOut n) = Some (Bytes (take n (q_data (a i))), w') ∧
    q_rep w' (<[i := mkQueue (drop n (q_data (a i))) (q_grant (a i)) None]> a).
Proof.
  intros HR Hg. destruct (q_exec_ok w a i (OCopyOut n) HR Hg) as (r&w'&ai&He&Hs&HR').
  inversion Hs; subst. eauto.
Qed.

(** *** Forwarding *)

(** What [ForwardTraffic] leaves alone. *)
Record frame b (a : Side → Queue) b' (a' : Side → Queue) : Prop := {
  fr_received : received (net b') = received (net b);
  fr_forwarded : forwarded (net b') = forwarded (net b);
  fr_responses : responses (net b') = responses (net b);
  fr_shut_send : shut_send (net b') = shut_send (net b);
  fr_socks5 : socks5 b' = socks5 b;
  fr_data : ∀ i, q_data (a' i) = q_data (a i);
  fr_flags : ∀ i, readable (flags b' i) = readable (flags b i) ∧
                  writable (flags b' i) = writable (flags b i) ∧
                  (reading (flags b i) = true → reading (flags b' i) = true) ∧
                  (writing (flags b i) = true → writing (flags b' i) = true)
}.

Lemma frame_refl b a : frame b a b a.
Proof. split; try done. Qed.

Lemma frame_trans b1 a1 b2 a2 b3 a3 : frame b1 a1 b2 a2 → frame b2 a2 b3 a3 → frame b1 a1 b3 a3.
Proof.
  intros [] []. split; try congruence.
  intros s. destruct (fr_flags0 s) as (?&?&?&?), (fr_flags1 s) as (?&?&?&?).
  split_and!; try congruence; auto.
Qed.

(** A read is in progress whenever there is room for its bytes and a way to
    pass them on; a write whenever there is data and the destination takes it. *)
Definition read_started b (a : Side → Queue) (i : Side) : Prop :=
  readable (flags b i) = true → writable (flags b i) = true →
  length (q_data (a i)) < kMaxBufferSize → reading (flags b i) = true.

Definition write_started b (a : Side → Queue) (i : Side) : Prop :=
  writable (flags b i) = true → q_data (a i) ≠ [] → writing (flags b i) = true.

Lemma frame_read_started b a b' a' i :
  frame b a b' a' → read_started b a i → read_started b' a' i.
Proof.
  intros F Hr H1 H2 H3. destruct (fr_flags _ _ _ _ F i) as (E1&E2&Hm&_).
  rewrite (fr_data _ _ _ _ F) in H3. apply Hm, Hr; congruence.
Qed.

Lemma frame_write_started b a b' a' i :
  frame b a b' a' → write_started b a i → write_started b' a' i.
Proof.
  intros F Hr H1 H2. destruct (fr_flags _ _ _ _ F i) as (_&E2&_&Hm).
  rewrite (fr_data _ _ _ _ F) in H2. apply Hm, Hr; congruence.
Qed.

Definition with_rd (g : Ghost) (i : Side) (r : option nat) : Ghost :=
  mkGhost (hs g) (<[i := r]> (rd g)) (wr g) (connecting g) (accepting g) (waiting g) (consumed g).
Definition with_wr (g : Ghost) (i : Side) (r : option nat) : Ghost :=
  mkGhost (hs g) (rd g) (<[i := r]> (wr g)) (connecting g) (accepting g) (waiting g) (consumed g).

(** Splits the directions into the one that is updated and the other one. *)
Ltac dirs i j :=
  destruct (decide (i = j)) as [<-|?]; simpl;
  rewrite ?fn_lookup_insert, ?fn_lookup_insert_ne by done.

(** *** Operations started and finished *)

Lemma pending_read_start g i n op :
  rd g i = None → hs_in g i = false →
  pending (with_rd g i (Some n)) op ↔ op = Read i n ∨ pending g op.
Proof.
  intros Hr Hh. unfold hs_in in *. destruct op as [k|j k|j k| | |]; simpl; try (split; [by auto|by intros [|]]).
  - destruct i; simpl in *; [|by rewrite fn_lookup_insert_ne; [naive_solver|]].
    rewrite andb_true_r in Hh. rewrite Hh. naive_solver.
  - unfold hs_in. simpl. dirs i j; naive_solver.
Qed.

Lemma pending_handshake_start g n op :
  rd g Upstream = None → hs g = true →
  pending (with_rd g Upstream (Some n)) op ↔ op = HandshakeRead n ∨ pending g op.
Proof.
  intros Hr Hh. destruct op as [k|j k|j k| | |]; simpl; try (split; [by auto|by intros [|]]).
  - rewrite fn_lookup_insert. naive_solver.
  - unfold hs_in. simpl. rewrite Hh. dirs Upstream j; naive_solver.
Qed.

Lemma pending_write_start g i n op :
  wr g i = None → pending (with_wr g i (Some n)) op ↔ op = Write i n ∨ pending g op.
Proof.
  intros Hr. destruct op as [k|j k|j k| | |]; simpl; try (split; [by auto|by intros [|]]).
  dirs i j; naive_solver.
Qed.

Lemma pending_read_finish g i n op :
  rd g i = Some n → hs_in g i = false →
  pending (with_rd g i None) op ↔ op ≠ Read i n ∧ pending g op.
Proof.
  intros Hr Hh. unfold hs_in in *. destruct op as [k|j k|j k| | |]; simpl; try (by split; [auto|intros [??]]).
  - destruct i; simpl in *; [|by rewrite fn_lookup_insert_ne; [naive_solver|]].
    rewrite andb_true_r in Hh. rewrite Hh. naive_solver.
  - unfold hs_in. simpl. dirs i j; naive_solver.
Qed.

Lemma pending_handshake_finish g n op :
  rd g Upstream = Some n → hs g = true →
  pending (with_rd g Upstream None) op ↔ op ≠ HandshakeRead n ∧ pending g op.
Proof.
  intros Hr Hh. destruct op as [k|j k|j k| | |]; simpl; try (by split; [auto|intros [??]]).
  - rewrite fn_lookup_insert. naive_solver.
  - unfold hs_in. simpl. rewrite Hh. dirs Upstream j; naive_solver.
Qed.

Lemma pending_write_finish g i n op :
  wr g i = Some n → pending (with_wr g i None) op ↔ op ≠ Write i n ∧ pending g op.
Proof.
  intros Hr. destruct op as [k|j k|j k| | |]; simpl; try (by split; [auto|intros [??]]).
  dirs i j; naive_solver.
Qed.

Lemma try_read_inv i b a g :
  binv b a g → hs g = false →
  ∃ b' a' g', try_read i b = Some b' ∧ binv b' a' g' ∧ hs g' = false ∧ frame b a b' a' ∧
    consumed g' = consumed g ∧ read_started b' a' i.
Proof.
  intros I Hh. unfold try_read, data_size_of. rewrite (q_data_size_ok _ _ _ (bi_rep _ _ _ I)).
  destruct (negb (reading (flags b i)) && readable (flags b i) && writable (flags b i) &&
    (length (q_data (a i)) <? kMaxBufferSize)) eqn:Hc.
  2: { exists b, a, g. split_and!; try done. intros H1 H2 H3.
       rewrite H1, H2 in Hc. apply Nat.ltb_lt in H3. rewrite H3 in Hc. by destruct (reading _). }
  rewrite !andb_true_iff, negb_true_iff in Hc. destruct Hc as [[[Hr Hrd] Hwr] Hlt].
  assert (hs_in g i = false) as Hhi by (unfold hs_in; by rewrite Hh).
  destruct (bi_dir _ _ _ I i) as [D1 D2 D3 D4 D5 D6 D7 D8].
  assert (rd g i = None) as Hrs.
  { rewrite Hr, Hhi, andb_true_r in D7. symmetry in D7. apply bool_decide_eq_false_1 in D7.
    by apply eq_None_not_Some. }
  destruct (exec_reserve (bufs b) a i kReadSize (bi_rep _ _ _ I)) as (sz&w'&He&Hsz&HR).
  { by rewrite D3, Hrs. }
  unfold ReserveAtLeast_. rewrite He. simpl. eexists _, _, (with_rd g i (Some sz)).
  split; [done|]. split_and!; [|done| |done|].
  - split; [exact HR| | |apply I|simpl; by rewrite Hh|simpl; apply I|simpl; by rewrite Hh].
    + intros j. dirs i j; [|apply I]. split; simpl; try done.
      * intros n [= <-]. unfold kReadSize in Hsz. lia.
      * change (hs_in (with_rd g i (Some sz)) i) with (hs_in g i). by rewrite Hhi.
    + intros op. simpl io. rewrite elem_of_cons, (bi_io _ _ _ I). by rewrite pending_read_start.
  - split; try done; intros j; dirs i j; done.
  - intros _ _ _. simpl. by rewrite fn_lookup_insert.
Qed.

Lemma try_write_inv i b a g :
  binv b a g → hs g = false →
  ∃ b' a' g', try_write i b = Some b' ∧ binv b' a' g' ∧ hs g' = false ∧ frame b a b' a' ∧
    consumed g' = consumed g ∧ write_started b' a' i.
Proof.
  intros I Hh. unfold try_write, data_size_of. rewrite (q_data_size_ok _ _ _ (bi_rep _ _ _ I)).
  destruct (negb (writing (flags b i)) && writable (flags b i) && (0 <? length (q_data (a i))))
    eqn:Hc.
  2: { exists b, a, g. split_and!; try done. intros H1 H2. rewrite H1 in Hc.
       destruct (q_data (a i)); [done|]. by destruct (writing _). }
  rewrite !andb_true_iff, negb_true_iff in Hc. destruct Hc as [[Hw Hwr] Hlt].
  destruct (bi_dir _ _ _ I i) as [D1 D2 D3 D4 D5 D6 D7 D8].
  assert (wr g i = None) as Hws.
  { rewrite Hw in D8. symmetry in D8. apply bool_decide_eq_false_1 in D8.
    by apply eq_None_not_Some. }
  destruct (exec_peek (bufs b) a i (bi_rep _ _ _ I)) as (w'&He&HR); [congruence|].
  unfold Peek_. rewrite He. simpl. eexists _, _, (with_wr g i (Some (length (q_data (a i))))).
  split; [done|]. split_and!; [|done| |done|].
  - split; [exact HR| | |apply I|simpl; by rewrite Hh|simpl; apply I|simpl; by rewrite Hh].
    + intros j. dirs i j; [|apply I]. split; simpl; try done. by intros n [= <-].
    + intros op. simpl io. rewrite elem_of_cons, (bi_io _ _ _ I). by rewrite pending_write_start.
  - split; try done; intros j; dirs i j; done.
  - intros _ _. simpl. by rewrite fn_lookup_insert.
Qed.

(** No direction stalls. *)
Definition no_stall b (a : Side → Queue) : Prop :=
  ∀ i, read_started b a i ∧ write_started b a i.

Lemma ForwardTraffic_inv b a g :
  binv b a g → hs g = false →
  ∃ b' a' g', ForwardTraffic b = Some b' ∧ binv b' a' g' ∧ hs g' = false ∧ frame b a b' a' ∧
    consumed g' = consumed g ∧ no_stall b' a'.
Proof.
  intros I Hh. unfold ForwardTraffic.
  destruct (try_read_inv Upstream b a g I Hh) as (b1&a1&g1&->&I1&H1&F1&C1&S1). simpl.
  destruct (try_write_inv Downstream b1 a1 g1 I1 H1) as (b2&a2&g2&->&I2&H2&F2&C2&S2). simpl.
  destruct (try_read_inv Downstream b2 a2 g2 I2 H2) as (b3&a3&g3&->&I3&H3&F3&C3&S3). simpl.
  destruct (try_write_inv Upstream b3 a3 g3 I3 H3) as (b4&a4&g4&->&I4&H4&F4&C4&S4).
  exists b4, a4, g4. split_and!; try done.
  - eapply frame_trans; [exact F1|]. eapply frame_trans; [exact F2|]. by eapply frame_trans.
  - congruence.
  - intros []; split; try done.
    + eapply frame_read_started; [exact F4|]. eapply frame_read_started; [exact F3|].
      by eapply frame_read_started.
    + by eapply frame_read_started.
    + eapply frame_write_started; [exact F4|]. by eapply frame_write_started.
Qed.

(** The end of a stream is passed on: when the source of a direction ended and
    all of its bytes were delivered, the destination was told. *)
Definition half_close b (a : Side → Queue) : Prop :=
  ∀ i, readable (flags b i) = false → q_data (a i) = [] → shut_send (net b) i = true.

Lemma frame_half_close b a b' a' : frame b a b' a' → half_close b a → half_close b' a'.
Proof.
  intros F Hc i H1 H2. rewrite (fr_shut_send _ _ _ _ F). destruct (fr_flags _ _ _ _ F i) as (E&_).
  rewrite (fr_data _ _ _ _ F) in H2. apply Hc; congruence.
Qed.

(** The state between a completed read and [ForwardTraffic]. *)
Lemma read_done_inv b a g i bs sz :
  binv b a g → hs g = false → rd g i = Some sz → length bs ≤ sz → Forall (λ z, is_u8 z) bs →
  let n := net b in
  ∃ w1 w2,
    q_exec (bufs b) i (OWrite bs) = Some (NoOut, w1) ∧
    q_exec w1 i (OCommit (length bs)) = Some (NoOut, w2) ∧
    binv (set_reading i false
            (mkBridge w2 (socks5 b) (log_received i bs (finish (Read i sz) n)) (flags b)))
      (<[i := mkQueue (q_data (a i) ++ bs) None (q_peek (a i))]> a) (with_rd g i None).
Proof.
  intros I Hh Hrd Hle Hb. simpl. destruct (bi_dir _ _ _ I i) as [D1 D2 D3 D4 D5 D6 D7 D8].
  destruct (exec_read (bufs b) a i bs sz (bi_rep _ _ _ I)) as (w1&w2&He1&He2&HR);
    [by rewrite D3, Hrd|done|by apply D4|].
  exists w1, w2. split; [done|]. split; [done|].
  split; [exact HR| | |apply I|simpl; by rewrite Hh|simpl; apply I|simpl; by rewrite Hh].
  - intros j. dirs i j; [|apply I]. split; simpl; try done.
    + by apply Forall_app.
    + rewrite D2. by rewrite <-!app_assoc.
    + intros n Hn. rewrite length_app. apply D6 in Hn. lia.
  - intros op. simpl io. rewrite list_elem_of_filter, (bi_io _ _ _ I).
    rewrite (pending_read_finish g i sz); [done|done|]. unfold hs_in. by rewrite Hh.
Qed.

Lemma write_done_inv b a g i k sz :
  binv b a g → hs g = false → wr g i = Some sz → k ≤ sz →
  let n := net b in
  ∃ w1 w2,
    q_exec (bufs b) i OSend = Some (Bytes (take sz (q_data (a i))), w1) ∧
    q_exec w1 i (ODrain k) = Some (NoOut, w2) ∧
    binv (set_writing i false
            (mkBridge w2 (socks5 b)
               (log_forwarded i (take k (take sz (q_data (a i)))) (finish (Write i sz) n))
               (flags b)))
      (<[i := mkQueue (drop k (q_data (a i))) (q_grant (a i)) None]> a) (with_wr g i None).
Proof.
  intros I Hh Hwr Hle. simpl. destruct (bi_dir _ _ _ I i) as [D1 D2 D3 D4 D5 D6 D7 D8].
  destruct (exec_write (bufs b) a i sz k (bi_rep _ _ _ I)) as (w1&w2&He1&He2&HR);
    [congruence|by apply D6|done|].
  exists w1, w2. split; [done|]. split; [done|].
  split; [exact HR| | |apply I|simpl; by rewrite Hh|simpl; apply I|simpl; by rewrite Hh].
  - intros j. dirs i j; [|apply I]. split; simpl; try done.
    + by apply Forall_drop.
    + rewrite D2, take_take, Nat.min_l, <-app_assoc by lia. by rewrite take_drop.
  - intros op. simpl io. rewrite list_elem_of_filter, (bi_io _ _ _ I).
    by rewrite (pending_write_finish g i sz).
Qed.

(** Shutting a socket down and marking it does not touch the invariant. *)
Lemma binv_mark b b' a g :
  binv b a g → hs g = false → bufs b' = bufs b → socks5 b' = socks5 b →
  io (net b') = io (net b) → received (net b') = received (net b) →
  forwarded (net b') = forwarded (net b) →
  (∀ i, reading (flags b' i) = reading (flags b i) ∧ writing (flags b' i) = writing (flags b i)) →
  binv b' a g.
Proof.
  intros I Hh E1 E2 E3 E4 E5 E6.
  split; rewrite ?E1, ?E2; try apply I; [| |by rewrite Hh].
  - intros i. rewrite E4, E5. destruct (bi_dir _ _ _ I i), (E6 i) as [E7 E8].
    split; try done; congruence.
  - rewrite E3. apply I.
Qed.

Definition good b a g : Prop := binv b a g ∧ hs g = false ∧ half_close b a.

Lemma ForwardTraffic_good b a g :
  good b a g →
  ∃ b' a' g', ForwardTraffic b = Some b' ∧ good b' a' g' ∧ consumed g' = consumed g ∧
    no_stall b' a'.
Proof.
  intros (I&Hh&Hc). destruct (ForwardTraffic_inv b a g I Hh) as (b'&a'&g'&H1&H2&H3&H4&H5&H6).
  exists b', a', g'. split; [done|]. split; [|done]. split_and!; try done.
  by eapply frame_half_close.
Qed.

Lemma read_event_good b a g i sz bs ec :
  good b a g → Read i sz ∈ io (net b) → length bs ≤ sz → Forall (λ z, is_u8 z) bs →
  ∃ b' a' g', on_event (EvRead i bs ec) (up_net (finish (Read i sz)) b) = Some b' ∧
    good b' a' g' ∧ consumed g' = consumed g ∧ no_stall b' a'.
Proof.
  intros (I&Hh&Hc) Hin Hle Hb. apply (bi_io _ _ _ I) in Hin as [_ Hrd].
  destruct (read_done_inv b a g i bs sz I Hh Hrd Hle Hb) as (w1&w2&He1&He2&I').
  simpl on_event. rewrite He1. simpl.
  replace (read_handler i) with (ReadHandler i) by (by destruct i).
  unfold ReadHandler, Commit_. simpl. rewrite He2. simpl.
  change (consumed g) with (consumed (with_rd g i None)).
  set (b1 := set_reading i false _) in I'. set (a1 := <[i := _]> a) in I'.
  change (up_bufs w2 _) with b1.
  apply (ForwardTraffic_good _ a1). unfold data_size_of.
  assert (half_close b1 a1 ∨ readable (flags b1 i) = true) as Hc1.
  { destruct (readable (flags b1 i)) eqn:Er; [by right|left]. intros j. unfold b1, a1 in *.
    simpl in *. dirs i j; [|apply Hc]. rewrite fn_lookup_insert in Er. simpl in *.
    intros _ [Hd _]%app_eq_nil. by apply Hc. }
  assert (∀ j, i ≠ j → readable (flags b1 j) = false → q_data (a1 j) = [] →
    shut_send (net b1) j = true) as Hoth.
  { intros j Hne. unfold b1, a1. simpl. rewrite !fn_lookup_insert_ne by done. apply Hc. }
  clearbody b1 a1. destruct (failed ec).
  - change (bufs (set_unreadable i b1)) with (bufs b1).
    rewrite (q_data_size_ok _ _ _ (bi_rep _ _ _ I')).
    split_and!; [|done|].
    + destruct (_ =? 0); (eapply binv_mark; [exact I'|done..|]; intros j; simpl;
        by destruct (decide (i = j)) as [<-|]; rewrite ?fn_lookup_insert, ?fn_lookup_insert_ne by done).
    + intros j. destruct (Nat.eqb_spec (length (q_data (a1 i))) 0) as [Hz|Hz]; simpl.
      * dirs i j; [done|]. by apply Hoth.
      * dirs i j; [|by apply Hoth]. intros _ Hd. by rewrite Hd in Hz.
  - split_and!; [done|done|]. destruct Hc1 as [?|Hr]; [done|]. intros j.
    destruct (decide (i = j)) as [<-|]; [|by apply Hoth]. by rewrite Hr.
Qed.

Lemma write_event_good b a g i sz k ec :
  good b a g → Write i sz ∈ io (net b) → k ≤ sz →
  ∃ b' a' g', on_event (EvWrite i k ec) (up_net (finish (Write i sz)) b) = Some b' ∧
    good b' a' g' ∧ consumed g' = consumed g ∧ no_stall b' a'.
Proof.
  intros (I&Hh&Hc) Hin Hle. apply (bi_io _ _ _ I) in Hin as Hwr.
  destruct (write_done_inv b a g i k sz I Hh Hwr Hle) as (w1&w2&He1&He2&I').
  simpl on_event. rewrite He1. simpl.
  replace (write_handler i) with (WriteHandler i) by (by destruct i).
  unfold WriteHandler, Drain_. simpl. rewrite He2. simpl.
  change (consumed g) with (consumed (with_wr g i None)).
  set (b1 := set_writing i false _) in I'. set (a1 := <[i := _]> a) in I'.
  change (up_bufs w2 _) with b1.
  apply (ForwardTraffic_good _ a1).
  set (b2 := if failed ec then up_net (shutdown_receive i) (set_unwritable i b1) else b1).
  assert (∀ j, reading (flags b2 j) = reading (flags b1 j) ∧
    writing (flags b2 j) = writing (flags b1 j) ∧ readable (flags b2 j) = readable (flags b j) ∧
    shut_send (net b2) j = shut_send (net b) j) as Hb2.
  { intros j. unfold b2, b1. destruct (failed ec); simpl;
      (destruct (decide (i = j)) as [<-|];
       rewrite ?fn_lookup_insert, ?fn_lookup_insert_ne by done; done). }
  assert (binv b2 a1 (with_wr g i None)) as I2.
  { eapply binv_mark; [exact I'|done|..]; try (unfold b2; by destruct (failed ec)).
    intros j. by destruct (Hb2 j) as (?&?&_). }
  unfold data_size_of. rewrite (q_data_size_ok _ _ _ (bi_rep _ _ _ I2)). clearbody b2.
  assert (∀ j, i ≠ j → readable (flags b2 j) = false → q_data (a1 j) = [] →
    shut_send (net b2) j = true) as Hoth.
  { intros j Hne. destruct (Hb2 j) as (_&_&->&->). unfold a1. rewrite fn_lookup_insert_ne by done.
    apply Hc. }
  destruct (negb (readable (flags b2 i)) && (length (q_data (a1 i)) =? 0)) eqn:Hif.
  - split_and!; [|done|].
    + eapply binv_mark; [exact I2|done..|]. intros j. simpl.
      by destruct (decide (i = j)) as [<-|]; rewrite ?fn_lookup_insert, ?fn_lookup_insert_ne by done.
    + intros j. simpl. dirs i j; [done|]. by apply Hoth.
  - split_and!; [done|done|]. intros j. destruct (decide (i = j)) as [<-|]; [|by apply Hoth].
    intros Hr Hd. rewrite Hr, Hd in Hif. done.
Qed.

(** *** The handshake *)

(** The upstream buffer is a reader while no peek is outstanding; the
    downstream queue [qd] stays as it is. *)
Definition up_sim (qd : Queue) (w : W) (l : list Z) : Prop :=
  ∃ a : Side → Queue, q_rep w a ∧ a Upstream = mkQueue l None None ∧ a Downstream = qd.

#[local] Instance up_reader qd : Reader up_copy_out up_data_size (up_sim qd).
Proof.
  split.
  - intros w l n (a&HR&Hu&Hd). destruct (exec_copy_out w a Upstream n HR) as (w'&He&HR').
    { by rewrite Hu. }
    unfold up_copy_out. rewrite He. simpl. rewrite Hu in *. simpl in *.
    exists w'. split; [done|]. eexists. split; [exact HR'|].
    by rewrite fn_lookup_insert, fn_lookup_insert_ne.
  - intros w l (a&HR&Hu&Hd). unfold up_data_size. rewrite (q_data_size_ok _ _ _ HR). by rewrite Hu.
Qed.

Definition same_logs (n n' : Net) : Prop :=
  received n' = received n ∧ forwarded n' = forwarded n ∧ shut_send n' = shut_send n ∧
  shut_receive n' = shut_receive n.

(** The operations the callbacks may start, and the state after them. *)
Definition net_ext (n n' : Net) (s' : Socks5State) : Prop :=
  same_logs n n' ∧
  (io n' = io n ∨
   io n' = Connecting :: io n ∧ s' = mkSocks5 kWaitConnect 0 ∨
   io n' = WaitingClient :: Accepting :: io n ∧
     (s' = mkSocks5 kWaitAccept 0 ∨ s' = mkSocks5 kFail 0)).

Lemma CreateResp_net n r x n' : CreateResp bridge_callbacks n r = (x, n') → n' = n.
Proof.
  unfold CreateResp. simpl. destruct (if r then remote_endpoint n else local_endpoint n);
    by intros [= _ <-].
Qed.

Lemma call_response_net n bs st n' :
  call_response bridge_callbacks n bs = Some (st, n') → same_logs n n' ∧ io n' = io n.
Proof.
  unfold call_response. simpl. destruct (write_fails n); by intros [= _ <-].
Qed.

Lemma Proceed_net s (l : list Z) n go s' l' n' :
  Proceed list_copy_out length bridge_callbacks s l n = Some (go, s', l', n') →
  net_ext n n' s' ∧ (go = true → io n' = io n).
Proof.
  unfold Proceed. destruct (InsufficientBuffer length s l).
  { intros [= <- <- <- <-]. split; [|done]. split; [done|by left]. }
  assert (∀ s', net_ext n n s') as Hn by (intros; split; [done|by left]).
  destruct (state_ s); try (intros [= <- <- <- <-]; by eauto).
  - unfold on_greeting_header, fail, brk. simpl. intros Hp.
    repeat case_match; simplify_eq/=; by eauto.
  - unfold on_greeting_methods, fail, brk. simpl. intros Hp.
    repeat case_match; simplify_eq/=; try (by eauto); (split; [split; [done|by left]|done]).
  - unfold on_request_header, fail, brk. simpl. intros Hp.
    repeat case_match; simplify_eq/=; by eauto.
  - unfold on_request_addr_v4, connect. simpl. intros [= <- <- <- <-].
    split; [|done]. split; [done|]. right; left. done.
  - unfold on_request_addr_v6, connect. simpl. intros [= <- <- <- <-].
    split; [|done]. split; [done|]. right; left. done.
  - unfold on_request_bind. simpl. intros Hp. destruct (required_size_ s <? 2); [done|].
    unfold brk in Hp. simpl in Hp.
    destruct (acceptor n _); simplify_eq/=; [|split; [split; [done|by left]|done]].
    destruct (write_fails n); simplify_eq/=; (split; [|done]); (split; [done|]); right; right;
      (split; [done|]); by auto.
  - unfold on_response. intros Hp. destruct (CreateResp bridge_callbacks n false) as [r n1] eqn:Hr.
    apply CreateResp_net in Hr as ->. apply bind_Some in Hp as ([st n2]&Hc&Hp).
    apply call_response_net in Hc as [Hl Hio]. unfold fail, brk in Hp.
    case_bool_decide; simplify_eq/=; (split; [split; [done|by left]|done]).
Qed.

Lemma Proceed_hs_state s (l : list Z) n go s' l' n' :
  Proceed list_copy_out length bridge_callbacks s l n = Some (go, s', l', n') →
  hs_state s → hs_state s'.
Proof.
  unfold Proceed. intros Hp Hs. destruct (InsufficientBuffer length s l); [by simplify_eq/=|].
  unfold hs_state in *. destruct (state_ s) eqn:Es; try (by destruct Hs);
    unfold on_greeting_header, on_greeting_methods, on_request_header, on_request_addr_v4,
      on_request_addr_v6, on_request_bind, connect, call_response, fail, brk in Hp; simpl in Hp;
    repeat case_match; simplify_eq/=; rewrite ?Es; done.
Qed.

Lemma handshake_loop_hs_state fuel s (l : list Z) n s' l' n' :
  handshake_loop list_copy_out length bridge_callbacks fuel s l n = Some (s', l', n') →
  hs_state s → hs_state s'.
Proof.
  revert s l n. induction fuel as [|fuel IH]; intros s l n; simpl;
    (case_bool_decide; [by intros [= <- <- <-]|]); [done|].
  destruct (Proceed _ _ _ s l n) as [[[[go s1] l1] n1]|] eqn:HP; [|done]. simpl.
  intros Hr Hs. apply (Proceed_hs_state _ _ _ _ _ _ _ HP) in Hs. destruct go; [by eapply IH|].
  by injection Hr as <- <- <-.
Qed.

Lemma handshake_loop_net fuel s (l : list Z) n s' l' n' :
  handshake_loop list_copy_out length bridge_callbacks fuel s l n = Some (s', l', n') →
  net_ext n n' s'.
Proof.
  revert s l n. induction fuel as [|fuel IH]; intros s l n; simpl;
    (case_bool_decide; [intros [= <- <- <-]; split; [done|by left]|]); [done|].
  destruct (Proceed _ _ _ s l n) as [[[[go s1] l1] n1]|] eqn:HP; [|done]. simpl.
  destruct (Proceed_net _ _ _ _ _ _ _ HP) as [[Hl Hx] Hg]. destruct go.
  - intros Hr. destruct (IH _ _ _ Hr) as [Hl2 Hx2]. rewrite (Hg eq_refl) in Hx2.
    split; [|done]. destruct Hl as (?&?&?&?), Hl2 as (?&?&?&?). split_and!; congruence.
  - by intros [= <- <- <-].
Qed.

(** No read and no connection in progress: the handshake may go on. *)
Definition idle (g : Ghost) : Prop :=
  hs g = true ∧ rd g Upstream = None ∧ connecting g = false ∧ accepting g = false.

Lemma start_handshake_read_inv b a g :
  binv b a g → idle g →
  ∃ b' a' g', start_handshake_read b = Some b' ∧ binv b' a' g' ∧ hs g' = true ∧
    consumed g' = consumed g.
Proof.
  intros I (Hh&Hr&Hc&Ha). destruct (bi_dir _ _ _ I Upstream) as [D1 D2 D3 D4 D5 D6 D7 D8].
  destruct (exec_reserve (bufs b) a Upstream 1 (bi_rep _ _ _ I)) as (sz&w'&He&Hsz&HR);
    [by rewrite D3, Hr|].
  destruct (bi_handshake _ _ _ I Hh) as (B1&B2&B3&B4&B5).
  unfold start_handshake_read, ReserveAtLeast_. rewrite He. simpl.
  eexists _, _, (with_rd g Upstream (Some sz)). split; [done|]. split_and!; [|done|done].
  split; [exact HR| | |apply I|intros _; simpl; by rewrite fn_lookup_insert_ne|simpl; congruence|
    by intros _; apply (bi_hs_state _ _ _ I)].
  - intros j. dirs Upstream j; [|apply I]. split; simpl; try done.
    + intros n [= <-]. lia.
    + destruct (B1 Upstream) as (->&_). unfold hs_in. simpl. by rewrite Hh.
  - intros op. simpl io. rewrite elem_of_cons, (bi_io _ _ _ I). by rewrite pending_handshake_start.
Qed.

Lemma handshake_read_done_inv b a g bs sz :
  binv b a g → hs g = true → rd g Upstream = Some sz → length bs ≤ sz →
  Forall (λ z, is_u8 z) bs →
  ∃ w1 w2,
    q_exec (bufs b) Upstream (OWrite bs) = Some (NoOut, w1) ∧
    q_exec w1 Upstream (OCommit (length bs)) = Some (NoOut, w2) ∧
    idle (with_rd g Upstream None) ∧
    binv (mkBridge w2 (socks5 b)
            (log_received Upstream bs (finish (HandshakeRead sz) (net b))) (flags b))
      (<[Upstream := mkQueue (q_data (a Upstream) ++ bs) None (q_peek (a Upstream))]> a)
      (with_rd g Upstream None).
Proof.
  intros I Hh Hrd Hle Hb. destruct (bi_dir _ _ _ I Upstream) as [D1 D2 D3 D4 D5 D6 D7 D8].
  destruct (bi_handshake _ _ _ I Hh) as (B1&B2&B3&B4&B5). destruct B3 as [Hc Ha]; [congruence|].
  destruct (exec_read (bufs b) a Upstream bs sz (bi_rep _ _ _ I)) as (w1&w2&He1&He2&HR);
    [by rewrite D3, Hrd|done|by apply D4|].
  exists w1, w2. split; [done|]. split; [done|]. split.
  { by split_and!. }
  split; [exact HR| | |apply I|intros _; simpl; by rewrite fn_lookup_insert_ne|simpl; congruence|
    by intros _; apply (bi_hs_state _ _ _ I)].
  - intros j. dirs Upstream j; [|apply I]. split; simpl; try done.
    + by apply Forall_app.
    + rewrite D2. by rewrite <-!app_assoc.
    + intros n Hn. rewrite length_app. apply D6 in Hn. lia.
    + destruct (B1 Upstream) as (->&_). done.
  - intros op. simpl io. rewrite list_elem_of_filter, (bi_io _ _ _ I).
    by rewrite (pending_handshake_finish g sz).
Qed.

(** The ghost state after the callbacks of one run of the loop. *)
Definition after_loop (g : Ghost) (used : list Z) (n n' : Net) : Ghost :=
  mkGhost (hs g) (rd g) (wr g)
    (bool_decide (Connecting ∈ io n')) (bool_decide (Accepting ∈ io n'))
    (bool_decide (WaitingClient ∈ io n')) (consumed g ++ used).

Lemma handshake_loop_inv b a g :
  binv b a g → idle g →
  ∃ s w n a' g',
    handshake_loop up_copy_out up_data_size bridge_callbacks 7 (socks5 b) (bufs b) (net b)
      = Some (s, w, n) ∧
    binv (mkBridge w s n (flags b)) a' g' ∧ hs g' = true ∧ rd g' Upstream = None ∧
    (InsufficientBuffer up_data_size s w = true → idle g').
Proof.
  intros I (Hh&Hr&Hc&Ha). destruct (bi_dir _ _ _ I Upstream) as [D1 D2 D3 D4 D5 D6 D7 D8].
  destruct (bi_handshake _ _ _ I Hh) as (B1&B2&B3&B4&B5).
  destruct (B1 Upstream) as (Hf&Hw&Hfw).
  assert (up_sim (a Downstream) (bufs b) (q_data (a Upstream))) as Hsim.
  { exists a. split; [apply I|]. split; [|done]. rewrite Hr in D3. rewrite Hw in D5.
    destruct (a Upstream); simpl in *. by rewrite D3, D5. }
  destruct (handshake_loop_total bridge_callbacks ltac:(by eexists) ltac:(by eexists) 7
    (socks5 b) (q_data (a Upstream)) (net b)) as (s&l&n&HL&Hsz&_&Hsuf);
    [apply I|done|pose proof (rank_bound (socks5 b)); lia|].
  pose proof (handshake_loop_sim up_copy_out up_data_size (up_sim (a Downstream))
    bridge_callbacks 7 (socks5 b) (bufs b) (q_data (a Upstream)) (net b) Hsim) as HS.
  rewrite HL in HS. destruct (handshake_loop up_copy_out _ _ 7 _ _ _) as [[[s1 w1] n1]|]; [|done].
  destruct HS as (->&(a1&HR1&Hu1&Hd1)&->).
  destruct (handshake_loop_net _ _ _ _ _ _ _ HL) as [(L1&L2&L3&L4) Hio].
  destruct Hsuf as [used Hused].
  assert (∀ op, pending g op ↔ op ∈ io (net b)) as Hpend by (intros; symmetry; apply I).
  assert (Connecting ∉ io (net b) ∧ Accepting ∉ io (net b)) as [Hnc Hna].
  { split; rewrite (bi_io _ _ _ I); simpl; congruence. }
  exists s, w1, n, a1, (after_loop g used (net b) n). split; [done|]. split_and!; try done.
  - split; simpl; try done.
    + intros []; simpl.
      * rewrite L1, L2, Hu1. split; simpl; try done.
        -- rewrite Hused in D1. by apply Forall_app in D1 as [_ ?].
        -- rewrite D2, Hfw, Hused. by rewrite <-!app_assoc.
        -- by rewrite Hr.
        -- intros k. by rewrite Hw.
      * rewrite L1, L2, Hd1. apply (bi_dir _ _ _ I Downstream).
    + intros op. destruct op as [k|j k|j k| | |]; simpl; rewrite ?bool_decide_eq_true; try done;
        (destruct Hio as [->|[[-> _]|[-> _]]]; rewrite ?elem_of_cons, <-Hpend; naive_solver).
    + intros _. rewrite L2. split_and!; try done.
      * rewrite bool_decide_eq_true. destruct Hio as [->|[[-> ->]|[-> _]]]; [done|done|].
        rewrite !elem_of_cons. naive_solver.
      * rewrite bool_decide_eq_true. destruct Hio as [->|[[-> _]|[-> Hs]]]; [done| |].
        -- rewrite elem_of_cons. naive_solver.
        -- intros _. destruct Hs as [-> | ->]; auto.
    + congruence.
    + intros _. apply (handshake_loop_hs_state _ _ _ _ _ _ _ HL), (bi_hs_state _ _ _ I Hh).
  - intros Hins. unfold idle. simpl. split_and!; try done; apply bool_decide_eq_false_2.
    + destruct Hio as [->|[[-> ->]|[-> _]]]; [done| |rewrite !elem_of_cons; naive_solver].
      unfold InsufficientBuffer in Hins. simpl in Hins. by destruct (up_data_size w1).
    + destruct Hio as [->|[[-> _]|[-> Hs]]]; [done|rewrite elem_of_cons; naive_solver|].
      unfold InsufficientBuffer in Hins. by destruct Hs as [-> | ->], (up_data_size w1).
Qed.

(** *** The events *)

#[local] Arguments handshake_loop : simpl never.

(** What holds between events. *)
Definition ok b (a : Side → Queue) (g : Ghost) : Prop :=
  binv b a g ∧ (hs g = false → half_close b a ∧ no_stall b a).

Lemma ok_forward b a g :
  good b a g → ∃ b' a' g', ForwardTraffic b = Some b' ∧ ok b' a' g'.
Proof.
  intros HG. destruct (ForwardTraffic_good b a g HG) as (b'&a'&g'&H1&(H2&H3&H4)&_&H5).
  exists b', a', g'. by split_and!.
Qed.

Lemma handshake_event_ok b a g sz bs ec :
  ok b a g → HandshakeRead sz ∈ io (net b) → length bs ≤ sz → Forall (λ z, is_u8 z) bs →
  ∃ b' a' g', on_event (EvHandshakeRead bs ec) (up_net (finish (HandshakeRead sz)) b) = Some b' ∧
    ok b' a' g'.
Proof.
  intros [I _] Hin Hle Hb. apply (bi_io _ _ _ I) in Hin as [Hh Hrd].
  destruct (handshake_read_done_inv b a g bs sz I Hh Hrd Hle Hb) as (w1&w2&He1&He2&Hi&I').
  simpl on_event. rewrite He1. cbn [mbind option_bind]. unfold Socks5HandshakeHandler, Commit_.
  simpl. rewrite He2. cbn [mbind option_bind]. destruct (failed ec).
  { eexists _, _, _. split; [done|]. split; [exact I'|]. simpl. congruence. }
  destruct (handshake_loop_inv _ _ _ I' Hi) as (s&w&n&a2&g2&HL&I2&Hh2&Hr2&Hins).
  simpl in HL, I2 |- *. rewrite HL. cbn [mbind option_bind].
  destruct (InsufficientBuffer up_data_size s w) eqn:E.
  - destruct (start_handshake_read_inv _ _ _ I2 (Hins eq_refl)) as (b3&a3&g3&->&I3&Hh3&_).
    exists b3, a3, g3. split; [done|]. split; [done|]. congruence.
  - eexists _, _, _. split; [done|]. split; [exact I2|]. congruence.
Qed.

(** The ghost state when forwarding starts, and when an operation other than
    a read or a write ends. *)
Definition forward_ghost (g : Ghost) : Ghost :=
  mkGhost false (rd g) (wr g) false false (waiting g) (consumed g).
Definition end_op (op : IoOp) (g : Ghost) : Ghost :=
  mkGhost (hs g) (rd g) (wr g)
    (connecting g && bool_decide (op ≠ Connecting)) (accepting g && bool_decide (op ≠ Accepting))
    (waiting g && bool_decide (op ≠ WaitingClient)) (consumed g).

Lemma end_op_pending op g op' :
  (op = Connecting ∨ op = Accepting ∨ op = WaitingClient) →
  pending (end_op op g) op' ↔ op' ≠ op ∧ pending g op'.
Proof.
  intros Hop. destruct op' as [k|j k|j k| | |]; simpl; unfold hs_in; simpl;
    rewrite ?andb_true_iff, ?bool_decide_eq_true; destruct Hop as [-> | [-> | ->]]; naive_solver.
Qed.

Lemma finish_inv b a g op :
  binv b a g → (op = Connecting ∨ op = Accepting ∨ op = WaitingClient) →
  binv (up_net (finish op) b) a (end_op op g).
Proof.
  intros I Hop. split; simpl; try apply I.
  - intros op'. rewrite list_elem_of_filter, (bi_io _ _ _ I). by rewrite end_op_pending.
  - intros Hh. destruct (bi_handshake _ _ _ I Hh) as (B1&B2&B3&B4&B5).
    rewrite !andb_true_iff, !andb_false_iff. split_and!; try done; naive_solver.
  - intros Hh. destruct (bi_forward _ _ _ I Hh) as [-> ->]. done.
Qed.

Lemma finish_ok b a g op :
  ok b a g → (op = Connecting ∨ op = Accepting ∨ op = WaitingClient) →
  ok (up_net (finish op) b) a (end_op op g).
Proof. intros [I Hf] Hop. split; [by apply finish_inv|]. intros Hh. by apply Hf. Qed.

(** The connection is there: the response is sent and forwarding starts. *)
Lemma connection_inv b a g :
  binv b a g → idle g → state_ (socks5 b) = kWaitConnect ∨ state_ (socks5 b) = kWaitAccept →
  ∃ b' a' g', ('(ok, b) ← connection_succeed b; if (ok : bool) then ForwardTraffic b else Some b)
    = Some b' ∧ ok b' a' g'.
Proof.
  intros I (Hh&Hr&Hc&Ha) Hs. destruct (bi_handshake _ _ _ I Hh) as (B1&B2&_).
  pose proof (bi_socks5 _ _ _ I) as Hsz.
  assert (∃ n, connection_succeed b = Some (true,
      mkBridge (bufs b) (mkSocks5 kSuccess (required_size_ (socks5 b))) n (flags b)) ∧
    same_logs (net b) n ∧ io n = io (net b)) as (n&->&(L1&L2&L3&L4)&Hio).
  { unfold connection_succeed, ConnectionSucceed.
    destruct Hs as [-> | ->]; destruct (CreateResp bridge_callbacks (net b) _) as [r n1] eqn:Hr1;
      apply CreateResp_net in Hr1 as ->;
      (destruct (call_response bridge_callbacks (net b) r) as [[st n2]|] eqn:Hc2; [|done]);
      apply call_response_net in Hc2 as [HL Hio]; exists n2; simpl;
      (split; [by case_bool_decide|done]). }
  cbn [mbind option_bind]. apply (ok_forward _ a (forward_ghost g)). split_and!; [|done|].
  - split; simpl; try done; [apply I| | |].
    + intros i. rewrite L1, L2. destruct (bi_dir _ _ _ I i) as [D1 D2 D3 D4 D5 D6 D7 D8].
      split; try done. destruct (B1 i) as (->&_). simpl. unfold hs_in. simpl.
      rewrite andb_true_r. symmetry. apply bool_decide_eq_false_2. destruct i; rewrite ?Hr, ?B2;
      by apply is_Some_None || (intros [??]; done).
    + intros op. rewrite Hio, (bi_io _ _ _ I). destruct op as [k|j k|j k| | |]; simpl; try done.
      * rewrite Hr. naive_solver.
      * unfold hs_in. simpl. rewrite Hh. destruct j; simpl; [rewrite Hr|]; naive_solver.
      * by rewrite Hc.
      * by rewrite Ha.
    + unfold size_ok in *. simpl. destruct Hs as [Hs|Hs]; rewrite Hs in Hsz; lia.
  - intros i. simpl. by destruct (B1 i) as (->&_).
Qed.

Lemma connect_event_ok b a g ec :
  ok b a g → Connecting ∈ io (net b) →
  ∃ b' a' g', on_event (EvConnect ec) (up_net (finish Connecting) b) = Some b' ∧ ok b' a' g'.
Proof.
  intros HO Hin. pose proof HO as [I _]. apply (bi_io _ _ _ I) in Hin. simpl in Hin.
  destruct (hs g) eqn:Hh; [|destruct (bi_forward _ _ _ I Hh); congruence].
  destruct (bi_handshake _ _ _ I Hh) as (_&_&B3&B4&B5).
  destruct (finish_ok _ _ _ Connecting HO) as [I' HO']; [by auto|].
  simpl. unfold ConnectHandler. destruct (failed ec); [by eexists _, _, _|].
  assert (accepting g = false) as Ha.
  { destruct (accepting g); [|done]. destruct B5 as [Hs|Hs]; [done|rewrite B4 in Hs; done..]. }
  assert (rd g Upstream = None) as Hr.
  { destruct (rd g Upstream); [|done]. destruct B3; congruence. }
  apply (connection_inv _ _ _ I').
  - split_and!; simpl; [done|done|by rewrite andb_false_r|by rewrite Ha].
  - left. by apply B4.
Qed.

Lemma accept_event_ok b a g ec :
  ok b a g → Accepting ∈ io (net b) →
  ∃ b' a' g', on_event (EvAccept ec) (up_net (finish Accepting) b) = Some b' ∧ ok b' a' g'.
Proof.
  intros HO Hin. pose proof HO as [I _]. apply (bi_io _ _ _ I) in Hin. simpl in Hin.
  destruct (hs g) eqn:Hh; [|destruct (bi_forward _ _ _ I Hh); congruence].
  destruct (bi_handshake _ _ _ I Hh) as (_&_&B3&B4&B5).
  destruct (finish_ok _ _ _ Accepting HO) as [I' HO']; [by auto|].
  simpl. destruct (failed ec); [by eexists _, _, _|].
  assert (connecting g = false) as Hc.
  { destruct (connecting g); [|done]. destruct B5 as [Hs|Hs]; [done|rewrite B4 in Hs; done..]. }
  assert (rd g Upstream = None) as Hr.
  { destruct (rd g Upstream); [|done]. destruct B3; congruence. }
  unfold AcceptInboundConnection. destruct (B5 Hin) as [Hs|Hs].
  - apply (connection_inv _ _ _ I'); [|by right].
    split_and!; simpl; [done|done|by rewrite Hc|by rewrite andb_false_r].
  - unfold connection_succeed, ConnectionSucceed. simpl. rewrite Hs. simpl.
    eexists _, a, (end_op Accepting g). split; [done|]. split; [|simpl; congruence].
    destruct I' as [I1 I2 I3 I4 I5 I6 I7]. split; try done. intros _.
    destruct (I5 Hh) as (C1&C2&C3&C4&C5). split_and!; try done; simpl.
    + by rewrite Hc.
    + by rewrite andb_false_r.
Qed.

(** Every completion asio may report is handled. *)
Lemma on_event_ok b a g ev op :
  ok b a g → op ∈ io (net b) → completes ev op → Forall (λ z, is_u8 z) (event_bytes ev) →
  ∃ b' a' g', on_event ev (up_net (finish op) b) = Some b' ∧ ok b' a' g'.
Proof.
  intros HO Hin Hc Hb. destruct ev as [bs ec|i bs ec|i k ec|ec|ec|c], op as [sz|j sz|j sz| | |];
    simpl in Hc; try done.
  - by eapply handshake_event_ok.
  - destruct Hc as [<- Hc]. destruct HO as [I Hf].
    assert (hs g = false ∨ hs g = true ∧ i = Downstream) as [Hh|[Hh ->]].
    { pose proof Hin as Hp. apply (bi_io _ _ _ I) in Hp as [Hp _]. unfold hs_in in Hp.
      destruct (hs g), i; auto. }
    + destruct (read_event_good b a g i sz bs ec) as (b'&a'&g'&H1&(H2&H3&H4)&_&H5);
        [split_and!; [done..|by apply Hf]|done..|].
      exists b', a', g'. by split_and!.
    + destruct (bi_handshake _ _ _ I Hh) as (_&B2&_). apply (bi_io _ _ _ I) in Hin as [_ Hin].
      congruence.
  - destruct Hc as [<- Hc]. destruct HO as [I Hf]. destruct (hs g) eqn:Hh.
    + destruct (bi_handshake _ _ _ I Hh) as (B1&_). apply (bi_io _ _ _ I) in Hin. simpl in Hin.
      destruct (B1 i) as (_&?&_). congruence.
    + destruct (write_event_good b a g i sz k ec) as (b'&a'&g'&H1&(H2&H3&H4)&_&H5);
        [split_and!; [done..|by apply Hf]|done..|].
      exists b', a', g'. by split_and!.
  - by eapply connect_event_ok.
  - by eapply accept_event_ok.
  - simpl. eexists _, a, (end_op WaitingClient g). split; [done|]. apply finish_ok; [done|by auto].
Qed.

Lemma bstep_ok b a g b' : ok b a g → bstep b b' → ∃ a' g', ok b' a' g'.
Proof.
  intros HO Hs. destruct Hs as [ev op b' Hin Hc Hb He|n' E1 E2 E3 E4 E5 E6 E7].
  - destruct (on_event_ok b a g ev op HO Hin Hc Hb) as (b2&a2&g2&He2&HO2).
    rewrite He in He2. injection He2 as <-. eauto.
  - exists a, g. destruct HO as [[I1 I2 I3 I4 I5 I6 I7] Hf]. split.
    + split; simpl; rewrite ?E1, ?E2, ?E3; done.
    + intros Hh. destruct (Hf Hh) as [Hc Hn]. split; [|done]. intros i. simpl. rewrite E6. apply Hc.
Qed.

(** ** The life of a connection *)

Definition fresh_net (n : Net) : Prop :=
  io n = [] ∧ (∀ i, received n i = []) ∧ (∀ i, forwarded n i = []).

Definition new_bridge (w : W) (n : Net) : Bridge W :=
  mkBridge w Socks5State_init n (λ _, initial_flags).

Definition empty_ghost : Ghost := mkGhost true (λ _, None) (λ _, None) false false false [].

Lemma new_bridge_inv w n :
  q_rep w (λ _, empty_queue) → fresh_net n → binv (new_bridge w n) (λ _, empty_queue) empty_ghost.
Proof.
  intros HR (H1&H2&H3). split; simpl; try done.
  - intros i. rewrite H2, H3. split; simpl; try done. by destruct i.
  - intros op. rewrite H1. split; [by intros ?%elem_of_nil|]. destruct op; simpl; naive_solver.
Qed.

(** The states of a connection: the handshake is started, then events. *)
Definition reachable (w : W) (n : Net) b : Prop :=
  ∃ b0, PerformSocks5Handshake (new_bridge w n) = Some b0 ∧ rtc bstep b0 b.

Lemma reachable_ok w n b :
  q_rep w (λ _, empty_queue) → fresh_net n → reachable w n b → ∃ a g, ok b a g.
Proof.
  intros HR Hn (b0&H0&Hs).
  destruct (start_handshake_read_inv _ _ _ (new_bridge_inv w n HR Hn)) as (b1&a1&g1&Hp&I1&Hh&_).
  { by split_and!. }
  unfold PerformSocks5Handshake in H0. rewrite Hp in H0. injection H0 as ->.
  assert (ok b0 a1 g1) as HO by (split; [done|congruence]).
  clear -Hs HO. revert a1 g1 HO. induction Hs as [|x y z Hxy _ IH]; intros a1 g1 HO; [eauto|].
  destruct (bstep_ok _ _ _ _ HO Hxy) as (a2&g2&HO2). eauto.
Qed.

Section claims.
Context (w0 : W) (n0 : Net).
Context (Hw0 : q_rep w0 (λ _, empty_queue)) (Hn0 : fresh_net n0).

(** C17: A proxy connection never fails: in every state it can reach, the
    handler of every completion runs to its end; no buffer call breaks the
    contract of the buffers (a second reservation or peek, a commit of more
    than was reserved, a drain of more than was peeked), and the handshake
    starts. *)
Theorem bridge_never_fails :
  is_Some (PerformSocks5Handshake (new_bridge w0 n0)) ∧
  ∀ b ev op, reachable w0 n0 b → op ∈ io (net b) → completes ev op →
    Forall (λ z, is_u8 z) (event_bytes ev) →
    is_Some (on_event ev (up_net (finish op) b)).
Proof.
  split.
  - destruct (start_handshake_read_inv _ _ _ (new_bridge_inv w0 n0 Hw0 Hn0))
      as (b1&a1&g1&Hp&_); [by split_and!|]. by eexists.
  - intros b ev op Hr Hin Hc Hb. destruct (reachable_ok w0 n0 b Hw0 Hn0 Hr) as (a&g&HO).
    destruct (on_event_ok b a g ev op HO Hin Hc Hb) as (b'&_&_&He&_). by eexists.
Qed.


End claims.
End bridge.

(** ** The hypotheses are satisfiable

    By the proxy's own buffers, and by plain queues, over which a client asks
    for a connection in two parts. *)

Definition sample_net : Net :=
  mkNet [] (λ _, []) (λ _, []) [] [] (λ _, false) (λ _, false) false
    (Some (sockaddr_in [10; 0; 0; 1]%Z [0; 80]%Z)) None (λ _, None).

Definition sample_events : list (Event * IoOp) :=
  [(EvHandshakeRead [5]%Z ec_ok, HandshakeRead 1);
   (EvHandshakeRead [1]%Z ec_ok, HandshakeRead 1);
   (EvHandshakeRead [0]%Z ec_ok, HandshakeRead 1)] ++
  ((λ z, (EvHandshakeRead [z] ec_ok, HandshakeRead 1)) <$> [5; 1; 0; 1; 10; 0; 0; 7; 31; 144]%Z) ++
  [(EvConnect ec_ok, Connecting);
   (EvRead Downstream [7; 8; 9]%Z ec_eof, Read Downstream kReadSize);
   (EvWrite Downstream 2 ec_ok, Write Downstream 3)].

#[local] Instance completes_dec ev op : Decision (completes ev op).
Proof. destruct ev, op; simpl; apply _. Defined.

(** Runs events of which each completes an operation in progress. *)
Fixpoint run_events (b : Bridge (Side → Queue)) (evs : list (Event * IoOp))
  : option (Bridge (Side → Queue)) :=
  match evs with
  | [] => Some b
  | (ev, op) :: evs =>
      if bool_decide (op ∈ io (net b) ∧ completes ev op ∧
                      Forall (λ z, is_u8 z) (event_bytes ev))
      then b ← on_event ev (up_net (finish op) b); run_events b evs
      else None
  end.

Lemma run_events_steps evs b b' : run_events b evs = Some b' → rtc bstep b b'.
Proof.
  revert b. induction evs as [|[ev op] evs IH]; intros b; simpl; [by intros [= <-]|].
  case_bool_decide as Hb; [|done]. destruct Hb as (H1&H2&H3).
  intros (b1&He&Hr)%bind_Some. eapply rtc_l; [by econstructor|]. by apply IH.
Qed.

Definition no_queues : Side → Queue := λ _, empty_queue.

Lemma no_queues_rep : q_rep no_queues (λ _, empty_queue).
Proof. by intros i. Qed.

Definition run_bridge (n : Net) (evs : list (Event * IoOp)) : option (Bridge (Side → Queue)) :=
  b ← PerformSocks5Handshake (new_bridge no_queues n); run_events b evs.

Lemma sample_run_state :
  (λ b, (state_ (socks5 b), dialled (net b), responses (net b), forwarded (net b) Downstream))
    <$> run_bridge sample_net sample_events
  = Some (kSuccess, [sockaddr_in [10; 0; 0; 7] [31; 144]],
          [[5; 0]; [5; 0; 0; 1; 10; 0; 0; 1; 0; 80]], [7; 8])%Z.
Proof. vm_compute. reflexivity. Qed.

Lemma run_reachable evs n b :
  run_bridge n evs = Some b →
  reachable no_queues n b.
Proof.
  intros (b0&H0&Hr)%bind_Some. exists b0. split; [exact H0|]. eapply run_events_steps, Hr.
Qed.

Lemma sample_reachable :
  ∃ b, reachable no_queues sample_net b ∧ state_ (socks5 b) = kSuccess.
Proof.
  destruct (proj1 (fmap_Some _ _ _) sample_run_state) as (b&Hr&Hb).
  exists b. split; [exact (run_reachable _ _ _ Hr)|].
  exact (f_equal (λ x, x.1.1.1) (eq_sym Hb)).
Qed.

(** The proxy's own buffers, with blocks of forty bytes. *)
Abbreviation sample_queues := (Buffers_Queues 64 no_failure ltac:(lia) (λ _, eq_refl)).

Lemma two_empty_rep64 : @q_rep _ sample_queues two_empty (λ _, empty_queue).
Proof.
  exists (λ _, []), []. split; [|by intros i l Hl%elem_of_nil].
  intros i. exists [], None, None. split; [|done].
  apply (ProxyBufferSpec.rep_empty 64 no_blocks []); [apply no_blocks_freelist|constructor].
Qed.

Lemma bridge_never_fails_witness :
  is_Some (@PerformSocks5Handshake _ sample_queues (new_bridge two_empty sample_net)) ∧
  ∀ b ev op, @reachable _ sample_queues two_empty sample_net b → op ∈ io (net b) →
    completes ev op → Forall (λ z, is_u8 z) (event_bytes ev) →
    is_Some (@on_event _ sample_queues ev (up_net (finish op) b)).
Proof.
  apply (@bridge_never_fails _ sample_queues two_empty sample_net two_empty_rep64).
  by split_and!.
Defined.


