(* ===== verification/Containers.v ===== *)
(** * Containers: the LRU cache and the insertion-ordered map

    Models [cc/core/common/lru_cache/src/lru_cache.h] and
    [cc/roma/common/src/containers.h].  Both keep a hash map from keys to an
    iterator into a [std::list] of keys and a value.  A list node is an
    address with the key stored there, so that an iterator is an address; a
    default-constructed iterator is [None].  [None] as the result of an
    operation is undefined behaviour: an iterator that does not point into the
    list is dereferenced or erased. *)

From S2P Require Import Prelude.

Section containers.
(** [M] is [absl::flat_hash_map], a parameter: the laws of [FinMap] are what its documentation
    promises (it is a finite map whose iteration order is unspecified).  [v0] is a value-initialised
    [TVal]. *)
Context {K V : Type} {M : Type → Type} `{FM : FinMap K M} (v0 : V).

(** ** [std::list] *)

Abbreviation node := (nat * K)%type.
Abbreviation iterator := (option nat).

Definition list_erase (l : list node) (it : iterator) : option (list node) :=
  i ← it;
  if bool_decide (i ∈ l.*1) then Some (filter (λ n, n.1 ≠ i) l) else None.

Definition deref (l : list node) (it : iterator) : option K :=
  i ← it; p ← list_find (λ n, n.1 = i) l; Some p.2.2.

(** ** [LruCache] *)

Record LruCache := mkLru {
  capacity_ : nat;
  data_ : M (iterator * V);
  freshness_list_ : list node;
  next_node : nat
}.

Definition new_lru (capacity : nat) : LruCache := mkLru capacity ∅ [] 0.

(** The eviction at the start of [InternalSet]. *)
Definition evict (c : LruCache) (key : K) : option LruCache :=
  match data_ c !! key with
  | Some _ => Some c
  | None =>
      if size (data_ c) =? capacity_ c then
        n ← last (freshness_list_ c);
        Some (mkLru (capacity_ c) (delete n.2 (data_ c)) (removelast (freshness_list_ c))
                    (next_node c))
      else Some c
  end.

Definition InternalSet (c : LruCache) (key : K) (value : V) : option LruCache :=
  c ← evict c key;
  l ← match data_ c !! key with
      | Some (it, _) => list_erase (freshness_list_ c) it
      | None => Some (freshness_list_ c)
      end;
  let n := next_node c in
  Some (mkLru (capacity_ c) (<[key := (Some n, value)]> (data_ c)) ((n, key) :: l) (S n)).

Definition Lru_Set (c : LruCache) (key : K) (value : V) : option LruCache :=
  InternalSet c key value.

(** [data_[key]] inserts a default element for a missing key. *)
Definition index_data (d : M (iterator * V)) (key : K) : (iterator * V) * M (iterator * V) :=
  match d !! key with
  | Some e => (e, d)
  | None => ((None, v0), <[key := (None, v0)]> d)
  end.

Definition Lru_Get (c : LruCache) (key : K) : option (V * LruCache) :=
  let '(existing, d) := index_data (data_ c) key in
  let value := existing.2 in
  c ← InternalSet (mkLru (capacity_ c) d (freshness_list_ c) (next_node c)) key value;
  let '(e, d) := index_data (data_ c) key in
  Some (e.2, mkLru (capacity_ c) d (freshness_list_ c) (next_node c)).

Definition Lru_Size (c : LruCache) : nat := size (data_ c).
Definition Lru_Capacity (c : LruCache) : nat := capacity_ c.
Definition Lru_Contains (c : LruCache) (key : K) : bool := bool_decide (is_Some (data_ c !! key)).
Definition Lru_Clear (c : LruCache) : LruCache := mkLru (capacity_ c) ∅ [] (next_node c).
Definition Lru_GetAll (c : LruCache) : M V := snd <$> data_ c.

(** ** [roma::common::Map] *)

Record Map := mkMap {
  map_ : M (iterator * V);
  order_list_ : list node;
  next_order : nat
}.

Definition new_map : Map := mkMap ∅ [] 0.

Definition Map_Contains (m : Map) (key : K) : bool := bool_decide (is_Some (map_ m !! key)).

Definition Map_Set (m : Map) (key : K) (val : V) : Map :=
  match map_ m !! key with
  | None =>
      let n := next_order m in
      mkMap (<[key := (Some n, val)]> (map_ m)) (order_list_ m ++ [(n, key)]) (S n)
  | Some (it, _) => mkMap (<[key := (it, val)]> (map_ m)) (order_list_ m) (next_order m)
  end.

(** [order_list_.remove(x)] removes every node that holds [x]. *)
Definition Map_Delete (m : Map) (key : K) : option Map :=
  let '(val, d) := index_data (map_ m) key in
  k ← deref (order_list_ m) val.1;
  Some (mkMap (delete key d) (filter (λ n, n.2 ≠ k) (order_list_ m)) (next_order m)).

Definition Map_Get (m : Map) (key : K) : V * Map :=
  let '(e, d) := index_data (map_ m) key in
  (e.2, mkMap d (order_list_ m) (next_order m)).

Definition Map_Keys (m : Map) : list K := (order_list_ m).*2.
Definition Map_Clear (m : Map) : Map := mkMap ∅ [] (next_order m).
Definition Map_Size (m : Map) : nat := size (map_ m).

(** ** Well-formedness

    The map and the list agree: each key has the address of its one node. *)

Record wf (d : M (iterator * V)) (l : list node) (nxt : nat) : Prop := {
  wf_addr : NoDup l.*1;
  wf_keys : NoDup l.*2;
  wf_fresh : ∀ n, n ∈ l → n.1 < nxt;
  wf_data : ∀ k it, fst <$> d !! k = Some it ↔ ∃ i, it = Some i ∧ (i, k) ∈ l
}.

(** The entries in the order of the list. *)
Definition entries (d : M (iterator * V)) (l : list node) : list (K * V) :=
  omap (λ n, e ← d !! n.2; Some (n.2, e.2)) l.

Lemma wf_empty n : wf ∅ [] n.
Proof.
  split; [constructor|constructor|by intros ? ?%elem_of_nil|].
  intros k it. rewrite lookup_empty. split; [done|]. intros (i&_&Hi). by apply elem_of_nil in Hi.
Qed.

Lemma wf_in d l n i k : wf d l n → (i, k) ∈ l → ∃ v, d !! k = Some (Some i, v).
Proof.
  intros W Hi. assert (fst <$> d !! k = Some (Some i)) as Hd by (apply (wf_data _ _ _ W); eauto).
  destruct (d !! k) as [[it v]|]; simplify_eq/=. eauto.
Qed.

Lemma wf_lookup d l n k it v :
  wf d l n → d !! k = Some (it, v) → ∃ i, it = Some i ∧ (i, k) ∈ l.
Proof. intros W Hd. apply (wf_data _ _ _ W). by rewrite Hd. Qed.

Lemma wf_none d l n k : wf d l n → d !! k = None ↔ k ∉ l.*2.
Proof.
  intros W. split.
  - intros Hn ([i k']&->&Hin)%list_elem_of_fmap. destruct (wf_in _ _ _ _ _ W Hin) as [v Hd].
    simpl in *. congruence.
  - intros Hni. destruct (d !! k) as [[it v]|] eqn:E; [|done].
    destruct (wf_lookup _ _ _ _ _ _ W E) as (i&->&Hin). destruct Hni.
    apply list_elem_of_fmap. by exists (i, k).
Qed.

Lemma nodup_fst_inj {A B} (l : list (A * B)) x y y' :
  NoDup l.*1 → (x, y) ∈ l → (x, y') ∈ l → y = y'.
Proof.
  induction l as [|[a b] l IH]; intros Hnd Ha1 Ha2; [by apply elem_of_nil in Ha1|].
  apply NoDup_cons in Hnd as [Hni Hnd].
  apply elem_of_cons in Ha1 as [E1|Ha1]; apply elem_of_cons in Ha2 as [E2|Ha2]; simplify_eq/=; auto;
    destruct Hni; apply list_elem_of_fmap; by eexists (_, _).
Qed.

(** An address and a key determine each other. *)
Lemma wf_unique d l n i k j k' :
  wf d l n → (i, k) ∈ l → (j, k') ∈ l → i = j ↔ k = k'.
Proof.
  intros W Ha1 Ha2. split; intros ->.
  - by eapply nodup_fst_inj; [apply W|..].
  - destruct (wf_in _ _ _ _ _ W Ha1), (wf_in _ _ _ _ _ W Ha2). congruence.
Qed.

Lemma wf_size d l n : wf d l n → size d = length l.
Proof.
  intros W. rewrite <-(length_fmap snd), <-length_map_to_list, <-(length_fmap fst).
  apply Permutation_length, NoDup_Permutation; [apply NoDup_fst_map_to_list|apply W|].
  intros k. rewrite !list_elem_of_fmap. split.
  - intros ([k' [it v]]&->&Hd%elem_of_map_to_list).
    destruct (wf_lookup _ _ _ _ _ _ W Hd) as (i&->&Hin). by exists (i, k').
  - intros ([i k']&->&Hin). destruct (wf_in _ _ _ _ _ W Hin) as [v Hd].
    exists (k', (Some i, v)). by rewrite elem_of_map_to_list.
Qed.

(** *** The operations on the pair of map and list *)

(** Removing the node of a key, found by its address. *)
Lemma wf_remove d l n i k :
  wf d l n → (i, k) ∈ l → wf (delete k d) (filter (λ x, x.1 ≠ i) l) n.
Proof.
  intros W Hin. split.
  - eapply sublist_NoDup; [apply W|]. apply fmap_sublist, sublist_filter.
  - eapply sublist_NoDup; [apply W|]. apply fmap_sublist, sublist_filter.
  - intros x [_ Hx]%list_elem_of_filter. by apply (wf_fresh _ _ _ W).
  - intros k' it. destruct (decide (k = k')) as [<-|Hne].
    + rewrite lookup_delete_eq. split; [done|]. intros (j&_&[Hj Hjin]%list_elem_of_filter).
      destruct Hj. simpl. by apply (wf_unique _ _ _ _ _ _ _ W Hjin Hin).
    + rewrite lookup_delete_ne, (wf_data _ _ _ W) by done. split.
      * intros (j&->&Hj). exists j. split; [done|]. apply list_elem_of_filter. split; [|done].
        simpl. intros ->. apply Hne. symmetry. by apply (wf_unique _ _ _ _ _ _ _ W Hj Hin).
      * intros (j&->&[_ Hj]%list_elem_of_filter). eauto.
Qed.

(** A new node for a new key, at either end. *)
Lemma wf_add d l l' n k v :
  wf d l n → k ∉ l.*2 → l' ≡ₚ (n, k) :: l → wf (<[k := (Some n, v)]> d) l' (S n).
Proof.
  intros W Hk Hp. split.
  - rewrite Hp. simpl. apply NoDup_cons. split; [|apply W].
    intros ([i k']&->&Hin)%list_elem_of_fmap. apply (wf_fresh _ _ _ W) in Hin. simpl in Hin. lia.
  - rewrite Hp. simpl. apply NoDup_cons. split; [done|apply W].
  - intros x. rewrite Hp. intros [->|Hx]%elem_of_cons; simpl; [lia|].
    apply (wf_fresh _ _ _ W) in Hx. lia.
  - intros k' it. setoid_rewrite Hp. setoid_rewrite elem_of_cons.
    destruct (decide (k = k')) as [<-|Hne].
    + rewrite lookup_insert_eq. simpl. split.
      * intros [= <-]. eauto.
      * intros (i&->&[[= ->]|Hin]); [done|]. destruct Hk. apply list_elem_of_fmap. by exists (i, k).
    + rewrite lookup_insert_ne, (wf_data _ _ _ W) by done. split.
      * intros (i&->&Hin). eauto.
      * intros (i&->&[[= -> ->]|Hin]); [done|]. eauto.
Qed.

(** A new value for a key. *)
Lemma wf_update d l n k it v v' :
  wf d l n → d !! k = Some (it, v) → wf (<[k := (it, v')]> d) l n.
Proof.
  intros W Hd. split; try apply W. intros k' it'. rewrite <-(wf_data _ _ _ W).
  destruct (decide (k = k')) as [<-|Hne].
  - by rewrite lookup_insert_eq, Hd.
  - by rewrite lookup_insert_ne.
Qed.

Lemma entries_cons d n l :
  entries d (n :: l) = match d !! n.2 with Some e => (n.2, e.2) :: entries d l | None => entries d l end.
Proof. unfold entries. simpl. by destruct (d !! n.2). Qed.

Lemma entries_app d l1 l2 : entries d (l1 ++ l2) = entries d l1 ++ entries d l2.
Proof. unfold entries. by rewrite omap_app. Qed.

(** Entries only depend on the keys in the list. *)
Lemma entries_ext d d' l :
  (∀ k, k ∈ l.*2 → snd <$> d !! k = snd <$> d' !! k) → entries d l = entries d' l.
Proof.
  induction l as [|n l IH]; intros He; [done|]. rewrite !entries_cons.
  rewrite (IH (λ k Hk, He k (list_elem_of_further _ _ _ Hk))).
  assert (snd <$> d !! n.2 = snd <$> d' !! n.2) as E by (apply He; set_solver).
  destruct (d !! n.2) as [[??]|], (d' !! n.2) as [[??]|]; simplify_eq/=; done.
Qed.

(** Entries without a key. *)
Lemma entries_filter d l n i k :
  wf d l n → (i, k) ∈ l →
  entries d (filter (λ x, x.1 ≠ i) l) = filter (λ e, e.1 ≠ k) (entries d l).
Proof.
  intros W Hin.
  assert (∀ x, x ∈ l → x.1 = i ↔ x.2 = k) as Hu.
  { intros [j k'] Hx. by apply (wf_unique _ _ _ _ _ _ _ W). }
  clear W Hin. induction l as [|x l IH]; [done|].
  assert (x.1 = i ↔ x.2 = k) as Hx by (apply Hu; set_solver).
  specialize (IH (λ y Hy, Hu y (list_elem_of_further _ _ _ Hy))).
  rewrite entries_cons. destruct (decide (x.1 = i)) as [Hi|Hi].
  - rewrite filter_cons_False by (by intros ?). rewrite IH.
    destruct (d !! x.2); [|done]. rewrite filter_cons_False; [done|]. simpl. tauto.
  - rewrite filter_cons_True, entries_cons, IH by done. destruct (d !! x.2); [|done].
    rewrite filter_cons_True; [done|]. simpl. tauto.
Qed.

(** ** The cache refines a list ordered by last use *)

Definition lru_entries (c : LruCache) : list (K * V) := entries (data_ c) (freshness_list_ c).

Record lru_inv (c : LruCache) : Prop := {
  li_wf : wf (data_ c) (freshness_list_ c) (next_node c);
  li_size : size (data_ c) ≤ capacity_ c
}.

(** The most recent entry first; what exceeds the capacity is dropped. *)
Definition lru_put (cap : nat) (k : K) (v : V) (es : list (K * V)) : list (K * V) :=
  take cap ((k, v) :: filter (λ e, e.1 ≠ k) es).

Lemma entries_length d l n : wf d l n → length (entries d l) = length l.
Proof.
  intros W. assert (∀ x, x ∈ l → is_Some (d !! x.2)) as Hs.
  { intros [i k] Hin. destruct (wf_in _ _ _ _ _ W Hin) as [v Hv]. by eexists. }
  clear W. induction l as [|x l IH]; [done|]. rewrite entries_cons.
  destruct (Hs x) as [e ->]; [set_solver|]. simpl. f_equal. apply IH. set_solver.
Qed.

Lemma entries_keys d l n : wf d l n → (entries d l).*1 = l.*2.
Proof.
  intros W. assert (∀ x, x ∈ l → is_Some (d !! x.2)) as Hs.
  { intros [i k] Hin. destruct (wf_in _ _ _ _ _ W Hin) as [v Hv]. by eexists. }
  clear W. induction l as [|x l IH]; [done|]. rewrite entries_cons.
  destruct (Hs x) as [e ->]; [set_solver|]. simpl. f_equal. apply IH. set_solver.
Qed.

Lemma filter_not_in (k : K) (es : list (K * V)) :
  k ∉ es.*1 → filter (λ e, e.1 ≠ k) es = es.
Proof.
  induction es as [|e es IH]; intros Hk; [done|].
  rewrite filter_cons_True by set_solver. rewrite IH; [done|set_solver].
Qed.

Lemma insert_new_entries d l n k v :
  k ∉ l.*2 → entries (<[k := (Some n, v)]> d) ((n, k) :: l) = (k, v) :: entries d l.
Proof.
  intros Hk. rewrite entries_cons. simpl. rewrite lookup_insert_eq. simpl. f_equal.
  apply entries_ext. intros k' Hk'. rewrite lookup_insert_ne; [done|]. by intros ->.
Qed.

(** The cache after a hit, and after a miss with room. *)
Lemma InternalSet_hit c k it v v' :
  lru_inv c → data_ c !! k = Some (it, v) →
  ∃ c', InternalSet c k v' = Some c' ∧ lru_inv c' ∧ capacity_ c' = capacity_ c ∧
    lru_entries c' = (k, v') :: filter (λ e, e.1 ≠ k) (lru_entries c).
Proof.
  intros [W Hs] Hd. destruct (wf_lookup _ _ _ _ _ _ W Hd) as (i&->&Hin).
  unfold InternalSet, evict, list_erase. rewrite Hd. simpl. rewrite Hd. simpl.
  rewrite bool_decide_eq_true_2 by (apply list_elem_of_fmap; by exists (i, k)). simpl.
  eexists. split; [done|].
  pose proof (wf_remove _ _ _ _ _ W Hin) as W'.
  assert (k ∉ (filter (λ x, x.1 ≠ i) (freshness_list_ c)).*2) as Hk.
  { apply (wf_none _ _ _ _ W'). by rewrite lookup_delete_eq. }
  pose proof (wf_add _ _ _ _ _ v' W' Hk (Permutation_refl _)) as W2.
  rewrite insert_delete_eq in W2. split_and!; [|done|].
  - split; [exact W2|]. simpl. rewrite map_size_insert_Some; [done|by eexists].
  - unfold lru_entries. cbn [data_ freshness_list_]. rewrite insert_new_entries by done. f_equal.
    by eapply entries_filter.
Qed.

Lemma InternalSet_miss c k v :
  lru_inv c → data_ c !! k = None → size (data_ c) < capacity_ c →
  ∃ c', InternalSet c k v = Some c' ∧ lru_inv c' ∧ capacity_ c' = capacity_ c ∧
    lru_entries c' = (k, v) :: lru_entries c.
Proof.
  intros [W Hs] Hd Hlt. unfold InternalSet, evict. rewrite Hd.
  destruct (Nat.eqb_spec (size (data_ c)) (capacity_ c)); [lia|]. simpl. rewrite Hd. simpl.
  eexists. split; [done|]. assert (k ∉ (freshness_list_ c).*2) as Hk by (by eapply wf_none).
  pose proof (wf_add _ _ _ _ _ v W Hk (Permutation_refl _)) as W2. split_and!; [|done|].
  - split; [exact W2|]. simpl. rewrite map_size_insert_None by done. lia.
  - unfold lru_entries. cbn [data_ freshness_list_]. by apply insert_new_entries.
Qed.

(** Evicting the last entry of a full cache makes room. *)
Lemma evict_full c k :
  lru_inv c → data_ c !! k = None → size (data_ c) = capacity_ c → 0 < capacity_ c →
  ∃ c', evict c k = Some c' ∧ lru_inv c' ∧ capacity_ c' = capacity_ c ∧
    data_ c' !! k = None ∧ size (data_ c') < capacity_ c' ∧
    lru_entries c' = take (capacity_ c - 1) (lru_entries c).
Proof.
  intros [W Hs] Hd Hfull Hc0. unfold evict. rewrite Hd, Hfull, Nat.eqb_refl.
  pose proof (wf_size _ _ _ W) as Hsz.
  destruct (last_snoc_inv' (freshness_list_ c)) as (l&[i k']&E).
  { intros E. rewrite E in Hsz. simpl in Hsz. lia. }
  rewrite E, last_snoc. simpl. rewrite removelast_last. eexists. split; [done|]. rewrite E in *.
  assert (filter (λ x, x.1 ≠ i) (l ++ [(i, k')]) = l) as Hfl.
  { rewrite filter_app, filter_cons_False by (by intros ?). rewrite filter_nil, app_nil_r.
    apply list_filter_all. intros x Hx. pose proof (wf_addr _ _ _ W) as Hnd.
    rewrite fmap_app in Hnd. apply NoDup_app in Hnd as (_&Hdis&_). intros Hi.
    apply (Hdis i); [apply list_elem_of_fmap; by exists x|simpl; set_solver]. }
  assert ((i, k') ∈ l ++ [(i, k')]) as Hin by set_solver.
  pose proof (wf_remove _ _ _ _ _ W Hin) as W'. rewrite Hfl in W'.
  destruct (wf_in _ _ _ _ _ W Hin) as [v Hv].
  assert (size (delete k' (data_ c)) = capacity_ c - 1) as Hsz'.
  { rewrite map_size_delete_Some; [lia|by eexists]. }
  split_and!; [|done| |simpl; lia|].
  - split; [exact W'|]. simpl. lia.
  - simpl. apply lookup_delete_None. by right.
  - unfold lru_entries. cbn [data_ freshness_list_]. rewrite E, entries_app, entries_cons. simpl. rewrite Hv.
    rewrite take_app_length'.
    + apply entries_ext. intros k2 Hk2. rewrite lookup_delete_ne; [done|]. intros ->.
      pose proof (wf_keys _ _ _ W) as Hnd. rewrite fmap_app in Hnd.
      apply NoDup_app in Hnd as (_&Hdis&_). apply (Hdis k2); [done|]. simpl. set_solver.
    + pose proof (entries_length _ _ _ W) as Hl. rewrite entries_app, length_app in Hl.
      rewrite entries_cons in Hl. simpl in Hl. rewrite Hv in Hl. simpl in Hl.
      rewrite length_app in Hl, Hsz. simpl in *. lia.
Qed.

(** *** The abstract cache *)

Inductive LruOp := LSet (k : K) (v : V) | LGet (k : K) | LContains (k : K) | LSize | LGetAll | LClear.
Inductive LruOut := LUnit | LVal (v : V) | LBool (b : bool) | LNat (n : nat) | LMap (m : M V).

Definition lru_exec (c : LruCache) (o : LruOp) : option (LruOut * LruCache) :=
  match o with
  | LSet k v => c' ← Lru_Set c k v; Some (LUnit, c')
  | LGet k => r ← Lru_Get c k; Some (LVal r.1, r.2)
  | LContains k => Some (LBool (Lru_Contains c k), c)
  | LSize => Some (LNat (Lru_Size c), c)
  | LGetAll => Some (LMap (Lru_GetAll c), c)
  | LClear => Some (LUnit, Lru_Clear c)
  end.

Definition assoc (k : K) (es : list (K * V)) : option V := snd <$> find (λ e, bool_decide (e.1 = k)) es.

(** What the header promises: a list of entries, the most recently used first. *)
Definition lru_spec (cap : nat) (es : list (K * V)) (o : LruOp) : option (LruOut * list (K * V)) :=
  match o with
  | LSet k v => Some (LUnit, lru_put cap k v es)
  | LGet k => v ← assoc k es; Some (LVal v, lru_put cap k v es)
  | LContains k => Some (LBool (bool_decide (k ∈ es.*1)), es)
  | LSize => Some (LNat (length es), es)
  | LGetAll => Some (LMap (list_to_map es), es)
  | LClear => Some (LUnit, [])
  end.

Lemma assoc_lookup d l n k : wf d l n → assoc k (entries d l) = snd <$> d !! k.
Proof.
  intros W. destruct (d !! k) as [[it v]|] eqn:Hd; simpl.
  - destruct (wf_lookup _ _ _ _ _ _ W Hd) as (i&->&Hin). clear W.
    induction l as [|x l IH]; [by apply elem_of_nil in Hin|]. rewrite entries_cons.
    destruct (decide (x.2 = k)) as [Hx|Hx].
    + rewrite Hx, Hd. unfold assoc. simpl. by rewrite bool_decide_eq_true_2.
    + apply elem_of_cons in Hin as [<-|Hin]; [done|]. destruct (d !! x.2); [|by apply IH].
      unfold assoc. simpl. rewrite bool_decide_eq_false_2 by done. by apply IH.
  - apply (wf_none _ _ _ _ W) in Hd. rewrite <-(entries_keys _ _ _ W) in Hd. clear W.
    induction (entries d l) as [|e es IH]; [done|]. unfold assoc. simpl.
    rewrite bool_decide_eq_false_2 by set_solver. apply IH. set_solver.
Qed.

Definition lru_rel (cap : nat) (c : LruCache) (es : list (K * V)) : Prop :=
  lru_inv c ∧ 0 < cap ∧ capacity_ c = cap ∧ lru_entries c = es.

Lemma lru_size_entries c : lru_inv c → size (data_ c) = length (lru_entries c).
Proof. intros [W _]. unfold lru_entries. by rewrite (entries_length _ _ _ W), (wf_size _ _ _ W). Qed.

Lemma lru_contains c k : lru_inv c → is_Some (data_ c !! k) ↔ k ∈ (lru_entries c).*1.
Proof.
  intros [W _]. unfold lru_entries. rewrite (entries_keys _ _ _ W), <-not_eq_None_Some.
  rewrite (wf_none _ _ _ k W). split; [apply dec_stable|tauto].
Qed.

Lemma filter_shorter (k : K) (es : list (K * V)) :
  k ∈ es.*1 → length (filter (λ e, e.1 ≠ k) es) < length es.
Proof.
  intros ([k' v]&->&Hin)%list_elem_of_fmap. apply list_elem_of_split in Hin as (l1&l2&->).
  rewrite filter_app, filter_cons_False by (simpl; tauto). rewrite !length_app. simpl.
  pose proof (length_filter (λ e : K * V, e.1 ≠ k') l1).
  pose proof (length_filter (λ e : K * V, e.1 ≠ k') l2). lia.
Qed.

Lemma InternalSet_rel cap c es k v :
  lru_rel cap c es → ∃ c', InternalSet c k v = Some c' ∧ lru_rel cap c' (lru_put cap k v es) ∧
    data_ c' !! k = Some (Some (next_node c' - 1), v).
Proof.
  intros (I&Hcap&<-&<-).
  cut (∃ c', InternalSet c k v = Some c' ∧
         lru_rel (capacity_ c) c' (lru_put (capacity_ c) k v (lru_entries c))).
  { intros (c'&E&Hr). exists c'. split_and!; [done|done|]. unfold InternalSet in E.
    apply bind_Some in E as (c1&_&E). apply bind_Some in E as (l&_&E). simplify_eq/=.
    rewrite lookup_insert_eq, Nat.sub_0_r. done. }
  unfold lru_put. destruct (data_ c !! k) as [[it v1]|] eqn:Hd.
  - destruct (InternalSet_hit _ _ _ _ v I Hd) as (c'&E&I'&Hc&He). exists c'. split; [done|].
    split_and!; [done|done|done|]. rewrite He, take_ge; [done|].
    assert (k ∈ (lru_entries c).*1) as Hk by (apply lru_contains; [done|by eexists]).
    apply filter_shorter in Hk. pose proof (lru_size_entries _ I). pose proof (li_size _ I).
    simpl. lia.
  - rewrite filter_not_in by (by rewrite <-lru_contains, Hd by done; intros [? ?]).
    destruct (decide (size (data_ c) = capacity_ c)) as [Hfull|Hroom].
    + destruct (evict_full c k) as (c1&E1&I1&Hc1&Hd1&Hs1&He1); [done..|].
      destruct (InternalSet_miss c1 k v) as (c'&E&I'&Hc&He); [done..|]. exists c'. split.
      { unfold InternalSet in *. rewrite E1. simpl. rewrite Hd1. unfold evict in E. rewrite Hd1 in E.
        destruct (Nat.eqb_spec (size (data_ c1)) (capacity_ c1)); [lia|]. simpl in E. by rewrite Hd1 in E. }
      split_and!; [done|done|congruence|]. rewrite He, He1.
      destruct (capacity_ c); [lia|]. simpl. by rewrite Nat.sub_0_r.
    + destruct (InternalSet_miss c k v) as (c'&E&I'&Hc&He); [done|done|pose proof (li_size _ I); lia|].
      exists c'. split; [done|]. split_and!; [done|done|done|]. rewrite He, take_ge; [done|].
      pose proof (lru_size_entries _ I). pose proof (li_size _ I). simpl. lia.
Qed.

Lemma entries_elem d l n k v : wf d l n → (k, v) ∈ entries d l ↔ ∃ it, d !! k = Some (it, v).
Proof.
  intros W. unfold entries. rewrite list_elem_of_omap. split.
  - intros ([i k']&Hin&E). simpl in E. apply bind_Some in E as ([it v']&Hd&E). simplify_eq/=. eauto.
  - intros [it Hd]. destruct (wf_lookup _ _ _ _ _ _ W Hd) as (i&->&Hin). exists (i, k).
    split; [done|]. simpl. by rewrite Hd.
Qed.

Lemma GetAll_entries c : lru_inv c → Lru_GetAll c = list_to_map (lru_entries c).
Proof.
  intros [W _]. apply map_eq. intros k. unfold Lru_GetAll. rewrite lookup_fmap.
  destruct (list_to_map (lru_entries c) !! k) as [v|] eqn:E.
  - apply elem_of_list_to_map_2 in E. apply (entries_elem _ _ _ _ _ W) in E as [it ->]. done.
  - apply not_elem_of_list_to_map_2 in E. unfold lru_entries in E.
    rewrite (entries_keys _ _ _ W) in E. by apply (wf_none _ _ _ _ W) in E as ->.
Qed.

Lemma lru_step_sim cap c es o r es' :
  lru_rel cap c es → lru_spec cap es o = Some (r, es') →
  ∃ c', lru_exec c o = Some (r, c') ∧ lru_rel cap c' es'.
Proof.
  intros Hr Hs. pose proof Hr as (I&Hcap&Hc&He).
  destruct o as [k v|k|k| | |]; simplify_eq/=; try by eexists.
  - destruct (InternalSet_rel _ _ _ k v Hr) as (c'&E&Hr'&_). exists c'. split; [|done].
    unfold Lru_Set. by rewrite E.
  - apply bind_Some in Hs as (v&Ha&Hs). simplify_eq/=. unfold lru_entries in Ha.
    rewrite (assoc_lookup _ _ _ _ (li_wf _ I)) in Ha.
    apply fmap_Some in Ha as ([it v']&Hd&->). unfold Lru_Get, index_data. rewrite Hd.
    destruct (InternalSet_rel _ _ _ k v' Hr) as (c'&E&Hr'&Hd'). exists c'. split; [|done].
    destruct c. simpl in *. rewrite E. simpl. rewrite Hd'. simpl. by destruct c'.
  - exists c. split; [|done]. unfold Lru_Contains. do 3 f_equal. apply bool_decide_ext.
    by apply lru_contains.
  - exists c. split; [|done]. unfold Lru_Size. by rewrite lru_size_entries.
  - exists c. split; [|done]. by rewrite GetAll_entries.
  - eexists. split; [done|]. split_and!; [|done|done|done]. split; [apply wf_empty|].
    simpl. rewrite map_size_empty. lia.
Qed.

(** C31: from an empty cache of positive capacity, every sequence of calls whose [Get]s are for
    cached keys returns what the abstract cache returns: a list of at most [capacity] entries, the
    most recently used first, from which a [Set] or [Get] moves its key to the front and a full
    cache drops its last entry.  In particular no call of such a sequence dereferences or erases
    an invalid iterator. *)
Theorem lru_refines_recency_list (cap : nat) (os : list LruOp) rs es :
  0 < cap → run_ops (lru_spec cap) [] os = Some (rs, es) →
  ∃ c, run_ops lru_exec (new_lru cap) os = Some (rs, c) ∧ lru_entries c = es ∧
    Lru_Size c = length es ∧ length es ≤ cap.
Proof.
  intros Hcap Hrun.
  destruct (run_ops_sim lru_exec (lru_spec cap) (lru_rel cap)) with os (new_lru cap) (@nil (K * V)) rs es
    as (c&Hc&I&_&<-&<-); [|split_and!; [split|..]|done|]; try done.
  - intros c es' o r t' Hr Hs. by eapply lru_step_sim.
  - apply wf_empty.
  - simpl. rewrite map_size_empty. lia.
  - exists c. unfold Lru_Size. rewrite lru_size_entries by done. split_and!; [done..|].
    rewrite <-lru_size_entries by done. apply I.
Qed.

(** [Get] of a key that is not in the cache is undefined: [data_[key]] inserts a
    default-constructed iterator, which [InternalSet] then erases from the list. *)
Theorem lru_get_missing_undefined (c : LruCache) (k : K) :
  Lru_Contains c k = false → Lru_Get c k = None.
Proof.
  unfold Lru_Contains. intros Hn%bool_decide_eq_false. apply eq_None_not_Some in Hn.
  unfold Lru_Get, index_data. rewrite Hn. simpl.
  unfold InternalSet, evict, list_erase. simpl. rewrite lookup_insert_eq. simpl.
  by rewrite lookup_insert_eq.
Qed.

(** ** The map refines an association list in insertion order *)

Inductive MapOp :=
  MSet (k : K) (v : V) | MGet (k : K) | MDelete (k : K) | MContains (k : K) | MKeys | MSize | MClear.
Inductive MapOut := MUnit | MVal (v : V) | MBool (b : bool) | MNat (n : nat) | MList (ks : list K).

Definition map_exec (m : Map) (o : MapOp) : option (MapOut * Map) :=
  match o with
  | MSet k v => Some (MUnit, Map_Set m k v)
  | MGet k => let r := Map_Get m k in Some (MVal r.1, r.2)
  | MDelete k => m' ← Map_Delete m k; Some (MUnit, m')
  | MContains k => Some (MBool (Map_Contains m k), m)
  | MKeys => Some (MList (Map_Keys m), m)
  | MSize => Some (MNat (Map_Size m), m)
  | MClear => Some (MUnit, Map_Clear m)
  end.

(** An update keeps the key's place; a new key goes to the end. *)
Definition assoc_set (k : K) (v : V) (es : list (K * V)) : list (K * V) :=
  if bool_decide (k ∈ es.*1)
  then (λ e, if bool_decide (e.1 = k) then (k, v) else e) <$> es
  else es ++ [(k, v)].

Definition map_spec (es : list (K * V)) (o : MapOp) : option (MapOut * list (K * V)) :=
  match o with
  | MSet k v => Some (MUnit, assoc_set k v es)
  | MGet k => v ← assoc k es; Some (MVal v, es)
  | MDelete k =>
      if bool_decide (k ∈ es.*1) then Some (MUnit, filter (λ e, e.1 ≠ k) es) else None
  | MContains k => Some (MBool (bool_decide (k ∈ es.*1)), es)
  | MKeys => Some (MList es.*1, es)
  | MSize => Some (MNat (length es), es)
  | MClear => Some (MUnit, [])
  end.

Definition map_rel (m : Map) (es : list (K * V)) : Prop :=
  wf (map_ m) (order_list_ m) (next_order m) ∧ entries (map_ m) (order_list_ m) = es.

Lemma entries_contains d l n k : wf d l n → is_Some (d !! k) ↔ k ∈ (entries d l).*1.
Proof.
  intros W. rewrite (entries_keys _ _ _ W), <-not_eq_None_Some.
  rewrite (wf_none _ _ _ k W). split; [apply dec_stable|tauto].
Qed.

Lemma entries_update d l it k v v' :
  d !! k = Some (it, v) →
  entries (<[k := (it, v')]> d) l =
  (λ e, if bool_decide (e.1 = k) then (k, v') else e) <$> entries d l.
Proof.
  intros Hd. induction l as [|x l IH]; [done|]. rewrite !entries_cons, IH.
  destruct (decide (k = x.2)) as [->|Hne].
  - rewrite lookup_insert_eq, Hd. simpl. by rewrite bool_decide_eq_true_2.
  - rewrite lookup_insert_ne by done. destruct (d !! x.2); [|done]. simpl.
    by rewrite bool_decide_eq_false_2 by congruence.
Qed.

Lemma Map_Set_rel m es k v : map_rel m es → map_rel (Map_Set m k v) (assoc_set k v es).
Proof.
  intros [W <-]. unfold Map_Set, assoc_set.
  destruct (map_ m !! k) as [[it v1]|] eqn:Hd.
  - rewrite bool_decide_eq_true_2 by (apply (entries_contains _ _ _ _ W); by eexists).
    split; [by eapply wf_update|]. by eapply entries_update.
  - pose proof (proj1 (wf_none _ _ _ k W) Hd) as Hk.
    rewrite bool_decide_eq_false_2 by (by rewrite (entries_keys _ _ _ W)).
    split; [eapply wf_add; [done..|symmetry; apply Permutation_cons_append]|]. cbn [map_ order_list_].
    rewrite entries_app. f_equal.
    + apply entries_ext. intros k' Hk'. rewrite lookup_insert_ne; [done|]. by intros ->.
    + unfold entries. simpl. by rewrite lookup_insert_eq.
Qed.

Lemma deref_in d l n i k : wf d l n → (i, k) ∈ l → deref l (Some i) = Some k.
Proof.
  intros W Hin. unfold deref. simpl.
  destruct (list_find_elem_of (λ x : node, x.1 = i) l (i, k)) as [[j [i' k']] E]; [done|done|].
  rewrite E. simpl. apply list_find_Some in E as (Hj&Hi&_). simpl in Hi. subst i'.
  f_equal. eapply nodup_fst_inj; [apply W|by eapply list_elem_of_lookup_2|done].
Qed.

Lemma Map_Delete_rel m es k :
  map_rel m es → k ∈ es.*1 →
  ∃ m', Map_Delete m k = Some m' ∧ map_rel m' (filter (λ e, e.1 ≠ k) es).
Proof.
  intros [W <-] Hk. apply (entries_contains _ _ _ _ W) in Hk as [[it v] Hd].
  destruct (wf_lookup _ _ _ _ _ _ W Hd) as (i&->&Hin).
  unfold Map_Delete, index_data. rewrite Hd. cbn [fst]. rewrite (deref_in _ _ _ _ _ W Hin).
  eexists. split; [done|].
  assert (filter (λ n : node, n.2 ≠ k) (order_list_ m) = filter (λ n, n.1 ≠ i) (order_list_ m)) as ->.
  { apply list_filter_iff'. intros [j k'] Hx. simpl. by rewrite (wf_unique _ _ _ _ _ _ _ W Hx Hin). }
  pose proof (wf_remove _ _ _ _ _ W Hin) as W'. split; [done|]. cbn [map_ order_list_].
  rewrite <-(entries_filter _ _ _ _ _ W Hin). apply entries_ext. intros k' Hk'.
  rewrite lookup_delete_ne; [done|]. intros ->. revert Hk'. apply (wf_none _ _ _ _ W').
  by rewrite lookup_delete_eq.
Qed.

Lemma map_step_sim m es o r es' :
  map_rel m es → map_spec es o = Some (r, es') →
  ∃ m', map_exec m o = Some (r, m') ∧ map_rel m' es'.
Proof.
  intros Hr Hs. pose proof Hr as [W He]. destruct o as [k v|k|k|k| | |]; simplify_eq/=.
  - eexists. split; [done|]. by apply Map_Set_rel.
  - apply bind_Some in Hs as (v&Ha&Hs). simplify_eq/=. rewrite (assoc_lookup _ _ _ _ W) in Ha.
    apply fmap_Some in Ha as ([it v']&Hd&->). unfold Map_Get, index_data. rewrite Hd.
    eexists. split; [done|]. by split.
  - case_bool_decide; simplify_eq/=. destruct (Map_Delete_rel _ _ k Hr) as (m'&E&Hr'); [done|].
    exists m'. by rewrite E.
  - eexists. split; [|done]. unfold Map_Contains. do 3 f_equal. apply bool_decide_ext.
    by apply (entries_contains _ _ _ _ W).
  - eexists. split; [|done]. unfold Map_Keys. by rewrite (entries_keys _ _ _ W).
  - eexists. split; [|done]. unfold Map_Size. by rewrite (entries_length _ _ _ W), (wf_size _ _ _ W).
  - eexists. split; [done|]. split; [apply wf_empty|done].
Qed.

(** From an empty map, every sequence of calls whose [Get]s and [Delete]s are for keys of the
    map returns what an association list in insertion order returns: [Set] of a present key keeps
    its place and [Keys] lists the keys in the order of their first insertion. *)
Theorem map_refines_insertion_order (os : list MapOp) rs es :
  run_ops map_spec [] os = Some (rs, es) →
  ∃ m, run_ops map_exec new_map os = Some (rs, m) ∧ map_rel m es.
Proof.
  apply (run_ops_sim map_exec map_spec map_rel).
  - intros m es' o r t' Hr Hs. by eapply map_step_sim.
  - split; [apply wf_empty|done].
Qed.

(** [Get] of a missing key leaves the map and its key list out of step: the key then counts as
    contained, no later [Set] of it ever reaches [Keys], and [Delete] of it is undefined. *)
Theorem map_get_missing_corrupts (m : Map) (k : K) (vs : list V) :
  Map_Contains m k = false → k ∉ Map_Keys m →
  let m' := foldl (λ m v, Map_Set m k v) (Map_Get m k).2 vs in
  Map_Contains m' k = true ∧ Map_Keys m' = Map_Keys m ∧ Map_Delete m' k = None.
Proof.
  intros Hn%bool_decide_eq_false Hk. apply eq_None_not_Some in Hn.
  unfold Map_Get, index_data. rewrite Hn. simpl.
  set (m1 := mkMap _ _ _).
  assert (∃ v, map_ m1 !! k = Some (None, v)) as Ha1 by (exists v0; apply lookup_insert_eq).
  assert (Map_Keys m1 = Map_Keys m) as Ha2 by done. clearbody m1. revert m1 Ha1 Ha2.
  induction vs as [|v vs IH]; intros m1 [v1 Ha1] Ha2; simpl.
  - unfold Map_Contains, Map_Delete, index_data. rewrite Ha1.
    split_and!; [|done|done]. by rewrite bool_decide_eq_true_2.
  - unfold Map_Set at 2 4 6. rewrite Ha1. apply IH; [|done]. exists v. apply lookup_insert_eq.
Qed.
End containers.

(** ** Witnesses *)

Lemma lru_refines_recency_list_witness :
  ∃ c, run_ops (lru_exec (V:=Z) (M:=gmap nat) 0%Z) (new_lru 2)
         [LSet 1 10%Z; LSet 2 20%Z; LGet 1; LSet 3 30%Z; LContains 2; LContains 1]
       = Some ([LUnit; LUnit; LVal 10%Z; LUnit; LBool false; LBool true], c) ∧
    lru_entries c = [(3, 30%Z); (1, 10%Z)] ∧ Lru_Size c = 2 ∧ 2 ≤ 2.
Proof. apply (lru_refines_recency_list 0%Z 2); [lia|vm_compute; reflexivity]. Defined.

Lemma lru_get_missing_undefined_witness :
  Lru_Contains (V:=Z) (M:=gmap nat) (new_lru 4) 7 = false ∧ Lru_Get 0%Z (new_lru (M:=gmap nat) 4) 7 = None.
Proof. split; [vm_compute; reflexivity|]. apply (lru_get_missing_undefined 0%Z). vm_compute. reflexivity. Defined.

Lemma map_refines_insertion_order_witness :
  ∃ m, run_ops (map_exec (V:=Z) (M:=gmap nat) 0%Z) new_map [MSet 5 1%Z; MSet 3 2%Z; MSet 5 9%Z; MKeys; MDelete 5; MKeys]
       = Some ([MUnit; MUnit; MUnit; MList [5; 3]; MUnit; MList [3]], m) ∧ map_rel m [(3, 2%Z)].
Proof. apply (map_refines_insertion_order 0%Z). vm_compute. reflexivity. Defined.

Lemma map_get_missing_corrupts_witness :
  let m' := foldl (λ m v, Map_Set m 5 v) (Map_Get 0%Z (new_map (M:=gmap nat)) 5).2 [8%Z] in
  Map_Contains m' 5 = true ∧ Map_Keys m' = [] ∧ Map_Delete 0%Z m' 5 = None.
Proof.
  apply (map_get_missing_corrupts 0%Z (new_map (M:=gmap nat)) 5 [8%Z]); [vm_compute; reflexivity|].
  apply not_elem_of_nil.
Defined.
