(* ===== verification/ExpiryMap.v ===== *)
(** * ExpiryMap: the concurrent map and its garbage-collected variant

    Models [cc/core/common/concurrent_map/src/concurrent_map.h] and
    [cc/core/common/auto_expiry_concurrent_map/src/auto_expiry_concurrent_map.h].

    The map is shared by client threads, the thread that runs the garbage
    collector and the threads that answer its callbacks.  A state is the shared
    memory with the threads that are in the middle of an operation; an event
    runs one thread to its next point of interference.  The critical sections
    are those of the code: a call on the concurrent map, a section under a
    record's lock, a section under [sync_mutex], one access of the atomic
    counter.  The record lock is free between events, but [try_lock] may fail
    in the code while a client holds it, so its outcome is part of the event. *)

From S2P Require Import Prelude ExecResult.

Abbreviation SC_CONCURRENT_MAP := 0x0004%Z (only parsing).
Abbreviation SC_CONCURRENT_MAP_ENTRY_ALREADY_EXISTS := (MakeErrorCode SC_CONCURRENT_MAP 0x0001).
Abbreviation SC_CONCURRENT_MAP_ENTRY_DOES_NOT_EXIST := (MakeErrorCode SC_CONCURRENT_MAP 0x0002).
Abbreviation SC_AUTO_EXPIRY_CONCURRENT_MAP := 0x0015%Z (only parsing).
Abbreviation SC_AUTO_EXPIRY_CONCURRENT_MAP_CANNOT_SCHEDULE := (MakeErrorCode SC_AUTO_EXPIRY_CONCURRENT_MAP 0x0001).
Abbreviation SC_AUTO_EXPIRY_CONCURRENT_MAP_INVALID_EXPIRATION := (MakeErrorCode SC_AUTO_EXPIRY_CONCURRENT_MAP 0x0002).
Abbreviation SC_AUTO_EXPIRY_CONCURRENT_MAP_ENTRY_BEING_DELETED := (MakeErrorCode SC_AUTO_EXPIRY_CONCURRENT_MAP 0x0004).
Abbreviation SC_AUTO_EXPIRY_CONCURRENT_MAP_STOP_INCOMPLETE := (MakeErrorCode SC_AUTO_EXPIRY_CONCURRENT_MAP 0x0005).

(** ** [ConcurrentMap]

    [M] is [tbb::concurrent_hash_map], a parameter: each of its calls is
    atomic, and the laws of [FinMap] are the ones of its sequential
    specification.  The out parameter is left alone when it is not assigned. *)
Section concurrent_map.
Context {K X : Type} {M : Type → Type} `{FM : FinMap K M}.

Definition CM_Insert (m : M X) (key : K) (x : X) : ExecutionResult * X * M X :=
  match m !! key with
  | Some y => (FailureExecutionResult SC_CONCURRENT_MAP_ENTRY_ALREADY_EXISTS, y, m)
  | None => (SuccessExecutionResult, x, <[key := x]> m)
  end.

Definition CM_Find (m : M X) (key : K) : ExecutionResult * option X :=
  match m !! key with
  | Some y => (SuccessExecutionResult, Some y)
  | None => (FailureExecutionResult SC_CONCURRENT_MAP_ENTRY_DOES_NOT_EXIST, None)
  end.

Definition CM_Erase (m : M X) (key : K) : ExecutionResult * M X :=
  match m !! key with
  | Some _ => (SuccessExecutionResult, delete key m)
  | None => (FailureExecutionResult SC_CONCURRENT_MAP_ENTRY_DOES_NOT_EXIST, m)
  end.

Definition CM_Keys (m : M X) : ExecutionResult * list K := (SuccessExecutionResult, (map_to_list m).*1).
Definition CM_Size (m : M X) : nat := size m.
End concurrent_map.

(** ** [AutoExpiryConcurrentMap] *)

Section expiry_map.
Context {K V : Type} {M : Type → Type} `{FM : FinMap K M}.
(** The constructor's arguments. *)
Context (map_entry_lifetime_seconds_ : Z) (extend_entry_lifetime_on_access_ : bool)
        (block_entry_while_eviction_ : bool).

Definition nanos (seconds : Z) : Z := seconds * 1000000000.

Record Entry := mkEntry {
  entry : V;
  being_evicted : bool;
  is_evictable : bool;
  expiration_time : Z
}.

Definition new_entry (now : Z) (v : V) (expiration_in_seconds : Z) : Entry :=
  mkEntry v false true (now + nanos expiration_in_seconds).

Definition ExtendExpiration (now : Z) (e : Entry) (expiration_seconds : Z) : ExecutionResult * Entry :=
  if (expiration_seconds =? 0)%Z
  then (FailureExecutionResult SC_AUTO_EXPIRY_CONCURRENT_MAP_INVALID_EXPIRATION, e)
  else if being_evicted e
  then (FailureExecutionResult SC_AUTO_EXPIRY_CONCURRENT_MAP_ENTRY_BEING_DELETED, e)
  else (SuccessExecutionResult,
        mkEntry (entry e) (being_evicted e) (is_evictable e) (now + nanos expiration_seconds)).

Definition IsExpired (now : Z) (e : Entry) : bool := (expiration_time e <? now)%Z.

Definition set_being_evicted (b : bool) (e : Entry) : Entry :=
  mkEntry (entry e) b (is_evictable e) (expiration_time e).
Definition set_is_evictable (b : bool) (e : Entry) : Entry :=
  mkEntry (entry e) (being_evicted e) b (expiration_time e).

(** A [shared_ptr] to a record is its index among the records ever made. *)
Abbreviation rid := nat.

(** The collector's thread: reading the keys (with the record just found for
    one of them, not yet locked), or calling the client for each element. *)
Inductive GcThread :=
  | GcIdle
  | GcCollect (keys : list K) (found : option (K * rid)) (elements_to_remove : list (K * rid))
  | GcNotify (elements_to_remove : list (K * rid)).

(** A callback of one element: not called yet, about to clear the flag, about
    to decrement the counter, about to schedule. *)
Inductive CbThread :=
  | CbWaiting (kv : K * rid)
  | CbUnmark (kv : K * rid)
  | CbDecrement
  | CbSchedule.

(** Client calls that have found their record and not locked it yet. *)
Inductive Access := AInsert | AFind | ADisable | AEnable.

(** The thread in [Stop]. *)
Inductive StopThread := StopIdle | StopCancel | StopWait | Stopped (r : ExecutionResult).

Record State := mkState {
  now : Z;
  concurrent_map_ : M rid;
  records : list Entry;
  pending_ : Z;  (* [pending_garbage_collection_callbacks_] *)
  is_running_ : bool;
  scheduled : nat;  (* collector runs the executor holds *)
  cancellation : bool;  (* [current_cancellation_callback_] is set *)
  stop : StopThread;
  gc : GcThread;
  cbs : list CbThread;
  accesses : list (Access * rid)
}.

Definition new_state (t : Z) : State := mkState t ∅ [] 0 false 0 false StopIdle GcIdle [] [].

Definition set_now (x : Z) (s : State) : State :=
  mkState x (concurrent_map_ s) (records s) (pending_ s) (is_running_ s) (scheduled s)
    (cancellation s) (stop s) (gc s) (cbs s) (accesses s).
Definition set_map (x : M rid) (s : State) : State :=
  mkState (now s) x (records s) (pending_ s) (is_running_ s) (scheduled s) (cancellation s)
    (stop s) (gc s) (cbs s) (accesses s).
Definition set_records (x : list Entry) (s : State) : State :=
  mkState (now s) (concurrent_map_ s) x (pending_ s) (is_running_ s) (scheduled s)
    (cancellation s) (stop s) (gc s) (cbs s) (accesses s).
Definition set_pending (x : Z) (s : State) : State :=
  mkState (now s) (concurrent_map_ s) (records s) x (is_running_ s) (scheduled s)
    (cancellation s) (stop s) (gc s) (cbs s) (accesses s).
Definition set_running (x : bool) (s : State) : State :=
  mkState (now s) (concurrent_map_ s) (records s) (pending_ s) x (scheduled s) (cancellation s)
    (stop s) (gc s) (cbs s) (accesses s).
Definition set_scheduled (x : nat) (s : State) : State :=
  mkState (now s) (concurrent_map_ s) (records s) (pending_ s) (is_running_ s) x
    (cancellation s) (stop s) (gc s) (cbs s) (accesses s).
Definition set_cancellation (x : bool) (s : State) : State :=
  mkState (now s) (concurrent_map_ s) (records s) (pending_ s) (is_running_ s) (scheduled s) x
    (stop s) (gc s) (cbs s) (accesses s).
Definition set_stop (x : StopThread) (s : State) : State :=
  mkState (now s) (concurrent_map_ s) (records s) (pending_ s) (is_running_ s) (scheduled s)
    (cancellation s) x (gc s) (cbs s) (accesses s).
Definition set_gc (x : GcThread) (s : State) : State :=
  mkState (now s) (concurrent_map_ s) (records s) (pending_ s) (is_running_ s) (scheduled s)
    (cancellation s) (stop s) x (cbs s) (accesses s).
Definition set_cbs (x : list CbThread) (s : State) : State :=
  mkState (now s) (concurrent_map_ s) (records s) (pending_ s) (is_running_ s) (scheduled s)
    (cancellation s) (stop s) (gc s) x (accesses s).
Definition set_accesses (x : list (Access * rid)) (s : State) : State :=
  mkState (now s) (concurrent_map_ s) (records s) (pending_ s) (is_running_ s) (scheduled s)
    (cancellation s) (stop s) (gc s) (cbs s) x.

(** *** The collector's schedule *)

(** [ScheduleGarbageCollection]; [r] is the executor's answer. *)
Definition ScheduleGarbageCollection (r : ExecutionResult) (s : State) : ExecutionResult * State :=
  if is_running_ s
  then (r, if Successful r then set_cancellation true (set_scheduled (S (scheduled s)) s) else s)
  else (FailureExecutionResult SC_AUTO_EXPIRY_CONCURRENT_MAP_CANNOT_SCHEDULE, s).

Definition Run (r : ExecutionResult) (s : State) : ExecutionResult * State :=
  ScheduleGarbageCollection r (set_running true s).

(** [Stop], one event per critical section.  Cancelling drops the run that the
    executor holds; calling an empty [std::function] throws out of a
    [noexcept] function.  [timeout]: ten seconds have passed. *)
Definition stop_step (timeout : bool) (s : State) : option State :=
  match stop s with
  | StopIdle => Some (set_stop StopCancel (set_running false s))
  | StopCancel =>
      if cancellation s then Some (set_stop StopWait (set_scheduled 0 s)) else None
  | StopWait =>
      if (0 <? pending_ s)%Z then
        if timeout
        then Some (set_stop (Stopped (FailureExecutionResult
                                        SC_AUTO_EXPIRY_CONCURRENT_MAP_STOP_INCOMPLETE)) s)
        else Some s
      else Some (set_stop (Stopped SuccessExecutionResult) s)
  | Stopped _ => None
  end.

(** *** The collector *)

(** [RunGarbageCollector] up to the first [Find]. *)
Definition gc_fire (s : State) : option State :=
  match scheduled s, gc s with
  | S n, GcIdle =>
      let '(_, keys) := CM_Keys (concurrent_map_ s) in
      Some (set_gc (GcCollect keys None []) (set_scheduled n s))
  | _, _ => None
  end.

(** The rest of [RunGarbageCollector]; [locked] is the outcome of [try_lock],
    [r] the executor's answer if this event schedules. *)
Definition gc_step (locked : bool) (r : ExecutionResult) (s : State) : option State :=
  match gc s with
  | GcIdle => None
  | GcCollect keys (Some (key, x)) el =>
      value ← records s !! x;
      if negb locked then Some (set_gc (GcCollect keys None el) s)
      else if negb (is_evictable value) || negb (IsExpired (now s) value)
      then Some (set_gc (GcCollect keys None el) s)
      else Some (set_gc (GcCollect keys None (el ++ [(key, x)]))
                   (set_records (<[x := set_being_evicted true value]> (records s)) s))
  | GcCollect keys None el =>
      match keys, el with
      | key :: keys, _ =>
          let '(_, value) := CM_Find (concurrent_map_ s) key in
          Some (set_gc (GcCollect keys (pair key <$> value) el) s)
      | [], [] => Some (set_gc GcIdle (ScheduleGarbageCollection r s).2)
      | [], _ => Some (set_gc (GcNotify el) (set_pending (Z.of_nat (length el)) s))
      end
  | GcNotify [] => None
  | GcNotify (kv :: el) =>
      Some (set_gc (match el with [] => GcIdle | _ => GcNotify el end)
              (set_cbs (cbs s ++ [CbWaiting kv]) s))
  end.

(** [OnRemoveEntryFromCacheLogged] in the [i]-th callback. *)
Definition cb_step (i : nat) (can_delete : bool) (r : ExecutionResult) (s : State) : option State :=
  cb ← cbs s !! i;
  match cb with
  | CbWaiting kv =>
      if can_delete then
        let '(res, m) := CM_Erase (concurrent_map_ s) kv.1 in
        Some (set_cbs (<[i := if Successful res then CbDecrement else CbUnmark kv]> (cbs s)) (set_map m s))
      else Some (set_cbs (<[i := CbUnmark kv]> (cbs s)) s)
  | CbUnmark kv =>
      e ← records s !! kv.2;
      Some (set_cbs (<[i := CbDecrement]> (cbs s))
              (set_records (<[kv.2 := set_being_evicted false e]> (records s)) s))
  | CbDecrement =>
      let s' := set_pending (if (pending_ s =? 0)%Z then 2 ^ 64 - 1 else pending_ s - 1)%Z s in
      if (pending_ s =? 1)%Z then Some (set_cbs (<[i := CbSchedule]> (cbs s)) s')
      else Some (set_cbs (delete i (cbs s)) s')
  | CbSchedule => Some (set_cbs (delete i (cbs s)) (ScheduleGarbageCollection r s).2)
  end.

(** *** Client calls *)

Inductive Call :=
  | Insert (key : K) (v : V)
  | Find (key : K)
  | Erase (key : K)
  | Keys
  | Size
  | DisableEviction (key : K)
  | EnableEviction (key : K).

Inductive Ret :=
  | Done (r : ExecutionResult) (out_value : option V)
  | DoneKeys (r : ExecutionResult) (keys : list K)
  | DoneSize (n : nat)
  | Running.

Definition begin_access (a : Access) (x : rid) (s : State) : Ret * State :=
  (Running, set_accesses (accesses s ++ [(a, x)]) s).

Definition find_access (a : Access) (key : K) (s : State) : Ret * State :=
  match CM_Find (concurrent_map_ s) key with
  | (_, Some x) => begin_access a x s
  | (r, None) => (Done r None, s)
  end.

(** A call up to its record's lock. *)
Definition do_call (c : Call) (s : State) : Ret * State :=
  match c with
  | Insert key v =>
      let x := length (records s) in
      let s1 := set_records (records s ++ [new_entry (now s) v map_entry_lifetime_seconds_]) s in
      let '(r, record, m) := CM_Insert (concurrent_map_ s) key x in
      if Successful r then (Done r (Some v), set_map m s1) else begin_access AInsert record s1
  | Find key => find_access AFind key s
  | Erase key => let '(r, m) := CM_Erase (concurrent_map_ s) key in (Done r None, set_map m s)
  | Keys => let '(r, ks) := CM_Keys (concurrent_map_ s) in (DoneKeys r ks, s)
  | Size => (DoneSize (CM_Size (concurrent_map_ s)), s)
  | DisableEviction key => find_access ADisable key s
  | EnableEviction key => find_access AEnable key s
  end.

Definition extend_on_access (t : Z) (e : Entry) : Entry :=
  if extend_entry_lifetime_on_access_
  then (ExtendExpiration t e map_entry_lifetime_seconds_).2 else e.

Definition deleted_error : ExecutionResult :=
  FailureExecutionResult SC_AUTO_EXPIRY_CONCURRENT_MAP_ENTRY_BEING_DELETED.

(** The section under the record's lock. *)
Definition access_section (a : Access) (t : Z) (e : Entry) : Ret * Entry :=
  match a with
  | AInsert | AFind =>
      if block_entry_while_eviction_ && being_evicted e then (Done deleted_error None, e)
      else
        let e' := if extend_entry_lifetime_on_access_ && negb (being_evicted e)
                  then (ExtendExpiration t e map_entry_lifetime_seconds_).2 else e in
        (Done (match a with
               | AInsert => FailureExecutionResult SC_CONCURRENT_MAP_ENTRY_ALREADY_EXISTS
               | _ => SuccessExecutionResult
               end) (Some (entry e')), e')
  | ADisable =>
      if being_evicted e then (Done deleted_error None, e)
      else (Done SuccessExecutionResult None, set_is_evictable false (extend_on_access t e))
  | AEnable =>
      if being_evicted e then (Done deleted_error None, e)
      else (Done SuccessExecutionResult None, set_is_evictable true (extend_on_access t e))
  end.

Definition resume (i : nat) (s : State) : option (Ret * State) :=
  ax ← accesses s !! i;
  e ← records s !! ax.2;
  let '(ret, e') := access_section ax.1 (now s) e in
  Some (ret, set_accesses (delete i (accesses s)) (set_records (<[ax.2 := e']> (records s)) s)).

(** *** Events *)

Inductive Event :=
  | ETick (d : N)
  | ERun (r : ExecutionResult)
  | EStop (timeout : bool)
  | EFire
  | EGc (locked : bool) (r : ExecutionResult)
  | ECallback (i : nat) (can_delete : bool) (r : ExecutionResult)
  | ECall (c : Call)
  | EResume (i : nat).

Definition silent (o : option State) : option (Ret * State) := s ← o; Some (Running, s).

Definition estep (s : State) (ev : Event) : option (Ret * State) :=
  match ev with
  | ETick d => Some (Running, set_now (now s + Z.of_N d) s)
  | ERun r => let '(res, s') := Run r s in Some (Done res None, s')
  | EStop timeout => silent (stop_step timeout s)
  | EFire => silent (gc_fire s)
  | EGc locked r => silent (gc_step locked r s)
  | ECallback i can_delete r => silent (cb_step i can_delete r s)
  | ECall c => Some (do_call c s)
  | EResume i => resume i s
  end.

(** ** The collector's token

    Exactly one of these exists while the map runs: a scheduled run of the
    collector, a run that collects, a round of callbacks, a callback about to
    schedule.  The counter is the number of callbacks that have not decremented
    it yet, those not yet handed to the client included. *)

Definition cb_active (c : CbThread) : bool := match c with CbSchedule => false | _ => true end.

Definition n_active (l : list CbThread) : nat := length (filter cb_active l).
Definition n_schedule (l : list CbThread) : nat := length (filter (λ c, negb (cb_active c)) l).

Definition to_notify (g : GcThread) : list (K * rid) := match g with GcNotify el => el | _ => [] end.

Definition tokens (s : State) : nat :=
  scheduled s + (match gc s with GcCollect _ _ _ => 1 | _ => 0 end)
  + (if (0 <? pending_ s)%Z then 1 else 0) + n_schedule (cbs s).

Record token_inv (s : State) : Prop := {
  ti_pending : pending_ s = Z.of_nat (n_active (cbs s) + length (to_notify (gc s)));
  ti_notify : gc s ≠ GcNotify [];
  ti_tokens : tokens s ≤ 1;
  ti_running : is_running_ s = true → tokens s = 1;
  ti_stop : is_running_ s = true → stop s = StopIdle
}.

(** A trace after the one call of [Run], with an executor that accepts. *)
Definition ev_ok (ev : Event) : bool :=
  match ev with
  | ERun _ => false
  | EGc _ r | ECallback _ _ r => Successful r
  | _ => true
  end.

#[global] Instance n_active_proper : Proper ((≡ₚ) ==> (=)) n_active.
Proof. intros l l' Hp. unfold n_active. by rewrite Hp. Qed.
#[global] Instance n_schedule_proper : Proper ((≡ₚ) ==> (=)) n_schedule.
Proof. intros l l' Hp. unfold n_schedule. by rewrite Hp. Qed.

Lemma n_active_cons c l : n_active (c :: l) = (if cb_active c then 1 else 0) + n_active l.
Proof. unfold n_active. by destruct c. Qed.
Lemma n_schedule_cons c l : n_schedule (c :: l) = (if cb_active c then 0 else 1) + n_schedule l.
Proof. unfold n_schedule. by destruct c. Qed.

(** A callback among the others. *)
Lemma cb_split (l : list CbThread) i c :
  l !! i = Some c → ∃ l', l ≡ₚ c :: l' ∧ delete i l = l' ∧ ∀ c', <[i := c']> l ≡ₚ c' :: l'.
Proof.
  intros Hi. apply list_elem_of_split_length in Hi as (l1&l2&->&->). exists (l1 ++ l2).
  rewrite delete_middle. split_and!; [|done|intros c'; rewrite insert_app_r_alt, Nat.sub_diag by done];
    simpl; by rewrite Permutation_middle.
Qed.

#[local] Opaque n_active n_schedule.

Ltac token_solve :=
  unfold tokens; simpl in *; rewrite ?n_active_cons, ?n_schedule_cons in *;
  repeat match goal with
  | |- context [(?a <? ?b)%Z] => destruct (Z.ltb_spec a b)
  | H : context [(?a <? ?b)%Z] |- _ => destruct (Z.ltb_spec a b)
  end; simpl in *; try intros;
  repeat match goal with
  | H : ?P, Hr : ?P → _ |- _ => specialize (Hr H)
  | Hr : true = true → _ |- _ => specialize (Hr eq_refl)
  end; try congruence; try lia.

Lemma token_gc s locked r s' :
  token_inv s → Successful r = true → gc_step locked r s = Some s' → token_inv s'.
Proof.
  intros [Hp Hn Ht Hr Hst] Hok Hs. destruct s as [t m recs p run sch can st g cb acc].
  unfold tokens, gc_step, ScheduleGarbageCollection in *. simpl in *.
  destruct g as [|keys [[k x]|] el|el]; [done|..].
  - apply bind_Some in Hs as (e&He&Hs). repeat case_match; simplify_eq/=; split; token_solve.
  - destruct keys as [|k keys].
    + destruct el as [|kv el]; simplify_eq/=.
      * rewrite Hok. destruct run; split; token_solve.
      * split; token_solve.
    + destruct (CM_Find m k) as [res val]. simplify_eq/=. split; token_solve.
  - destruct el as [|kv el]; [done|]. simplify_eq/=.
    assert (cb ++ [CbWaiting kv] ≡ₚ CbWaiting kv :: cb) as Hperm by (by rewrite Permutation_app_comm).
    destruct el; split; unfold tokens; simpl; rewrite ?Hperm; token_solve.
Qed.

Lemma token_cb s i can_delete r s' :
  token_inv s → Successful r = true → cb_step i can_delete r s = Some s' → token_inv s'.
Proof.
  intros [Hp Hn Ht Hr Hst] Hok Hs. destruct s as [t m recs p run sch can st g cb acc].
  unfold tokens, cb_step, ScheduleGarbageCollection in *. simpl in *.
  apply bind_Some in Hs as (c&Hc&Hs). apply cb_split in Hc as (l'&Hperm&Hdel&Hins).
  rewrite Hperm in Hp, Ht, Hr. rewrite ?Hdel in Hs. destruct c as [kv|kv| |].
  - destruct can_delete; [destruct (CM_Erase m kv.1) as [res m'], (Successful res)|];
      simplify_eq/=; split; unfold tokens; simpl; rewrite ?Hins; token_solve.
  - apply bind_Some in Hs as (e&He&Hs). simplify_eq/=.
    split; unfold tokens; simpl; rewrite ?Hins; token_solve.
  - rewrite n_active_cons in Hp. simpl in Hp. destruct (Z.eqb_spec p 1), (Z.eqb_spec p 0); try lia;
      simplify_eq/=; split; unfold tokens; simpl; rewrite ?Hins; token_solve.
  - rewrite Hok in Hs. destruct run; simplify_eq/=; split; token_solve.
Qed.

Lemma token_step s ev ret s' :
  token_inv s → ev_ok ev = true → estep s ev = Some (ret, s') → token_inv s'.
Proof.
  intros HI Hok Hs. destruct ev as [d|r|timeout| |locked r|i cd r|c|i]; simpl in *; simplify_eq.
  - destruct HI. by split.
  - apply bind_Some in Hs as (s1&Hs&?). simplify_eq. unfold stop_step in Hs.
    destruct HI as [Hp Hn Ht Hr Hst]. repeat case_match; simplify_eq/=; split; unfold tokens in *; token_solve.
  - apply bind_Some in Hs as (s1&Hs&?). simplify_eq. unfold gc_fire in Hs.
    destruct HI as [Hp Hn Ht Hr Hst]. destruct s as [t m recs p run sch can st g cb acc].
    unfold tokens in *. simpl in *. destruct sch, g; simplify_eq/=. split; token_solve.
  - apply bind_Some in Hs as (s1&Hs&?). simplify_eq. by eapply token_gc.
  - apply bind_Some in Hs as (s1&Hs&?). simplify_eq. by eapply token_cb.
  - assert (pending_ s' = pending_ s ∧ cbs s' = cbs s ∧ scheduled s' = scheduled s ∧
            is_running_ s' = is_running_ s ∧ gc s' = gc s ∧ stop s' = stop s) as (E1&E2&E3&E4&E5&E6).
    { destruct c; simplify_eq/=; unfold find_access, begin_access in *; repeat case_match; simplify_eq/=; auto 10. }
    destruct HI. split; unfold tokens in *; rewrite ?E1, ?E2, ?E3, ?E4, ?E5, ?E6; done.
  - unfold resume in Hs. apply bind_Some in Hs as ([a x]&Ha&Hs). apply bind_Some in Hs as (e&He&Hs).
    destruct (access_section _ _ _). simplify_eq/=. destruct HI. by split.
Qed.

(** ** Records of threads exist *)

Definition gc_refs (g : GcThread) : list (K * rid) :=
  match g with
  | GcIdle => []
  | GcCollect _ found el => option_list found ++ el
  | GcNotify el => el
  end.

Definition cb_held (c : CbThread) : option (K * rid) :=
  match c with CbWaiting kv | CbUnmark kv => Some kv | _ => None end.

Definition refs (s : State) : list rid :=
  (gc_refs (gc s) ++ omap cb_held (cbs s)).*2 ++ (accesses s).*2.

Record mem_inv (s : State) : Prop := {
  mi_map : ∀ k x, concurrent_map_ s !! k = Some x → x < length (records s);
  mi_refs : ∀ x, x ∈ refs s → x < length (records s)
}.

Lemma omap_held_perm l l' : l ≡ₚ l' → omap cb_held l ≡ₚ omap cb_held l'.
Proof. intros Hp. by rewrite Hp. Qed.

Lemma mem_inv_intro s s' :
  mem_inv s → length (records s) ≤ length (records s') →
  (∀ k x, concurrent_map_ s' !! k = Some x →
     concurrent_map_ s !! k = Some x ∨ x < length (records s')) →
  (∀ x, x ∈ refs s' → x ∈ refs s ∨ x < length (records s')) → mem_inv s'.
Proof.
  intros [Hm Hr] Hl Hm' Hr'. split.
  - intros k x [Hx%Hm|?]%Hm'; lia.
  - intros x [Hx%Hr|?]%Hr'; lia.
Qed.

Ltac mem_frame :=
  eapply mem_inv_intro;
  [eassumption|simpl; rewrite ?length_insert, ?length_app; simpl; lia
  |simpl; try done; intros ? ? ?; left; try done
  |let x := fresh in intros x; let Hx := fresh in intros Hx; left; simpl; revert x Hx; try done].

Lemma erase_sub (m : M rid) k k' x : (CM_Erase m k).2 !! k' = Some x → m !! k' = Some x.
Proof.
  unfold CM_Erase. destruct (m !! k) eqn:E; simpl; [|done].
  intros Hd. apply lookup_delete_Some in Hd. tauto.
Qed.

Lemma mem_cb s i cd r s' : mem_inv s → cb_step i cd r s = Some s' → mem_inv s'.
Proof.
  intros HI Hs. unfold cb_step in Hs. apply bind_Some in Hs as (c&Hc&Hs).
  apply cb_split in Hc as (l'&Hperm&Hdel&Hins).
  assert (∀ c', (cb_held c' = cb_held c ∨ cb_held c' = None) →
    ∀ y, y ∈ omap cb_held (<[i:=c']> (cbs s)) → y ∈ omap cb_held (cbs s)) as Hsub.
  { intros c' Hc' y. rewrite Hins, Hperm. destruct Hc' as [E|E]; simpl; rewrite E; [done|].
    destruct (cb_held c); set_solver. }
  assert (∀ y, y ∈ omap cb_held (delete i (cbs s)) → y ∈ omap cb_held (cbs s)) as Hsub'.
  { intros y. rewrite Hdel, Hperm. simpl. destruct (cb_held c); set_solver. }
  assert (∀ l, (∀ y, y ∈ omap cb_held l → y ∈ omap cb_held (cbs s)) →
    ∀ x, x ∈ (gc_refs (gc s) ++ omap cb_held l).*2 ++ (accesses s).*2 → x ∈ refs s) as Hrefs.
  { intros l Hl x. unfold refs. rewrite !fmap_app, !elem_of_app, !list_elem_of_fmap.
    intros [[?|(y&->&Hy)]|?]; [auto|left; right; exists y; auto|auto]. }
  destruct c as [kv|kv| |].
  - destruct cd; [|simplify_eq/=; mem_frame; apply Hrefs, Hsub; auto].
    destruct (CM_Erase _ kv.1) as [res m'] eqn:Em. simplify_eq/=. mem_frame.
    + eapply erase_sub. by rewrite Em.
    + apply Hrefs, Hsub. destruct (Successful res); auto.
  - apply bind_Some in Hs as (e&He&Hs). simplify_eq/=. mem_frame. apply Hrefs, Hsub. auto.
  - case_match; simplify_eq/=; mem_frame; apply Hrefs; try done; apply Hsub; auto.
  - unfold ScheduleGarbageCollection in Hs. repeat case_match; simplify_eq/=; mem_frame; by apply Hrefs.
Qed.

Lemma mem_gc s locked r s' : mem_inv s → gc_step locked r s = Some s' → mem_inv s'.
Proof.
  intros HI Hs. unfold gc_step in Hs.
  destruct (gc s) as [|keys [[k x]|] el|el] eqn:Hg; [done|..].
  - apply bind_Some in Hs as (e&He&Hs). repeat case_match; simplify_eq/=;
      (eapply mem_inv_intro; eauto; simpl; rewrite ?length_insert; auto; unfold refs; rewrite Hg; simpl;
       intros x'; set_solver).
  - destruct keys as [|k keys]; [destruct el|].
    + unfold ScheduleGarbageCollection in Hs. repeat case_match; simplify_eq/=;
      (eapply mem_inv_intro; eauto; unfold refs; rewrite Hg; simpl; set_solver).
    + simplify_eq/=. eapply mem_inv_intro; eauto; unfold refs; rewrite Hg; simpl; set_solver.
    + unfold CM_Find in Hs. destruct (concurrent_map_ s !! k) as [y|] eqn:Hk; simplify_eq/=;
        (eapply mem_inv_intro; [done|done|by auto|unfold refs; rewrite Hg; simpl]).
      * intros x Hx. apply elem_of_cons in Hx as [->|Hx]; [right; by eapply mi_map|left; set_solver].
      * set_solver.
  - destruct el as [|kv el]; [done|]. simplify_eq/=.
    eapply mem_inv_intro; eauto. unfold refs. rewrite Hg. simpl. rewrite omap_app. simpl.
    destruct el; simpl; intros x; rewrite ?fmap_app; set_solver.
Qed.

Lemma refs_access s s' a x y :
  gc s' = gc s → cbs s' = cbs s → accesses s' = accesses s ++ [(a, x)] →
  y ∈ refs s' → y ∈ refs s ∨ y = x.
Proof.
  unfold refs. intros -> -> ->. rewrite (fmap_app _ (accesses s)), !elem_of_app. simpl. set_solver.
Qed.

Lemma mem_step s ev ret s' : mem_inv s → estep s ev = Some (ret, s') → mem_inv s'.
Proof.
  intros HI Hs. destruct ev as [d|r|timeout| |locked r|i cd r|c|i]; simpl in *; simplify_eq.
  - by mem_frame.
  - unfold Run, ScheduleGarbageCollection. simpl. destruct (Successful r); by mem_frame.
  - apply bind_Some in Hs as (s1&Hs&?). simplify_eq. unfold stop_step in Hs.
    repeat case_match; simplify_eq/=; by mem_frame.
  - apply bind_Some in Hs as (s1&Hs&?). simplify_eq. unfold gc_fire in Hs.
    destruct (scheduled s), (gc s) eqn:Hg; simplify_eq/=. mem_frame. unfold refs. rewrite Hg. done.
  - apply bind_Some in Hs as (s1&Hs&?). simplify_eq. by eapply mem_gc.
  - apply bind_Some in Hs as (s1&Hs&?). simplify_eq. by eapply mem_cb.
  - assert (∀ a k r' s', find_access a k s = (r', s') → mem_inv s') as Hfind.
    { intros a k r' s'' Hf. unfold find_access, CM_Find, begin_access in Hf.
      destruct (concurrent_map_ s !! k) as [x|] eqn:Hk; simplify_eq/=; [|done].
      eapply mem_inv_intro; [done|done|by auto|]. intros y Hy. eapply refs_access in Hy as [?| ->]; [by left|..]; try done.
      right. exact (mi_map _ HI _ _ Hk). }
    destruct c as [k v|k|k| | |k|k]; simplify_eq/=; try by eauto.
    + unfold CM_Insert, begin_access in *. destruct (concurrent_map_ s !! k) as [x|] eqn:Hk; simplify_eq/=.
      * eapply mem_inv_intro; [done|simpl; rewrite length_app; lia|by auto|].
        intros y Hy. eapply refs_access in Hy as [?| ->]; [by left|..]; try done.
        right. simpl. rewrite length_app. apply mi_map in Hk; [lia|done].
      * eapply mem_inv_intro; [done|simpl; rewrite length_app; lia| |by auto]. simpl. rewrite length_app.
        intros k' x [[<- <-]|[??]]%lookup_insert_Some; [right; simpl; lia|by left].
    + destruct (CM_Erase _ k) as [res m'] eqn:Em. simplify_eq/=. mem_frame. eapply erase_sub. by rewrite Em.
  - unfold resume in Hs. apply bind_Some in Hs as ([a x]&Ha&Hs). apply bind_Some in Hs as (e&He&Hs).
    destruct (access_section _ _ _). simplify_eq/=. mem_frame. unfold refs. simpl. intros y.
    rewrite !elem_of_app. intros [?|Hy]; [by left|]. right.
    apply list_elem_of_fmap in Hy as (z&->&Hz). apply list_elem_of_fmap. exists z. split; [done|].
    eapply elem_of_submseteq; [exact Hz|apply sublist_submseteq, sublist_delete].
Qed.

(** ** What the collector holds is what it marked

    Without calls of [Erase], each element on its way to deletion is still the
    one in the map under its key, and nobody changes it. *)

Definition marked_entry (t : Z) (e : Entry) : Prop :=
  being_evicted e = true ∧ is_evictable e = true ∧ (expiration_time e < t)%Z.

Definition marked (s : State) (kv : K * rid) : Prop :=
  concurrent_map_ s !! kv.1 = Some kv.2 ∧ ∃ e, records s !! kv.2 = Some e ∧ marked_entry (now s) e.

Definition gc_elements (g : GcThread) : list (K * rid) :=
  match g with GcIdle => [] | GcCollect _ _ el | GcNotify el => el end.

Definition held (s : State) : list (K * rid) := gc_elements (gc s) ++ omap cb_held (cbs s).

Definition collecting_ok (m : M rid) (g : GcThread) : Prop :=
  match g with
  | GcCollect keys found el =>
      NoDup keys ∧ (∀ k, k ∈ keys → k ∉ el.*1) ∧
      (∀ k x, found = Some (k, x) → m !! k = Some x ∧ k ∉ keys ∧ k ∉ el.*1)
  | _ => True
  end.

Record evict_inv (s : State) : Prop := {
  ei_inj : ∀ k k' x, concurrent_map_ s !! k = Some x → concurrent_map_ s !! k' = Some x → k = k';
  ei_marked : Forall (marked s) (held s);
  ei_nodup : NoDup (held s).*1;
  ei_collect : collecting_ok (concurrent_map_ s) (gc s)
}.

Lemma marked_mono s s' kv :
  marked s kv → (now s ≤ now s')%Z →
  (concurrent_map_ s !! kv.1 = Some kv.2 → concurrent_map_ s' !! kv.1 = Some kv.2) →
  (∀ e, records s !! kv.2 = Some e → being_evicted e = true → records s' !! kv.2 = Some e) →
  marked s' kv.
Proof.
  intros [Hm (e&He&Hb&Hev&Hexp)] Ht Hm' He'. split; [auto|]. exists e. split; [auto|].
  split_and!; [done|done|lia].
Qed.

Lemma access_section_marked a t e : being_evicted e = true → (access_section a t e).2 = e.
Proof.
  intros Hb. destruct a; simpl; rewrite ?Hb; try done;
    destruct block_entry_while_eviction_, extend_entry_lifetime_on_access_; done.
Qed.

(** Steps that leave the collector, its callbacks and the map alone. *)
Lemma evict_frame s s' :
  evict_inv s → concurrent_map_ s' = concurrent_map_ s → (now s ≤ now s')%Z →
  gc s' = gc s → held s' = held s →
  (∀ x e, records s !! x = Some e → being_evicted e = true → records s' !! x = Some e) → evict_inv s'.
Proof.
  intros [Hi Hm Hn Hc] Em Ht Eg Eh Hr. split.
  - rewrite Em. apply Hi.
  - rewrite Eh. eapply Forall_impl; [exact Hm|]. intros kv Hkv. eapply marked_mono; eauto. by rewrite Em.
  - by rewrite Eh.
  - by rewrite Em, Eg.
Qed.

Lemma evict_collect s keys found el :
  token_inv s → gc s = GcCollect keys found el → cbs s = [].
Proof.
  intros [Hp _ Ht _] Hg. unfold tokens in Ht. rewrite Hg in Ht, Hp. simpl in *.
  destruct (Z.ltb_spec 0 (pending_ s)); [lia|].
  destruct (cbs s) as [|c l]; [done|]. rewrite n_active_cons in Hp. rewrite n_schedule_cons in Ht.
  destruct (cb_active c); lia.
Qed.

Lemma evict_shrink s s' :
  evict_inv s → held s' ⊆+ held s →
  (∀ k k' x, concurrent_map_ s' !! k = Some x → concurrent_map_ s' !! k' = Some x → k = k') →
  (∀ kv, kv ∈ held s' → marked s kv → marked s' kv) →
  collecting_ok (concurrent_map_ s') (gc s') → evict_inv s'.
Proof.
  intros [_ Hm Hn _] Hsub Hi' Hm' Hc'. apply submseteq_Permutation in Hsub as [l Hl].
  rewrite Hl in Hm, Hn. split; [done| | |done].
  - apply Forall_app in Hm as [Hm _]. rewrite Forall_forall in *. auto.
  - rewrite fmap_app in Hn. by apply NoDup_app in Hn as [Hn _].
Qed.

(** An element leaves: the others have other keys and other records. *)
Lemma evict_others s kv l :
  evict_inv s → held s ≡ₚ kv :: l →
  marked s kv ∧ ∀ kv', kv' ∈ l → marked s kv' → kv'.1 ≠ kv.1 ∧ kv'.2 ≠ kv.2.
Proof.
  intros [Hi Hm Hn _] Hl. rewrite Hl in Hm, Hn. apply Forall_cons in Hm as [Hkv _].
  apply NoDup_cons in Hn as [Hni _]. split; [done|]. intros kv' Hin [Hm' _].
  assert (kv'.1 ≠ kv.1) as Hne.
  { intros E. apply Hni. rewrite <-E. by apply list_elem_of_fmap_2. }
  split; [done|]. intros E. apply Hne. eapply Hi; [exact Hm'|]. rewrite E. apply Hkv.
Qed.

Lemma evict_cb s i cd r s' :
  evict_inv s → token_inv s → cb_step i cd r s = Some s' → evict_inv s'.
Proof.
  intros HI HT Hs. pose proof (ei_inj _ HI) as Hi. unfold cb_step in Hs.
  apply bind_Some in Hs as (c&Hcb&Hs). assert (∀ m, collecting_ok m (gc s)) as Hng.
  { destruct (gc s) eqn:Hg; try done. by rewrite (evict_collect _ _ _ _ HT Hg) in Hcb. }
  apply cb_split in Hcb as (l'&Hperm&Hdel&Hins).
  set (l := gc_elements (gc s) ++ omap cb_held l').
  assert (held s ≡ₚ option_list (cb_held c) ++ l) as Hheld.
  { unfold held, l. rewrite Hperm. simpl. destruct (cb_held c); simpl; [|done]. by rewrite Permutation_middle. }
  assert (∀ c', gc_elements (gc s) ++ omap cb_held (<[i:=c']> (cbs s)) ≡ₚ option_list (cb_held c') ++ l) as Hnew.
  { intros c'. unfold l. rewrite Hins. simpl. destruct (cb_held c'); simpl; [|done].
    by rewrite Permutation_middle. }
  destruct c as [kv|kv| |]; simpl in Hheld.
  - destruct (evict_others _ _ _ HI Hheld) as [[Hmkv _] Hoth]. destruct cd.
    + unfold CM_Erase in Hs. rewrite Hmkv in Hs. simplify_eq/=. eapply evict_shrink; [done|..]; simpl.
      * unfold held. simpl. rewrite Hnew, Hheld. simpl. by apply submseteq_cons.
      * intros k k' x [_ H1']%lookup_delete_Some [_ H2']%lookup_delete_Some. eauto.
      * intros kv'. unfold held. simpl. rewrite Hnew. simpl. intros Hin Hkv'.
        destruct (Hoth _ Hin Hkv') as [Hne _]. eapply marked_mono; [done|done| |done]. simpl.
        by rewrite lookup_delete_ne.
      * done.
    + simplify_eq/=. eapply evict_shrink; [done|..]; try done. unfold held. simpl. by rewrite Hnew, Hheld.
  - destruct (evict_others _ _ _ HI Hheld) as [_ Hoth].
    apply bind_Some in Hs as (e&He&Hs). simplify_eq/=. eapply evict_shrink; [done|..]; simpl; try done.
    + unfold held. simpl. rewrite Hnew, Hheld. simpl. by apply submseteq_cons.
    + intros kv'. unfold held. simpl. rewrite Hnew. simpl. intros Hin Hkv'.
      destruct (Hoth _ Hin Hkv') as [_ Hne]. eapply marked_mono; [done..|]. simpl. intros e' He' _.
      by rewrite list_lookup_insert_ne.
  - case_match; simplify_eq/=; (eapply evict_shrink; [done|..]; try done); unfold held; simpl.
    + by rewrite Hnew, Hheld.
    + by rewrite Hheld.
  - unfold ScheduleGarbageCollection in Hs. repeat case_match; simplify_eq/=;
      (eapply evict_shrink; [done|..]; try done); unfold held; simpl; by rewrite Hheld.
Qed.

(** Marking one more element. *)
Lemma evict_mark s keys k x el e :
  evict_inv s → cbs s = [] → gc s = GcCollect keys (Some (k, x)) el → records s !! x = Some e →
  is_evictable e = true → IsExpired (now s) e = true →
  evict_inv (set_gc (GcCollect keys None (el ++ [(k, x)]))
               (set_records (<[x := set_being_evicted true e]> (records s)) s)).
Proof.
  intros [Hi Hm Hn Hc] Hcb Hg He Hev Hexp. unfold held in *. rewrite Hg, Hcb in *. simpl in *.
  rewrite app_nil_r in *. destruct Hc as (Hk&Hd&Hf). destruct (Hf k x eq_refl) as (Hkx&Hk1&Hk2).
  apply Z.ltb_lt in Hexp. pose proof (lookup_lt_Some _ _ _ He) as Hlt.
  assert (∀ kv, concurrent_map_ s !! kv.1 = Some kv.2 → (kv.2 = x ∨ marked s kv) →
    marked (set_gc (GcCollect keys None (el ++ [(k, x)]))
              (set_records (<[x := set_being_evicted true e]> (records s)) s)) kv) as Hmk.
  { intros kv Hkv Hor. split; [done|]. simpl. destruct (decide (kv.2 = x)) as [->|Hne].
    - exists (set_being_evicted true e). by rewrite list_lookup_insert_eq.
    - rewrite list_lookup_insert_ne by done. destruct Hor as [?|[_ ?]]; done. }
  split; unfold held; simpl; rewrite ?Hcb; simpl; rewrite ?app_nil_r; try done.
  - apply Forall_app. split; [|apply Forall_singleton, Hmk; simpl; auto].
    eapply Forall_impl; [exact Hm|]. intros kv Hkv. apply Hmk; [apply Hkv|auto].
  - rewrite fmap_app. apply NoDup_app. split_and!; [done| |simpl; apply NoDup_singleton].
    intros k' Hk' Hk''. simpl in *. set_solver.
  - split_and!; [done| |done]. intros k' Hk'. rewrite fmap_app. simpl. specialize (Hd _ Hk'). set_solver.
Qed.

Lemma evict_gc s locked r s' :
  evict_inv s → token_inv s → gc_step locked r s = Some s' → evict_inv s'.
Proof.
  intros HI HT Hs. pose proof (ei_inj _ HI) as Hi. pose proof (ei_collect _ HI) as Hc. unfold gc_step in Hs.
  destruct (gc s) as [|keys [[k x]|] el|el] eqn:Hg; [done|..].
  - assert (evict_inv (set_gc (GcCollect keys None el) s)) as HI'.
    { apply (evict_shrink s); try done.
      - unfold held. by rewrite Hg.
      - destruct Hc as (?&?&?). by split_and!. }
    apply bind_Some in Hs as (e&He&Hs). destruct (negb locked); simplify_eq/=; [done|].
    destruct (is_evictable e) eqn:E1, (IsExpired (now s) e) eqn:E2; simplify_eq/=; try done.
    eapply evict_mark; eauto. by eapply evict_collect.
  - destruct keys as [|k keys]; [destruct el as [|kv el]|].
    + unfold ScheduleGarbageCollection in Hs. repeat case_match; simplify_eq/=;
        (apply (evict_shrink s); try done; unfold held; by rewrite Hg).
    + simplify_eq/=. apply (evict_shrink s); try done. unfold held. by rewrite Hg.
    + destruct Hc as (Hk&Hd&_). apply NoDup_cons in Hk as [Hk1 Hk2].
      unfold CM_Find in Hs. destruct (concurrent_map_ s !! k) as [y|] eqn:Hky; simplify_eq/=;
        (apply (evict_shrink s); try done; [unfold held; by rewrite Hg|]); simpl; split_and!; try done;
        try (intros k' Hk'; apply Hd; set_solver).
      intros k' x [= <- <-]. split_and!; [done..|apply Hd; set_solver].
  - destruct el as [|kv el]; [done|]. simplify_eq/=. apply (evict_shrink s); try done.
    + unfold held. simpl. rewrite Hg, omap_app. simpl.
      transitivity (kv :: el ++ omap cb_held (cbs s)); [|done].
      rewrite (Permutation_app_comm (omap cb_held (cbs s))). simpl. rewrite <-Permutation_middle.
      by destruct el.
    + by destruct el.
Qed.

(** A new record under a new key. *)
Lemma evict_insert s k e :
  evict_inv s → mem_inv s → concurrent_map_ s !! k = None →
  evict_inv (set_map (<[k := length (records s)]> (concurrent_map_ s)) (set_records (records s ++ [e]) s)).
Proof.
  intros HI HM Hk. assert (∀ k' x, concurrent_map_ s !! k' = Some x →
    <[k := length (records s)]> (concurrent_map_ s) !! k' = Some x) as Hold.
  { intros k' x Hx. rewrite lookup_insert_ne; [done|]. intros ->. by rewrite Hk in Hx. }
  apply (evict_shrink s); simpl; try done.
  - intros k1 k2 x Hx1 Hx2. apply lookup_insert_Some in Hx1, Hx2.
    destruct Hx1 as [[<- <-]|[_ Hx1]], Hx2 as [[<- E]|[_ Hx2]]; try done.
    + apply (mi_map _ HM) in Hx2. lia.
    + apply (mi_map _ HM) in Hx1. lia.
    + by eapply (ei_inj _ HI).
  - intros kv _ Hkv. eapply marked_mono; [done|done|auto|]. simpl. intros e' He' _.
    by apply lookup_app_l_Some.
  - pose proof (ei_collect _ HI) as Hc. destruct (gc s) as [|keys f el|]; try done.
    destruct Hc as (?&?&Hf). split_and!; [done..|]. intros k' x Hkx.
    destruct (Hf _ _ Hkx) as (?&?&?). auto.
Qed.

Definition no_erase (ev : Event) : bool := match ev with ECall (Erase _) => false | _ => true end.

Lemma evict_step s ev ret s' :
  evict_inv s → token_inv s → mem_inv s → no_erase ev = true → estep s ev = Some (ret, s') → evict_inv s'.
Proof.
  intros HI HT HM Hne Hs. destruct ev as [d|r|timeout| |locked r|i cd r|c|i]; simpl in *; simplify_eq.
  - apply (evict_frame s); simpl; try done. lia.
  - unfold Run, ScheduleGarbageCollection. simpl. destruct (Successful r); by apply (evict_frame s).
  - apply bind_Some in Hs as (s1&Hs&?). simplify_eq. unfold stop_step in Hs.
    repeat case_match; simplify_eq/=; first [done|by apply (evict_frame s)].
  - apply bind_Some in Hs as (s1&Hs&?). simplify_eq. unfold gc_fire in Hs.
    destruct (scheduled s), (gc s) eqn:Hg; simplify_eq/=. apply (evict_shrink s); simpl; try done.
    + unfold held. by rewrite Hg.
    + apply HI.
    + split_and!; [apply NoDup_fst_map_to_list|set_solver|done].
  - apply bind_Some in Hs as (s1&Hs&?). simplify_eq. by eapply evict_gc.
  - apply bind_Some in Hs as (s1&Hs&?). simplify_eq. by eapply evict_cb.
  - assert (∀ a k r' s', find_access a k s = (r', s') → evict_inv s') as Hfind.
    { intros a k r' s'' Hf. unfold find_access, begin_access in Hf.
      destruct (CM_Find _ k) as [res [x|]]; simplify_eq/=; [|done]. by apply (evict_frame s). }
    destruct c as [k v|k|k| | |k|k]; simplify_eq/=; try by eauto.
    unfold CM_Insert, begin_access in *. destruct (concurrent_map_ s !! k) as [x|] eqn:Hk; simplify_eq/=.
    + apply (evict_frame s); simpl; try done. intros x' e He _. by apply lookup_app_l_Some.
    + apply evict_insert; eauto.
  - unfold resume in Hs. apply bind_Some in Hs as ([a x]&Ha&Hs). apply bind_Some in Hs as (e&He&Hs).
    destruct (access_section _ _ _) as [rt e'] eqn:Es. simplify_eq/=. apply (evict_frame s); simpl; try done.
    intros x' e1 He1 Hb. destruct (decide (x = x')) as [->|Hx]; [|by rewrite list_lookup_insert_ne].
    simplify_eq. apply (access_section_marked a (now s)) in Hb. rewrite Es in Hb. simpl in Hb. subst.
    by rewrite list_lookup_insert_eq by (by eapply lookup_lt_Some).
Qed.

(** ** Traces *)

Abbreviation erun := (run_ops estep).

(** The state after the one call of [Run], with an executor that accepts. *)
Definition started (t : Z) : State := (Run SuccessExecutionResult (new_state t)).2.

Lemma started_inv t : token_inv (started t) ∧ mem_inv (started t) ∧ evict_inv (started t).
Proof.
  split_and!; split; simpl; try done.
  - intros k x. by rewrite lookup_empty.
  - intros x Hx. by apply elem_of_nil in Hx.
  - intros k k' x. by rewrite lookup_empty.
  - constructor.
Qed.

Lemma reach_token t evs rets s :
  Forall ev_ok evs → erun (started t) evs = Some (rets, s) → token_inv s ∧ mem_inv s.
Proof.
  intros Hok. apply (run_ops_invariant estep ev_ok (λ s, token_inv s ∧ mem_inv s));
    [|destruct (started_inv t); tauto|done].
  intros s1 ev r s2 [HT HM] Hev Hs. split; [|by eapply mem_step]. eapply token_step; eauto.
  by apply Is_true_true.
Qed.

Lemma reach_evict t evs rets s :
  Forall (λ ev, ev_ok ev && no_erase ev) evs → erun (started t) evs = Some (rets, s) → 
  token_inv s ∧ mem_inv s ∧ evict_inv s.
Proof.
  intros Hok.
  apply (run_ops_invariant estep (λ ev, ev_ok ev && no_erase ev) (λ s, token_inv s ∧ mem_inv s ∧ evict_inv s));
    [|apply started_inv|done].
  intros s1 ev r s2 (HT&HM&HE) Hev Hs. apply Is_true_true, andb_true_iff in Hev as [H1' H2'].
  split_and!; [by eapply token_step|by eapply mem_step|by eapply evict_step].
Qed.


(** Only a callback that the client lets delete takes an entry out of the map. *)
Lemma removed_by_callback s ev ret s' k x :
  no_erase ev = true → estep s ev = Some (ret, s') →
  concurrent_map_ s !! k = Some x → concurrent_map_ s' !! k = None →
  ∃ i kv, cbs s !! i = Some (CbWaiting kv) ∧ kv.1 = k.
Proof.
  intros Hne Hs Hk Hk'.
  assert (concurrent_map_ s' ≠ concurrent_map_ s) as Hneq by congruence.
  destruct ev as [d|r|timeout| |locked r|i cd r|c|i]; simpl in *; simplify_eq/=.
  - unfold Run, ScheduleGarbageCollection in *. simpl in *. by destruct (Successful r).
  - apply bind_Some in Hs as (s1&Hs&?). simplify_eq. unfold stop_step in Hs.
    by repeat case_match; simplify_eq/=.
  - apply bind_Some in Hs as (s1&Hs&?). simplify_eq. unfold gc_fire in Hs.
    by repeat case_match; simplify_eq/=.
  - apply bind_Some in Hs as (s1&Hs&?). simplify_eq. unfold gc_step, ScheduleGarbageCollection in Hs.
    destruct (gc s) as [|keys [[k1 x1]|] el|el]; [done|..].
    + apply bind_Some in Hs as (e&_&Hs). by repeat case_match; simplify_eq/=.
    + repeat case_match; by simplify_eq/=.
    + by repeat case_match; simplify_eq/=.
  - apply bind_Some in Hs as (s1&Hs&?). simplify_eq. unfold cb_step, ScheduleGarbageCollection in Hs.
    apply bind_Some in Hs as (c&Hc&Hs). destruct c as [kv|kv| |].
    + destruct cd; simplify_eq/=. unfold CM_Erase in *. exists i, kv. split; [done|].
      destruct (concurrent_map_ s !! kv.1) eqn:E; simplify_eq/=.
      apply lookup_delete_None in Hk' as [?|?]; congruence.
    + apply bind_Some in Hs as (e&_&Hs). by simplify_eq/=.
    + by repeat case_match; simplify_eq/=.
    + by repeat case_match; simplify_eq/=.
  - destruct c as [k1 v|k1|k1| | |k1|k1]; simplify_eq/=; unfold find_access, begin_access, CM_Insert in *;
      repeat case_match; simplify_eq/=; try done. apply lookup_insert_None in Hk' as [? ?]. congruence.
  - unfold resume in Hs. apply bind_Some in Hs as ([a x']&_&Hs). apply bind_Some in Hs as (e&_&Hs).
    destruct (access_section _ _ _). by simplify_eq/=.
Qed.

(** If the clients never call [Erase], an entry that leaves the map, at any point of any
    interleaving, was evictable and its lifetime was over when it left: no access that extended it
    and no [DisableEviction] that returned success is lost. *)
Theorem eviction_only_of_expired t evs rets s ev ret s' k x :
  Forall (λ ev, ev_ok ev && no_erase ev) evs → erun (started t) evs = Some (rets, s) →
  no_erase ev = true → estep s ev = Some (ret, s') →
  concurrent_map_ s !! k = Some x → concurrent_map_ s' !! k = None →
  ∃ e, records s !! x = Some e ∧ is_evictable e = true ∧ (expiration_time e < now s)%Z.
Proof.
  intros Hok Hrun Hne Hs Hk Hk'. destruct (reach_evict _ _ _ _ Hok Hrun) as (HT&HM&HE).
  destruct (removed_by_callback _ _ _ _ _ _ Hne Hs Hk Hk') as (i&[k' x']&Hi&E). simpl in E. subst k'.
  assert (marked s (k, x')) as [Hm (e&He&_&Hev&Hexp)].
  { pose proof (ei_marked _ HE) as Hall. rewrite Forall_forall in Hall. apply Hall.
    unfold held. apply elem_of_app. right. apply list_elem_of_omap. exists (CbWaiting (k, x')).
    split; [by eapply list_elem_of_lookup_2|done]. }
  simpl in *. assert (x' = x) as -> by congruence. eauto.
Qed.
End expiry_map.

(** ** Two races

    The map of the examples: string keys, a lifetime of one second. *)

Abbreviation SState := (State (K:=nat) (V:=string) (M:=gmap nat)).

(** The results of a trace after [Run], and the projection of the state it ends in. *)
Definition race_run {A} (f : SState → A) (evs : list Event) : option (list Ret * A) :=
  prod_map id f <$> run_ops (estep 1 false true) (started 0) evs.

Abbreviation ok := SuccessExecutionResult.

(** Up to the call of the client for the expired entry of key 1. *)
Definition to_callback : list (Event (K:=nat) (V:=string)) :=
  [ECall (Insert 1 "old"); ETick 2000000000%N; EFire; EGc true ok; EGc true ok; EGc true ok; EGc true ok].

(** The callback erases by key.  An entry that was erased and inserted again while its
    predecessor was on its way out is deleted with it, although it is new, not expired, and its
    eviction was disabled successfully: [DisableEviction] returns success, the callback runs, and
    [Find] then reports that the entry does not exist. *)
Theorem eviction_hits_replacement :
  prod_map (drop 7) id <$>
  race_run scheduled
    (to_callback ++
     [ECall (Erase 1); ECall (Insert 1 "new"); ECall (DisableEviction 1); EResume 0;
      ECallback 0 true ok; ECall (Find 1)]) =
  Some ([Done ok None; Done ok (Some "new"); Running; Done ok None; Running;
         Done (FailureExecutionResult SC_CONCURRENT_MAP_ENTRY_DOES_NOT_EXIST) None], 0).
Proof. vm_compute. reflexivity. Qed.

(** [Stop] waits for callbacks only.  It can return success while the collector is still
    reading the map, which then marks entries and calls the client after [Stop]. *)
Theorem stop_returns_during_collection :
  snd <$> race_run (λ s, (stop s, gc s, cbs s))
    [ECall (Insert 1 "old"); ETick 2000000000%N; EFire; EGc true ok; EStop false; EStop false; EStop false] =
  Some (Stopped ok, GcCollect [] (Some (1, 0)) [], []) ∧
  snd <$> race_run (λ s, (stop s, gc s, cbs s))
    [ECall (Insert 1 "old"); ETick 2000000000%N; EFire; EGc true ok; EStop false; EStop false; EStop false;
     EGc true ok; EGc true ok; EGc true ok] =
  Some (Stopped ok, GcIdle, [CbWaiting (1, 0)]).
Proof. split; vm_compute; reflexivity. Qed.

(** ** Witnesses *)


Lemma eviction_only_of_expired_witness :
  ∃ (s : SState) e, snd <$> run_ops (estep 1 false true) (started 0) to_callback = Some s ∧
    records s !! 0 = Some e ∧ is_evictable e = true ∧ (expiration_time e < now s)%Z.
Proof.
  destruct (run_ops (estep 1 false true) (started (M:=gmap nat) 0) to_callback) as [[rets s]|] eqn:E;
    [|vm_compute in E; discriminate].
  destruct (estep 1 false true s (ECallback 0 true ok)) as [[ret s']|] eqn:E';
    [|vm_compute in E; injection E as _ <-; vm_compute in E'; discriminate].
  destruct (eviction_only_of_expired 1 false true 0 to_callback rets s (ECallback 0 true ok) ret s' 1 0)
    as (e&He&Hev&Hx).
  - repeat constructor.
  - exact E.
  - reflexivity.
  - exact E'.
  - vm_compute in E. injection E as _ <-. reflexivity.
  - vm_compute in E. injection E as _ <-. vm_compute in E'. injection E' as _ <-. reflexivity.
  - exists s, e. split_and!; done.
Defined.
