(* ===== verification/TaskExecutor.v ===== *)
(** * TaskExecutor: the concurrent queue and the single-thread executor

    Models [cc/core/common/concurrent_queue/src/concurrent_queue.h] and
    [cc/core/async_executor/src/single_thread_async_executor.{h,cc}].

    Client threads that schedule, the worker thread and the thread in [Stop]
    share the executor.  [Schedule] takes no lock, so its test of [is_running_]
    and its enqueue are two events; the worker holds [mutex_] except while it
    waits and while it runs a task, and reads the two queues one after the
    other; [Stop] needs the lock for its critical section. *)

From S2P Require Import Prelude ExecResult.

Abbreviation SC_CONCURRENT_QUEUE := 0x0001%Z (only parsing).
Abbreviation SC_CONCURRENT_QUEUE_CANNOT_ENQUEUE := (MakeErrorCode SC_CONCURRENT_QUEUE 0x0001).
Abbreviation SC_CONCURRENT_QUEUE_CANNOT_DEQUEUE := (MakeErrorCode SC_CONCURRENT_QUEUE 0x0002).
Abbreviation SC_ASYNC_EXECUTOR := 0x0006%Z (only parsing).
Abbreviation SC_ASYNC_EXECUTOR_INVALID_QUEUE_CAP := (MakeErrorCode SC_ASYNC_EXECUTOR 0x0001).
Abbreviation SC_ASYNC_EXECUTOR_INVALID_THREAD_COUNT := (MakeErrorCode SC_ASYNC_EXECUTOR 0x0002).
Abbreviation SC_ASYNC_EXECUTOR_EXCEEDING_QUEUE_CAP := (MakeErrorCode SC_ASYNC_EXECUTOR 0x0003).
Abbreviation SC_ASYNC_EXECUTOR_NOT_INITIALIZED := (MakeErrorCode SC_ASYNC_EXECUTOR 0x0004).
Abbreviation SC_ASYNC_EXECUTOR_ALREADY_RUNNING := (MakeErrorCode SC_ASYNC_EXECUTOR 0x0005).
Abbreviation SC_ASYNC_EXECUTOR_NOT_RUNNING := (MakeErrorCode SC_ASYNC_EXECUTOR 0x0006).
Abbreviation SC_ASYNC_EXECUTOR_INVALID_PRIORITY_TYPE := (MakeErrorCode SC_ASYNC_EXECUTOR 0x0007).
Abbreviation SC_ASYNC_EXECUTOR_INVALID_LOAD_BALANCING_TYPE := (MakeErrorCode SC_ASYNC_EXECUTOR 0x0008).
Abbreviation SC_ASYNC_EXECUTOR_INVALID_TASK_POOL_TYPE := (MakeErrorCode SC_ASYNC_EXECUTOR 0x0009).

Abbreviation kMaxThreadCount := 10000%Z (only parsing).
Abbreviation kMaxQueueCap := (2 ^ 32 - 1)%Z (only parsing).

(** ** [tbb::concurrent_bounded_queue]

    A parameter: its documented sequential specification, each call atomic. *)
Class BoundedQueue (A Q : Type) := {
  set_capacity : Z → Q;   (* a new queue with that capacity *)
  try_push : A → Q → option Q;
  try_pop : Q → option (A * Q);
  unsafe_size : Q → Z;
  capacity : Q → Z;
  items : Q → list A;     (* the first to leave first *)
  new_items c : items (set_capacity c) = [];
  new_capacity c : capacity (set_capacity c) = c;
  push_some x q q' : try_push x q = Some q' → items q' = items q ++ [x] ∧ capacity q' = capacity q;
  push_none x q : try_push x q = None ↔ (capacity q ≤ zlen (items q))%Z;
  pop_some x q q' : try_pop q = Some (x, q') → items q = x :: items q' ∧ capacity q' = capacity q;
  pop_none q : try_pop q = None ↔ items q = [];
  size_items q : unsafe_size q = zlen (items q)
}.

(** A list with its capacity is one. *)
#[global, refine] Instance list_queue A : BoundedQueue A (Z * list A) := {
  set_capacity c := (c, []);
  try_push x q := if bool_decide (q.1 ≤ zlen q.2)%Z then None else Some (q.1, q.2 ++ [x]);
  try_pop q := match q.2 with [] => None | x :: l => Some (x, (q.1, l)) end;
  unsafe_size q := zlen q.2;
  capacity q := q.1;
  items q := q.2
}.
Proof.
  - done.
  - done.
  - intros x [c l] q'. case_bool_decide; intros; by simplify_eq/=.
  - intros x [c l]. by case_bool_decide.
  - intros x [c l] q'. destruct l; intros; by simplify_eq/=.
  - intros [c l]. by destruct l.
  - done.
Defined.

(** ** [ConcurrentQueue] *)

Section concurrent_queue.
Context {A Q : Type} `{BoundedQueue A Q}.

Definition TryEnqueue (element : A) (q : Q) : ExecutionResult * Q :=
  match try_push element q with
  | None => (FailureExecutionResult SC_CONCURRENT_QUEUE_CANNOT_ENQUEUE, q)
  | Some q' => (SuccessExecutionResult, q')
  end.

Definition TryDequeue (q : Q) : ExecutionResult * option A * Q :=
  match try_pop q with
  | None => (FailureExecutionResult SC_CONCURRENT_QUEUE_CANNOT_DEQUEUE, None, q)
  | Some (x, q') => (SuccessExecutionResult, Some x, q')
  end.

Definition QueueSize (q : Q) : Z := unsafe_size q.
End concurrent_queue.

Inductive AsyncPriority := Normal | High | Urgent.

#[global] Instance AsyncPriority_eq_dec : EqDecision AsyncPriority.
Proof. solve_decision. Defined.

(** ** [SingleThreadAsyncExecutor] *)

Section single_thread.
Context {Task Q : Type} `{BQ : BoundedQueue Task Q}.

(** Where the worker thread is.  It holds [mutex_] in [WSawNormalEmpty],
    [WPoll] and [WPollNormal]. *)
Inductive Worker :=
  | WNone                  (* no thread yet *)
  | WCreated               (* the thread exists and has not run *)
  | WWaiting               (* in [wait_for] *)
  | WSawNormalEmpty        (* read the size of the normal queue as 0 *)
  | WPoll                  (* some queue was not empty *)
  | WPollNormal            (* the high priority queue had nothing to dequeue *)
  | WExecuting (t : Task)    (* in [Execute] *)
  | WBroke                 (* out of the loop *)
  | WExited.

Definition worker_has_lock (w : Worker) : bool :=
  match w with WSawNormalEmpty | WPoll | WPollNormal => true | _ => false end.

(** Where the thread in [Stop] is.  It holds [mutex_] in the two drop loops. *)
Inductive StopCall :=
  SNone | SLocking | SDropNormal | SDropHigh | SWaiting | SDone (r : ExecutionResult).

Definition stop_has_lock (st : StopCall) : bool :=
  match st with SDropNormal | SDropHigh => true | _ => false end.

Inductive Fate := Executed | Dropped.

Record Executor := mkExecutor {
  queue_cap_ : Z;
  drop_tasks_on_stop_ : bool;
  is_running_ : bool;
  worker_thread_started_ : bool;
  worker_thread_stopped_ : bool;
  normal_pri_queue_ : option Q;
  high_pri_queue_ : option Q;
  worker : Worker;
  calls : list (Task * AsyncPriority);    (* in [Schedule], past its first test *)
  stop : StopCall;
  accepted : list (AsyncPriority * Task); (* history: what [Schedule] accepted *)
  gone : list (AsyncPriority * Task * Fate) (* history: what left the queues, in order *)
}.

Definition new_executor (queue_cap : Z) (drop : bool) : Executor :=
  mkExecutor queue_cap drop false false false None None WNone [] SNone [] [].

Definition set_is_running (x : bool) (e : Executor) : Executor :=
  mkExecutor (queue_cap_ e) (drop_tasks_on_stop_ e) x (worker_thread_started_ e)
    (worker_thread_stopped_ e) (normal_pri_queue_ e) (high_pri_queue_ e) (worker e) (calls e)
    (stop e) (accepted e) (gone e).
Definition set_started (x : bool) (e : Executor) : Executor :=
  mkExecutor (queue_cap_ e) (drop_tasks_on_stop_ e) (is_running_ e) x (worker_thread_stopped_ e)
    (normal_pri_queue_ e) (high_pri_queue_ e) (worker e) (calls e) (stop e) (accepted e) (gone e).
Definition set_stopped (x : bool) (e : Executor) : Executor :=
  mkExecutor (queue_cap_ e) (drop_tasks_on_stop_ e) (is_running_ e) (worker_thread_started_ e) x
    (normal_pri_queue_ e) (high_pri_queue_ e) (worker e) (calls e) (stop e) (accepted e) (gone e).
Definition set_normal (x : option Q) (e : Executor) : Executor :=
  mkExecutor (queue_cap_ e) (drop_tasks_on_stop_ e) (is_running_ e) (worker_thread_started_ e)
    (worker_thread_stopped_ e) x (high_pri_queue_ e) (worker e) (calls e) (stop e) (accepted e)
    (gone e).
Definition set_high (x : option Q) (e : Executor) : Executor :=
  mkExecutor (queue_cap_ e) (drop_tasks_on_stop_ e) (is_running_ e) (worker_thread_started_ e)
    (worker_thread_stopped_ e) (normal_pri_queue_ e) x (worker e) (calls e) (stop e) (accepted e)
    (gone e).
Definition set_worker (x : Worker) (e : Executor) : Executor :=
  mkExecutor (queue_cap_ e) (drop_tasks_on_stop_ e) (is_running_ e) (worker_thread_started_ e)
    (worker_thread_stopped_ e) (normal_pri_queue_ e) (high_pri_queue_ e) x (calls e) (stop e)
    (accepted e) (gone e).
Definition set_calls (x : list (Task * AsyncPriority)) (e : Executor) : Executor :=
  mkExecutor (queue_cap_ e) (drop_tasks_on_stop_ e) (is_running_ e) (worker_thread_started_ e)
    (worker_thread_stopped_ e) (normal_pri_queue_ e) (high_pri_queue_ e) (worker e) x (stop e)
    (accepted e) (gone e).
Definition set_stop (x : StopCall) (e : Executor) : Executor :=
  mkExecutor (queue_cap_ e) (drop_tasks_on_stop_ e) (is_running_ e) (worker_thread_started_ e)
    (worker_thread_stopped_ e) (normal_pri_queue_ e) (high_pri_queue_ e) (worker e) (calls e) x
    (accepted e) (gone e).
Definition set_accepted (x : list (AsyncPriority * Task)) (e : Executor) : Executor :=
  mkExecutor (queue_cap_ e) (drop_tasks_on_stop_ e) (is_running_ e) (worker_thread_started_ e)
    (worker_thread_stopped_ e) (normal_pri_queue_ e) (high_pri_queue_ e) (worker e) (calls e)
    (stop e) x (gone e).
Definition set_gone (x : list (AsyncPriority * Task * Fate)) (e : Executor) : Executor :=
  mkExecutor (queue_cap_ e) (drop_tasks_on_stop_ e) (is_running_ e) (worker_thread_started_ e)
    (worker_thread_stopped_ e) (normal_pri_queue_ e) (high_pri_queue_ e) (worker e) (calls e)
    (stop e) (accepted e) x.

Definition Init (e : Executor) : ExecutionResult * Executor :=
  if ((queue_cap_ e <=? 0) || (kMaxQueueCap <? queue_cap_ e))%Z
  then (FailureExecutionResult SC_ASYNC_EXECUTOR_INVALID_QUEUE_CAP, e)
  else (SuccessExecutionResult,
        set_high (Some (set_capacity (queue_cap_ e))) (set_normal (Some (set_capacity (queue_cap_ e))) e)).

(** A second worker beside a live one is not modelled: [None]. *)
Definition Run (e : Executor) : option (ExecutionResult * Executor) :=
  if is_running_ e
  then Some (FailureExecutionResult SC_ASYNC_EXECUTOR_ALREADY_RUNNING, e)
  else match normal_pri_queue_ e, high_pri_queue_ e with
       | Some _, Some _ =>
           match worker e with
           | WNone | WExited => Some (SuccessExecutionResult, set_worker WCreated (set_is_running true e))
           | _ => None
           end
       | _, _ => Some (FailureExecutionResult SC_ASYNC_EXECUTOR_NOT_INITIALIZED, e)
       end.

Definition queue_of (p : AsyncPriority) (e : Executor) : option Q :=
  match p with Normal => normal_pri_queue_ e | High => high_pri_queue_ e | Urgent => None end.

Definition set_queue (p : AsyncPriority) (q : Q) (e : Executor) : Executor :=
  match p with Normal => set_normal (Some q) e | High => set_high (Some q) e | Urgent => e end.

(** [Schedule] up to the enqueue: an error, or the task to enqueue. *)
Definition schedule_test (p : AsyncPriority) (e : Executor) : option ExecutionResult :=
  if negb (is_running_ e) then Some (FailureExecutionResult SC_ASYNC_EXECUTOR_NOT_RUNNING)
  else if negb (bool_decide (p = Normal)) && negb (bool_decide (p = High))
  then Some (FailureExecutionResult SC_ASYNC_EXECUTOR_INVALID_PRIORITY_TYPE)
  else None.

(** The rest of [Schedule]; an uninitialised queue is a null pointer: [None]. *)
Definition schedule_enqueue (t : Task) (p : AsyncPriority) (e : Executor) : option (ExecutionResult * Executor) :=
  q ← queue_of p e;
  let '(r, q') := TryEnqueue t q in
  if Successful r
  then Some (SuccessExecutionResult, set_accepted (accepted e ++ [(p, t)]) (set_queue p q' e))
  else Some (RetryExecutionResult SC_ASYNC_EXECUTOR_EXCEEDING_QUEUE_CAP, e).

(** [Schedule] without interference. *)
Definition Schedule (t : Task) (p : AsyncPriority) (e : Executor) : option (ExecutionResult * Executor) :=
  match schedule_test p e with
  | Some r => Some (r, e)
  | None => schedule_enqueue t p e
  end.

(** The worker thread: [StartWorker] between the assignments of its two flags. *)
Definition worker_step (e : Executor) : option Executor :=
  nq ← normal_pri_queue_ e;
  hq ← high_pri_queue_ e;
  match worker e with
  | WNone | WExited => None
  | WCreated => Some (set_worker WWaiting (set_started true e))
  | WWaiting =>
      if stop_has_lock (stop e) then None
      else if (QueueSize nq =? 0)%Z then Some (set_worker WSawNormalEmpty e)
      else Some (set_worker WPoll e)
  | WSawNormalEmpty =>
      if (QueueSize hq =? 0)%Z
      then Some (set_worker (if is_running_ e then WWaiting else WBroke) e)
      else Some (set_worker WPoll e)
  | WPoll =>
      match TryDequeue hq with
      | (_, Some t, q') => Some (set_worker (WExecuting t) (set_gone (gone e ++ [(High, t, Executed)]) (set_high (Some q') e)))
      | (_, None, _) => Some (set_worker WPollNormal e)
      end
  | WPollNormal =>
      match TryDequeue nq with
      | (_, Some t, q') => Some (set_worker (WExecuting t) (set_gone (gone e ++ [(Normal, t, Executed)]) (set_normal (Some q') e)))
      | (_, None, _) => Some (set_worker WWaiting e)
      end
  | WExecuting _ => Some (set_worker WWaiting e)
  | WBroke => Some (set_worker WExited (set_stopped true e))
  end.

(** The thread in [Stop]. *)
Definition stop_step (e : Executor) : option Executor :=
  nq ← normal_pri_queue_ e;
  hq ← high_pri_queue_ e;
  match stop e with
  | SNone | SDone _ =>
      if is_running_ e then Some (set_stop SLocking e)
      else Some (set_stop (SDone (FailureExecutionResult SC_ASYNC_EXECUTOR_NOT_RUNNING)) e)
  | SLocking =>
      if worker_has_lock (worker e) then None
      else Some (set_stop (if drop_tasks_on_stop_ e then SDropNormal else SWaiting) (set_is_running false e))
  | SDropNormal =>
      match TryDequeue nq with
      | (_, Some t, q') => Some (set_gone (gone e ++ [(Normal, t, Dropped)]) (set_normal (Some q') e))
      | (_, None, _) => Some (set_stop SDropHigh e)
      end
  | SDropHigh =>
      match TryDequeue hq with
      | (_, Some t, q') => Some (set_gone (gone e ++ [(High, t, Dropped)]) (set_high (Some q') e))
      | (_, None, _) => Some (set_stop SWaiting e)
      end
  | SWaiting =>
      if worker_thread_started_ e && worker_thread_stopped_ e
      then Some (set_stop (SDone SuccessExecutionResult) e) else Some e
  end.

Inductive Event :=
  | ERun
  | ESchedule (t : Task) (p : AsyncPriority)
  | EEnqueue (i : nat)
  | EWorker
  | EStop.

Definition step (e : Executor) (ev : Event) : option (option ExecutionResult * Executor) :=
  match ev with
  | ERun => '(r, e') ← Run e; Some (Some r, e')
  | ESchedule t p =>
      match schedule_test p e with
      | Some r => Some (Some r, e)
      | None => Some (None, set_calls (calls e ++ [(t, p)]) e)
      end
  | EEnqueue i =>
      '(t, p) ← calls e !! i;
      '(r, e') ← schedule_enqueue t p e;
      Some (Some r, set_calls (delete i (calls e)) e')
  | EWorker => e' ← worker_step e; Some (None, e')
  | EStop => e' ← stop_step e; Some (None, e')
  end.

(** ** First in, first out, exactly once *)

Definition tasks_of (p : AsyncPriority) (l : list (AsyncPriority * Task)) : list Task :=
  (filter (λ x, x.1 = p) l).*2.

Lemma tasks_of_app p l l' : tasks_of p (l ++ l') = tasks_of p l ++ tasks_of p l'.
Proof. unfold tasks_of. by rewrite filter_app, fmap_app. Qed.

Lemma tasks_of_eq p t : tasks_of p [(p, t)] = [t].
Proof. unfold tasks_of. by rewrite filter_cons_True. Qed.

Lemma tasks_of_ne p p' t : p ≠ p' → tasks_of p [(p', t)] = [].
Proof. intros Hne. unfold tasks_of. rewrite filter_cons_False; [done|]. simpl. congruence. Qed.

(** Per priority: what was accepted is what has left, then what is queued. *)
Definition fifo (p : AsyncPriority) (e : Executor) : Prop :=
  ∃ q, queue_of p e = Some q ∧ tasks_of p (accepted e) = tasks_of p (gone e).*1 ++ items q ∧
    capacity q = queue_cap_ e ∧ (zlen (items q) ≤ queue_cap_ e)%Z.

Definition fifos (e : Executor) : Prop := fifo Normal e ∧ fifo High e.

Lemma fifo_frame p e e' :
  fifo p e → queue_of p e' = queue_of p e → queue_cap_ e' = queue_cap_ e →
  tasks_of p (accepted e') = tasks_of p (accepted e) →
  tasks_of p (gone e').*1 = tasks_of p (gone e).*1 → fifo p e'.
Proof. intros (q&Hq&Hf&Hc&Hl) Eq Ec Ea Eg. exists q. by rewrite Eq, Ec, Ea, Eg. Qed.

(** A queue loses its first task, which is recorded. *)
Lemma fifo_pop p e e' t q q' f :
  fifo p e → queue_of p e = Some q → try_pop q = Some (t, q') →
  queue_of p e' = Some q' → queue_cap_ e' = queue_cap_ e → accepted e' = accepted e →
  gone e' = gone e ++ [(p, t, f)] → fifo p e'.
Proof.
  intros (q1&Hq&Hf&Hc&Hl) Hq1 Hp Eq Ec Ea Eg.
  assert (q1 = q) as -> by congruence. apply pop_some in Hp as [Hi Hcap].
  assert (length (items q) = S (length (items q'))) by (by rewrite Hi).
  exists q'. rewrite Eq, Ec, Ea, Eg, Hcap, fmap_app, tasks_of_app, Hf, Hi. simpl. rewrite tasks_of_eq.
  rewrite <-app_assoc. split_and!; [done..|]. lia.
Qed.

Lemma fifos_pop p e e' t q q' f :
  fifos e → queue_of p e = Some q → try_pop q = Some (t, q') → queue_of p e' = Some q' →
  (∀ p', p' ≠ p → queue_of p' e' = queue_of p' e) → queue_cap_ e' = queue_cap_ e →
  accepted e' = accepted e → gone e' = gone e ++ [(p, t, f)] → fifos e'.
Proof.
  intros [HN HH] Hq Hp Eq En Ec Ea Eg.
  assert (∀ p', fifo p' e → fifo p' e') as Hall; [|by split; apply Hall].
  intros p' Hf. destruct (decide (p' = p)) as [->|Hne]; [by eapply fifo_pop|].
  eapply fifo_frame; eauto; [by rewrite Ea|].
  rewrite Eg, fmap_app, tasks_of_app. simpl. by rewrite tasks_of_ne, app_nil_r.
Qed.

Lemma fifo_push p e e' t q q' :
  fifo p e → queue_of p e = Some q → try_push t q = Some q' →
  queue_of p e' = Some q' → queue_cap_ e' = queue_cap_ e → accepted e' = accepted e ++ [(p, t)] →
  gone e' = gone e → fifo p e'.
Proof.
  intros (q1&Hq&Hf&Hc&Hl) Hq1 Hp Eq Ec Ea Eg. assert (q1 = q) as -> by congruence.
  pose proof (push_none t q) as [_ Hn]. rewrite Hp in Hn. apply push_some in Hp as [Hi Hcap].
  exists q'. rewrite Eq, Ec, Ea, Eg, Hcap, tasks_of_app, tasks_of_eq, Hf, Hi, <-app_assoc.
  split_and!; [done..|]. destruct (decide (capacity q ≤ zlen (items q))%Z) as [Hle|Hnle]; [by discriminate Hn|].
  rewrite length_app. simpl. lia.
Qed.

Lemma dequeue_some q r t q' : TryDequeue q = (r, Some t, q') → try_pop q = Some (t, q').
Proof. unfold TryDequeue. destruct (try_pop q) as [[??]|]; intros; by simplify_eq. Qed.

Lemma fifos_step e ev r e' : fifos e → step e ev = Some (r, e') → fifos e'.
Proof.
  intros [HN HH] Hs. destruct ev as [|t p|i| |]; simpl in Hs.
  - unfold Run in Hs. repeat case_match; simplify_eq/=; split; done.
  - repeat case_match; simplify_eq/=; split; done.
  - apply bind_Some in Hs as ([t p]&_&Hs). apply bind_Some in Hs as ([r' e1]&Hs&?). simplify_eq.
    unfold schedule_enqueue in Hs. apply bind_Some in Hs as (q&Hq&Hs). unfold TryEnqueue in Hs.
    destruct (try_push t q) as [q'|] eqn:Hp; simplify_eq/=; [|by split].
    destruct p; simpl in *; [| |done]; split.
    + by eapply (fifo_push Normal e).
    + eapply (fifo_frame High e); try done. simpl. rewrite tasks_of_app, tasks_of_ne by done. apply app_nil_r.
    + eapply (fifo_frame Normal e); try done. simpl. rewrite tasks_of_app, tasks_of_ne by done. apply app_nil_r.
    + by eapply (fifo_push High e).
  - apply bind_Some in Hs as (e1&Hs&?). simplify_eq. unfold worker_step in Hs.
    apply bind_Some in Hs as (nq&Hnq&Hs). apply bind_Some in Hs as (hq&Hhq&Hs).
    destruct (worker e); simplify_eq/=; try (repeat case_match; simplify_eq/=; split; done).
    + destruct (TryDequeue hq) as [[r0 [t|]] q'] eqn:Hd; simplify_eq/=; [|by split].
      eapply (fifos_pop High e); eauto using dequeue_some; [by split|by intros []].
    + destruct (TryDequeue nq) as [[r0 [t|]] q'] eqn:Hd; simplify_eq/=; [|by split].
      eapply (fifos_pop Normal e); eauto using dequeue_some; [by split|by intros []].
  - apply bind_Some in Hs as (e1&Hs&?). simplify_eq. unfold stop_step in Hs.
    apply bind_Some in Hs as (nq&Hnq&Hs). apply bind_Some in Hs as (hq&Hhq&Hs).
    destruct (stop e); simplify_eq/=; try (repeat case_match; simplify_eq/=; split; done).
    + destruct (TryDequeue nq) as [[r0 [t|]] q'] eqn:Hd; simplify_eq/=; [|by split].
      eapply (fifos_pop Normal e); eauto using dequeue_some; [by split|by intros []].
    + destruct (TryDequeue hq) as [[r0 [t|]] q'] eqn:Hd; simplify_eq/=; [|by split].
      eapply (fifos_pop High e); eauto using dequeue_some; [by split|by intros []].
Qed.

(** ** The worker's loop *)

Definition queued (p : AsyncPriority) (e : Executor) : list Task :=
  match queue_of p e with Some q => items q | None => [] end.

Record loop_inv (e : Executor) : Prop := {
  lo_fifo : fifos e;
  lo_live : is_running_ e = true → worker e ≠ WNone ∧ worker e ≠ WBroke ∧ worker e ≠ WExited;
  lo_stop : stop e = SLocking → is_running_ e = true;
  lo_lock : stop_has_lock (stop e) = true →
    worker_has_lock (worker e) = false ∧ drop_tasks_on_stop_ e = true;
  lo_poll : worker e = WPoll → queued Normal e ≠ [] ∨ queued High e ≠ [];
  lo_poll_normal : worker e = WPollNormal → queued Normal e ≠ [];
  lo_drop : drop_tasks_on_stop_ e = false → ∀ x, x ∈ gone e → x.2 = Executed
}.

Lemma size_zero (q : Q) : (QueueSize q =? 0)%Z = true ↔ items q = [].
Proof.
  unfold QueueSize. rewrite Z.eqb_eq, size_items. destruct (items q); simpl; split; try done; lia.
Qed.

Lemma dequeue_none q r q' : TryDequeue q = (r, None, q') → items q = [].
Proof.
  unfold TryDequeue. destruct (try_pop q) as [[??]|] eqn:E; intros; simplify_eq. by apply pop_none.
Qed.

Lemma loop_worker e e' : loop_inv e → worker_step e = Some e' → fifos e' → loop_inv e'.
Proof.
  intros [HF HL HS HK HP HPN HD] Hs HF'. unfold worker_step in Hs.
  apply bind_Some in Hs as (nq&Hnq&Hs). apply bind_Some in Hs as (hq&Hhq&Hs).
  unfold queued in *. simpl in *. rewrite ?Hnq, ?Hhq in *.
  destruct (worker e) eqn:Hw; simplify_eq/=.
  - split; simpl; done.
  - destruct (stop_has_lock (stop e)) eqn:Hk; [done|].
    destruct (QueueSize nq =? 0)%Z eqn:Hz; simplify_eq/=; split; unfold queued; simpl; rewrite ?Hnq, ?Hhq, ?Hk; try done.
    intros _. left. intros E. apply size_zero in E. congruence.
  - destruct (QueueSize hq =? 0)%Z eqn:Hz; simplify_eq/=; split; unfold queued; simpl; rewrite ?Hnq, ?Hhq; try done;
      try (destruct (is_running_ e) eqn:Hr; done); try (intros Hk; by destruct (HK Hk)).
    intros _. right. intros E. apply size_zero in E. congruence.
  - destruct (TryDequeue hq) as [[r0 [t|]] q'] eqn:Hd; simplify_eq/=.
    + split; unfold queued; simpl; try done; try (intros Hk; by destruct (HK Hk)). intros Hdr x. rewrite elem_of_app. intros [?|?]; [auto|].
      assert (x = (High, t, Executed)) as -> by set_solver. done.
    + apply dequeue_none in Hd. split; unfold queued; simpl; rewrite ?Hnq, ?Hhq; try done; try (intros Hk; by destruct (HK Hk)).
      intros _. destruct (HP eq_refl); [done|congruence].
  - destruct (TryDequeue nq) as [[r0 [t|]] q'] eqn:Hd; simplify_eq/=.
    + split; unfold queued; simpl; try done; try (intros Hk; by destruct (HK Hk)). intros Hdr x. rewrite elem_of_app. intros [?|?]; [auto|].
      assert (x = (Normal, t, Executed)) as -> by set_solver. done.
    + split; unfold queued; simpl; try done; intros Hk; by destruct (HK Hk).
  - split; unfold queued; simpl; done.
  - split; unfold queued; simpl; try done. intros Hr. by destruct (HL Hr) as (_&?&_).
Qed.

Lemma loop_stop e e' : loop_inv e → stop_step e = Some e' → fifos e' → loop_inv e'.
Proof.
  intros [HF HL HS HK HP HPN HD] Hs HF'. unfold stop_step in Hs.
  apply bind_Some in Hs as (nq&Hnq&Hs). apply bind_Some in Hs as (hq&Hhq&Hs).
  unfold queued in *. simpl in *. rewrite ?Hnq, ?Hhq in *.
  destruct (stop e) eqn:Hst; simplify_eq/=.
  - destruct (is_running_ e) eqn:Hr; simplify_eq/=; split; unfold queued; simpl; rewrite ?Hnq, ?Hhq, ?Hr; done.
  - destruct (worker_has_lock (worker e)) eqn:Hk; [done|]. simplify_eq/=.
    split; unfold queued; simpl; rewrite ?Hnq, ?Hhq; try done; by destruct (drop_tasks_on_stop_ e).
  - destruct (HK eq_refl) as [HK1 HK2].
    destruct (TryDequeue nq) as [[r0 [t|]] q'] eqn:Hd; simplify_eq/=;
      split; unfold queued; simpl; rewrite ?Hst, ?Hnq, ?Hhq; try done;
      try (intros Hw; by rewrite Hw in HK1); by rewrite HK2.
  - destruct (HK eq_refl) as [HK1 HK2].
    destruct (TryDequeue hq) as [[r0 [t|]] q'] eqn:Hd; simplify_eq/=;
      split; unfold queued; simpl; rewrite ?Hst, ?Hnq, ?Hhq; try done;
      try (intros Hw; by rewrite Hw in HK1); by rewrite HK2.
  - destruct (_ && _); simplify_eq/=; split; unfold queued; simpl; rewrite ?Hst, ?Hnq, ?Hhq; done.
  - destruct (is_running_ e) eqn:Hr; simplify_eq/=; split; unfold queued; simpl; rewrite ?Hnq, ?Hhq, ?Hr; done.
Qed.

Lemma loop_step e ev r e' : loop_inv e → step e ev = Some (r, e') → loop_inv e'.
Proof.
  intros HI Hs. pose proof (fifos_step _ _ _ _ (lo_fifo _ HI) Hs) as HF'.
  destruct ev as [|t p|i| |]; simpl in Hs.
  - apply bind_Some in Hs as ([r1 e1]&Hs&?). simplify_eq. unfold Run in Hs.
    destruct HI as [HF HL HS HK HP HPN HD].
    destruct (is_running_ e) eqn:Hr; simplify_eq/=; [split; try done; by rewrite Hr|].
    pose proof HF as [(nq&Hnq&_) (hq&Hhq&_)]. simpl in Hnq, Hhq. rewrite Hnq, Hhq in Hs.
    destruct (worker e); simplify_eq/=; split; simpl; try done; intros Hk; by destruct (HK Hk).
  - destruct HI. repeat case_match; simplify_eq/=; split; done.
  - apply bind_Some in Hs as ([t p]&_&Hs). apply bind_Some in Hs as ([r' e1]&Hs&?). simplify_eq.
    unfold schedule_enqueue in Hs. apply bind_Some in Hs as (q&Hq&Hs). unfold TryEnqueue in Hs.
    destruct (try_push t q) as [q'|] eqn:Hp; simplify_eq/=; [|by destruct HI; split].
    apply push_some in Hp as [Hi _]. destruct HI as [HF HL HS HK HP HPN HD].
    assert (∀ l x, l ++ [x] ≠ @nil Task) as Hne by (intros [] ?; done).
    destruct p; simpl in *; [| |done]; split; simpl; try done; unfold queued in *; simpl in *;
      rewrite ?Hq in *; rewrite ?Hi; auto. 
  - apply bind_Some in Hs as (e1&Hs&?). simplify_eq. by eapply loop_worker.
  - apply bind_Some in Hs as (e1&Hs&?). simplify_eq. by eapply loop_stop.
Qed.

Definition initialised (cap : Z) (drop : bool) : Executor := (Init (new_executor cap drop)).2.

Lemma initialised_inv cap drop : (0 < cap ≤ kMaxQueueCap)%Z → loop_inv (initialised cap drop).
Proof.
  intros Hc. unfold initialised, Init. simpl.
  destruct (Z.leb_spec cap 0), (Z.ltb_spec kMaxQueueCap cap); try lia. simpl.
  split; simpl; try done; [|intros _ x Hx; by apply elem_of_nil in Hx].
  split; exists (set_capacity cap); rewrite new_items, new_capacity; split_and!; try done; simpl; lia.
Qed.

Lemma loop_reach cap drop evs rs e :
  (0 < cap ≤ kMaxQueueCap)%Z → run_ops step (initialised cap drop) evs = Some (rs, e) → loop_inv e.
Proof.
  intros Hc. apply (run_ops_invariant step (λ _, True)); [|by apply initialised_inv|by apply Forall_true].
  intros e1 ev r e2 HI _. by apply loop_step.
Qed.

(** ** Stopping drains the queues *)

Definition no_run (ev : Event) : Prop := ev ≠ ERun.

(** Histories only grow, and [Stop]'s drop does not happen without the flag. *)
Lemma step_grows e ev r e' :
  step e ev = Some (r, e') →
  accepted e `prefix_of` accepted e' ∧ gone e `prefix_of` gone e' ∧
  drop_tasks_on_stop_ e' = drop_tasks_on_stop_ e.
Proof.
  intros Hs. destruct ev as [|t p|i| |]; simpl in Hs.
  - unfold Run in Hs. apply bind_Some in Hs as ([r1 e1]&Hs&?). repeat case_match; by simplify_eq/=.
  - repeat case_match; by simplify_eq/=.
  - apply bind_Some in Hs as ([t p]&_&Hs). apply bind_Some in Hs as ([r' e1]&Hs&?). simplify_eq.
    unfold schedule_enqueue in Hs. apply bind_Some in Hs as (q&Hq&Hs).
    destruct (TryEnqueue t q) as [r2 q2], (Successful r2); simplify_eq/=; [|done].
    destruct p; simpl; split_and!; eauto using prefix_app_r.
  - apply bind_Some in Hs as (e1&Hs&?). simplify_eq. unfold worker_step in Hs.
    apply bind_Some in Hs as (nq&_&Hs). apply bind_Some in Hs as (hq&_&Hs).
    repeat case_match; simplify_eq/=; split_and!; eauto using prefix_app_r.
  - apply bind_Some in Hs as (e1&Hs&?). simplify_eq. unfold stop_step in Hs.
    apply bind_Some in Hs as (nq&_&Hs). apply bind_Some in Hs as (hq&_&Hs).
    repeat case_match; simplify_eq/=; split_and!; eauto using prefix_app_r.
Qed.

Definition n_gone (p : AsyncPriority) (e : Executor) : nat := length (tasks_of p (gone e).*1).

(** Once the worker has left its loop, what was accepted before the critical
    section of [Stop] has left the queues. *)
Record drained (n_normal n_high : nat) (e : Executor) : Prop := {
  dr_inv : loop_inv e;
  dr_run : is_running_ e = false;
  dr_acc : n_normal ≤ length (tasks_of Normal (accepted e)) ∧ n_high ≤ length (tasks_of High (accepted e));
  dr_saw : worker e = WSawNormalEmpty → n_normal ≤ n_gone Normal e;
  dr_exit : worker e = WBroke ∨ worker e = WExited → n_normal ≤ n_gone Normal e ∧ n_high ≤ n_gone High e
}.

Lemma tasks_of_prefix p l l' : l `prefix_of` l' → tasks_of p l `prefix_of` tasks_of p l'.
Proof. intros [k ->]. rewrite tasks_of_app. apply prefix_app_r, reflexivity. Qed.

Lemma gone_grows p e e' : gone e `prefix_of` gone e' → n_gone p e ≤ n_gone p e'.
Proof.
  intros [k E]. unfold n_gone. rewrite E, fmap_app, tasks_of_app, length_app. lia.
Qed.

Lemma fifo_length p e :
  fifo p e → length (tasks_of p (accepted e)) = n_gone p e + length (queued p e).
Proof. intros (q&Hq&Hf&_). unfold queued, n_gone. rewrite Hq, Hf, length_app. done. Qed.

(** The two states the worker enters with an empty queue. *)
Lemma worker_enters e e' :
  worker_step e = Some e' →
  (worker e' = WSawNormalEmpty → queued Normal e = []) ∧
  (worker e' = WBroke → queued High e = [] ∧ worker e = WSawNormalEmpty) ∧
  (worker e' = WExited → worker e = WBroke) ∧ is_running_ e' = is_running_ e.
Proof.
  intros Hs. unfold worker_step in Hs.
  apply bind_Some in Hs as (nq&Hnq&Hs). apply bind_Some in Hs as (hq&Hhq&Hs).
  unfold queued. simpl. rewrite Hnq, Hhq.
  destruct (worker e); simplify_eq/=; try done.
  - destruct (stop_has_lock _); [done|]. destruct (QueueSize nq =? 0)%Z eqn:Hz; simplify_eq/=; [|done].
    apply size_zero in Hz. done.
  - destruct (QueueSize hq =? 0)%Z eqn:Hz; simplify_eq/=; [|done]. apply size_zero in Hz.
    by destruct (is_running_ e).
  - destruct (TryDequeue hq) as [[r0 [t|]] q']; by simplify_eq/=.
  - destruct (TryDequeue nq) as [[r0 [t|]] q']; by simplify_eq/=.
Qed.

Lemma drained_step nN nH e ev r e' :
  drained nN nH e → no_run ev → step e ev = Some (r, e') → drained nN nH e'.
Proof.
  intros [HI Hr [HaN HaH] Hw Hx] Hnr Hs. destruct (step_grows _ _ _ _ Hs) as (Ha&Hg&_).
  pose proof (gone_grows Normal _ _ Hg) as HgN. pose proof (gone_grows High _ _ Hg) as HgH.
  pose proof (prefix_length _ _ (tasks_of_prefix Normal _ _ Ha)).
  pose proof (prefix_length _ _ (tasks_of_prefix High _ _ Ha)).
  pose proof (lo_fifo _ HI) as [HfN%fifo_length HfH%fifo_length].
  assert (is_running_ e' = false ∧
    (ev ≠ EWorker → worker e' = worker e)) as [Hr' Hsame].
  { destruct ev as [|t p|i| |]; simpl in Hs; [by destruct Hnr|..].
    - repeat case_match; by simplify_eq/=.
    - apply bind_Some in Hs as ([t p]&_&Hs). apply bind_Some in Hs as ([r' e1]&Hs&?). simplify_eq.
      unfold schedule_enqueue in Hs. apply bind_Some in Hs as (q&Hq&Hs).
      destruct (TryEnqueue t q) as [r2 q2], (Successful r2); simplify_eq/=; by destruct p.
    - apply bind_Some in Hs as (e1&Hs&?). simplify_eq. split; [|done].
      destruct (worker_enters _ _ Hs) as (_&_&_&E). congruence.
    - apply bind_Some in Hs as (e1&Hs&?). simplify_eq. unfold stop_step in Hs.
      apply bind_Some in Hs as (nq&_&Hs). apply bind_Some in Hs as (hq&_&Hs).
      repeat case_match; by simplify_eq/=. }
  assert (ev = EWorker ∨ ev ≠ EWorker) as Hev by (destruct ev; auto).
  split; [by eapply loop_step|done|lia|..].
  - intros Hw'. destruct Hev as [->|Hne].
    + simpl in Hs. apply bind_Some in Hs as (e1&Hs&?). simplify_eq.
      destruct (worker_enters _ _ Hs) as (E&_). rewrite (E Hw') in HfN. simpl in HfN. lia.
    + rewrite Hsame in Hw' by done. specialize (Hw Hw'). lia.
  - intros Hx'. destruct Hev as [->|Hne].
    + simpl in Hs. apply bind_Some in Hs as (e1&Hs&?). simplify_eq.
      destruct (worker_enters _ _ Hs) as (_&E1&E2&_). destruct Hx' as [Hx'|Hx'].
      * destruct (E1 Hx') as [Eq Ew]. specialize (Hw Ew). rewrite Eq in HfH. simpl in HfH. lia.
      * specialize (E2 Hx'). destruct Hx; [by left|]. lia.
    + rewrite Hsame in Hx' by done. destruct (Hx Hx'). lia.
Qed.

Lemma drained_exit nN nH e :
  drained nN nH e → worker e = WExited → n_gone Normal e ≥ nN ∧ n_gone High e ≥ nH.
Proof. intros [_ _ _ _ Hx] Hw. apply Hx. auto. Qed.

Lemma prefix_of_shorter {A} (l l1 l2 : list A) :
  l `prefix_of` l2 → l1 `prefix_of` l2 → length l ≤ length l1 → l `prefix_of` l1.
Proof.
  intros Hl Hl1 Hle. destruct (prefix_weak_total _ _ _ Hl Hl1) as [?|[k ->]]; [done|].
  rewrite length_app in Hle. destruct k; [|simpl in Hle; lia]. by rewrite app_nil_r.
Qed.

(** ** The worker leaves once the executor is stopped *)

Definition worker_rank (w : Worker) : nat :=
  match w with
  | WNone | WExited => 0 | WBroke => 1 | WPollNormal => 1 | WPoll => 2
  | WSawNormalEmpty => 3 | WWaiting => 4 | WCreated | WExecuting _ => 5
  end.

Definition exit_measure (e : Executor) : nat :=
  5 * (length (queued Normal e) + length (queued High e)) + worker_rank (worker e).

Lemma worker_decreases e :
  loop_inv e → is_running_ e = false → stop_has_lock (stop e) = false →
  worker e ≠ WNone → worker e ≠ WExited →
  ∃ e', worker_step e = Some e' ∧ exit_measure e' < exit_measure e ∧ worker e' ≠ WNone ∧
    is_running_ e' = false ∧ stop e' = stop e.
Proof.
  intros [[(nq&Hnq&_) (hq&Hhq&_)] _ _ _ HP HPN _] Hr Hk Hw1 Hw2. simpl in Hnq, Hhq.
  unfold worker_step, exit_measure, queued in *. simpl in *. rewrite Hnq, Hhq in *. simpl.
  destruct (worker e) eqn:Hw; try done.
  - eexists. split; [done|]. simpl. rewrite Hnq, Hhq. split_and!; [lia|done..].
  - rewrite Hk. destruct (QueueSize nq =? 0)%Z; (eexists; split; [done|]; simpl; rewrite Hnq, Hhq;
      split_and!; [lia|done..]).
  - destruct (QueueSize hq =? 0)%Z; [rewrite Hr|]; (eexists; split; [done|]; simpl; rewrite Hnq, Hhq;
      split_and!; [lia|done..]).
  - destruct (TryDequeue hq) as [[r0 [t|]] q'] eqn:Hd.
    + apply dequeue_some, pop_some in Hd as [Hi _]. eexists. split; [done|]. simpl. rewrite Hnq, Hi. simpl.
      split_and!; [lia|done..].
    + eexists. split; [done|]. simpl. rewrite Hnq, Hhq. split_and!; [lia|done..].
  - destruct (TryDequeue nq) as [[r0 [t|]] q'] eqn:Hd.
    + apply dequeue_some, pop_some in Hd as [Hi _]. eexists. split; [done|]. simpl. rewrite Hhq, Hi. simpl.
      split_and!; [lia|done..].
    + apply dequeue_none in Hd. by destruct (HPN eq_refl).
  - eexists. split; [done|]. simpl. rewrite Hnq, Hhq. split_and!; [lia|done..].
  - eexists. split; [done|]. simpl. rewrite Hnq, Hhq. split_and!; [lia|done..].
Qed.

Lemma worker_exits n e :
  exit_measure e ≤ n → loop_inv e → is_running_ e = false → stop_has_lock (stop e) = false →
  worker e ≠ WNone →
  ∃ k rs e', k ≤ n ∧ run_ops step e (replicate k EWorker) = Some (rs, e') ∧ worker e' = WExited.
Proof.
  revert e. induction n as [|n IH]; intros e Hm HI Hr Hk Hw.
  - exists 0, [], e. split_and!; [done..|]. unfold exit_measure in Hm. destruct (worker e); simpl in Hm; try lia; done.
  - assert (worker e = WExited ∨ worker e ≠ WExited) as [He|He] by (destruct (worker e); auto).
    + exists 0, [], e. split_and!; [lia|done..].
    + destruct (worker_decreases e) as (e1&Hs&Hlt&Hw1&Hr1&Hst); [done..|].
      assert (step e EWorker = Some (None, e1)) as Hstep by (simpl; by rewrite Hs).
      destruct (IH e1) as (k&rs&e2&Hkn&Hrun&Hx); [lia|by eapply loop_step|done|by rewrite Hst|done|].
      exists (S k), (None :: rs), e2. split_and!; [lia| |done]. simpl replicate. cbn [run_ops].
      rewrite Hstep. simpl. by rewrite Hrun.
Qed.

(** C5: in every interleaving of [Schedule], the worker and [Stop], per priority the tasks taken
    from the queue so far followed by those still queued are exactly the accepted tasks in the order
    of their acceptance (none lost, duplicated or reordered), and the queue never exceeds its cap. *)
Theorem executor_fifo_exactly_once cap drop evs rs e p :
  (0 < cap ≤ kMaxQueueCap)%Z → run_ops step (initialised cap drop) evs = Some (rs, e) → p ≠ Urgent →
  tasks_of p (accepted e) = tasks_of p (gone e).*1 ++ queued p e ∧
  (zlen (queued p e) ≤ queue_cap_ e)%Z.
Proof.
  intros Hc Hrun Hp. destruct (lo_fifo _ (loop_reach _ _ _ _ _ Hc Hrun)) as [HN HH].
  assert (fifo p e) as (q&Hq&Hf&_&Hl) by (by destruct p). unfold queued. by rewrite Hq.
Qed.

(** C35: unless told to drop them, a stopped executor has executed every task accepted before the
    critical section of [Stop]: when the worker has exited, the accepted tasks of that moment are a
    prefix of the executed ones, per priority. *)
Theorem stop_drains cap evs rs e0 r1 e1 evs' rs' e2 p :
  (0 < cap ≤ kMaxQueueCap)%Z → run_ops step (initialised cap false) evs = Some (rs, e0) →
  stop e0 = SLocking → step e0 EStop = Some (r1, e1) →
  Forall no_run evs' → run_ops step e1 evs' = Some (rs', e2) → worker e2 = WExited → p ≠ Urgent →
  tasks_of p (accepted e1) `prefix_of` tasks_of p (gone e2).*1 ∧ ∀ x, x ∈ gone e2 → x.2 = Executed.
Proof.
  intros Hc Hrun Hst Hs Hev Hrun' Hx Hp. pose proof (loop_reach _ _ _ _ _ Hc Hrun) as HI.
  assert (drop_tasks_on_stop_ e0 = false) as Hd0.
  { revert Hrun. apply (run_ops_invariant step (λ _, True) (λ e, drop_tasks_on_stop_ e = false));
      [|unfold initialised, Init; by destruct (_ || _)|by apply Forall_true].
    intros e ev r e' Hd _ Hs'. destruct (step_grows _ _ _ _ Hs') as (_&_&->). done. }
  destruct (step_grows _ _ _ _ Hs) as (_&_&Hd1).
  assert (drained (length (tasks_of Normal (accepted e1))) (length (tasks_of High (accepted e1))) e1) as HD.
  { pose proof (loop_step _ _ _ _ HI Hs) as HI1. destruct (lo_live _ HI (lo_stop _ HI Hst)) as (_&Hb&He).
    simpl in Hs. apply bind_Some in Hs as (e1'&Hs&?). simplify_eq. unfold stop_step in Hs.
    apply bind_Some in Hs as (nq&_&Hs). apply bind_Some in Hs as (hq&_&Hs). rewrite Hst in Hs.
    destruct (worker_has_lock (worker e0)) eqn:Hk; simplify_eq/=.
    split; simpl; [done|done|done| |]; [intros Hw; by rewrite Hw in Hk|tauto]. }
  assert (drained (length (tasks_of Normal (accepted e1))) (length (tasks_of High (accepted e1))) e2 ∧
          accepted e1 `prefix_of` accepted e2 ∧ drop_tasks_on_stop_ e2 = false) as (HD2&Ha&Hd2).
  { revert Hrun'. apply (run_ops_invariant step no_run (λ e, drained (length (tasks_of Normal (accepted e1)))
      (length (tasks_of High (accepted e1))) e ∧ accepted e1 `prefix_of` accepted e ∧
      drop_tasks_on_stop_ e = false)); [|split_and!; [done|done|congruence]|done].
    intros e ev r e' (HD'&Ha'&Hd') Hn Hs'. destruct (step_grows _ _ _ _ Hs') as (Ha2&_&Hd2).
    split_and!; [by eapply drained_step|by etrans|congruence]. }
  split; [|apply (lo_drop _ (dr_inv _ _ _ HD2) Hd2)].
  destruct (drained_exit _ _ _ HD2 Hx) as [HN HH]. destruct (lo_fifo _ (dr_inv _ _ _ HD2)) as [FN FH].
  assert (fifo p e2) as (q&Hq&Hf&_) by (by destruct p).
  eapply prefix_of_shorter; [by apply tasks_of_prefix|rewrite Hf; apply prefix_app_r, reflexivity|].
  unfold n_gone in *. by destruct p.
Qed.

(** After [Stop]'s critical section the worker leaves its loop within a bounded number of its
    own steps if nobody enqueues in between, whatever it was doing and however full the queues are,
    so the wait of [Stop] ends. *)
Theorem stop_terminates cap drop evs rs e :
  (0 < cap ≤ kMaxQueueCap)%Z → run_ops step (initialised cap drop) evs = Some (rs, e) →
  is_running_ e = false → stop_has_lock (stop e) = false → worker e ≠ WNone →
  ∃ k rs' e', k ≤ 5 * (length (queued Normal e) + length (queued High e)) + 5 ∧
    run_ops step e (replicate k EWorker) = Some (rs', e') ∧ worker e' = WExited.
Proof.
  intros Hc Hrun Hr Hk Hw. pose proof (loop_reach _ _ _ _ _ Hc Hrun) as HI.
  apply worker_exits; try done. unfold exit_measure. destruct (worker e); simpl; lia.
Qed.
End single_thread.

(** ** Two defects of stopping *)

Abbreviation SExecutor := (Executor (Task:=nat) (Q:=Z * list nat)).

(** [Run], and the worker's thread to its first wait. *)
Definition run_worker : list (Event (Task:=nat)) := [ERun; EWorker].

(** Let the worker find both queues empty and leave. *)
Definition leave : list (Event (Task:=nat)) := [EWorker; EWorker; EWorker].

Definition results_and (evs : list Event) : option (list ExecutionResult * (StopCall * Worker * list nat)) :=
  (λ r : list (option ExecutionResult) * SExecutor,
     (omap id r.1, (stop r.2, worker r.2, queued Normal r.2))) <$> run_ops step (initialised 4 false) evs.

(** [Schedule] tests [is_running_] and enqueues without the lock.  A task whose [Schedule]
    returns success while [Stop] runs can stay in the queue for good: the worker has exited and
    [Stop] has returned success. *)
Theorem schedule_races_with_stop :
  results_and (run_worker ++ [ESchedule 7 Normal; EStop; EStop] ++ leave ++ [EEnqueue 0; EStop]) =
  Some ([SuccessExecutionResult; SuccessExecutionResult], (SDone SuccessExecutionResult, WExited, [7])).
Proof. vm_compute. reflexivity. Qed.

(** The flags of the worker thread are not reset by [Run].  After a restart, [Stop] returns
    success although the new worker has not exited and an accepted task is still queued. *)
Theorem restarted_stop_does_not_wait :
  results_and (run_worker ++ [EStop; EStop] ++ leave ++ [EStop] ++
               run_worker ++ [ESchedule 7 Normal; EEnqueue 0; EStop; EStop; EStop]) =
  Some ([SuccessExecutionResult; SuccessExecutionResult; SuccessExecutionResult],
        (SDone SuccessExecutionResult, WWaiting, [7])).
Proof. vm_compute. reflexivity. Qed.

(** ** Witnesses *)

Definition busy : list (Event (Task:=nat)) :=
  run_worker ++ [ESchedule 1 Normal; EEnqueue 0; ESchedule 2 High; EEnqueue 0; ESchedule 3 Normal; EEnqueue 0;
                 EWorker; EWorker].

Lemma executor_fifo_exactly_once_witness :
  ∃ rs (e : SExecutor), run_ops step (initialised 4 false) busy = Some (rs, e) ∧
    tasks_of Normal (accepted e) = tasks_of Normal (gone e).*1 ++ queued Normal e.
Proof.
  destruct (run_ops step (initialised (Q:=Z * list nat) 4 false) busy) as [[rs e]|] eqn:E;
    [|vm_compute in E; discriminate].
  exists rs, e. split; [reflexivity|].
  apply (executor_fifo_exactly_once 4 false busy rs e Normal); [done|exact E|done].
Defined.

Lemma stop_drains_witness :
  ∃ (e1 e2 : SExecutor), tasks_of Normal (accepted e1) = [1; 3] ∧
    tasks_of Normal (accepted e1) `prefix_of` tasks_of Normal (gone e2).*1.
Proof.
  destruct (run_ops step (initialised (Q:=Z * list nat) 4 false) (busy ++ [EStop])) as [[rs e0]|] eqn:E0;
    [|vm_compute in E0; discriminate].
  destruct (step e0 EStop) as [[r1 e1]|] eqn:E1;
    [|vm_compute in E0; injection E0 as _ <-; vm_compute in E1; discriminate].
  destruct (run_ops step e1 (replicate 12 EWorker)) as [[rs' e2]|] eqn:E2;
    [|vm_compute in E0; injection E0 as _ <-; vm_compute in E1; injection E1 as _ <-;
      vm_compute in E2; discriminate].
  exists e1, e2. split; [vm_compute in E0; injection E0 as _ <-; vm_compute in E1; injection E1 as _ <-; reflexivity|].
  apply (stop_drains 4 (busy ++ [EStop]) rs e0 r1 e1 (replicate 12 EWorker) rs' e2 Normal);
    [done|exact E0| |exact E1|by apply Forall_replicate|exact E2| |done];
    vm_compute in E0; injection E0 as _ <-; [reflexivity|].
  vm_compute in E1. injection E1 as _ <-. vm_compute in E2. injection E2 as _ <-. reflexivity.
Defined.

Lemma stop_terminates_witness :
  ∃ (e e' : SExecutor) k rs', queued Normal e = [1; 3] ∧
    run_ops step e (replicate k EWorker) = Some (rs', e') ∧ worker e' = WExited.
Proof.
  destruct (run_ops step (initialised (Q:=Z * list nat) 4 false) (busy ++ [EStop; EStop])) as [[rs e]|] eqn:E;
    [|vm_compute in E; discriminate].
  destruct (stop_terminates 4 false (busy ++ [EStop; EStop]) rs e) as (k&rs'&e'&_&Hrun&Hx);
    [done|exact E|vm_compute in E; injection E as _ <-; done..|].
  exists e, e', k, rs'. split; [|by split]. vm_compute in E. injection E as _ <-. reflexivity.
Defined.
