(* ===== verification/PriorityExecutor.v ===== *)
(** * PriorityExecutor: tasks that run at a given time

    Models [cc/core/async_executor/src/async_task.h] and
    [cc/core/async_executor/src/single_thread_priority_async_executor.{h,cc}].

    The queue is only touched under [mutex_], so an iteration of the worker
    from the end of its wait to the next wait, or to the execution of a task,
    is one event, and so are the critical sections of [ScheduleFor] and
    [Stop].  A task's own mutex is held while its operation runs; [Cancel]
    waits for it.  The condition variable is modelled with its two ways to wake
    up: a notification, after which the condition is evaluated, and the
    deadline. *)

From S2P Require Import Prelude ExecResult TaskExecutor.

(** ** [std::priority_queue]

    A heap gives an element with the least key; which one of several is not
    specified. *)
Class HeapTop := {
  top : (nat → Z) → list nat → option nat;
  top_none ts q : top ts q = None ↔ q = [];
  top_some ts q x : top ts q = Some x → x ∈ q ∧ ∀ y, y ∈ q → (ts x ≤ ts y)%Z
}.

Definition UINT64_MAX : Z := 2 ^ 64 - 1.

(** Conversion of a [uint64_t] to the signed count of [std::chrono::nanoseconds]. *)
Definition int64_of (x : Z) : Z := if (x <? 2 ^ 63)%Z then x else (x - 2 ^ 64)%Z.

Definition kInfiniteWaitDurationNs : Z := 87600 * 3600 * 1000000000.

Section priority.
Context {W : Type} `{HT : HeapTop}.

(** ** [AsyncTask] *)

Record AsyncTask := mkTask {
  async_operation_ : W;
  execution_timestamp_ : Z;
  is_cancelled_ : bool
}.

Definition new_task (w : W) (t : Z) : AsyncTask := mkTask w t false.

(** [Cancel], with the task's mutex free. *)
Definition Cancel (t : AsyncTask) : bool * AsyncTask :=
  if is_cancelled_ t then (false, t)
  else (true, mkTask (async_operation_ t) (execution_timestamp_ t) true).

(** [Execute]: whether the operation runs. *)
Definition Execute (t : AsyncTask) : option W :=
  if is_cancelled_ t then None else Some (async_operation_ t).

(** ** [SingleThreadPriorityAsyncExecutor] *)

Abbreviation tid := nat.

Inductive Worker :=
  | PNone
  | PCreated
  | PWaiting (deadline : Z)   (* in [wait_for] *)
  | PPopped (t : tid)         (* about to call [Execute] *)
  | PExecuting (t : tid)      (* the operation runs *)
  | PBroke
  | PExited.

Record PExecutor := mkPExecutor {
  queue_cap_ : Z;
  drop_tasks_on_stop_ : bool;
  is_running_ : bool;
  worker_thread_started_ : bool;
  worker_thread_stopped_ : bool;
  update_wait_time_ : bool;
  next_scheduled_task_timestamp_ : Z;
  queue_ : option (list tid);
  tasks : list AsyncTask;  (* every task ever made *)
  now : Z;  (* the steady clock *)
  worker : Worker;
  notified : bool;  (* the worker has yet to evaluate its condition *)
  calls : list (W * Z);  (* in [ScheduleFor], past its first test *)
  stop : StopCall;
  log : list (tid * Z);  (* history: executions and their times *)
  discarded : list tid  (* history: tasks that left without running *)
}.

Definition set_is_running (x : bool) (e : PExecutor) : PExecutor :=
  mkPExecutor (queue_cap_ e) (drop_tasks_on_stop_ e) x (worker_thread_started_ e)
    (worker_thread_stopped_ e) (update_wait_time_ e) (next_scheduled_task_timestamp_ e) (queue_ e)
    (tasks e) (now e) (worker e) (notified e) (calls e) (stop e) (log e) (discarded e).
Definition set_started (x : bool) (e : PExecutor) : PExecutor :=
  mkPExecutor (queue_cap_ e) (drop_tasks_on_stop_ e) (is_running_ e) x (worker_thread_stopped_ e)
    (update_wait_time_ e) (next_scheduled_task_timestamp_ e) (queue_ e) (tasks e) (now e)
    (worker e) (notified e) (calls e) (stop e) (log e) (discarded e).
Definition set_stopped (x : bool) (e : PExecutor) : PExecutor :=
  mkPExecutor (queue_cap_ e) (drop_tasks_on_stop_ e) (is_running_ e) (worker_thread_started_ e) x
    (update_wait_time_ e) (next_scheduled_task_timestamp_ e) (queue_ e) (tasks e) (now e)
    (worker e) (notified e) (calls e) (stop e) (log e) (discarded e).
Definition set_update (x : bool) (e : PExecutor) : PExecutor :=
  mkPExecutor (queue_cap_ e) (drop_tasks_on_stop_ e) (is_running_ e) (worker_thread_started_ e)
    (worker_thread_stopped_ e) x (next_scheduled_task_timestamp_ e) (queue_ e) (tasks e) (now e)
    (worker e) (notified e) (calls e) (stop e) (log e) (discarded e).
Definition set_next (x : Z) (e : PExecutor) : PExecutor :=
  mkPExecutor (queue_cap_ e) (drop_tasks_on_stop_ e) (is_running_ e) (worker_thread_started_ e)
    (worker_thread_stopped_ e) (update_wait_time_ e) x (queue_ e) (tasks e) (now e) (worker e)
    (notified e) (calls e) (stop e) (log e) (discarded e).
Definition set_queue (x : option (list tid)) (e : PExecutor) : PExecutor :=
  mkPExecutor (queue_cap_ e) (drop_tasks_on_stop_ e) (is_running_ e) (worker_thread_started_ e)
    (worker_thread_stopped_ e) (update_wait_time_ e) (next_scheduled_task_timestamp_ e) x (tasks e)
    (now e) (worker e) (notified e) (calls e) (stop e) (log e) (discarded e).
Definition set_tasks (x : list AsyncTask) (e : PExecutor) : PExecutor :=
  mkPExecutor (queue_cap_ e) (drop_tasks_on_stop_ e) (is_running_ e) (worker_thread_started_ e)
    (worker_thread_stopped_ e) (update_wait_time_ e) (next_scheduled_task_timestamp_ e) (queue_ e)
    x (now e) (worker e) (notified e) (calls e) (stop e) (log e) (discarded e).
Definition set_now (x : Z) (e : PExecutor) : PExecutor :=
  mkPExecutor (queue_cap_ e) (drop_tasks_on_stop_ e) (is_running_ e) (worker_thread_started_ e)
    (worker_thread_stopped_ e) (update_wait_time_ e) (next_scheduled_task_timestamp_ e) (queue_ e)
    (tasks e) x (worker e) (notified e) (calls e) (stop e) (log e) (discarded e).
Definition set_worker (x : Worker) (e : PExecutor) : PExecutor :=
  mkPExecutor (queue_cap_ e) (drop_tasks_on_stop_ e) (is_running_ e) (worker_thread_started_ e)
    (worker_thread_stopped_ e) (update_wait_time_ e) (next_scheduled_task_timestamp_ e) (queue_ e)
    (tasks e) (now e) x (notified e) (calls e) (stop e) (log e) (discarded e).
Definition set_notified (x : bool) (e : PExecutor) : PExecutor :=
  mkPExecutor (queue_cap_ e) (drop_tasks_on_stop_ e) (is_running_ e) (worker_thread_started_ e)
    (worker_thread_stopped_ e) (update_wait_time_ e) (next_scheduled_task_timestamp_ e) (queue_ e)
    (tasks e) (now e) (worker e) x (calls e) (stop e) (log e) (discarded e).
Definition set_calls (x : list (W * Z)) (e : PExecutor) : PExecutor :=
  mkPExecutor (queue_cap_ e) (drop_tasks_on_stop_ e) (is_running_ e) (worker_thread_started_ e)
    (worker_thread_stopped_ e) (update_wait_time_ e) (next_scheduled_task_timestamp_ e) (queue_ e)
    (tasks e) (now e) (worker e) (notified e) x (stop e) (log e) (discarded e).
Definition set_stop (x : StopCall) (e : PExecutor) : PExecutor :=
  mkPExecutor (queue_cap_ e) (drop_tasks_on_stop_ e) (is_running_ e) (worker_thread_started_ e)
    (worker_thread_stopped_ e) (update_wait_time_ e) (next_scheduled_task_timestamp_ e) (queue_ e)
    (tasks e) (now e) (worker e) (notified e) (calls e) x (log e) (discarded e).
Definition set_log (x : list (tid * Z)) (e : PExecutor) : PExecutor :=
  mkPExecutor (queue_cap_ e) (drop_tasks_on_stop_ e) (is_running_ e) (worker_thread_started_ e)
    (worker_thread_stopped_ e) (update_wait_time_ e) (next_scheduled_task_timestamp_ e) (queue_ e)
    (tasks e) (now e) (worker e) (notified e) (calls e) (stop e) x (discarded e).
Definition set_discarded (x : list tid) (e : PExecutor) : PExecutor :=
  mkPExecutor (queue_cap_ e) (drop_tasks_on_stop_ e) (is_running_ e) (worker_thread_started_ e)
    (worker_thread_stopped_ e) (update_wait_time_ e) (next_scheduled_task_timestamp_ e) (queue_ e)
    (tasks e) (now e) (worker e) (notified e) (calls e) (stop e) (log e) x.

Definition new_pexecutor (queue_cap : Z) (drop : bool) (t : Z) : PExecutor :=
  mkPExecutor queue_cap drop false false false false UINT64_MAX None [] t PNone false [] SNone [] [].

Definition Init (e : PExecutor) : ExecutionResult * PExecutor :=
  if ((queue_cap_ e <=? 0) || (kMaxQueueCap <? queue_cap_ e))%Z
  then (FailureExecutionResult SC_ASYNC_EXECUTOR_INVALID_QUEUE_CAP, e)
  else (SuccessExecutionResult, set_queue (Some []) e).

(** A second worker beside a live one is not modelled: [None]. *)
Definition Run (e : PExecutor) : option (ExecutionResult * PExecutor) :=
  if is_running_ e
  then Some (FailureExecutionResult SC_ASYNC_EXECUTOR_ALREADY_RUNNING, e)
  else match queue_ e with
       | Some _ =>
           match worker e with
           | PNone | PExited => Some (SuccessExecutionResult, set_worker PCreated (set_is_running true e))
           | _ => None
           end
       | None => Some (FailureExecutionResult SC_ASYNC_EXECUTOR_NOT_INITIALIZED, e)
       end.

Definition timestamp (e : PExecutor) (t : tid) : Z :=
  match tasks e !! t with Some x => execution_timestamp_ x | None => 0 end.

Definition IsCancelled (e : PExecutor) (t : tid) : bool :=
  match tasks e !! t with Some x => is_cancelled_ x | None => false end.

(** *** [StartWorker] *)

(** Each task is pushed once, so it occurs once in the heap. *)
Definition pop (t : tid) (q : list tid) : list tid := filter (λ x, x ≠ t) q.

(** The loop that discards cancelled tasks: the queue left, the tasks discarded. *)
Fixpoint discard (fuel : nat) (e : PExecutor) (q : list tid) : list tid * list tid :=
  match fuel, top (timestamp e) q with
  | S fuel, Some t =>
      if IsCancelled e t
      then let '(q', d) := discard fuel e (pop t q) in (q', t :: d) else (q, [])
  | _, _ => (q, [])
  end.

(** One iteration after the wait. *)
Definition iteration (q : list tid) (e : PExecutor) : PExecutor :=
  let e := set_update false e in
  let '(q, d) := discard (length q) e q in
  let e := set_discarded (discarded e ++ d) (set_queue (Some q) e) in
  match top (timestamp e) q with
  | None =>
      if is_running_ e
      then set_worker (PWaiting (now e + kInfiniteWaitDurationNs))
             (set_notified true (set_next UINT64_MAX e))
      else set_worker PBroke e
  | Some t =>
      let e := set_next (timestamp e t) e in
      if (now e <? timestamp e t)%Z
      then set_worker (PWaiting (now e + int64_of (timestamp e t - now e))) (set_notified true e)
      else set_worker (PPopped t) (set_queue (Some (pop t q)) e)
  end.

(** The condition of [wait_for]. *)
Definition wake_condition (e : PExecutor) : bool :=
  negb (is_running_ e) || update_wait_time_ e || (next_scheduled_task_timestamp_ e <? now e)%Z.

Definition worker_step (e : PExecutor) : option PExecutor :=
  q ← queue_ e;
  match worker e with
  | PNone | PExited => None
  | PCreated =>
      Some (set_worker (PWaiting (now e + kInfiniteWaitDurationNs)) (set_notified true (set_started true e)))
  | PWaiting d =>
      if (d <=? now e)%Z then Some (iteration q e)
      else if notified e then
        if wake_condition e then Some (iteration q e) else Some (set_notified false e)
      else None
  | PPopped t =>
      x ← tasks e !! t;
      match Execute x with
      | Some _ => Some (set_worker (PExecuting t) (set_log (log e ++ [(t, now e)]) e))
      | None => Some (set_worker (PWaiting (now e)) (set_notified true (set_discarded (discarded e ++ [t]) e)))
      end
  | PExecuting _ => Some (set_worker (PWaiting (now e)) (set_notified true e))
  | PBroke => Some (set_worker PExited (set_stopped true e))
  end.

(** *** [Stop], [ScheduleFor] *)

Definition stop_step (e : PExecutor) : option PExecutor :=
  q ← queue_ e;
  match stop e with
  | SNone | SDone _ =>
      if is_running_ e then Some (set_stop SLocking e)
      else Some (set_stop (SDone (FailureExecutionResult SC_ASYNC_EXECUTOR_NOT_RUNNING)) e)
  | SLocking =>
      let e := set_notified true (set_is_running false e) in
      Some (set_stop SWaiting
        (if drop_tasks_on_stop_ e then set_discarded (discarded e ++ q) (set_queue (Some []) e) else e))
  | SWaiting =>
      if worker_thread_started_ e && worker_thread_stopped_ e
      then Some (set_stop (SDone SuccessExecutionResult) e) else Some e
  | SDropNormal | SDropHigh => None
  end.

Definition schedule_test (e : PExecutor) : option ExecutionResult :=
  if negb (is_running_ e) then Some (FailureExecutionResult SC_ASYNC_EXECUTOR_NOT_RUNNING) else None.

(** The critical section of [ScheduleFor]; the cancellation callback is the
    index of the new task. *)
Definition schedule_section (w : W) (ts : Z) (e : PExecutor) : option (ExecutionResult * PExecutor) :=
  q ← queue_ e;
  if (queue_cap_ e <=? zlen q)%Z
  then Some (RetryExecutionResult SC_ASYNC_EXECUTOR_EXCEEDING_QUEUE_CAP, e)
  else
    let t := length (tasks e) in
    let e := set_queue (Some (t :: q)) (set_tasks (tasks e ++ [new_task w ts]) e) in
    let e := if (ts <? next_scheduled_task_timestamp_ e)%Z then set_update true (set_next ts e) else e in
    Some (SuccessExecutionResult, set_notified true e).

(** [ScheduleFor] without interference. *)
Definition ScheduleFor (w : W) (ts : Z) (e : PExecutor) : option (ExecutionResult * PExecutor) :=
  match schedule_test e with
  | Some r => Some (r, e)
  | None => schedule_section w ts e
  end.

(** The cancellation callback; the task's mutex is held while it runs. *)
Definition cancel_step (t : tid) (e : PExecutor) : option (bool * PExecutor) :=
  match worker e with
  | PExecuting t' => if bool_decide (t = t') then None else
      x ← tasks e !! t; let '(b, x') := Cancel x in Some (b, set_tasks (<[t := x']> (tasks e)) e)
  | _ => x ← tasks e !! t; let '(b, x') := Cancel x in Some (b, set_tasks (<[t := x']> (tasks e)) e)
  end.

(** *** Events *)

Inductive PEvent :=
  | PTick (d : N)
  | PSchedule (w : W) (ts : Z)
  | PEnqueue (i : nat)
  | PCancel (t : tid)
  | PWorker
  | PStop.

Inductive POut := PSilent | PResult (r : ExecutionResult) | PBool (b : bool).

Definition pstep (e : PExecutor) (ev : PEvent) : option (POut * PExecutor) :=
  match ev with
  | PTick d => Some (PSilent, set_now (now e + Z.of_N d) e)
  | PSchedule w ts =>
      match schedule_test e with
      | Some r => Some (PResult r, e)
      | None => Some (PSilent, set_calls (calls e ++ [(w, ts)]) e)
      end
  | PEnqueue i =>
      '(w, ts) ← calls e !! i;
      '(r, e') ← schedule_section w ts e;
      Some (PResult r, set_calls (delete i (calls e)) e')
  | PCancel t => '(b, e') ← cancel_step t e; Some (PBool b, e')
  | PWorker => e' ← worker_step e; Some (PSilent, e')
  | PStop => e' ← stop_step e; Some (PSilent, e')
  end.

(** ** Invariants *)

Definition popped (w : Worker) : list tid := match w with PPopped t => [t] | _ => [] end.

(** Every task is in one place: queued, popped, executed or discarded. *)
Definition places (q : list tid) (e : PExecutor) : list tid :=
  q ++ popped (worker e) ++ (log e).*1 ++ discarded e.

Definition wait_ok (e : PExecutor) : Prop :=
  match worker e with
  | PCreated => update_wait_time_ e = true ∨ next_scheduled_task_timestamp_ e = UINT64_MAX
  | PWaiting d =>
      (update_wait_time_ e = true ∧ notified e = true) ∨ (d ≤ next_scheduled_task_timestamp_ e)%Z ∨
      next_scheduled_task_timestamp_ e = UINT64_MAX ∨ (d ≤ now e)%Z
  | _ => True
  end.

Record pinv (q : list tid) (e : PExecutor) : Prop := {
  pi_queue : queue_ e = Some q;
  pi_places : places q e ≡ₚ seq 0 (length (tasks e));
  pi_log : ∀ t tm, (t, tm) ∈ log e → (timestamp e t ≤ tm)%Z;
  pi_popped : ∀ t, worker e = PPopped t → (timestamp e t ≤ now e)%Z;
  pi_discarded : drop_tasks_on_stop_ e = false → ∀ t, t ∈ discarded e → IsCancelled e t = true;
  pi_next : ∀ t, t ∈ q → (next_scheduled_task_timestamp_ e ≤ timestamp e t)%Z;
  pi_wait : wait_ok e
}.

Lemma pop_perm t q : NoDup q → t ∈ q → q ≡ₚ t :: pop t q.
Proof.
  unfold pop. intros Hnd Hin. apply list_elem_of_split in Hin as (l1&l2&->).
  apply NoDup_app in Hnd as (_&Hdis&Hnd). apply NoDup_cons in Hnd as [Hni _].
  rewrite filter_app, filter_cons_False by (by intros ?).
  rewrite !list_filter_all; [by rewrite Permutation_middle|..].
  - intros x Hx ->. done.
  - intros x Hx ->. apply (Hdis t); [done|]. by left.
Qed.

Lemma pinv_nodup q e : pinv q e → NoDup q.
Proof.
  intros HI. assert (NoDup (places q e)) as Hnd by (rewrite (pi_places _ _ HI); apply NoDup_seq).
  by apply NoDup_app in Hnd as [? _].
Qed.

Lemma pinv_lt q e t : pinv q e → t ∈ places q e → t < length (tasks e).
Proof. intros HI. rewrite (pi_places _ _ HI), elem_of_seq. lia. Qed.

Lemma discard_spec fuel e q q' d :
  NoDup q → discard fuel e q = (q', d) →
  q ≡ₚ q' ++ d ∧ (∀ t, t ∈ d → IsCancelled e t = true) ∧
  (length q ≤ fuel → ∀ t, top (timestamp e) q' = Some t → IsCancelled e t = false).
Proof.
  revert q q' d. induction fuel as [|fuel IH]; intros q q' d Hnd Hd; simpl in Hd.
  { simplify_eq. rewrite app_nil_r. split_and!; [done|set_solver|]. intros Hl t Ht.
    apply top_some in Ht as [Ht _]. destruct q'; [by apply elem_of_nil in Ht|simpl in Hl; lia]. }
  destruct (top (timestamp e) q) as [t|] eqn:Ht.
  - destruct (IsCancelled e t) eqn:Hc.
    + destruct (discard fuel e (pop t q)) as [q1 d1] eqn:E. simplify_eq.
      apply top_some in Ht as [Hin _]. pose proof (pop_perm _ _ Hnd Hin) as Hp.
      apply IH in E as (Hq&Hcd&Hl); [|by apply NoDup_filter]. split_and!.
      * rewrite Hp, Hq. by rewrite Permutation_middle.
      * intros x [->|?]%elem_of_cons; auto.
      * intros Hle. apply Hl. apply Permutation_length in Hp. simpl in Hp. lia.
    + simplify_eq. rewrite app_nil_r. split_and!; [done|set_solver|]. intros _ t' Ht'. congruence.
  - simplify_eq. rewrite app_nil_r. split_and!; [done|set_solver|]. intros _ t' Ht'. congruence.
Qed.

Lemma int64_of_le x : (0 ≤ x)%Z → (int64_of x ≤ x)%Z.
Proof. unfold int64_of. intros. destruct (Z.ltb_spec x (2 ^ 63)); lia. Qed.

(** The iteration, by its result. *)
Lemma pinv_iteration q e d0 :
  pinv q e → worker e = PWaiting d0 → ∃ q', pinv q' (iteration q e).
Proof.
  intros HI Hw. pose proof (pinv_nodup _ _ HI) as Hnd. pose proof HI as [Hq Hpl Hlog _ Hdis Hnx _].
  unfold places in Hpl. rewrite Hw in Hpl. simpl in Hpl. unfold iteration.
  destruct (discard (length q) (set_update false e) q) as [q1 d] eqn:Ed.
  apply discard_spec in Ed as (Hp&Hc&_); [|done]. cbn [set_update] in *.
  set (e1 := set_discarded _ _).
  assert (NoDup q1) as Hnd1. { rewrite Hp in Hnd. by apply NoDup_app in Hnd as [? _]. }
  assert (∀ t, t ∈ discarded e ++ d → drop_tasks_on_stop_ e = false → IsCancelled e t = true) as Hdis'.
  { intros t [?|Ht]%elem_of_app Hdr; [auto|]. apply (Hc _ Ht). }
  assert (∀ t, t ∈ q1 → t ∈ q) as Hsub by (intros t Ht; rewrite Hp; set_solver).
  assert (q1 ++ (log e).*1 ++ discarded e ++ d ≡ₚ seq 0 (length (tasks e))) as Hpl1.
  { rewrite <-Hpl, Hp. rewrite <-!app_assoc. apply Permutation_app_head.
    rewrite (Permutation_app_comm d). by rewrite <-!app_assoc. }
  destruct (top (timestamp e1) q1) as [t|] eqn:Ht.
  - apply top_some in Ht as [Hin Hmin]. change (timestamp (set_next _ e1)) with (timestamp e).
    change (timestamp e1) with (timestamp e) in *. cbn [now set_next].
    change (now e1) with (now e). destruct (Z.ltb_spec (now e) (timestamp e t)) as [Hlt|Hle].
    + exists q1. split; try done.
      * intros Hdr t' Ht'. by apply Hdis'.
      * right. left. cbn [next_scheduled_task_timestamp_ set_worker set_notified set_next].
        pose proof (int64_of_le (timestamp e t - now e)). lia.
    + exists (pop t q1). pose proof (pop_perm _ _ Hnd1 Hin) as Hpop. split; try done.
      * unfold places. simpl. rewrite <-Permutation_middle, app_comm_cons, <-Hpop. done.
      * intros t' [= <-]. done.
      * intros Hdr t' Ht'. by apply Hdis'.
      * intros t' Ht'. apply Hmin. unfold pop in Ht'. by apply list_elem_of_filter in Ht' as [_ ?].
  - apply top_none in Ht. subst q1. change (is_running_ e1) with (is_running_ e).
    destruct (is_running_ e); exists []; (split; try done);
      try (intros Hdr t' Ht'; by apply Hdis'); try (intros t' Ht'; by apply elem_of_nil in Ht').
    simpl. by right; right; left.
Qed.

Lemma pinv_worker q e e' :
  pinv q e → worker_step e = Some e' → ∃ q', pinv q' e'.
Proof.
  intros HI Hs. pose proof HI as [Hq Hpl Hlog Hpop Hdis Hnx Hw]. unfold worker_step in Hs.
  rewrite Hq in Hs. simpl in Hs. unfold places, wait_ok in *.
  destruct (worker e) as [| |d|t|t| |] eqn:Ew; simplify_eq/=.
  - exists q. split; try done. unfold wait_ok. simpl. tauto.
  - destruct (Z.leb_spec d (now e)); [simplify_eq; by eapply pinv_iteration|].
    destruct (notified e) eqn:En; [|done].
    destruct (wake_condition e) eqn:Ec; simplify_eq; [by eapply pinv_iteration|].
    exists q. split; unfold places; simpl; rewrite ?Ew; try done. unfold wait_ok. simpl. rewrite Ew.
    destruct Hw as [[Hu _]|?]; [|tauto]. unfold wake_condition in Ec. rewrite Hu, orb_true_r in Ec. done.
  - apply bind_Some in Hs as (x&Hx&Hs). unfold Execute in Hs. destruct (is_cancelled_ x) eqn:Hc; simplify_eq.
    + exists q. split; unfold places; simpl; try done.
      * rewrite <-Hpl. simpl. apply Permutation_app_head. rewrite app_assoc.
        apply Permutation_app_comm.
      * intros Hdr t' [?|Ht]%elem_of_app; [by apply Hdis|]. apply list_elem_of_singleton in Ht as ->.
        unfold IsCancelled. simpl. by rewrite Hx.
      * unfold wait_ok. simpl. right; right; right. lia.
    + exists q. split; unfold places; simpl; try done.
      * rewrite <-Hpl, fmap_app. simpl. apply Permutation_app_head. rewrite <-app_assoc. simpl.
        by rewrite Permutation_middle.
      * intros t' tm [?|Ht]%elem_of_app; [by apply Hlog|]. apply list_elem_of_singleton in Ht.
        simplify_eq. by apply Hpop.
  - exists q. split; try done. unfold wait_ok. simpl. right; right; right. lia.
  - exists q. split; try done.
Qed.

Lemma timestamp_app e x t : t < length (tasks e) → timestamp (set_tasks (tasks e ++ [x]) e) t = timestamp e t.
Proof. intros. unfold timestamp. simpl. by rewrite lookup_app_l. Qed.

Lemma cancelled_app e x t : t < length (tasks e) → IsCancelled (set_tasks (tasks e ++ [x]) e) t = IsCancelled e t.
Proof. intros. unfold IsCancelled. simpl. by rewrite lookup_app_l. Qed.

Lemma pinv_section q e w ts r e' :
  pinv q e → schedule_section w ts e = Some (r, e') → ∃ q', pinv q' e'.
Proof.
  intros HI Hs. pose proof HI as [Hq Hpl Hlog Hpop Hdis Hnx Hw]. unfold schedule_section in Hs.
  rewrite Hq in Hs. simpl in Hs. destruct (Z.leb_spec (queue_cap_ e) (zlen q)); simplify_eq; [by exists q|].
  set (e1 := set_tasks (tasks e ++ [new_task w ts]) e).
  assert (∀ t, t ∈ places q e → timestamp e1 t = timestamp e t) as Ht.
  { intros t Hin. apply timestamp_app. by eapply pinv_lt. }
  assert (∀ t, t ∈ places q e → IsCancelled e1 t = IsCancelled e t) as Hc.
  { intros t Hin. apply cancelled_app. by eapply pinv_lt. }
  assert (timestamp e1 (length (tasks e)) = ts) as Hnew.
  { unfold timestamp, e1. simpl. by rewrite list_lookup_middle. }
  assert (∀ e2, timestamp e2 = timestamp e1 → IsCancelled e2 = IsCancelled e1 →
    queue_ e2 = Some (length (tasks e) :: q) → tasks e2 = tasks e1 → log e2 = log e → discarded e2 = discarded e →
    worker e2 = worker e → now e2 = now e → drop_tasks_on_stop_ e2 = drop_tasks_on_stop_ e →
    (next_scheduled_task_timestamp_ e2 ≤ ts)%Z →
    (next_scheduled_task_timestamp_ e2 ≤ next_scheduled_task_timestamp_ e)%Z →
    wait_ok e2 → pinv (length (tasks e) :: q) e2) as Hgen.
  { intros e2 E1 E2 E3 E4 E5 E6 E7 E8 E9 Hn1 Hn2 Hw2. split; rewrite ?E1, ?E2, ?E5, ?E6, ?E7, ?E8, ?E9; try done.
    - unfold places. rewrite E4, E5, E6, E7. unfold e1. simpl. rewrite length_app. simpl.
      rewrite seq_app. simpl. rewrite <-Permutation_cons_append. by f_equiv.
    - intros t tm Hin. rewrite Ht; [by apply Hlog|]. unfold places. rewrite !elem_of_app.
      right; right; left. apply list_elem_of_fmap. by exists (t, tm).
    - intros t Hp. rewrite Ht; [by apply Hpop|]. unfold places. rewrite Hp. rewrite !elem_of_app. simpl. set_solver.
    - intros Hdr t Hin. rewrite Hc; [by apply Hdis|]. unfold places. rewrite !elem_of_app. auto.
    - intros t [->|Hin]%elem_of_cons; [by rewrite Hnew|].
      rewrite Ht; [|unfold places; rewrite elem_of_app; auto]. specialize (Hnx t Hin). lia. }
  exists (length (tasks e) :: q). unfold wait_ok in *. cbn [next_scheduled_task_timestamp_ set_queue set_tasks].
  destruct (Z.ltb_spec ts (next_scheduled_task_timestamp_ e)); apply Hgen; try done; simpl; try lia;
    unfold wait_ok; simpl; destruct (worker e); naive_solver.
Qed.

Lemma cancel_step_inv t e b e' :
  cancel_step t e = Some (b, e') →
  ∃ x, tasks e !! t = Some x ∧ b = (Cancel x).1 ∧ e' = set_tasks (<[t := (Cancel x).2]> (tasks e)) e.
Proof.
  unfold cancel_step. intros Hs.
  repeat case_match; simplify_eq; apply bind_Some in Hs as (x&Hx&Hs); exists x;
    by destruct (Cancel x) as [b1 x1]; simplify_eq.
Qed.

Lemma pinv_cancel q e t b e' : pinv q e → cancel_step t e = Some (b, e') → pinv q e'.
Proof.
  intros [Hq Hpl Hlog Hpop Hdis Hnx Hw] Hs.
  apply cancel_step_inv in Hs as (x&Hx&_&->).
  set (e' := set_tasks _ e).
  assert (∀ t', timestamp e' t' = timestamp e t') as Ht.
  { intros t'. unfold timestamp, e'. simpl. destruct (decide (t = t')) as [<-|Hne].
    - rewrite list_lookup_insert_eq by (by eapply lookup_lt_Some). rewrite Hx. unfold Cancel.
      by destruct (is_cancelled_ x).
    - by rewrite list_lookup_insert_ne. }
  assert (∀ t', IsCancelled e t' = true → IsCancelled e' t' = true) as Hc.
  { intros t'. unfold IsCancelled, e'. simpl. destruct (decide (t = t')) as [<-|Hne].
    - rewrite list_lookup_insert_eq by (by eapply lookup_lt_Some). unfold Cancel.
      by destruct (is_cancelled_ x) eqn:E.
    - by rewrite list_lookup_insert_ne. }
  split; try done.
  - unfold e'. simpl. by rewrite length_insert.
  - intros t' tm. rewrite Ht. apply Hlog.
  - intros t'. rewrite Ht. apply Hpop.
  - intros Hdr t' Hin. apply Hc. by apply Hdis.
  - intros t'. rewrite Ht. apply Hnx.
Qed.

Lemma pinv_step q e ev r e' : pinv q e → pstep e ev = Some (r, e') → ∃ q', pinv q' e'.
Proof.
  intros HI Hs. destruct ev as [d|w ts|i|t| |]; simpl in Hs.
  - simplify_eq. destruct HI as [Hq Hpl Hlog Hpop Hdis Hnx Hw]. exists q. split; try done; simpl.
    + intros t Ht. specialize (Hpop t Ht). unfold timestamp in *. simpl in *. lia.
    + unfold wait_ok in *. simpl. destruct (worker e); try done. naive_solver lia.
  - exists q. case_match; simplify_eq; [done|]. by destruct HI.
  - apply bind_Some in Hs as ([w ts]&_&Hs). apply bind_Some in Hs as ([r1 e1]&Hs&?). simplify_eq.
    destruct (pinv_section _ _ _ _ _ _ HI Hs) as [q' []]. by exists q'.
  - apply bind_Some in Hs as ([b e1]&Hs&?). simplify_eq. exists q. by eapply pinv_cancel.
  - apply bind_Some in Hs as (e1&Hs&?). simplify_eq. by eapply pinv_worker.
  - apply bind_Some in Hs as (e1&Hs&?). simplify_eq. unfold stop_step in Hs.
    destruct HI as [Hq Hpl Hlog Hpop Hdis Hnx Hw]. rewrite Hq in Hs. simpl in Hs.
    assert (wait_ok (set_notified true (set_is_running false e))) as Hw'.
    { unfold wait_ok in *. simpl. destruct (worker e); try done. naive_solver. }
    destruct (stop e); try done;
      try (exists q; destruct (is_running_ e); simplify_eq; by split);
      try (exists q; destruct (_ && _); simplify_eq; by split).
    destruct (drop_tasks_on_stop_ e) eqn:Hdr; simplify_eq/=.
    + exists []. split; try done.
      * unfold places in *. simpl. rewrite <-Hpl.
        rewrite (Permutation_app_comm q). by rewrite <-!app_assoc.
      * simpl. congruence.
      * intros t Ht. by apply elem_of_nil in Ht.
    + exists q. split; try done. intros _. by apply Hdis.
Qed.

(** ** Traces after the one call of [Run] *)

Definition pstarted (cap : Z) (drop : bool) (t : Z) : PExecutor :=
  set_worker PCreated (set_is_running true (Init (new_pexecutor cap drop t)).2).

Lemma pstarted_inv cap drop t : (0 < cap ≤ kMaxQueueCap)%Z → pinv [] (pstarted cap drop t).
Proof.
  intros Hc. unfold pstarted, Init. simpl.
  destruct (Z.leb_spec cap 0), (Z.ltb_spec kMaxQueueCap cap); try lia. simpl.
  split; try done; simpl; [by intros ? ? ?%elem_of_nil|by intros _ ? ?%elem_of_nil|by intros ? ?%elem_of_nil|].
  unfold wait_ok. simpl. auto.
Qed.

Lemma preach cap drop t evs rs e :
  (0 < cap ≤ kMaxQueueCap)%Z → run_ops pstep (pstarted cap drop t) evs = Some (rs, e) → ∃ q, pinv q e.
Proof.
  intros Hc. apply (run_ops_invariant pstep (λ _, True) (λ e, ∃ q, pinv q e)); [| |by apply Forall_true].
  - intros e1 ev r e2 [q HI] _ Hs. by eapply pinv_step.
  - eexists. by apply pstarted_inv.
Qed.


(** The worker never oversleeps.  When a queued task that was not cancelled is due, the worker
    that waits wakes up (its deadline has passed or it was told that an earlier task came), and
    takes a due task with the least timestamp among those left. *)
Theorem due_task_wakes_worker cap drop t0 evs rs e q t d :
  (0 < cap ≤ kMaxQueueCap)%Z → run_ops pstep (pstarted cap drop t0) evs = Some (rs, e) →
  worker e = PWaiting d → queue_ e = Some q → t ∈ q → IsCancelled e t = false →
  (timestamp e t ≤ now e)%Z → (timestamp e t < UINT64_MAX)%Z →
  ∃ e' t' q', worker_step e = Some e' ∧ worker e' = PPopped t' ∧ queue_ e' = Some q' ∧
    (timestamp e t' ≤ now e)%Z ∧ IsCancelled e t' = false ∧
    ∀ x, x ∈ q' → (timestamp e t' ≤ timestamp e x)%Z.
Proof.
  intros Hc Hrun Hw Hq Hin Hnc Hdue Hmax. destruct (preach _ _ _ _ _ _ Hc Hrun) as [q0 HI].
  assert (q0 = q) as -> by (pose proof (pi_queue _ _ HI); congruence).
  pose proof (pi_next _ _ HI t Hin) as Hnx. pose proof (pi_wait _ _ HI) as Hwt. unfold wait_ok in Hwt.
  rewrite Hw in Hwt. pose proof (pinv_nodup _ _ HI) as Hnd.
  assert (worker_step e = Some (iteration q e)) as Hstep.
  { unfold worker_step. rewrite Hq, Hw. simpl. destruct (Z.leb_spec d (now e)); [done|].
    destruct Hwt as [[Hu ->]|Hwt]; [|lia]. unfold wake_condition. by rewrite Hu, orb_true_r. }
  rewrite Hstep. unfold iteration.
  destruct (discard (length q) (set_update false e) q) as [q1 ds] eqn:Ed.
  apply discard_spec in Ed as (Hp&Hcd&Htop); [|done].
  assert (t ∈ q1) as Hin1.
  { rewrite Hp in Hin. apply elem_of_app in Hin as [?|Hin]; [done|]. specialize (Hcd _ Hin).
    unfold IsCancelled in *. simpl in *. congruence. }
  set (e1 := set_discarded _ _). change (timestamp e1) with (timestamp e).
  destruct (top (timestamp e) q1) as [t'|] eqn:Et.
  - specialize (Htop (le_n _) t' Et). apply top_some in Et as [Hin' Hmin]. specialize (Hmin t Hin1) as Hle.
    cbn [now set_next]. change (timestamp (set_next _ e1)) with (timestamp e). change (now e1) with (now e).
    destruct (Z.ltb_spec (now e) (timestamp e t')); [lia|].
    eexists _, t', (pop t' q1). split_and!; try done. intros x Hx. apply Hmin. unfold pop in Hx.
    by apply list_elem_of_filter in Hx as [_ ?].
  - apply top_none in Et. subst. by apply elem_of_nil in Hin1.
Qed.

(** A cancelled task that has not run stays so. *)
Lemma cancelled_step t e ev r e' :
  IsCancelled e t = true ∧ t ∉ (log e).*1 → pstep e ev = Some (r, e') →
  IsCancelled e' t = true ∧ t ∉ (log e').*1.
Proof.
  intros [Hc Hl] Hs. destruct ev as [d|w ts|i|t1| |]; simpl in Hs.
  - by simplify_eq.
  - case_match; by simplify_eq.
  - apply bind_Some in Hs as ([w ts]&_&Hs). apply bind_Some in Hs as ([r1 e1]&Hs&?). simplify_eq.
    unfold schedule_section in Hs. apply bind_Some in Hs as (q&_&Hs).
    assert (t < length (tasks e)) as Hlt.
    { unfold IsCancelled in Hc. destruct (tasks e !! t) eqn:E; [by eapply lookup_lt_Some|done]. }
    destruct (_ <=? _)%Z; simplify_eq; [done|].
    destruct (_ <? _)%Z; (split; [|done]); unfold IsCancelled in *; simpl; by rewrite lookup_app_l.
  - apply bind_Some in Hs as ([b e1]&Hs&?). simplify_eq. apply cancel_step_inv in Hs as (x&Hx&_&->).
    split; [|done]. unfold IsCancelled in *. simpl. destruct (decide (t1 = t)) as [->|Hne].
    + rewrite list_lookup_insert_eq by (by eapply lookup_lt_Some). unfold Cancel. by destruct (is_cancelled_ x) eqn:E.
    + by rewrite list_lookup_insert_ne.
  - apply bind_Some in Hs as (e1&Hs&?). simplify_eq. unfold worker_step in Hs.
    apply bind_Some in Hs as (q&_&Hs).
    assert (∀ q, IsCancelled (iteration q e) t = true ∧ t ∉ (log (iteration q e)).*1) as Hit.
    { intros q0. unfold iteration. destruct (discard _ _ _). repeat case_match; done. }
    destruct (worker e) as [| |d|t1|t1| |]; simplify_eq; try done.
    + repeat case_match; simplify_eq; done.
    + apply bind_Some in Hs as (x&Hx&Hs). unfold Execute in Hs. destruct (is_cancelled_ x) eqn:Ex; simplify_eq; [done|].
      split; [done|]. simpl. rewrite fmap_app. simpl. unfold IsCancelled in Hc.
      destruct (decide (t = t1)) as [->|Hne]; [rewrite Hx in Hc; congruence|set_solver].
  - apply bind_Some in Hs as (e1&Hs&?). simplify_eq. unfold stop_step in Hs.
    apply bind_Some in Hs as (q&_&Hs). repeat case_match; simplify_eq; done.
Qed.

(** A task whose [Cancel] returned true before it ran never runs, whatever happens next. *)
Theorem cancelled_task_never_runs e t e1 evs rs e2 :
  cancel_step t e = Some (true, e1) → t ∉ (log e).*1 → run_ops pstep e1 evs = Some (rs, e2) →
  t ∉ (log e2).*1.
Proof.
  intros Hc Hl Hrun.
  assert (IsCancelled e1 t = true ∧ t ∉ (log e1).*1) as H1.
  { apply cancel_step_inv in Hc as (x&Hx&Hb&->). split; [|done]. unfold IsCancelled. simpl.
    rewrite list_lookup_insert_eq by (by eapply lookup_lt_Some). unfold Cancel in *.
    by destruct (is_cancelled_ x). }
  cut (IsCancelled e2 t = true ∧ t ∉ (log e2).*1); [tauto|]. revert Hrun.
  apply (run_ops_invariant pstep (λ _, True) (λ e, IsCancelled e t = true ∧ t ∉ (log e).*1)); [|done|by apply Forall_true].
  intros s ev r s' HI _. by apply cancelled_step.
Qed.
End priority.

(** The heap that gives the first of the least. *)
Fixpoint first_min (ts : nat → Z) (q : list nat) : option nat :=
  match q with
  | [] => None
  | x :: q =>
      match first_min ts q with
      | Some y => if (ts x <=? ts y)%Z then Some x else Some y
      | None => Some x
      end
  end.

#[global, refine] Instance first_min_heap : HeapTop := { top := first_min }.
Proof.
  - intros ts q. split; [|by intros ->]. destruct q as [|x q]; simpl; [done|].
    by repeat case_match.
  - intros ts q. induction q as [|x q IH]; intros z Hz; simpl in Hz; [done|].
    destruct (first_min ts q) as [y|] eqn:E; simplify_eq.
    + destruct (IH y eq_refl) as [Hin Hmin]. destruct (Z.leb_spec (ts x) (ts y)); simplify_eq.
      * split; [by left|]. intros w [->|Hw]%elem_of_cons; [lia|]. specialize (Hmin w Hw). lia.
      * split; [by right|]. intros w [->|Hw]%elem_of_cons; [lia|]. by apply Hmin.
    + destruct q as [|y q]; [|simpl in E; repeat case_match; done].
      split; [by left|]. intros w Hw. apply list_elem_of_singleton in Hw as ->. lia.
Defined.

(** ** [Cancel] after the fact *)

Definition ptrace (evs : list (PEvent (W:=nat))) : option (list POut * list (nat * Z)) :=
  (λ r, (r.1, log r.2)) <$> run_ops pstep (pstarted 4 false 100) evs.

(** [Cancel] does not know whether its task has run: called after the execution it returns
    true all the same. *)
Theorem cancel_after_execution_succeeds :
  ptrace [PSchedule 7 90; PEnqueue 0; PWorker; PWorker; PWorker; PWorker; PCancel 0] =
  Some ([PSilent; PResult SuccessExecutionResult; PSilent; PSilent; PSilent; PSilent; PBool true], [(0, 100%Z)]).
Proof. vm_compute. reflexivity. Qed.

(** ** Witnesses *)

Definition two_tasks : list (PEvent (W:=nat)) :=
  [PSchedule 7 500; PEnqueue 0; PWorker; PWorker; PSchedule 8 200; PEnqueue 0; PWorker; PTick 150].


Lemma due_task_wakes_worker_witness :
  ∃ (e e' : PExecutor (W:=nat)) t', now e = 250%Z ∧ worker_step e = Some e' ∧ worker e' = PPopped t' ∧
    (timestamp e t' ≤ now e)%Z.
Proof.
  destruct (run_ops pstep (pstarted 4 false 100) two_tasks) as [[rs e]|] eqn:E; [|vm_compute in E; discriminate].
  destruct (due_task_wakes_worker 4 false 100 two_tasks rs e [1; 0] 1 200) as (e'&t'&q'&Hs&Hw&_&Hle&_);
    [done|exact E|vm_compute in E; injection E as _ <-; first [reflexivity|vm_compute; congruence|set_solver]..|].
  exists e, e', t'. split_and!; [|done..]. vm_compute in E. injection E as _ <-. reflexivity.
Defined.

Lemma cancelled_task_never_runs_witness :
  ∃ (e e1 e2 : PExecutor (W:=nat)) rs, cancel_step 1 e = Some (true, e1) ∧
    run_ops pstep e1 [PWorker; PTick 1000; PWorker; PWorker] = Some (rs, e2) ∧ 1 ∉ (log e2).*1.
Proof.
  destruct (run_ops pstep (pstarted 4 false 100) two_tasks) as [[rs e]|] eqn:E; [|vm_compute in E; discriminate].
  destruct (cancel_step 1 e) as [[b e1]|] eqn:Ec;
    [|vm_compute in E; injection E as _ <-; vm_compute in Ec; discriminate].
  destruct (run_ops pstep e1 [PWorker; PTick 1000; PWorker; PWorker]) as [[rs2 e2]|] eqn:E2;
    [|vm_compute in E; injection E as _ <-; vm_compute in Ec; injection Ec as _ <-; vm_compute in E2; discriminate].
  assert (b = true) as -> by (vm_compute in E; injection E as _ <-; vm_compute in Ec; congruence).
  exists e, e1, e2, rs2. split_and!; [exact Ec|exact E2|].
  apply (cancelled_task_never_runs e 1 e1 [PWorker; PTick 1000; PWorker; PWorker] rs2 e2); [exact Ec| |exact E2].
  vm_compute in E. injection E as _ <-. apply not_elem_of_nil.
Defined.
