(* ===== verification/AsyncExecutor.v ===== *)
(** * AsyncExecutor: the pool of single-thread executors

    Models [cc/core/async_executor/src/async_executor.{h,cc}]: the pool that
    starts and stops a pair of executors per thread and hands each task to one
    of them, by affinity or by one of three load balancing schemes.

    The pool knows its executors through the interface [PoolMember]; the two
    executors of the source are its instances.  The stop of a member is the
    work of several threads, so its outcome is an argument of the pool's
    [Stop]; random numbers and the identities of threads are arguments too. *)

From S2P Require Import Prelude ExecResult TaskExecutor PriorityExecutor.

Inductive AsyncExecutorAffinitySetting := NonAffinitized | AffinitizedToCallingAsyncExecutor.

Inductive TaskLoadBalancingScheme := RoundRobinGlobal | RoundRobinPerThread | Random.

Inductive TaskExecutorPoolType := UrgentPool | NotUrgentPool.

(** ** What the pool uses of an executor *)

Class PoolMember (E Req : Type) := {
  m_init : E → ExecutionResult * E;
  m_run : E → option (ExecutionResult * E);
  m_running : E → bool;
  m_schedule : Req → E → option (ExecutionResult * E);
  m_accepted : E → list Req;   (* the requests accepted so far *)
  m_schedule_ok r e res e' :
    m_schedule r e = Some (res, e') →
    m_accepted e' = m_accepted e ++ (if Successful res then [r] else []);
  m_run_ok e res e' : m_run e = Some (res, e') → m_accepted e' = m_accepted e
}.

#[global, refine] Instance normal_member {T Q} `{BoundedQueue T Q} : PoolMember (Executor (Task:=T) (Q:=Q)) (AsyncPriority * T) := {
  m_init := TaskExecutor.Init;
  m_run := TaskExecutor.Run;
  m_running := TaskExecutor.is_running_;
  m_schedule r e := TaskExecutor.Schedule r.2 r.1 e;
  m_accepted := TaskExecutor.accepted
}.
Proof.
  - intros [p t] e res e' Hs. unfold TaskExecutor.Schedule in Hs. simpl in Hs.
    unfold TaskExecutor.schedule_test in Hs.
    destruct (negb (TaskExecutor.is_running_ e)); simplify_eq/=; [by rewrite app_nil_r|].
    destruct (negb _ && negb _); simplify_eq/=; [by rewrite app_nil_r|].
    unfold TaskExecutor.schedule_enqueue in Hs. apply bind_Some in Hs as (q&Hq&Hs).
    destruct (TryEnqueue t q) as [r q'], (Successful r); simplify_eq/=.
    + by destruct p.
    + by rewrite app_nil_r.
  - intros e res e' Hs. unfold TaskExecutor.Run in Hs. repeat case_match; by simplify_eq.
Defined.

#[global, refine] Instance urgent_member {W} `{HeapTop} : PoolMember (PExecutor (W:=W)) (W * Z) := {
  m_init := PriorityExecutor.Init;
  m_run := PriorityExecutor.Run;
  m_running := PriorityExecutor.is_running_;
  m_schedule r e := PriorityExecutor.ScheduleFor r.1 r.2 e;
  m_accepted e := (λ t, (async_operation_ t, execution_timestamp_ t)) <$> tasks e
}.
Proof.
  - intros [w ts] e res e' Hs. unfold PriorityExecutor.ScheduleFor, PriorityExecutor.schedule_test in Hs. simpl in Hs.
    destruct (PriorityExecutor.is_running_ e); simplify_eq/=; [|by rewrite app_nil_r].
    unfold schedule_section in Hs. apply bind_Some in Hs as (q&Hq&Hs).
    destruct (_ <=? _)%Z; simplify_eq/=; [by rewrite app_nil_r|].
    destruct (_ <? _)%Z; simpl; by rewrite fmap_app.
  - intros e res e' Hs. unfold PriorityExecutor.Run in Hs. repeat case_match; by simplify_eq.
Defined.

Lemma list_alter_insert' {A} (f : A → A) (i : nat) (l : list A) x : l !! i = Some x → alter f i l = <[i := f x]> l.
Proof.
  intros Hx. apply list_eq. intros j. destruct (decide (i = j)) as [<-|Hne].
  - rewrite list_lookup_alter_eq, Hx, list_lookup_insert_eq; [done|by eapply lookup_lt_Some].
  - by rewrite list_lookup_alter_ne, list_lookup_insert_ne.
Qed.

(** ** The pool *)

Section pool.
Context {T U N : Type} {Thread : Type} `{Countable Thread}.
Context `{MU : PoolMember U (T * Z), MN : PoolMember N (AsyncPriority * T)}.

(** The statics of [PickTaskExecutor]. *)
Record Counters := mkCounters {
  task_counter_urgent : Z;
  task_counter_not_urgent : Z;
  task_counter_urgent_thread_local : gmap Thread Z;
  task_counter_not_urgent_thread_local : gmap Thread Z
}.

Record AsyncExecutor := mkAsyncExecutor {
  running_ : bool;
  thread_count_ : nat;
  queue_cap_ : Z;
  task_load_balancing_scheme_ : TaskLoadBalancingScheme;
  urgent_task_executor_pool_ : list U;
  normal_task_executor_pool_ : list N;
  thread_id_to_executor_map_ : gmap Thread nat   (* the index of the pair *)
}.

Definition new_async_executor (thread_count : nat) (queue_cap : Z) (scheme : TaskLoadBalancingScheme) : AsyncExecutor :=
  mkAsyncExecutor false thread_count queue_cap scheme [] [] ∅.

Definition set_pools (us : list U) (ns : list N) (a : AsyncExecutor) : AsyncExecutor :=
  mkAsyncExecutor (running_ a) (thread_count_ a) (queue_cap_ a) (task_load_balancing_scheme_ a) us ns
    (thread_id_to_executor_map_ a).
Definition set_running (b : bool) (a : AsyncExecutor) : AsyncExecutor :=
  mkAsyncExecutor b (thread_count_ a) (queue_cap_ a) (task_load_balancing_scheme_ a)
    (urgent_task_executor_pool_ a) (normal_task_executor_pool_ a) (thread_id_to_executor_map_ a).
Definition set_threads (m : gmap Thread nat) (a : AsyncExecutor) : AsyncExecutor :=
  mkAsyncExecutor (running_ a) (thread_count_ a) (queue_cap_ a) (task_load_balancing_scheme_ a)
    (urgent_task_executor_pool_ a) (normal_task_executor_pool_ a) m.

(** *** [Init], [Run], [Stop] *)

(** [make_u], [make_n] construct an executor with the given CPU affinity. *)
Fixpoint init_loop (make_u : nat → U) (make_n : nat → N) (cpus : nat) (idx : list nat) (a : AsyncExecutor)
  : ExecutionResult * AsyncExecutor :=
  match idx with
  | [] => (SuccessExecutionResult, a)
  | i :: idx =>
      let cpu_affinity_number := i mod cpus in
      let '(r, u) := m_init (make_u cpu_affinity_number) in
      let a := set_pools (urgent_task_executor_pool_ a ++ [u]) (normal_task_executor_pool_ a) a in
      if negb (Successful r) then (r, a) else
      let '(r, n) := m_init (make_n cpu_affinity_number) in
      let a := set_pools (urgent_task_executor_pool_ a) (normal_task_executor_pool_ a ++ [n]) a in
      if negb (Successful r) then (r, a) else init_loop make_u make_n cpus idx a
  end.

Definition Init (make_u : nat → U) (make_n : nat → N) (cpus : nat) (a : AsyncExecutor)
  : ExecutionResult * AsyncExecutor :=
  if ((Z.of_nat (thread_count_ a) <=? 0) || (kMaxThreadCount <? Z.of_nat (thread_count_ a)))%Z
  then (FailureExecutionResult SC_ASYNC_EXECUTOR_INVALID_THREAD_COUNT, a)
  else if ((queue_cap_ a <=? 0) || (kMaxQueueCap <? queue_cap_ a))%Z
  then (FailureExecutionResult SC_ASYNC_EXECUTOR_INVALID_QUEUE_CAP, a)
  else init_loop make_u make_n cpus (seq 0 (thread_count_ a)) a.

(** [ids i]: the threads of the [i]-th normal and urgent executor. *)
Fixpoint run_loop (ids : nat → Thread * Thread) (idx : list nat) (a : AsyncExecutor)
  : option (ExecutionResult * AsyncExecutor) :=
  match idx with
  | [] => Some (SuccessExecutionResult, set_running true a)
  | i :: idx =>
      u ← urgent_task_executor_pool_ a !! i;
      '(r, u) ← m_run u;
      let a := set_pools (<[i := u]> (urgent_task_executor_pool_ a)) (normal_task_executor_pool_ a) a in
      if negb (Successful r) then Some (r, a) else
      n ← normal_task_executor_pool_ a !! i;
      '(r, n) ← m_run n;
      let a := set_pools (urgent_task_executor_pool_ a) (<[i := n]> (normal_task_executor_pool_ a)) a in
      if negb (Successful r) then Some (r, a) else
      if negb (m_running n) || negb (m_running u)
      then Some (FailureExecutionResult SC_ASYNC_EXECUTOR_NOT_RUNNING, a) else
      run_loop ids idx (set_threads (<[(ids i).2 := i]> (<[(ids i).1 := i]> (thread_id_to_executor_map_ a))) a)
  end.

Definition Run (ids : nat → Thread * Thread) (a : AsyncExecutor) : option (ExecutionResult * AsyncExecutor) :=
  if running_ a then Some (FailureExecutionResult SC_ASYNC_EXECUTOR_ALREADY_RUNNING, a)
  else if (length (urgent_task_executor_pool_ a) <? thread_count_ a) ||
          (length (normal_task_executor_pool_ a) <? thread_count_ a)
  then Some (FailureExecutionResult SC_ASYNC_EXECUTOR_NOT_INITIALIZED, a)
  else run_loop ids (seq 0 (thread_count_ a)) a.

(** [outcome i]: what the [Stop]s of the [i]-th urgent and normal executor return and leave. *)
Fixpoint stop_loop (outcome : nat → (ExecutionResult * U) * (ExecutionResult * N)) (idx : list nat)
    (a : AsyncExecutor) : ExecutionResult * AsyncExecutor :=
  match idx with
  | [] => (SuccessExecutionResult, a)
  | i :: idx =>
      let '(ru, u, (rn, n)) := outcome i in
      let a := set_pools (<[i := u]> (urgent_task_executor_pool_ a)) (normal_task_executor_pool_ a) a in
      if negb (Successful ru) then (ru, a) else
      let a := set_pools (urgent_task_executor_pool_ a) (<[i := n]> (normal_task_executor_pool_ a)) a in
      if negb (Successful rn) then (rn, a) else stop_loop outcome idx a
  end.

Definition Stop (outcome : nat → (ExecutionResult * U) * (ExecutionResult * N)) (a : AsyncExecutor)
  : ExecutionResult * AsyncExecutor :=
  if negb (running_ a) then (FailureExecutionResult SC_ASYNC_EXECUTOR_NOT_RUNNING, a)
  else stop_loop outcome (seq 0 (thread_count_ a)) (set_running false a).

(** *** [PickTaskExecutor]

    The index into the pool.  [self] is the calling thread; [rnd] the next value
    of the generator, which also initialises a thread's counter.  [None]:
    division by zero. *)

Definition index_of (counter : Z) (pool_size : nat) : option nat :=
  match pool_size with 0 => None | _ => Some (Z.to_nat (counter mod Z.of_nat pool_size)) end.

Definition bump (z : Z) : Z := u64 (z + 1).

Definition round_robin (scheme : TaskLoadBalancingScheme) (pool : TaskExecutorPoolType) (self : Thread) (rnd : Z)
    (c : Counters) : Z * Counters :=
  match scheme, pool with
  | RoundRobinGlobal, UrgentPool =>
      (task_counter_urgent c,
       mkCounters (bump (task_counter_urgent c)) (task_counter_not_urgent c)
         (task_counter_urgent_thread_local c) (task_counter_not_urgent_thread_local c))
  | RoundRobinGlobal, NotUrgentPool =>
      (task_counter_not_urgent c,
       mkCounters (task_counter_urgent c) (bump (task_counter_not_urgent c))
         (task_counter_urgent_thread_local c) (task_counter_not_urgent_thread_local c))
  | RoundRobinPerThread, UrgentPool =>
      let z := default rnd (task_counter_urgent_thread_local c !! self) in
      (z, mkCounters (task_counter_urgent c) (task_counter_not_urgent c)
            (<[self := bump z]> (task_counter_urgent_thread_local c)) (task_counter_not_urgent_thread_local c))
  | RoundRobinPerThread, NotUrgentPool =>
      let z := default rnd (task_counter_not_urgent_thread_local c !! self) in
      (z, mkCounters (task_counter_urgent c) (task_counter_not_urgent c)
            (task_counter_urgent_thread_local c) (<[self := bump z]> (task_counter_not_urgent_thread_local c)))
  | Random, _ => (rnd, c)
  end.

Definition PickTaskExecutor (a : AsyncExecutor) (affinity : AsyncExecutorAffinitySetting)
    (pool : TaskExecutorPoolType) (pool_size : nat) (self : Thread) (rnd : Z) (c : Counters)
  : option (nat * Counters) :=
  match affinity, thread_id_to_executor_map_ a !! self with
  | AffinitizedToCallingAsyncExecutor, Some i => Some (i, c)
  | _, _ =>
      let '(z, c) := round_robin (task_load_balancing_scheme_ a) pool self rnd c in
      i ← index_of z pool_size; Some (i, c)
  end.

(** *** [Schedule], [ScheduleFor] *)

Definition on_urgent (i : nat) (req : T * Z) (a : AsyncExecutor) : option (ExecutionResult * AsyncExecutor) :=
  u ← urgent_task_executor_pool_ a !! i;
  '(r, u') ← m_schedule req u;
  Some (r, set_pools (<[i := u']> (urgent_task_executor_pool_ a)) (normal_task_executor_pool_ a) a).

Definition on_normal (i : nat) (req : AsyncPriority * T) (a : AsyncExecutor) : option (ExecutionResult * AsyncExecutor) :=
  n ← normal_task_executor_pool_ a !! i;
  '(r, n') ← m_schedule req n;
  Some (r, set_pools (urgent_task_executor_pool_ a) (<[i := n']> (normal_task_executor_pool_ a)) a).

(** The four arguments of the environment: thread, random value, clock. *)
Definition ScheduleFor (work : T) (timestamp : Z) (affinity : AsyncExecutorAffinitySetting)
    (self : Thread) (rnd : Z) (c : Counters) (a : AsyncExecutor) : option (ExecutionResult * AsyncExecutor * Counters) :=
  if negb (running_ a) then Some (FailureExecutionResult SC_ASYNC_EXECUTOR_NOT_RUNNING, a, c)
  else
    '(i, c) ← PickTaskExecutor a affinity UrgentPool (length (urgent_task_executor_pool_ a)) self rnd c;
    '(r, a) ← on_urgent i (work, timestamp) a; Some (r, a, c).

Definition Schedule (work : T) (priority : AsyncPriority) (affinity : AsyncExecutorAffinitySetting)
    (now : Z) (self : Thread) (rnd : Z) (c : Counters) (a : AsyncExecutor)
  : option (ExecutionResult * AsyncExecutor * Counters) :=
  if negb (running_ a) then Some (FailureExecutionResult SC_ASYNC_EXECUTOR_NOT_RUNNING, a, c)
  else
    match priority with
    | Urgent =>
        '(i, c) ← PickTaskExecutor a affinity UrgentPool (length (urgent_task_executor_pool_ a)) self rnd c;
        '(r, a) ← on_urgent i (work, now) a; Some (r, a, c)
    | Normal | High =>
        '(i, c) ← PickTaskExecutor a affinity NotUrgentPool (length (normal_task_executor_pool_ a)) self rnd c;
        '(r, a) ← on_normal i (priority, work) a; Some (r, a, c)
    end.

(** ** A running pool *)

(** What [Run] leaves when it succeeds. *)
Record pool_ok (a : AsyncExecutor) : Prop := {
  po_count : 0 < thread_count_ a;
  po_urgent : thread_count_ a ≤ length (urgent_task_executor_pool_ a);
  po_normal : thread_count_ a ≤ length (normal_task_executor_pool_ a);
  po_threads : ∀ t i, thread_id_to_executor_map_ a !! t = Some i → i < thread_count_ a
}.

Lemma run_loop_ok ids idx a r a' :
  (∀ i, i ∈ idx → i < thread_count_ a) → pool_ok a → run_loop ids idx a = Some (r, a') → pool_ok a'.
Proof.
  revert a. induction idx as [|i idx IH]; intros a Hi Ha Hs; simpl in Hs.
  { simplify_eq. by destruct Ha. }
  assert (∀ t j, thread_id_to_executor_map_ a !! t = Some j → j < thread_count_ a) as Hmap by apply Ha.
  assert (∀ a', thread_count_ a' = thread_count_ a →
    length (urgent_task_executor_pool_ a') = length (urgent_task_executor_pool_ a) →
    length (normal_task_executor_pool_ a') = length (normal_task_executor_pool_ a) →
    (∀ t j, thread_id_to_executor_map_ a' !! t = Some j → j < thread_count_ a) → pool_ok a') as Hset.
  { intros a1 E1 E2 E3 Hm. destruct Ha. split; rewrite ?E1, ?E2, ?E3; done. }
  apply bind_Some in Hs as (u&Hu&Hs). apply bind_Some in Hs as ([r1 u1]&_&Hs).
  destruct (Successful r1); simplify_eq/=; [|by apply Hset; simpl; rewrite ?length_insert].
  apply bind_Some in Hs as (n&Hn&Hs). apply bind_Some in Hs as ([r2 n1]&_&Hs).
  destruct (Successful r2); simplify_eq/=; [|by apply Hset; simpl; rewrite ?length_insert].
  destruct (negb (m_running n1) || negb (m_running u1)); simplify_eq/=;
    [by apply Hset; simpl; rewrite ?length_insert|].
  eapply IH; [|apply Hset|exact Hs]; simpl; rewrite ?length_insert; try done.
  - intros j Hj. apply Hi. by right.
  - intros t j. rewrite !lookup_insert_Some. assert (i < thread_count_ a) by (apply Hi; by left). naive_solver.
Qed.

Lemma Run_ok ids a r a' :
  0 < thread_count_ a → (∀ t i, thread_id_to_executor_map_ a !! t = Some i → i < thread_count_ a) →
  Run ids a = Some (r, a') → running_ a = false → running_ a' = true → pool_ok a'.
Proof.
  intros H0 Hm Hs Hr Hr'. unfold Run in Hs. rewrite Hr in Hs.
  destruct (Nat.ltb_spec (length (urgent_task_executor_pool_ a)) (thread_count_ a)); simplify_eq/=; [congruence|].
  destruct (Nat.ltb_spec (length (normal_task_executor_pool_ a)) (thread_count_ a)); simplify_eq/=; [congruence|].
  eapply run_loop_ok; [|split|exact Hs]; try done. intros i. rewrite elem_of_seq. lia.
Qed.

(** *** The picked index *)

Lemma pick_in_range a affinity pool n self rnd c :
  pool_ok a → thread_count_ a ≤ n →
  ∃ i c', PickTaskExecutor a affinity pool n self rnd c = Some (i, c') ∧ i < n.
Proof.
  intros Ha Hn. unfold PickTaskExecutor.
  assert (∀ z, ∃ i, index_of z n = Some i ∧ i < n) as Hi.
  { intros z. pose proof (po_count _ Ha). unfold index_of. destruct n as [|n]; [lia|]. eexists. split; [done|].
    pose proof (Z.mod_pos_bound z (Z.of_nat (S n))). lia. }
  destruct (round_robin _ pool self rnd c) as [z c']. destruct (Hi z) as (i&Ei&Hlt).
  destruct affinity; simpl; [rewrite Ei; simpl; eauto|].
  destruct (thread_id_to_executor_map_ a !! self) as [j|] eqn:E; simpl; [|rewrite Ei; simpl; eauto].
  exists j, c. split; [done|]. apply (po_threads _ Ha) in E. lia.
Qed.

Definition urgent_accepted (a : AsyncExecutor) : list (list (T * Z)) := m_accepted <$> urgent_task_executor_pool_ a.
Definition normal_accepted (a : AsyncExecutor) : list (list (AsyncPriority * T)) :=
  m_accepted <$> normal_task_executor_pool_ a.

Lemma on_urgent_spec i req a :
  i < length (urgent_task_executor_pool_ a) →
  (∀ u, u ∈ urgent_task_executor_pool_ a → is_Some (m_schedule req u)) →
  ∃ r a', on_urgent i req a = Some (r, a') ∧ normal_accepted a' = normal_accepted a ∧
    urgent_accepted a' = alter (λ l, l ++ (if Successful r then [req] else [])) i (urgent_accepted a).
Proof.
  intros [u Hu]%lookup_lt_is_Some_2 Hdef. unfold on_urgent. rewrite Hu. simpl.
  destruct (Hdef u) as [[r u'] Hs]; [by eapply list_elem_of_lookup_2|]. rewrite Hs. simpl.
  eexists _, _. split; [done|]. split; [done|]. unfold urgent_accepted. simpl.
  rewrite list_fmap_insert. rewrite (m_schedule_ok _ _ _ _ Hs).
  by rewrite (list_alter_insert' _ _ _ (m_accepted u)) by (by rewrite list_lookup_fmap, Hu).
Qed.

Lemma on_normal_spec i req a :
  i < length (normal_task_executor_pool_ a) →
  (∀ n, n ∈ normal_task_executor_pool_ a → is_Some (m_schedule req n)) →
  ∃ r a', on_normal i req a = Some (r, a') ∧ urgent_accepted a' = urgent_accepted a ∧
    normal_accepted a' = alter (λ l, l ++ (if Successful r then [req] else [])) i (normal_accepted a).
Proof.
  intros [u Hu]%lookup_lt_is_Some_2 Hdef. unfold on_normal. rewrite Hu. simpl.
  destruct (Hdef u) as [[r u'] Hs]; [by eapply list_elem_of_lookup_2|]. rewrite Hs. simpl.
  eexists _, _. split; [done|]. split; [done|]. unfold normal_accepted. simpl.
  rewrite list_fmap_insert. rewrite (m_schedule_ok _ _ _ _ Hs).
  by rewrite (list_alter_insert' _ _ _ (m_accepted u)) by (by rewrite list_lookup_fmap, Hu).
Qed.

(** Once the pool runs, [Schedule] with any priority, affinity and scheme, from any thread,
    picks one executor of the right kind within range and hands it the task: that executor accepts
    the task if the result is success, and nothing else in the pool changes. *)
Theorem pool_schedules_once work priority affinity now self rnd c a :
  pool_ok a → running_ a = true →
  (∀ u req, u ∈ urgent_task_executor_pool_ a → is_Some (m_schedule req u)) →
  (∀ n req, n ∈ normal_task_executor_pool_ a → is_Some (m_schedule req n)) →
  ∃ r a' c' i, Schedule work priority affinity now self rnd c a = Some (r, a', c') ∧
    match priority with
    | Urgent =>
        i < length (urgent_task_executor_pool_ a) ∧ normal_accepted a' = normal_accepted a ∧
        urgent_accepted a' = alter (λ l, l ++ (if Successful r then [(work, now)] else [])) i (urgent_accepted a)
    | _ =>
        i < length (normal_task_executor_pool_ a) ∧ urgent_accepted a' = urgent_accepted a ∧
        normal_accepted a' =
          alter (λ l, l ++ (if Successful r then [(priority, work)] else [])) i (normal_accepted a)
    end.
Proof.
  intros Ha Hr Hu Hn. unfold Schedule. rewrite Hr. simpl.
  destruct (pick_in_range a affinity UrgentPool (length (urgent_task_executor_pool_ a)) self rnd c)
    as (i&ci&Hi&Hlt); [done|apply Ha|].
  destruct (pick_in_range a affinity NotUrgentPool (length (normal_task_executor_pool_ a)) self rnd c)
    as (j&cj&Hj&Hlt'); [done|apply Ha|].
  destruct (on_urgent_spec i (work, now) a) as (ru&au&Eu&?&?); [done|auto|].
  destruct (on_normal_spec j (priority, work) a) as (rn&an&En&?&?); [done|auto|].
  destruct priority.
  1,2: exists rn, an, cj, j; rewrite Hj; simpl; rewrite En; simpl; by split_and!.
  exists ru, au, ci, i. rewrite Hi. simpl. rewrite Eu. simpl. by split_and!.
Qed.

(** ** Round robin *)

(** The executors picked by successive calls from any threads. *)
Fixpoint picks (a : AsyncExecutor) (pool : TaskExecutorPoolType) (n : nat) (callers : list (Thread * Z))
    (c : Counters) : option (list nat) :=
  match callers with
  | [] => Some []
  | (self, rnd) :: callers =>
      '(i, c) ← PickTaskExecutor a NonAffinitized pool n self rnd c;
      rest ← picks a pool n callers c; Some (i :: rest)
  end.

Definition global_counter (pool : TaskExecutorPoolType) (c : Counters) : Z :=
  match pool with UrgentPool => task_counter_urgent c | NotUrgentPool => task_counter_not_urgent c end.

Lemma picks_global a pool n callers c :
  task_load_balancing_scheme_ a = RoundRobinGlobal → 0 < n →
  (0 ≤ global_counter pool c)%Z → (global_counter pool c + zlen callers < 2 ^ 64)%Z →
  picks a pool n callers c =
  Some ((λ j, Z.to_nat ((global_counter pool c + Z.of_nat j) mod Z.of_nat n)) <$> seq 0 (length callers)).
Proof.
  intros Hsch Hn. revert c. induction callers as [|[self rnd] callers IH]; intros c Hc0 Hc; [done|].
  cbn [picks]. unfold PickTaskExecutor. rewrite Hsch.
  assert (∃ c', round_robin RoundRobinGlobal pool self rnd c = (global_counter pool c, c') ∧
    global_counter pool c' = bump (global_counter pool c)) as (c'&E&Ec) by (destruct pool; by eexists).
  rewrite E. unfold index_of. destruct n as [|n]; [lia|]. cbn [length] in Hc.
  assert (global_counter pool c' = global_counter pool c + 1)%Z as Ec'.
  { rewrite Ec. unfold bump. apply u64_small. lia. }
  specialize (IH c'). rewrite Ec' in IH. cbn [mbind option_bind length seq fmap list_fmap].
  rewrite IH by lia. cbn [mbind option_bind]. rewrite Z.add_0_r. do 2 f_equal.
  rewrite <-fmap_S_seq, <-list_fmap_compose. apply list_fmap_ext. intros j x _. unfold compose. do 2 f_equal. lia.
Qed.

(** Any [n] successive values meet each residue once. *)
Definition window (n : nat) (z : Z) : list nat :=
  (λ j, Z.to_nat ((z + Z.of_nat j) mod Z.of_nat n)) <$> seq 0 n.

Lemma window_shift n z : 0 < n → window n (z + 1) ≡ₚ window n z.
Proof.
  intros Hn. unfold window. destruct n as [|n]; [lia|].
  rewrite seq_S at 1. rewrite fmap_app. cbn [fmap list_fmap seq]. rewrite <-fmap_S_seq, <-list_fmap_compose.
  rewrite <-Permutation_cons_append. f_equiv.
  - f_equal. rewrite Nat.add_0_l. replace (z + 1 + Z.of_nat n)%Z with (z + Z.of_nat 0 + 1 * Z.of_nat (S n))%Z by lia.
    by rewrite Z.mod_add by lia.
  - apply reflexive_eq. apply list_fmap_ext. intros j x _. unfold compose. do 2 f_equal. lia.
Qed.

Lemma window_perm n z : 0 < n → (0 ≤ z)%Z → window n z ≡ₚ seq 0 n.
Proof.
  intros Hn Hz. revert z Hz. apply natlike_ind.
  - unfold window. apply reflexive_eq. rewrite <-(list_fmap_id (seq 0 n)) at 2. apply list_fmap_ext.
    intros j x Hx. apply lookup_seq in Hx as [-> Hlt]. rewrite Z.mod_small; simpl; lia.
  - intros z Hz IH. rewrite <-IH. unfold Z.succ. by apply window_shift.
Qed.

(** With the global round robin, [k] times as many successive picks as there are executors,
    from any threads, pick every executor exactly [k] times (while the 64-bit counter does not
    wrap). *)
Theorem round_robin_is_fair a pool n k callers c :
  task_load_balancing_scheme_ a = RoundRobinGlobal → 0 < n → length callers = k * n →
  (0 ≤ global_counter pool c)%Z → (global_counter pool c + zlen callers < 2 ^ 64)%Z →
  ∃ l, picks a pool n callers c = Some l ∧ l ≡ₚ mjoin (replicate k (seq 0 n)).
Proof.
  intros Hsch Hn Hlen Hc0 Hc. rewrite picks_global by done. eexists. split; [done|].
  rewrite Hlen. generalize (global_counter pool c) Hc0. clear -Hn. intros z Hz.
  induction k as [|k IH] in z, Hz |- *; [done|]. cbn [Nat.mul]. rewrite seq_app, fmap_app.
  cbn [replicate mjoin list_join]. f_equiv; [by apply window_perm|].
  rewrite <-(IH (z + Z.of_nat n)%Z) by lia. apply reflexive_eq.
  rewrite (Nat.add_comm 0 n), <-(fmap_add_seq n 0), <-list_fmap_compose. apply list_fmap_ext.
  intros j x _. unfold compose. do 2 f_equal. lia.
Qed.
End pool.

(** ** Witnesses *)

Abbreviation NExec := (Executor (Task:=nat) (Q:=Z * list nat)).
Abbreviation UExec := (PExecutor (W:=nat)).
Abbreviation SPool := (AsyncExecutor (U:=UExec) (N:=NExec) (Thread:=nat)).

Lemma normal_member_defined {T Q} `{BoundedQueue T Q} (e : Executor (Task:=T) (Q:=Q)) req :
  is_Some (normal_pri_queue_ e) → is_Some (high_pri_queue_ e) → is_Some (m_schedule req e).
Proof.
  intros [nq Hn] [hq Hh]. destruct req as [p t]. simpl. unfold TaskExecutor.Schedule, TaskExecutor.schedule_test.
  destruct (negb (TaskExecutor.is_running_ e)); [by eexists|].
  destruct p; simpl; unfold TaskExecutor.schedule_enqueue, queue_of; rewrite ?Hn, ?Hh; simpl; [| |by eexists];
    destruct (TryEnqueue _ _) as [r q], (Successful r); by eexists.
Qed.

Lemma urgent_member_defined {W} `{HeapTop} (e : PExecutor (W:=W)) req :
  is_Some (queue_ e) → is_Some (m_schedule req e).
Proof.
  intros [q Hq]. simpl. unfold PriorityExecutor.ScheduleFor, PriorityExecutor.schedule_test, schedule_section.
  destruct (negb _); [by eexists|]. rewrite Hq. simpl. destruct (_ <=? _)%Z; by eexists.
Qed.

(** A pool of two threads, initialised and running. *)
Definition sample_init : SPool :=
  (Init (λ _, new_pexecutor 8 false 0) (λ _, new_executor 8 false) 4 (new_async_executor 2 8 RoundRobinGlobal)).2.

Lemma pool_schedules_once_witness :
  ∃ res (a : SPool) r (a' : SPool) c' i, Run (λ i, (2 * i, 2 * i + 1)) sample_init = Some (res, a) ∧
    Schedule 5 High NonAffinitized 100 9 0 (mkCounters 0 1 ∅ ∅) a = Some (r, a', c') ∧
    i < length (normal_task_executor_pool_ a) ∧ urgent_accepted a' = urgent_accepted a ∧
    normal_accepted a' = alter (λ l, l ++ (if Successful r then [(High, 5)] else [])) i (normal_accepted a).
Proof.
  destruct (Run (λ i, (2 * i, 2 * i + 1)) sample_init) as [[res a]|] eqn:E; [|vm_compute in E; discriminate].
  exists res, a.
  assert (running_ a = true) as Hr by (vm_compute in E; injection E as _ <-; reflexivity).
  destruct (pool_schedules_once 5 High NonAffinitized 100 9 0 (mkCounters 0 1 ∅ ∅) a) as (r&a'&c'&i&Hs&Hi);
    [|exact Hr| | |by exists r, a', c', i].
  - eapply Run_ok; [| |exact E|reflexivity|exact Hr]; [vm_compute; lia|].
    intros t i Hm. change (thread_id_to_executor_map_ sample_init) with (∅ : gmap nat nat) in Hm.
    by rewrite lookup_empty in Hm.
  - intros u req Hu. apply urgent_member_defined. vm_compute in E. injection E as _ <-. simpl in Hu.
    repeat (apply elem_of_cons in Hu as [->|Hu]; [by eexists|]). by apply elem_of_nil in Hu.
  - intros n req Hn. apply normal_member_defined; vm_compute in E; injection E as _ <-; simpl in Hn;
      repeat (apply elem_of_cons in Hn as [->|Hn]; [by eexists|]); by apply elem_of_nil in Hn.
Defined.

Lemma round_robin_is_fair_witness :
  ∃ l, picks sample_init UrgentPool 2 (replicate 6 (0, 0%Z)) (mkCounters 7 0 ∅ ∅) = Some l ∧
    l ≡ₚ mjoin (replicate 3 (seq 0 2)).
Proof. apply (round_robin_is_fair sample_init UrgentPool 2 3); try reflexivity; simpl; lia. Defined.
