(* ===== verification/Dispatcher.v ===== *)
(** * Dispatcher: contexts of asynchronous operations and their retries

    Models [cc/core/interface/async_context.h],
    [cc/core/common/operation_dispatcher/src/operation_dispatcher.h] and
    [cc/core/common/operation_dispatcher/src/retry_strategy.h].

    An operation is started with [Dispatch]; the target may fail at once, or
    accept and call back later; either way the wrapped callback decides whether
    to retry.  The life of one operation is a machine whose transitions are the
    code's; what the target, the executor and the clock answer is given to it
    from outside.  [None] is signed overflow or a conversion out of range. *)

From S2P Require Import Prelude ExecResult UuidLib TaskExecutor.

Abbreviation SC_DISPATCHER := 0x0009%Z (only parsing).
Abbreviation SC_DISPATCHER_EXHAUSTED_RETRIES := (MakeErrorCode SC_DISPATCHER 0x0001).
Abbreviation SC_DISPATCHER_OPERATION_EXPIRED := (MakeErrorCode SC_DISPATCHER 0x0002).
Abbreviation SC_DISPATCHER_NOT_ENOUGH_TIME_REMAINED_FOR_OPERATION := (MakeErrorCode SC_DISPATCHER 0x0003).

(** ** [RetryStrategy] *)

Inductive RetryStrategyType := Linear | Exponential.

Record RetryStrategy := mkRetryStrategy {
  retry_strategy_type_ : RetryStrategyType;
  delay_duration_ms_ : Z;
  maximum_allowed_retry_count_ : Z
}.

(** [pow] gives a double: the product is exact below 2^53, and its conversion to
    [TimeDuration] is undefined from 2^64 on; the doubles in between are not
    modelled. *)
Definition GetBackOffDurationInMilliseconds (s : RetryStrategy) (retry_count : Z) : option Z :=
  if (retry_count =? 0)%Z then Some 0%Z
  else match retry_strategy_type_ s with
       | Linear => Some (u64 (retry_count * delay_duration_ms_ s))
       | Exponential =>
           let d := (2 ^ (retry_count - 1) * delay_duration_ms_ s)%Z in
           if (d <? 2 ^ 53)%Z then Some d else None
       end.

Definition GetMaximumAllowedRetryCount (s : RetryStrategy) : Z := maximum_allowed_retry_count_ s.

(** ** [AsyncContext] *)

Section dispatch.
Context {Req Resp : Type}.

Abbreviation kAsyncContextExpirationDurationInSeconds := 90%Z (only parsing).

(** The callback is the wrapper that [Dispatch] installs. *)
Record AsyncContext := mkContext {
  parent_activity_id : Uuid;
  activity_id : Uuid;
  correlation_id : Uuid;
  request : Req;
  response : option Resp;
  result : ExecutionResult;
  retry_count : Z;
  expiration_time : Z
}.

(** The constructor; [activity] is the generated id, [now] the clock. *)
Definition new_context (now : Z) (activity : Uuid) (request : Req) (parent correlation : Uuid) : AsyncContext :=
  mkContext parent activity correlation request None (FailureExecutionResult SC_UNKNOWN) 0
    (now + kAsyncContextExpirationDurationInSeconds * 1000000000).

Definition set_result (r : ExecutionResult) (c : AsyncContext) : AsyncContext :=
  mkContext (parent_activity_id c) (activity_id c) (correlation_id c) (request c) (response c) r
    (retry_count c) (expiration_time c).
Definition set_retry_count (n : Z) (c : AsyncContext) : AsyncContext :=
  mkContext (parent_activity_id c) (activity_id c) (correlation_id c) (request c) (response c) (result c)
    n (expiration_time c).

(** [FinishContext] with an executor: the context to finish, and whether it
    was handed to the executor, whose answer is [r]. *)
Definition FinishContext (res : ExecutionResult) (r : ExecutionResult) (c : AsyncContext) : AsyncContext * bool :=
  (set_result res c, Successful r).

(** ** [OperationDispatcher] *)

Context (retry_strategy_ : RetryStrategy).

(** Where one operation is. *)
Inductive Operation :=
  | Dispatching (c : AsyncContext)           (* entering [DispatchWithRetry] *)
  | Calling (c : AsyncContext)               (* with the target *)
  | Waiting (c : AsyncContext) (at_ : Z)     (* with the executor until that time *)
  | Finishing (c : AsyncContext)             (* entering the wrapped callback *)
  | Finished (c : AsyncContext).             (* the caller's callback was called *)

(** What the environment answers at one step. *)
Record Answers := mkAnswers {
  clock : Z;
  executor_result : ExecutionResult;   (* of [ScheduleFor] *)
  target_result : ExecutionResult      (* with which the target ends the attempt *)
}.

(** [DispatchWithRetry]. *)
Definition DispatchWithRetry (now : Z) (executor : ExecutionResult) (c : AsyncContext) : option Operation :=
  if (retry_count c =? 0)%Z then Some (Calling c)
  else
    back_off_duration_ms ← GetBackOffDurationInMilliseconds retry_strategy_ (retry_count c);
    if (GetMaximumAllowedRetryCount retry_strategy_ <=? retry_count c)%Z
    then Some (Finishing (set_result (FailureExecutionResult SC_DISPATCHER_EXHAUSTED_RETRIES) c))
    else if (expiration_time c <=? now)%Z
    then Some (Finishing (set_result (FailureExecutionResult SC_DISPATCHER_OPERATION_EXPIRED) c))
    else
      let back_off_duration_ns := (back_off_duration_ms * 1000000)%Z in
      if (2 ^ 63 <=? back_off_duration_ns)%Z then None
      else if (expiration_time c - now <=? back_off_duration_ns)%Z
      then Some (Finishing (set_result (FailureExecutionResult
                   SC_DISPATCHER_NOT_ENOUGH_TIME_REMAINED_FOR_OPERATION) c))
      else if Successful executor then Some (Waiting c (now + back_off_duration_ns))
      else Some (Finishing (set_result executor c)).

(** The callback installed by [Dispatch]: retry, or the original callback. *)
Definition wrapped_callback (c : AsyncContext) : Operation :=
  if bool_decide (status (result c) = Retry)
  then Dispatching (set_retry_count (retry_count c + 1) c)
  else Finished c.

(** The one installed by [DispatchConsumerStreaming]; [None] passes a message
    through to the original callback. *)
Definition wrapped_process_callback (is_finish : bool) (c : AsyncContext) : option Operation :=
  if is_finish then Some (wrapped_callback c) else None.

(** The target ends an attempt: by returning a failure, or by calling back. *)
Definition async_operation (target : ExecutionResult) (c : AsyncContext) : Operation :=
  Finishing (set_result target c).

Definition dispatch_step (a : Answers) (o : Operation) : option Operation :=
  match o with
  | Dispatching c => DispatchWithRetry (clock a) (executor_result a) c
  | Calling c => Some (async_operation (target_result a) c)
  | Waiting c t => if (t <=? clock a)%Z then Some (Calling c) else Some o
  | Finishing c => Some (wrapped_callback c)
  | Finished c => Some o
  end.

(** The state after some answers, and how often the target was called. *)
Fixpoint dispatch_run (o : Operation) (answers : list Answers) : option (Operation * nat) :=
  match answers with
  | [] => Some (o, 0)
  | a :: answers =>
      o' ← dispatch_step a o;
      '(o'', n) ← dispatch_run o' answers;
      Some (o'', match o with Calling _ => S n | _ => n end)
  end.

Definition Dispatch (c : AsyncContext) : Operation := Dispatching c.

(** ** Bounds *)

Abbreviation max_retries := (maximum_allowed_retry_count_ retry_strategy_).

(** No back-off of an allowed retry count overflows. *)
Definition backoff_fits : Prop :=
  (0 ≤ delay_duration_ms_ retry_strategy_)%Z ∧ (0 ≤ max_retries)%Z ∧
  match retry_strategy_type_ retry_strategy_ with
  | Linear => (Z.max 1 max_retries * delay_duration_ms_ retry_strategy_ * 1000000 < 2 ^ 63)%Z
  | Exponential => (2 ^ (Z.max 1 max_retries - 1) * delay_duration_ms_ retry_strategy_ * 1000000 < 2 ^ 63)%Z
  end.

Lemma backoff_some n :
  backoff_fits → (0 ≤ n ≤ Z.max 1 max_retries)%Z →
  ∃ d, GetBackOffDurationInMilliseconds retry_strategy_ n = Some d ∧ (0 ≤ d)%Z ∧ (d * 1000000 < 2 ^ 63)%Z.
Proof.
  intros (Hd&Hm&Hfit) Hn. unfold GetBackOffDurationInMilliseconds.
  destruct (Z.eqb_spec n 0) as [->|Hn0]; [exists 0%Z; split_and!; [done|lia..]|].
  destruct (retry_strategy_type_ retry_strategy_).
  - assert (n * delay_duration_ms_ retry_strategy_ ≤ Z.max 1 max_retries * delay_duration_ms_ retry_strategy_)%Z
      by (apply Z.mul_le_mono_nonneg_r; lia).
    eexists. split; [done|]. rewrite u64_small by nia. nia.
  - assert (2 ^ (n - 1) ≤ 2 ^ (Z.max 1 max_retries - 1))%Z as Hp by (apply Z.pow_le_mono_r; lia).
    assert (0 < 2 ^ (n - 1))%Z by (apply Z.pow_pos_nonneg; lia).
    assert (2 ^ (n - 1) * delay_duration_ms_ retry_strategy_ ≤
            2 ^ (Z.max 1 max_retries - 1) * delay_duration_ms_ retry_strategy_)%Z by nia.
    destruct (Z.ltb_spec (2 ^ (n - 1) * delay_duration_ms_ retry_strategy_) (2 ^ 53)); [|lia].
    eexists. split; [done|]. lia.
Qed.

(** ** The life of an operation *)

Definition context_of (o : Operation) : AsyncContext :=
  match o with Dispatching c | Calling c | Waiting c _ | Finishing c | Finished c => c end.

(** [n] calls of the target so far. *)
Record op_ok (e : Z) (n : nat) (o : Operation) : Prop := {
  ok_expiration : expiration_time (context_of o) = e;
  ok_count : match o with
             | Dispatching c => (Z.of_nat n ≤ retry_count c ≤ Z.max 1 max_retries)%Z
             | Calling c => (Z.of_nat n ≤ retry_count c < Z.max 1 max_retries)%Z
             | Waiting c t => (Z.of_nat n ≤ retry_count c < Z.max 1 max_retries)%Z ∧ (t < e)%Z
             | Finishing c =>
                 (Z.of_nat n ≤ retry_count c + 1 ≤ Z.max 1 max_retries)%Z ∨
                 (Z.of_nat n ≤ retry_count c ≤ Z.max 1 max_retries)%Z ∧ status (result c) ≠ Retry
             | Finished c => (Z.of_nat n ≤ Z.max 1 max_retries)%Z ∧ status (result c) ≠ Retry
             end;
  ok_nonneg : (0 ≤ retry_count (context_of o))%Z
}.

Definition steps_left (o : Operation) : Z :=
  match o with
  | Dispatching c => 4 * (Z.max 1 max_retries - retry_count c) + 3
  | Waiting c _ => 4 * (Z.max 1 max_retries - retry_count c) + 2
  | Calling c => 4 * (Z.max 1 max_retries - retry_count c) + 1
  | Finishing c => if bool_decide (status (result c) = Retry)
                   then 4 * (Z.max 1 max_retries - retry_count c) else 1
  | Finished _ => 0
  end.

Definition ready (a : Answers) (o : Operation) : bool :=
  match o with Waiting _ t => (t <=? clock a)%Z | Finished _ => false | _ => true end.

(** Every answer is handled, keeps the bounds, and brings the end nearer. *)
Lemma dispatch_progress e n a o :
  backoff_fits → op_ok e n o →
  ∃ o', dispatch_step a o = Some o' ∧
    op_ok e (match o with Calling _ => S n | _ => n end) o' ∧
    (if ready a o then 0 ≤ steps_left o' < steps_left o else o' = o)%Z.
Proof.
  intros Hfit [He Hc Hn]. destruct o as [c|c|c t|c|c]; simpl in *.
  - unfold DispatchWithRetry. destruct (Z.eqb_spec (retry_count c) 0) as [H0|H0].
    { eexists. split; [done|]. split; [split; simpl; lia|simpl; lia]. }
    destruct (backoff_some (retry_count c)) as (d&->&Hd&Hd2); [done|lia|]. simpl. unfold GetMaximumAllowedRetryCount.
    assert (∀ r, status r ≠ Retry → op_ok e n (Finishing (set_result r c)) ∧
      (0 ≤ steps_left (Finishing (set_result r c)) <
       4 * (Z.max 1 max_retries - retry_count c) + 3)%Z) as Hfin.
    { intros r Hr. split; [split; simpl; auto; lia|]. simpl. rewrite bool_decide_eq_false_2 by done. lia. }
    destruct (Z.leb_spec max_retries (retry_count c)); [eexists; split; [done|]; by apply Hfin|].
    destruct (Z.leb_spec (expiration_time c) (clock a)); [eexists; split; [done|]; by apply Hfin|].
    destruct (Z.leb_spec (2 ^ 63) (d * 1000000)); [lia|].
    destruct (Z.leb_spec (expiration_time c - clock a) (d * 1000000)); [eexists; split; [done|]; by apply Hfin|].
    destruct (Successful (executor_result a)); (eexists; split; [done|]).
    + split; [split; simpl; auto; lia|simpl; lia].
    + split; [split; simpl; auto; left; lia|]. simpl. destruct (bool_decide _); lia.
  - eexists. split; [done|]. split; [split; simpl; auto; left; lia|]. simpl. destruct (bool_decide _); lia.
  - destruct (Z.leb_spec t (clock a)); (eexists; split; [done|]).
    + split; [split; simpl; auto; lia|simpl; lia].
    + split; [by split|done].
  - eexists. split; [done|]. unfold wrapped_callback. case_bool_decide as Hr.
    + assert (Z.of_nat n ≤ retry_count c + 1 ≤ Z.max 1 max_retries)%Z by (destruct Hc as [?|[_ ?]]; [done|by destruct H]).
      split; [split; simpl; auto; lia|]. simpl. lia.
    + split; [split; simpl; auto; split; [lia|done]|]. simpl. lia.
  - eexists. split; [done|]. split; [by split|done].
Qed.

Lemma dispatch_run_app o answers answers' o1 n1 o2 n2 :
  dispatch_run o answers = Some (o1, n1) → dispatch_run o1 answers' = Some (o2, n2) →
  dispatch_run o (answers ++ answers') = Some (o2, n1 + n2).
Proof.
  revert o n1. induction answers as [|a answers IH]; intros o n1 H1 H2; simplify_eq/=; [done|].
  apply bind_Some in H1 as (o'&->&H1). apply bind_Some in H1 as ([o3 n3]&H1&?). simplify_eq/=.
  rewrite (IH _ _ H1 H2). simpl. by destruct o.
Qed.

Lemma dispatch_run_ok e n o answers o' n' :
  backoff_fits → op_ok e n o → dispatch_run o answers = Some (o', n') → op_ok e (n + n') o'.
Proof.
  intros Hfit. revert n o n'. induction answers as [|a answers IH]; intros n o n' Ho Hrun; simplify_eq/=.
  { by rewrite Nat.add_0_r. }
  destruct (dispatch_progress e n a o) as (o1&Hs&Ho1&_); [done..|]. rewrite Hs in Hrun. simpl in Hrun.
  apply bind_Some in Hrun as ([o3 n3]&Hrun&?). simplify_eq/=. specialize (IH _ _ _ Ho1 Hrun).
  destruct o; try done. by rewrite Nat.add_succ_r.
Qed.

(** Some answers later the next step is taken. *)
Lemma dispatch_advances e n (f : nat → Answers) k o :
  backoff_fits → op_ok e n o → (∀ t, ∃ N, ∀ i, N ≤ i → (t ≤ clock (f i))%Z) → (∀ c, o ≠ Finished c) →
  ∃ m o' n', dispatch_run o (f <$> seq k m) = Some (o', n') ∧ (0 ≤ steps_left o' < steps_left o)%Z.
Proof.
  intros Hfit Ho Hclock Hnf.
  assert (∃ j, ready (f (k + j)) o = true) as [j Hj].
  { destruct o as [c|c|c t|c|c]; try by exists 0; try by destruct (Hnf c).
    destruct (Hclock t) as [N HN]. exists N. simpl. apply Z.leb_le, HN. lia. }
  revert k Hj. induction j as [|j IH]; intros k Hj.
  - rewrite Nat.add_0_r in Hj. destruct (dispatch_progress e n (f k) o) as (o'&Hs&_&Hlt); [done..|].
    rewrite Hj in Hlt. exists 1, o'. cbn. rewrite Hs. simpl. eauto.
  - destruct (ready (f k) o) eqn:Hr.
    + destruct (dispatch_progress e n (f k) o) as (o'&Hs&_&Hlt); [done..|]. rewrite Hr in Hlt.
      exists 1, o'. cbn. rewrite Hs. simpl. eauto.
    + destruct (dispatch_progress e n (f k) o) as (o'&Hs&_&Hlt); [done..|]. rewrite Hr in Hlt. subst o'.
      destruct (IH (S k)) as (m&o'&n'&Hrun&Hlt); [by rewrite Nat.add_succ_comm|].
      exists (S m), o'. cbn. rewrite Hs. simpl. rewrite Hrun. simpl. eauto.
Qed.

Lemma dispatch_ends e (f : nat → Answers) b :
  backoff_fits → (∀ t, ∃ N, ∀ i, N ≤ i → (t ≤ clock (f i))%Z) →
  ∀ k n o, op_ok e n o → (steps_left o ≤ Z.of_nat b)%Z →
  ∃ m c n', dispatch_run o (f <$> seq k m) = Some (Finished c, n').
Proof.
  intros Hfit Hclock. induction b as [b IH] using lt_wf_ind. intros k n o Ho Hb.
  assert ((∃ c, o = Finished c) ∨ ∀ c, o ≠ Finished c) as [[c ->]|Hnf]; [destruct o; naive_solver| |].
  { by exists 0, c, 0. }
  destruct (dispatch_advances e n f k o) as (m&o1&n1&Hrun&Hlt); [done..|].
  destruct (IH (Z.to_nat (steps_left o1))) with (k + m) (n + n1) o1 as (m2&c&n2&Hrun2);
    [lia|by eapply dispatch_run_ok|lia|].
  exists (m + m2), c, (n1 + n2). rewrite seq_app, fmap_app. by eapply dispatch_run_app.
Qed.

Lemma dispatch_start c : retry_count c = 0%Z → op_ok (expiration_time c) 0 (Dispatch c).
Proof. intros H0. split; simpl; lia. Qed.

(** C30: Whatever the target and the executor answer, as long as time passes, a dispatched operation
    ends: the caller's callback is called with a result that is not a retry, after at least one and
    at most [max 1 maximum_allowed_retry_count] calls of the target. *)
Theorem dispatch_finishes (f : nat → Answers) (c0 : AsyncContext) :
  backoff_fits → retry_count c0 = 0%Z → (∀ t, ∃ N, ∀ i, N ≤ i → (t ≤ clock (f i))%Z) →
  ∃ m c n, dispatch_run (Dispatch c0) (f <$> seq 0 m) = Some (Finished c, n) ∧
    status (result c) ≠ Retry ∧ 1 ≤ n ∧ (Z.of_nat n ≤ Z.max 1 max_retries)%Z.
Proof.
  intros Hfit H0 Hclock.
  destruct (dispatch_ends (expiration_time c0) f (Z.to_nat (steps_left (Dispatch c0))) Hfit Hclock 0 0 (Dispatch c0))
    as (m&c&n&Hrun); [by apply dispatch_start|lia|].
  exists m, c, n. split; [done|].
  pose proof (dispatch_run_ok _ _ _ _ _ _ Hfit (dispatch_start _ H0) Hrun) as [_ [Hle Hst] _].
  split_and!; [done| |simpl in Hle; lia].
  destruct m as [|[|m]]; simpl in Hrun; [done| |].
  - unfold DispatchWithRetry in Hrun. rewrite H0 in Hrun. simpl in Hrun. simplify_eq.
  - unfold DispatchWithRetry in Hrun. rewrite H0 in Hrun. simpl in Hrun.
    apply bind_Some in Hrun as ([o1 n1]&Hrun&?). simplify_eq.
    apply bind_Some in Hrun as ([o2 n2]&Hrun&?). simplify_eq. lia.
Qed.

(** A retry only ever waits for a time before the operation's deadline, with its back-off
    computed without overflow, and only while retries are left. *)
Theorem retries_respect_deadline (c0 : AsyncContext) answers c t n :
  backoff_fits → retry_count c0 = 0%Z →
  dispatch_run (Dispatch c0) answers = Some (Waiting c t, n) →
  (t < expiration_time c0)%Z ∧ (retry_count c < Z.max 1 max_retries)%Z ∧ (Z.of_nat n ≤ retry_count c)%Z.
Proof.
  intros Hfit H0 Hrun.
  pose proof (dispatch_run_ok _ _ _ _ _ _ Hfit (dispatch_start _ H0) Hrun) as [_ [Hle Hlt] _]. simpl in *. lia.
Qed.
End dispatch.

(** ** Witnesses *)

Definition sample_strategy : RetryStrategy := mkRetryStrategy Exponential 100 5.

Definition sample_context : AsyncContext (Req:=nat) (Resp:=nat) :=
  new_context 0 (mkUuid 1 2) 7 (mkUuid 0 0) (mkUuid 0 0).

Lemma sample_fits : backoff_fits sample_strategy.
Proof. repeat split; vm_compute; congruence. Qed.

(** A target that always asks for a retry. *)
Definition always_retry (i : nat) : Answers :=
  mkAnswers (Z.of_nat i * 1000000000) SuccessExecutionResult (RetryExecutionResult 1).

Lemma dispatch_finishes_witness :
  ∃ m c n, dispatch_run sample_strategy (Dispatch sample_context) (always_retry <$> seq 0 m) = Some (Finished c, n) ∧
    status (result c) ≠ Retry ∧ 1 ≤ n ∧ (Z.of_nat n ≤ 5)%Z.
Proof.
  apply (dispatch_finishes sample_strategy always_retry sample_context); [apply sample_fits|reflexivity|].
  intros t. exists (Z.to_nat t). intros i Hi. simpl. lia.
Defined.

Lemma retries_respect_deadline_witness :
  ∃ c t n, dispatch_run sample_strategy (Dispatch sample_context) (always_retry <$> seq 0 4) = Some (Waiting c t, n) ∧
    (t < 90000000000)%Z ∧ (retry_count c < 5)%Z ∧ (Z.of_nat n ≤ retry_count c)%Z.
Proof.
  eexists _, _, _. split; [vm_compute; reflexivity|].
  eapply (retries_respect_deadline sample_strategy sample_context (always_retry <$> seq 0 4));
    [apply sample_fits|reflexivity|vm_compute; reflexivity].
Defined.
