(* ===== verification/Streaming.v ===== *)
(** * Streaming: contexts of streaming operations

    Models [cc/core/interface/streaming_context.h].  The copies of a context
    share their queue and their two flags, so the state is the shared part.
    The consumer's and the producer's context have the same operations in
    opposite roles ([TryPushResponse]/[TryGetNextResponse] and
    [TryPushRequest]/[TryGetNextRequest]); a message is either.  A push loads
    the two flags and enqueues, in three steps. *)

From S2P Require Import Prelude ExecResult TaskExecutor.

Abbreviation SC_STREAMING_CONTEXT := 0x001A%Z (only parsing).
Abbreviation SC_STREAMING_CONTEXT_DONE := (MakeErrorCode SC_STREAMING_CONTEXT 0x0001).
Abbreviation SC_STREAMING_CONTEXT_CANCELLED := (MakeErrorCode SC_STREAMING_CONTEXT 0x0002).

Section streaming.
Context {Msg Q : Type} `{BQ : BoundedQueue Msg Q}.

Record Stream := mkStream {
  queue : Q;
  is_marked_done : bool;
  is_cancelled : bool;
  accepted : list Msg;   (* history: messages whose push returned success *)
  taken : list Msg       (* history: messages acquired *)
}.

Definition new_stream (max_num_outstanding : Z) : Stream := mkStream (set_capacity max_num_outstanding) false false [] [].

Definition MarkDone (s : Stream) : Stream := mkStream (queue s) true (is_cancelled s) (accepted s) (taken s).
Definition IsMarkedDone (s : Stream) : bool := is_marked_done s.
Definition TryCancel (s : Stream) : Stream := mkStream (queue s) (is_marked_done s) true (accepted s) (taken s).
Definition IsCancelled (s : Stream) : bool := is_cancelled s.

(** [TryGetNextResponse], [TryGetNextRequest]: [None] is [nullptr]. *)
Definition TryGetNext (s : Stream) : option Msg * Stream :=
  match TryDequeue (queue s) with
  | (_, Some m, q) => (Some m, mkStream q (is_marked_done s) (is_cancelled s) (accepted s) (taken s ++ [m]))
  | (_, None, _) => (None, s)
  end.

(** [TryPushResponse], [TryPushRequest], by their three steps. *)
Definition push_done_test (s : Stream) : option ExecutionResult :=
  if IsMarkedDone s then Some (FailureExecutionResult SC_STREAMING_CONTEXT_DONE) else None.

Definition push_cancel_test (s : Stream) : option ExecutionResult :=
  if IsCancelled s then Some (FailureExecutionResult SC_STREAMING_CONTEXT_CANCELLED) else None.

Definition push_enqueue (m : Msg) (s : Stream) : ExecutionResult * Stream :=
  let '(r, q) := TryEnqueue m (queue s) in
  (r, mkStream q (is_marked_done s) (is_cancelled s)
        (if Successful r then accepted s ++ [m] else accepted s) (taken s)).

(** Without interference. *)
Definition TryPush (m : Msg) (s : Stream) : ExecutionResult * Stream :=
  match push_done_test s with
  | Some r => (r, s)
  | None => match push_cancel_test s with Some r => (r, s) | None => push_enqueue m s end
  end.

(** [FinishStreamingContext]: marks the context, and hands its [Finish] to the
    executor, whose answer is [r], or runs it on the spot. *)
Definition FinishStreamingContext (r : ExecutionResult) (s : Stream) : Stream * bool := (MarkDone s, Successful r).

(** ** Threads *)

Inductive Push := PushTested (m : Msg) | PushReady (m : Msg).

Record Threads := mkThreads { stream : Stream; pushes : list Push }.

Inductive SEvent :=
  | SPush (m : Msg)        (* a push begins: the first test *)
  | SPushStep (i : nat)    (* the next step of a push *)
  | SGet
  | SMarkDone
  | STryCancel
  | SIsMarkedDone.

Inductive SOut := SNone_ | SRes (r : ExecutionResult) | SMsg (m : option Msg) | SFlag (b : bool).

Definition sstep (t : Threads) (ev : SEvent) : option (SOut * Threads) :=
  let s := stream t in
  match ev with
  | SPush m =>
      match push_done_test s with
      | Some r => Some (SRes r, t)
      | None => Some (SNone_, mkThreads s (pushes t ++ [PushTested m]))
      end
  | SPushStep i =>
      p ← pushes t !! i;
      match p with
      | PushTested m =>
          match push_cancel_test s with
          | Some r => Some (SRes r, mkThreads s (delete i (pushes t)))
          | None => Some (SNone_, mkThreads s (<[i := PushReady m]> (pushes t)))
          end
      | PushReady m =>
          let '(r, s') := push_enqueue m s in Some (SRes r, mkThreads s' (delete i (pushes t)))
      end
  | SGet => let '(m, s') := TryGetNext s in Some (SMsg m, mkThreads s' (pushes t))
  | SMarkDone => Some (SNone_, mkThreads (MarkDone s) (pushes t))
  | STryCancel => Some (SNone_, mkThreads (TryCancel s) (pushes t))
  | SIsMarkedDone => Some (SFlag (IsMarkedDone s), t)
  end.

Definition sinit (cap : Z) : Threads := mkThreads (new_stream cap) [].

(** ** Order and completeness *)

Record sinv (cap : Z) (t : Threads) : Prop := {
  si_fifo : accepted (stream t) = taken (stream t) ++ items (queue (stream t));
  si_cap : capacity (queue (stream t)) = cap ∧ (zlen (items (queue (stream t))) ≤ cap)%Z
}.

Lemma sinv_step cap t ev r t' : sinv cap t → sstep t ev = Some (r, t') → sinv cap t'.
Proof.
  intros [Hf [Hc Hl]] Hs. destruct ev as [m|i| | | |]; simpl in Hs.
  - case_match; simplify_eq; by split.
  - apply bind_Some in Hs as (p&_&Hs). destruct p as [m|m]; [case_match; simplify_eq; by split|].
    unfold push_enqueue, TryEnqueue in Hs. destruct (try_push m (queue (stream t))) as [q|] eqn:Hp; simplify_eq/=; [|by split].
    pose proof (push_none m (queue (stream t))) as [_ Hn]. rewrite Hp in Hn.
    apply push_some in Hp as [Hi Hcap]. split; simpl; [by rewrite Hi, Hf, app_assoc|].
    rewrite Hi, length_app. simpl. split; [congruence|].
    destruct (decide (capacity (queue (stream t)) ≤ zlen (items (queue (stream t))))%Z); [by discriminate Hn|lia].
  - unfold TryGetNext in Hs. destruct (TryDequeue (queue (stream t))) as [[r0 [m|]] q] eqn:Hd; simplify_eq/=; [|by split].
    apply dequeue_some, pop_some in Hd as [Hi Hcap].
    assert (length (items (queue (stream t))) = S (length (items q))) by (by rewrite Hi).
    split; simpl; [by rewrite Hf, Hi, <-app_assoc|split; [congruence|lia]].
  - simplify_eq. by split.
  - simplify_eq. by split.
  - by simplify_eq.
Qed.

Lemma sreach cap evs rs t :
  (0 ≤ cap)%Z → run_ops sstep (sinit cap) evs = Some (rs, t) → sinv cap t.
Proof.
  intros Hc. apply (run_ops_invariant sstep (λ _, True)); [| |by apply Forall_true].
  - intros t1 ev r t2 HI _. by apply sinv_step.
  - split; simpl; rewrite new_items; [done|]. rewrite new_capacity. split; [done|simpl; lia].
Qed.

(** Nothing is accepted any more. *)
Definition closed (l : list Msg) (t : Threads) : Prop :=
  is_marked_done (stream t) = true ∧ pushes t = [] ∧ accepted (stream t) = l.

Lemma closed_step l t ev r t' : closed l t → sstep t ev = Some (r, t') → closed l t'.
Proof.
  intros (Hd&Hp&Ha) Hs. unfold closed. destruct ev as [m|i| | | |]; simpl in Hs.
  - unfold push_done_test, IsMarkedDone in Hs. rewrite Hd in Hs. by simplify_eq.
  - rewrite Hp in Hs. done.
  - unfold TryGetNext in Hs. destruct (TryDequeue _) as [[r0 [m|]] q]; by simplify_eq/=.
  - by simplify_eq/=.
  - by simplify_eq/=.
  - by simplify_eq/=.
Qed.

End streaming.

(** ** The order of the two tests

    The header tells the consumer to call [TryGetNextResponse] before it tests
    [IsMarkedDone], and that both together mean that all messages were
    received. *)

Definition SThreads := Threads (Msg:=nat) (Q:=Z * list nat).

(** In the documented order the conclusion is wrong: a consumer gets no message, then sees the
    context marked done, although a message was accepted in between and is still queued. *)
Theorem documented_order_misses_message :
  (λ r : list SOut * SThreads, (r.1, taken (stream r.2), accepted (stream r.2))) <$>
  run_ops sstep (sinit 4) [SGet; SPush 7; SPushStep 0; SPushStep 0; SMarkDone; SIsMarkedDone] =
  Some ([SMsg None; SNone_; SNone_; SRes SuccessExecutionResult; SNone_; SFlag true], [], [7]).
Proof. vm_compute. reflexivity. Qed.

