(* ===== verification/Decimal.v ===== *)
(** * Decimal: numbers as strings

    [strtol], [absl::StrSplit] by a character and the printing of numbers
    ([absl::StrCat], [std::to_string]), which several clients use on headers.
    Printing is stdpp's [pretty]. *)

From Stdlib Require Import Ascii.
From stdpp Require Import pretty.
From S2P Require Import Prelude.

Local Open Scope string_scope.
Local Open Scope list_scope.
Local Open Scope Z_scope.

Definition digit_of (c : ascii) : option Z :=
  let n := Z.of_N (N_of_ascii c) in if (48 <=? n) && (n <=? 57) then Some (n - 48) else None.

(** The digits at the start of the string. *)
Fixpoint parse_digits (acc : Z) (s : string) : Z :=
  match s with
  | "" => acc
  | String c s => match digit_of c with Some d => parse_digits (acc * 10 + d) s | None => acc end
  end.

Definition spaces : list ascii := [" "; "009"; "010"; "011"; "012"; "013"]%char.

Fixpoint skip_spaces (s : string) : string :=
  match s with
  | String c s' => if bool_decide (c ∈ spaces) then skip_spaces s' else s
  | "" => ""
  end.

Definition LONG_MAX : Z := 2 ^ 63 - 1.
Definition LONG_MIN : Z := - 2 ^ 63.

(** [strtol(s, nullptr, 10)]: out of range gives the nearest [long]. *)
Definition strtol (s : string) : Z :=
  match skip_spaces s with
  | String "-" s => Z.max LONG_MIN (- parse_digits 0 s)
  | String "+" s => Z.min LONG_MAX (parse_digits 0 s)
  | s => Z.min LONG_MAX (parse_digits 0 s)
  end.

Definition skip_sign (s : string) : string := match s with String "-" s | String "+" s => s | s => s end.

(** [std::stoi]: [None] is an exception, when there is no digit or the number is not an [int]. *)
Definition stoi (s : string) : option Z :=
  let s := skip_spaces s in
  match skip_sign s with
  | String c _ =>
      if bool_decide (is_Some (digit_of c)) && bool_decide (- 2 ^ 31 ≤ strtol s < 2 ^ 31) then Some (strtol s) else None
  | "" => None
  end.

(** [absl::StrSplit]: the pieces between the occurrences of [c]. *)
Fixpoint StrSplit (c : ascii) (s : string) : list string :=
  match s with
  | "" => [""]
  | String d s =>
      if bool_decide (d = c) then "" :: StrSplit c s
      else match StrSplit c s with
           | p :: ps => String d p :: ps
           | [] => [String d ""]
           end
  end.

(** ** Strings of digits *)

Fixpoint all_digits (s : string) : bool :=
  match s with "" => true | String c s => bool_decide (is_Some (digit_of c)) && all_digits s end.

Lemma pretty_char_digit x : (x < 10)%N → digit_of (pretty_N_char x) = Some (Z.of_N x).
Proof.
  intros Hx. assert (Forall (λ x, digit_of (pretty_N_char x) = Some (Z.of_N x)) (N.of_nat <$> seq 0 10)) as H.
  { repeat constructor. }
  rewrite Forall_forall in H. apply H, list_elem_of_fmap. exists (N.to_nat x). rewrite N2Nat.id. split; [done|].
  apply elem_of_seq. lia.
Qed.

Lemma pretty_go_parse x s : ∃ k, 0 ≤ k ∧ ∀ acc, parse_digits acc (pretty_N_go x s) = parse_digits (acc * 10 ^ k + Z.of_N x) s.
Proof.
  revert s. induction (N.lt_wf_0 x) as [x _ IH]. intros s. destruct (decide (x = 0)%N) as [->|Hx].
  { exists 0. split; [done|]. intros acc. rewrite pretty_N_go_0. f_equal. cbn. lia. }
  rewrite pretty_N_go_step by lia. destruct (IH (x `div` 10)%N) with (String (pretty_N_char (x `mod` 10)) s) as (k & Hk & E).
  { apply N.div_lt; lia. }
  exists (k + 1). split; [lia|]. intros acc. rewrite E. cbn [parse_digits].
  rewrite pretty_char_digit by (apply N.mod_lt; lia). f_equal. rewrite Z.pow_add_r, Z.pow_1_r by lia.
  pose proof (N.div_mod x 10 ltac:(lia)) as Hdm. lia.
Qed.

Lemma pretty_go_digits x s : all_digits s = true → all_digits (pretty_N_go x s) = true.
Proof.
  revert s. induction (N.lt_wf_0 x) as [x _ IH]. intros s Hs. destruct (decide (x = 0)%N) as [->|Hx]; [by rewrite pretty_N_go_0|].
  rewrite pretty_N_go_step by lia. apply IH; [apply N.div_lt; lia|]. cbn [all_digits].
  rewrite pretty_char_digit by (apply N.mod_lt; lia). by rewrite bool_decide_true.
Qed.

Lemma pretty_parse n : 0 ≤ n → parse_digits 0 (pretty n) = n.
Proof.
  intros Hn. destruct n as [|p|p]; [done| |lia]. change (pretty (Z.pos p)) with (pretty (N.pos p)).
  unfold pretty, pretty_N. rewrite decide_False by done. destruct (pretty_go_parse (N.pos p) "") as (k & _ & E).
  rewrite E. cbn [parse_digits]. lia.
Qed.

Lemma pretty_digits n : 0 ≤ n → all_digits (pretty n) = true.
Proof.
  intros Hn. destruct n as [|p|p]; [done| |lia]. change (pretty (Z.pos p)) with (pretty (N.pos p)).
  unfold pretty, pretty_N. rewrite decide_False by done. by apply pretty_go_digits.
Qed.

Lemma digit_char c d : digit_of c = Some d → c ∉ spaces ++ ["-"; "+"]%char.
Proof.
  unfold spaces. cbn [app]. intros H Hc. repeat (apply elem_of_cons in Hc as [->|Hc]; [done|]). by apply not_elem_of_nil in Hc.
Qed.

(** [strtol] reads what was printed. *)
Lemma strtol_pretty n : 0 ≤ n → strtol (pretty n) = Z.min LONG_MAX n.
Proof.
  intros Hn. pose proof (pretty_digits n Hn) as Hd. pose proof (pretty_parse n Hn) as Hp.
  destruct (pretty n) as [|c s]; [cbn in *; subst; done|]. cbn [all_digits] in Hd. apply andb_true_iff in Hd as [[d Hd]%bool_decide_eq_true _].
  pose proof (digit_char c d Hd) as [Hc _]%not_elem_of_app. unfold strtol. cbn [skip_spaces]. rewrite bool_decide_false by done.
  destruct (decide (c = "-"%char)) as [->|H1]; [done|]. destruct (decide (c = "+"%char)) as [->|H2]; [done|].
  transitivity (Z.min LONG_MAX (parse_digits 0 (String c s))); [|by rewrite Hp].
  clear -H1 H2. destruct c as [[] [] [] [] [] [] [] []]; done.
Qed.

(** What printing a number gives. *)
Lemma pretty_head n : 0 ≤ n → ∃ c s d, pretty n = String c s ∧ digit_of c = Some d.
Proof.
  intros Hn. pose proof (pretty_digits n Hn) as Hd. destruct (pretty n) as [|c s] eqn:E.
  - destruct n as [|p|p]; [done| |lia]. change (pretty (Z.pos p)) with (pretty (N.pos p)) in E.
    pose proof (pretty_parse (Z.pos p) Hn) as Hp. change (pretty (Z.pos p)) with (pretty (N.pos p)) in Hp. by rewrite E in Hp.
  - cbn in Hd. apply andb_true_iff in Hd as [[d Hd]%bool_decide_eq_true _]. by exists c, s, d.
Qed.

Lemma pretty_minus n : 0 < n → pretty (- n) = String "-" (pretty n).
Proof. by destruct n. Qed.

(** A digit is neither a space nor a sign. *)
Lemma digit_start c d s : digit_of c = Some d →
  skip_spaces (String c s) = String c s ∧ skip_sign (String c s) = String c s.
Proof.
  intros Hd. pose proof (digit_char c d Hd) as [Hc Hs]%not_elem_of_app. cbn [skip_spaces]. rewrite bool_decide_false by done.
  split; [done|]. destruct (decide (c = "-"%char)) as [->|H1]; [done|]. destruct (decide (c = "+"%char)) as [->|H2]; [done|].
  clear -H1 H2. destruct c as [[] [] [] [] [] [] [] []]; done.
Qed.

Lemma stoi_pretty n : - 2 ^ 31 ≤ n < 2 ^ 31 → stoi (pretty n) = Some n.
Proof.
  intros Hn. destruct (decide (0 ≤ n)) as [H0|H0].
  - destruct (pretty_head n H0) as (c & s & d & E & Hd). pose proof (strtol_pretty n H0) as Hs. rewrite E in *.
    destruct (digit_start c d s Hd) as [E1 E2]. unfold stoi. rewrite E1, E2, Hs.
    rewrite Z.min_r by (unfold LONG_MAX; lia). by rewrite bool_decide_true, bool_decide_true by (done || by eexists).
  - assert (strtol (String "-" (pretty (- n))) = n) as Hs.
    { unfold strtol. cbn [skip_spaces]. rewrite bool_decide_false by (by rewrite list_elem_of_In; cbn; intros; intuition).
      rewrite pretty_parse by lia. unfold LONG_MIN. lia. }
    replace (pretty n) with (String "-" (pretty (- n))) by (rewrite <-pretty_minus by lia; f_equal; lia).
    destruct (pretty_head (- n) ltac:(lia)) as (c & s & d & E & Hd). unfold stoi.
    replace (skip_spaces _) with (String "-" (pretty (- n))) by done. rewrite Hs, E. cbn [skip_sign].
    by rewrite bool_decide_true, bool_decide_true by (done || by eexists).
Qed.

Lemma StrSplit_digits c s : digit_of c = None → all_digits s = true → StrSplit c s = [s].
Proof.
  intros Hc. induction s as [|d s IH]; intros Hs; [done|]. cbn in *. apply andb_true_iff in Hs as [[x Hx]%bool_decide_eq_true Hs].
  rewrite bool_decide_false by (intros ->; by rewrite Hx in Hc). by rewrite IH.
Qed.

(** The pieces of a string whose first piece is [p]. *)
Lemma StrSplit_first c p s : Forall (.≠ c) (String.list_ascii_of_string p) → StrSplit c (p +:+ String c s) = p :: StrSplit c s.
Proof.
  induction p as [|d p IH]; intros Hp.
  - change ("" +:+ String c s) with (String c s). cbn [StrSplit]. by rewrite bool_decide_true.
  - apply Forall_cons in Hp as [Hd Hp]. change (String d p +:+ String c s) with (String d (p +:+ String c s)).
    cbn [StrSplit]. rewrite bool_decide_false by done. by rewrite IH.
Qed.

Lemma StrSplit_none c s : Forall (.≠ c) (String.list_ascii_of_string s) → StrSplit c s = [s].
Proof.
  induction s as [|d s IH]; intros Hs; [done|]. apply Forall_cons in Hs as [Hd Hs]. cbn [StrSplit].
  rewrite bool_decide_false by done. by rewrite IH.
Qed.

Lemma digits_not c s : digit_of c = None → all_digits s = true → Forall (.≠ c) (String.list_ascii_of_string s).
Proof.
  intros Hc. induction s as [|d s IH]; intros Hs; [constructor|]. cbn in *. apply andb_true_iff in Hs as [[x Hx]%bool_decide_eq_true Hs].
  constructor; [intros ->; by rewrite Hx in Hc|auto].
Qed.

Lemma list_ascii_app s s' :
  String.list_ascii_of_string (s +:+ s') = String.list_ascii_of_string s ++ String.list_ascii_of_string s'.
Proof. induction s as [|c s IH]; [done|]. exact (f_equal (cons c) IH). Qed.

Lemma string_app_assoc (a b c : string) : a +:+ b +:+ c = (a +:+ b) +:+ c.
Proof. induction a as [|x a IH]; [done|]. exact (f_equal (String x) IH). Qed.

Lemma string_app_nil (s : string) : s +:+ "" = s.
Proof. induction s as [|x s IH]; [done|]. exact (f_equal (String x) IH). Qed.
