(* ===== verification/Utils.v ===== *)
(** * Utils: base64, splitting of strings, public results

    Models [cc/core/utils/src]: [base64.cc], [string_util.cc] and
    [error_utils.cc], and the macros of
    [cc/public/core/interface/execution_result.h] that return early on a
    failure, as the bind of a monad.

    The base64 routines of BoringSSL are not part of the sources; the class
    [EvpBase64] states what its documentation promises. *)

From S2P Require Import Prelude ExecResult.
From Stdlib Require Import Ascii.

(** ** Operations that fail or crash

    [None] is undefined behaviour, an exception that leaves a [noexcept]
    function, or non-termination. *)

Definition Fallible (A : Type) : Type := option (ExecutionResultOr A).

#[global] Instance Fallible_ret : MRet Fallible := λ A x, Some (HasValue x).

(** [ASSIGN_OR_RETURN] and [RETURN_IF_FAILURE]. *)
#[global] Instance Fallible_bind : MBind Fallible := λ A B k x,
  match x with
  | Some (HasValue v) => k v
  | Some (HasResult r) => Some (HasResult r)
  | None => None
  end.

Definition fail_with {A} (code : Z) : Fallible A := Some (HasResult (FailureExecutionResult code)).

Definition RETURN_IF_FAILURE (r : ExecutionResult) : Fallible unit :=
  if Successful r then mret tt else Some (HasResult r).

Definition ASSIGN_OR_RETURN {A} (x : ExecutionResultOr A) : Fallible A := Some x.

(** An access that throws when there is nothing. *)
Definition or_throw {A} (x : option A) : Fallible A := HasValue <$> x.

Lemma fallible_bind_value {A B} (x : Fallible A) (k : A → Fallible B) v :
  x ≫= k = Some (HasValue v) → ∃ a, x = Some (HasValue a) ∧ k a = Some (HasValue v).
Proof. destruct x as [[r|a]|]; cbn; [congruence| |congruence]. by exists a. Qed.

(** ** Error codes *)

Abbreviation SC_CORE_UTILS := 0x0014%Z (only parsing).
Abbreviation SC_CORE_UTILS_INVALID_INPUT := (MakeErrorCode SC_CORE_UTILS 0x0001).
Abbreviation SC_CORE_UTILS_INVALID_BASE64_ENCODING_LENGTH := (MakeErrorCode SC_CORE_UTILS 0x0002).

(** ** Base64 *)

(** The value of an [int] that a [size_t] was converted to. *)
Definition int_of_size (z : Z) : Z :=
  let r := u32 z in if (r <? 2 ^ 31)%Z then r else (r - 2 ^ 32)%Z.

Class EvpBase64 := {
  EVP_EncodedLength : Z → option Z;
  EVP_DecodedLength : Z → option Z;
  EVP_EncodeBlock : string → string;
  EVP_DecodeBase64 : string → option string;
  evp_encoded_length n : (0 ≤ n < 2 ^ 61)%Z → EVP_EncodedLength n = Some (4 * ((n + 2) / 3) + 1)%Z;
  evp_decoded_length n : (0 ≤ n)%Z → (n `mod` 4 = 0)%Z → EVP_DecodedLength n = Some (3 * (n / 4))%Z;
  evp_encode_block s : String.length (EVP_EncodeBlock s) = 4 * ((String.length s + 2) / 3);
  evp_decode_encode s : EVP_DecodeBase64 (EVP_EncodeBlock s) = Some s
}.

Section base64.
Context `{EvpBase64}.

Definition Base64Decode (encoded : string) : ExecutionResultOr string :=
  let len := Z.of_nat (String.length encoded) in
  if negb (len `mod` 4 =? 0)%Z
  then HasResult (FailureExecutionResult SC_CORE_UTILS_INVALID_BASE64_ENCODING_LENGTH)
  else match EVP_DecodedLength len with
       | None => HasResult (FailureExecutionResult SC_CORE_UTILS_INVALID_INPUT)
       | Some _ =>
           match EVP_DecodeBase64 encoded with
           | None => HasResult (FailureExecutionResult SC_CORE_UTILS_INVALID_INPUT)
           | Some decoded => HasValue decoded
           end
       end.

(** [ret] is an [int]; a negative one makes the string constructor throw, and one that is too
    small truncates the result. *)
Definition Base64Encode (decoded : string) : Fallible string :=
  match EVP_EncodedLength (Z.of_nat (String.length decoded)) with
  | None => fail_with SC_CORE_UTILS_INVALID_INPUT
  | Some _ =>
      let buffer := EVP_EncodeBlock decoded in
      let ret := int_of_size (Z.of_nat (String.length buffer)) in
      if (ret =? 0)%Z then fail_with SC_CORE_UTILS_INVALID_INPUT
      else if (ret <? 0)%Z then None
      else mret (String.substring 0 (Z.to_nat ret) buffer)
  end.

Definition PadBase64Encoding (encoded : string) : ExecutionResultOr string :=
  match (Z.of_nat (String.length encoded) `mod` 4)%Z with
  | 0%Z => HasValue encoded
  | 2%Z => HasValue (encoded +:+ "==")
  | 3%Z => HasValue (encoded +:+ "=")
  | _ => HasResult (FailureExecutionResult SC_CORE_UTILS_INVALID_BASE64_ENCODING_LENGTH)
  end.
End base64.

(** ** [SplitStringByDelimiter] *)

(** [str.find(delimiter, start)] is [String.index]; [start] is an [unsigned int]. *)
Fixpoint split_loop (fuel : nat) (str delimiter : string) (start : nat) (out : list string)
  : option (list string) :=
  match String.index start delimiter str with
  | Some end_ =>
      match fuel with
      | 0 => None
      | S fuel =>
          split_loop fuel str delimiter (Z.to_nat (u32 (Z.of_nat (end_ + String.length delimiter))))
            (out ++ [String.substring start (end_ - start) str])
      end
  | None => Some (out ++ [String.substring start (String.length str) str])
  end.

(** Every round moves [start] forward when the delimiter is not empty, so the length of the
    string bounds their number. *)
Definition SplitStringByDelimiter (str delimiter : string) (out : list string) : option (list string) :=
  split_loop (S (String.length str)) str delimiter 0 out.

(** ** [ConvertToPublicExecutionResult] *)

Definition ConvertToPublicExecutionResult (reg : ErrorRegistry) (r : ExecutionResult) : ExecutionResult :=
  if Successful r then r else mkResult (status r) (GetPublicErrorCode reg (status_code r)).

(** ** Base64: round trip *)

Section base64_facts.
Context `{EvpBase64}.

Lemma substring_full s : String.substring 0 (String.length s) s = s.
Proof. induction s as [|c s IH]; [done|]. cbn. by rewrite IH. Qed.

Lemma encoded_length_pos s : s ≠ ""%string → 0 < String.length (EVP_EncodeBlock s).
Proof.
  intros Hs. rewrite evp_encode_block. destruct s as [|c s]; [done|]. cbn [String.length].
  pose proof (Nat.Div0.div_le_mono 3 (S (String.length s) + 2) 3). rewrite Nat.div_same in *; lia.
Qed.

(** What is encoded is decoded again, for every string that is not empty and whose encoding
    fits an [int]. *)
Lemma base64_roundtrip s :
  s ≠ ""%string → (Z.of_nat (String.length s) < 3 * 2 ^ 29 - 2)%Z →
  Base64Encode s = Some (HasValue (EVP_EncodeBlock s)) ∧
  Base64Decode (EVP_EncodeBlock s) = HasValue s.
Proof.
  intros Hs Hlen. pose proof (encoded_length_pos s Hs) as Hpos.
  pose proof (evp_encode_block s) as Hl.
  assert (Z.of_nat (String.length (EVP_EncodeBlock s)) = 4 * ((Z.of_nat (String.length s) + 2) / 3))%Z as HZ
    by (rewrite Hl, Nat2Z.inj_mul, Nat2Z.inj_div, Nat2Z.inj_add; done).
  split.
  - unfold Base64Encode. rewrite evp_encoded_length by lia. unfold int_of_size, u32.
    rewrite Z.mod_small by zlia. destruct (Z.ltb_spec (Z.of_nat (String.length (EVP_EncodeBlock s))) (2 ^ 31));
      [|zlia].
    destruct (Z.eqb_spec (Z.of_nat (String.length (EVP_EncodeBlock s))) 0); [lia|].
    destruct (Z.ltb_spec (Z.of_nat (String.length (EVP_EncodeBlock s))) 0); [lia|].
    rewrite Nat2Z.id. by rewrite substring_full.
  - unfold Base64Decode. rewrite HZ, Z.mul_comm, Z.mod_mul by lia. cbn [Z.eqb negb].
    rewrite evp_decoded_length; [|zlia|by rewrite Z.mod_mul]. by rewrite evp_decode_encode.
Qed.

(** [EVP_EncodeBlock] returns the number of characters written, which is zero for the empty
    string; [Base64Encode] takes that for a failure. *)
Lemma base64_encode_empty : Base64Encode "" = fail_with SC_CORE_UTILS_INVALID_INPUT.
Proof.
  unfold Base64Encode. rewrite evp_encoded_length by (cbn; lia).
  pose proof (evp_encode_block "") as ->. done.
Qed.

Lemma string_length_app s1 s2 :
  String.length (s1 +:+ s2)%string = String.length s1 + String.length s2.
Proof. induction s1 as [|c s1 IH]; [done|]. exact (f_equal S IH). Qed.

(** Padding appends at most two equal signs and reaches a length that is a multiple of four; it
    fails exactly for the lengths where that is impossible. *)
Lemma pad_base64_spec s :
  match PadBase64Encoding s with
  | HasValue p => (p = s ∨ p = (s +:+ "=")%string ∨ p = (s +:+ "==")%string) ∧
                  (Z.of_nat (String.length p) `mod` 4 = 0)%Z
  | HasResult r => r = FailureExecutionResult SC_CORE_UTILS_INVALID_BASE64_ENCODING_LENGTH ∧
                   (Z.of_nat (String.length s) `mod` 4 = 1)%Z
  end.
Proof.
  unfold PadBase64Encoding. set (n := Z.of_nat (String.length s)).
  assert (n `mod` 4 = 0 ∨ n `mod` 4 = 1 ∨ n `mod` 4 = 2 ∨ n `mod` 4 = 3)%Z as Hn by zlia.
  destruct Hn as [Hn|[Hn|[Hn|Hn]]]; rewrite Hn; [by eauto|done| |];
    (split; [by eauto|]); rewrite string_length_app; cbn [String.length]; zlia.
Qed.
End base64_facts.

(** ** Splitting: the parts and their join *)

Lemma substring_add n a b s :
  String.substring n (a + b) s = (String.substring n a s +:+ String.substring (n + a) b s)%string.
Proof.
  revert n a. induction s as [|c s IH]; intros [|n] [|a]; try done; cbn.
  - exact (f_equal (String c) (IH 0 a)).
  - exact (IH n 0).
  - exact (IH n (S a)).
Qed.

Lemma substring_length n a s : String.length (String.substring n a s) = Nat.min a (String.length s - n).
Proof.
  revert n a. induction s as [|c s IH]; intros [|n] [|a]; cbn; try lia.
  - by rewrite IH, Nat.sub_0_r.
  - apply (IH n 0).
  - apply IH.
Qed.

Lemma substring_substring m a n b s :
  m + a ≤ b → String.substring m a (String.substring n b s) = String.substring (n + m) a s.
Proof.
  revert m a n b. induction s as [|c s IH]; intros m a [|n] b Hle; cbn.
  - by destruct b, m, a.
  - by destruct m, a.
  - destruct b as [|b]; [destruct m, a; try lia; done|]. destruct m as [|m]; cbn.
    + destruct a as [|a]; [done|]. f_equal. apply (IH 0 a 0 b). lia.
    + apply (IH m a 0 b). lia.
  - apply IH. lia.
Qed.

Lemma substring_all n a s : String.length s - n ≤ a →
  String.substring n a s = String.substring n (String.length s - n) s.
Proof.
  revert n a. induction s as [|c s IH]; intros [|n] [|a] Hle; cbn in *; try done; try lia.
  - f_equal. rewrite (IH 0 a) by lia. by rewrite Nat.sub_0_r.
  - apply (IH n 0). lia.
  - apply (IH n (S a)). lia.
Qed.

(** A part that starts at [start] and ends before the next delimiter holds none. *)
Lemma part_has_no_delimiter d str start k :
  d ≠ ""%string → (∀ p, start ≤ p → p + String.length d ≤ start + k →
    String.substring p (String.length d) str ≠ d) →
  String.index 0 d (String.substring start k str) = None.
Proof.
  intros Hd Hno. destruct (String.index 0 d _) as [m|] eqn:E; [|done]. exfalso.
  apply String.index_correct1 in E. pose proof (f_equal String.length E) as Hl.
  rewrite !substring_length in Hl.
  assert (0 < String.length d) by (destruct d; cbn; [done|lia]).
  rewrite substring_substring in E by lia. apply (Hno (start + m)); [lia|lia|done].
Qed.

Lemma index_bound n d str m : String.index n d str = Some m → d ≠ ""%string →
  n ≤ m ∧ m + String.length d ≤ String.length str.
Proof.
  intros E Hd. split.
  - destruct (decide (n ≤ m)) as [|Hn]; [done|]. exfalso. revert n m E Hn.
    induction str as [|c str IH]; intros [|n] m E Hn; cbn in E; try lia; [done|].
    destruct (String.index n d str) as [m'|] eqn:E'; [|done]. injection E as <-.
    apply (IH n m' E'). lia.
  - apply String.index_correct1 in E. pose proof (f_equal String.length E) as Hl.
    rewrite substring_length in Hl. assert (0 < String.length d) by (destruct d; cbn; [done|lia]). lia.
Qed.

Lemma split_loop_spec d str : d ≠ ""%string → (Z.of_nat (String.length str) < 2 ^ 32)%Z →
  ∀ fuel start out, start ≤ String.length str → String.length str - start < fuel →
  ∃ parts, split_loop fuel str d start out = Some (out ++ parts) ∧ parts ≠ [] ∧
    String.concat d parts = String.substring start (String.length str - start) str ∧
    Forall (λ p, String.index 0 d p = None) parts.
Proof.
  intros Hd Hlen. induction fuel as [|fuel IH]; intros start out Hs Hf; [lia|].
  assert (0 < String.length d) by (destruct d; cbn; [done|lia]).
  cbn. destruct (String.index start d str) as [e|] eqn:E.
  - destruct (index_bound _ _ _ _ E Hd) as [H1 H2]. rewrite u32_small, Nat2Z.id by lia.
    destruct (IH (e + String.length d) (out ++ [String.substring start (e - start) str]))
      as (parts & -> & Hne & Hc & Hp); [lia|lia|].
    exists (String.substring start (e - start) str :: parts). split_and!.
    + by rewrite <-app_assoc.
    + done.
    + destruct parts as [|p ps]; [done|]. cbn [String.concat]. cbn [String.concat] in Hc. rewrite Hc.
      replace (String.length str - start)
        with ((e - start) + (String.length d + (String.length str - (e + String.length d)))) by lia.
      rewrite substring_add. f_equal. replace (start + (e - start)) with e by lia.
      rewrite substring_add. by rewrite (String.index_correct1 _ _ _ _ E).
    + constructor; [|done]. apply part_has_no_delimiter; [done|]. intros p Hp1 Hp2.
      apply (String.index_correct2 _ _ _ _ E); lia.
  - exists [String.substring start (String.length str) str]. split_and!; [done|done| |].
    + apply substring_all. lia.
    + constructor; [|done]. apply part_has_no_delimiter; [done|]. intros p Hp1 _.
      apply (String.index_correct3 _ _ _ _ E Hd). lia.
Qed.

(** The parts, joined with the delimiter, are the string, and none of them contains it. *)
Theorem split_string_by_delimiter_correct str delimiter out :
  delimiter ≠ ""%string → (Z.of_nat (String.length str) < 2 ^ 32)%Z →
  ∃ parts, SplitStringByDelimiter str delimiter out = Some (out ++ parts) ∧
    String.concat delimiter parts = str ∧ Forall (λ p, String.index 0 delimiter p = None) parts.
Proof.
  intros Hd Hlen. destruct (split_loop_spec delimiter str Hd Hlen (S (String.length str)) 0 out)
    as (parts & Hs & _ & Hc & Hp); [lia|lia|].
  exists parts. rewrite Nat.sub_0_r, substring_full in Hc. done.
Qed.

Lemma split_string_by_delimiter_correct_witness :
  ∃ parts, SplitStringByDelimiter "a::b:::c" "::" [] = Some parts ∧ parts = ["a"; "b"; ":c"]%string.
Proof.
  destruct (split_string_by_delimiter_correct "a::b:::c" "::" []) as (parts & Hs & _ & _); [done|done|].
  exists parts. split; [done|]. vm_compute in Hs. by injection Hs as <-.
Defined.

(** With an empty delimiter the loop never ends: it appends empty strings for good. *)
Theorem split_empty_delimiter_diverges str out fuel : split_loop fuel str "" 0 out = None.
Proof.
  assert (String.index 0 "" str = Some 0) as E by (by destruct str).
  revert out. induction fuel as [|fuel IH]; intros out; cbn; rewrite E; [done|]. apply IH.
Qed.

(** ** An implementation of the base64 interface

    The encoding of RFC 4648, which shows that the laws of [EvpBase64] can
    hold. *)

Module Rfc4648.
Definition alphabet : string := "ABCDEFGHIJKLMNOPQRSTUVWXYZabcdefghijklmnopqrstuvwxyz0123456789+/".
Definition sextet (n : Z) : ascii := default "="%char (String.get (Z.to_nat n) alphabet).
Definition unsextet (c : ascii) : option Z :=
  Z.of_nat <$> String.index 0 (String c EmptyString) alphabet.
Definition byte (c : ascii) : Z := Z.of_N (N_of_ascii c).
Definition char (z : Z) : ascii := ascii_of_N (Z.to_N z).

Fixpoint encode (s : string) : string :=
  match s with
  | EmptyString => EmptyString
  | String a EmptyString =>
      let v := (byte a * 2 ^ 16)%Z in
      String (sextet (v / 2 ^ 18)) (String (sextet ((v / 2 ^ 12) `mod` 64)) "==")
  | String a (String b EmptyString) =>
      let v := (byte a * 2 ^ 16 + byte b * 2 ^ 8)%Z in
      String (sextet (v / 2 ^ 18)) (String (sextet ((v / 2 ^ 12) `mod` 64))
        (String (sextet ((v / 2 ^ 6) `mod` 64)) "="))
  | String a (String b (String c s)) =>
      let v := (byte a * 2 ^ 16 + byte b * 2 ^ 8 + byte c)%Z in
      String (sextet (v / 2 ^ 18)) (String (sextet ((v / 2 ^ 12) `mod` 64))
        (String (sextet ((v / 2 ^ 6) `mod` 64)) (String (sextet (v `mod` 64)) (encode s))))
  end.

Fixpoint decode (s : string) : option string :=
  match s with
  | EmptyString => Some EmptyString
  | String a (String b (String c (String d s))) =>
      x ← unsextet a; y ← unsextet b;
      let b0 := char (x * 4 + y / 16) in
      match unsextet c, unsextet d with
      | Some z, Some w =>
          rest ← decode s;
          Some (String b0 (String (char (y `mod` 16 * 16 + z / 4)) (String (char (z `mod` 4 * 64 + w)) rest)))
      | Some z, None => Some (String b0 (String (char (y `mod` 16 * 16 + z / 4)) EmptyString))
      | None, _ => Some (String b0 EmptyString)
      end
  | _ => None
  end.

Lemma unsextet_sextet n : (0 ≤ n < 64)%Z → unsextet (sextet n) = Some n.
Proof.
  intros Hn. assert (Forall (λ i, unsextet (sextet (Z.of_nat i)) = Some (Z.of_nat i)) (seq 0 64)) as HF
    by (by repeat (constructor; [vm_compute; reflexivity|])).
  rewrite Forall_forall in HF. specialize (HF (Z.to_nat n)). rewrite Z2Nat.id in HF by lia.
  apply HF, elem_of_seq. lia.
Qed.

Lemma byte_range a : (0 ≤ byte a < 256)%Z.
Proof. unfold byte. pose proof (N_ascii_bounded a). lia. Qed.

Lemma char_byte a z : z = byte a → char z = a.
Proof. intros ->. unfold char, byte. by rewrite N2Z.id, ascii_N_embedding. Qed.

(** Induction by threes, with which [encode] recurses. *)
Lemma string_ind3 (P : string → Prop) :
  P EmptyString → (∀ a, P (String a EmptyString)) → (∀ a b, P (String a (String b EmptyString))) →
  (∀ a b c s, P s → P (String a (String b (String c s)))) → ∀ s, P s.
Proof.
  intros H0 H1 H2 H3. assert (∀ n s, String.length s ≤ n → P s) as Hn; [|by eauto].
  induction n as [|n IH]; intros [|a [|b [|c s]]] Hl; cbn in Hl; auto; try lia.
  apply H3, IH. lia.
Qed.

Lemma encode_length s : String.length (encode s) = 4 * ((String.length s + 2) / 3).
Proof.
  induction s as [| | |a b c s IH] using string_ind3; [done..|]. cbn [encode String.length].
  rewrite IH. replace (S (S (S (String.length s))) + 2) with (String.length s + 2 + 1 * 3) by lia.
  rewrite Nat.div_add by lia. lia.
Qed.

Lemma decode_encode s : decode (encode s) = Some s.
Proof.
  induction s as [|a|a b|a b c s IH] using string_ind3; [done| | |]; cbn [encode decode];
    pose proof (byte_range a); try pose proof (byte_range b); try pose proof (byte_range c);
    rewrite !unsextet_sextet by (cbn; zlia); cbn -[char unsextet sextet decode Z.mul Z.div Z.modulo Z.pow];
    rewrite ?IH; cbn -[char unsextet sextet decode Z.mul Z.div Z.modulo Z.pow].
  - change (unsextet "=") with (@None Z). cbn -[char Z.mul Z.div Z.modulo Z.pow].
    do 2 f_equal. apply char_byte. zlia.
  - change (unsextet "=") with (@None Z). cbn -[char Z.mul Z.div Z.modulo Z.pow].
    do 2 f_equal; [apply char_byte; zlia|]. f_equal. apply char_byte. zlia.
  - do 2 f_equal; [apply char_byte; zlia|]. f_equal; [apply char_byte; zlia|].
    f_equal. apply char_byte. zlia.
Qed.

Definition decoded_length (n : Z) : option Z := if (n `mod` 4 =? 0)%Z then Some (3 * (n / 4))%Z else None.

Lemma decoded_length_ok n : (0 ≤ n)%Z → (n `mod` 4 = 0)%Z → decoded_length n = Some (3 * (n / 4))%Z.
Proof. intros _ Hn. unfold decoded_length. by rewrite Hn. Qed.

#[export] Instance base64 : EvpBase64 := {|
  EVP_EncodedLength n := Some (4 * ((n + 2) / 3) + 1)%Z;
  EVP_DecodedLength := decoded_length;
  EVP_EncodeBlock := encode;
  EVP_DecodeBase64 := decode;
  evp_encoded_length n _ := eq_refl;
  evp_decoded_length := decoded_length_ok;
  evp_encode_block := encode_length;
  evp_decode_encode := decode_encode
|}.
End Rfc4648.
