(* ===== verification/AsyncProg.v ===== *)
(** * AsyncProg: chains of asynchronous calls

    The client providers of [cc/cpio/client_providers] implement an operation
    as a chain: a method issues a call on another provider with a callback
    bound to it, the callback issues the next call, and some function at the
    end sets the result of the caller's context ([cc/core/interface/
    async_context.h]) and calls [Finish].

    [Prog] is such a chain as a tree of its calls, in the style of an
    interaction tree, and [async_step] runs any number of them concurrently
    over the state of the services they call. *)

From S2P Require Import Prelude ExecResult.

Section prog.
Context {Call : Type} {Answer : Call → Type} {Resp Clock : Type}.

(** [Finish r resp]: the caller's context gets its result and response, and its callback runs.
    [Invoke c tail k]: the call [c] with the callback [k], which may read the clock, and gets the
    result and the response of the call's context ([None] is a null pointer).  With [tail] the
    method returns the result of the call; otherwise it looks at the result, and on a failure
    finishes the caller's context with it.  [Crash]: undefined behaviour, or an exception in a
    [noexcept] function. *)
Inductive Prog :=
  | Finish (r : ExecutionResult) (resp : option Resp)
  | Invoke (c : Call) (tail : bool) (k : Clock → ExecutionResult → option (Answer c) → Prog)
  | Crash.

(** Where an operation is. *)
Inductive Stage :=
  | Running (p : Prog)
  | Pending (c : Call) (k : Clock → ExecutionResult → option (Answer c) → Prog)
            (r : ExecutionResult) (a : option (Answer c))
  | Ended
  | Crashed.

(** An operation: its stage, how often and with what the caller's context was finished, and the
    result that the method returned when its first call was refused. *)
Record Operation := mkOperation {
  stage : Stage;
  finishes : list (ExecutionResult * option Resp);
  returned : option ExecutionResult
}.

Definition submit (p : Prog) : Operation := mkOperation (Running p) [] None.

(** The services' state, and what they do with a call: an answer and a new state, for every
    choice the environment makes. *)
Context {Srv Choice : Type} (perform : Srv → ∀ c : Call, Choice → option (ExecutionResult * option (Answer c) * Srv)).
(** The values a clock can show. *)
Context (clock_ok : Clock → bool).

Record World := mkWorld { services : Srv; operations : list Operation }.

(** How a call begins: the service accepts it and answers later; it returns a failure; or it
    finishes the call's context with a failure, which runs the callback, and returns that failure
    as well. *)
Inductive Begin :=
  | Accept (ch : Choice)
  | Refuse (r : ExecutionResult)
  | RefuseAndFinish (r : ExecutionResult) (now : Clock).

Inductive AsyncEvent :=
  | Submit (p : Prog)
  | Step (i : nat) (b : Begin)
  | Reply (i : nat) (now : Clock).

Definition refused (tail : bool) (r : ExecutionResult) (st : Stage) (o : Operation) : Operation :=
  if tail then mkOperation st (finishes o) (Some r)
  else mkOperation st (finishes o ++ [(r, None)]) (returned o).

(** Runs a program up to its next call. *)
Definition advance (p : Prog) (o : Operation) : Operation :=
  match p with
  | Finish r resp => mkOperation Ended (finishes o ++ [(r, resp)]) (returned o)
  | Invoke _ _ _ => mkOperation (Running p) (finishes o) (returned o)
  | Crash => mkOperation Crashed (finishes o) (returned o)
  end.

Definition op_step (b : Begin) (s : Srv) (o : Operation) : option (Srv * Operation) :=
  match stage o with
  | Running (Invoke c tail k) =>
      match b with
      | Accept ch =>
          '(r, a, s) ← perform s c ch;
          Some (s, mkOperation (Pending c k r a) (finishes o) (returned o))
      | Refuse r => if Successful r then None else Some (s, refused tail r Ended o)
      | RefuseAndFinish r now =>
          if Successful r || negb (clock_ok now) then None
          else let o := advance (k now r None) o in Some (s, refused tail r (stage o) o)
      end
  | Running p => Some (s, advance p o)
  | _ => None
  end.

Definition op_reply (now : Clock) (o : Operation) : option Operation :=
  match stage o with
  | Pending c k r a => if clock_ok now then Some (advance (k now r a) o) else None
  | _ => None
  end.

Definition async_step (w : World) (ev : AsyncEvent) : option (unit * World) :=
  match ev with
  | Submit p => Some (tt, mkWorld (services w) (operations w ++ [submit p]))
  | Step i b =>
      o ← operations w !! i;
      '(s, o) ← op_step b (services w) o;
      Some (tt, mkWorld s (<[i := o]> (operations w)))
  | Reply i now =>
      o ← operations w !! i;
      o ← op_reply now o;
      Some (tt, mkWorld (services w) (<[i := o]> (operations w)))
  end.

(** ** One operation on its own

    Runs an operation to its end while nothing else happens; the list gives
    for every call the environment's choice and the clock at its callback.
    [None]: the list is too short or a choice is impossible. *)
Fixpoint exec (env : list (Choice * Clock)) (s : Srv) (p : Prog) : option (ExecutionResult * option Resp * Srv) :=
  match p, env with
  | Finish r resp, _ => Some (r, resp, s)
  | Invoke c _ k, (ch, now) :: env =>
      '(r, a, s) ← perform s c ch;
      if clock_ok now then exec env s (k now r a) else None
  | _, _ => None
  end.

Lemma exec_step env s c tail k ch now r a s' :
  perform s c ch = Some (r, a, s') → clock_ok now = true →
  exec ((ch, now) :: env) s (Invoke c tail k) = exec env s' (k now r a).
Proof. intros Hp Hn. cbn. rewrite Hp. cbn. by rewrite Hn. Qed.

Lemma exec_finish env s r resp : exec env s (Finish r resp) = Some (r, resp, s).
Proof. by destruct env. Qed.

(** The number of calls a program makes is at most [n]. *)
Fixpoint calls_at_most (n : nat) (p : Prog) : Prop :=
  match p, n with
  | Invoke c _ k, S n => ∀ now r a, calls_at_most n (k now r a)
  | Invoke _ _ _, 0 => False
  | _, _ => True
  end.

(** ** Invariants of the services under any programs

    A program is well behaved from a state of the services when each of its
    calls, made in any later state, keeps the invariant [I] and only changes the
    state as [R] allows; "later" is [R] as well, so a program may rely on what
    it has learned only as far as the others leave it alone. *)
Section invariant.
Context (I : Srv → Prop) (R : Srv → Srv → Prop).

Fixpoint prog_ok (s0 : Srv) (p : Prog) : Prop :=
  match p with
  | Finish _ _ | Crash => True
  | Invoke c _ k =>
      ∀ s, R s0 s → I s →
        (∀ ch r a s', perform s c ch = Some (r, a, s') →
           I s' ∧ R s s' ∧ ∀ now, clock_ok now = true → prog_ok s' (k now r a)) ∧
        (∀ r now, Successful r = false → clock_ok now = true → prog_ok s (k now r None))
  end.

Definition stage_ok (s : Srv) (st : Stage) : Prop :=
  match st with
  | Running p => prog_ok s p
  | Pending c k r a => ∀ now, clock_ok now = true → prog_ok s (k now r a)
  | _ => True
  end.

Definition world_ok (w : World) : Prop :=
  I (services w) ∧ ∀ o, o ∈ operations w → stage_ok (services w) (stage o).

Context `{!PreOrder R}.

Lemma prog_ok_mono s0 s p : R s0 s → prog_ok s0 p → prog_ok s p.
Proof.
  destruct p as [| |]; [done| |done]. intros HR Hp s' HR' HI. apply (Hp s' (transitivity HR HR') HI).
Qed.

Lemma stage_ok_mono s0 s st : R s0 s → stage_ok s0 st → stage_ok s st.
Proof. destruct st; cbn; eauto using prog_ok_mono. Qed.

Lemma stage_ok_advance s p o : prog_ok s p → stage_ok s (stage (advance p o)).
Proof. by destruct p. Qed.

Lemma refused_stage tail r st o : stage (refused tail r st o) = st.
Proof. by destruct tail. Qed.

Lemma op_step_ok b s o s' o' :
  I s → stage_ok s (stage o) → op_step b s o = Some (s', o') →
  I s' ∧ R s s' ∧ stage_ok s' (stage o').
Proof.
  intros HI Hst Hs. unfold op_step in Hs. destruct (stage o) as [[r resp|c tail k|] | | |]; try done;
    try (injection Hs as <- <-; split_and!; [done|reflexivity|done]).
  destruct (Hst s (reflexivity s) HI) as [Hacc Href]. destruct b as [ch|r|r now].
  - destruct (perform s c ch) as [[[r a] s1]|] eqn:E; [|done]. injection Hs as <- <-.
    destruct (Hacc _ _ _ _ E) as (HI' & HR' & Hk). split_and!; done.
  - destruct (Successful r); [done|]. injection Hs as <- <-. rewrite refused_stage.
    split_and!; [done|reflexivity|done].
  - destruct (Successful r) eqn:Er; [done|]. destruct (clock_ok now) eqn:En; [|done].
    injection Hs as <- <-. rewrite refused_stage.
    split_and!; [done|reflexivity|by apply stage_ok_advance, Href].
Qed.

Lemma op_reply_ok now s o o' :
  stage_ok s (stage o) → op_reply now o = Some o' → stage_ok s (stage o').
Proof.
  unfold op_reply. intros Hst. destruct (stage o) as [|c k r a| |]; try done.
  destruct (clock_ok now) eqn:En; [|done]. injection 1 as <-. by apply stage_ok_advance, Hst.
Qed.

Lemma world_ok_update w i o s o' :
  world_ok w → operations w !! i = Some o → I s → R (services w) s → stage_ok s (stage o') →
  world_ok (mkWorld s (<[i := o']> (operations w))).
Proof.
  intros [_ Hops] Hi HI HR Ho'. split; [done|]. cbn. intros x Hx.
  apply list_elem_of_lookup in Hx as [j Hj]. destruct (decide (i = j)) as [->|Hne].
  - rewrite list_lookup_insert_eq in Hj by (by eapply lookup_lt_Some). by injection Hj as <-.
  - rewrite list_lookup_insert_ne in Hj by done.
    apply (stage_ok_mono (services w)); [done|]. by eapply Hops, list_elem_of_lookup_2.
Qed.

(** Every event keeps the invariant and respects [R], as long as the programs submitted are well
    behaved. *)
Lemma world_ok_step w ev w' :
  world_ok w → (∀ p, ev = Submit p → prog_ok (services w) p) → async_step w ev = Some (tt, w') →
  world_ok w' ∧ R (services w) (services w').
Proof.
  intros Hw Hsub Hs. destruct ev as [p|i b|i now]; cbn in Hs.
  - injection Hs as <-. destruct Hw as [HI Hops]. split; [|reflexivity]. split; [done|]. cbn.
    intros o [Ho| ->%list_elem_of_singleton]%elem_of_app; [by apply Hops|by apply Hsub].
  - destruct (operations w !! i) as [o|] eqn:Ei; [|done]. cbn in Hs.
    destruct (op_step b (services w) o) as [[s o']|] eqn:E; [|done]. injection Hs as <-.
    destruct (op_step_ok b _ _ _ _ (proj1 Hw) (proj2 Hw o ltac:(by eapply list_elem_of_lookup_2)) E)
      as (HI & HR & Hst).
    split; [by eapply world_ok_update|done].
  - destruct (operations w !! i) as [o|] eqn:Ei; [|done]. cbn in Hs.
    destruct (op_reply now o) as [o'|] eqn:E; [|done]. injection Hs as <-. split; [|reflexivity].
    eapply world_ok_update; [done|done|by apply Hw|reflexivity|].
    eapply op_reply_ok; [|done]. by eapply Hw, list_elem_of_lookup_2.
Qed.

(** The same for runs. *)
Lemma world_ok_run evs w rs w' :
  world_ok w → (∀ p s, Submit p ∈ evs → I s → prog_ok s p) → run_ops async_step w evs = Some (rs, w') →
  world_ok w' ∧ R (services w) (services w').
Proof.
  revert w rs. induction evs as [|ev evs IH]; intros w rs Hw Hsub Hrun; cbn in Hrun.
  - injection Hrun as _ <-. split; [done|reflexivity].
  - destruct (async_step w ev) as [[[] w1]|] eqn:E; [|done]. cbn in Hrun.
    destruct (run_ops async_step w1 evs) as [[rs1 w2]|] eqn:E2; [|done]. injection Hrun as _ <-.
    destruct (world_ok_step w ev w1 Hw) as [Hw1 HR1]; [|done|].
    { intros p ->. apply Hsub; [left|apply Hw]. }
    destruct (IH w1 rs1 Hw1) as [Hw2 HR2]; [|done|].
    { intros p s Hp. apply Hsub. by right. }
    split; [done|]. by transitivity (services w1).
Qed.
End invariant.
End prog.
Arguments Prog {_} _ _ _.
Arguments Operation {_} _ _ _.
Arguments World {_} _ _ _ _.
Arguments AsyncEvent {_} _ _ _ _.
Arguments mkWorld {_ _ _ _ _} _ _.
