(* ===== verification/Threads.v ===== *)
(** * Threads: code that interleaves on shared memory

    Callbacks of the C++ providers run on any thread, at the same time, and
    share a status object of atomics, maps and sets.  [Code] is such a callback
    as a tree of its atomic actions; [thread_step] runs any number of them in
    any interleaving, next to an environment that starts new ones (a reply
    arrives); [run_code] runs one of them alone, from its beginning to its
    end. *)

From S2P Require Import Prelude.

(** [Atom f k]: one action on the shared state, whose value [k] gets.  [Await f k]: an action that
    waits while it is not possible (a mutex is held, a counter is not zero yet).  [Fault]: undefined
    behaviour, or an exception in a [noexcept] function. *)
Inductive Code (S A : Type) : Type :=
  | Ret (a : A)
  | Fault
  | Atom (R : Type) (f : S → S * R) (k : R → Code S A)
  | Await (R : Type) (f : S → option (S * R)) (k : R → Code S A).
Arguments Ret {S A} a.
Arguments Fault {S A}.
Arguments Atom {S A R} f k.
Arguments Await {S A R} f k.

#[global] Instance code_ret S : MRet (Code S) := @Ret S.
#[global] Instance code_bind S : MBind (Code S) := λ A B,
  fix bind f c :=
    match c with
    | Ret a => f a
    | Fault => Fault
    | Atom g k => Atom g (λ r, bind f (k r))
    | Await g k => Await g (λ r, bind f (k r))
    end.

(** Code that works on a part of a larger state. *)
Fixpoint focus {S T A : Type} (get : T → S) (put : S → T → T) (c : Code S A) : Code T A :=
  match c with
  | Ret a => Ret a
  | Fault => Fault
  | Atom f k => Atom (λ t, let '(s, r) := f (get t) in (put s t, r)) (λ r, focus get put (k r))
  | Await f k => Await (λ t, '(s, r) ← f (get t); Some (put s t, r)) (λ r, focus get put (k r))
  end.

Section code.
Context {S : Type}.

Definition atomically {A} (f : S → S * A) : Code S A := Atom f Ret.
Definition reads {A} (f : S → A) : Code S A := atomically (λ s, (s, f s)).
Definition modifies (f : S → S) : Code S () := atomically (λ s, (f s, tt)).
Definition awaits {A} (f : S → option (S * A)) : Code S A := Await f Ret.
(** Dereferences a pointer that may be null, or a computation that may throw. *)
Definition deref {A} (x : option A) : Code S A := match x with Some a => Ret a | None => Fault end.

(** [for (x : l) body]; the body returns [false] when it returns from the function. *)
Fixpoint for_each {A} (l : list A) (body : A → Code S bool) : Code S bool :=
  match l with
  | [] => Ret true
  | a :: l => go ← body a; if go : bool then for_each l body else Ret false
  end.

(** A loop whose body does not leave it. *)
Fixpoint for_all {A} (l : list A) (body : A → Code S ()) : Code S () :=
  match l with
  | [] => Ret tt
  | a :: l => _ ← body a; for_all l body
  end.

Definition ignore {A} (c : Code S A) : Code S () := _ ← c; mret tt.

(** [None]: the code faults, or waits for ever when nothing else runs. *)
Fixpoint run_code {A} (c : Code S A) (s : S) : option (S * A) :=
  match c with
  | Ret a => Some (s, a)
  | Fault => None
  | Atom f k => let '(s, r) := f s in run_code (k r) s
  | Await f k => '(s, r) ← f s; run_code (k r) s
  end.

Lemma run_bind {A B} (c : Code S A) (k : A → Code S B) s :
  run_code (c ≫= k) s = '(s, a) ← run_code c s; run_code (k a) s.
Proof.
  revert s. induction c as [a| |R f c IH|R f c IH]; intros s; [done|done|..]; cbn.
  - destruct (f s) as [s1 r]. apply IH.
  - destruct (f s) as [[s1 r]|]; [apply IH|done].
Qed.

(** Every action of the code relates the state before it to the one after it. *)
Fixpoint within {A} (R : S → S → Prop) (c : Code S A) : Prop :=
  match c with
  | Ret _ | Fault => True
  | Atom f k => (∀ s, R s (f s).1) ∧ ∀ r, within R (k r)
  | Await f k => (∀ s s' r, f s = Some (s', r) → R s s') ∧ ∀ r, within R (k r)
  end.

Lemma within_bind {A B} R (c : Code S A) (k : A → Code S B) :
  within R c → (∀ a, within R (k a)) → within R (c ≫= k).
Proof.
  intros Hc Hk. induction c as [a| |R' f c IH|R' f c IH]; [apply Hk|done|..]; destruct Hc as [Hf Hc]; (split; [done|]); intros r; by apply IH.
Qed.

Lemma within_mono {A} (R R' : S → S → Prop) (c : Code S A) : (∀ s s', R s s' → R' s s') → within R c → within R' c.
Proof.
  intros HR. induction c as [a| |T f c IH|T f c IH]; [done|done|..]; intros [Hf Hc]; (split; [by eauto|]); intros r; by apply IH.
Qed.

Lemma within_any {A} (R : S → S → Prop) (c : Code S A) : (∀ s s', R s s') → within R c.
Proof. intros HR. by induction c; repeat split. Qed.

Lemma within_for_all {A} R (l : list A) (body : A → Code S ()) :
  (∀ a, within R (body a)) → within R (for_all l body).
Proof. intros Hb. induction l as [|a l IH]; [done|]. by apply within_bind. Qed.

(** ** Interleavings *)

Record World := mkWorld { shared : S; threads : list (Code S ()) }.

Definition faulted (w : World) : bool :=
  existsb (λ c, match c with Fault => true | _ => false end) (threads w).

(** Every thread has come to its end. *)
Definition ended (w : World) : bool :=
  forallb (λ c, match c with Ret _ => true | _ => false end) (threads w).

Context {E : Type} (env : S → E → option (S * Code S ())).

Inductive ThreadEvent := Env (e : E) | Run (i : nat).

Definition thread_step (w : World) (ev : ThreadEvent) : option (() * World) :=
  match ev with
  | Env e => '(s, c) ← env (shared w) e; Some (tt, mkWorld s (threads w ++ [c]))
  | Run i =>
      c ← threads w !! i;
      match c with
      | Atom f k => let '(s, r) := f (shared w) in Some (tt, mkWorld s (<[i := k r]> (threads w)))
      | Await f k => '(s, r) ← f (shared w); Some (tt, mkWorld s (<[i := k r]> (threads w)))
      | Ret _ | Fault => None
      end
  end.

(** Every new thread runs to its end before anything else happens. *)
Definition serial_step (s : S) (e : E) : option (() * S) :=
  '(s, c) ← env s e; '(s, _) ← run_code c s; Some (tt, s).

Lemma thread_run c s ts ts' :
  thread_step (mkWorld s (ts ++ c :: ts')) (Run (length ts)) =
    match c with
    | Atom f k => let '(s, r) := f s in Some (tt, mkWorld s (ts ++ k r :: ts'))
    | Await f k => '(s, r) ← f s; Some (tt, mkWorld s (ts ++ k r :: ts'))
    | Ret _ | Fault => None
    end.
Proof.
  unfold thread_step. cbn [threads shared]. rewrite list_lookup_middle by done. cbn [mbind option_bind].
  destruct c as [| |R f k|R f k]; [done|done|..].
  - destruct (f s). by rewrite insert_app_r_alt, Nat.sub_diag by done.
  - destruct (f s) as [[]|]; [|done]. cbn. by rewrite insert_app_r_alt, Nat.sub_diag by done.
Qed.

(** A thread runs the part [c] of its code without a break; [K] is what comes after it. *)
Lemma run_code_prefix {A} (K : Code S A → Code S ()) (c : Code S A) s s' a ts ts' :
  (∀ R (f : S → S * R) k, K (Atom f k) = Atom f (λ r, K (k r))) →
  (∀ R (f : S → option (S * R)) k, K (Await f k) = Await f (λ r, K (k r))) →
  run_code c s = Some (s', a) →
  ∃ n rs, run_ops thread_step (mkWorld s (ts ++ K c :: ts')) (replicate n (Run (length ts))) =
    Some (rs, mkWorld s' (ts ++ K (Ret a) :: ts')).
Proof.
  intros HA HW. revert s. induction c as [a'| |R f k IH|R f k IH]; intros s E1; cbn in E1; [|done|..].
  { injection E1 as <- <-. by exists 0, []. }
  - destruct (f s) as [s1 r] eqn:Ef. destruct (IH r s1 E1) as (n & rs & Hrun). exists (Datatypes.S n), (tt :: rs).
    cbn [replicate run_ops]. rewrite HA, thread_run, Ef. cbn [mbind option_bind fst snd]. by rewrite Hrun.
  - destruct (f s) as [[s1 r]|] eqn:Ef; [|done]. destruct (IH r s1 E1) as (n & rs & Hrun). exists (Datatypes.S n), (tt :: rs).
    cbn [replicate run_ops]. rewrite HW, thread_run, Ef. cbn [mbind option_bind fst snd]. by rewrite Hrun.
Qed.

Lemma run_code_interleaves c s s' ts :
  run_code c s = Some (s', tt) →
  ∃ n rs, run_ops thread_step (mkWorld s (ts ++ [c])) (replicate n (Run (length ts))) =
    Some (rs, mkWorld s' (ts ++ [Ret tt])).
Proof. by apply (run_code_prefix (λ c, c)). Qed.

(** A serial run is one of the interleavings. *)
Lemma serial_interleaves es s s' rs ts :
  run_ops serial_step s es = Some (rs, s') →
  ∃ evs rs' ts', run_ops thread_step (mkWorld s ts) evs = Some (rs', mkWorld s' ts').
Proof.
  revert s rs ts. induction es as [|e es IH]; intros s rs ts Hrun; cbn in Hrun; [injection Hrun as _ <-; by exists [], [], ts|].
  destruct (serial_step s e) as [[? s2]|] eqn:Es; [|done]. cbn in Hrun. unfold serial_step in Es.
  destruct (env s e) as [[s1 c]|] eqn:Ee; [|done]. cbn in Es.
  destruct (run_code c s1) as [[s2' []]|] eqn:Ec; [|done]. injection Es as _ ->.
  destruct (run_ops serial_step s2 es) as [[rs2 s3]|] eqn:Er; [|done]. injection Hrun as _ <-.
  destruct (run_code_interleaves c s1 s2 ts Ec) as (n & rs1 & H1). destruct (IH _ _ (ts ++ [Ret tt]) Er) as (evs & rs' & ts' & H2).
  exists (Env e :: replicate n (Run (length ts)) ++ evs). eexists _, ts'.
  cbn [run_ops thread_step shared threads]. rewrite Ee. cbn [mbind option_bind fst snd]. rewrite run_ops_app, H1. cbn [mbind option_bind]. by rewrite H2.
Qed.

Lemma within_step R w i w' : Forall (within R) (threads w) → thread_step w (Run i) = Some (tt, w') →
  R (shared w) (shared w') ∧ Forall (within R) (threads w').
Proof.
  intros Hw Eq. cbn in Eq. destruct (threads w !! i) as [c|] eqn:Ei; [|done]. cbn in Eq.
  pose proof (Forall_lookup_1 _ _ _ _ Hw Ei) as Hc. destruct c as [| |T f k|T f k]; try done; destruct Hc as [Hf Hk].
  - pose proof (Hf (shared w)) as H1. destruct (f (shared w)) as [s r]. injection Eq as <-. split; [done|]. by apply Forall_insert.
  - destruct (f (shared w)) as [[s r]|] eqn:Ef; [|done]. injection Eq as <-. split; [by eapply Hf|]. by apply Forall_insert.
Qed.

(** What the environment has brought, in a ghost that the code does not touch. *)
Definition brought {X} (new : E → list X) (evs : list ThreadEvent) : list X :=
  evs ≫= λ ev, match ev with Env e => new e | Run _ => [] end.

Lemma ghost_run {X} (g : S → list X) (new : E → list X) evs w rs w' :
  (∀ s e s' c, env s e = Some (s', c) → g s' ≡ₚ new e ++ g s ∧ within (λ s s', g s' = g s) c) →
  Forall (within (λ s s', g s' = g s)) (threads w) → run_ops thread_step w evs = Some (rs, w') →
  g (shared w') ≡ₚ brought new evs ++ g (shared w).
Proof.
  intros Henv. revert w rs. induction evs as [|ev evs IH]; intros w rs Hw Eq; cbn [run_ops] in Eq; [by injection Eq as _ <-|].
  destruct (thread_step w ev) as [[[] w1]|] eqn:E1; [|done]. cbn [mbind option_bind fst snd] in Eq.
  destruct (run_ops thread_step w1 evs) as [[rs1 w2]|] eqn:E2; [|done]. injection Eq as _ <-.
  assert (g (shared w1) ≡ₚ brought new [ev] ++ g (shared w) ∧ Forall (within (λ s s', g s' = g s)) (threads w1)) as [H1 H2].
  { destruct ev as [e|i].
    - cbn in E1. destruct (env (shared w) e) as [[s c]|] eqn:Ee; [|done]. injection E1 as <-. destruct (Henv _ _ _ _ Ee) as [Hs Hc].
      unfold brought. cbn. rewrite app_nil_r. split; [done|]. apply Forall_app. by repeat constructor.
    - destruct (within_step _ w i w1 Hw E1) as [-> ?]. done. }
  rewrite (IH _ _ H2 E2), H1. unfold brought. cbn. rewrite app_nil_r. solve_Permutation.
Qed.

Lemma run_step {A O R} (step : A → O → option (R * A)) a o r a1 os rs a2 :
  step a o = Some (r, a1) → run_ops step a1 os = Some (rs, a2) → run_ops step a (o :: os) = Some (r :: rs, a2).
Proof. intros E1 E2. cbn. rewrite E1. cbn. by rewrite E2. Qed.

Lemma run_two {A O R} (step : A → O → option (R * A)) a os rs a1 os' rs' a2 :
  run_ops step a os = Some (rs, a1) → run_ops step a1 os' = Some (rs', a2) →
  run_ops step a (os ++ os') = Some (rs ++ rs', a2).
Proof. intros E1 E2. rewrite run_ops_app, E1. cbn. by rewrite E2. Qed.

(** ** Ownership

    [Inv s l]: the invariant of the shared state when the threads together own the things [l].  A
    piece of code owns [l] when each of its actions turns what it owns into what it owns afterwards,
    whatever the others own, and it owns nothing at its end. *)
Context {X : Type} (Inv : S → list X → Prop).

Fixpoint owns (c : Code S ()) (l : list X) : Prop :=
  match c with
  | Ret _ => l = []
  | Fault => True
  | Atom f k => ∀ s rest, Inv s (l ++ rest) → ∃ l', Inv (f s).1 (l' ++ rest) ∧ owns (k (f s).2) l'
  | Await f k => ∀ s rest s' r, Inv s (l ++ rest) → f s = Some (s', r) → ∃ l', Inv s' (l' ++ rest) ∧ owns (k r) l'
  end.

Lemma owns_bind_assoc {A B} (c : Code S A) (f : A → Code S B) (g : B → Code S ()) l :
  owns (c ≫= λ a, f a ≫= g) l → owns ((c ≫= f) ≫= g) l.
Proof.
  revert l. induction c as [a| |R h k IH|R h k IH]; intros l Hc; [done|done|..]; cbn in *.
  - intros s rest HI. destruct (Hc s rest HI) as (l' & HI' & Hk). eauto.
  - intros s rest s' r HI Eh. destruct (Hc s rest s' r HI Eh) as (l' & HI' & Hk). eauto.
Qed.

(** What the code owns after an action may depend on the state. *)
Lemma owns_action {A} (f : S → S * A) k l :
  (∀ s rest, Inv s (l ++ rest) → ∃ l', Inv (f s).1 (l' ++ rest) ∧ owns (k (f s).2) l') → owns (atomically f ≫= k) l.
Proof. done. Qed.

Lemma owns_atomically {A} (f : S → S * A) k l l' :
  (∀ s rest, Inv s (l ++ rest) → Inv (f s).1 (l' ++ rest)) → (∀ a, owns (k a) l') → owns (atomically f ≫= k) l.
Proof. intros Hf Hk s rest HI. exists l'. split; [by apply Hf|apply Hk]. Qed.

Lemma owns_reads {A} (f : S → A) k l : (∀ a, owns (k a) l) → owns (reads f ≫= k) l.
Proof. by apply owns_atomically. Qed.

Lemma owns_modifies f k l l' :
  (∀ s rest, Inv s (l ++ rest) → Inv (f s) (l' ++ rest)) → owns (k tt) l' → owns (modifies f ≫= k) l.
Proof. intros Hf Hk. apply (owns_atomically _ _ _ l'); [done|]. by intros []. Qed.

Lemma owns_awaits {A} (f : S → option (S * A)) k l l' :
  (∀ s rest s' a, Inv s (l ++ rest) → f s = Some (s', a) → Inv s' (l' ++ rest)) → (∀ a, owns (k a) l') →
  owns (awaits f ≫= k) l.
Proof. intros Hf Hk s rest s' a HI Ea. exists l'. split; [by eapply Hf|apply Hk]. Qed.

(** Code that owns nothing of its own before and after each of its uses. *)
Definition neutral {A} (c : Code S A) : Prop := ∀ k l, (∀ a, owns (k a) l) → owns (c ≫= k) l.

Lemma neutral_bind {A B} (c : Code S A) (f : A → Code S B) : neutral c → (∀ a, neutral (f a)) → neutral (c ≫= f).
Proof. intros Hc Hf k l Hk. apply owns_bind_assoc, Hc. intros a. by apply Hf. Qed.

Lemma neutral_ret {A} (a : A) : neutral (Ret a).
Proof. intros k l Hk. apply Hk. Qed.

Lemma neutral_ignore {A} (c : Code S A) : neutral c → owns (ignore c) [].
Proof. intros Hc. by apply Hc. Qed.

Lemma owns_ignore (c : Code S ()) l : owns c l → owns (ignore c) l.
Proof.
  revert l. induction c as [a| |T f c IH|T f c IH]; intros l Hc; [done|done|..]; cbn.
  - intros s rest HI. destruct (Hc s rest HI) as (l' & HI' & Hl'). exists l'. split; [done|by apply IH].
  - intros s rest s' r HI Ef. destruct (Hc s rest s' r HI Ef) as (l' & HI' & Hl'). exists l'. split; [done|by apply IH].
Qed.

Lemma neutral_for_all {A} (body : A → Code S ()) xs : (∀ a, neutral (body a)) → neutral (for_all xs body).
Proof. intros Hb. induction xs as [|x xs IH]; [apply neutral_ret|]. by apply neutral_bind. Qed.

Lemma neutral_atomically {A} (f : S → S * A) : (∀ s l, Inv s l → Inv (f s).1 l) → neutral (atomically f).
Proof. intros Hf k l Hk s rest HI. exists l. split; [by apply Hf|apply Hk]. Qed.

Lemma neutral_awaits {A} (f : S → option (S * A)) : (∀ s l s' a, Inv s l → f s = Some (s', a) → Inv s' l) → neutral (awaits f).
Proof. intros Hf k l Hk s rest s' a HI Ef. exists l. split; [by eapply Hf|apply Hk]. Qed.

Lemma owns_for_all {A} (body : A → Code S ()) xs k :
  (∀ a k', owns (k' tt) [] → owns (body a ≫= k') []) → owns (k tt) [] → owns (for_all xs body ≫= k) [].
Proof. intros Hb Hk. induction xs as [|x xs IH]; [done|]. apply owns_bind_assoc. by apply Hb. Qed.

(** Code whose actions keep the invariant, whoever owns what. *)
Lemma within_owns (R : S → S → Prop) c :
  (∀ s s' l, R s s' → Inv s l → Inv s' l) → within R c → owns c [].
Proof.
  intros HR. induction c as [[]| |T f c IH|T f c IH]; [done|done|..]; intros [Hf Hc]; cbn.
  - intros s rest HI. exists []. split; [by eapply HR|by apply IH].
  - intros s rest s' r HI Ef. exists []. split; [by eapply HR; [by eapply Hf|]|by apply IH].
Qed.

Lemma within_owns_bind {A} (R : S → S → Prop) (c : Code S A) k l :
  (∀ s s' l, R s s' → Inv s l → Inv s' l) → within R c → (∀ a, owns (k a) l) → owns (c ≫= k) l.
Proof.
  intros HR Hc Hk. induction c as [a| |T f c IH|T f c IH]; [apply Hk|done|..]; destruct Hc as [Hf Hc]; cbn.
  - intros s rest HI. exists l. split; [by eapply HR|by apply IH].
  - intros s rest s' r HI Ef. exists l. split; [by eapply HR; [by eapply Hf|]|by apply IH].
Qed.

Definition world_ok (w : World) (ls : list (list X)) : Prop :=
  Forall2 owns (threads w) ls ∧ Inv (shared w) (concat ls).

Context (Inv_perm : ∀ s l l', l ≡ₚ l' → Inv s l → Inv s l').

Lemma concat_insert (ls : list (list X)) i l l' : ls !! i = Some l →
  ∃ rest, concat ls ≡ₚ l ++ rest ∧ concat (<[i := l']> ls) ≡ₚ l' ++ rest.
Proof.
  revert i. induction ls as [|l0 ls IH]; intros [|i] Eq; try done.
  - injection Eq as ->. by exists (concat ls).
  - destruct (IH i Eq) as (rest & E1 & E2). exists (l0 ++ rest). cbn. rewrite E1, E2. split; solve_Permutation.
Qed.

Lemma owns_step w ls ev w' :
  (∀ s e s' c l, ev = Env e → Inv s l → env s e = Some (s', c) → ∃ l', owns c l' ∧ Inv s' (l' ++ l)) →
  world_ok w ls → thread_step w ev = Some (tt, w') → ∃ ls', world_ok w' ls'.
Proof.
  intros Henv [Hown HI] Eq. destruct ev as [e|i]; cbn in Eq.
  - destruct (env (shared w) e) as [[s' c]|] eqn:Ee; [|done]. injection Eq as <-.
    destruct (Henv _ _ _ _ _ eq_refl HI Ee) as (l' & Hc & HI'). exists (ls ++ [l']). split; cbn.
    + apply Forall2_app; [done|]. by constructor.
    + eapply Inv_perm; [|exact HI']. rewrite concat_app. cbn. rewrite app_nil_r. solve_Permutation.
  - destruct (threads w !! i) as [c|] eqn:Ei; [|done].
    destruct (Forall2_lookup_l _ _ _ _ _ Hown Ei) as (l & El & Hc). cbn in Eq.
    assert (∀ s' c' l' rest, concat ls ≡ₚ l ++ rest → concat (<[i := l']> ls) ≡ₚ l' ++ rest →
      Inv s' (l' ++ rest) → owns c' l' → world_ok (mkWorld s' (<[i := c']> (threads w))) (<[i := l']> ls)) as Hdone.
    { intros s' c' l' rest E1 E2 HI' Hc'. split; cbn; [by apply Forall2_insert|]. by eapply Inv_perm; [symmetry|]. }
    destruct c as [| |R f k|R f k]; try done; cbn in Hc.
    + destruct (f (shared w)) as [s1 r] eqn:Ef. injection Eq as <-.
      destruct (concat_insert ls i l l El) as (rest & E1 & _).
      destruct (Hc (shared w) rest) as (l' & HI' & Hk); [by eapply Inv_perm|]. rewrite Ef in HI', Hk.
      destruct (concat_insert ls i l l' El) as (rest' & E1' & E2'). exists (<[i := l']> ls).
      assert (rest' ≡ₚ rest) as Er by (by apply (Permutation_app_inv_l l); rewrite <-E1, <-E1').
      eapply (Hdone _ _ _ rest); [done|by rewrite E2', Er|done|done].
    + destruct (f (shared w)) as [[s1 r]|] eqn:Ef; [|done]. injection Eq as <-.
      destruct (concat_insert ls i l l El) as (rest & E1 & _).
      destruct (Hc (shared w) rest s1 r) as (l' & HI' & Hk); [by eapply Inv_perm|done|].
      destruct (concat_insert ls i l l' El) as (rest' & E1' & E2'). exists (<[i := l']> ls).
      assert (rest' ≡ₚ rest) as Er by (by apply (Permutation_app_inv_l l); rewrite <-E1, <-E1').
      eapply (Hdone _ _ _ rest); [done|by rewrite E2', Er|done|done].
Qed.

Lemma owns_run (P : E → Prop) evs w ls rs w' :
  (∀ s e s' c l, P e → Inv s l → env s e = Some (s', c) → ∃ l', owns c l' ∧ Inv s' (l' ++ l)) →
  Forall (λ ev, match ev with Env e => P e | Run _ => True end) evs →
  world_ok w ls → run_ops thread_step w evs = Some (rs, w') → ∃ ls', world_ok w' ls'.
Proof.
  intros Henv. revert w ls rs. induction evs as [|ev evs IH]; intros w ls rs HP Hw Eq; cbn [run_ops] in Eq.
  { injection Eq as _ <-. eauto. }
  apply Forall_cons in HP as [Hev HP]. destruct (thread_step w ev) as [[[] w1]|] eqn:E1; [|done]. cbn [mbind option_bind fst snd] in Eq.
  destruct (run_ops thread_step w1 evs) as [[rs1 w2]|] eqn:E2; [|done]. injection Eq as _ <-.
  destruct (owns_step w ls ev w1) as [ls1 Hw1]; [|done|done|by eapply IH].
  intros s e s' c l ->. by apply Henv.
Qed.

(** A code that runs alone. *)
Lemma owns_run_code c l rest s s' : owns c l → Inv s (l ++ rest) → run_code c s = Some (s', tt) → Inv s' rest.
Proof.
  revert l s. induction c as [[]| |R f k IH|R f k IH]; intros l s Hc HI Er; cbn in Hc, Er; [|done|..].
  - subst l. by injection Er as <-.
  - destruct (Hc s rest HI) as (l' & HI' & Hk). destruct (f s) as [s1 r]. by eapply IH.
  - destruct (f s) as [[s1 r]|] eqn:Ef; [|done]. destruct (Hc s rest s1 r HI Ef) as (l' & HI' & Hk). by eapply IH.
Qed.

(** Threads that have all ended own nothing. *)
Lemma ended_owns_nothing w ls : world_ok w ls → ended w = true → Inv (shared w) [].
Proof.
  intros [Hown HI] He. assert (concat ls = []) as Eq; [|by rewrite Eq in HI].
  unfold ended in He. revert ls Hown HI. induction (threads w) as [|c cs IH]; intros ls Hown HI; inversion Hown as [|?? ? ls' H1 H2]; [done|].
  subst. cbn in *. apply andb_true_iff in He as [Hc Hcs]. destruct c; try done. rewrite H1 in *. by apply IH.
Qed.
End code.
Arguments World : clear implicits.

(** ** Parts *)

Section focus.
Context {S T : Type} (get : T → S) (put : S → T → T).

Lemma within_focus {A} (R : S → S → Prop) (R' : T → T → Prop) (c : Code S A) :
  (∀ t s, R (get t) s → R' t (put s t)) → within R c → within R' (focus get put c).
Proof.
  intros HR. induction c as [a| |U f k IH|U f k IH]; [done|done|..]; intros [Hf Hk]; (split; [|intros r; by apply IH]).
  - intros t. specialize (Hf (get t)). destruct (f (get t)). by apply HR.
  - intros t t' r. destruct (f (get t)) as [[s r']|] eqn:Ef; [|done]. intros [= <- <-]. by eapply HR, Hf.
Qed.

(** Code that owns [l] of the part owns it of the whole, whatever else it owns. *)
Lemma owns_focus {A X Y} (Inv : S → list X → Prop) (Inv' : T → list Y → Prop) (part : X → Y) (R : S → S → Prop) (c : Code S A) k l fr :
  (∀ t l rest, Inv' t ((part <$> l) ++ rest) → ∃ rest', Inv (get t) (l ++ rest') ∧
    ∀ s l', R (get t) s → Inv s (l' ++ rest') → Inv' (put s t) ((part <$> l') ++ rest)) →
  within R c → owns Inv (ignore c) l → (∀ a, owns Inv' (k a) fr) → owns Inv' (focus get put c ≫= k) ((part <$> l) ++ fr).
Proof.
  intros Hpart. revert l. induction c as [a| |U f c IH|U f c IH]; intros l HR Hc Hk; [by rewrite Hc; apply Hk|done|..];
    destruct HR as [Hf HR]; cbn.
  - intros t rest HI. rewrite <-app_assoc in HI. destruct (Hpart _ _ _ HI) as (rest' & HI' & Hput).
    destruct (Hc _ _ HI') as (l' & Hl' & Hown). specialize (Hf (get t)). destruct (f (get t)) as [s r].
    exists ((part <$> l') ++ fr). split; [rewrite <-app_assoc; by apply Hput|]. by apply IH.
  - intros t rest t' r HI E. rewrite <-app_assoc in HI. destruct (Hpart _ _ _ HI) as (rest' & HI' & Hput).
    destruct (f (get t)) as [[s r']|] eqn:Ef; [|done]. injection E as <- <-. destruct (Hc _ _ _ _ HI' Ef) as (l' & Hl' & Hown).
    exists ((part <$> l') ++ fr). split; [rewrite <-app_assoc; apply Hput; [by eapply Hf|done]|]. by apply IH.
Qed.

Lemma neutral_focus {A X Y} (Inv : S → list X → Prop) (Inv' : T → list Y → Prop) (part : X → Y) (R : S → S → Prop) (c : Code S A) :
  (∀ t l rest, Inv' t ((part <$> l) ++ rest) → ∃ rest', Inv (get t) (l ++ rest') ∧
    ∀ s l', R (get t) s → Inv s (l' ++ rest') → Inv' (put s t) ((part <$> l') ++ rest)) →
  within R c → owns Inv (ignore c) [] → neutral Inv' (focus get put c).
Proof. intros Hpart HR Hc k fr Hk. by apply (owns_focus Inv Inv' part R c k [] fr). Qed.
End focus.
