(* ===== verification/JobClient.v ===== *)
(** * JobClient: jobs in a queue and a database

    Models [cc/cpio/client_providers/job_client_provider/src]:
    [job_client_utils.{h,cc}], [job_client_provider.cc] and what the AWS and
    GCP variants override.  A job is an item of a database table, and a message
    in a queue announces it.  Every operation is a chain of calls on the queue
    and database providers ([AsyncProg]); the functions keep their names, with
    the values that the code binds into a callback as arguments.

    Protobuf's [TimeUtil] and the JSON library are interfaces.  Messages are
    records: a field that is not set has its default value. *)

From S2P Require Import Prelude ExecResult GcpStatus UuidLib Utils AsyncProg.
From Stdlib Require Import Ascii.

Local Open Scope string_scope.
Local Open Scope list_scope.
Local Open Scope nat_scope.

(** ** Libraries *)

Record Timestamp := mkTimestamp { seconds : Z; nanos : Z }.

#[global] Instance Timestamp_eq_dec : EqDecision Timestamp.
Proof. solve_decision. Defined.

Definition kDefaultTimestampValue : Timestamp := mkTimestamp 0 0.

(** The timestamps the protobuf specification allows. *)
Definition valid_timestamp (t : Timestamp) : bool :=
  (-62135596800 <=? seconds t)%Z && (seconds t <=? 253402300799)%Z &&
  (0 <=? nanos t)%Z && (nanos t <? 1000000000)%Z.

(** [operator>] on timestamps. *)
Definition timestamp_gtb (a b : Timestamp) : bool :=
  (seconds b <? seconds a)%Z || ((seconds a =? seconds b)%Z && (nanos b <? nanos a)%Z).

Class TimeUtil := {
  time_ToString : Timestamp → string;
  time_FromString : string → option Timestamp;
  time_roundtrip t : valid_timestamp t = true → time_FromString (time_ToString t) = Some t
}.

(** [json_dump]: the text of an object with string members, [None] when a member is not UTF-8
    (an exception).  [json_member]: parses a text as an object and returns a member that is a
    string, [None] for an exception. *)
Class Json := {
  json_dump : list (string * string) → option string;
  json_member : string → string → option string;
  json_dump_member o s k v : NoDup o.*1 → json_dump o = Some s → (k, v) ∈ o → json_member s k = Some v;
  json_dump_nonempty o s : json_dump o = Some s → s ≠ ""
}.

(** ** Messages *)

(** [JobStatus] is an open enumeration: any integer can be cast to it. *)
Definition JOB_STATUS_UNKNOWN : Z := 0.
Definition JOB_STATUS_CREATED : Z := 1.
Definition JOB_STATUS_PROCESSING : Z := 2.
Definition JOB_STATUS_FAILURE : Z := 3.
Definition JOB_STATUS_SUCCESS : Z := 4.

Record Job := mkJob {
  job_id : string;
  server_job_id : string;
  job_body : string;
  job_status : Z;
  created_time : Timestamp;
  updated_time : Timestamp;
  retry_count : Z;
  processing_started_time : Timestamp
}.

(** The [oneof] of an attribute; floating point values by their bits. *)
Inductive AttributeValue :=
  | value_not_set
  | ValueInt (z : Z)
  | ValueFloat (bits : Z)
  | ValueDouble (bits : Z)
  | ValueString (s : string).

#[global] Instance AttributeValue_eq_dec : EqDecision AttributeValue.
Proof. solve_decision. Defined.

Record ItemAttribute := mkAttribute { name : string; attribute_value : AttributeValue }.
Record ItemKey := mkItemKey {
  table_name : string;
  partition_key : option ItemAttribute;
  sort_key : option ItemAttribute
}.
Record Item := mkItem { item_key : option ItemKey; attributes : list ItemAttribute }.

Definition value_int (a : ItemAttribute) : Z :=
  match attribute_value a with ValueInt z => z | _ => 0%Z end.
Definition value_string (a : ItemAttribute) : string :=
  match attribute_value a with ValueString s => s | _ => "" end.

Record GetDatabaseItemRequest := mkGetItem { get_key : ItemKey; get_required : list ItemAttribute }.
Record CreateDatabaseItemRequest := mkCreateItem { create_key : ItemKey; create_attributes : list ItemAttribute }.
Record UpsertDatabaseItemRequest := mkUpsertItem {
  upsert_key : ItemKey;
  upsert_required : list ItemAttribute;
  new_attributes : list ItemAttribute
}.
Record GetTopMessageResponse := mkTopMessage { message_body : string; receipt_info : string }.

(** The calls of the two providers and their responses. *)
Inductive Call :=
  | EnqueueMessage (message_body : string)
  | GetTopMessage
  | UpdateMessageVisibilityTimeout (receipt_info : string) (timeout_seconds : Z)
  | DeleteMessage (receipt_info : string)
  | GetDatabaseItem (request : GetDatabaseItemRequest)
  | CreateDatabaseItem (request : CreateDatabaseItemRequest)
  | UpsertDatabaseItem (request : UpsertDatabaseItemRequest).

Definition Answer (c : Call) : Type :=
  match c with
  | GetTopMessage => GetTopMessageResponse
  | GetDatabaseItem _ => Item
  | _ => unit
  end.

Inductive Response :=
  | PutJobResponse (job : Job)
  | GetNextJobResponse (job : option Job) (receipt_info : string)
  | GetJobByIdResponse (job : Job)
  | UpdateJobBodyResponse (updated_time : Timestamp)
  | UpdateJobStatusResponse (job_status : Z) (updated_time : Timestamp) (retry_count : Z)
  | UpdateJobVisibilityTimeoutResponse
  | DeleteOrphanedJobMessageResponse.

Abbreviation JobProg := (Prog (Call:=Call) Answer Response Timestamp).

(** ** Error codes *)

Abbreviation SC_JOB_CLIENT_PROVIDER := 0x0231%Z (only parsing).
Abbreviation SC_JOB_CLIENT_PROVIDER_JOB_CLIENT_OPTIONS_REQUIRED := (MakeErrorCode SC_JOB_CLIENT_PROVIDER 0x0001).
Abbreviation SC_JOB_CLIENT_PROVIDER_INVALID_JOB_ITEM := (MakeErrorCode SC_JOB_CLIENT_PROVIDER 0x0004).
Abbreviation SC_JOB_CLIENT_PROVIDER_MISSING_JOB_ID := (MakeErrorCode SC_JOB_CLIENT_PROVIDER 0x0005).
Abbreviation SC_JOB_CLIENT_PROVIDER_INVALID_JOB_STATUS := (MakeErrorCode SC_JOB_CLIENT_PROVIDER 0x0006).
Abbreviation SC_JOB_CLIENT_PROVIDER_INVALID_RECEIPT_INFO := (MakeErrorCode SC_JOB_CLIENT_PROVIDER 0x0007).
Abbreviation SC_JOB_CLIENT_PROVIDER_INVALID_DURATION := (MakeErrorCode SC_JOB_CLIENT_PROVIDER 0x0008).
Abbreviation SC_JOB_CLIENT_PROVIDER_UPDATION_CONFLICT := (MakeErrorCode SC_JOB_CLIENT_PROVIDER 0x0009).
Abbreviation SC_JOB_CLIENT_PROVIDER_JOB_ENTRY_CREATION_FAILED := (MakeErrorCode SC_JOB_CLIENT_PROVIDER 0x000A).
Abbreviation SC_JOB_CLIENT_PROVIDER_DUPLICATE_JOB_ENTRY_CREATION := (MakeErrorCode SC_JOB_CLIENT_PROVIDER 0x000B).
Abbreviation SC_NO_SQL_DATABASE_PROVIDER := 0x0208%Z (only parsing).
Abbreviation SC_NO_SQL_DATABASE_PROVIDER_RECORD_NOT_FOUND := (MakeErrorCode SC_NO_SQL_DATABASE_PROVIDER 0x0002).
Abbreviation SC_NO_SQL_DATABASE_PROVIDER_CONDITIONAL_CHECKED_FAILED := (MakeErrorCode SC_NO_SQL_DATABASE_PROVIDER 0x000C).

(** ** [job_client_utils] *)

Definition kJobsTablePartitionKeyName := "JobId".
Definition kServerJobIdColumnName := "ServerJobId".
Definition kJobBodyColumnName := "JobBody".
Definition kJobStatusColumnName := "JobStatus".
Definition kCreatedTimeColumnName := "CreatedTime".
Definition kUpdatedTimeColumnName := "UpdatedTime".
Definition kRetryCountColumnName := "RetryCount".
Definition kProcessingStartedTimeColumnName := "ProcessingStartedTime".
Definition kJobsTableRequiredColumns : list string :=
  [kServerJobIdColumnName; kJobBodyColumnName; kJobStatusColumnName; kCreatedTimeColumnName;
   kUpdatedTimeColumnName; kRetryCountColumnName; kProcessingStartedTimeColumnName].

Definition allowed_status_to_update : list (Z * list Z) :=
  [(JOB_STATUS_CREATED, [JOB_STATUS_PROCESSING; JOB_STATUS_SUCCESS; JOB_STATUS_FAILURE]);
   (JOB_STATUS_PROCESSING, [JOB_STATUS_PROCESSING; JOB_STATUS_SUCCESS; JOB_STATUS_FAILURE])].

Definition ValidateJobItem (item : Item) : ExecutionResult :=
  if negb (bool_decide (is_Some (item_key item))) ||
     negb (bool_decide (is_Some (item_key item ≫= partition_key))) ||
     negb (length (attributes item) =? length kJobsTableRequiredColumns)
  then FailureExecutionResult SC_JOB_CLIENT_PROVIDER_INVALID_JOB_ITEM
  else if forallb (λ column, existsb (λ a, bool_decide (name a = column)) (attributes item))
            kJobsTableRequiredColumns
  then SuccessExecutionResult
  else FailureExecutionResult SC_JOB_CLIENT_PROVIDER_INVALID_JOB_ITEM.

(** [std::map::insert] keeps the element that is there. *)
Definition GetItemAttributes (item : Item) : gmap string ItemAttribute :=
  foldl (λ m a, match m !! name a with Some _ => m | None => <[name a := a]> m end) ∅ (attributes item).

Definition MakeStringAttribute (n value : string) : ItemAttribute := mkAttribute n (ValueString value).
Definition MakeIntAttribute (n : string) (value : Z) : ItemAttribute := mkAttribute n (ValueInt value).

Definition CreateJob (job_id server_job_id job_body : string) (job_status : Z)
    (created_time updated_time processing_started_time : Timestamp) (retry_count : Z) : Job :=
  mkJob job_id server_job_id job_body job_status created_time updated_time retry_count
    processing_started_time.

Section utils.
Context `{EvpBase64} `{TimeUtil} `{Json}.

(** [JobMessageBody]: its text, and a body from a text. *)
Definition ToJsonString (job_id server_job_id : string) : option string :=
  json_dump [(kJobsTablePartitionKeyName, job_id); (kServerJobIdColumnName, server_job_id)].

Definition JobMessageBody (json_string : string) : option (string * string) :=
  job_id ← json_member json_string kJobsTablePartitionKeyName;
  server_job_id ← json_member json_string kServerJobIdColumnName;
  Some (job_id, server_job_id).

(** A string that is not a timestamp leaves the default value. *)
Definition read_time (s : string) : Timestamp := default kDefaultTimestampValue (time_FromString s).

Definition ConvertDatabaseItemToJob (item : Item) : Fallible Job :=
  _ ← RETURN_IF_FAILURE (ValidateJobItem item);
  partition_key ← or_throw (item_key item ≫= partition_key);
  let at_ column := or_throw (GetItemAttributes item !! column) in
  server_job_id ← at_ kServerJobIdColumnName;
  encoded ← at_ kJobBodyColumnName;
  job_body ← ASSIGN_OR_RETURN (Base64Decode (value_string encoded));
  job_status ← at_ kJobStatusColumnName;
  created_time ← at_ kCreatedTimeColumnName;
  updated_time ← at_ kUpdatedTimeColumnName;
  retry_count ← at_ kRetryCountColumnName;
  processing_started_time ← at_ kProcessingStartedTimeColumnName;
  mret (CreateJob (value_string partition_key) (value_string server_job_id) job_body
          (value_int job_status) (read_time (value_string created_time))
          (read_time (value_string updated_time)) (read_time (value_string processing_started_time))
          (value_int retry_count)).

Definition jobs_key (job_table_name job_id : string) : ItemKey :=
  mkItemKey job_table_name (Some (MakeStringAttribute kJobsTablePartitionKeyName job_id)) None.

Definition CreatePutJobRequest (job_table_name : string) (job : Job) : Fallible CreateDatabaseItemRequest :=
  encoded_job_body ← Base64Encode (job_body job);
  mret (mkCreateItem (jobs_key job_table_name (job_id job))
    [MakeStringAttribute kServerJobIdColumnName (server_job_id job);
     MakeStringAttribute kJobBodyColumnName encoded_job_body;
     MakeIntAttribute kJobStatusColumnName (job_status job);
     MakeStringAttribute kCreatedTimeColumnName (time_ToString (created_time job));
     MakeStringAttribute kUpdatedTimeColumnName (time_ToString (updated_time job));
     MakeIntAttribute kRetryCountColumnName (retry_count job);
     MakeStringAttribute kProcessingStartedTimeColumnName (time_ToString (processing_started_time job))]).

Definition CreateUpsertJobRequest (job_table_name : string) (job : Job) : Fallible UpsertDatabaseItemRequest :=
  body ← (if bool_decide (job_body job = "") then mret []
          else encoded_job_body ← Base64Encode (job_body job);
               mret [MakeStringAttribute kJobBodyColumnName encoded_job_body]);
  mret (mkUpsertItem (jobs_key job_table_name (job_id job)) []
    ((if bool_decide (server_job_id job = "") then []
      else [MakeStringAttribute kServerJobIdColumnName (server_job_id job)]) ++
     body ++
     (if bool_decide (job_status job = JOB_STATUS_UNKNOWN) then []
      else [MakeIntAttribute kJobStatusColumnName (job_status job)]) ++
     (if bool_decide (created_time job = kDefaultTimestampValue) then []
      else [MakeStringAttribute kCreatedTimeColumnName (time_ToString (created_time job))]) ++
     (if bool_decide (updated_time job = kDefaultTimestampValue) then []
      else [MakeStringAttribute kUpdatedTimeColumnName (time_ToString (updated_time job))]) ++
     [MakeIntAttribute kRetryCountColumnName (retry_count job)] ++
     (if bool_decide (processing_started_time job = kDefaultTimestampValue) then []
      else [MakeStringAttribute kProcessingStartedTimeColumnName
              (time_ToString (processing_started_time job))]))).

Definition CreateGetJobByJobIdRequest (job_table_name job_id : string) : GetDatabaseItemRequest :=
  mkGetItem (jobs_key job_table_name job_id) [].

Definition CreateGetNextJobRequest (job_table_name job_id server_job_id : string) : GetDatabaseItemRequest :=
  let request := CreateGetJobByJobIdRequest job_table_name job_id in
  mkGetItem (get_key request)
    (get_required request ++ [MakeStringAttribute kServerJobIdColumnName server_job_id]).

Definition ValidateJobStatus (current_status update_status : Z) : ExecutionResult :=
  match assoc_find current_status allowed_status_to_update with
  | None => FailureExecutionResult SC_JOB_CLIENT_PROVIDER_INVALID_JOB_STATUS
  | Some current_status_set =>
      if bool_decide (update_status ∈ current_status_set) then SuccessExecutionResult
      else FailureExecutionResult SC_JOB_CLIENT_PROVIDER_INVALID_JOB_STATUS
  end.
End utils.

(** ** [JobClientProvider] *)

Definition kDefaultRetryCount : Z := 0.
Definition kMaximumVisibilityTimeoutInSeconds : Z := 600.

(** The state, and the virtual method that the cloud variants override. *)
Record JobClientProvider := mkProvider {
  job_client_options_ : option string;   (* [job_table_name] of the options *)
  job_table_name_ : string;
  ConvertDatabaseErrorForPutJob : Z → ExecutionResult
}.

Definition AwsConvertDatabaseErrorForPutJob (status_code_from_database : Z) : ExecutionResult :=
  if (status_code_from_database =? SC_NO_SQL_DATABASE_PROVIDER_CONDITIONAL_CHECKED_FAILED)%Z
  then FailureExecutionResult SC_JOB_CLIENT_PROVIDER_DUPLICATE_JOB_ENTRY_CREATION
  else FailureExecutionResult SC_JOB_CLIENT_PROVIDER_JOB_ENTRY_CREATION_FAILED.

Definition GcpConvertDatabaseErrorForPutJob (status_code_from_database : Z) : ExecutionResult :=
  if (status_code_from_database =? SC_GCP_ALREADY_EXISTS)%Z
  then FailureExecutionResult SC_JOB_CLIENT_PROVIDER_DUPLICATE_JOB_ENTRY_CREATION
  else FailureExecutionResult SC_JOB_CLIENT_PROVIDER_JOB_ENTRY_CREATION_FAILED.

(** The table name is moved out of the options. *)
Definition Init (this : JobClientProvider) : ExecutionResult * JobClientProvider :=
  match job_client_options_ this with
  | None => (FailureExecutionResult SC_JOB_CLIENT_PROVIDER_JOB_CLIENT_OPTIONS_REQUIRED, this)
  | Some table =>
      (SuccessExecutionResult, mkProvider (Some "") table (ConvertDatabaseErrorForPutJob this))
  end.

Definition failed (r : ExecutionResult) : JobProg := Finish r None.
Definition fail_code (code : Z) : JobProg := failed (FailureExecutionResult code).

(** Runs a continuation on the value of a fallible computation; a failure finishes the context. *)
Definition on_value {A} (x : Fallible A) (k : A → JobProg) : JobProg :=
  match x with
  | None => Crash
  | Some (HasResult r) => failed r
  | Some (HasValue v) => k v
  end.

(** The response of a call whose result was a success; a null pointer is dereferenced. *)
Definition on_response {A} (x : option A) (k : A → JobProg) : JobProg :=
  match x with None => Crash | Some v => k v end.

Section provider.
Context `{EvpBase64} `{TimeUtil} `{Json}.
Variable this : JobClientProvider.

(** *** PutJob *)

Definition OnCreateNewJobItemCallback (job : Job) (result : ExecutionResult) : JobProg :=
  if negb (Successful result)
  then failed (ConvertDatabaseErrorForPutJob this (status_code result))
  else Finish SuccessExecutionResult (Some (PutJobResponse job)).

Definition OnEnqueueMessageCallback (job_id job_body server_job_id : string)
    (current_time : Timestamp) (result : ExecutionResult) : JobProg :=
  if negb (Successful result) then failed result
  else
    let job := CreateJob job_id server_job_id job_body JOB_STATUS_CREATED current_time current_time
                 kDefaultTimestampValue kDefaultRetryCount in
    on_value (CreatePutJobRequest (job_table_name_ this) job) (λ request,
      Invoke (CreateDatabaseItem request) false (λ _ result _, OnCreateNewJobItemCallback job result)).

(** [uuid] is the one that [Uuid::GenerateUuid] returns. *)
Definition PutJob (job_id job_body : string) (uuid : Uuid) : JobProg :=
  if bool_decide (job_id = "") then fail_code SC_JOB_CLIENT_PROVIDER_MISSING_JOB_ID
  else on_response (String.string_of_list_ascii <$> UuidLib.ToString uuid) (λ server_job_id,
    on_response (ToJsonString job_id server_job_id) (λ body,
      Invoke (EnqueueMessage body) true (λ now result _,
        OnEnqueueMessageCallback job_id job_body server_job_id now result))).

(** *** GetNextJob *)

Definition OnGetNextJobItemCallback (receipt_info : string) (result : ExecutionResult)
    (response : option Item) : JobProg :=
  if negb (Successful result) then failed result
  else on_response response (λ item, on_value (ConvertDatabaseItemToJob item) (λ job,
    Finish SuccessExecutionResult (Some (GetNextJobResponse (Some job) receipt_info)))).

Definition OnGetTopMessageCallback (result : ExecutionResult) (response : option GetTopMessageResponse) : JobProg :=
  if negb (Successful result) then failed result
  else on_response response (λ top,
    if bool_decide (message_body top = "")
    then Finish result (Some (GetNextJobResponse None ""))
    else on_response (JobMessageBody (message_body top)) (λ '(job_id, server_job_id),
      Invoke (GetDatabaseItem (CreateGetNextJobRequest (job_table_name_ this) job_id server_job_id)) false
        (λ _ result item, OnGetNextJobItemCallback (receipt_info top) result item))).

Definition GetNextJob : JobProg :=
  Invoke GetTopMessage true (λ _ result response, OnGetTopMessageCallback result response).

(** *** GetJobById *)

Definition OnGetJobItemByJobIdCallback (result : ExecutionResult) (response : option Item) : JobProg :=
  if negb (Successful result) then failed result
  else on_response response (λ item, on_value (ConvertDatabaseItemToJob item) (λ job,
    Finish SuccessExecutionResult (Some (GetJobByIdResponse job)))).

Definition GetJobById (job_id : string) : JobProg :=
  if bool_decide (job_id = "") then fail_code SC_JOB_CLIENT_PROVIDER_MISSING_JOB_ID
  else Invoke (GetDatabaseItem (CreateGetJobByJobIdRequest (job_table_name_ this) job_id)) true
         (λ _ result item, OnGetJobItemByJobIdCallback result item).

(** *** UpdateJobBody *)

Definition OnUpsertUpdatedJobBodyJobItemCallback (update_time : Timestamp) (result : ExecutionResult) : JobProg :=
  if negb (Successful result) then failed result
  else Finish SuccessExecutionResult (Some (UpdateJobBodyResponse update_time)).

(** The fields of [job_for_update] that are not set have their defaults. *)
Definition OnGetJobItemForUpdateJobBodyCallback (job_id job_body : string)
    (most_recent_updated_time : Timestamp) (now : Timestamp) (result : ExecutionResult)
    (response : option Item) : JobProg :=
  if negb (Successful result) then failed result
  else on_response response (λ item, on_value (ConvertDatabaseItemToJob item) (λ job,
    if timestamp_gtb (updated_time job) most_recent_updated_time
    then fail_code SC_JOB_CLIENT_PROVIDER_UPDATION_CONFLICT
    else
      let update_time := now in
      let job_for_update := mkJob job_id "" job_body JOB_STATUS_UNKNOWN kDefaultTimestampValue
                              update_time 0 kDefaultTimestampValue in
      on_value (CreateUpsertJobRequest (job_table_name_ this) job_for_update) (λ request,
        Invoke (UpsertDatabaseItem request) false (λ _ result _,
          OnUpsertUpdatedJobBodyJobItemCallback update_time result)))).

Definition UpdateJobBody (job_id job_body : string) (most_recent_updated_time : Timestamp) : JobProg :=
  if bool_decide (job_id = "") then fail_code SC_JOB_CLIENT_PROVIDER_MISSING_JOB_ID
  else Invoke (GetDatabaseItem (CreateGetJobByJobIdRequest (job_table_name_ this) job_id)) true
         (λ now result item,
           OnGetJobItemForUpdateJobBodyCallback job_id job_body most_recent_updated_time now result item).

(** *** UpdateJobStatus *)

Record UpdateJobStatusRequest := mkUpdateStatus {
  us_job_id : string;
  us_job_status : Z;
  us_most_recent_updated_time : Timestamp;
  us_receipt_info : string
}.

Definition update_status_response (req : UpdateJobStatusRequest) (update_time : Timestamp) (retry_count : Z) : JobProg :=
  Finish SuccessExecutionResult
    (Some (UpdateJobStatusResponse (us_job_status req) update_time retry_count)).

Definition OnDeleteJobMessageForUpdatingJobStatusCallback (req : UpdateJobStatusRequest)
    (update_time : Timestamp) (retry_count : Z) (result : ExecutionResult) : JobProg :=
  if negb (Successful result) then failed result
  else update_status_response req update_time retry_count.

Definition DeleteJobMessageForUpdatingJobStatus (req : UpdateJobStatusRequest) (update_time : Timestamp)
    (retry_count : Z) : JobProg :=
  Invoke (DeleteMessage (us_receipt_info req)) false (λ _ result _,
    OnDeleteJobMessageForUpdatingJobStatusCallback req update_time retry_count result).

Definition OnUpsertUpdatedJobStatusJobItemCallback (req : UpdateJobStatusRequest)
    (update_time : Timestamp) (retry_count : Z) (result : ExecutionResult) : JobProg :=
  if negb (Successful result) then failed result
  else if (us_job_status req =? JOB_STATUS_FAILURE)%Z || (us_job_status req =? JOB_STATUS_SUCCESS)%Z
  then DeleteJobMessageForUpdatingJobStatus req update_time retry_count
  else update_status_response req update_time retry_count.

Definition UpsertUpdatedJobStatusJobItem (req : UpdateJobStatusRequest) (now : Timestamp) (retry_count : Z) : JobProg :=
  let update_time := now in
  let job_for_update :=
    mkJob (us_job_id req) "" "" (us_job_status req) kDefaultTimestampValue update_time retry_count
      (if (us_job_status req =? JOB_STATUS_PROCESSING)%Z then update_time else kDefaultTimestampValue) in
  on_value (CreateUpsertJobRequest (job_table_name_ this) job_for_update) (λ request,
    Invoke (UpsertDatabaseItem request) false (λ _ result _,
      OnUpsertUpdatedJobStatusJobItemCallback req update_time retry_count result)).

(** [retry_count] is an [int]; incrementing the largest is undefined. *)
Definition OnGetJobItemForUpdateJobStatusCallback (req : UpdateJobStatusRequest) (now : Timestamp)
    (result : ExecutionResult) (response : option Item) : JobProg :=
  if negb (Successful result) then failed result
  else on_response response (λ item, on_value (ConvertDatabaseItemToJob item) (λ job,
    if timestamp_gtb (updated_time job) (us_most_recent_updated_time req)
    then fail_code SC_JOB_CLIENT_PROVIDER_UPDATION_CONFLICT
    else
      let valid := ValidateJobStatus (job_status job) (us_job_status req) in
      if negb (Successful valid) then failed valid
      else if (us_job_status req =? JOB_STATUS_PROCESSING)%Z
      then if (retry_count job =? 2 ^ 31 - 1)%Z then Crash
           else UpsertUpdatedJobStatusJobItem req now (retry_count job + 1)
      else if (us_job_status req =? JOB_STATUS_FAILURE)%Z || (us_job_status req =? JOB_STATUS_SUCCESS)%Z
      then UpsertUpdatedJobStatusJobItem req now (retry_count job)
      else fail_code SC_JOB_CLIENT_PROVIDER_INVALID_JOB_STATUS)).

Definition UpdateJobStatus (req : UpdateJobStatusRequest) : JobProg :=
  if bool_decide (us_job_id req = "") then fail_code SC_JOB_CLIENT_PROVIDER_MISSING_JOB_ID
  else if bool_decide (us_receipt_info req = "") &&
          ((us_job_status req =? JOB_STATUS_SUCCESS)%Z || (us_job_status req =? JOB_STATUS_FAILURE)%Z)
  then fail_code SC_JOB_CLIENT_PROVIDER_INVALID_RECEIPT_INFO
  else Invoke (GetDatabaseItem (CreateGetJobByJobIdRequest (job_table_name_ this) (us_job_id req))) true
         (λ now result item, OnGetJobItemForUpdateJobStatusCallback req now result item).

(** *** UpdateJobVisibilityTimeout *)

Definition OnUpdateMessageVisibilityTimeoutCallback (result : ExecutionResult) : JobProg :=
  if negb (Successful result) then failed result
  else Finish SuccessExecutionResult (Some UpdateJobVisibilityTimeoutResponse).

Definition UpdateJobVisibilityTimeout (job_id receipt_info : string) (duration_seconds : Z) : JobProg :=
  if bool_decide (job_id = "") then fail_code SC_JOB_CLIENT_PROVIDER_MISSING_JOB_ID
  else if (duration_seconds <? 0)%Z || (kMaximumVisibilityTimeoutInSeconds <? duration_seconds)%Z
  then fail_code SC_JOB_CLIENT_PROVIDER_INVALID_DURATION
  else if bool_decide (receipt_info = "") then fail_code SC_JOB_CLIENT_PROVIDER_INVALID_RECEIPT_INFO
  else Invoke (UpdateMessageVisibilityTimeout receipt_info duration_seconds) true
         (λ _ result _, OnUpdateMessageVisibilityTimeoutCallback result).

(** *** DeleteOrphanedJobMessage *)

Definition OnDeleteJobMessageForDeleteOrphanedJobMessageCallback (result : ExecutionResult) : JobProg :=
  if negb (Successful result) then failed result
  else Finish SuccessExecutionResult (Some DeleteOrphanedJobMessageResponse).

Definition DeleteJobMessageForDeletingOrphanedJob (receipt_info : string) : JobProg :=
  Invoke (DeleteMessage receipt_info) false (λ _ result _,
    OnDeleteJobMessageForDeleteOrphanedJobMessageCallback result).

Definition OnGetJobItemForDeleteOrphanedJobMessageCallback (receipt_info : string)
    (result : ExecutionResult) (response : option Item) : JobProg :=
  if negb (Successful result)
  then if (status_code result =? SC_NO_SQL_DATABASE_PROVIDER_RECORD_NOT_FOUND)%Z
       then DeleteJobMessageForDeletingOrphanedJob receipt_info
       else failed result
  else on_response response (λ item, on_value (ConvertDatabaseItemToJob item) (λ job,
    if (job_status job =? JOB_STATUS_SUCCESS)%Z || (job_status job =? JOB_STATUS_FAILURE)%Z
    then DeleteJobMessageForDeletingOrphanedJob receipt_info
    else fail_code SC_JOB_CLIENT_PROVIDER_INVALID_JOB_STATUS)).

Definition DeleteOrphanedJobMessage (job_id receipt_info : string) : JobProg :=
  if bool_decide (job_id = "") then fail_code SC_JOB_CLIENT_PROVIDER_MISSING_JOB_ID
  else if bool_decide (receipt_info = "") then fail_code SC_JOB_CLIENT_PROVIDER_INVALID_RECEIPT_INFO
  else Invoke (GetDatabaseItem (CreateGetJobByJobIdRequest (job_table_name_ this) job_id)) true
         (λ _ result item, OnGetJobItemForDeleteOrphanedJobMessageCallback receipt_info result item).
End provider.
