(* ===== verification/JobClientSpec.v ===== *)
(** * JobClientSpec: what the job client keeps true of the table and the queue

    The database and the queue are those that the comments of
    [nosql_database_service.proto] and [queue_service.proto] describe, with
    failures at any call.  Any number of job client operations run over them,
    interleaved at every call and callback. *)

From S2P Require Import Prelude ExecResult GcpStatus UuidLib Utils AsyncProg JobClient.
From Stdlib Require Import Ascii.

Local Open Scope string_scope.
Local Open Scope list_scope.
Local Open Scope nat_scope.

(** ** The services *)

Abbreviation Row := (gmap string AttributeValue).

(** The rows of the tables; the messages of the queue; the message each receipt stands for. *)
Record Cloud := mkCloud {
  rows : gmap (string * string) Row;
  messages : gmap nat string;
  receipts : gmap string nat;
  next_message : nat
}.

Definition empty_cloud : Cloud := mkCloud ∅ ∅ ∅ 0.

(** [Answered]: the call succeeds, or fails for the reason its documentation gives; the queue
    shows no message.  [Top m receipt]: the queue delivers message [m], whichever that is, under a
    new receipt.  [Fault r applied]: the call fails with [r], after it had its effect or without. *)
Inductive Choice :=
  | Answered
  | Top (m : nat) (receipt : string)
  | Fault (r : ExecutionResult) (applied : bool).

Definition key_of (k : ItemKey) : option (string * string) :=
  match partition_key k with
  | Some (mkAttribute _ (ValueString v)) => Some (table_name k, v)
  | _ => None
  end.

Definition pairs (l : list ItemAttribute) : list (string * AttributeValue) :=
  (λ a, (name a, attribute_value a)) <$> l.

Definition row_matches (required : list ItemAttribute) (row : Row) : bool :=
  forallb (λ a, bool_decide (row !! name a = Some (attribute_value a))) required.

Definition item_of (k : ItemKey) (row : Row) : Item :=
  mkItem (Some k) ((λ p, mkAttribute p.1 p.2) <$> map_to_list row).

Section services.
(** The error of creating an item that exists, which depends on the cloud. *)
Variable duplicate_code : Z.

Definition set_rows (t : gmap (string * string) Row) (s : Cloud) : Cloud :=
  mkCloud t (messages s) (receipts s) (next_message s).

Definition get_item (req : GetDatabaseItemRequest) (s : Cloud) : ExecutionResult * option Item :=
  match key_of (get_key req) ≫= λ k, rows s !! k with
  | Some row =>
      if row_matches (get_required req) row then (SuccessExecutionResult, Some (item_of (get_key req) row))
      else (FailureExecutionResult SC_NO_SQL_DATABASE_PROVIDER_RECORD_NOT_FOUND, None)
  | None => (FailureExecutionResult SC_NO_SQL_DATABASE_PROVIDER_RECORD_NOT_FOUND, None)
  end.

Definition create_item (req : CreateDatabaseItemRequest) (s : Cloud) : option (ExecutionResult * option unit * Cloud) :=
  k ← key_of (create_key req);
  match rows s !! k with
  | Some _ => Some (FailureExecutionResult duplicate_code, None, s)
  | None =>
      Some (SuccessExecutionResult, Some tt, set_rows (<[k := list_to_map (pairs (create_attributes req))]> (rows s)) s)
  end.

(** The new attributes override those that the row has; without required attributes the row need
    not exist. *)
Definition upsert_item (req : UpsertDatabaseItemRequest) (s : Cloud) : option (ExecutionResult * option unit * Cloud) :=
  k ← key_of (upsert_key req);
  let old := rows s !! k in
  if bool_decide (upsert_required req = []) || from_option (row_matches (upsert_required req)) false old
  then Some (SuccessExecutionResult, Some tt,
             set_rows (<[k := list_to_map (pairs (new_attributes req)) ∪ default ∅ old]> (rows s)) s)
  else Some (FailureExecutionResult SC_NO_SQL_DATABASE_PROVIDER_CONDITIONAL_CHECKED_FAILED, None, s).

Definition enqueue_message (body : string) (s : Cloud) : Cloud :=
  mkCloud (rows s) (<[next_message s := body]> (messages s)) (receipts s) (S (next_message s)).

Definition delete_message (receipt : string) (s : Cloud) : Cloud :=
  mkCloud (rows s) (match receipts s !! receipt with Some m => delete m (messages s) | None => messages s end)
    (receipts s) (next_message s).

Definition top_message (m : nat) (receipt : string) (s : Cloud) : option (GetTopMessageResponse * Cloud) :=
  body ← messages s !! m;
  if bool_decide (receipt = "") || bool_decide (is_Some (receipts s !! receipt)) then None
  else Some (mkTopMessage body receipt,
             mkCloud (rows s) (messages s) (<[receipt := m]> (receipts s)) (next_message s)).

Definition answered (s : Cloud) (c : Call) : option (ExecutionResult * option (Answer c) * Cloud) :=
  match c with
  | EnqueueMessage body => Some (SuccessExecutionResult, Some tt, enqueue_message body s)
  | GetTopMessage => Some (SuccessExecutionResult, Some (mkTopMessage "" ""), s)
  | UpdateMessageVisibilityTimeout _ _ => Some (SuccessExecutionResult, Some tt, s)
  | DeleteMessage receipt => Some (SuccessExecutionResult, Some tt, delete_message receipt s)
  | GetDatabaseItem req => Some (get_item req s, s)
  | CreateDatabaseItem req => create_item req s
  | UpsertDatabaseItem req => upsert_item req s
  end.

Definition perform (s : Cloud) (c : Call) (ch : Choice) : option (ExecutionResult * option (Answer c) * Cloud) :=
  match ch with
  | Answered => answered s c
  | Top m receipt =>
      match c with
      | GetTopMessage => '(top, s) ← top_message m receipt s; Some (SuccessExecutionResult, Some top, s)
      | _ => None
      end
  | Fault r applied =>
      if Successful r then None
      else '(_, _, s') ← answered s c; Some (r, None, if applied then s' else s)
  end.
End services.

(** ** Requests *)

Inductive Request :=
  | RPutJob (job_id job_body : string) (uuid : Uuid)
  | RGetNextJob
  | RGetJobById (job_id : string)
  | RUpdateJobBody (job_id job_body : string) (most_recent : Timestamp)
  | RUpdateJobStatus (req : UpdateJobStatusRequest)
  | RUpdateJobVisibilityTimeout (job_id receipt : string) (seconds : Z)
  | RDeleteOrphanedJobMessage (job_id receipt : string).

(** Bodies stay below a gibibyte, far above what the databases accept. *)
Definition body_ok (b : string) : bool := (Z.of_nat (String.length b) <? 2 ^ 30)%Z.

Definition request_ok (r : Request) : bool :=
  match r with
  | RPutJob _ body _ | RUpdateJobBody _ body _ => body_ok body
  | _ => true
  end.

Section start.
Context `{EvpBase64} `{TimeUtil} `{Json}.
Definition start (this : JobClientProvider) (r : Request) : JobProg :=
  match r with
  | RPutJob id body uuid => PutJob this id body uuid
  | RGetNextJob => GetNextJob this
  | RGetJobById id => GetJobById this id
  | RUpdateJobBody id body recent => UpdateJobBody this id body recent
  | RUpdateJobStatus req => UpdateJobStatus this req
  | RUpdateJobVisibilityTimeout id receipt secs => UpdateJobVisibilityTimeout id receipt secs
  | RDeleteOrphanedJobMessage id receipt => DeleteOrphanedJobMessage this id receipt
  end.
End start.

(** ** Rows are jobs *)

(** A row with the seven columns of the jobs table. *)
Definition row7 (server_id body : string) (status : Z) (created updated : string) (retries : Z)
    (started : string) : Row :=
  list_to_map
    [(kServerJobIdColumnName, ValueString server_id); (kJobBodyColumnName, ValueString body);
     (kJobStatusColumnName, ValueInt status); (kCreatedTimeColumnName, ValueString created);
     (kUpdatedTimeColumnName, ValueString updated); (kRetryCountColumnName, ValueInt retries);
     (kProcessingStartedTimeColumnName, ValueString started)].

(** The attributes of an update: those that are set. *)
Definition update_attrs (body : option string) (status : option Z) (updated : option string)
    (retries : Z) (started : option string) : list ItemAttribute :=
  from_option (λ b, [MakeStringAttribute kJobBodyColumnName b]) [] body ++
  from_option (λ z, [MakeIntAttribute kJobStatusColumnName z]) [] status ++
  from_option (λ u, [MakeStringAttribute kUpdatedTimeColumnName u]) [] updated ++
  [MakeIntAttribute kRetryCountColumnName retries] ++
  from_option (λ u, [MakeStringAttribute kProcessingStartedTimeColumnName u]) [] started.

Lemma list_to_map_union (l : list (string * AttributeValue)) (m : Row) :
  list_to_map l ∪ m = foldr (λ p m, <[p.1 := p.2]> m) m l.
Proof.
  induction l as [|[k v] l IH]; cbn; [apply (left_id_L ∅ (∪))|]. rewrite <-insert_union_l. by rewrite IH.
Qed.

Lemma update_row7 sid b st c u rc ps b' st' u' rc' ps' :
  list_to_map (pairs (update_attrs b' st' u' rc' ps')) ∪ row7 sid b st c u rc ps =
  row7 sid (default b b') (default st st') c (default u u') rc' (default ps ps').
Proof.
  rewrite list_to_map_union. apply map_eq. intros i. unfold row7, update_attrs, pairs.
  destruct b', st', u', ps'; cbn [from_option app fmap list_fmap foldr list_to_map fst snd name
    attribute_value MakeStringAttribute MakeIntAttribute default];
    rewrite !lookup_insert; repeat (case_decide; [by subst|]); done.
Qed.

Section spec.
Context `{EvpBase64} `{TimeUtil} `{Json}.
Variable this : JobClientProvider.
Variable duplicate_code : Z.

Lemma validate_row7 k pk sid b st c u rc ps :
  partition_key k = Some pk → ValidateJobItem (item_of k (row7 sid b st c u rc ps)) = SuccessExecutionResult.
Proof. intros Hk. destruct k as [t k' sk]. cbn in Hk. subst. vm_compute. reflexivity. Qed.

Lemma attributes_row7 k sid b st c u rc ps :
  let m := GetItemAttributes (item_of k (row7 sid b st c u rc ps)) in
  m !! kServerJobIdColumnName = Some (MakeStringAttribute kServerJobIdColumnName sid) ∧
  m !! kJobBodyColumnName = Some (MakeStringAttribute kJobBodyColumnName b) ∧
  m !! kJobStatusColumnName = Some (MakeIntAttribute kJobStatusColumnName st) ∧
  m !! kCreatedTimeColumnName = Some (MakeStringAttribute kCreatedTimeColumnName c) ∧
  m !! kUpdatedTimeColumnName = Some (MakeStringAttribute kUpdatedTimeColumnName u) ∧
  m !! kRetryCountColumnName = Some (MakeIntAttribute kRetryCountColumnName rc) ∧
  m !! kProcessingStartedTimeColumnName = Some (MakeStringAttribute kProcessingStartedTimeColumnName ps).
Proof. vm_compute. done. Qed.

(** *** Jobs *)

Definition row_of (job : Job) : Row :=
  row7 (server_job_id job) (EVP_EncodeBlock (job_body job)) (job_status job)
    (time_ToString (created_time job)) (time_ToString (updated_time job)) (retry_count job)
    (time_ToString (processing_started_time job)).

(** A job as the table may hold it. *)
Record job_ok (job : Job) : Prop := {
  ok_body : job_body job ≠ "" ∧ body_ok (job_body job) = true;
  ok_status : (JOB_STATUS_CREATED ≤ job_status job ≤ JOB_STATUS_SUCCESS)%Z;
  ok_created : valid_timestamp (created_time job) = true;
  ok_updated : valid_timestamp (updated_time job) = true;
  ok_started : valid_timestamp (processing_started_time job) = true;
  ok_retry : (0 ≤ retry_count job < 2 ^ 31)%Z
}.

Lemma body_roundtrip b : b ≠ "" → body_ok b = true →
  Base64Encode b = Some (HasValue (EVP_EncodeBlock b)) ∧ Base64Decode (EVP_EncodeBlock b) = HasValue b.
Proof. intros Hb Hl. apply base64_roundtrip; [done|]. unfold body_ok in Hl. lia. Qed.

Lemma read_time_ToString t : valid_timestamp t = true → read_time (time_ToString t) = t.
Proof. intros Ht. unfold read_time. by rewrite time_roundtrip. Qed.

(** Reading back the row of a job gives the job. *)
Lemma convert_row_of tbl job : job_ok job →
  ConvertDatabaseItemToJob (item_of (jobs_key tbl (job_id job)) (row_of job)) = Some (HasValue job).
Proof.
  intros [[Hb Hbl] _ Hc Hu Hs _]. destruct (body_roundtrip _ Hb Hbl) as [_ Hd].
  unfold ConvertDatabaseItemToJob, row_of. erewrite validate_row7 by done.
  match goal with |- context [item_of ?k (row7 ?a ?b ?c ?d ?e ?f ?g)] =>
    destruct (attributes_row7 k a b c d e f g) as (H1' & H2' & H3' & H4' & H5' & H6' & H7');
    set (m := GetItemAttributes (item_of k (row7 a b c d e f g))) in * end.
  rewrite H1', H2', H3', H4', H5', H6', H7'. cbn.
  rewrite Hd. cbn. rewrite !read_time_ToString by done. by destruct job.
Qed.

(** *** What an update writes *)

Record update_ok (u : Job) : Prop := {
  upd_server : server_job_id u = "";
  upd_created : created_time u = kDefaultTimestampValue;
  upd_body : body_ok (job_body u) = true;
  upd_status : job_status u = JOB_STATUS_UNKNOWN ∨ (JOB_STATUS_PROCESSING ≤ job_status u ≤ JOB_STATUS_SUCCESS)%Z;
  upd_updated : valid_timestamp (updated_time u) = true;
  upd_started : valid_timestamp (processing_started_time u) = true;
  upd_retry : (0 ≤ retry_count u < 2 ^ 31)%Z
}.

Definition set_if {A} `{EqDecision A} (unset x : A) : option A := if bool_decide (x = unset) then None else Some x.

(** The job after an update: the fields that are set are replaced, the retry count always. *)
Definition apply_update (u job : Job) : Job :=
  mkJob (job_id job) (server_job_id job)
    (default (job_body job) (set_if "" (job_body u)))
    (default (job_status job) (set_if JOB_STATUS_UNKNOWN (job_status u)))
    (created_time job)
    (default (updated_time job) (set_if kDefaultTimestampValue (updated_time u)))
    (retry_count u)
    (default (processing_started_time job) (set_if kDefaultTimestampValue (processing_started_time u))).

Lemma upsert_request tbl u : update_ok u →
  CreateUpsertJobRequest tbl u = Some (HasValue (mkUpsertItem (jobs_key tbl (job_id u)) []
    (update_attrs (EVP_EncodeBlock <$> set_if "" (job_body u)) (set_if JOB_STATUS_UNKNOWN (job_status u))
       (time_ToString <$> set_if kDefaultTimestampValue (updated_time u)) (retry_count u)
       (time_ToString <$> set_if kDefaultTimestampValue (processing_started_time u))))).
Proof.
  intros [Hs Hc Hb _ _ _ _]. unfold CreateUpsertJobRequest, set_if, update_attrs.
  rewrite !(bool_decide_eq_true_2 _ Hs), !(bool_decide_eq_true_2 _ Hc).
  destruct (bool_decide (job_body u = "")) eqn:Eb.
  - cbn. do 3 f_equal. by repeat case_bool_decide.
  - apply bool_decide_eq_false in Eb. destruct (body_roundtrip _ Eb Hb) as [-> _].
    cbn. do 3 f_equal. by repeat case_bool_decide.
Qed.

Lemma row_of_update u job :
  list_to_map (pairs (update_attrs (EVP_EncodeBlock <$> set_if "" (job_body u))
    (set_if JOB_STATUS_UNKNOWN (job_status u))
    (time_ToString <$> set_if kDefaultTimestampValue (updated_time u)) (retry_count u)
    (time_ToString <$> set_if kDefaultTimestampValue (processing_started_time u)))) ∪ row_of job =
  row_of (apply_update u job).
Proof. unfold row_of. rewrite update_row7. unfold apply_update, set_if. by repeat case_bool_decide. Qed.

Lemma apply_update_ok u job : update_ok u → job_ok job → job_ok (apply_update u job).
Proof.
  intros [_ _ Hb Hst Hu Hs Hr] [Hb' Hst' Hc' Hu' Hs' Hr'].
  constructor; unfold apply_update, set_if in *; cbn; repeat case_bool_decide; cbn; try done.
  unfold JOB_STATUS_CREATED, JOB_STATUS_PROCESSING, JOB_STATUS_UNKNOWN in *. lia.
Qed.

(** ** The invariant of the table and how jobs evolve *)

Definition stored (s : Cloud) (key : string * string) (job : Job) : Prop :=
  rows s !! key = Some (row_of job) ∧ job_ok job ∧ job_id job = key.2.

Definition rows_ok (s : Cloud) : Prop :=
  ∀ key row, rows s !! key = Some row → ∃ job, row = row_of job ∧ job_ok job ∧ job_id job = key.2.

(** A job keeps its identity, and once taken up it is never new again. *)
Definition evolved (job job' : Job) : Prop :=
  server_job_id job' = server_job_id job ∧ created_time job' = created_time job ∧
  (job_status job' = JOB_STATUS_CREATED → job_status job = JOB_STATUS_CREATED).

Definition evolves (s s' : Cloud) : Prop :=
  ∀ key job, stored s key job → ∃ job', stored s' key job' ∧ evolved job job'.

#[local] Instance evolves_preorder : PreOrder evolves.
Proof.
  split.
  - intros s key job Hs. exists job. split; [done|]. done.
  - intros s1 s2 s3 H12 H23 key job Hs. destruct (H12 _ _ Hs) as (j2 & Hs2 & E1 & E2 & E3).
    destruct (H23 _ _ Hs2) as (j3 & Hs3 & F1 & F2 & F3). exists j3. split; [done|].
    split_and!; [congruence|congruence|auto].
Qed.

Lemma evolves_same_rows s s' : rows s' = rows s → (rows_ok s → rows_ok s') ∧ evolves s s'.
Proof.
  intros E. split.
  - intros Hs key row. rewrite E. apply Hs.
  - intros key job [Hr Hj]. exists job. by split; [split; [rewrite E|]|].
Qed.

Lemma evolves_insert s s' key job' :
  rows s' = <[key := row_of job']> (rows s) → job_ok job' → job_id job' = key.2 →
  (∀ job, stored s key job → evolved job job') → rows_ok s → rows_ok s' ∧ evolves s s'.
Proof.
  intros E Hok Hid Hev Hs. split.
  - intros k row. rewrite E. destruct (decide (key = k)) as [<-|Hne].
    + rewrite lookup_insert_eq. injection 1 as <-. by exists job'.
    + rewrite lookup_insert_ne by done. apply Hs.
  - intros k job Hst. destruct (decide (key = k)) as [<-|Hne].
    + exists job'. split; [|by apply Hev]. split; [|done]. by rewrite E, lookup_insert_eq.
    + exists job. split; [|done]. destruct Hst as [Hr Hj]. split; [|done].
      by rewrite E, lookup_insert_ne.
Qed.

(** The calls that keep the table well formed in a state. *)
Definition safe_call (s : Cloud) (c : Call) : Prop :=
  match c with
  | CreateDatabaseItem req =>
      ∃ tbl job, job_ok job ∧ create_key req = jobs_key tbl (job_id job) ∧
        list_to_map (pairs (create_attributes req)) = row_of job
  | UpsertDatabaseItem req =>
      ∃ tbl u job, update_ok u ∧ stored s (tbl, job_id u) job ∧
        CreateUpsertJobRequest tbl u = Some (HasValue req)
  | _ => True
  end.

Lemma create_safe req s r a s' :
  rows_ok s → safe_call s (CreateDatabaseItem req) → create_item duplicate_code req s = Some (r, a, s') →
  rows_ok s' ∧ evolves s s'.
Proof.
  intros Hs (tbl & job & Hok & Hk & Hrow) Hc. unfold create_item in Hc. rewrite Hk in Hc. cbn in Hc.
  destruct (rows s !! (tbl, job_id job)) eqn:E.
  - injection Hc as <- <- <-. split; [done|reflexivity].
  - injection Hc as <- <- <-. apply (evolves_insert _ _ (tbl, job_id job) job); cbn; [by rewrite Hrow|done..| |done].
    intros job0 [Hr _]. cbn in Hr. congruence.
Qed.

(** An update of a job that is stored replaces it by the updated job. *)
Lemma upsert_item_stored tbl u s job : update_ok u → stored s (tbl, job_id u) job →
  ∃ req, CreateUpsertJobRequest tbl u = Some (HasValue req) ∧
    upsert_item req s =
      Some (SuccessExecutionResult, Some tt,
            set_rows (<[(tbl, job_id u) := row_of (apply_update u job)]> (rows s)) s).
Proof.
  intros Hu (Hr & _ & _). eexists. split; [by apply upsert_request|].
  unfold upsert_item. cbn [upsert_key upsert_required new_attributes key_of jobs_key partition_key
    MakeStringAttribute table_name mbind option_bind].
  rewrite Hr. cbn [from_option default]. rewrite bool_decide_eq_true_2 by done. cbn [orb]. unfold id.
  by rewrite row_of_update.
Qed.

Lemma stored_inj s key job job' : stored s key job → stored s key job' → job = job'.
Proof.
  intros (Hr & Hok & Hid) (Hr' & Hok' & Hid'). rewrite Hr in Hr'. apply (inj Some) in Hr' as Hrr.
  pose proof (convert_row_of (fst key) job Hok) as E1. pose proof (convert_row_of (fst key) job' Hok') as E2.
  rewrite Hid' in E2. rewrite Hid, Hrr, E2 in E1. by injection E1.
Qed.

Lemma upsert_safe req s r a s' :
  rows_ok s → safe_call s (UpsertDatabaseItem req) → upsert_item req s = Some (r, a, s') →
  rows_ok s' ∧ evolves s s'.
Proof.
  intros Hs (tbl & u & job & Hu & Hst & Hreq) Hc.
  destruct (upsert_item_stored tbl u s job Hu Hst) as (req' & Hreq' & Hup).
  rewrite Hreq' in Hreq. injection Hreq as <-. rewrite Hup in Hc. injection Hc as <- <- <-.
  destruct Hst as (Hr & Hok & Hid).
  apply (evolves_insert _ _ (tbl, job_id u) (apply_update u job)); [done|by apply apply_update_ok|done| |done].
  intros job0 Hst0. rewrite (stored_inj s (tbl, job_id u) job0 job) by (done || by split).
  split_and!; [done|done|]. cbn. unfold set_if. case_bool_decide; cbn; [done|].
  destruct Hu as [_ _ _ [?|Hs'] _ _ _]; [done|].
  unfold JOB_STATUS_PROCESSING, JOB_STATUS_CREATED in *. lia.
Qed.

Lemma answered_safe s c r a s' :
  rows_ok s → safe_call s c → answered duplicate_code s c = Some (r, a, s') → rows_ok s' ∧ evolves s s'.
Proof.
  intros Hs Hc Ha. destruct c as [body| |rc ts|rc|req|req|req]; cbn in Ha.
  - injection Ha as _ _ <-. destruct (evolves_same_rows s (enqueue_message body s)); auto.
  - injection Ha as _ _ <-. split; [done|reflexivity].
  - injection Ha as _ _ <-. split; [done|reflexivity].
  - injection Ha as _ _ <-. destruct (evolves_same_rows s (delete_message rc s)); auto.
  - injection Ha as _ <-. split; [done|reflexivity].
  - by eapply create_safe.
  - by eapply upsert_safe.
Qed.

Lemma perform_safe s c ch r a s' :
  rows_ok s → safe_call s c → perform duplicate_code s c ch = Some (r, a, s') → rows_ok s' ∧ evolves s s'.
Proof.
  intros Hs Hc Hp. destruct ch as [|m rc|r' applied]; cbn in Hp.
  - by eapply answered_safe.
  - destruct c; try done. unfold top_message in Hp. destruct (messages s !! m); [|done]. cbn in Hp.
    destruct (bool_decide (rc = "") || _); [done|]. injection Hp as _ _ <-.
    destruct (evolves_same_rows s (mkCloud (rows s) (messages s) (<[rc:=m]> (receipts s)) (next_message s))); auto.
  - destruct (Successful r'); [done|].
    destruct (answered duplicate_code s c) as [[[r1 a1] s1]|] eqn:E; [|done]. cbn in Hp.
    injection Hp as _ _ <-. destruct applied; [by eapply answered_safe|]. split; [done|reflexivity].
Qed.

(** ** Every operation is well behaved *)

Abbreviation ok := (prog_ok (Resp:=Response) (perform duplicate_code) valid_timestamp rows_ok evolves).

Lemma ok_invoke s0 c tail k :
  (∀ s, evolves s0 s → rows_ok s → safe_call s c) →
  (∀ s ch r a s' now, evolves s0 s → rows_ok s → perform duplicate_code s c ch = Some (r, a, s') →
     evolves s0 s' → rows_ok s' → valid_timestamp now = true → ok s' (k now r a)) →
  (∀ s r now, evolves s0 s → rows_ok s → Successful r = false → valid_timestamp now = true →
     ok s (k now r None)) →
  ok s0 (Invoke c tail k).
Proof.
  intros Hsafe Hans Href s HR Hs. split; [|by eauto]. intros ch r a s' Hp.
  destruct (perform_safe s c ch r a s' Hs (Hsafe s HR Hs) Hp) as [Hs' HR'].
  split_and!; [done|done|]. intros now Hn.
  apply (Hans s ch r a s' now); [done|done|done|by transitivity s|done|done].
Qed.

Lemma ok_failed s r : ok s (failed r).
Proof. done. Qed.

Lemma ok_on_response {A} s (x : option A) k : (∀ v, x = Some v → ok s (k v)) → ok s (on_response x k).
Proof. intros Hk. destruct x; [by apply Hk|done]. Qed.

Lemma ok_on_value {A} s (x : Fallible A) k : (∀ v, x = Some (HasValue v) → ok s (k v)) → ok s (on_value x k).
Proof. intros Hk. destruct x as [[]|]; [done|by apply Hk|done]. Qed.

(** What a successful answer of the database tells: the job is stored. *)
Lemma get_job s tbl id required ch r a s' :
  rows_ok s → perform duplicate_code s (GetDatabaseItem (mkGetItem (jobs_key tbl id) required)) ch = Some (r, a, s') →
  s' = s ∧ (Successful r = true → ∃ job, stored s (tbl, id) job ∧ a = Some (item_of (jobs_key tbl id) (row_of job)) ∧
    ConvertDatabaseItemToJob (item_of (jobs_key tbl id) (row_of job)) = Some (HasValue job)).
Proof.
  intros Hs Hp. destruct ch as [|m rc|r' applied]; cbn in Hp; [|done|].
  - unfold get_item in Hp. cbn [get_key get_required key_of jobs_key partition_key MakeStringAttribute
      table_name mbind option_bind] in Hp.
    destruct (rows s !! (tbl, id)) as [row|] eqn:E; [|by simplify_eq/=].
    destruct (row_matches required row); simplify_eq/=; [|done]. split; [done|]. intros _.
    destruct (Hs _ _ E) as (job & -> & Hok & Hid). cbn in Hid. exists job. split_and!; [done|done|].
    rewrite <-Hid. by apply convert_row_of.
  - destruct (Successful r') eqn:Er; [done|]. destruct (get_item _ s). injection Hp as <- _ <-. rewrite Er.
    split; [by destruct applied|done].
Qed.

Lemma ok_get s0 tbl id required tail k :
  (∀ s r a now, Successful r = false → ok s (k now r a)) →
  (∀ s r now job, Successful r = true → valid_timestamp now = true → stored s (tbl, id) job →
     ok s (k now r (Some (item_of (jobs_key tbl id) (row_of job))))) →
  ok s0 (Invoke (GetDatabaseItem (mkGetItem (jobs_key tbl id) required)) tail k).
Proof.
  intros Hfail Hsucc. apply ok_invoke; [done| |by auto].
  intros s ch r a s' now HR Hs Hp _ _ Hn. destruct (get_job _ _ _ _ _ _ _ _ Hs Hp) as [-> Hj].
  destruct (Successful r) eqn:Er; [|by apply Hfail]. destruct (Hj eq_refl) as (job & Hst & -> & _).
  by apply Hsucc.
Qed.

Lemma stored_convert s tbl id job : stored s (tbl, id) job →
  ConvertDatabaseItemToJob (item_of (jobs_key tbl id) (row_of job)) = Some (HasValue job).
Proof. intros (_ & Hok & Hid). cbn in Hid. rewrite <-Hid. by apply convert_row_of. Qed.

Lemma ok_upsert s0 tbl u job (k : Timestamp → ExecutionResult → option unit → JobProg) :
  update_ok u → stored s0 (tbl, job_id u) job → (∀ s now r a, ok s (k now r a)) →
  ok s0 (on_value (CreateUpsertJobRequest tbl u) (λ req, Invoke (UpsertDatabaseItem req) false k)).
Proof.
  intros Hu Hst Hk. apply ok_on_value. intros req Hreq. apply ok_invoke; [|by auto..].
  intros s HR Hs. destruct (HR _ _ Hst) as (job' & Hst' & _). by exists tbl, u, job'.
Qed.

Lemma ok_quiet_call s0 c tail k :
  (∀ s, safe_call s c) → (∀ s now r a, ok s (k now r a)) → ok s0 (Invoke c tail k).
Proof. intros Hc Hk. by apply ok_invoke; auto. Qed.

Lemma put_ok s id body uuid : body_ok body = true → ok s (PutJob this id body uuid).
Proof.
  intros Hb. unfold PutJob. case_bool_decide; [done|]. apply ok_on_response. intros sid _.
  apply ok_on_response. intros msg _.
  assert (∀ s now r, valid_timestamp now = true → ok s (OnEnqueueMessageCallback this id body sid now r)) as Hcb.
  { intros s1 now r Hn. unfold OnEnqueueMessageCallback. destruct (Successful r); [|done]. cbn [negb].
    apply ok_on_value. intros req Hreq. unfold CreatePutJobRequest in Hreq. cbn [job_body CreateJob] in Hreq.
    destruct (decide (body = "")) as [->|Hne]; [by rewrite base64_encode_empty in Hreq|].
    destruct (body_roundtrip _ Hne Hb) as [Henc _]. rewrite Henc in Hreq. injection Hreq as <-.
    apply ok_quiet_call; [|intros ? ? r2 ?; unfold OnCreateNewJobItemCallback; by destruct (Successful r2)].
    intros s2. exists (job_table_name_ this), (CreateJob id sid body JOB_STATUS_CREATED now now
      kDefaultTimestampValue kDefaultRetryCount). split_and!; [|done|done]. constructor; try done. }
  by apply ok_invoke; auto.
Qed.

Lemma get_next_ok s : ok s (GetNextJob this).
Proof.
  assert (∀ s r a, ok s (OnGetTopMessageCallback this r a)) as Hcb; [|by apply ok_quiet_call].
  intros s1 r a. unfold OnGetTopMessageCallback. destruct (Successful r); [|done]. cbn [negb].
  apply ok_on_response. intros top _. case_bool_decide; [done|]. apply ok_on_response. intros [id sid] _.
  apply ok_quiet_call; [done|]. intros s2 now r2 a2. unfold OnGetNextJobItemCallback.
  destruct (Successful r2); [|done]. cbn [negb]. apply ok_on_response. intros item _.
  by apply ok_on_value.
Qed.

Lemma get_by_id_ok s id : ok s (GetJobById this id).
Proof.
  unfold GetJobById. case_bool_decide; [done|]. apply ok_quiet_call; [done|]. intros s2 now r2 a2.
  unfold OnGetJobItemByJobIdCallback. destruct (Successful r2); [|done]. cbn [negb].
  apply ok_on_response. intros item _. by apply ok_on_value.
Qed.

Lemma update_body_ok s id body recent : body_ok body = true → ok s (UpdateJobBody this id body recent).
Proof.
  intros Hb. unfold UpdateJobBody. case_bool_decide; [done|]. apply ok_get.
  - intros s1 r a now Hr. unfold OnGetJobItemForUpdateJobBodyCallback. by rewrite Hr.
  - intros s1 r now job Hr Hn Hst. unfold OnGetJobItemForUpdateJobBodyCallback. rewrite Hr. cbn [negb on_response].
    rewrite (stored_convert _ _ _ _ Hst). cbn [on_value]. destruct (timestamp_gtb _ _); [done|].
    refine (ok_upsert _ _ (mkJob id "" body _ _ now _ _) job (λ _ r2 _, OnUpsertUpdatedJobBodyJobItemCallback now r2) _ Hst _);
      [by constructor; try done; left|].
    intros s2 now2 r2 a2. unfold OnUpsertUpdatedJobBodyJobItemCallback. by destruct (Successful r2).
Qed.

Lemma upsert_status_ok s req now job retries :
  valid_timestamp now = true → stored s (job_table_name_ this, us_job_id req) job →
  (JOB_STATUS_PROCESSING ≤ us_job_status req ≤ JOB_STATUS_SUCCESS)%Z → (0 ≤ retries < 2 ^ 31)%Z →
  ok s (UpsertUpdatedJobStatusJobItem this req now retries).
Proof.
  intros Hn Hst Hstat Hr. unfold UpsertUpdatedJobStatusJobItem.
  refine (ok_upsert _ _ (mkJob (us_job_id req) _ _ _ _ now _ _) job
    (λ _ r2 _, OnUpsertUpdatedJobStatusJobItemCallback req now retries r2) _ Hst _).
  - constructor; try done; [by right|]. cbn. by destruct (_ =? _)%Z.
  - intros s2 now2 r2 a2. unfold OnUpsertUpdatedJobStatusJobItemCallback. destruct (Successful r2); [|done].
    cbn [negb]. destruct (_ || _); [|done]. apply ok_quiet_call; [done|]. intros s3 now3 r3 a3.
    unfold OnDeleteJobMessageForUpdatingJobStatusCallback. by destruct (Successful r3).
Qed.

Lemma ValidateJobStatus_range cur new : Successful (ValidateJobStatus cur new) = true →
  (cur = JOB_STATUS_CREATED ∨ cur = JOB_STATUS_PROCESSING) ∧ (JOB_STATUS_PROCESSING ≤ new ≤ JOB_STATUS_SUCCESS)%Z.
Proof.
  unfold ValidateJobStatus, allowed_status_to_update, assoc_find.
  destruct (decide (cur = JOB_STATUS_CREATED)) as [->|H1'];
    [|destruct (decide (cur = JOB_STATUS_PROCESSING)) as [->|H2']].
  all: cbn; repeat case_decide; try done; try congruence; cbn; case_bool_decide as Hin; try done; intros _;
    rewrite !elem_of_cons, elem_of_nil in Hin; unfold JOB_STATUS_PROCESSING, JOB_STATUS_SUCCESS, JOB_STATUS_FAILURE in *;
    (split; [by auto|lia]).
Qed.

Lemma update_status_ok s req : ok s (UpdateJobStatus this req).
Proof.
  unfold UpdateJobStatus. case_bool_decide; [done|]. destruct (_ && _); [done|]. apply ok_get.
  - intros s1 r a now Hr. unfold OnGetJobItemForUpdateJobStatusCallback. by rewrite Hr.
  - intros s1 r now job Hr Hn Hst. unfold OnGetJobItemForUpdateJobStatusCallback. rewrite Hr. cbn [negb on_response].
    rewrite (stored_convert _ _ _ _ Hst). cbn [on_value]. destruct (timestamp_gtb _ _); [done|].
    destruct (Successful (ValidateJobStatus _ _)) eqn:Hv; [|done]. cbn [negb].
    apply ValidateJobStatus_range in Hv as [_ Hv]. destruct Hst as (Hrow & Hok & Hid). destruct (ok_retry _ Hok) as [??].
    destruct (us_job_status req =? JOB_STATUS_PROCESSING)%Z.
    + destruct (Z.eqb_spec (retry_count job) (2 ^ 31 - 1)); [done|]. eapply upsert_status_ok; [done|by split|done|lia].
    + destruct (_ || _); [|done]. eapply upsert_status_ok; [done|by split|done|lia].
Qed.

Lemma visibility_ok s id receipt secs : ok s (UpdateJobVisibilityTimeout id receipt secs).
Proof.
  unfold UpdateJobVisibilityTimeout. case_bool_decide; [done|]. destruct (_ || _); [done|].
  case_bool_decide; [done|]. apply ok_quiet_call; [done|]. intros s1 now r a.
  unfold OnUpdateMessageVisibilityTimeoutCallback. by destruct (Successful r).
Qed.

Lemma orphan_ok s id receipt : ok s (DeleteOrphanedJobMessage this id receipt).
Proof.
  unfold DeleteOrphanedJobMessage. case_bool_decide; [done|]. case_bool_decide; [done|].
  assert (∀ s, ok s (DeleteJobMessageForDeletingOrphanedJob receipt)) as Hdel.
  { intros s1. apply ok_quiet_call; [done|]. intros s2 now r a.
    unfold OnDeleteJobMessageForDeleteOrphanedJobMessageCallback. by destruct (Successful r). }
  apply ok_quiet_call; [done|]. intros s1 now r a. unfold OnGetJobItemForDeleteOrphanedJobMessageCallback.
  destruct (Successful r); cbn [negb]; [|by destruct (_ =? _)%Z].
  apply ok_on_response. intros item _. apply ok_on_value. intros job _. by destruct (_ || _).
Qed.

Lemma start_ok s r : request_ok r = true → ok s (start this r).
Proof.
  destruct r; intros Hr; [by apply put_ok|apply get_next_ok|apply get_by_id_ok|by apply update_body_ok|
    apply update_status_ok|apply visibility_ok|apply orphan_ok].
Qed.

(** ** Runs of any operations *)

Abbreviation job_step := (async_step (Resp:=Response) (perform duplicate_code) valid_timestamp).

(** The events of clients that use the job client. *)
Definition client_events (evs : list (AsyncEvent Answer Response Timestamp Choice)) : Prop :=
  ∀ p, Submit p ∈ evs → ∃ r, request_ok r = true ∧ p = start this r.

Lemma job_runs_ok evs w rs w' :
  world_ok (perform duplicate_code) valid_timestamp rows_ok evolves w → client_events evs →
  run_ops job_step w evs = Some (rs, w') →
  world_ok (perform duplicate_code) valid_timestamp rows_ok evolves w' ∧ evolves (services w) (services w').
Proof.
  intros Hw Hev Hrun. refine (world_ok_run _ _ _ _ evs w rs w' Hw _ Hrun). intros p s Hp Hs.
  destruct (Hev p Hp) as (r & Hr & ->). by apply start_ok.
Qed.

Definition no_jobs : World Answer Response Timestamp Cloud := mkWorld empty_cloud [].

Lemma no_jobs_ok : world_ok (perform duplicate_code) valid_timestamp rows_ok evolves no_jobs.
Proof. split; [|intros o Ho; by apply elem_of_nil in Ho]. intros key row Hrow. cbn in Hrow. by rewrite lookup_empty in Hrow. Qed.

(** C6: Whatever operations run, in whatever interleaving and with whatever failures of the services,
    every row of the table is a job: it converts back to one, under the id it is stored with, with a
    status, timestamps and a retry count that are in range. *)
Theorem job_table_well_typed evs rs w :
  client_events evs → run_ops job_step no_jobs evs = Some (rs, w) →
  ∀ tbl id row, rows (services w) !! (tbl, id) = Some row →
  ∃ job, ConvertDatabaseItemToJob (item_of (jobs_key tbl id) row) = Some (HasValue job) ∧
    job_id job = id ∧ job_ok job.
Proof.
  intros Hev Hrun tbl id row Hrow. destruct (job_runs_ok _ _ _ _ no_jobs_ok Hev Hrun) as [[Hs _] _].
  destruct (Hs _ _ Hrow) as (job & -> & Hok & Hid). exists job. split_and!; [|done|done].
  cbn in Hid. rewrite <-Hid. by apply convert_row_of.
Qed.

(** A job that is in the table stays there under its id, with the server job id and the creation
    time it was created with, and once it has left the status CREATED it never has it again. *)
Theorem job_identity_is_stable evs rs w evs' rs' w' key job :
  client_events evs → run_ops job_step no_jobs evs = Some (rs, w) →
  client_events evs' → run_ops job_step w evs' = Some (rs', w') →
  stored (services w) key job →
  ∃ job', stored (services w') key job' ∧ server_job_id job' = server_job_id job ∧
    created_time job' = created_time job ∧
    (job_status job' = JOB_STATUS_CREATED → job_status job = JOB_STATUS_CREATED).
Proof.
  intros Hev Hrun Hev' Hrun' Hst. destruct (job_runs_ok _ _ _ _ no_jobs_ok Hev Hrun) as [Hw _].
  destruct (job_runs_ok _ _ _ _ Hw Hev' Hrun') as [_ HR]. destruct (HR _ _ Hst) as (job' & Hst' & Hj).
  by exists job'.
Qed.

(** ** Operations one after the other *)

Abbreviation exec_job := (exec (Resp:=Response) (perform duplicate_code) valid_timestamp).

(** Runs requests, each to its end before the next begins. *)
Fixpoint exec_all (l : list (Request * list (Choice * Timestamp))) (s : Cloud) : option Cloud :=
  match l with
  | [] => Some s
  | (r, env) :: l => '(_, s) ← exec_job env s (start this r); exec_all l s
  end.

Definition finished (job : Job) : Prop :=
  job_status job = JOB_STATUS_SUCCESS ∨ job_status job = JOB_STATUS_FAILURE.

(** The jobs that are finished keep their status. *)
Definition settled (s s' : Cloud) : Prop :=
  ∀ key job, stored s key job → finished job →
  ∃ job', stored s' key job' ∧ job_status job' = job_status job.

#[local] Instance settled_preorder : PreOrder settled.
Proof.
  split; [by intros s key job Hs Hf; exists job|].
  intros s1 s2 s3 H12 H23 key job Hs Hf. destruct (H12 _ _ Hs Hf) as (j2 & Hs2 & E2).
  destruct (H23 _ _ Hs2) as (j3 & Hs3 & E3); [by unfold finished in *; rewrite E2|].
  exists j3. split; [done|congruence].
Qed.

Definition keeps (s : Cloud) (p : JobProg) : Prop :=
  ∀ env x s', exec_job env s p = Some (x, s') → rows_ok s' ∧ settled s s'.

Lemma keeps_done s r resp : rows_ok s → keeps s (Finish r resp).
Proof. intros Hs env x s' E. destruct env; cbn in E; injection E as _ <-; by split. Qed.

Lemma keeps_crash s : keeps s Crash.
Proof. intros env x s' E. by destruct env. Qed.

Lemma keeps_failed s r : rows_ok s → keeps s (failed r).
Proof. apply keeps_done. Qed.

Lemma keeps_invoke s c tail k :
  (∀ ch r a s', perform duplicate_code s c ch = Some (r, a, s') → settled s s') →
  rows_ok s → safe_call s c →
  (∀ ch r a s' now, perform duplicate_code s c ch = Some (r, a, s') → rows_ok s' → valid_timestamp now = true →
     keeps s' (k now r a)) →
  keeps s (Invoke c tail k).
Proof.
  intros Hset Hs Hsafe Hk [|[ch now] env] x s' E; cbn in E; [done|].
  destruct (perform duplicate_code s c ch) as [[[r a] s1]|] eqn:Hp; [|done]. cbn in E.
  destruct (perform_safe s c ch r a s1 Hs Hsafe Hp) as [Hs1 _].
  destruct (valid_timestamp now) eqn:Hn; [|done].
  destruct (Hk _ _ _ _ _ Hp Hs1 Hn _ _ _ E) as [Hs' Hset']. split; [done|]. transitivity s1; [by eapply Hset|done].
Qed.

Lemma keeps_on_response {A} s (x : option A) k :
  (∀ v, x = Some v → keeps s (k v)) → keeps s (on_response x k).
Proof. intros Hk. destruct x; [by apply Hk|apply keeps_crash]. Qed.

Lemma keeps_on_value {A} s (x : Fallible A) k :
  rows_ok s → (∀ v, x = Some (HasValue v) → keeps s (k v)) → keeps s (on_value x k).
Proof. intros Hs Hk. destruct x as [[]|]; [by apply keeps_failed|by apply Hk|apply keeps_crash]. Qed.

(** Only an upsert can change the status of a job that is there. *)
Lemma settled_same_rows s s' : rows s' = rows s → settled s s'.
Proof. intros E key job Hs _. exists job. split; [|done]. unfold stored in *. by rewrite E. Qed.

Lemma answered_settled s c r a s' :
  (∀ req, c ≠ UpsertDatabaseItem req) → answered duplicate_code s c = Some (r, a, s') → settled s s'.
Proof.
  intros Hc Ha. destruct c as [body| |rc ts|rc|req|req|req]; cbn in Ha; [..|by destruct (Hc req)].
  1-5: by apply settled_same_rows; simplify_eq.
  unfold create_item in Ha. destruct (key_of (create_key req)) as [k|]; [|done]. cbn in Ha.
  destruct (rows s !! k) eqn:E; simplify_eq; [done|]. intros key job Hst _. exists job. split; [|done].
  destruct Hst as [Hr Hj]. split; [|done]. cbn. rewrite lookup_insert_ne; [done|]. intros ->. congruence.
Qed.

Lemma perform_settled s c ch r a s' :
  (∀ r a s', answered duplicate_code s c = Some (r, a, s') → settled s s') →
  perform duplicate_code s c ch = Some (r, a, s') → settled s s'.
Proof.
  intros Hans Hp. destruct ch as [|m rc|r' applied]; cbn in Hp; [by eapply Hans| |].
  - destruct c; try done. unfold top_message in Hp. destruct (messages s !! m); [|done]. cbn in Hp.
    destruct (bool_decide (rc = "") || _); [done|]. injection Hp as _ _ <-. by apply settled_same_rows.
  - destruct (Successful r'); [done|].
    destruct (answered duplicate_code s c) as [[[r1 a1] s1]|] eqn:E; [|done]. cbn in Hp.
    injection Hp as _ _ <-. destruct applied; [by eapply Hans|done].
Qed.

Lemma upsert_settled s tbl u req r a s' job :
  update_ok u → stored s (tbl, job_id u) job → (job_status u = JOB_STATUS_UNKNOWN ∨ ¬ finished job) →
  CreateUpsertJobRequest tbl u = Some (HasValue req) → upsert_item req s = Some (r, a, s') → settled s s'.
Proof.
  intros Hu Hst Hor Hreq Hup. destruct (upsert_item_stored tbl u s job Hu Hst) as (req' & Hreq' & Hup').
  rewrite Hreq' in Hreq. injection Hreq as <-. rewrite Hup' in Hup. injection Hup as _ _ <-.
  intros key job0 Hst0 Hf. destruct (decide (key = (tbl, job_id u))) as [->|Hne].
  - rewrite (stored_inj _ _ _ _ Hst0 Hst) in *. destruct Hor as [Hu0|Hnf]; [|done].
    exists (apply_update u job). split.
    + destruct Hst as (Hr & Hok & Hid). split_and!; [by cbn; rewrite lookup_insert_eq|by apply apply_update_ok|done].
    + cbn. unfold set_if. by rewrite bool_decide_eq_true_2.
  - exists job0. split; [|done]. destruct Hst0 as [Hr Hj]. split; [|done]. cbn. by rewrite lookup_insert_ne.
Qed.

Lemma keeps_quiet s c tail k :
  rows_ok s → (∀ req, c ≠ UpsertDatabaseItem req) → safe_call s c →
  (∀ s now r a, rows_ok s → valid_timestamp now = true → keeps s (k now r a)) → keeps s (Invoke c tail k).
Proof.
  intros Hs Hc Hsafe Hk. apply keeps_invoke; [|done|done|by eauto].
  intros ch r a s' Hp. eapply perform_settled; [|done]. intros. by eapply answered_settled.
Qed.

Lemma keeps_upsert s tbl u job (k : Timestamp → ExecutionResult → option unit → JobProg) :
  rows_ok s → update_ok u → stored s (tbl, job_id u) job → (job_status u = JOB_STATUS_UNKNOWN ∨ ¬ finished job) →
  (∀ s now r a, rows_ok s → keeps s (k now r a)) →
  keeps s (on_value (CreateUpsertJobRequest tbl u) (λ req, Invoke (UpsertDatabaseItem req) false k)).
Proof.
  intros Hs Hu Hst Hor Hk. apply keeps_on_value; [done|]. intros req Hreq.
  apply keeps_invoke; [|done|by exists tbl, u, job|by auto].
  intros ch r a s' Hp. eapply perform_settled; [|done]. intros r1 a1 s1. cbn. by eapply upsert_settled.
Qed.

Lemma keeps_get s tbl id required tail k :
  rows_ok s → (∀ r a now, Successful r = false → keeps s (k now r a)) →
  (∀ r now job, Successful r = true → valid_timestamp now = true → stored s (tbl, id) job →
     keeps s (k now r (Some (item_of (jobs_key tbl id) (row_of job))))) →
  keeps s (Invoke (GetDatabaseItem (mkGetItem (jobs_key tbl id) required)) tail k).
Proof.
  intros Hs Hfail Hsucc. apply keeps_invoke; [|done|done|].
  - intros ch r a s' Hp. eapply perform_settled; [|done]. intros r1 a1 s1. by apply answered_settled.
  - intros ch r a s' now Hp _ Hn. destruct (get_job _ _ _ _ _ _ _ _ Hs Hp) as [-> Hj].
    destruct (Successful r) eqn:Er; [|by apply Hfail]. destruct (Hj eq_refl) as (job & Hst & -> & _).
    by apply Hsucc.
Qed.

Lemma put_keeps s id body uuid : rows_ok s → body_ok body = true → keeps s (PutJob this id body uuid).
Proof.
  intros Hs Hb. unfold PutJob. case_bool_decide; [by apply keeps_failed|].
  apply keeps_on_response. intros sid _. apply keeps_on_response. intros msg _.
  apply keeps_quiet; [done|done|done|]. intros s1 now r _ Hs1 Hn.
  unfold OnEnqueueMessageCallback. destruct (Successful r); [|by apply keeps_failed]. cbn [negb].
  apply keeps_on_value; [done|]. intros req Hreq. unfold CreatePutJobRequest in Hreq. cbn [job_body CreateJob] in Hreq.
  destruct (decide (body = "")) as [->|Hne]; [by rewrite base64_encode_empty in Hreq|].
  destruct (body_roundtrip _ Hne Hb) as [Henc _]. rewrite Henc in Hreq. injection Hreq as <-.
  apply keeps_quiet; [done|done| |].
  - exists (job_table_name_ this), (CreateJob id sid body JOB_STATUS_CREATED now now
      kDefaultTimestampValue kDefaultRetryCount). split_and!; [|done|done]. constructor; try done.
  - intros s2 now2 r2 _ Hs2 _. unfold OnCreateNewJobItemCallback.
    destruct (Successful r2); [by apply keeps_done|by apply keeps_failed].
Qed.

Lemma read_keeps s tbl id required tail (k : Job → Response) :
  rows_ok s → keeps s (Invoke (GetDatabaseItem (mkGetItem (jobs_key tbl id) required)) tail
    (λ _ r a, if negb (Successful r) then failed r
      else on_response a (λ item, on_value (ConvertDatabaseItemToJob item) (λ job,
             Finish SuccessExecutionResult (Some (k job)))))).
Proof.
  intros Hs. apply keeps_quiet; [done|done|done|]. intros s1 now r a Hs1 _.
  destruct (Successful r); [|by apply keeps_failed]. cbn [negb]. apply keeps_on_response. intros item _.
  apply keeps_on_value; [done|]. intros job _. by apply keeps_done.
Qed.

Lemma update_body_keeps s id body recent :
  rows_ok s → body_ok body = true → keeps s (UpdateJobBody this id body recent).
Proof.
  intros Hs Hb. unfold UpdateJobBody. case_bool_decide; [by apply keeps_failed|]. apply keeps_get; [done| |].
  - intros r a now Hr. unfold OnGetJobItemForUpdateJobBodyCallback. rewrite Hr. by apply keeps_failed.
  - intros r now job Hr Hn Hst. unfold OnGetJobItemForUpdateJobBodyCallback. rewrite Hr. cbn [negb on_response].
    rewrite (stored_convert _ _ _ _ Hst). cbn [on_value]. destruct (timestamp_gtb _ _); [by apply keeps_failed|].
    refine (keeps_upsert _ _ (mkJob id "" body _ _ now _ _) job (λ _ r2 _, OnUpsertUpdatedJobBodyJobItemCallback now r2)
      Hs _ Hst (or_introl eq_refl) _); [by constructor; try done; left|].
    intros s2 now2 r2 a2 Hs2. unfold OnUpsertUpdatedJobBodyJobItemCallback.
    destruct (Successful r2); [by apply keeps_done|by apply keeps_failed].
Qed.

Lemma upsert_status_keeps s req now job retries :
  rows_ok s → valid_timestamp now = true → stored s (job_table_name_ this, us_job_id req) job → ¬ finished job →
  (JOB_STATUS_PROCESSING ≤ us_job_status req ≤ JOB_STATUS_SUCCESS)%Z → (0 ≤ retries < 2 ^ 31)%Z →
  keeps s (UpsertUpdatedJobStatusJobItem this req now retries).
Proof.
  intros Hs Hn Hst Hnf Hstat Hr. unfold UpsertUpdatedJobStatusJobItem.
  refine (keeps_upsert _ _ (mkJob (us_job_id req) _ _ _ _ now _ _) job
    (λ _ r2 _, OnUpsertUpdatedJobStatusJobItemCallback req now retries r2) Hs _ Hst (or_intror Hnf) _).
  - constructor; try done; [by right|]. cbn. by destruct (_ =? _)%Z.
  - intros s2 now2 r2 a2 Hs2. unfold OnUpsertUpdatedJobStatusJobItemCallback.
    destruct (Successful r2); [|by apply keeps_failed]. cbn [negb]. destruct (_ || _); [|by apply keeps_done].
    apply keeps_quiet; [done|done|done|]. intros s3 now3 r3 a3 Hs3 _.
    unfold OnDeleteJobMessageForUpdatingJobStatusCallback.
    destruct (Successful r3); [by apply keeps_done|by apply keeps_failed].
Qed.

Lemma update_status_keeps s req : rows_ok s → keeps s (UpdateJobStatus this req).
Proof.
  intros Hs. unfold UpdateJobStatus. case_bool_decide; [by apply keeps_failed|].
  destruct (_ && _); [by apply keeps_failed|]. apply keeps_get; [done| |].
  - intros r a now Hr. unfold OnGetJobItemForUpdateJobStatusCallback. rewrite Hr. by apply keeps_failed.
  - intros r now job Hr Hn Hst. unfold OnGetJobItemForUpdateJobStatusCallback. rewrite Hr. cbn [negb on_response].
    rewrite (stored_convert _ _ _ _ Hst). cbn [on_value]. destruct (timestamp_gtb _ _); [by apply keeps_failed|].
    destruct (Successful (ValidateJobStatus _ _)) eqn:Hv; [|by apply keeps_failed]. cbn [negb].
    apply ValidateJobStatus_range in Hv as [Hcur Hv].
    assert (¬ finished job) as Hnf by (intros [E|E]; rewrite E in Hcur; by destruct Hcur).
    assert (0 ≤ retry_count job < 2 ^ 31)%Z as Hrc by (destruct Hst as (_ & [] & _); done).
    destruct (us_job_status req =? JOB_STATUS_PROCESSING)%Z.
    + destruct (Z.eqb_spec (retry_count job) (2 ^ 31 - 1)); [apply keeps_crash|].
      eapply upsert_status_keeps; try done. lia.
    + destruct (_ || _); [|by apply keeps_failed]. by eapply upsert_status_keeps.
Qed.

Lemma orphan_keeps s id receipt : rows_ok s → keeps s (DeleteOrphanedJobMessage this id receipt).
Proof.
  intros Hs. unfold DeleteOrphanedJobMessage. case_bool_decide; [by apply keeps_failed|].
  case_bool_decide; [by apply keeps_failed|].
  assert (∀ s, rows_ok s → keeps s (DeleteJobMessageForDeletingOrphanedJob receipt)) as Hdel.
  { intros s1 Hs1. apply keeps_quiet; [done|done|done|]. intros s2 now r a Hs2 _.
    unfold OnDeleteJobMessageForDeleteOrphanedJobMessageCallback.
    destruct (Successful r); [by apply keeps_done|by apply keeps_failed]. }
  apply keeps_quiet; [done|done|done|]. intros s1 now r a Hs1 _. unfold OnGetJobItemForDeleteOrphanedJobMessageCallback.
  destruct (Successful r); cbn [negb]; [|destruct (_ =? _)%Z; [by apply Hdel|by apply keeps_failed]].
  apply keeps_on_response. intros item _. apply keeps_on_value; [done|]. intros job _.
  destruct (_ || _); [by apply Hdel|by apply keeps_failed].
Qed.

Lemma start_keeps s r : rows_ok s → request_ok r = true → keeps s (start this r).
Proof.
  intros Hs. destruct r; intros Hr; [by apply put_keeps| | |by apply update_body_keeps|by apply update_status_keeps| |
    by apply orphan_keeps].
  - apply keeps_quiet; [done|done|done|]. intros s1 now r a Hs1 _. unfold OnGetTopMessageCallback.
    destruct (Successful r); [|by apply keeps_failed]. cbn [negb]. apply keeps_on_response. intros top _.
    case_bool_decide; [by apply keeps_done|]. apply keeps_on_response. intros [id sid] _. by apply read_keeps.
  - cbn. unfold GetJobById. case_bool_decide; [by apply keeps_failed|]. by apply read_keeps.
  - cbn. unfold UpdateJobVisibilityTimeout. case_bool_decide; [by apply keeps_failed|].
    destruct (_ || _); [by apply keeps_failed|]. case_bool_decide; [by apply keeps_failed|].
    apply keeps_quiet; [done|done|done|]. intros s1 now r a Hs1 _. unfold OnUpdateMessageVisibilityTimeoutCallback.
    destruct (Successful r); [by apply keeps_done|by apply keeps_failed].
Qed.

(** C32: As long as operations run one after the other, a job that is finished stays finished, with the
    same outcome: no sequence of requests, with whatever answers of the services, opens it again. *)
Theorem finished_job_stays_finished l s s' key job :
  rows_ok s → (∀ r env, (r, env) ∈ l → request_ok r = true) → exec_all l s = Some s' →
  stored s key job → finished job →
  ∃ job', stored s' key job' ∧ job_status job' = job_status job.
Proof.
  intros Hs Hl Hrun. assert (settled s s') as Hset; [|by apply Hset].
  revert s Hs Hrun. induction l as [|[r env] l IH]; intros s Hs Hrun; cbn in Hrun; [by injection Hrun as <-|].
  destruct (exec_job env s (start this r)) as [[x s1]|] eqn:E; [|done]. cbn in Hrun.
  destruct (start_keeps s r Hs) with (env := env) (x := x) (s' := s1) as [Hs1 Hset]; [by eapply Hl; left|done|].
  transitivity s1; [done|]. apply IH; [|done|done]. intros r' env' Hin. eapply Hl. by right.
Qed.
End spec.
