(* ===== verification/JobClientRuns.v ===== *)
(** * JobClientRuns: the life of a job, and where it goes wrong

    What the operations of the job client do when nothing fails, composed
    into the life of a job from [PutJob] to its last [UpdateJobStatus]; and
    the runs in which the table and the queue end up in a state that the
    documentation of the job service does not allow. *)

From S2P Require Import Prelude ExecResult GcpStatus UuidLib Utils AsyncProg JobClient JobClientSpec.
From Stdlib Require Import Ascii.

Local Open Scope string_scope.
Local Open Scope list_scope.
Local Open Scope nat_scope.

Section runs.
Context `{EvpBase64} `{TimeUtil} `{Json}.
Variable this : JobClientProvider.
Variable duplicate_code : Z.

Abbreviation exec_job := (exec (Resp:=Response) (perform duplicate_code) valid_timestamp).
Abbreviation tbl := (job_table_name_ this).

(** The first half of every message body is the job's id, the second its server id. *)
Lemma message_roundtrip id sid msg :
  ToJsonString id sid = Some msg → msg ≠ "" ∧ JobMessageBody msg = Some (id, sid).
Proof.
  intros Hm. split; [by eapply json_dump_nonempty|]. unfold JobMessageBody.
  set (o := [(kJobsTablePartitionKeyName, id); (kServerJobIdColumnName, sid)]).
  assert (NoDup o.*1) as Hnd
    by (constructor; [by intros [=]%list_elem_of_singleton|apply NoDup_singleton]).
  rewrite (json_dump_member o _ kJobsTablePartitionKeyName id Hnd Hm) by (by left). cbn.
  by rewrite (json_dump_member o _ kServerJobIdColumnName sid Hnd Hm) by (right; by left).
Qed.

Lemma get_item_stored s id job sid :
  stored s (tbl, id) job → server_job_id job = sid →
  get_item (CreateGetNextJobRequest tbl id sid) s =
    (SuccessExecutionResult, Some (item_of (jobs_key tbl id) (row_of job))) ∧
  get_item (CreateGetJobByJobIdRequest tbl id) s =
    (SuccessExecutionResult, Some (item_of (jobs_key tbl id) (row_of job))).
Proof.
  intros (Hr & _ & _) Hsid. unfold get_item.
  cbn [CreateGetNextJobRequest CreateGetJobByJobIdRequest get_key get_required key_of jobs_key partition_key
    MakeStringAttribute table_name mbind option_bind app].
  rewrite Hr. split; [|done]. unfold row_matches. cbn [forallb MakeStringAttribute name attribute_value].
  assert (row_of job !! kServerJobIdColumnName = Some (ValueString sid)) as ->.
  { subst sid. unfold row_of, row7. cbn [list_to_map foldr fst snd]. by rewrite lookup_insert_eq. }
  by rewrite bool_decide_eq_true_2.
Qed.

(** *** The operations when nothing fails *)

Definition new_job (id body sid : string) (now : Timestamp) : Job :=
  mkJob id sid body JOB_STATUS_CREATED now now 0 kDefaultTimestampValue.

Lemma create_item_new s job : job_ok job → rows s !! (tbl, job_id job) = None →
  ∃ req, CreatePutJobRequest tbl job = Some (HasValue req) ∧
    create_item duplicate_code req s =
      Some (SuccessExecutionResult, Some tt, set_rows (<[(tbl, job_id job) := row_of job]> (rows s)) s).
Proof.
  intros [[Hb Hbo] _ _ _ _ _] Hnew. destruct (body_roundtrip _ Hb Hbo) as [Henc _].
  unfold CreatePutJobRequest. rewrite Henc. eexists. split; [reflexivity|].
  unfold create_item. cbn [create_key key_of jobs_key partition_key MakeStringAttribute table_name mbind option_bind].
  by rewrite Hnew.
Qed.

Lemma put_job_runs s id body uuid sid msg t1 t2 :
  id ≠ "" → body ≠ "" → body_ok body = true → UuidLib.ToString uuid = Some sid →
  ToJsonString id (String.string_of_list_ascii sid) = Some msg →
  rows s !! (tbl, id) = None → valid_timestamp t1 = true → valid_timestamp t2 = true →
  exec_job [(Answered, t1); (Answered, t2)] s (PutJob this id body uuid) =
    Some (SuccessExecutionResult, Some (PutJobResponse (new_job id body (String.string_of_list_ascii sid) t1)),
          set_rows (<[(tbl, id) := row_of (new_job id body (String.string_of_list_ascii sid) t1)]> (rows s))
            (enqueue_message msg s)).
Proof.
  intros Hid Hb Hbo Hu Hm Hnew Ht1 Ht2. unfold PutJob. rewrite bool_decide_eq_false_2 by done.
  rewrite Hu. cbn [fmap option_fmap option_map on_response]. rewrite Hm. cbn [on_response].
  erewrite exec_step; [|reflexivity|exact Ht1]. unfold OnEnqueueMessageCallback.
  rewrite Successful_success. cbn [negb].
  destruct (create_item_new (enqueue_message msg s) (new_job id body (String.string_of_list_ascii sid) t1))
    as (req & Hreq & Hc); [by constructor; try done|done|].
  match goal with |- context [CreatePutJobRequest _ ?j] =>
    change j with (new_job id body (String.string_of_list_ascii sid) t1) end.
  rewrite Hreq. cbn [on_value].
  erewrite exec_step; [|exact Hc|done].
  unfold OnCreateNewJobItemCallback. rewrite Successful_success. cbn [negb]. by rewrite exec_finish.
Qed.

(** The job's message is delivered: [GetNextJob] returns the job and the receipt. *)
Lemma get_next_job_runs s m msg id sid receipt job t1 t2 :
  messages s !! m = Some msg → ToJsonString id sid = Some msg → stored s (tbl, id) job →
  server_job_id job = sid → receipt ≠ "" → receipts s !! receipt = None →
  valid_timestamp t1 = true → valid_timestamp t2 = true →
  exec_job [(Top m receipt, t1); (Answered, t2)] s (GetNextJob this) =
    Some (SuccessExecutionResult, Some (GetNextJobResponse (Some job) receipt),
          mkCloud (rows s) (messages s) (<[receipt := m]> (receipts s)) (next_message s)).
Proof.
  intros Hm Hj Hst Hsid Hrc Hnew Ht1 Ht2. destruct (message_roundtrip _ _ _ Hj) as [Hne Hbody].
  unfold GetNextJob. erewrite exec_step; [|cbn [perform]; unfold top_message; rewrite Hm; cbn [mbind option_bind];
    rewrite Hnew, (bool_decide_eq_false_2 _ Hrc), bool_decide_eq_false_2 by (by intros []); reflexivity|done].
  unfold OnGetTopMessageCallback. rewrite Successful_success. cbn [negb on_response message_body receipt_info].
  rewrite (bool_decide_eq_false_2 _ Hne), Hbody. cbn [on_response].
  set (s' := mkCloud (rows s) (messages s) (<[receipt := m]> (receipts s)) (next_message s)).
  destruct (get_item_stored s' id job sid Hst Hsid) as [Hget _].
  erewrite exec_step; [|cbn [perform answered]; rewrite Hget; reflexivity|done].
  unfold OnGetNextJobItemCallback. rewrite Successful_success. cbn [negb on_response].
  rewrite (stored_convert _ _ _ _ Hst). cbn [on_value]. by rewrite exec_finish.
Qed.

(** *** UpdateJobStatus *)

Definition allowed (current update : Z) : bool :=
  ((current =? JOB_STATUS_CREATED)%Z || (current =? JOB_STATUS_PROCESSING)%Z) &&
  ((update =? JOB_STATUS_PROCESSING)%Z || (update =? JOB_STATUS_FAILURE)%Z || (update =? JOB_STATUS_SUCCESS)%Z).

Lemma ValidateJobStatus_allowed current update :
  ValidateJobStatus current update =
    if allowed current update then SuccessExecutionResult
    else FailureExecutionResult SC_JOB_CLIENT_PROVIDER_INVALID_JOB_STATUS.
Proof.
  unfold ValidateJobStatus, allowed, allowed_status_to_update, assoc_find. cbn -[Z.eqb elem_of].
  destruct (Z.eqb_spec current JOB_STATUS_CREATED) as [->|Hc];
    [|destruct (Z.eqb_spec current JOB_STATUS_PROCESSING) as [->|Hp]].
  all: repeat case_decide; try congruence; cbn -[Z.eqb elem_of]; try done;
    case_bool_decide as Hin; rewrite !elem_of_cons, elem_of_nil in Hin;
    destruct (Z.eqb_spec update JOB_STATUS_PROCESSING), (Z.eqb_spec update JOB_STATUS_FAILURE),
      (Z.eqb_spec update JOB_STATUS_SUCCESS); cbn [orb]; naive_solver.
Qed.

Definition status_update (req : UpdateJobStatusRequest) (now : Timestamp) (retries : Z) : Job :=
  mkJob (us_job_id req) "" "" (us_job_status req) kDefaultTimestampValue now retries
    (if (us_job_status req =? JOB_STATUS_PROCESSING)%Z then now else kDefaultTimestampValue).

Definition with_row (id : string) (job : Job) (s : Cloud) : Cloud :=
  set_rows (<[(tbl, id) := row_of job]> (rows s)) s.

Lemma upsert_status_runs s req job now retries t2 t3 :
  stored s (tbl, us_job_id req) job → valid_timestamp now = true → valid_timestamp t2 = true →
  valid_timestamp t3 = true → (0 ≤ retries < 2 ^ 31)%Z →
  (JOB_STATUS_PROCESSING ≤ us_job_status req ≤ JOB_STATUS_SUCCESS)%Z →
  let s1 := with_row (us_job_id req) (apply_update (status_update req now retries) job) s in
  exec_job [(Answered, t2); (Answered, t3)] s (UpsertUpdatedJobStatusJobItem this req now retries) =
    Some (SuccessExecutionResult, Some (UpdateJobStatusResponse (us_job_status req) now retries),
          if (us_job_status req =? JOB_STATUS_PROCESSING)%Z then s1 else delete_message (us_receipt_info req) s1).
Proof.
  intros Hst Hn Ht2 Ht3 Hr Hstat s1.
  destruct (upsert_item_stored tbl (status_update req now retries) s job) as (rq & Hrq & Hup);
    [|done|].
  { constructor; try done; [by right|]. cbn. by destruct (_ =? _)%Z. }
  unfold UpsertUpdatedJobStatusJobItem.
  match goal with |- context [CreateUpsertJobRequest _ ?j] => change j with (status_update req now retries) end.
  rewrite Hrq. cbn [on_value]. erewrite exec_step; [|exact Hup|done].
  unfold OnUpsertUpdatedJobStatusJobItemCallback. rewrite Successful_success. cbn [negb].
  unfold JOB_STATUS_PROCESSING, JOB_STATUS_SUCCESS, JOB_STATUS_FAILURE in *.
  destruct (Z.eqb_spec (us_job_status req) 2) as [E|E].
  - rewrite E. cbn [Z.eqb Pos.eqb orb]. unfold update_status_response. rewrite exec_finish. by rewrite E.
  - replace ((us_job_status req =? 3)%Z || (us_job_status req =? 4)%Z) with true by lia.
    unfold DeleteJobMessageForUpdatingJobStatus. erewrite exec_step; [|reflexivity|done].
    unfold OnDeleteJobMessageForUpdatingJobStatusCallback. rewrite Successful_success. cbn [negb].
    unfold update_status_response. by rewrite exec_finish.
Qed.

(** What [UpdateJobStatus] does with a job that is stored, when the services do not fail: a request
    that does not know the latest update is rejected as a conflict; a change that the life of a job
    does not have is rejected; otherwise the job gets the status and the time of the update, its
    retries are counted when processing begins, and its message is deleted when it is finished. *)
Theorem update_job_status_spec s req job t1 t2 t3 :
  us_job_id req ≠ "" → us_receipt_info req ≠ "" → stored s (tbl, us_job_id req) job →
  (retry_count job < 2 ^ 31 - 1)%Z →
  valid_timestamp t1 = true → valid_timestamp t2 = true → valid_timestamp t3 = true →
  let retries := if (us_job_status req =? JOB_STATUS_PROCESSING)%Z then (retry_count job + 1)%Z else retry_count job in
  let s1 := with_row (us_job_id req) (apply_update (status_update req t1 retries) job) s in
  exec_job [(Answered, t1); (Answered, t2); (Answered, t3)] s (UpdateJobStatus this req) =
    Some (if timestamp_gtb (updated_time job) (us_most_recent_updated_time req)
          then (FailureExecutionResult SC_JOB_CLIENT_PROVIDER_UPDATION_CONFLICT, None, s)
          else if negb (allowed (job_status job) (us_job_status req))
          then (FailureExecutionResult SC_JOB_CLIENT_PROVIDER_INVALID_JOB_STATUS, None, s)
          else (SuccessExecutionResult, Some (UpdateJobStatusResponse (us_job_status req) t1 retries),
                if (us_job_status req =? JOB_STATUS_PROCESSING)%Z then s1
                else delete_message (us_receipt_info req) s1)).
Proof.
  intros Hid Hrc Hst Hmax Ht1 Ht2 Ht3 retries s1.
  assert (0 ≤ retry_count job)%Z by (destruct Hst as (_ & [] & _); lia).
  destruct (get_item_stored s (us_job_id req) job _ Hst eq_refl) as [_ Hget].
  unfold UpdateJobStatus. rewrite !bool_decide_eq_false_2 by done. cbn [andb].
  erewrite exec_step; [|cbn [perform answered]; rewrite Hget; reflexivity|done].
  unfold OnGetJobItemForUpdateJobStatusCallback. rewrite Successful_success. cbn [negb on_response].
  rewrite (stored_convert _ _ _ _ Hst). cbn [on_value].
  destruct (timestamp_gtb _ _); [apply exec_finish|]. rewrite ValidateJobStatus_allowed.
  destruct (allowed _ _) eqn:Ha; [|apply exec_finish]. rewrite Successful_success. cbn [negb].
  assert (JOB_STATUS_PROCESSING ≤ us_job_status req ≤ JOB_STATUS_SUCCESS)%Z as Hrange.
  { unfold allowed, JOB_STATUS_PROCESSING, JOB_STATUS_FAILURE, JOB_STATUS_SUCCESS in *. lia. }
  destruct (Z.eqb_spec (us_job_status req) JOB_STATUS_PROCESSING) as [E|E].
  - rewrite (proj2 (Z.eqb_neq (retry_count job) (2 ^ 31 - 1))) by lia.
    rewrite upsert_status_runs with (job := job) by (done || lia). by rewrite E.
  - replace ((us_job_status req =? JOB_STATUS_FAILURE)%Z || (us_job_status req =? JOB_STATUS_SUCCESS)%Z)
      with true by (unfold JOB_STATUS_PROCESSING, JOB_STATUS_FAILURE, JOB_STATUS_SUCCESS in *; lia).
    rewrite upsert_status_runs with (job := job) by (done || lia).
    by rewrite (proj2 (Z.eqb_neq _ _) E).
Qed.

(** *** The life of a job *)

Lemma stored_insert id job s m :
  rows s = <[(tbl, id) := row_of job]> m → job_ok job → job_id job = id → stored s (tbl, id) job.
Proof. intros E Hok Hid. split; [|done]. by rewrite E, lookup_insert_eq. Qed.

Lemma new_job_ok id body sid now :
  body ≠ "" → body_ok body = true → valid_timestamp now = true → job_ok (new_job id body sid now).
Proof. intros. by constructor. Qed.

(** A job that is put, taken from the queue and finished: the client that takes it gets exactly
    what was put, with the receipt; afterwards the job is stored with its outcome and its message is
    gone, so that it is never delivered again. *)
Theorem job_lifecycle s id body uuid sid msg receipt outcome t1 t2 recent :
  id ≠ "" → body ≠ "" → body_ok body = true → receipt ≠ "" →
  UuidLib.ToString uuid = Some sid → ToJsonString id (String.string_of_list_ascii sid) = Some msg →
  rows s !! (tbl, id) = None → receipts s !! receipt = None →
  valid_timestamp t1 = true → valid_timestamp t2 = true → timestamp_gtb t1 recent = false →
  outcome = JOB_STATUS_SUCCESS ∨ outcome = JOB_STATUS_FAILURE →
  let job := new_job id body (String.string_of_list_ascii sid) t1 in
  ∃ s1 s2 s3 job',
    exec_job [(Answered, t1); (Answered, t1)] s (PutJob this id body uuid) =
      Some (SuccessExecutionResult, Some (PutJobResponse job), s1) ∧
    exec_job [(Top (next_message s) receipt, t1); (Answered, t1)] s1 (GetNextJob this) =
      Some (SuccessExecutionResult, Some (GetNextJobResponse (Some job) receipt), s2) ∧
    exec_job [(Answered, t2); (Answered, t2); (Answered, t2)] s2
        (UpdateJobStatus this (mkUpdateStatus id outcome recent receipt)) =
      Some (SuccessExecutionResult, Some (UpdateJobStatusResponse outcome t2 0), s3) ∧
    stored s3 (tbl, id) job' ∧ job_status job' = outcome ∧ job_body job' = body ∧
    messages s3 = delete (next_message s) (<[next_message s := msg]> (messages s)).
Proof.
  intros Hid Hb Hbo Hrc Hu Hm Hnew Hnewr Ht1 Ht2 Hrec Hout job.
  assert ((outcome =? JOB_STATUS_PROCESSING)%Z = false ∧ allowed JOB_STATUS_CREATED outcome = true) as [Hne Hall]
    by (by destruct Hout as [-> | ->]).
  pose proof (new_job_ok id body (String.string_of_list_ascii sid) t1 Hb Hbo Ht1) as Hok. fold job in Hok.
  eexists _, _, _, (apply_update (status_update (mkUpdateStatus id outcome recent receipt) t2 0) job).
  split_and!; [by apply put_job_runs| | |..].
  - eapply get_next_job_runs; try done; [cbn; by rewrite lookup_insert_eq|by eapply stored_insert].
  - rewrite update_job_status_spec with (job := job); try done; [|by eapply stored_insert].
    cbn [us_job_id us_job_status us_most_recent_updated_time us_receipt_info].
    change (updated_time job) with t1. rewrite Hrec. change (job_status job) with JOB_STATUS_CREATED.
    by rewrite Hall, Hne.
  - destruct Hout as [-> | ->]; (eapply stored_insert; [reflexivity| |done]);
      (apply apply_update_ok; [constructor; try done; by right|done]).
  - by destruct Hout as [-> | ->].
  - done.
  - destruct Hout as [-> | ->]; cbn; by rewrite lookup_insert_eq.
Qed.

(** ** Flaws *)

(** [UpdateJobBody] leaves the retry count of its update at the default, and
    [CreateUpsertJobRequest] always writes it: the retries that were counted are lost. *)
Theorem update_body_resets_retry_count s id body job t1 t2 recent :
  id ≠ "" → body ≠ "" → body_ok body = true → stored s (tbl, id) job →
  timestamp_gtb (updated_time job) recent = false → valid_timestamp t1 = true → valid_timestamp t2 = true →
  ∃ s' job', exec_job [(Answered, t1); (Answered, t2)] s (UpdateJobBody this id body recent) =
      Some (SuccessExecutionResult, Some (UpdateJobBodyResponse t1), s') ∧
    stored s' (tbl, id) job' ∧ job_body job' = body ∧ job_status job' = job_status job ∧ retry_count job' = 0%Z.
Proof.
  intros Hid Hb Hbo Hst Hrec Ht1 Ht2.
  set (u := mkJob id "" body JOB_STATUS_UNKNOWN kDefaultTimestampValue t1 0 kDefaultTimestampValue).
  assert (update_ok u) as Hu by (constructor; try done; by left).
  destruct (upsert_item_stored tbl u s job Hu Hst) as (rq & Hrq & Hup).
  destruct (get_item_stored s id job _ Hst eq_refl) as [_ Hget].
  exists (with_row id (apply_update u job) s), (apply_update u job). split_and!.
  - unfold UpdateJobBody. rewrite bool_decide_eq_false_2 by done.
    erewrite exec_step; [|cbn [perform answered]; rewrite Hget; reflexivity|done].
    unfold OnGetJobItemForUpdateJobBodyCallback. rewrite Successful_success. cbn [negb on_response].
    rewrite (stored_convert _ _ _ _ Hst). cbn [on_value]. rewrite Hrec. fold u. rewrite Hrq. cbn [on_value].
    erewrite exec_step; [|exact Hup|done]. unfold OnUpsertUpdatedJobBodyJobItemCallback.
    rewrite Successful_success. apply exec_finish.
  - destruct Hst as (_ & Hok & Hjid). eapply stored_insert; [reflexivity|by apply apply_update_ok|done].
  - cbn. unfold set_if. by rewrite bool_decide_eq_false_2.
  - done.
  - done.
Qed.

(** [Base64Encode] fails on the empty string, after [PutJob] has put the message into the queue: the
    operation fails, and the message stays without a job. *)
Theorem put_empty_body_leaves_message s id uuid sid msg t1 :
  id ≠ "" → UuidLib.ToString uuid = Some sid →
  ToJsonString id (String.string_of_list_ascii sid) = Some msg → valid_timestamp t1 = true →
  exec_job [(Answered, t1)] s (PutJob this id "" uuid) =
    Some (FailureExecutionResult SC_CORE_UTILS_INVALID_INPUT, None, enqueue_message msg s).
Proof.
  intros Hid Hu Hm Ht1. unfold PutJob. rewrite bool_decide_eq_false_2 by done.
  rewrite Hu. cbn [fmap option_fmap option_map on_response]. rewrite Hm. cbn [on_response].
  erewrite exec_step; [|reflexivity|exact Ht1]. unfold OnEnqueueMessageCallback.
  rewrite Successful_success. cbn [negb]. unfold CreatePutJobRequest. cbn [job_body CreateJob].
  rewrite base64_encode_empty. apply exec_finish.
Qed.
End runs.

(** ** Instances of the libraries

    Texts for times and objects that can be read back, which show that the
    laws of [TimeUtil] and [Json] can hold. *)

Module Texts.
Fixpoint digits (p : positive) : string :=
  match p with xH => "1" | xO p => String "0" (digits p) | xI p => String "1" (digits p) end.

Fixpoint parse_digits (s : string) : option positive :=
  match s with
  | EmptyString => None
  | String "1" EmptyString => Some xH
  | String "0" s => xO <$> parse_digits s
  | String "1" s => xI <$> parse_digits s
  | _ => None
  end.

Lemma parse_digits_digits p : parse_digits (digits p) = Some p.
Proof.
  induction p as [p IH|p IH|]; [| |done].
  - change (digits p~1) with (String "1" (digits p)). destruct (digits p) eqn:E; [by destruct p|].
    change (xI <$> parse_digits (String a s) = Some p~1%positive). by rewrite IH.
  - cbn. by rewrite IH.
Qed.

Definition time_text (t : Timestamp) : string := digits (encode (seconds t, nanos t)).
Definition text_time (s : string) : option Timestamp :=
  p ← parse_digits s; '(a, b) ← decode p; Some (mkTimestamp a b).

Lemma text_time_roundtrip t : valid_timestamp t = true → text_time (time_text t) = Some t.
Proof.
  intros _. unfold text_time, time_text. rewrite parse_digits_digits. cbn.
  rewrite decode_encode. by destruct t.
Qed.

#[export] Instance times : TimeUtil :=
  {| time_ToString := time_text; time_FromString := text_time; time_roundtrip := text_time_roundtrip |}.

Definition dump (o : list (string * string)) : option string := Some (digits (encode o)).
Definition member (s k : string) : option string :=
  p ← parse_digits s; o ← decode p; (list_to_map o : gmap string string) !! k.

Lemma dump_member o s k v : NoDup o.*1 → dump o = Some s → (k, v) ∈ o → member s k = Some v.
Proof.
  intros Hnd [= <-] Hin. unfold member. rewrite parse_digits_digits. cbn. rewrite decode_encode. cbn.
  by apply elem_of_list_to_map_1.
Qed.

Lemma dump_nonempty o s : dump o = Some s → s ≠ "".
Proof. intros [= <-]. by destruct (encode o). Qed.

#[export] Instance json : Json :=
  {| json_dump := dump; json_member := member; json_dump_member := dump_member; json_dump_nonempty := dump_nonempty |}.
End Texts.
Import Texts Rfc4648.

Definition client : JobClientProvider := mkProvider (Some "") "jobs" AwsConvertDatabaseErrorForPutJob.
Definition clock (n : Z) : Timestamp := mkTimestamp n 0.
Definition some_uuid : Uuid := mkUuid 1 2.

(** ** Two workers

    A job is created and delivered to two workers, as queues may do.  Both ask
    for a change of its status at the same time. *)

Abbreviation JobEvent := (AsyncEvent Answer Response Timestamp Choice).

Definition step_through (i n : nat) (now : Z) : list JobEvent :=
  mjoin (replicate n [Step i (Accept Answered); Reply i (clock now)]).

(** Operation 0 puts the job at time 10 and operation 1 takes it from the queue; operation 2
    (PROCESSING) and operation 3 (SUCCESS) both read it; operation 3 goes on to its end; operation 2
    goes on. *)
Definition two_workers : list JobEvent :=
  [Submit (PutJob client "a" "body" some_uuid)] ++ step_through 0 2 10 ++
  [Submit (GetNextJob client); Step 1 (Accept (Top 0 "r")); Reply 1 (clock 11)] ++ step_through 1 1 11 ++
  [Submit (UpdateJobStatus client (mkUpdateStatus "a" JOB_STATUS_PROCESSING (clock 10) "r"));
   Submit (UpdateJobStatus client (mkUpdateStatus "a" JOB_STATUS_SUCCESS (clock 10) "r"));
   Step 2 (Accept Answered); Step 3 (Accept Answered)] ++
  [Reply 3 (clock 20)] ++ step_through 3 2 20 ++
  [Reply 2 (clock 21)] ++ step_through 2 1 21.

Definition status_in (s : Cloud) (id : string) : option AttributeValue :=
  rows s !! ("jobs", id) ≫= λ row, row !! kJobStatusColumnName.

Definition outcome_of (evs : list JobEvent) : option (list (list ExecutionResult) * option AttributeValue * nat) :=
  (λ r, ((λ o, (finishes o).*1) <$> operations r.2, status_in (services r.2) "a", size (messages (services r.2)))) <$>
  run_ops (async_step (perform SC_NO_SQL_DATABASE_PROVIDER_CONDITIONAL_CHECKED_FAILED) valid_timestamp)
    no_jobs evs.


(** A provider that finishes the context of a call and returns the failure as well, as the methods
    of the job client itself and of the AWS providers do, makes the callbacks of the job client finish
    their caller's context twice. *)
Theorem failing_call_finishes_twice :
  outcome_of [Submit (GetNextJob client); Submit (PutJob client "a" "body" some_uuid);
              Step 1 (Accept Answered); Reply 1 (clock 10);
              Step 1 (RefuseAndFinish (FailureExecutionResult 7) (clock 11))] =
  Some ([[]; [FailureExecutionResult SC_JOB_CLIENT_PROVIDER_JOB_ENTRY_CREATION_FAILED; FailureExecutionResult 7]],
        None, 1).
Proof. vm_compute. reflexivity. Qed.

(** ** Witnesses *)

Lemma client_events_two_workers : client_events client two_workers.
Proof.
  intros p Hp. unfold two_workers, step_through in Hp. cbn [replicate mjoin list_join app] in Hp.
  rewrite !elem_of_cons, elem_of_nil in Hp.
  destruct_or!; try done; injection Hp as ->.
  - by exists (RPutJob "a" "body" some_uuid).
  - by exists RGetNextJob.
  - by exists (RUpdateJobStatus (mkUpdateStatus "a" JOB_STATUS_PROCESSING (clock 10) "r")).
  - by exists (RUpdateJobStatus (mkUpdateStatus "a" JOB_STATUS_SUCCESS (clock 10) "r")).
Qed.

Definition aws_duplicate : Z := SC_NO_SQL_DATABASE_PROVIDER_CONDITIONAL_CHECKED_FAILED.

Definition run_jobs (w : World Answer Response Timestamp Cloud) (evs : list JobEvent) :=
  run_ops (async_step (perform aws_duplicate) valid_timestamp) w evs.

(** The row of job [a] after a run. *)
Definition row_a (evs : list JobEvent) : option Row :=
  run_jobs no_jobs evs ≫= λ r, rows (services r.2) !! ("jobs", "a").

Lemma row_a_two_workers : bool_decide (is_Some (row_a two_workers)) = true.
Proof. vm_compute. reflexivity. Qed.

Lemma job_table_well_typed_witness :
  ∃ rs w row job, run_jobs no_jobs two_workers = Some (rs, w) ∧
    rows (services w) !! ("jobs", "a") = Some row ∧
    ConvertDatabaseItemToJob (item_of (jobs_key "jobs" "a") row) = Some (HasValue job) ∧ job_id job = "a".
Proof.
  destruct (proj1 (bool_decide_eq_true _) row_a_two_workers) as [row Hrow]. unfold row_a in Hrow.
  destruct (run_jobs no_jobs two_workers) as [[rs w]|] eqn:E; [|discriminate].
  destruct (job_table_well_typed client aws_duplicate two_workers rs w client_events_two_workers E
    "jobs" "a" row Hrow) as (job & Hj & Hid & _).
  exists rs, w, row, job. exact (conj eq_refl (conj Hrow (conj Hj Hid))).
Defined.

Definition put_a : list JobEvent := [Submit (PutJob client "a" "body" some_uuid)] ++ step_through 0 2 10.
Definition process_a : list JobEvent :=
  [Submit (UpdateJobStatus client (mkUpdateStatus "a" JOB_STATUS_PROCESSING (clock 10) ""))] ++ step_through 1 2 20.

Definition uuid_text : string := default "" (String.string_of_list_ascii <$> UuidLib.ToString some_uuid).
Definition job_a : Job := new_job "a" "body" uuid_text (clock 10).

Lemma job_a_ok : job_ok job_a.
Proof. by constructor. Qed.

Lemma put_a_events : client_events client put_a.
Proof.
  intros p Hp. unfold put_a, step_through in Hp. cbn [replicate mjoin list_join app] in Hp.
  rewrite !elem_of_cons, elem_of_nil in Hp. destruct_or!; try done; injection Hp as ->.
  by exists (RPutJob "a" "body" some_uuid).
Qed.

Lemma process_a_events : client_events client process_a.
Proof.
  intros p Hp. unfold process_a, step_through in Hp. cbn [replicate mjoin list_join app] in Hp.
  rewrite !elem_of_cons, elem_of_nil in Hp. destruct_or!; try done; injection Hp as ->.
  by exists (RUpdateJobStatus (mkUpdateStatus "a" JOB_STATUS_PROCESSING (clock 10) "")).
Qed.

Lemma row_a_put_a : bool_decide (row_a put_a = Some (row_of job_a)) = true.
Proof. vm_compute. reflexivity. Qed.

Lemma process_a_runs : bool_decide (is_Some (row_a (put_a ++ process_a))) = true.
Proof. vm_compute. reflexivity. Qed.

Lemma job_identity_is_stable_witness :
  ∃ rs w rs' w' job', run_jobs no_jobs put_a = Some (rs, w) ∧ run_jobs w process_a = Some (rs', w') ∧
    stored (services w') ("jobs", "a") job' ∧ created_time job' = clock 10.
Proof.
  pose proof (proj1 (bool_decide_eq_true _) row_a_put_a) as Hrow. unfold row_a in Hrow.
  pose proof (proj1 (bool_decide_eq_true _) process_a_runs) as Hrun. unfold row_a, run_jobs in Hrun.
  rewrite run_ops_app in Hrun. fold (run_jobs no_jobs put_a) in Hrun.
  destruct (run_jobs no_jobs put_a) as [[rs w]|] eqn:E; [|discriminate]. cbn [mbind option_bind] in Hrun.
  fold (run_jobs w process_a) in Hrun.
  destruct (run_jobs w process_a) as [[rs' w']|] eqn:E'; [|by destruct Hrun].
  destruct (job_identity_is_stable client aws_duplicate put_a rs w process_a rs' w' ("jobs", "a") job_a
    put_a_events E process_a_events E' (conj Hrow (conj job_a_ok eq_refl))) as (job' & Hst' & _ & Hc & _).
  exists rs, w, rs', w', job'. exact (conj eq_refl (conj E' (conj Hst' Hc))).
Defined.

Definition job_done : Job :=
  mkJob "a" "s" "body" JOB_STATUS_SUCCESS (clock 10) (clock 20) 1 (clock 15).
Definition cloud_with (job : Job) : Cloud := mkCloud {[("jobs", job_id job) := row_of job]} ∅ ∅ 0.

Lemma cloud_with_stored job : job_ok job → stored (cloud_with job) ("jobs", job_id job) job.
Proof. intros Hok. split; [|done]. apply lookup_singleton_eq. Qed.

Lemma cloud_with_ok job : job_ok job → rows_ok (cloud_with job).
Proof.
  intros Hok key row Hr. cbn in Hr. apply lookup_singleton_Some in Hr as [<- <-]. by exists job.
Qed.

Lemma job_done_ok : job_ok job_done.
Proof. by constructor. Qed.

Definition late_update : list (Request * list (Choice * Timestamp)) :=
  [(RUpdateJobStatus (mkUpdateStatus "a" JOB_STATUS_PROCESSING (clock 20) ""), [(Answered, clock 30)])].

Lemma late_update_ok r env : (r, env) ∈ late_update → request_ok r = true.
Proof. by intros [= -> ->]%list_elem_of_singleton. Qed.

Lemma late_update_runs : bool_decide (is_Some (rows <$> exec_all client aws_duplicate late_update (cloud_with job_done))) = true.
Proof. vm_compute. reflexivity. Qed.

Lemma finished_job_stays_finished_witness :
  ∃ s' job', exec_all client aws_duplicate late_update (cloud_with job_done) = Some s' ∧
    stored s' ("jobs", "a") job' ∧ job_status job' = JOB_STATUS_SUCCESS.
Proof.
  pose proof (proj1 (bool_decide_eq_true _) late_update_runs) as Hrun.
  destruct (exec_all client aws_duplicate late_update (cloud_with job_done)) as [s'|] eqn:E; [|by destruct Hrun].
  destruct (finished_job_stays_finished client aws_duplicate late_update (cloud_with job_done) s' ("jobs", "a") job_done
    (cloud_with_ok _ job_done_ok) late_update_ok E (cloud_with_stored _ job_done_ok) (or_introl eq_refl))
    as (job' & Hst & Hj).
  exists s', job'. exact (conj eq_refl (conj Hst Hj)).
Defined.

Lemma update_job_status_spec_witness :
  exec (perform aws_duplicate) valid_timestamp [(Answered, clock 20); (Answered, clock 20); (Answered, clock 20)]
    (cloud_with job_a) (UpdateJobStatus client (mkUpdateStatus "a" JOB_STATUS_CREATED (clock 10) "r")) =
  Some (FailureExecutionResult SC_JOB_CLIENT_PROVIDER_INVALID_JOB_STATUS, None, cloud_with job_a).
Proof.
  rewrite (update_job_status_spec client aws_duplicate (cloud_with job_a)
    (mkUpdateStatus "a" JOB_STATUS_CREATED (clock 10) "r") job_a _ _ _ ltac:(discriminate) ltac:(discriminate)
    (cloud_with_stored job_a job_a_ok)); done.
Defined.

Lemma job_lifecycle_witness :
  ∃ s3 job', stored (H := base64) (H0 := times) s3 ("jobs", "a") job' ∧ job_status job' = JOB_STATUS_FAILURE ∧
    messages s3 !! 0 = None.
Proof.
  destruct (job_lifecycle client aws_duplicate empty_cloud "a" "body" some_uuid
    (default [] (UuidLib.ToString some_uuid)) (default "" (ToJsonString "a" uuid_text)) "r"
    JOB_STATUS_FAILURE (clock 10) (clock 20) (clock 10)) as (s1 & s2 & s3 & job' & _ & _ & _ & Hst & Hj & _ & Hm);
    try done; [by right|].
  exists s3, job'. split; [exact Hst|]. split; [exact Hj|]. rewrite Hm. apply lookup_delete_eq.
Defined.

Lemma update_body_resets_retry_count_witness :
  ∃ s' job', stored (H := base64) (H0 := times) s' ("jobs", "a") job' ∧
    retry_count job_done = 1%Z ∧ retry_count job' = 0%Z.
Proof.
  destruct (update_body_resets_retry_count client aws_duplicate (cloud_with job_done) "a" "new" job_done
    (clock 30) (clock 30) (clock 20) ltac:(discriminate) ltac:(discriminate) eq_refl (cloud_with_stored _ job_done_ok)
    eq_refl eq_refl eq_refl) as (s' & job' & _ & Hst & _ & _ & Hr).
  exists s', job'. exact (conj Hst (conj eq_refl Hr)).
Defined.

Lemma put_empty_body_leaves_message_witness :
  ∃ s', exec (perform aws_duplicate) valid_timestamp [(Answered, clock 10)] empty_cloud (PutJob client "a" "" some_uuid) =
    Some (FailureExecutionResult SC_CORE_UTILS_INVALID_INPUT, None, s') ∧ size (messages s') = 1.
Proof.
  eexists. split.
  - apply (put_empty_body_leaves_message client aws_duplicate empty_cloud "a" some_uuid
      (default [] (UuidLib.ToString some_uuid)) (default "" (ToJsonString "a" uuid_text)) (clock 10)); done.
  - vm_compute. reflexivity.
Defined.
