(* ===== verification/Queue.v ===== *)
(** * Queue: what the queue clients have in common

    The calls of a queue service and its messages, for the clients of
    [cc/cpio/client_providers/queue_client_provider/src]: [AwsQueue] and
    [GcpQueue].  A method tests its request and makes a call of the service, or
    schedules a task that makes it; the callback, or the rest of the task, takes
    the outcome.  Bodies and receipts pass through C strings on their way to the
    service, and with SQS on the way back as well. *)

From S2P Require Import Prelude ExecResult Utils JobClient.

Local Open Scope string_scope.
Local Open Scope list_scope.
Local Open Scope Z_scope.

Abbreviation kMaxVisibilityTimeoutSeconds := 600.
Abbreviation kMaxNumberOfMessagesReceived := 1%nat.

(** What the clients ask of their service. *)
Inductive QueueCall :=
  | Send (body : string)
  | Receive (max_messages : nat)
  | ChangeVisibility (receipt : string) (seconds : Z)
  | Acknowledge (receipt : string).

Record QueueMessage := mkMessage { queue_message_id : string; queue_body : string; queue_receipt : string }.

(** The message's id, with what the job client uses of the response. *)
Definition top_response (m : QueueMessage) : string * GetTopMessageResponse :=
  (queue_message_id m, mkTopMessage (queue_body m) (queue_receipt m)).

Definition no_message : string * GetTopMessageResponse := ("", mkTopMessage "" "").
