(* ===== verification/AwsQueue.v ===== *)
(** * AwsQueue: messages in SQS

    Models [aws_queue_client_provider.cc] and [sqs_error_converter.cc] of
    [cc/cpio/client_providers/queue_client_provider/src/aws]. *)

From S2P Require Import Prelude ExecResult Provider Utils JobClient Queue.

Local Open Scope string_scope.
Local Open Scope list_scope.
Local Open Scope Z_scope.

Abbreviation SC_AWS_QUEUE_CLIENT_PROVIDER := 0x0227%Z (only parsing).
Abbreviation SC_AWS_QUEUE_CLIENT_PROVIDER_QUEUE_CLIENT_OPTIONS_REQUIRED := (MakeErrorCode SC_AWS_QUEUE_CLIENT_PROVIDER 0x0001).
Abbreviation SC_AWS_QUEUE_CLIENT_PROVIDER_QUEUE_NAME_REQUIRED := (MakeErrorCode SC_AWS_QUEUE_CLIENT_PROVIDER 0x0002).
Abbreviation SC_AWS_QUEUE_CLIENT_PROVIDER_INVALID_MESSAGE := (MakeErrorCode SC_AWS_QUEUE_CLIENT_PROVIDER 0x0003).
Abbreviation SC_AWS_QUEUE_CLIENT_PROVIDER_MESSAGES_NUMBER_EXCEEDED := (MakeErrorCode SC_AWS_QUEUE_CLIENT_PROVIDER 0x0004).
Abbreviation SC_AWS_QUEUE_CLIENT_PROVIDER_INVALID_RECEIPT_INFO := (MakeErrorCode SC_AWS_QUEUE_CLIENT_PROVIDER 0x0005).
Abbreviation SC_AWS_QUEUE_CLIENT_PROVIDER_INVALID_VISIBILITY_TIMEOUT := (MakeErrorCode SC_AWS_QUEUE_CLIENT_PROVIDER 0x0006).
Abbreviation SC_AWS_QUEUE_CLIENT_PROVIDER_MESSAGE_NOT_IN_FLIGHT := (MakeErrorCode SC_AWS_QUEUE_CLIENT_PROVIDER 0x0007).

(** The members of [SQSErrors] that the code names. *)
Inductive SQSErrors :=
  | VALIDATION | ACCESS_DENIED | INVALID_CLIENT_TOKEN_ID | INVALID_PARAMETER_COMBINATION | INVALID_QUERY_PARAMETER
  | INVALID_PARAMETER_VALUE | MALFORMED_QUERY_STRING | SERVICE_UNAVAILABLE | NETWORK_CONNECTION | THROTTLING | OVER_LIMIT
  | INVALID_MESSAGE_CONTENTS | MESSAGE_NOT_INFLIGHT | RECEIPT_HANDLE_IS_INVALID | INVALID_ID_FORMAT | INTERNAL_FAILURE
  | OTHER_ERROR.

Definition ConvertSqsError (error : SQSErrors) : ExecutionResult :=
  match error with
  | VALIDATION => FailureExecutionResult SC_AWS_VALIDATION_FAILED
  | ACCESS_DENIED | INVALID_CLIENT_TOKEN_ID => FailureExecutionResult SC_AWS_INVALID_CREDENTIALS
  | INVALID_PARAMETER_COMBINATION | INVALID_QUERY_PARAMETER | INVALID_PARAMETER_VALUE | MALFORMED_QUERY_STRING =>
      FailureExecutionResult SC_AWS_INVALID_REQUEST
  | SERVICE_UNAVAILABLE | NETWORK_CONNECTION => FailureExecutionResult SC_AWS_SERVICE_UNAVAILABLE
  | THROTTLING | OVER_LIMIT => FailureExecutionResult SC_AWS_REQUEST_LIMIT_REACHED
  | INVALID_MESSAGE_CONTENTS => FailureExecutionResult SC_AWS_QUEUE_CLIENT_PROVIDER_INVALID_MESSAGE
  | MESSAGE_NOT_INFLIGHT => FailureExecutionResult SC_AWS_QUEUE_CLIENT_PROVIDER_MESSAGE_NOT_IN_FLIGHT
  | RECEIPT_HANDLE_IS_INVALID | INVALID_ID_FORMAT => FailureExecutionResult SC_AWS_QUEUE_CLIENT_PROVIDER_INVALID_RECEIPT_INFO
  | INTERNAL_FAILURE | OTHER_ERROR => FailureExecutionResult SC_AWS_INTERNAL_SERVICE_ERROR
  end.

Definition GetQueueUrl (outcome : SQSErrors + string) : ExecutionResultOr string :=
  match outcome with inl e => HasResult (ConvertSqsError e) | inr url => HasValue (c_str url) end.

(** [queue_name]: of the options, if there are any.  The result, and [queue_url_]; [result()] of a value is a
    success. *)
Definition Run {Client} (queue_name : option string) (region : ExecutionResult + string) (CreateSqsClient : string → Client)
    (queue_url : Client → SQSErrors + string) : ExecutionResult * string :=
  match queue_name with
  | None => (FailureExecutionResult SC_AWS_QUEUE_CLIENT_PROVIDER_QUEUE_CLIENT_OPTIONS_REQUIRED, "")
  | Some n =>
      if bool_decide (n = "") then (FailureExecutionResult SC_AWS_QUEUE_CLIENT_PROVIDER_QUEUE_NAME_REQUIRED, "")
      else match region with
           | inl r => (r, "")
           | inr code =>
               match GetQueueUrl (queue_url (CreateSqsClient code)) with
               | HasResult r => (r, "")
               | HasValue url => (SuccessExecutionResult, url)
               end
           end
  end.

Definition EnqueueMessage (message_body : string) : Started QueueCall :=
  if bool_decide (message_body = "") then Rejected (FailureExecutionResult SC_AWS_QUEUE_CLIENT_PROVIDER_INVALID_MESSAGE) true
  else Sent (Send (c_str message_body)).

Definition OnSendMessageCallback (outcome : SQSErrors + string) : ExecutionResult * option string :=
  match outcome with
  | inl e => (ConvertSqsError e, None)
  | inr message_id => (SuccessExecutionResult, Some (c_str message_id))
  end.

Definition GetTopMessage : Started QueueCall := Sent (Receive kMaxNumberOfMessagesReceived).

Definition OnReceiveMessageCallback (outcome : SQSErrors + list QueueMessage)
  : ExecutionResult * option (string * GetTopMessageResponse) :=
  match outcome with
  | inl e => (ConvertSqsError e, None)
  | inr [] => (SuccessExecutionResult, Some no_message)
  | inr [m] =>
      (SuccessExecutionResult,
       Some (top_response (mkMessage (c_str (queue_message_id m)) (c_str (queue_body m)) (c_str (queue_receipt m)))))
  | inr (_ :: _ :: _) => (FailureExecutionResult SC_AWS_QUEUE_CLIENT_PROVIDER_MESSAGES_NUMBER_EXCEEDED, None)
  end.

Definition UpdateMessageVisibilityTimeout (receipt_info : string) (lifetime : Z) : Started QueueCall :=
  if bool_decide (receipt_info = "") then Rejected (FailureExecutionResult SC_AWS_QUEUE_CLIENT_PROVIDER_INVALID_RECEIPT_INFO) true
  else if (lifetime <? 0) || (kMaxVisibilityTimeoutSeconds <? lifetime)
  then Rejected (FailureExecutionResult SC_AWS_QUEUE_CLIENT_PROVIDER_INVALID_VISIBILITY_TIMEOUT) true
  else Sent (ChangeVisibility (c_str receipt_info) lifetime).

(** The responses of the two operations stay null. *)
Definition OnChangeMessageVisibilityCallback (outcome : SQSErrors + unit) : ExecutionResult :=
  match outcome with inl e => ConvertSqsError e | inr _ => SuccessExecutionResult end.

Definition DeleteMessage (receipt_info : string) : Started QueueCall :=
  if bool_decide (receipt_info = "") then Rejected (FailureExecutionResult SC_AWS_QUEUE_CLIENT_PROVIDER_INVALID_RECEIPT_INFO) true
  else Sent (Acknowledge (c_str receipt_info)).

Definition OnDeleteMessageCallback (outcome : SQSErrors + unit) : ExecutionResult :=
  match outcome with inl e => ConvertSqsError e | inr _ => SuccessExecutionResult end.
