(* ===== verification/GcpQueue.v ===== *)
(** * GcpQueue: messages in Pub/Sub

    Models [gcp_queue_client_provider.cc] of
    [cc/cpio/client_providers/queue_client_provider/src/gcp]. *)

From S2P Require Import Prelude ExecResult GcpStatus Provider Utils JobClient Queue.

Local Open Scope string_scope.
Local Open Scope list_scope.
Local Open Scope Z_scope.

Abbreviation SC_GCP_QUEUE_CLIENT_PROVIDER := 0x0224%Z (only parsing).
Abbreviation SC_GCP_QUEUE_CLIENT_PROVIDER_QUEUE_CLIENT_OPTIONS_REQUIRED := (MakeErrorCode SC_GCP_QUEUE_CLIENT_PROVIDER 0x0001).
Abbreviation SC_GCP_QUEUE_CLIENT_PROVIDER_QUEUE_NAME_REQUIRED := (MakeErrorCode SC_GCP_QUEUE_CLIENT_PROVIDER 0x0002).
Abbreviation SC_GCP_QUEUE_CLIENT_PROVIDER_PUBLISHER_REQUIRED := (MakeErrorCode SC_GCP_QUEUE_CLIENT_PROVIDER 0x0004).
Abbreviation SC_GCP_QUEUE_CLIENT_PROVIDER_SUBSCRIBER_REQUIRED := (MakeErrorCode SC_GCP_QUEUE_CLIENT_PROVIDER 0x0005).
Abbreviation SC_GCP_QUEUE_CLIENT_PROVIDER_INVALID_MESSAGE := (MakeErrorCode SC_GCP_QUEUE_CLIENT_PROVIDER 0x0006).
Abbreviation SC_GCP_QUEUE_CLIENT_PROVIDER_INVALID_VISIBILITY_TIMEOUT := (MakeErrorCode SC_GCP_QUEUE_CLIENT_PROVIDER 0x0007).
Abbreviation SC_GCP_QUEUE_CLIENT_PROVIDER_MESSAGES_NUMBER_MISMATCH := (MakeErrorCode SC_GCP_QUEUE_CLIENT_PROVIDER 0x0008).
Abbreviation SC_GCP_QUEUE_CLIENT_PROVIDER_MESSAGES_NUMBER_EXCEEDED := (MakeErrorCode SC_GCP_QUEUE_CLIENT_PROVIDER 0x0009).

Definition Init (queue_name : option string) : ExecutionResult :=
  match queue_name with
  | None => FailureExecutionResult SC_GCP_QUEUE_CLIENT_PROVIDER_QUEUE_CLIENT_OPTIONS_REQUIRED
  | Some n =>
      if bool_decide (n = "") then FailureExecutionResult SC_GCP_QUEUE_CLIENT_PROVIDER_QUEUE_NAME_REQUIRED
      else SuccessExecutionResult
  end.

(** The names of the topic and the subscription. *)
Definition Run (queue_name : string) (project : ExecutionResult + string) (has_publisher has_subscriber : bool)
  : ExecutionResult + (string * string) :=
  match project with
  | inl r => inl r
  | inr project_id =>
      if negb has_publisher then inl (FailureExecutionResult SC_GCP_QUEUE_CLIENT_PROVIDER_PUBLISHER_REQUIRED)
      else if negb has_subscriber then inl (FailureExecutionResult SC_GCP_QUEUE_CLIENT_PROVIDER_SUBSCRIBER_REQUIRED)
      else inr ("projects/" +:+ project_id +:+ "/topics/" +:+ queue_name,
                "projects/" +:+ project_id +:+ "/subscriptions/" +:+ queue_name)
  end.

Section tasks.
Variable schedule_result : ExecutionResult.

(** [EnqueueMessage] and its task up to the call. *)
Definition EnqueueMessage (message_body : string) : Started QueueCall :=
  if bool_decide (message_body = "") then Rejected (FailureExecutionResult SC_GCP_QUEUE_CLIENT_PROVIDER_INVALID_MESSAGE) true
  else scheduled schedule_result (Send (c_str message_body)).

Definition GetTopMessage : Started QueueCall := scheduled schedule_result (Receive kMaxNumberOfMessagesReceived).

Definition UpdateMessageVisibilityTimeout (receipt_info : string) (lifetime_in_seconds : Z) : Started QueueCall :=
  if bool_decide (receipt_info = "") then Rejected (FailureExecutionResult SC_GCP_QUEUE_CLIENT_PROVIDER_INVALID_MESSAGE) true
  else if (lifetime_in_seconds <? 0) || (kMaxVisibilityTimeoutSeconds <? lifetime_in_seconds)
  then Rejected (FailureExecutionResult SC_GCP_QUEUE_CLIENT_PROVIDER_INVALID_VISIBILITY_TIMEOUT) true
  else scheduled schedule_result (ChangeVisibility (c_str receipt_info) lifetime_in_seconds).

Definition DeleteMessage (receipt_info : string) : Started QueueCall :=
  if bool_decide (receipt_info = "") then Rejected (FailureExecutionResult SC_GCP_QUEUE_CLIENT_PROVIDER_INVALID_MESSAGE) true
  else scheduled schedule_result (Acknowledge (c_str receipt_info)).
End tasks.

(** What the tasks do with the status of the call and its reply. *)
Definition EnqueueMessageAsync (reply : StatusCode * list string) : ExecutionResult * option string :=
  match reply with
  | (kOk, [message_id]) => (SuccessExecutionResult, Some message_id)
  | (kOk, _) => (FailureExecutionResult SC_GCP_QUEUE_CLIENT_PROVIDER_MESSAGES_NUMBER_MISMATCH, None)
  | (status, _) => (GcpErrorConverter status, None)
  end.

Definition GetTopMessageAsync (reply : StatusCode * list QueueMessage) : ExecutionResult * option (string * GetTopMessageResponse) :=
  match reply with
  | (kOk, []) => (SuccessExecutionResult, Some no_message)
  | (kOk, [m]) => (SuccessExecutionResult, Some (top_response m))
  | (kOk, _) => (FailureExecutionResult SC_GCP_QUEUE_CLIENT_PROVIDER_MESSAGES_NUMBER_EXCEEDED, None)
  | (status, _) => (GcpErrorConverter status, None)
  end.

Definition UpdateMessageVisibilityTimeoutAsync (status : StatusCode) : ExecutionResult * option unit :=
  match status with kOk => (SuccessExecutionResult, Some tt) | _ => (GcpErrorConverter status, None) end.

Definition DeleteMessageAsync (status : StatusCode) : ExecutionResult * option unit :=
  match status with kOk => (SuccessExecutionResult, Some tt) | _ => (GcpErrorConverter status, None) end.
