(* ===== verification/QueueSpec.v ===== *)
(** * QueueSpec: the queue clients are the queue of the job client

    [QueueService] is what both SQS and Pub/Sub offer, and [QueueLaws] what their
    documentation says: a message is delivered, any number of times, until one
    of its receipts is acknowledged; a call that fails may have had its effect.
    With such a service each client does with a call of the job client what
    [JobClientSpec.perform] does for some choice of the environment. *)

From S2P Require Import AwsQueue GcpQueue.
From S2P Require Import Prelude ExecResult GcpStatus Provider Utils UuidLib AsyncProg JobClient JobClientSpec Queue.

Local Open Scope string_scope.
Local Open Scope list_scope.

(** The calls of the service, with their replies; [None] and [false] are failures. *)
Class QueueService (Q : Type) := {
  sends : Q → string → option (list string) → Q → Prop;
  receives : Q → nat → option (list QueueMessage) → Q → Prop;
  changes : Q → string → Z → bool → Q → Prop;
  acknowledges : Q → string → bool → Q → Prop;
  queue_holds : Q → Cloud → Prop
}.

Definition same_queue (s s' : Cloud) : Prop :=
  messages s' = messages s ∧ receipts s' = receipts s ∧ next_message s' = next_message s.

Class QueueLaws (Q : Type) `{!QueueService Q} := {
  holds_queue_only (q : Q) s s' : queue_holds q s → same_queue s s' → queue_holds q s';
  send_delivers (q : Q) s body reply q' : queue_holds q s → sends q body reply q' →
    match reply with
    | Some ids => length ids = 1 ∧ queue_holds q' (enqueue_message body s)
    | None => queue_holds q' s ∨ queue_holds q' (enqueue_message body s)
    end;
  receive_delivers (q : Q) s reply q' : queue_holds q s → receives q 1 reply q' →
    match reply with
    | Some [] | None => queue_holds q' s
    | Some [m] =>
        ∃ i s', top_message i (queue_receipt m) s = Some (mkTopMessage (queue_body m) (queue_receipt m), s') ∧ queue_holds q' s'
    | Some (_ :: _ :: _) => False
    end;
  change_keeps (q : Q) s receipt seconds ok q' : queue_holds q s → changes q receipt seconds ok q' → queue_holds q' s;
  acknowledge_deletes (q : Q) s receipt ok q' : queue_holds q s → acknowledges q receipt ok q' →
    if ok : bool then queue_holds q' (delete_message receipt s)
    else queue_holds q' s ∨ queue_holds q' (delete_message receipt s)
}.

(** The response to a call of the queue that the job client looks at. *)
Definition same_top (c : Call) : option (Answer c) → option (Answer c) → Prop :=
  match c with GetTopMessage => λ a a', a = a' | _ => λ _ _, True end.

Section simulation.
Context {Q : Type} `{!QueueService Q} `{!QueueLaws Q}.
Variable duplicate_code : Z.
Implicit Types (q : Q) (s : Cloud).

(** What some choice of the environment does with a call. *)
Definition performed s c r (a : option (Answer c)) q' : Prop :=
  ∃ ch a' s', perform duplicate_code s c ch = Some (r, a', s') ∧ same_top c a a' ∧ queue_holds q' s' ∧ rows s' = rows s.

Definition is_queue_call (c : Call) : Prop :=
  match c with EnqueueMessage _ | GetTopMessage | UpdateMessageVisibilityTimeout _ _ | DeleteMessage _ => True | _ => False end.

(** A failure, after the call had its effect or before. *)
Lemma performed_fault s c r a' s' q' : is_queue_call c → answered duplicate_code s c = Some (SuccessExecutionResult, a', s') →
  Successful r = false → queue_holds q' s ∨ queue_holds q' s' → performed s c r None q'.
Proof.
  intros Hc Ha Hr Hq. assert (same_top c None None) as Ht by (by destruct c).
  assert (rows s' = rows s) as Hrows by (by destruct c; simplify_eq/=).
  destruct Hq as [Hq|Hq]; [exists (Fault r false), None, s|exists (Fault r true), None, s']; cbn [perform]; rewrite Hr, Ha; done.
Qed.

Lemma performed_send s body reply q q' r a : queue_holds q s → sends q body reply q' →
  match reply with Some _ => r = SuccessExecutionResult | None => Successful r = false ∧ a = None end →
  performed s (EnqueueMessage body) r a q'.
Proof.
  intros Hq Hs Hr. pose proof (send_delivers q s body reply q' Hq Hs) as Hl. destruct reply as [ids|].
  - destruct Hl as [_ Hl]. subst r. by exists Answered, (Some tt), (enqueue_message body s).
  - destruct Hr as [Hr ->]. by eapply performed_fault.
Qed.

Lemma performed_receive s reply q q' r a : queue_holds q s → receives q 1 reply q' →
  match reply with
  | None => Successful r = false ∧ a = None
  | Some [] => r = SuccessExecutionResult ∧ a = Some (mkTopMessage "" "")
  | Some (m :: _) => r = SuccessExecutionResult ∧ a = Some (mkTopMessage (queue_body m) (queue_receipt m))
  end → performed s GetTopMessage r a q'.
Proof.
  intros Hq Hs Hr. pose proof (receive_delivers q s reply q' Hq Hs) as Hl. destruct reply as [[|m [|m' l]]|]; [..|done|].
  - destruct Hr as [-> ->]. by exists Answered, (Some (mkTopMessage "" "")), s.
  - destruct Hr as [-> ->]. destruct Hl as (i & s' & Et & Hq'). exists (Top i (queue_receipt m)), (Some (mkTopMessage (queue_body m) (queue_receipt m))), s'.
    split; [|split; [done|split; [done|]]].
    + cbn [perform]. by rewrite Et.
    + unfold top_message in Et. destruct (messages s !! i); [|done]. cbn in Et. destruct (_ || _); [done|]. by injection Et as _ <-.
  - destruct Hr as [Hr ->]. by eapply performed_fault; [..|left].
Qed.

Lemma performed_change s receipt seconds ok q q' r a : queue_holds q s → changes q receipt seconds ok q' →
  (if ok : bool then r = SuccessExecutionResult else Successful r = false ∧ a = None) →
  performed s (UpdateMessageVisibilityTimeout receipt seconds) r a q'.
Proof.
  intros Hq Hs Hr. pose proof (change_keeps q s receipt seconds ok q' Hq Hs) as Hl. destruct ok.
  - subst r. by exists Answered, (Some tt), s.
  - destruct Hr as [Hr ->]. by eapply performed_fault; [..|left].
Qed.

Lemma performed_acknowledge s receipt ok q q' r a : queue_holds q s → acknowledges q receipt ok q' →
  (if ok : bool then r = SuccessExecutionResult else Successful r = false ∧ a = None) →
  performed s (DeleteMessage receipt) r a q'.
Proof.
  intros Hq Hs Hr. pose proof (acknowledge_deletes q s receipt ok q' Hq Hs) as Hl. destruct ok.
  - subst r. by exists Answered, (Some tt), (delete_message receipt s).
  - destruct Hr as [Hr ->]. by eapply performed_fault.
Qed.
End simulation.

(** The calls of the database leave the queue alone. *)
Lemma answered_same_queue duplicate s c r a s' : ¬ is_queue_call c → answered duplicate s c = Some (r, a, s') → same_queue s s'.
Proof.
  destruct c; cbn; try done; intros _.
  - by intros [= _ <-].
  - unfold create_item. destruct (key_of _); [|done]. cbn. by destruct (rows s !! _); intros [= _ _ <-].
  - unfold upsert_item. destruct (key_of _); [|done]. cbn. by destruct (_ || _); intros [= _ _ <-].
Qed.

(** ** The clients *)

(** Bodies and receipts that pass through C strings unchanged. *)
Definition queue_text (c : Call) : Prop :=
  match c with
  | EnqueueMessage t | UpdateMessageVisibilityTimeout t _ | DeleteMessage t => no_nul t
  | _ => True
  end.

Section clients.
Context {Q : Type} `{!QueueService Q} `{!QueueLaws Q}.
Implicit Types (q : Q) (s : Cloud).

Definition aws_reply {A} (outcome : AwsQueue.SQSErrors + A) : option A := match outcome with inl _ => None | inr x => Some x end.

(** What the SQS client does with a call that it does not reject; the messages of SQS are texts. *)
Inductive sqs_does q : ∀ c : Call, ExecutionResult → option (Answer c) → Q → Prop :=
  | sqs_sends body b outcome q' :
      AwsQueue.EnqueueMessage body = Sent (Send b) → sends q b ((λ x, [x]) <$> aws_reply outcome) q' →
      sqs_does q (EnqueueMessage body) (AwsQueue.OnSendMessageCallback outcome).1 ((λ _, tt) <$> (AwsQueue.OnSendMessageCallback outcome).2) q'
  | sqs_receives n outcome q' :
      AwsQueue.GetTopMessage = Sent (Receive n) → receives q n (aws_reply outcome) q' →
      (∀ l m, outcome = inr l → m ∈ l → no_nul (queue_body m) ∧ no_nul (queue_receipt m)) →
      sqs_does q GetTopMessage (AwsQueue.OnReceiveMessageCallback outcome).1 (snd <$> (AwsQueue.OnReceiveMessageCallback outcome).2) q'
  | sqs_changes receipt seconds t z outcome q' :
      AwsQueue.UpdateMessageVisibilityTimeout receipt seconds = Sent (ChangeVisibility t z) →
      changes q t z (bool_decide (is_Some (aws_reply outcome))) q' →
      sqs_does q (UpdateMessageVisibilityTimeout receipt seconds) (AwsQueue.OnChangeMessageVisibilityCallback outcome) None q'
  | sqs_deletes receipt t outcome q' :
      AwsQueue.DeleteMessage receipt = Sent (Acknowledge t) → acknowledges q t (bool_decide (is_Some (aws_reply outcome))) q' →
      sqs_does q (DeleteMessage receipt) (AwsQueue.OnDeleteMessageCallback outcome) None q'.

Lemma sqs_error_fails e : Successful (AwsQueue.ConvertSqsError e) = false.
Proof. by destruct e. Qed.

Lemma sqs_performs duplicate q s c r a q' : queue_holds q s → queue_text c → sqs_does q c r a q' → performed duplicate s c r a q'.
Proof.
  intros Hq Ht Hd. destruct Hd as [body b outcome q' Es Hs|n outcome q' Es Hs Hm|receipt seconds t z outcome q' Es Hs|receipt t outcome q' Es Hs].
  - unfold AwsQueue.EnqueueMessage in Es. destruct (bool_decide _); [done|]. injection Es as <-. cbn in Ht. rewrite Ht in Hs.
    eapply performed_send; [exact Hq|exact Hs|]. destruct outcome; [|done]. split; [apply sqs_error_fails|done].
  - injection Es as <-. eapply performed_receive; [exact Hq|exact Hs|]. destruct outcome as [e|[|m [|m' l]]]; [..|].
    + split; [apply sqs_error_fails|done].
    + done.
    + destruct (Hm [m] m eq_refl ltac:(by left)) as [Hb Hr]. cbn. by rewrite Hb, Hr.
    + by destruct (receive_delivers q s _ q' Hq Hs).
  - unfold AwsQueue.UpdateMessageVisibilityTimeout in Es. destruct (bool_decide _); [done|]. destruct (_ || _); [done|]. injection Es as <- <-.
    cbn in Ht. rewrite Ht in Hs. eapply performed_change; [exact Hq|exact Hs|]. destruct outcome; [|done]. split; [apply sqs_error_fails|done].
  - unfold AwsQueue.DeleteMessage in Es. destruct (bool_decide _); [done|]. injection Es as <-. cbn in Ht. rewrite Ht in Hs.
    eapply performed_acknowledge; [exact Hq|exact Hs|]. destruct outcome; [|done]. split; [apply sqs_error_fails|done].
Qed.

Definition gcp_reply {A} (status : StatusCode) (x : A) : option A := if decide (status = kOk) then Some x else None.

(** What the Pub/Sub client does with a call that it does not reject and whose task is scheduled. *)
Inductive pubsub_does q : ∀ c : Call, ExecutionResult → option (Answer c) → Q → Prop :=
  | pubsub_sends body b status ids q' :
      GcpQueue.EnqueueMessage SuccessExecutionResult body = Sent (Send b) → sends q b (gcp_reply status ids) q' →
      pubsub_does q (EnqueueMessage body) (GcpQueue.EnqueueMessageAsync (status, ids)).1
        ((λ _, tt) <$> (GcpQueue.EnqueueMessageAsync (status, ids)).2) q'
  | pubsub_receives n status l q' :
      GcpQueue.GetTopMessage SuccessExecutionResult = Sent (Receive n) → receives q n (gcp_reply status l) q' →
      pubsub_does q GetTopMessage (GcpQueue.GetTopMessageAsync (status, l)).1 (snd <$> (GcpQueue.GetTopMessageAsync (status, l)).2) q'
  | pubsub_changes receipt seconds t z status q' :
      GcpQueue.UpdateMessageVisibilityTimeout SuccessExecutionResult receipt seconds = Sent (ChangeVisibility t z) →
      changes q t z (bool_decide (status = kOk)) q' →
      pubsub_does q (UpdateMessageVisibilityTimeout receipt seconds) (GcpQueue.UpdateMessageVisibilityTimeoutAsync status).1
        (GcpQueue.UpdateMessageVisibilityTimeoutAsync status).2 q'
  | pubsub_deletes receipt t status q' :
      GcpQueue.DeleteMessage SuccessExecutionResult receipt = Sent (Acknowledge t) → acknowledges q t (bool_decide (status = kOk)) q' →
      pubsub_does q (DeleteMessage receipt) (GcpQueue.DeleteMessageAsync status).1 (GcpQueue.DeleteMessageAsync status).2 q'.

Lemma pubsub_performs duplicate q s c r a q' : queue_holds q s → queue_text c → pubsub_does q c r a q' → performed duplicate s c r a q'.
Proof.
  intros Hq Ht Hd. destruct Hd as [body b status ids q' Es Hs|n status l q' Es Hs|receipt seconds t z status q' Es Hs|receipt t status q' Es Hs].
  - unfold GcpQueue.EnqueueMessage in Es. destruct (bool_decide _); [done|]. injection Es as <-. cbn in Ht. rewrite Ht in Hs.
    eapply performed_send; [exact Hq|exact Hs|]. pose proof (send_delivers q s _ _ q' Hq Hs) as Hl. unfold gcp_reply in *.
    destruct (decide (status = kOk)) as [->|Hne]; [|by destruct status].
    destruct Hl as [Hl _]. by destruct ids as [|? []].
  - injection Es as <-. eapply performed_receive; [exact Hq|exact Hs|]. pose proof (receive_delivers q s _ q' Hq Hs) as Hl. unfold gcp_reply in *.
    destruct (decide (status = kOk)) as [->|Hne]; [|by destruct status]. by destruct l as [|m [|]].
  - unfold GcpQueue.UpdateMessageVisibilityTimeout in Es. destruct (bool_decide _); [done|]. destruct (_ || _); [done|]. injection Es as <- <-.
    cbn in Ht. rewrite Ht in Hs. eapply performed_change; [exact Hq|exact Hs|]. by destruct status.
  - unfold GcpQueue.DeleteMessage in Es. destruct (bool_decide _); [done|]. injection Es as <-. cbn in Ht. rewrite Ht in Hs.
    eapply performed_acknowledge; [exact Hq|exact Hs|]. by destruct status.
Qed.
End clients.

(** ** A queue *)

(** A queue whose state is that of the job client's cloud, and whose calls may fail without effect. *)
Module CloudQueue.
#[export] Instance cloud_queue : QueueService Cloud := {|
  sends q body reply q' := match reply with Some ids => length ids = 1 ∧ q' = enqueue_message body q | None => q' = q end;
  receives q n reply q' :=
    match reply with
    | Some [] | None => q' = q
    | Some [m] => ∃ i, top_message i (queue_receipt m) q = Some (mkTopMessage (queue_body m) (queue_receipt m), q')
    | Some (_ :: _ :: _) => False
    end;
  changes q _ _ _ q' := q' = q;
  acknowledges q receipt ok q' := if ok then q' = delete_message receipt q else q' = q;
  queue_holds := same_queue |}.

#[export, refine] Instance cloud_queue_laws : QueueLaws Cloud := {| holds_queue_only := _ |}.
Proof.
  - intros q s s' (H1 & H2 & H3) (H1' & H2' & H3'). split_and!; congruence.
  - intros q s body [ids|] q' (H1 & H2 & H3) Hs; cbn in Hs; [|subst; by left; split_and!].
    destruct Hs as [Hl ->]. split; [done|]. unfold enqueue_message. by split_and!; cbn; rewrite ?H1, ?H2, ?H3.
  - intros q s [[|m [|]]|] q' (H1 & H2 & H3) Hs; cbn in Hs; subst; try done. destruct Hs as [i Ht]. exists i.
    unfold top_message in *. rewrite H1, H2, H3. destruct (messages q !! i); [|done]. cbn in *. destruct (_ || _); [done|].
    injection Ht as <- <-. eexists. split; [done|]. by split_and!.
  - by intros q s receipt seconds ok q' Hq ->.
  - intros q s receipt [] q' (H1 & H2 & H3) Hs; cbn in Hs; subst; [|by left; split_and!]. unfold delete_message.
    by split_and!; cbn; rewrite ?H1, ?H2, ?H3.
Defined.
End CloudQueue.
