(* ===== verification/NoSql.v ===== *)
(** * NoSql: requests of the NoSQL database clients

    The messages of
    [cc/public/cpio/proto/nosql_database_service/v1/nosql_database_service.proto]
    that the job client does not use, the error codes, and JSON documents, which
    are a parameter ([nlohmann::json]).  The messages that it does use are in
    [JobClient]. *)

From S2P Require Import Prelude ExecResult Utils JobClient.

Local Open Scope string_scope.
Local Open Scope list_scope.

Abbreviation SC_NO_SQL_DATABASE_PROVIDER_TABLE_NOT_FOUND := (MakeErrorCode SC_NO_SQL_DATABASE_PROVIDER 0x0001).
Abbreviation SC_NO_SQL_DATABASE_PROVIDER_UNRETRIABLE_ERROR := (MakeErrorCode SC_NO_SQL_DATABASE_PROVIDER 0x0003).
Abbreviation SC_NO_SQL_DATABASE_PROVIDER_RETRIABLE_ERROR := (MakeErrorCode SC_NO_SQL_DATABASE_PROVIDER 0x0004).
Abbreviation SC_NO_SQL_DATABASE_PROVIDER_JSON_FAILED_TO_PARSE := (MakeErrorCode SC_NO_SQL_DATABASE_PROVIDER 0x0005).
Abbreviation SC_NO_SQL_DATABASE_PROVIDER_RECORD_CORRUPTED := (MakeErrorCode SC_NO_SQL_DATABASE_PROVIDER 0x0006).
Abbreviation SC_NO_SQL_DATABASE_PROVIDER_INVALID_PARAMETER_TYPE := (MakeErrorCode SC_NO_SQL_DATABASE_PROVIDER 0x0007).
Abbreviation SC_NO_SQL_DATABASE_PROVIDER_INVALID_PARTITION_KEY_NAME := (MakeErrorCode SC_NO_SQL_DATABASE_PROVIDER 0x0008).
Abbreviation SC_NO_SQL_DATABASE_PROVIDER_INVALID_SORT_KEY_NAME := (MakeErrorCode SC_NO_SQL_DATABASE_PROVIDER 0x0009).
Abbreviation SC_NO_SQL_DATABASE_PROVIDER_EMPTY_TABLE_NAME := (MakeErrorCode SC_NO_SQL_DATABASE_PROVIDER 0x000A).
Abbreviation SC_NO_SQL_DATABASE_PROVIDER_UNSET_KEY_TYPE := (MakeErrorCode SC_NO_SQL_DATABASE_PROVIDER 0x000B).

Abbreviation INVALID_TYPE := (HasResult (FailureExecutionResult SC_NO_SQL_DATABASE_PROVIDER_INVALID_PARAMETER_TYPE)).

(** A key that is not set reads as an attribute without name and value. *)
Definition no_attribute : ItemAttribute := mkAttribute "" value_not_set.
Definition partition_of (k : ItemKey) : ItemAttribute := default no_attribute (partition_key k).

(** The same item, whatever the order of its attributes. *)
Definition same_item (x y : Item) : Prop := item_key x = item_key y ∧ attributes x ≡ₚ attributes y.

(** [emplace] of a map keeps the element that is there. *)
Definition emplace {V} (k : string) (v : V) (m : gmap string V) : gmap string V :=
  match m !! k with Some _ => m | None => <[k := v]> m end.

(** ** JSON documents *)

(** A member of an object; [MOther] is one that is not a number or a string. *)
Inductive Member := MInt (z : Z) | MFloat (bits : Z) | MString (s : string) | MOther (text : string).

(** A document: [null], an object, or another one, with what iterating over it gives. *)
Inductive Document :=
  | DNull
  | DObject (members : gmap string Member)
  | DOther (items : list (string * Member)).

(** The members; the order in which they come is not modelled. *)
Definition doc_items (d : Document) : list (string * Member) :=
  match d with DNull => [] | DObject m => map_to_list m | DOther l => l end.

(** [empty]. *)
Definition doc_empty (d : Document) : bool :=
  match d with DNull => true | DObject m => bool_decide (m = ∅) | DOther _ => false end.

(** [contains]: of an object only. *)
Definition doc_contains (d : Document) (k : string) : bool :=
  match d with DObject m => bool_decide (is_Some (m !! k)) | _ => false end.

(** [d[k] = v] of [null] or an object; an exception for anything else. *)
Definition doc_set (d : Document) (k : string) (v : Member) : option Document :=
  match d with
  | DNull => Some (DObject {[k := v]})
  | DObject m => Some (DObject (<[k := v]> m))
  | DOther _ => None
  end.

(** Only integers and strings, which are printed exactly. *)
Definition exact_member (m : Member) : Prop := match m with MInt _ | MString _ => True | _ => False end.
Definition exact (d : Document) : Prop := match d with DNull => True | DObject m => map_Forall (λ _, exact_member) m | DOther _ => False end.

(** [dump] throws when a string is not UTF-8, and [parse] when the text is not JSON. *)
Class JsonText := {
  doc_dump : Document → option string;
  doc_parse : string → option Document;
  doc_parse_dump d t : exact d → doc_dump d = Some t → doc_parse t = Some d
}.
