(* ===== verification/GcpNoSql.v ===== *)
(** * GcpNoSql: a NoSQL database in Spanner

    Models [gcp_nosql_database_client_provider.cc] and [.h] of
    [cc/cpio/client_providers/nosql_database_client_provider/src/gcp], with
    [gcp_nosql_database_client_utils.h].  A table has the key columns and a
    column [Value] with a JSON document, and the provider reads and writes it
    with SQL statements, which are built here as the code builds them, piece by
    piece.  Spanner is a parameter: what a query gives, and what a mutation does
    to the database.  The results of scheduling a task are arguments.

    [None] stands for an exception: of printing a JSON document with a string
    that is not UTF-8, in a function that is [noexcept]. *)

From Stdlib Require Import Ascii.
From stdpp Require Import pretty.
From S2P Require Import Prelude ExecResult GcpStatus Provider Utils JobClient NoSql.

Local Open Scope string_scope.
Local Open Scope list_scope.
Local Open Scope Z_scope.

Abbreviation kValueColumnName := "Value".
Abbreviation kPartitionKeyParamName := "partition_key".
Abbreviation kSortKeyParamName := "sort_key".

(** ** The provider *)

Definition Init (has_cpu_executor has_io_executor : bool) : ExecutionResult :=
  if has_cpu_executor && has_io_executor then SuccessExecutionResult
  else FailureExecutionResult SC_NO_SQL_DATABASE_PROVIDER_UNRETRIABLE_ERROR.

(** [fully_qualified_db_name_]. *)
Definition database_path (project instance_name database_name : string) : string :=
  "projects/" +:+ project +:+ "/instances/" +:+ instance_name +:+ "/databases/" +:+ database_name.

(** The name of the database and the clients. *)
Definition Run {Client} (project : ExecutionResult + string) (instance_name database_name : string)
    (CreateClients : string → ExecutionResult + Client) : ExecutionResult + (string * Client) :=
  connect project (λ p,
    match CreateClients p with inl r => inl r | inr c => inr (database_path p instance_name database_name, c) end).

(** ** Values *)

(** [google::cloud::spanner::Value]; floating point numbers by their bits, [JSON None] is NULL. *)
Inductive Value :=
  | NoValue
  | INT64 (z : Z)
  | FLOAT64 (bits : Z)
  | STRING (s : string)
  | JSON (text : option string).

#[global] Instance Value_eq_dec : EqDecision Value.
Proof. solve_decision. Defined.

Section utils.
(** The conversion of a [float] to a [double], on their bits. *)
Variable to_double : Z → Z.

Definition ConvertAttributeTypeToSpannerTypeName (a : ItemAttribute) : string :=
  match attribute_value a with
  | ValueInt _ => "INT64"
  | ValueFloat _ | ValueDouble _ => "FLOAT64"
  | ValueString _ => "STRING(MAX)"
  | value_not_set => "INVALID_TYPE"
  end.

(** [get<int>] keeps the low 32 bits.  The name is set by the caller. *)
Definition ConvertJsonTypeToItemAttribute (v : Member) : ExecutionResultOr AttributeValue :=
  match v with
  | MInt z => HasValue (ValueInt (s32 z))
  | MFloat b => HasValue (ValueDouble b)
  | MString s => HasValue (ValueString s)
  | MOther _ => INVALID_TYPE
  end.

Definition ConvertItemAttributeToJsonType (a : ItemAttribute) : ExecutionResultOr Member :=
  match attribute_value a with
  | ValueInt z => HasValue (MInt z)
  | ValueFloat b => HasValue (MFloat (to_double b))
  | ValueDouble b => HasValue (MFloat b)
  | ValueString s => HasValue (MString s)
  | value_not_set => INVALID_TYPE
  end.

Definition ConvertItemAttributeToSpannerValue (a : ItemAttribute) : ExecutionResultOr Value :=
  match attribute_value a with
  | ValueInt z => HasValue (INT64 z)
  | ValueFloat b => HasValue (FLOAT64 (to_double b))
  | ValueDouble b => HasValue (FLOAT64 b)
  | ValueString s => HasValue (STRING s)
  | value_not_set => INVALID_TYPE
  end.

(** ** Statements *)

Record SqlStatement := mkSql { text : string; params : gmap string Value }.

(** [" AND JSON_VALUE(Value, '$.name') = @attribute_0"], and so on. *)
Fixpoint AppendJsonWhereClauses (attribute_index : nat) (l : list ItemAttribute) (params : gmap string Value) (out : string)
  : ExecutionResultOr (gmap string Value * string) :=
  match l with
  | [] => HasValue (params, out)
  | a :: l =>
      let attribute_alias := "attribute_" +:+ pretty attribute_index in
      let out := out +:+ " AND JSON_VALUE(Value, '$." +:+ name a +:+ "') = @" +:+ attribute_alias in
      match ConvertItemAttributeToSpannerValue a with
      | HasResult r => HasResult r
      | HasValue v => AppendJsonWhereClauses (S attribute_index) l (emplace attribute_alias v params) out
      end
  end.

(** ** Tables *)

Definition ValidateCreateTableRequest (k : ItemKey) : ExecutionResult :=
  if bool_decide (table_name k = "") then FailureExecutionResult SC_NO_SQL_DATABASE_PROVIDER_EMPTY_TABLE_NAME
  else if bool_decide (name (partition_of k) = "")
  then FailureExecutionResult SC_NO_SQL_DATABASE_PROVIDER_INVALID_PARTITION_KEY_NAME
  else if bool_decide (attribute_value (partition_of k) = value_not_set)
  then FailureExecutionResult SC_NO_SQL_DATABASE_PROVIDER_UNSET_KEY_TYPE
  else match sort_key k with
       | Some a =>
           if bool_decide (name a = "") then FailureExecutionResult SC_NO_SQL_DATABASE_PROVIDER_INVALID_SORT_KEY_NAME
           else if bool_decide (attribute_value a = value_not_set)
           then FailureExecutionResult SC_NO_SQL_DATABASE_PROVIDER_UNSET_KEY_TYPE
           else SuccessExecutionResult
       | None => SuccessExecutionResult
       end.

(** The white space of the template is already reduced to single blanks. *)
Definition BuildCreateTableStatement (k : ItemKey) : string :=
  let p := partition_of k in
  match sort_key k with
  | Some s =>
      "CREATE TABLE " +:+ table_name k +:+ " ( " +:+
        name p +:+ " " +:+ ConvertAttributeTypeToSpannerTypeName p +:+ " NOT NULL, " +:+
        name s +:+ " " +:+ ConvertAttributeTypeToSpannerTypeName s +:+ " NOT NULL, " +:+
        "Value JSON ) PRIMARY KEY(" +:+ name p +:+ ", " +:+ name s +:+ ")"
  | None =>
      "CREATE TABLE " +:+ table_name k +:+ " ( " +:+
        name p +:+ " " +:+ ConvertAttributeTypeToSpannerTypeName p +:+ " NOT NULL, " +:+
        "Value JSON ) PRIMARY KEY(" +:+ name p +:+ ")"
  end.

Definition CreateTable (k : ItemKey) (schedule_result : ExecutionResult) : Started string :=
  let r := ValidateCreateTableRequest k in
  if negb (Successful r) then Rejected r true else scheduled schedule_result (BuildCreateTableStatement k).

Definition DeleteTable (table_name : string) (schedule_result : ExecutionResult) : Started string :=
  if bool_decide (table_name = "") then Rejected (FailureExecutionResult SC_NO_SQL_DATABASE_PROVIDER_EMPTY_TABLE_NAME) true
  else scheduled schedule_result ("DROP TABLE " +:+ table_name).

(** [CreateTableInternal] and [DeleteTableInternal], with the status of [UpdateDatabaseDdl]. *)
Definition update_ddl (status : StatusCode) : ExecutionResult := GcpErrorConverter status.

(** ** Items *)

(** [table_name_to_keys] of the options: the key columns of the tables, or none to accept all. *)
Definition TableKeys : Type := gmap string (string * option string).

Definition non_empty_sort_key (k : ItemKey) : bool :=
  match sort_key k with Some a => negb (bool_decide (name a = "")) | None => false end.

Definition ValidatePartitionAndSortKey (table_name_to_keys : TableKeys) (k : ItemKey) : ExecutionResult :=
  if bool_decide (table_name_to_keys = ∅) then SuccessExecutionResult
  else match table_name_to_keys !! table_name k with
       | None => FailureExecutionResult SC_NO_SQL_DATABASE_PROVIDER_TABLE_NOT_FOUND
       | Some (expected, sort_key_expected) =>
           if negb (bool_decide (name (partition_of k) = expected))
           then FailureExecutionResult SC_NO_SQL_DATABASE_PROVIDER_INVALID_PARTITION_KEY_NAME
           else if negb (Bool.eqb (bool_decide (is_Some sort_key_expected)) (non_empty_sort_key k))
           then FailureExecutionResult SC_NO_SQL_DATABASE_PROVIDER_INVALID_SORT_KEY_NAME
           else SuccessExecutionResult
       end.

Variable table_name_to_keys : TableKeys.

Definition validated {A} (k : ItemKey) (c : Started A) : Started A :=
  let r := ValidatePartitionAndSortKey table_name_to_keys k in
  if negb (Successful r) then Rejected r true else c.

Definition GetDatabaseItem (request : GetDatabaseItemRequest) (schedule_result : ExecutionResult) : Started SqlStatement :=
  let k := get_key request in
  validated k (
    let query := "SELECT IFNULL(" +:+ kValueColumnName +:+ ", JSON '{}') FROM `" +:+ table_name k +:+ "` WHERE " in
    or_reject true (ConvertItemAttributeToSpannerValue (partition_of k)) (λ v,
    let query := query +:+ name (partition_of k) +:+ " = @" +:+ kPartitionKeyParamName in
    let params := {[kPartitionKeyParamName := v]} in
    or_reject true
      (match sort_key k with
       | None => HasValue (params, query)
       | Some a =>
           match ConvertItemAttributeToSpannerValue a with
           | HasResult r => HasResult r
           | HasValue v => HasValue (emplace kSortKeyParamName v params,
                                     query +:+ " AND " +:+ name a +:+ " = @" +:+ kSortKeyParamName)
           end
       end) (λ '(params, query),
    or_reject true (AppendJsonWhereClauses 0 (get_required request) params query) (λ '(params, query),
    scheduled schedule_result (mkSql query params))))).

(** Members become attributes, in order; those that are not numbers or strings are left out. *)
Definition attributes_of (d : Document) : list ItemAttribute :=
  omap (λ p, mkAttribute p.1 <$> value (ConvertJsonTypeToItemAttribute p.2)) (doc_items d).

(** The members of a request, into a document that starts as [null]. *)
Fixpoint attributes_json (l : list ItemAttribute) (d : Document) : ExecutionResultOr Document :=
  match l with
  | [] => HasValue d
  | a :: l =>
      match ConvertItemAttributeToJsonType a with
      | HasResult r => HasResult r
      | HasValue v => attributes_json l (default d (doc_set d (name a) v))
      end
  end.

Record CreateItemOptions := mkCreateItemOptions {
  create_table_name : string;
  create_column_names : list string;
  create_partition_key_val : Value;
  create_sort_key_val : Value;
  create_attributes_json : Document
}.

(** Keys without a value do not finish the context. *)
Definition CreateDatabaseItem (request : CreateDatabaseItemRequest) (schedule_result : ExecutionResult)
  : Started CreateItemOptions :=
  let k := create_key request in
  validated k (
    or_reject false (ConvertItemAttributeToSpannerValue (partition_of k)) (λ v,
    let columns := [name (partition_of k)] in
    or_reject false
      (match sort_key k with
       | Some a =>
           if bool_decide (name a = "") then HasValue (NoValue, columns)
           else match ConvertItemAttributeToSpannerValue a with
                | HasResult r => HasResult r
                | HasValue s => HasValue (s, columns ++ [name a])
                end
       | None => HasValue (NoValue, columns)
       end) (λ '(sort_key_val, columns),
    or_reject true (attributes_json (create_attributes request) DNull) (λ d,
    scheduled schedule_result (mkCreateItemOptions (table_name k) (columns ++ [kValueColumnName]) v sort_key_val d))))).

Record UpsertSelectOptions := mkUpsertSelectOptions {
  select_statement : SqlStatement;
  upsert_column_names : list string;
  upsert_partition_key_val : Value;
  upsert_sort_key_val : Value
}.

Definition BuildUpsertSelectOptions (request : UpsertDatabaseItemRequest) : ExecutionResultOr UpsertSelectOptions :=
  let k := upsert_key request in
  let select_query := "SELECT " +:+ kValueColumnName +:+ " FROM `" +:+ table_name k +:+ "` WHERE " in
  match ConvertItemAttributeToSpannerValue (partition_of k) with
  | HasResult r => HasResult r
  | HasValue v =>
      let select_query := select_query +:+ name (partition_of k) +:+ " = @" +:+ kPartitionKeyParamName in
      let params := {[kPartitionKeyParamName := v]} in
      let columns := [name (partition_of k)] in
      let with_sort :=
        match sort_key k with
        | Some a =>
            if bool_decide (name a = "") then HasValue (NoValue, columns, params, select_query)
            else match ConvertItemAttributeToSpannerValue a with
                 | HasResult r => HasResult r
                 | HasValue s =>
                     HasValue (s, columns ++ [name a], emplace kSortKeyParamName s params,
                               select_query +:+ " AND " +:+ name a +:+ " = @" +:+ kSortKeyParamName)
                 end
        | None => HasValue (NoValue, columns, params, select_query)
        end in
      match with_sort with
      | HasResult r => HasResult r
      | HasValue (sort_key_val, columns, params, select_query) =>
          match AppendJsonWhereClauses 0 (upsert_required request) params select_query with
          | HasResult r => HasResult r
          | HasValue (params, select_query) =>
              HasValue (mkUpsertSelectOptions (mkSql select_query params) (columns ++ [kValueColumnName]) v sort_key_val)
          end
      end
  end.

Record UpsertTask := mkUpsertTask {
  upsert_select_options : UpsertSelectOptions;
  enforce_row_existence : bool;
  new_attributes_json : Document;
  upsert_table_name : string
}.

Definition UpsertDatabaseItem (request : UpsertDatabaseItemRequest) (schedule_result : ExecutionResult) : Started UpsertTask :=
  let k := upsert_key request in
  validated k (
    or_reject true (BuildUpsertSelectOptions request) (λ options,
    let enforce := negb (bool_decide (upsert_required request = [])) in
    or_reject true (attributes_json (new_attributes request) DNull) (λ d,
    scheduled schedule_result (mkUpsertTask options enforce d (table_name k))))).

(** ** Spanner *)

Inductive Mutation :=
  | Insert (table : string) (columns : list string) (values : list Value)
  | InsertOrUpdate (table : string) (columns : list string) (values : list Value).

(** A row is an error, or what getting its first column as JSON gives. *)
Abbreviation SpannerRow := (StatusCode + (StatusCode + string))%type.

(** [ExecuteQuery] gives the first row, if there is one; [at_end] is what dereferencing an iterator at the
    end of the rows gives. *)
Class Spanner (Db : Type) := {
  ExecuteQuery : SqlStatement → Db → option SpannerRow;
  at_end : SpannerRow;
  Apply : Mutation → Db → StatusCode + Db
}.

Section spanner.
Context {Db : Type} `{!Spanner Db} `{!JsonText}.
Implicit Types db : Db.

Definition GetDatabaseItemInternal (request : GetDatabaseItemRequest) (statement : SqlStatement) (db : Db)
  : ExecutionResult * option Item :=
  let row_stream := ExecuteQuery statement db in
  match default at_end row_stream, row_stream with
  | inl status, _ => (GcpErrorConverter status, None)
  | _, None => (FailureExecutionResult SC_NO_SQL_DATABASE_PROVIDER_RECORD_NOT_FOUND, None)
  | inr (inl status), Some _ => (GcpErrorConverter status, None)
  | inr (inr spanner_json), Some _ =>
      match doc_parse spanner_json with
      | None => (FailureExecutionResult SC_NO_SQL_DATABASE_PROVIDER_JSON_FAILED_TO_PARSE, Some (mkItem (Some (get_key request)) []))
      | Some value_json => (SuccessExecutionResult, Some (mkItem (Some (get_key request)) (attributes_of value_json)))
      end
  end.

(** [Commit] of mutations that were prepared before. *)
Definition commit (m : Mutation) (db : Db) : ExecutionResult * Db :=
  match Apply m db with
  | inl status => (GcpErrorConverter status, db)
  | inr db => (SuccessExecutionResult, db)
  end.

Definition CreateDatabaseItemInternal (request : CreateDatabaseItemRequest) (options : CreateItemOptions) (db : Db)
  : option (ExecutionResult * Db) :=
  json ← doc_dump (create_attributes_json options);
  let values :=
    match sort_key (create_key request) with
    | Some _ => [create_partition_key_val options; create_sort_key_val options; JSON (Some json)]
    | None => [create_partition_key_val options; JSON (Some json)]
    end in
  Some (commit (Insert (create_table_name options) (create_column_names options) values) db).

(** The members of the existing document that the new one does not have are added to it. *)
Definition merge (new_attributes existing : Document) : option Document :=
  foldl (λ d p, d ≫= λ d, if doc_contains d p.1 then Some d else doc_set d p.1 p.2) (Some new_attributes) (doc_items existing).

(** The result, and the document to write: [None] inside is NULL. *)
Definition GetMergedJson (row_stream : option SpannerRow) (enforce_row_existence : bool) (new_attributes : Document)
  : option (ExecutionResult * option string) :=
  let get_existing (row : StatusCode + string) :=
    match row with
    | inl _ => Some (FailureExecutionResult SC_NO_SQL_DATABASE_PROVIDER_RECORD_CORRUPTED, None)
    | inr text =>
        match doc_parse text with
        | None => Some (FailureExecutionResult SC_NO_SQL_DATABASE_PROVIDER_JSON_FAILED_TO_PARSE, None)
        | Some existing =>
            final ← merge new_attributes existing;
            if doc_empty final then Some (SuccessExecutionResult, None)
            else t ← doc_dump final; Some (SuccessExecutionResult, Some t)
        end
    end in
  match default at_end row_stream, row_stream with
  | inl status, _ => Some (GcpErrorConverter status, None)
  | inr row, Some _ => get_existing row
  | inr row, None =>
      if enforce_row_existence then Some (FailureExecutionResult SC_NO_SQL_DATABASE_PROVIDER_RECORD_NOT_FOUND, None)
      else if negb (doc_empty new_attributes)
      then t ← doc_dump new_attributes; Some (SuccessExecutionResult, Some t)
      else get_existing row
  end.

(** [sort_key_val.get<string>().ok()]. *)
Definition is_string (v : Value) : bool := match v with STRING _ => true | _ => false end.

Definition UpsertFunctor (t : UpsertTask) (db : Db) : option (ExecutionResult * list Mutation) :=
  let options := upsert_select_options t in
  let row_stream := ExecuteQuery (select_statement options) db in
  '(prepare_result, spanner_json) ← GetMergedJson row_stream (enforce_row_existence t) (new_attributes_json t);
  if negb (Successful prepare_result) then Some (prepare_result, [])
  else
    let values :=
      if is_string (upsert_sort_key_val options)
      then [upsert_partition_key_val options; upsert_sort_key_val options; JSON spanner_json]
      else [upsert_partition_key_val options; JSON spanner_json] in
    Some (prepare_result, [InsertOrUpdate (upsert_table_name t) (upsert_column_names options) values]).

(** [Commit] runs the functor in a transaction, and again when the transaction is aborted: [aborted] are the
    databases that those runs saw, and [failure] a failure of the commit itself. *)
Fixpoint UpsertDatabaseItemInternal (t : UpsertTask) (aborted : list Db) (failure : option StatusCode) (db : Db)
  : option (ExecutionResult * Db) :=
  match aborted with
  | db' :: aborted => _ ← UpsertFunctor t db'; UpsertDatabaseItemInternal t aborted failure db
  | [] =>
      '(prepare_result, mutations) ← UpsertFunctor t db;
      let retriable := RetryExecutionResult SC_NO_SQL_DATABASE_PROVIDER_RETRIABLE_ERROR in
      if negb (Successful prepare_result) then Some (prepare_result, db)
      else match failure, mutations with
           | Some _, _ => Some (retriable, db)
           | None, [] => Some (SuccessExecutionResult, db)
           | None, m :: _ =>
               match Apply m db with
               | inl _ => Some (retriable, db)
               | inr db => Some (SuccessExecutionResult, db)
               end
           end
  end.
End spanner.
End utils.
