(* ===== verification/GcpNoSqlSpec.v ===== *)
(** * GcpNoSqlSpec: the Spanner client is the database of the job client

    The statements that the provider builds piece by piece are the text of
    queries with a given structure.  With a Spanner that answers such queries
    and applies mutations as documented, every operation does what
    [JobClientSpec] assumes of the database: [get_item], [create_item] and
    [upsert_item] on the rows that the tables hold.  It differs where the
    provider does: a condition that fails is reported as a missing record, and
    items whose sort key is a number cannot be upserted. *)

From stdpp Require Import pretty.
From S2P Require Import Prelude ExecResult GcpStatus Provider Decimal Utils JobClient JobClientSpec NoSql GcpNoSql.

Local Open Scope string_scope.
Local Open Scope list_scope.
Local Open Scope Z_scope.

(** ** Queries *)

(** [SELECT] of the column [Value] for a row with given keys, whose document has given members. *)
Record Select := mkSelect {
  null_as_empty : bool;                          (* IFNULL(Value, JSON '{}') *)
  from_table : string;
  key_params : list (string * string);           (* a column and its parameter *)
  member_params : list (string * string)         (* a member of the document and its parameter *)
}.

Definition key_condition (p : string * string) : string := p.1 +:+ " = @" +:+ p.2.
Definition member_condition (p : string * string) : string := "JSON_VALUE(Value, '$." +:+ p.1 +:+ "') = @" +:+ p.2.

Definition render (q : Select) : string :=
  "SELECT " +:+ (if null_as_empty q then "IFNULL(Value, JSON '{}')" else "Value") +:+ " FROM `" +:+ from_table q +:+ "` WHERE " +:+
  String.concat " AND " ((key_condition <$> key_params q) ++ (member_condition <$> member_params q)).

Definition alias (i : nat) : string := "attribute_" +:+ pretty i.

Definition key_params_of (with_empty : bool) (k : ItemKey) : list (string * string) :=
  (name (partition_of k), kPartitionKeyParamName) ::
  match sort_key k with
  | Some a => if negb with_empty && bool_decide (name a = "") then [] else [(name a, kSortKeyParamName)]
  | None => []
  end.

Definition get_select (request : GetDatabaseItemRequest) : Select :=
  mkSelect true (table_name (get_key request)) (key_params_of true (get_key request))
    (zip (name <$> get_required request) (alias <$> seq 0 (length (get_required request)))).

Definition upsert_select (request : UpsertDatabaseItemRequest) : Select :=
  mkSelect false (table_name (upsert_key request)) (key_params_of false (upsert_key request))
    (zip (name <$> upsert_required request) (alias <$> seq 0 (length (upsert_required request)))).

(** Conditions after the first one. *)
Definition and_all (l : list string) : string := foldr (λ c s, " AND " +:+ c +:+ s) "" l.

Lemma and_all_cons c l : and_all (c :: l) = " AND " +:+ c +:+ and_all l.
Proof. done. Qed.

(** Texts that are the same up to the grouping of their pieces. *)
Ltac same_text :=
  rewrite ?and_all_cons; unfold key_condition, member_condition; cbn [fst snd]; rewrite <-?string_app_assoc; reflexivity.

Lemma concat_and c l : String.concat " AND " (c :: l) = c +:+ and_all l.
Proof.
  revert c. induction l as [|d l IH]; intros c; [symmetry; apply string_app_nil|].
  change (String.concat " AND " (c :: d :: l)) with (c +:+ " AND " +:+ String.concat " AND " (d :: l)). by rewrite IH.
Qed.

Section spec.
Variable to_double : Z → Z.
#[local] Abbreviation spanner_value := (ConvertItemAttributeToSpannerValue to_double).

(** The parameters of the required attributes, from the index [i] on. *)
Fixpoint member_values (i : nat) (l : list ItemAttribute) (m : gmap string Value) : option (gmap string Value) :=
  match l with
  | [] => Some m
  | a :: l => v ← value (spanner_value a); member_values (S i) l (emplace (alias i) v m)
  end.

Lemma where_clauses i l m out :
  AppendJsonWhereClauses to_double i l m out =
  match member_values i l m with
  | Some m' => HasValue (m', out +:+ and_all (member_condition <$> zip (name <$> l) (alias <$> seq i (length l))))
  | None => INVALID_TYPE
  end.
Proof.
  revert i m out. induction l as [|a l IH]; intros i m out; cbn [AppendJsonWhereClauses member_values].
  { by cbn; rewrite string_app_nil. }
  destruct (spanner_value a) as [r|v] eqn:E; cbn [value mbind option_bind].
  - unfold ConvertItemAttributeToSpannerValue in E. by destruct (attribute_value a); simplify_eq.
  - rewrite IH. fold (alias i). destruct (member_values _ _ _); [|done]. do 2 f_equal.
    cbn [length seq fmap list_fmap zip zip_with and_all foldr]. same_text.
Qed.

(** The values of the keys; only a [GET] has a condition for a sort key without name. *)
Definition key_values (with_empty : bool) (k : ItemKey) : option (gmap string Value) :=
  v ← value (spanner_value (partition_of k));
  match sort_key k with
  | Some a =>
      if negb with_empty && bool_decide (name a = "") then Some {[kPartitionKeyParamName := v]}
      else s ← value (spanner_value a); Some (emplace kSortKeyParamName s {[kPartitionKeyParamName := v]})
  | None => Some {[kPartitionKeyParamName := v]}
  end.

Definition value_of (a : ItemAttribute) : Value := default NoValue (value (spanner_value a)).
Definition sort_value (k : ItemKey) : Value :=
  match sort_key k with Some a => if bool_decide (name a = "") then NoValue else value_of a | None => NoValue end.

Lemma unset_value a e : spanner_value a = HasResult e → e = FailureExecutionResult SC_NO_SQL_DATABASE_PROVIDER_INVALID_PARAMETER_TYPE.
Proof. unfold ConvertItemAttributeToSpannerValue. by destruct (attribute_value a); intros [= <-]. Qed.

(** A conversion that fails does so on both sides. *)
Ltac convert_key a :=
  let E := fresh "E" in destruct (spanner_value a) as [?|?] eqn:E; [by rewrite (unset_value _ _ E)|];
  cbn [or_reject value mbind option_bind].

Lemma get_statement keys request r :
  GetDatabaseItem to_double keys request r =
  validated keys (get_key request)
    match key_values true (get_key request) ≫= member_values 0 (get_required request) with
    | Some m => scheduled r (mkSql (render (get_select request)) m)
    | None => Rejected (FailureExecutionResult SC_NO_SQL_DATABASE_PROVIDER_INVALID_PARAMETER_TYPE) true
    end.
Proof.
  unfold GetDatabaseItem. f_equal. unfold get_select, render, key_params_of, key_values.
  cbn [null_as_empty from_table key_params member_params]. convert_key (partition_of (get_key request)).
  destruct (sort_key (get_key request)) as [a|]; cbn [or_reject negb andb]; [convert_key a|];
    cbn [mbind option_bind]; rewrite where_clauses; (destruct (member_values _ _ _); [|done]); cbn [or_reject]; do 2 f_equal;
    cbn [negb andb fmap list_fmap app]; rewrite concat_and; same_text.
Qed.

Lemma upsert_statement request :
  BuildUpsertSelectOptions to_double request =
  match key_values false (upsert_key request) ≫= member_values 0 (upsert_required request) with
  | Some m =>
      HasValue (mkUpsertSelectOptions (mkSql (render (upsert_select request)) m)
        ((key_params_of false (upsert_key request)).*1 ++ [kValueColumnName])
        (value_of (partition_of (upsert_key request))) (sort_value (upsert_key request)))
  | None => INVALID_TYPE
  end.
Proof.
  unfold BuildUpsertSelectOptions, upsert_select, render, key_params_of, key_values, sort_value, value_of.
  cbn [null_as_empty from_table key_params member_params]. convert_key (partition_of (upsert_key request)).
  destruct (sort_key (upsert_key request)) as [a|]; cbn [negb andb]; [destruct (bool_decide _); [|convert_key a]|];
    cbn [mbind option_bind]; rewrite where_clauses; (destruct (member_values _ _ _); [|done]); do 3 f_equal;
    cbn [negb andb fmap list_fmap app]; rewrite concat_and; same_text.
Qed.

End spec.

(** ** Tables *)

(** The text that [JSON_VALUE] gives for a member. *)
Definition member_text (m : Member) : option string :=
  match m with MInt z => Some (pretty z) | MString s => Some s | _ => None end.

(** The conditions on the members, with parameters that are strings. *)
Definition holds_where (l : list (string * string)) (params : gmap string Value) (d : Document) : bool :=
  forallb (λ p,
    match d with
    | DObject m =>
        match m !! p.1 ≫= member_text, params !! p.2 with
        | Some t, Some (STRING s) => bool_decide (t = s)
        | _, _ => false
        end
    | _ => false
    end) l.

(** What the tables hold: the columns of a table's key, and the document of the row with a key; [None]
    inside is NULL. *)
Class SpannerState (Db : Type) := {
  key_columns : Db → string → list string;
  row_at : Db → string → list Value → option (option Document)
}.

Section tables.
Context {Db : Type} `{!Spanner Db, !SpannerState Db} `{!JsonText}.
Implicit Types db : Db.

Definition wrote db (table : string) (key : list Value) (d : Document) (db' : Db) : Prop :=
  (∀ t, key_columns db' t = key_columns db t) ∧
  ∀ t k, row_at db' t k = if decide (t = table ∧ k = key) then Some (Some d) else row_at db t k.

(** The rows that a query with the keys of its table gives. *)
Definition answers db (q : Select) (params : gmap string Value) : Prop :=
  ∀ key, (key_params q).*1 = key_columns db (from_table q) → mapM (λ p, params !! p.2) (key_params q) = Some key →
  let rows := ExecuteQuery (mkSql (render q) params) db in
  match row_at db (from_table q) key with
  | None => rows = None
  | Some None =>
      if bool_decide (member_params q = [])
      then ∃ row, rows = Some (inr row) ∧
        (if null_as_empty q then ∃ t, row = inr t ∧ doc_parse t = Some (DObject ∅) else ∃ e, row = inl e)
      else rows = None
  | Some (Some d) =>
      exact d → (∀ p, p ∈ member_params q → ∃ s, params !! p.2 = Some (STRING s)) →
      if holds_where (member_params q) params d then ∃ t, rows = Some (inr (inr t)) ∧ doc_parse t = Some d
      else rows = None
  end.
End tables.

(** What Spanner's documentation says of mutations. *)
Class SpannerLaws (Db : Type) `{!Spanner Db, !SpannerState Db} `{!JsonText} := {
  rows_end : ∃ e, at_end (Db:=Db) = inr (inl e);
  apply_insert (db : Db) table key t d : length key = length (key_columns db table) → doc_parse t = Some d →
    let m := Insert table (key_columns db table ++ [kValueColumnName]) (key ++ [JSON (Some t)]) in
    match row_at db table key with
    | Some _ => Apply m db = inl kAlreadyExists
    | None => ∃ db', Apply m db = inr db' ∧ wrote db table key d db'
    end;
  apply_upsert (db : Db) table key t d : length key = length (key_columns db table) → doc_parse t = Some d →
    ∃ db', Apply (InsertOrUpdate table (key_columns db table ++ [kValueColumnName]) (key ++ [JSON (Some t)])) db = inr db' ∧
      wrote db table key d db'
}.

(** ** Rows and documents *)

(** The values that a document keeps. *)
Definition plain (v : AttributeValue) : Prop :=
  match v with ValueInt z => - 2 ^ 31 ≤ z < 2 ^ 31 | ValueString _ => True | _ => False end.

Definition member_of (v : AttributeValue) : Member :=
  match v with
  | ValueInt z => MInt z
  | ValueFloat b | ValueDouble b => MFloat b
  | ValueString s => MString s
  | value_not_set => MOther ""
  end.

Definition plain_row (row : Row) : Prop := map_Forall (λ _, plain) row.

(** A document with the attributes of a row. *)
Definition shows (d : Document) (row : Row) : Prop :=
  plain_row row ∧ (d = DObject (member_of <$> row) ∨ d = DNull ∧ row = ∅).

Lemma shows_exact d row : shows d row → exact d.
Proof.
  intros [Hp [->|[-> _]]]; [|done]. intros k m Hm. apply lookup_fmap_Some in Hm as (v & <- & Hv).
  specialize (Hp k v Hv). by destruct v.
Qed.

Lemma shows_set d row k v : shows d row → plain v → ∃ d', doc_set d k (member_of v) = Some d' ∧ shows d' (<[k := v]> row).
Proof.
  intros [Hp Hd] Hv. assert (plain_row (<[k := v]> row)) as Hp' by (by apply map_Forall_insert_2).
  destruct Hd as [->|[-> ->]]; eexists; (split; [done|]); (split; [done|]); left; f_equal.
  - by rewrite fmap_insert.
  - by rewrite insert_empty, map_fmap_singleton.
Qed.

Lemma plain_read v : plain v → ConvertJsonTypeToItemAttribute (member_of v) = HasValue v.
Proof. destruct v; cbn; try done. intros Hz. by rewrite s32_small. Qed.

(** The attributes read from a document are those of the row. *)
Lemma shows_attributes d row : shows d row → attributes_of d ≡ₚ (λ p, mkAttribute p.1 p.2) <$> map_to_list row.
Proof.
  intros [Hp [->|[-> ->]]]; [|done]. unfold attributes_of, doc_items.
  rewrite map_to_list_fmap. assert (Forall (λ p, plain p.2) (map_to_list row)) as Hl.
  { apply Forall_forall. intros [k v] Hin%elem_of_map_to_list. by apply (Hp k v). }
  induction Hl as [|[k v] l Hv Hl IH]; [done|]. cbn. rewrite plain_read by done. cbn. by rewrite IH.
Qed.

(** The documents of the attributes of a request. *)
Lemma attributes_json_shows to_double l d row : Forall (plain ∘ attribute_value) l → shows d row →
  ∃ d', attributes_json to_double l d = HasValue d' ∧ shows d' (foldl (λ m p, <[p.1 := p.2]> m) row (pairs l)).
Proof.
  intros Hl. revert d row. induction Hl as [|a l Ha Hl IH]; intros d row Hd; [by exists d|]. cbn.
  assert (ConvertItemAttributeToJsonType to_double a = HasValue (member_of (attribute_value a))) as ->.
  { unfold ConvertItemAttributeToJsonType. unfold compose in Ha. by destruct (attribute_value a). }
  destruct (shows_set d row (name a) (attribute_value a) Hd Ha) as (d' & -> & Hd'). cbn. by apply IH.
Qed.

Lemma insert_all_to_map (l : list (string * AttributeValue)) (m : Row) : NoDup l.*1 →
  foldl (λ m p, <[p.1 := p.2]> m) m l = list_to_map l ∪ m.
Proof.
  revert m. induction l as [|[k v] l IH]; intros m Hnd; cbn; [by rewrite (left_id_L ∅ (∪))|].
  apply NoDup_cons in Hnd as [Hk Hnd]. rewrite IH by done. rewrite <-insert_union_l. symmetry. apply insert_union_r.
  by apply not_elem_of_list_to_map_1.
Qed.

Lemma pairs_names l : (pairs l).*1 = name <$> l.
Proof. unfold pairs. by rewrite <-list_fmap_compose. Qed.

(** Merging: the new members, and the old ones that they do not replace. *)
Lemma merge_members (l : list (string * Member)) (m : gmap string Member) : NoDup l.*1 →
  foldl (λ d p, d ≫= λ d, if doc_contains d p.1 then Some d else doc_set d p.1 p.2) (Some (DObject m)) l =
  Some (DObject (m ∪ list_to_map l)).
Proof.
  revert m. induction l as [|[k v] l IH]; intros m Hnd; cbn; [by rewrite (right_id_L ∅ (∪))|].
  apply NoDup_cons in Hnd as [Hk Hnd]. destruct (m !! k) as [x|] eqn:E.
  - rewrite bool_decide_true by done. rewrite IH by done. do 2 f_equal. apply map_eq. intros i.
    rewrite !lookup_union. destruct (decide (i = k)) as [->|Hi]; [by rewrite E, !union_Some_l|by rewrite lookup_insert_ne].
  - rewrite bool_decide_false by (intros [? ?]; congruence). rewrite IH by done. do 2 f_equal.
    rewrite <-insert_union_l. by apply insert_union_r.
Qed.

Lemma merge_shows d d0 new row : new ≠ ∅ → shows d new → shows d0 row →
  ∃ d', merge d d0 = Some d' ∧ doc_empty d' = false ∧ shows d' (new ∪ row).
Proof.
  intros Hne [Hp [->|[-> ->]]] [Hp0 Hd0]; [|done]. exists (DObject (member_of <$> (new ∪ row))).
  assert (plain_row (new ∪ row)) as Hpu by (by apply map_Forall_union_2).
  split; [|split; [|by split; [|left]]].
  - unfold merge. destruct Hd0 as [->|[-> ->]].
    + cbn [doc_items]. rewrite merge_members by apply NoDup_fst_map_to_list. by rewrite list_to_map_to_list, map_fmap_union.
    + by rewrite (right_id_L ∅ (∪)).
  - cbn. apply bool_decide_eq_false. rewrite fmap_empty_iff. by apply map_positive_l_alt.
Qed.

Lemma shows_nonempty d row : shows d row → row ≠ ∅ → doc_empty d = false.
Proof.
  intros [_ [->|[-> ->]]] Hne; [|done]. cbn. apply bool_decide_eq_false. by rewrite fmap_empty_iff.
Qed.

(** ** Parameters *)

Lemma alias_inj i j : alias i = alias j → i = j.
Proof. unfold alias. intros E. cbn in E. simplify_eq. by apply (inj pretty). Qed.

Section params.
Variable to_double : Z → Z.

Lemma member_values_strings i l m : Forall (λ a, ∃ t, attribute_value a = ValueString t) l → (∀ j, i ≤ j → m !! alias j = None)%nat →
  ∃ m', member_values to_double i l m = Some m' ∧ (∀ k, (∀ j, k ≠ alias j) → m' !! k = m !! k) ∧
    (∀ j, (j < i)%nat → m' !! alias j = m !! alias j) ∧
    ∀ j a, l !! j = Some a → ∃ t, attribute_value a = ValueString t ∧ m' !! alias (i + j) = Some (STRING t).
Proof.
  intros Hl. revert i m. induction Hl as [|a l [t Ht] Hl IH]; intros i m Hm; cbn [member_values].
  { by exists m. }
  unfold ConvertItemAttributeToSpannerValue at 1. rewrite Ht. cbn [value mbind option_bind].
  unfold emplace. rewrite Hm by done. destruct (IH (S i) (<[alias i := STRING t]> m)) as (m' & E & H1 & H2 & H3).
  { intros j Hj. rewrite lookup_insert_ne by (intros ?%alias_inj; lia). apply Hm. lia. }
  exists m'. split; [done|]. split; [|split].
  - intros k Hk. rewrite H1 by done. by rewrite lookup_insert_ne by (intros ?; by apply (Hk i)).
  - intros j Hj. rewrite H2 by lia. by rewrite lookup_insert_ne by (intros ?%alias_inj; lia).
  - intros [|j] b Hb; cbn in Hb.
    + injection Hb as <-. exists t. split; [done|]. rewrite Nat.add_0_r, H2 by lia. by rewrite lookup_insert_eq.
    + rewrite <-Nat.add_succ_comm. by apply H3.
Qed.
End params.

(** ** Operations *)

Section refinement.
Context {Db : Type} `{!Spanner Db, !SpannerState Db} `{!JsonText} `{!SpannerLaws Db}.
Variables (to_double : Z → Z) (keys : TableKeys) (table pk : string).
Implicit Types (db : Db) (s : Cloud).

(** Items of the table are found by a string. *)
Definition string_key (v : string) : ItemKey := mkItemKey table (Some (mkAttribute pk (ValueString v))) None.

(** The table holds the rows that the job client's database has. *)
Definition implements db s : Prop :=
  key_columns db table = [pk] ∧
  ∀ v, match rows s !! (table, v) with
       | None => row_at db table [STRING v] = None
       | Some row => ∃ d, row_at db table [STRING v] = Some (Some d) ∧ shows d row
       end.

Context (Hkeys : ∀ v, ValidatePartitionAndSortKey keys (string_key v) = SuccessExecutionResult).

Definition strings (l : list ItemAttribute) : Prop := Forall (λ a, ∃ t, attribute_value a = ValueString t) l.

(** The parameters of a request. *)
Lemma request_params with_empty v l : strings l →
  ∃ m, key_values to_double with_empty (string_key v) ≫= member_values to_double 0 l = Some m ∧
    m !! kPartitionKeyParamName = Some (STRING v) ∧
    ∀ j a, l !! j = Some a → ∃ t, attribute_value a = ValueString t ∧ m !! alias j = Some (STRING t).
Proof.
  intros Hl. unfold key_values. cbn. edestruct (member_values_strings to_double 0 l {[kPartitionKeyParamName := STRING v]} Hl) as (m & E & H1 & _ & H3).
  { intros j _. by rewrite lookup_singleton_ne. }
  exists m. split; [done|]. split; [|done]. rewrite H1; [by rewrite lookup_singleton_eq|]. by intros j.
Qed.

(** The conditions of the query are those on the row. *)
Lemma where_row_matches l m d row : shows d row → (∀ a z, a ∈ l → row !! name a ≠ Some (ValueInt z)) →
  (∀ j a, l !! j = Some a → ∃ t, attribute_value a = ValueString t ∧ m !! alias j = Some (STRING t)) →
  holds_where (zip (name <$> l) (alias <$> seq 0 (length l))) m d = row_matches l row.
Proof.
  intros Hd Hint. unfold holds_where, row_matches.
  assert (∀ i, (∀ j a, l !! j = Some a → ∃ t, attribute_value a = ValueString t ∧ m !! alias (i + j) = Some (STRING t)) →
    forallb (λ p : string * string, match d with DObject o => match o !! p.1 ≫= member_text, m !! p.2 with Some t, Some (STRING s) => bool_decide (t = s) | _, _ => false end | _ => false end)
      (zip (name <$> l) (alias <$> seq i (length l))) = forallb (λ a, bool_decide (row !! name a = Some (attribute_value a))) l) as Hall.
  { induction l as [|a l IH]; intros i Hm; [done|]. cbn [fmap list_fmap length seq zip zip_with forallb]. f_equal.
    - destruct (Hm 0%nat a eq_refl) as (t & Et & Ea). rewrite Nat.add_0_r in Ea. rewrite Et. cbn [fst snd].
      destruct Hd as [Hp [->|[-> ->]]]; [|by rewrite lookup_empty, bool_decide_false].
      rewrite lookup_fmap, Ea. destruct (row !! name a) as [x|] eqn:Ex; cbn; [|by rewrite bool_decide_false].
      specialize (Hp _ _ Ex). destruct x as [|z| | |t']; cbn in Hp |- *; try done.
      + destruct (Hint a z); [by left|done].
      + apply bool_decide_ext. naive_solver.
    - apply IH; [intros b z Hb; apply Hint; by right|]. intros j b Hb. rewrite Nat.add_succ_comm. by apply (Hm (S j)). }
  intros Hm. by apply (Hall 0%nat).
Qed.

(** The query for an item gives its document when the conditions hold. *)
Lemma query_answer db s q l v m : implements db s → strings l → from_table q = table → key_params q = [(pk, kPartitionKeyParamName)] →
  member_params q = zip (name <$> l) (alias <$> seq 0 (length l)) →
  m !! kPartitionKeyParamName = Some (STRING v) →
  (∀ j a, l !! j = Some a → ∃ t, attribute_value a = ValueString t ∧ m !! alias j = Some (STRING t)) →
  (∀ row a z, rows s !! (table, v) = Some row → a ∈ l → row !! name a ≠ Some (ValueInt z)) →
  answers db q m →
  match rows s !! (table, v) with
  | Some row =>
      if row_matches l row then ∃ d t, ExecuteQuery (mkSql (render q) m) db = Some (inr (inr t)) ∧ doc_parse t = Some d ∧ shows d row
      else ExecuteQuery (mkSql (render q) m) db = None
  | None => ExecuteQuery (mkSql (render q) m) db = None
  end.
Proof.
  intros [Hk Hrows] Hl Ht Hp Hq Hv Hm Hint Ha. specialize (Hrows v). specialize (Ha [STRING v]). rewrite Ht, Hp, Hk in Ha.
  cbn [mapM fmap list_fmap fst snd] in Ha. rewrite Hv in Ha. specialize (Ha eq_refl eq_refl).
  destruct (rows s !! (table, v)) as [row|] eqn:E; [|by rewrite Hrows in Ha].
  assert (∀ p, p ∈ zip (name <$> l) (alias <$> seq 0 (length l)) → ∃ t, m !! p.2 = Some (STRING t)) as Hstrings.
  { intros [x y] Hin%elem_of_zip_r. apply list_elem_of_fmap in Hin as (j & -> & Hj%elem_of_seq).
    destruct (lookup_lt_is_Some_2 l j) as [a Hj']; [lia|]. destruct (Hm j a Hj') as (t & _ & ?). by exists t. }
  destruct Hrows as (d & Er & Hd). rewrite Er, Hq in Ha. rewrite <-(where_row_matches l m d row Hd (λ a z, Hint row a z eq_refl) Hm).
  apply (λ H, Ha (shows_exact _ _ Hd) H) in Hstrings as Hb. destruct (holds_where _ _ _); [|done].
  destruct Hb as (t & ? & ?). by exists d, t.
Qed.

(** Reading an item does what the job client assumes of the database: it gives the attributes of the
    row if the row exists and has the required ones, and otherwise that there is no such record. *)
Theorem gcp_get_refines db s v required : implements db s → strings required →
  (∀ row a z, rows s !! (table, v) = Some row → a ∈ required → row !! name a ≠ Some (ValueInt z)) →
  let request := mkGetItem (string_key v) required in
  ∃ statement, GetDatabaseItem to_double keys request SuccessExecutionResult = Sent statement ∧
    (answers db (get_select request) (params statement) →
     (GetDatabaseItemInternal request statement db).1 = (get_item request s).1 ∧
     option_Forall2 same_item (GetDatabaseItemInternal request statement db).2 (get_item request s).2).
Proof.
  intros Hi Hl Hint request. destruct (request_params true v required Hl) as (m & Em & Hv & Hm).
  exists (mkSql (render (get_select request)) m). split.
  { rewrite get_statement. cbn [get_key get_required request]. rewrite Em. unfold validated. by rewrite Hkeys. }
  cbn [params]. intros Ha.
  pose proof (query_answer db s (get_select request) required v m Hi Hl eq_refl eq_refl eq_refl Hv Hm Hint Ha) as Hq.
  destruct rows_end as [e He]. unfold GetDatabaseItemInternal, get_item. cbn [key_of get_key request string_key partition_key table_name mbind option_bind get_required].
  rewrite He. destruct (rows s !! (table, v)) as [row|]; [destruct (row_matches required row)|].
  - destruct Hq as (d & t & -> & Hp & Hd). cbn [from_option id]. rewrite Hp. split; [done|]. constructor. split; [done|].
    by apply shows_attributes.
  - rewrite Hq. split; [done|constructor].
  - rewrite Hq. split; [done|constructor].
Qed.

(** A row that is written. *)
Lemma wrote_implements db db' s v d row : implements db s → wrote db table [STRING v] d db' → shows d row →
  implements db' (set_rows (<[(table, v) := row]> (rows s)) s).
Proof.
  intros [Hk Hrows] [Hc Hw] Hd. split; [by rewrite Hc|]. intros w. cbn [set_rows rows]. rewrite Hw.
  destruct (decide (w = v)) as [->|Hne].
  - rewrite lookup_insert_eq, decide_True by done. by exists d.
  - rewrite lookup_insert_ne by congruence. rewrite decide_False by (intros [_ ?]; congruence). apply Hrows.
Qed.

(** The document of the attributes of a request. *)
Lemma request_document l : Forall (plain ∘ attribute_value) l → NoDup (name <$> l) →
  ∃ d, attributes_json to_double l DNull = HasValue d ∧ shows d (list_to_map (pairs l)).
Proof.
  intros Hp Hn. destruct (attributes_json_shows to_double l DNull ∅ Hp) as (d & E & Hd).
  { split; [apply map_Forall_empty|by right]. }
  exists d. split; [done|]. rewrite insert_all_to_map in Hd by (by rewrite pairs_names). by rewrite (right_id_L ∅ (∪)) in Hd.
Qed.

(** Creating an item does what the job client assumes of the database: it adds the row when there is
    none with the key, and otherwise fails with the code for one that exists and changes nothing. *)
Theorem gcp_create_refines db s v l : implements db s → Forall (plain ∘ attribute_value) l → NoDup (name <$> l) →
  (∀ d, shows d (list_to_map (pairs l)) → is_Some (doc_dump d)) →
  let request := mkCreateItem (string_key v) l in
  ∃ options r answer s' db', CreateDatabaseItem to_double keys request SuccessExecutionResult = Sent options ∧
    create_item SC_GCP_ALREADY_EXISTS request s = Some (r, answer, s') ∧
    CreateDatabaseItemInternal request options db = Some (r, db') ∧ implements db' s'.
Proof.
  intros Hi Hp Hn Hdump request. destruct (request_document l Hp Hn) as (d & Ed & Hd).
  destruct (Hdump d Hd) as [t Et]. assert (doc_parse t = Some d) as Hparse by (eapply doc_parse_dump; [by eapply shows_exact|done]).
  pose proof Hi as [Hk Hrows]. specialize (Hrows v).
  pose proof (apply_insert db table [STRING v] t d ltac:(by rewrite Hk) Hparse) as Happ. cbn zeta in Happ. rewrite Hk in Happ.
  exists (mkCreateItemOptions table [pk; kValueColumnName] (STRING v) NoValue d).
  assert (CreateDatabaseItem to_double keys request SuccessExecutionResult =
          Sent (mkCreateItemOptions table [pk; kValueColumnName] (STRING v) NoValue d)) as Esent.
  { unfold CreateDatabaseItem, validated. cbn [create_key request]. rewrite Hkeys. cbn. by rewrite Ed. }
  unfold create_item, CreateDatabaseItemInternal, commit.
  cbn [create_attributes_json create_table_name create_column_names create_partition_key_val create_key request string_key sort_key
       key_of partition_key table_name mbind option_bind create_attributes app] in *. rewrite Et. cbn [mbind option_bind].
  destruct (rows s !! (table, v)) as [row|] eqn:E.
  - destruct Hrows as (d0 & Er & _). rewrite Er in Happ. rewrite Happ. by eexists _, _, _, _.
  - rewrite Hrows in Happ. destruct Happ as (db' & -> & Hw). eexists _, _, _, db'. split; [exact Esent|]. do 2 (split; [reflexivity|]).
    by eapply wrote_implements.
Qed.
(** What the upsert finds: the document to write, or that the conditions do not hold. *)
Lemma merged_row enforce d new old d0 t : new ≠ ∅ → shows d new →
  (∀ d', shows d' (new ∪ old) → is_Some (doc_dump d')) → doc_parse t = Some d0 → shows d0 old →
  ∃ d' t', GetMergedJson (Db:=Db) (Some (inr (inr t))) enforce d = Some (SuccessExecutionResult, Some t') ∧ doc_parse t' = Some d' ∧ shows d' (new ∪ old).
Proof.
  intros Hne Hd Hdump Hp Hd0. destruct (merge_shows d d0 new old Hne Hd Hd0) as (d' & Em & Ee & Hd').
  destruct (Hdump d' Hd') as [t' Et]. exists d', t'. unfold GetMergedJson. cbn [from_option id]. rewrite Hp, Em. cbn [mbind option_bind].
  rewrite Ee, Et. split; [done|]. split; [|done]. eapply doc_parse_dump; [by eapply shows_exact|done].
Qed.

Lemma merged_refused d :
  GetMergedJson (Db:=Db) None true d = Some (FailureExecutionResult SC_NO_SQL_DATABASE_PROVIDER_RECORD_NOT_FOUND, None).
Proof. destruct (rows_end (Db:=Db)) as [e He]. unfold GetMergedJson. cbn [from_option]. by rewrite He. Qed.

Lemma merged_new d new : new ≠ ∅ → shows d new → is_Some (doc_dump d) →
  ∃ t, GetMergedJson (Db:=Db) None false d = Some (SuccessExecutionResult, Some t) ∧ doc_parse t = Some d.
Proof.
  intros Hne Hd [t Et]. destruct (rows_end (Db:=Db)) as [e He]. unfold GetMergedJson. cbn [from_option]. rewrite He.
  rewrite (shows_nonempty _ _ Hd Hne). exists t. cbn. rewrite Et. split; [done|].
  eapply doc_parse_dump; [by eapply shows_exact|done].
Qed.

(** The runs of aborted transactions change nothing. *)
Lemma upsert_aborted task aborted failure db : Forall (λ db', is_Some (UpsertFunctor task db')) aborted →
  UpsertDatabaseItemInternal task aborted failure db = UpsertDatabaseItemInternal task [] failure db.
Proof. induction 1 as [|db' aborted [x Hx] _ IH]; [done|]. cbn [UpsertDatabaseItemInternal]. rewrite Hx. exact IH. Qed.

(** The task of an upsert whose document is [d]. *)
Definition string_upsert (request : UpsertDatabaseItemRequest) (m : gmap string Value) (v : string) (d : Document) : UpsertTask :=
  mkUpsertTask (mkUpsertSelectOptions (mkSql (render (upsert_select request)) m) [pk; kValueColumnName] (STRING v) NoValue)
    (negb (bool_decide (upsert_required request = []))) d table.

(** Writing the merged document. *)
Lemma upsert_writes db s request m v d d' t row : implements db s → shows d' row → doc_parse t = Some d' →
  GetMergedJson (ExecuteQuery (mkSql (render (upsert_select request)) m) db) (negb (bool_decide (upsert_required request = []))) d =
    Some (SuccessExecutionResult, Some t) →
  ∃ db', UpsertDatabaseItemInternal (string_upsert request m v d) [] None db = Some (SuccessExecutionResult, db') ∧
    implements db' (set_rows (<[(table, v) := row]> (rows s)) s).
Proof.
  intros Hi Hd Ht Hj. pose proof Hi as [Hk _].
  destruct (apply_upsert db table [STRING v] t d' ltac:(by rewrite Hk) Ht) as (db' & Happ & Hw). rewrite Hk in Happ. cbn [app] in Happ.
  exists db'. split; [|by eapply wrote_implements]. cbn [UpsertDatabaseItemInternal]. unfold UpsertFunctor, string_upsert.
  cbn [upsert_select_options enforce_row_existence new_attributes_json select_statement upsert_table_name upsert_column_names
       upsert_partition_key_val upsert_sort_key_val is_string]. rewrite Hj.
  cbn [mbind option_bind]. do 2 (change (Successful SuccessExecutionResult) with true; cbn [mbind option_bind negb]). by rewrite Happ.
Qed.

Lemma upsert_refused db request m v d r x : Successful r = false →
  GetMergedJson (ExecuteQuery (mkSql (render (upsert_select request)) m) db) (negb (bool_decide (upsert_required request = []))) d = Some (r, x) →
  UpsertDatabaseItemInternal (string_upsert request m v d) [] None db = Some (r, db).
Proof.
  intros Hr Hj. cbn [UpsertDatabaseItemInternal]. unfold UpsertFunctor, string_upsert.
  cbn [upsert_select_options enforce_row_existence new_attributes_json select_statement]. rewrite Hj. cbn [mbind option_bind].
  rewrite Hr. cbn. by rewrite Hr.
Qed.

(** Upserting an item does what the job client assumes of the database, however often the transaction
    was aborted before: where the row has the required attributes, or none are required, the new attributes
    override those of the row, and otherwise nothing changes.  Only the code of that failure differs: the
    job client's database reports a failed condition, the provider a missing record. *)
Theorem gcp_upsert_refines db s v required l aborted : implements db s → strings required →
  (∀ row a z, rows s !! (table, v) = Some row → a ∈ required → row !! name a ≠ Some (ValueInt z)) →
  l ≠ [] → Forall (plain ∘ attribute_value) l → NoDup (name <$> l) →
  (∀ d, shows d (list_to_map (pairs l) ∪ default ∅ (rows s !! (table, v))) → is_Some (doc_dump d)) →
  let request := mkUpsertItem (string_key v) required l in
  ∃ task r answer s', UpsertDatabaseItem to_double keys request SuccessExecutionResult = Sent task ∧
    upsert_item request s = Some (r, answer, s') ∧
    (answers db (upsert_select request) (params (select_statement (upsert_select_options task))) →
     Forall (λ db', is_Some (UpsertFunctor task db')) aborted →
     ∃ db', implements db' s' ∧
       UpsertDatabaseItemInternal task aborted None db =
         Some (if Successful r then r else FailureExecutionResult SC_NO_SQL_DATABASE_PROVIDER_RECORD_NOT_FOUND, db')).
Proof.
  intros Hi Hreq Hint Hne Hp Hn Hdump request. destruct (request_params false v required Hreq) as (m & Em & Hv & Hm).
  destruct (request_document l Hp Hn) as (d & Ed & Hd).
  assert (list_to_map (M:=Row) (pairs l) ≠ ∅) as Hne' by (destruct l; [done|]; apply insert_non_empty).
  exists (string_upsert request m v d).
  assert (UpsertDatabaseItem to_double keys request SuccessExecutionResult = Sent (string_upsert request m v d)) as Esent.
  { unfold UpsertDatabaseItem, validated. rewrite upsert_statement. cbn [upsert_key upsert_required request new_attributes].
    rewrite Hkeys, Em. cbn [or_reject]. change (negb (Successful SuccessExecutionResult)) with false. cbv iota. rewrite Ed. reflexivity. }
  unfold upsert_item. cbn [upsert_key upsert_required request new_attributes string_key key_of partition_key table_name mbind option_bind].
  pose proof (query_answer db s (upsert_select request) required v m Hi Hreq eq_refl eq_refl eq_refl Hv Hm Hint) as Hq.
  cbn [string_upsert upsert_select_options select_statement params].
  destruct (rows s !! (table, v)) as [row|] eqn:E; cbn [from_option id] in *; [destruct (row_matches required row) eqn:Er|].
  - rewrite orb_true_r. do 3 eexists. split; [exact Esent|]. split; [reflexivity|]. intros Ha Hab. destruct (Hq Ha) as (d0 & t & Eq & Hp0 & Hd0).
    edestruct merged_row as (d' & t' & Ej & Ht' & Hd'); [exact Hne'|exact Hd|exact Hdump|exact Hp0|exact Hd0|]. rewrite upsert_aborted by done.
    edestruct upsert_writes as (db' & Eu & Hi'); [exact Hi|exact Hd'|exact Ht'|rewrite Eq; exact Ej|]. exists db'. by rewrite Eu.
  - destruct (bool_decide_reflect (required = [])) as [->|Hr]; [done|]. do 3 eexists. split; [exact Esent|]. split; [reflexivity|].
    intros Ha Hab. exists db. split; [done|]. rewrite upsert_aborted by done.
    eapply upsert_refused; [done|]. rewrite (Hq Ha). cbn [upsert_required request]. rewrite bool_decide_false by done. apply merged_refused.
  - destruct (bool_decide_reflect (required = [])) as [->|Hr]; do 3 eexists; (split; [exact Esent|]); (split; [reflexivity|]); intros Ha Hab;
      rewrite upsert_aborted by done.
    + rewrite (right_id_L ∅ (∪)) in *. destruct (merged_new d _ Hne' Hd (Hdump d Hd)) as (t & Ej & Ht).
      edestruct upsert_writes as (db' & Eu & Hi'); [exact Hi|exact Hd|exact Ht|rewrite (Hq Ha); exact Ej|]. exists db'. by rewrite Eu.
    + exists db. split; [done|]. eapply upsert_refused; [done|]. rewrite (Hq Ha). cbn [upsert_required request].
      rewrite bool_decide_false by done. apply merged_refused.
Qed.
End refinement.

(** ** Sort keys *)

Definition mutation_arity (m : Mutation) : nat * nat :=
  match m with Insert _ c v | InsertOrUpdate _ c v => (length c, length v) end.

Section sort_keys.
Context {Db : Type} `{!Spanner Db} `{!JsonText}.
Variables (to_double : Z → Z) (keys : TableKeys).

(** An upsert names as many columns as it gives values exactly when the item has no sort key with a
    name, or one that is a string: a sort key that is a number is named, and its value left out. *)
Theorem upsert_arity request r task (db : Db) result m :
  UpsertDatabaseItem to_double keys request r = Sent task → UpsertFunctor task db = Some (result, [m]) →
  ((mutation_arity m).1 = (mutation_arity m).2 ↔
   match sort_key (upsert_key request) with
   | Some a => name a = "" ∨ ∃ t, attribute_value a = ValueString t
   | None => True
   end).
Proof.
  unfold UpsertDatabaseItem, validated. destruct (negb _); [done|]. rewrite upsert_statement.
  destruct (key_values _ _ _ ≫= _) as [p|] eqn:Ep; [|done]. cbn [or_reject]. destruct (attributes_json _ _ _) as [|d]; [done|].
  cbn [or_reject]. unfold scheduled. destruct (negb _); [done|]. intros [= <-]. unfold UpsertFunctor.
  cbn [upsert_select_options select_statement enforce_row_existence new_attributes_json upsert_sort_key_val upsert_column_names upsert_table_name].
  destruct (GetMergedJson _ _ _) as [[pr j]|]; [|done]. cbn [mbind option_bind]. destruct (negb _); [done|]. intros [= _ <-].
  unfold key_params_of, sort_value, key_values in *. destruct (ConvertItemAttributeToSpannerValue _ (partition_of _)); [done|].
  destruct (sort_key (upsert_key request)) as [[n x]|]; [|done]. cbn [name attribute_value negb andb] in *.
  destruct (bool_decide_reflect (n = "")) as [->|Hn]; cbn; [by split; [left|]|]. unfold value_of, ConvertItemAttributeToSpannerValue in *.
  cbn [attribute_value] in *. destruct x; cbn in *; naive_solver.
Qed.

(** Creating an item names as many columns as it gives values exactly when the sort key is not set or
    has a name. *)
Theorem create_arity request r options j (db : Db) :
  CreateDatabaseItem to_double keys request r = Sent options →
  (doc_dump (create_attributes_json options) = Some j →
   ∃ m, CreateDatabaseItemInternal request options db = Some (commit m db) ∧
     ((mutation_arity m).1 = (mutation_arity m).2 ↔
      match sort_key (create_key request) with Some a => name a ≠ "" | None => True end)).
Proof.
  unfold CreateDatabaseItem, validated. destruct (negb _); [done|]. destruct (ConvertItemAttributeToSpannerValue _ (partition_of _)) as [|v]; [done|].
  cbn [or_reject]. intros E Hj. unfold CreateDatabaseItemInternal. rewrite Hj. cbn [mbind option_bind]. eexists. split; [done|].
  revert E. destruct (sort_key (create_key request)) as [a|]; [destruct (bool_decide_reflect (name a = "")); [|destruct (ConvertItemAttributeToSpannerValue _ a); [done|]]|];
    cbn [or_reject]; (destruct (attributes_json _ _ _); [done|]); cbn [or_reject]; unfold scheduled; (destruct (negb _); [done|]);
    intros [= <-]; cbn; naive_solver.
Qed.
End sort_keys.

(** ** A database *)

(** One table of jobs, with the queries of the requests below. *)
Module GcpNoSqlRuns.

#[local] Instance Member_eq_dec : EqDecision Member.
Proof. solve_decision. Defined.

#[local] Instance Member_countable : Countable Member.
Proof.
  refine (inj_countable'
    (λ m, match m with MInt z => inl z | MFloat b => inr (inl b) | MString s => inr (inr (inl s)) | MOther t => inr (inr (inr t)) end)
    (λ x, match x with inl z => MInt z | inr (inl b) => MFloat b | inr (inr (inl s)) => MString s | inr (inr (inr t)) => MOther t end) _).
  by intros [].
Defined.

Definition doc_code (d : Document) : positive :=
  encode (match d with DNull => inl tt | DObject m => inr (inl (map_to_list m)) | DOther l => inr (inr l) end
          : unit + (list (string * Member) + list (string * Member))).

Definition doc_of (p : positive) : option Document :=
  (λ x : unit + (list (string * Member) + list (string * Member)),
     match x with inl _ => DNull | inr (inl l) => DObject (list_to_map l) | inr (inr l) => DOther l end) <$> decode p.

#[local, refine] Instance codes : JsonText :=
  {| doc_dump d := Some (pretty (Z.pos (doc_code d))); doc_parse t := doc_of (Z.to_pos (parse_digits 0 t)) |}.
Proof.
  intros d t _ [= <-]. rewrite pretty_parse by lia. cbn [Z.to_pos]. unfold doc_of, doc_code. rewrite decode_encode. cbn.
  destruct d; [done| |done]. by rewrite list_to_map_to_list.
Defined.

Definition Db : Type := string → list Value → option (option Document).

Definition put (table : string) (key : list Value) (d : Document) (db : Db) : Db :=
  λ t k, if decide (t = table ∧ k = key) then Some (Some d) else db t k.

(** What a query gives. *)
Definition select (q : Select) (params : gmap string Value) (db : Db) : option (StatusCode + (StatusCode + string)) :=
  key ← mapM (λ p, params !! p.2) (key_params q);
  row ← db (from_table q) key;
  match row with
  | None =>
      if bool_decide (member_params q = [])
      then Some (inr (if null_as_empty q then from_option inr (inl kInternal) (doc_dump (DObject ∅)) else inl kInternal))
      else None
  | Some d => if holds_where (member_params q) params d then inr ∘ inr <$> doc_dump d else None
  end.

Definition job_key : ItemKey := mkItemKey "jobs" (Some (mkAttribute "JobId" (ValueString "j"))) None.
Definition state_is (t : string) : list ItemAttribute := [mkAttribute "state" (ValueString t)].
Definition get_ready : GetDatabaseItemRequest := mkGetItem job_key (state_is "ready").
Definition finish_job : UpsertDatabaseItemRequest := mkUpsertItem job_key (state_is "ready") (state_is "done").

(** The queries that the database knows: those of the requests above, and those that the job client's lead to. *)
Definition queries : list Select :=
  [get_select get_ready; upsert_select finish_job; get_select (mkGetItem job_key []); upsert_select (mkUpsertItem job_key [] [])].

#[local] Instance spanner : Spanner Db := {|
  ExecuteQuery s db := q ← List.find (λ q, bool_decide (render q = text s)) queries; select q (params s) db;
  at_end := inr (inl kInternal);
  Apply m db :=
    match m with
    | Insert t _ [k; JSON (Some j)] =>
        match db t [k], doc_parse j with
        | Some _, _ => inl kAlreadyExists
        | None, Some d => inr (put t [k] d db)
        | None, None => inl kInvalidArgument
        end
    | InsertOrUpdate t _ [k; JSON (Some j)] => from_option (λ d, inr (put t [k] d db)) (inl kInvalidArgument) (doc_parse j)
    | _ => inl kInvalidArgument
    end |}.

#[local] Instance state : SpannerState Db := {| key_columns _ _ := ["JobId"]; row_at db := db |}.

#[local, refine] Instance laws : SpannerLaws Db := {| rows_end := _ |}.
Proof.
  - by exists kInternal.
  - intros db table [|k [|]] t d Hl Hd; try done. cbn [row_at state Apply spanner app]. rewrite Hd.
    destruct (db table [k]); [done|]. by eexists.
  - intros db table [|k [|]] t d Hl Hd; try done. cbn [Apply spanner app]. rewrite Hd. by eexists.
Defined.

(** The query of a request is answered by any database of exact documents. *)
Lemma select_answers q p db : In q queries → answers db q p.
Proof.
  intros Hq key _ Hkey. cbn zeta. cbn [ExecuteQuery spanner text].
  assert (List.find (λ q', bool_decide (render q' = render q)) queries = Some q) as ->.
  { destruct Hq as [<-|[<-|[<-|[<-|[]]]]]; vm_compute; reflexivity. }
  cbn [mbind option_bind params]. unfold select. rewrite Hkey. cbn [mbind option_bind row_at state].
  destruct (db (from_table q) key) as [[d|]|]; cbn [mbind option_bind]; [..|done].
  - intros Hx _. destruct (holds_where _ _ _); [|done]. eexists. split; [done|]. by apply (doc_parse_dump d).
  - destruct (bool_decide _); [|done]. destruct (null_as_empty q); (eexists; split; [reflexivity|]); [|by eexists].
    eexists. split; [done|]. apply (doc_parse_dump (DObject ∅)); [|done]. apply map_Forall_empty.
Qed.

Definition no_rows : Db := λ _ _, None.
Definition one_row (v : string) (row : Row) : Db := put "jobs" [STRING v] (DObject (member_of <$> row)) no_rows.

Lemma no_rows_implements : implements "jobs" "JobId" no_rows empty_cloud.
Proof. split; [done|]. intros v. cbn [rows empty_cloud]. by rewrite lookup_empty. Qed.

Lemma one_row_implements v row : plain_row row → implements "jobs" "JobId" (one_row v row) (mkCloud {[("jobs", v) := row]} ∅ ∅ 0).
Proof.
  intros Hp. split; [done|]. intros w. unfold one_row, put. cbn [rows row_at state]. destruct (decide (w = v)) as [->|Hv].
  - rewrite lookup_singleton_eq. eexists. split; [by rewrite decide_True|]. by split; [|left].
  - rewrite lookup_singleton_ne by congruence. rewrite decide_False by (intros [_ ?]; congruence). done.
Qed.

Definition ready : Row := {["state" := ValueString "ready"]}.
Definition one_job : Cloud := mkCloud {[("jobs", "j") := ready]} ∅ ∅ 0.
Definition db0 : Db := one_row "j" ready.

Lemma db0_implements : implements "jobs" "JobId" db0 one_job.
Proof. apply one_row_implements. by apply map_Forall_singleton. Qed.

Definition jobs : TableKeys := {["jobs" := ("JobId", None)]}.

Lemma jobs_keys v : ValidatePartitionAndSortKey jobs (string_key "jobs" "JobId" v) = SuccessExecutionResult.
Proof. vm_compute. reflexivity. Qed.

Lemma state_strings t : strings (state_is t).
Proof. apply Forall_singleton. by exists t. Qed.

Lemma one_job_no_int v row a z : rows one_job !! ("jobs", v) = Some row → a ∈ state_is "ready" → row !! name a ≠ Some (ValueInt z).
Proof. cbn [rows one_job]. intros [_ <-]%lookup_singleton_Some ->%list_elem_of_singleton. done. Qed.

(** The job is found while its state is the required one. *)
Lemma gcp_get_refines_witness :
  ∃ statement, GetDatabaseItem id jobs get_ready SuccessExecutionResult = Sent statement ∧
    (GetDatabaseItemInternal get_ready statement db0).1 = SuccessExecutionResult ∧
    option_Forall2 same_item (GetDatabaseItemInternal get_ready statement db0).2 (Some (item_of job_key ready)).
Proof.
  destruct (gcp_get_refines id jobs "jobs" "JobId" jobs_keys db0 one_job "j" (state_is "ready") db0_implements (state_strings _)
    (one_job_no_int "j")) as (statement & Es & H). exists statement. split; [exact Es|]. apply H. apply select_answers. by left.
Defined.

(** A job that exists is not created again. *)
Lemma gcp_create_refines_witness :
  ∃ options db', CreateDatabaseItem id jobs (mkCreateItem job_key (state_is "new")) SuccessExecutionResult = Sent options ∧
    CreateDatabaseItemInternal (mkCreateItem job_key (state_is "new")) options db0 =
      Some (FailureExecutionResult SC_GCP_ALREADY_EXISTS, db') ∧ implements "jobs" "JobId" db' one_job.
Proof.
  destruct (gcp_create_refines id jobs "jobs" "JobId" jobs_keys db0 one_job "j" (state_is "new") db0_implements)
    as (options & r & answer & s' & db' & Es & Ec & Ei & H).
  - by apply Forall_singleton.
  - apply NoDup_singleton.
  - intros d _. by eexists.
  - exists options, db'. assert (s' = one_job ∧ r = FailureExecutionResult SC_GCP_ALREADY_EXISTS) as [-> ->]; [|done].
    vm_compute in Ec. injection Ec as <- _ <-. split; vm_compute; reflexivity.
Defined.

(** The job is done, after one aborted transaction. *)
Lemma gcp_upsert_refines_witness :
  ∃ task db', UpsertDatabaseItem id jobs finish_job SuccessExecutionResult = Sent task ∧
    UpsertDatabaseItemInternal task [db0] None db0 = Some (SuccessExecutionResult, db') ∧
    implements "jobs" "JobId" db' (set_rows {[("jobs", "j") := {["state" := ValueString "done"]}]} one_job).
Proof.
  destruct (gcp_upsert_refines id jobs "jobs" "JobId" jobs_keys db0 one_job "j" (state_is "ready") (state_is "done") [db0]
    db0_implements (state_strings _) (one_job_no_int "j")) as (task & r & answer & s' & Es & Eu & H).
  - done.
  - by apply Forall_singleton.
  - apply NoDup_singleton.
  - intros d _. by eexists.
  - destruct H as (db' & Hi & E).
    + apply select_answers. by right; left.
    + apply Forall_singleton. vm_compute in Es. injection Es as <-. vm_compute. by eexists.
    + exists task, db'. split; [exact Es|]. vm_compute in Eu. injection Eu as <- _ <-. split; [exact E|exact Hi].
Defined.

(** With a number as its sort key, an item that does not exist cannot be written. *)
Definition numbered : UpsertDatabaseItemRequest :=
  mkUpsertItem (mkItemKey "jobs" (Some (mkAttribute "JobId" (ValueString "j"))) (Some (mkAttribute "n" (ValueInt 7)))) [] (state_is "new").

Lemma upsert_arity_witness :
  ∃ task m, UpsertDatabaseItem id ∅ numbered SuccessExecutionResult = Sent task ∧
    UpsertFunctor task no_rows = Some (SuccessExecutionResult, [m]) ∧ (mutation_arity m).1 ≠ (mutation_arity m).2.
Proof.
  destruct (UpsertDatabaseItem id ∅ numbered SuccessExecutionResult) as [|task] eqn:Et; [by vm_compute in Et|].
  destruct (UpsertFunctor task no_rows) as [[r [|m [|]]]|] eqn:Em;
    try (exfalso; vm_compute in Et; injection Et as <-; vm_compute in Em; discriminate Em).
  exists task, m. split; [done|]. split.
  - rewrite Em. vm_compute in Et. injection Et as <-. vm_compute in Em. injection Em as <- <-. vm_compute. reflexivity.
  - intros E. apply (upsert_arity id ∅ numbered SuccessExecutionResult task no_rows r m Et Em) in E. cbn in E. naive_solver.
Defined.
End GcpNoSqlRuns.
