(* ===== verification/AwsNoSql.v ===== *)
(** * AwsNoSql: a NoSQL database in DynamoDB

    Models [aws_nosql_database_client_provider.cc] and
    [aws_nosql_database_client_utils.h] of
    [cc/cpio/client_providers/nosql_database_client_provider/src/aws].  A method
    builds a request for DynamoDB, whose conditions are expressions with
    placeholders, and a callback takes the outcome.  The requests are values
    here, with their expressions built as the code builds them; DynamoDB comes
    in [AwsNoSqlSpec].  [SC_UNKNOWN] is what the methods for tables return. *)

From Stdlib Require Import Ascii.
From stdpp Require Import pretty.
From S2P Require Import Prelude ExecResult Provider Decimal Utils JobClient NoSql.

Local Open Scope string_scope.
Local Open Scope list_scope.
Local Open Scope Z_scope.

(** With the region of the instance. *)
Definition Run {Client} (region : ExecutionResult + string) (CreateClient : string → ExecutionResult + Client) : ExecutionResult + Client :=
  connect region CreateClient.

(** [strcmp(a, b) == 0]. *)
Definition same_c_str (a b : string) : bool := bool_decide (c_str a = c_str b).

(** [Aws::DynamoDB::Model::AttributeValue]: numbers are texts. *)
Inductive DynamoValue := DN (text : string) | DS (s : string) | DOtherType.

#[global] Instance DynamoValue_eq_dec : EqDecision DynamoValue.
Proof. solve_decision. Defined.

(** The members of [DynamoDBErrors] that the code names. *)
Inductive DynamoDBErrors :=
  | INTERNAL_FAILURE | SERVICE_UNAVAILABLE | THROTTLING | SLOW_DOWN | REQUEST_TIMEOUT | PROVISIONED_THROUGHPUT_EXCEEDED
  | REQUEST_LIMIT_EXCEEDED | RESOURCE_IN_USE | TABLE_IN_USE | TRANSACTION_IN_PROGRESS | CONDITIONAL_CHECK_FAILED
  | OTHER_ERROR.

Definition ConvertDynamoErrorToExecutionResult (e : DynamoDBErrors) : ExecutionResult :=
  match e with
  | CONDITIONAL_CHECK_FAILED => FailureExecutionResult SC_NO_SQL_DATABASE_PROVIDER_CONDITIONAL_CHECKED_FAILED
  | OTHER_ERROR => FailureExecutionResult SC_NO_SQL_DATABASE_PROVIDER_UNRETRIABLE_ERROR
  | _ => RetryExecutionResult SC_NO_SQL_DATABASE_PROVIDER_RETRIABLE_ERROR
  end.

Record AwsKeyContainer := mkKeys {
  partition_key_name : string;
  partition_key_val : DynamoValue;
  sort_key_of : option (string * DynamoValue)
}.

(** Requests of DynamoDB; an expression that is not set is [None]. *)
Record QueryRequest := mkQuery {
  query_table : string;
  key_condition : string;
  filter_expression : option string;
  query_values : gmap string DynamoValue
}.

Record PutItemRequest := mkPut {
  put_table : string;
  put_item : gmap string DynamoValue;
  put_condition : string
}.

Record UpdateItemRequest := mkUpdate {
  update_table : string;
  update_key : gmap string DynamoValue;
  update_expression : option string;
  update_condition : option string;
  update_values : gmap string DynamoValue
}.

Section utils.
(** [std::stod], and how the SDK prints a [float] and a [double], by their bits. *)
Context (stod : string → option Z) (print_float print_double : Z → string).

Definition FromString_int (s : string) : ExecutionResultOr AttributeValue :=
  match stoi s with Some z => HasValue (ValueInt z) | None => INVALID_TYPE end.

Definition FromString_double (s : string) : ExecutionResultOr AttributeValue :=
  match stod s with Some b => HasValue (ValueDouble b) | None => INVALID_TYPE end.

(** The name is set by the caller. *)
Definition ConvertDynamoDBTypeToItemAttribute (v : DynamoValue) : ExecutionResultOr AttributeValue :=
  match v with
  | DN number =>
      if existsb (λ c, bool_decide (c = "."%char)) (String.list_ascii_of_string number) then FromString_double number
      else FromString_int number
  | DS str => HasValue (ValueString (c_str str))
  | DOtherType => INVALID_TYPE
  end.

Definition ConvertItemAttributeToDynamoDBType (a : ItemAttribute) : ExecutionResultOr DynamoValue :=
  match attribute_value a with
  | ValueInt z => HasValue (DN (pretty z))
  | ValueFloat b => HasValue (DN (print_float b))
  | ValueDouble b => HasValue (DN (print_double b))
  | ValueString s => HasValue (DS s)
  | value_not_set => INVALID_TYPE
  end.

Definition GetPartitionAndSortKeyValues (k : ItemKey) : ExecutionResultOr AwsKeyContainer :=
  match ConvertItemAttributeToDynamoDBType (partition_of k) with
  | HasResult r => HasResult r
  | HasValue v =>
      match sort_key k with
      | None => HasValue (mkKeys (name (partition_of k)) v None)
      | Some a =>
          match ConvertItemAttributeToDynamoDBType a with
          | HasResult r => HasResult r
          | HasValue s => HasValue (mkKeys (name (partition_of k)) v (Some (name a, s)))
          end
      end
  end.

(** The loop of [GetConditionExpressionAndAddValuesToMap], and the one over the new attributes of an
    upsert: ["name= :attribute_0 and "], and so on. *)
Fixpoint append_assignments (prefix separator : string) (attribute_index : nat) (l : list ItemAttribute)
    (attribute_values : gmap string DynamoValue) (out : string) : ExecutionResultOr (gmap string DynamoValue * string) :=
  match l with
  | [] => HasValue (attribute_values, out)
  | a :: l =>
      let out := out +:+ name a +:+ "= " +:+ prefix +:+ pretty attribute_index in
      match ConvertItemAttributeToDynamoDBType a with
      | HasResult r => HasResult r
      | HasValue v =>
          append_assignments prefix separator (S attribute_index) l (emplace (prefix +:+ pretty attribute_index) v attribute_values)
            (if bool_decide (l = []) then out else out +:+ separator)
      end
  end.

Definition GetConditionExpressionAndAddValuesToMap (required : list ItemAttribute) (attribute_values : gmap string DynamoValue)
  : ExecutionResultOr (gmap string DynamoValue * string) :=
  append_assignments ":attribute_" " and " 0 required attribute_values "".

(** An expression that is only set for a list that is not empty. *)
Definition unless_empty (l : list ItemAttribute) (attribute_values : gmap string DynamoValue)
    (build : ExecutionResultOr (gmap string DynamoValue * string)) : ExecutionResultOr (gmap string DynamoValue * option string) :=
  if bool_decide (l = []) then HasValue (attribute_values, None)
  else match build with HasResult r => HasResult r | HasValue (m, e) => HasValue (m, Some e) end.

(** ** Items *)

Definition CreateTable : Started unit := Rejected (FailureExecutionResult SC_UNKNOWN) false.
Definition DeleteTable : Started unit := Rejected (FailureExecutionResult SC_UNKNOWN) false.

Definition GetDatabaseItem (request : GetDatabaseItemRequest) : Started QueryRequest :=
  or_reject true (GetPartitionAndSortKeyValues (get_key request)) (λ keys,
  let condition_expression := partition_key_name keys +:+ "= :partition_key" in
  let attribute_values := {[":partition_key" := partition_key_val keys]} in
  let '(condition_expression, attribute_values) :=
    match sort_key_of keys with
    | Some (n, v) => (condition_expression +:+ " and " +:+ n +:+ "= :sort_key", emplace ":sort_key" v attribute_values)
    | None => (condition_expression, attribute_values)
    end in
  or_reject true
    (unless_empty (get_required request) attribute_values
       (GetConditionExpressionAndAddValuesToMap (get_required request) attribute_values)) (λ '(attribute_values, filter),
  Sent (mkQuery (table_name (get_key request)) condition_expression filter attribute_values))).

(** The attributes of an item, until one that cannot be converted; the keys are skipped. *)
Fixpoint add_attributes (k : ItemKey) (item : list (string * DynamoValue)) (attributes : list ItemAttribute)
  : ExecutionResult * list ItemAttribute :=
  match item with
  | [] => (SuccessExecutionResult, attributes)
  | (n, v) :: item =>
      if same_c_str n (name (partition_of k)) || from_option (λ a, same_c_str n (name a)) false (sort_key k)
      then add_attributes k item attributes
      else match ConvertDynamoDBTypeToItemAttribute v with
           | HasResult r => (r, attributes)
           | HasValue v => add_attributes k item (attributes ++ [mkAttribute (c_str n) v])
           end
  end.

Definition OnGetDatabaseItemCallback (request : GetDatabaseItemRequest)
    (outcome : DynamoDBErrors + list (gmap string DynamoValue)) : ExecutionResult * option Item :=
  match outcome with
  | inl e => (ConvertDynamoErrorToExecutionResult e, None)
  | inr [item] =>
      let '(r, attributes) := add_attributes (get_key request) (map_to_list item) [] in
      (r, Some (mkItem (Some (get_key request)) attributes))
  | inr _ => (FailureExecutionResult SC_NO_SQL_DATABASE_PROVIDER_RECORD_NOT_FOUND, None)
  end.

(** [AddItem] for the attributes of a request. *)
Fixpoint add_items (l : list ItemAttribute) (item : gmap string DynamoValue) : ExecutionResultOr (gmap string DynamoValue) :=
  match l with
  | [] => HasValue item
  | a :: l =>
      match ConvertItemAttributeToDynamoDBType a with
      | HasResult r => HasResult r
      | HasValue v => add_items l (emplace (name a) v item)
      end
  end.

Definition add_keys (keys : AwsKeyContainer) : gmap string DynamoValue :=
  let item := {[partition_key_name keys := partition_key_val keys]} in
  match sort_key_of keys with Some (n, v) => emplace n v item | None => item end.

Definition CreateDatabaseItem (request : CreateDatabaseItemRequest) : Started PutItemRequest :=
  or_reject true (GetPartitionAndSortKeyValues (create_key request)) (λ keys,
  let condition_expression := "attribute_not_exists(" +:+ partition_key_name keys +:+ ")" in
  let condition_expression :=
    match sort_key_of keys with
    | Some (n, _) => c_str condition_expression +:+ " and attribute_not_exists(" +:+ n +:+ ")"
    | None => condition_expression
    end in
  or_reject true (add_items (create_attributes request) (add_keys keys)) (λ item,
  Sent (mkPut (table_name (create_key request)) item condition_expression))).

Definition UpsertDatabaseItem (request : UpsertDatabaseItemRequest) : Started UpdateItemRequest :=
  or_reject true (GetPartitionAndSortKeyValues (upsert_key request)) (λ keys,
  or_reject true
    (unless_empty (new_attributes request) ∅ (append_assignments ":new_attribute_" " , " 0 (new_attributes request) ∅ "SET "))
    (λ '(attribute_values, update),
  or_reject true
    (unless_empty (upsert_required request) attribute_values
       (GetConditionExpressionAndAddValuesToMap (upsert_required request) attribute_values)) (λ '(attribute_values, condition),
  Sent (mkUpdate (table_name (upsert_key request)) (add_keys keys) update condition attribute_values)))).

(** [OnCreateDatabaseItemCallback] and [OnUpsertDatabaseItemCallback]. *)
Definition OnWriteCallback {A} (outcome : DynamoDBErrors + A) : ExecutionResult :=
  match outcome with inl e => ConvertDynamoErrorToExecutionResult e | inr _ => SuccessExecutionResult end.
End utils.
