(* ===== verification/AwsNoSqlSpec.v ===== *)
(** * AwsNoSqlSpec: the DynamoDB client is the database of the job client

    The expressions that the provider builds piece by piece are the texts of
    lists of conditions and assignments.  With a DynamoDB that evaluates them as
    documented, every operation does what [JobClientSpec] assumes of the
    database, failed conditions included.  A query reads the state that
    DynamoDB shows it, which may be older than the last write: the provider does
    not ask for a consistent read. *)

From Stdlib Require Import Ascii.
From stdpp Require Import pretty.
From S2P Require Import Prelude ExecResult Provider Decimal Utils JobClient JobClientSpec NoSql AwsNoSql.

Local Open Scope string_scope.
Local Open Scope list_scope.
Local Open Scope Z_scope.

(** ** Expressions *)

(** A name and its placeholder: a condition, or an assignment. *)
Definition equation (p : string * string) : string := p.1 +:+ "= " +:+ p.2.
Definition placeholder (prefix : string) (i : nat) : string := prefix +:+ pretty i.
Definition equations (prefix : string) (i : nat) (l : list ItemAttribute) : list (string * string) :=
  zip (name <$> l) (placeholder prefix <$> seq i (length l)).

Lemma placeholder_inj prefix i j : placeholder prefix i = placeholder prefix j → i = j.
Proof. unfold placeholder. induction prefix as [|c prefix IH]; intros E; [by apply (inj pretty)|]. injection E as E. by apply IH. Qed.

Lemma concat_step sep a l : String.concat sep (a :: l) = (if bool_decide (l = []) then a else a +:+ sep) +:+ String.concat sep l.
Proof.
  destruct l as [|b l]; [symmetry; apply string_app_nil|]. rewrite bool_decide_false by done. rewrite <-string_app_assoc. done.
Qed.

Section expressions.
Context (stod : string → option Z) (print_float print_double : Z → string).
#[local] Abbreviation dynamo_value := (ConvertItemAttributeToDynamoDBType print_float print_double).

(** The values of the placeholders, from the index [i] on. *)
Fixpoint values_at (prefix : string) (i : nat) (l : list ItemAttribute) (m : gmap string DynamoValue) : option (gmap string DynamoValue) :=
  match l with
  | [] => Some m
  | a :: l => v ← value (dynamo_value a); values_at prefix (S i) l (emplace (placeholder prefix i) v m)
  end.

Lemma no_value a e : dynamo_value a = HasResult e → e = FailureExecutionResult SC_NO_SQL_DATABASE_PROVIDER_INVALID_PARAMETER_TYPE.
Proof. unfold ConvertItemAttributeToDynamoDBType. by destruct (attribute_value a); intros [= <-]. Qed.

Lemma assignments_text prefix sep i l m out :
  append_assignments print_float print_double prefix sep i l m out =
  match values_at prefix i l m with
  | Some m' => HasValue (m', out +:+ String.concat sep (equation <$> equations prefix i l))
  | None => INVALID_TYPE
  end.
Proof.
  revert i m out. induction l as [|a l IH]; intros i m out; cbn [append_assignments values_at].
  { by cbn; rewrite string_app_nil. }
  destruct (dynamo_value a) as [e|v] eqn:E; [by rewrite (no_value _ _ E)|]. cbn [value mbind option_bind]. rewrite IH.
  fold (placeholder prefix i). destruct (values_at _ _ _ _); [|done]. do 2 f_equal.
  unfold equations. cbn [length seq fmap list_fmap zip zip_with]. rewrite concat_step.
  change (equation (name a, placeholder prefix i)) with (name a +:+ "= " +:+ placeholder prefix i).
  destruct l as [|b l]; [cbn [zip zip_with fmap list_fmap]; do 2 rewrite bool_decide_true by done; by rewrite <-?string_app_assoc|].
  do 2 rewrite bool_decide_false by done. by rewrite <-?string_app_assoc.
Qed.

Definition key_equations (k : ItemKey) : list (string * string) :=
  (name (partition_of k), ":partition_key") :: match sort_key k with Some a => [(name a, ":sort_key")] | None => [] end.

Definition key_values (k : ItemKey) : option (gmap string DynamoValue) :=
  v ← value (dynamo_value (partition_of k));
  match sort_key k with
  | Some a => s ← value (dynamo_value a); Some (emplace ":sort_key" s {[":partition_key" := v]})
  | None => Some {[":partition_key" := v]}
  end.

(** The text of an expression that is only set when it has equations. *)
Definition expression (prefix sep : string) (l : list (string * string)) : option string :=
  if bool_decide (l = []) then None else Some (prefix +:+ String.concat sep (equation <$> l)).

Lemma unless_empty_text prefix sep start l m :
  unless_empty l m (append_assignments print_float print_double prefix sep 0 l m start) =
  match values_at prefix 0 l m with
  | Some m' => HasValue (m', expression start sep (equations prefix 0 l))
  | None => INVALID_TYPE
  end.
Proof.
  unfold unless_empty. rewrite assignments_text. destruct l as [|a l]; [done|]. rewrite bool_decide_false by done.
  by destruct (values_at _ _ _ _).
Qed.

(** The request of a query. *)
Lemma dynamo_get_request request :
  GetDatabaseItem print_float print_double request =
  match key_values (get_key request) ≫= values_at ":attribute_" 0 (get_required request) with
  | Some m =>
      Sent (mkQuery (table_name (get_key request)) (String.concat " and " (equation <$> key_equations (get_key request)))
        (expression "" " and " (equations ":attribute_" 0 (get_required request))) m)
  | None => Rejected (FailureExecutionResult SC_NO_SQL_DATABASE_PROVIDER_INVALID_PARAMETER_TYPE) true
  end.
Proof.
  unfold GetDatabaseItem, GetPartitionAndSortKeyValues, key_values, key_equations.
  destruct (dynamo_value (partition_of _)) as [e|v] eqn:E; [by rewrite (no_value _ _ E)|]. cbn [value mbind option_bind].
  destruct (sort_key (get_key request)) as [a|];
    [destruct (dynamo_value a) as [e|s] eqn:Ea; [by rewrite (no_value _ _ Ea)|]|];
    cbn [value mbind option_bind or_reject partition_key_name partition_key_val sort_key_of];
    unfold GetConditionExpressionAndAddValuesToMap; rewrite unless_empty_text; by destruct (values_at _ _ _ _).
Qed.

(** The request of an upsert, whose new attributes come before the required ones. *)
Lemma dynamo_upsert_request request :
  UpsertDatabaseItem print_float print_double request =
  or_reject true (GetPartitionAndSortKeyValues print_float print_double (upsert_key request)) (λ keys,
  match values_at ":new_attribute_" 0 (new_attributes request) ∅ ≫= values_at ":attribute_" 0 (upsert_required request) with
  | Some m =>
      Sent (mkUpdate (table_name (upsert_key request)) (add_keys keys)
        (expression "SET " " , " (equations ":new_attribute_" 0 (new_attributes request)))
        (expression "" " and " (equations ":attribute_" 0 (upsert_required request))) m)
  | None => Rejected (FailureExecutionResult SC_NO_SQL_DATABASE_PROVIDER_INVALID_PARAMETER_TYPE) true
  end).
Proof.
  unfold UpsertDatabaseItem. destruct (GetPartitionAndSortKeyValues _ _ _) as [e|keys]; [done|]. cbn [or_reject].
  rewrite unless_empty_text. destruct (values_at ":new_attribute_" _ _ _) as [m|]; [|done]. cbn [or_reject mbind option_bind].
  unfold GetConditionExpressionAndAddValuesToMap. rewrite unless_empty_text. by destruct (values_at _ _ _ _).
Qed.
End expressions.

(** ** Values *)

(** The values that are read as they were written: a string without NUL, or a number of 32 bits. *)
Definition plain (v : AttributeValue) : Prop :=
  match v with ValueInt z => - 2 ^ 31 ≤ z < 2 ^ 31 | ValueString s => no_nul s | _ => False end.

Definition dynamo_of (v : AttributeValue) : DynamoValue :=
  match v with ValueInt z => DN (pretty z) | ValueString s => DS s | _ => DOtherType end.

Lemma dynamo_of_inj v w : plain v → plain w → dynamo_of v = dynamo_of w → v = w.
Proof. destruct v, w; cbn; try done; intros _ _ [= E]; [|by rewrite E]. f_equal. by apply (inj pretty). Qed.

Lemma plain_written pf pd a : plain (attribute_value a) → ConvertItemAttributeToDynamoDBType pf pd a = HasValue (dynamo_of (attribute_value a)).
Proof. unfold ConvertItemAttributeToDynamoDBType. by destruct (attribute_value a). Qed.

Lemma digits_no_point n : existsb (λ c, bool_decide (c = "."%char)) (String.list_ascii_of_string (pretty (n : Z))) = false.
Proof.
  assert (∀ n, 0 ≤ n → existsb (λ c, bool_decide (c = "."%char)) (String.list_ascii_of_string (pretty (n : Z))) = false) as Hpos.
  { intros k Hk. apply not_true_is_false. rewrite existsb_exists. intros (c & Hc & ->%bool_decide_eq_true).
    pose proof (digits_not "."%char _ eq_refl (pretty_digits k Hk)) as Hd. rewrite Forall_forall in Hd.
    apply (Hd "."%char); [|done]. by apply list_elem_of_In. }
  destruct (decide (0 ≤ n)) as [Hn|Hn]; [by apply Hpos|].
  replace n with (- (- n)) by lia. rewrite pretty_minus by lia. cbn. apply Hpos. lia.
Qed.

Lemma dynamo_read stod v : plain v → ConvertDynamoDBTypeToItemAttribute stod (dynamo_of v) = HasValue v.
Proof.
  destruct v; cbn; try done; intros Hv; [|by rewrite Hv]. rewrite digits_no_point. unfold FromString_int. by rewrite stoi_pretty.
Qed.

(** A string without NUL and a number of 32 bits are read from DynamoDB as they were written. *)
Theorem dynamo_value_roundtrip stod pf pd a : plain (attribute_value a) →
  ∃ v, ConvertItemAttributeToDynamoDBType pf pd a = HasValue v ∧ ConvertDynamoDBTypeToItemAttribute stod v = HasValue (attribute_value a).
Proof.
  intros Ha. exists (dynamo_of (attribute_value a)). split; [by apply plain_written|by apply dynamo_read].
Qed.

Lemma plain_values pf pd prefix i l m : Forall (plain ∘ attribute_value) l → (∀ j, i ≤ j → m !! placeholder prefix j = None)%nat →
  ∃ m', values_at pf pd prefix i l m = Some m' ∧ (∀ k, (∀ j, k ≠ placeholder prefix j) → m' !! k = m !! k) ∧
    (∀ j, (j < i)%nat → m' !! placeholder prefix j = m !! placeholder prefix j) ∧
    ∀ j a, l !! j = Some a → m' !! placeholder prefix (i + j) = Some (dynamo_of (attribute_value a)).
Proof.
  intros Hl. revert i m. induction Hl as [|a l Ha Hl IH]; intros i m Hm; cbn [values_at]; [by exists m|].
  rewrite plain_written by done. cbn [value mbind option_bind]. unfold emplace. rewrite Hm by done.
  destruct (IH (S i) (<[placeholder prefix i := dynamo_of (attribute_value a)]> m)) as (m' & E & H1 & H2 & H3).
  { intros j Hj. rewrite lookup_insert_ne by (intros ?%placeholder_inj; lia). apply Hm. lia. }
  exists m'. split; [done|]. split; [|split].
  - intros k Hk. rewrite H1 by done. by rewrite lookup_insert_ne by (intros ?; by apply (Hk i)).
  - intros j Hj. rewrite H2 by lia. by rewrite lookup_insert_ne by (intros ?%placeholder_inj; lia).
  - intros [|j] b Hb; cbn in Hb.
    + injection Hb as <-. rewrite Nat.add_0_r, H2 by lia. by rewrite lookup_insert_eq.
    + rewrite <-Nat.add_succ_comm. by apply H3.
Qed.

(** ** DynamoDB *)

(** [item_at] is the item with a key, its key included, and [key_schema] the names of a table's key. *)
Class Dynamo (Db : Type) := {
  Query : QueryRequest → Db → DynamoDBErrors + list (gmap string DynamoValue);
  PutItem : PutItemRequest → Db → DynamoDBErrors + Db;
  UpdateItem : UpdateItemRequest → Db → DynamoDBErrors + Db;
  key_schema : Db → string → gset string;
  item_at : Db → string → gmap string DynamoValue → option (gmap string DynamoValue)
}.

(** Values whose equality is that of their texts. *)
Definition canonical (v : DynamoValue) : Prop := match v with DN t => ∃ z : Z, t = pretty z | DS _ => True | DOtherType => False end.

Section dynamo.
Context {Db : Type} `{!Dynamo Db}.
Implicit Types db : Db.

Definition wrote db (table : string) (key item : gmap string DynamoValue) db' : Prop :=
  (∀ t, key_schema db' t = key_schema db t) ∧
  ∀ t k, item_at db' t k = if decide (t = table ∧ k = key) then Some item else item_at db t k.

Definition satisfied (l : list (string * string)) (values item : gmap string DynamoValue) : bool :=
  forallb (λ p, match values !! p.2 with Some v => bool_decide (item !! p.1 = Some v) | None => false end) l.

(** The names that equations give values. *)
Definition assigned (l : list (string * string)) (values : gmap string DynamoValue) : option (gmap string DynamoValue) :=
  list_to_map <$> mapM (λ p, (p.1,.) <$> values !! p.2) l.

(** A query with the key [keys] of its table, and a filter. *)
Definition answers db (table : string) (keys filter : list (string * string)) (values : gmap string DynamoValue) : Prop :=
  ∀ key, assigned keys values = Some key → dom key = key_schema db table → map_Forall (λ _, canonical) values →
  let outcome := Query (mkQuery table (String.concat " and " (equation <$> keys)) (expression "" " and " filter) values) db in
  match item_at db table key with
  | None => outcome = inr []
  | Some item => map_Forall (λ _, canonical) item → outcome = inr (if satisfied filter values item then [item] else [])
  end.

(** An update with assignments and conditions: the item need not exist, unless there are conditions. *)
Definition updates db (table : string) (sets conditions : list (string * string)) (key values : gmap string DynamoValue) : Prop :=
  ∀ new, dom key = key_schema db table → sets ≠ [] → NoDup sets.*1 → assigned sets values = Some new → dom new ## dom key →
  map_Forall (λ _, canonical) values → from_option (map_Forall (λ _, canonical)) True (item_at db table key) →
  let outcome := UpdateItem (mkUpdate table key (expression "SET " " , " sets) (expression "" " and " conditions) values) db in
  let old := item_at db table key in
  if bool_decide (conditions = []) || from_option (satisfied conditions values) false old
  then ∃ db', outcome = inr db' ∧ wrote db table key (new ∪ default key old) db'
  else outcome = inl CONDITIONAL_CHECK_FAILED.
End dynamo.

(** What DynamoDB's documentation says of putting an item on the condition that it has no key attribute:
    it has one if it exists. *)
Class DynamoLaws (Db : Type) `{!Dynamo Db} := {
  put_new (db : Db) table n key item : n ∈ key_schema db table → dom key = key_schema db table → key ⊆ item →
    let outcome := PutItem (mkPut table item ("attribute_not_exists(" +:+ n +:+ ")")) db in
    match item_at db table key with
    | Some _ => outcome = inl CONDITIONAL_CHECK_FAILED
    | None => ∃ db', outcome = inr db' ∧ wrote db table key item db'
    end
}.

(** ** Operations *)

Section refinement.
Context {Db : Type} `{!Dynamo Db} `{!DynamoLaws Db}.
Context (stod : string → option Z) (print_float print_double : Z → string) (table pk : string).
Implicit Types (db : Db) (s : Cloud).
Hypothesis Hpk : no_nul pk.

Definition string_key (v : string) : ItemKey := mkItemKey table (Some (mkAttribute pk (ValueString v))) None.

(** The attributes of a row, none of which has the name of the key. *)
Definition plain_row (row : Row) : Prop := row !! pk = None ∧ map_Forall (λ n v, no_nul n ∧ plain v) row.
Definition item_for (v : string) (row : Row) : gmap string DynamoValue := <[pk := DS v]> (dynamo_of <$> row).

(** The table holds the rows that the job client's database has. *)
Definition implements db s : Prop :=
  key_schema db table = {[pk]} ∧
  ∀ v, match rows s !! (table, v) with
       | None => item_at db table {[pk := DS v]} = None
       | Some row => plain_row row ∧ item_at db table {[pk := DS v]} = Some (item_for v row)
       end.

(** The attributes of a request. *)
Definition plain_attributes (l : list ItemAttribute) : Prop :=
  Forall (λ a, no_nul (name a) ∧ plain (attribute_value a)) l ∧ pk ∉ name <$> l.

Lemma plain_attributes_values l : plain_attributes l → Forall (plain ∘ attribute_value) l.
Proof. intros [H _]. eapply Forall_impl; [exact H|]. by intros a [_ ?]. Qed.

Lemma plain_canonical v : plain v → canonical (dynamo_of v).
Proof. destruct v as [|z| | |]; cbn; try done. by exists z. Qed.

Lemma item_canonical v row : plain_row row → map_Forall (λ _, canonical) (item_for v row).
Proof.
  intros [_ Hr]. apply map_Forall_insert_2; [done|]. apply map_Forall_fmap. intros n w Hw. by apply plain_canonical, (Hr n w).
Qed.

(** The conditions on an item are those on the row. *)
Lemma satisfied_row l i m v row : plain_row row → plain_attributes l →
  (∀ j a, l !! j = Some a → m !! placeholder ":attribute_" (i + j) = Some (dynamo_of (attribute_value a))) →
  satisfied (equations ":attribute_" i l) m (item_for v row) = row_matches l row.
Proof.
  intros [Hk Hr] [Hl Hn]. revert i. induction Hl as [|a l [_ Ha] Hl IH]; intros i Hm; [done|].
  unfold satisfied, row_matches, equations. cbn [fmap list_fmap length seq zip zip_with forallb fst snd]. f_equal.
  - pose proof (Hm 0%nat a eq_refl) as H0. rewrite Nat.add_0_r in H0. rewrite H0. apply bool_decide_ext. unfold item_for.
    rewrite lookup_insert_ne by (intros E; apply Hn; rewrite E; left). rewrite lookup_fmap.
    destruct (row !! name a) as [w|] eqn:E; cbn; [|done]. split; [|congruence]. intros [= E']. f_equal.
    apply dynamo_of_inj; [by apply (Hr _ _ E)|done|done].
  - apply IH; [intros H; apply Hn; by right|]. intros j b Hb. rewrite Nat.add_succ_comm. by apply (Hm (S j)).
Qed.

(** The values of a request. *)
Lemma values_canonical pf pd prefix i l m m' : Forall (plain ∘ attribute_value) l → map_Forall (λ _, canonical) m →
  values_at pf pd prefix i l m = Some m' → map_Forall (λ _, canonical) m'.
Proof.
  intros Hl. revert i m. induction Hl as [|a l Ha Hl IH]; intros i m Hm; cbn [values_at]; [by intros [= <-]|].
  rewrite plain_written by done. cbn [value mbind option_bind]. apply IH. unfold emplace. destruct (m !! _); [done|].
  apply map_Forall_insert_2; [|done]. by apply plain_canonical.
Qed.

(** The attributes that are read from a list of members. *)
Definition read_members (l : list (string * DynamoValue)) : list ItemAttribute :=
  omap (λ p, if decide (p.1 = pk) then None else mkAttribute p.1 <$> value (ConvertDynamoDBTypeToItemAttribute stod p.2)) l.

Lemma add_attributes_members v l acc :
  Forall (λ p, p.1 = pk ∨ p.1 ≠ pk ∧ no_nul p.1 ∧ ∃ w, plain w ∧ p.2 = dynamo_of w) l →
  add_attributes stod (string_key v) l acc = (SuccessExecutionResult, acc ++ read_members l).
Proof.
  intros Hl. revert acc. induction Hl as [|[n x] l Hx Hl IH]; intros acc; [by rewrite app_nil_r|].
  cbn [add_attributes partition_of string_key partition_key from_option id sort_key name fst snd] in *. rewrite orb_false_r.
  unfold read_members. cbn [omap list_omap fst snd]. unfold same_c_str. destruct Hx as [->|(Hn & Hc & w & Hw & ->)].
  - rewrite bool_decide_true, decide_True by done. apply IH.
  - rewrite Hc, Hpk, bool_decide_false, decide_False by done. rewrite dynamo_read by done. cbn [value fmap option_fmap option_map].
    rewrite IH. by rewrite <-app_assoc.
Qed.

Lemma read_item v row : plain_row row →
  add_attributes stod (string_key v) (map_to_list (item_for v row)) [] = (SuccessExecutionResult, read_members (map_to_list (item_for v row))) ∧
  read_members (map_to_list (item_for v row)) ≡ₚ (λ p, mkAttribute p.1 p.2) <$> map_to_list row.
Proof.
  intros [Hk Hr]. split.
  - apply (add_attributes_members v _ []). apply Forall_forall. intros [n x] Hin%elem_of_map_to_list.
    unfold item_for in Hin. apply lookup_insert_Some in Hin as [[-> _]|[Hne Hin]]; [by left|right]. apply lookup_fmap_Some in Hin as (w & <- & Hw).
    destruct (Hr n w Hw). cbn. repeat split; [congruence|done|by exists w].
  - unfold item_for, read_members. rewrite map_to_list_insert by (by rewrite lookup_fmap, Hk). cbn [omap list_omap fst snd].
    rewrite decide_True by done. rewrite map_to_list_fmap.
    assert (Forall (λ p, p.1 ≠ pk ∧ plain p.2) (map_to_list row)) as Hl.
    { apply Forall_forall. intros [n w] Hin%elem_of_map_to_list. cbn. split; [intros ->; congruence|by apply (Hr n w)]. }
    induction Hl as [|[n w] l [Hn Hw] Hl IH]; [done|]. cbn in Hn, Hw |- *. rewrite decide_False by done. rewrite dynamo_read by done.
    cbn. by rewrite IH.
Qed.

(** The values of a query. *)
Lemma query_params v l : plain_attributes l →
  ∃ m, key_values print_float print_double (string_key v) ≫= values_at print_float print_double ":attribute_" 0 l = Some m ∧
    m !! ":partition_key" = Some (DS v) ∧ map_Forall (λ _, canonical) m ∧
    ∀ j a, l !! j = Some a → m !! placeholder ":attribute_" (0 + j) = Some (dynamo_of (attribute_value a)).
Proof.
  intros Hl%plain_attributes_values. unfold key_values. cbn [string_key partition_of partition_key from_option id sort_key].
  destruct (plain_values print_float print_double ":attribute_" 0 l {[":partition_key" := DS v]} Hl) as (m & E & H1 & _ & H3).
  { intros j _. by rewrite lookup_singleton_ne. }
  exists m. split; [exact E|]. split; [|split; [|exact H3]].
  - rewrite H1; [by rewrite lookup_singleton_eq|]. by intros j.
  - eapply values_canonical; [exact Hl| |exact E]. by apply map_Forall_singleton.
Qed.

(** Reading an item from DynamoDB does what the job client assumes of the database, on the state that
    the query sees: it gives the attributes of the row if the row exists and has the required ones, and
    otherwise that there is no such record. *)
Theorem aws_get_refines db s v required : implements db s → plain_attributes required →
  let request := mkGetItem (string_key v) required in
  ∃ query, GetDatabaseItem print_float print_double request = Sent query ∧
    (answers db table (key_equations (string_key v)) (equations ":attribute_" 0 required) (query_values query) →
     (OnGetDatabaseItemCallback stod request (Query query db)).1 = (get_item request s).1 ∧
     option_Forall2 same_item (OnGetDatabaseItemCallback stod request (Query query db)).2 (get_item request s).2).
Proof.
  intros [Hk Hrows] Hl request. destruct (query_params v required Hl) as (m & Em & Hv & Hc & Hm). eexists. split.
  { rewrite dynamo_get_request. cbn [get_key get_required request]. rewrite Em. reflexivity. }
  cbn [query_values]. intros Ha. specialize (Ha {[pk := DS v]}). cbn zeta in Ha.
  specialize (Hrows v). unfold get_item.
  cbn [key_of get_key request string_key partition_key table_name mbind option_bind get_required].
  assert (assigned (key_equations (string_key v)) m = Some {[pk := DS v]}) as Hkey.
  { unfold assigned, key_equations. cbn. rewrite Hv. done. }
  specialize (Ha Hkey ltac:(by rewrite dom_singleton_L) Hc).
  destruct (rows s !! (table, v)) as [row|]; [|rewrite Hrows in Ha; rewrite Ha; split; [done|constructor]].
  destruct Hrows as [Hr Hi]. rewrite Hi in Ha. rewrite (Ha (item_canonical v row Hr)), (satisfied_row required 0 m v row Hr Hl Hm).
  destruct (row_matches required row); [|split; [done|constructor]].
  destruct (read_item v row Hr) as [E Hp]. cbn [OnGetDatabaseItemCallback get_key request]. rewrite E. split; [done|]. constructor. by split.
Qed.

(** The database after a write. *)
Definition after (outcome : DynamoDBErrors + Db) db : Db := match outcome with inl _ => db | inr db' => db' end.

Lemma dynamo_wrote db db' s v row : implements db s → plain_row row → wrote db table {[pk := DS v]} (item_for v row) db' →
  implements db' (set_rows (<[(table, v) := row]> (rows s)) s).
Proof.
  intros [Hk Hrows] Hr [Hc Hw]. split; [by rewrite Hc|]. intros w. cbn [set_rows rows]. rewrite Hw.
  destruct (decide (w = v)) as [->|Hne].
  - by rewrite lookup_insert_eq, decide_True.
  - rewrite lookup_insert_ne by congruence. rewrite decide_False; [apply Hrows|]. intros [_ E]. apply Hne.
    by apply (f_equal (.!! pk)) in E; rewrite !lookup_singleton_eq in E; injection E.
Qed.

(** The attributes of a request are those of a row. *)
Lemma plain_new_row l : plain_attributes l → plain_row (list_to_map (pairs l)).
Proof.
  intros [Hl Hn]. split.
  - apply not_elem_of_list_to_map_1. unfold pairs. by rewrite <-list_fmap_compose.
  - clear Hn. induction Hl as [|a l Ha Hl IH]; [apply map_Forall_empty|]. by apply map_Forall_insert_2.
Qed.

Lemma add_items_row l item : Forall (plain ∘ attribute_value) l → NoDup (name <$> l) → (∀ a, a ∈ l → item !! name a = None) →
  add_items print_float print_double l item = HasValue ((dynamo_of <$> list_to_map (M:=Row) (pairs l)) ∪ item).
Proof.
  intros Hl. revert item. induction Hl as [|a l Ha Hl IH]; intros item Hn Hi.
  { cbn. by rewrite fmap_empty, (left_id_L ∅ (∪)). }
  apply NoDup_cons in Hn as [Hna Hn]. cbn [add_items]. rewrite plain_written by done. unfold emplace. rewrite Hi by left.
  rewrite IH; [|done|].
  - f_equal. cbn. rewrite fmap_insert, <-insert_union_l. symmetry. apply insert_union_r. rewrite lookup_fmap.
    rewrite not_elem_of_list_to_map_1; [done|]. unfold pairs. by rewrite <-list_fmap_compose.
  - intros b Hb. rewrite lookup_insert_ne; [by apply Hi; right|]. intros E. apply Hna. rewrite E. by apply list_elem_of_fmap_2.
Qed.

(** An item with new attributes over those of a row, if there is one. *)
Lemma item_merge v new old : new !! pk = None →
  (dynamo_of <$> new) ∪ default {[pk := DS v]} (item_for v <$> old) = item_for v (new ∪ default ∅ old).
Proof.
  intros Hn. assert (∀ m : Row, (dynamo_of <$> new) ∪ item_for v m = item_for v (new ∪ m)) as H.
  { intros m. unfold item_for. rewrite map_fmap_union. symmetry. apply insert_union_r. by rewrite lookup_fmap, Hn. }
  destruct old as [old|]; [apply H|]. cbn. rewrite <-H. unfold item_for. by rewrite fmap_empty.
Qed.

(** Creating an item in DynamoDB does what the job client assumes of the database: it adds the row when
    there is none with the key, and otherwise reports a failed condition and changes nothing. *)
Theorem aws_create_refines db s v l : implements db s → plain_attributes l → NoDup (name <$> l) →
  let request := mkCreateItem (string_key v) l in
  ∃ put r answer s', CreateDatabaseItem print_float print_double request = Sent put ∧
    create_item SC_NO_SQL_DATABASE_PROVIDER_CONDITIONAL_CHECKED_FAILED request s = Some (r, answer, s') ∧
    OnWriteCallback (PutItem put db) = r ∧ implements (after (PutItem put db) db) s'.
Proof.
  clear Hpk. intros Hi Hl Hn request. pose proof Hi as [Hk Hrows]. specialize (Hrows v). pose proof (plain_new_row l Hl) as Hrow.
  assert (add_items print_float print_double l {[pk := DS v]} = HasValue (item_for v (list_to_map (pairs l)))) as Hitem.
  { rewrite add_items_row; [|by apply plain_attributes_values|done|].
    - f_equal. etransitivity; [exact (item_merge v _ None (proj1 Hrow))|]. cbn. by rewrite (right_id_L ∅ (∪)).
    - intros a Ha. rewrite lookup_singleton_ne; [done|]. intros E. destruct Hl as [_ Hl]. apply Hl. rewrite E. by apply list_elem_of_fmap_2. }
  pose proof (put_new db table pk {[pk := DS v]} (item_for v (list_to_map (pairs l)))) as Hput. rewrite Hk, dom_singleton_L in Hput.
  specialize (Hput ltac:(set_solver) eq_refl ltac:(unfold item_for; apply map_singleton_subseteq_l; by rewrite lookup_insert_eq)).
  eexists. unfold create_item. cbn [key_of create_key request string_key partition_key table_name mbind option_bind create_attributes].
  assert (CreateDatabaseItem print_float print_double request =
    Sent (mkPut table (item_for v (list_to_map (pairs l))) ("attribute_not_exists(" +:+ pk +:+ ")"))) as Esent.
  { unfold CreateDatabaseItem, GetPartitionAndSortKeyValues, add_keys.
    cbn [create_key create_attributes request string_key partition_of partition_key from_option id sort_key ConvertItemAttributeToDynamoDBType
         attribute_value name or_reject partition_key_name partition_key_val sort_key_of table_name]. by rewrite Hitem. }
  cbn zeta in Hput. destruct (rows s !! (table, v)) as [row|].
  - destruct Hrows as [_ Hold]. rewrite Hold in Hput. do 3 eexists. split; [exact Esent|]. split; [reflexivity|]. by rewrite Hput.
  - rewrite Hrows in Hput. destruct Hput as (db' & Hput & Hw). do 3 eexists. split; [exact Esent|]. split; [reflexivity|]. rewrite Hput.
    split; [done|]. by apply (dynamo_wrote db db' s v).
Qed.

Lemma assigned_new i l m :
  (∀ j a, l !! j = Some a → m !! placeholder ":new_attribute_" (i + j) = Some (dynamo_of (attribute_value a))) →
  assigned (equations ":new_attribute_" i l) m = Some (dynamo_of <$> list_to_map (M:=Row) (pairs l)).
Proof.
  revert i. induction l as [|a l IH]; intros i Hm; [unfold assigned; cbn; by rewrite fmap_empty|].
  pose proof (Hm 0%nat a eq_refl) as H0. rewrite Nat.add_0_r in H0.
  specialize (IH (S i)). unfold assigned, equations in *. apply fmap_Some in IH as (x & E & Hx).
  - cbn [fmap list_fmap length seq zip zip_with mapM fst snd]. rewrite H0. cbn [fmap option_fmap option_map mbind option_bind] in *.
    rewrite E. f_equal. change (pairs (a :: l)) with ((name a, attribute_value a) :: pairs l).
    cbn [list_to_map foldr fst snd]. by rewrite fmap_insert, Hx.
  - intros j b Hb. rewrite Nat.add_succ_comm. by apply (Hm (S j)).
Qed.

(** The values of an upsert. *)
Lemma update_params l required : Forall (plain ∘ attribute_value) l → Forall (plain ∘ attribute_value) required →
  ∃ m, values_at print_float print_double ":new_attribute_" 0 l ∅ ≫= values_at print_float print_double ":attribute_" 0 required = Some m ∧
    map_Forall (λ _, canonical) m ∧
    (∀ j a, l !! j = Some a → m !! placeholder ":new_attribute_" (0 + j) = Some (dynamo_of (attribute_value a))) ∧
    ∀ j a, required !! j = Some a → m !! placeholder ":attribute_" (0 + j) = Some (dynamo_of (attribute_value a)).
Proof.
  intros Hl Hr. destruct (plain_values print_float print_double ":new_attribute_" 0 l ∅ Hl) as (m1 & E1 & H1 & _ & H3); [done|].
  destruct (plain_values print_float print_double ":attribute_" 0 required m1 Hr) as (m2 & E2 & H1' & _ & H3').
  { intros j _. by rewrite H1. }
  exists m2. rewrite E1. split; [exact E2|]. split; [|split; [|exact H3']].
  - eapply values_canonical; [exact Hr| |exact E2]. eapply values_canonical; [exact Hl| |exact E1]. apply map_Forall_empty.
  - intros j a Ha. rewrite H1' by done. by apply H3.
Qed.

Lemma plain_row_union new old : plain_row new → plain_row old → plain_row (new ∪ old).
Proof. intros [H1 H2] [H3 H4]. split; [by apply lookup_union_None|by apply map_Forall_union_2]. Qed.

(** What an update does to a table of rows. *)
Lemma update_outcome db s v required l m : implements db s → plain_attributes required → plain_attributes l → l ≠ [] → NoDup (name <$> l) →
  map_Forall (λ _, canonical) m →
  (∀ j a, l !! j = Some a → m !! placeholder ":new_attribute_" (0 + j) = Some (dynamo_of (attribute_value a))) →
  (∀ j a, required !! j = Some a → m !! placeholder ":attribute_" (0 + j) = Some (dynamo_of (attribute_value a))) →
  updates db table (equations ":new_attribute_" 0 l) (equations ":attribute_" 0 required) {[pk := DS v]} m →
  let outcome := UpdateItem (mkUpdate table {[pk := DS v]} (expression "SET " " , " (equations ":new_attribute_" 0 l))
                   (expression "" " and " (equations ":attribute_" 0 required)) m) db in
  let old := rows s !! (table, v) in
  if bool_decide (required = []) || from_option (row_matches required) false old
  then ∃ db', outcome = inr db' ∧ implements db' (set_rows (<[(table, v) := list_to_map (pairs l) ∪ default ∅ old]> (rows s)) s)
  else outcome = inl CONDITIONAL_CHECK_FAILED.
Proof.
  intros Hi Hreq Hl Hne Hn Hc Hnew Hold Hu. pose proof Hi as [Hk Hrows]. specialize (Hrows v). pose proof (plain_new_row l Hl) as Hrow.
  specialize (Hu (dynamo_of <$> list_to_map (M:=Row) (pairs l)) ltac:(by rewrite Hk, dom_singleton_L)). cbn zeta in *.
  assert (item_at db table {[pk := DS v]} = item_for v <$> rows s !! (table, v) ∧ from_option plain_row True (rows s !! (table, v))) as [Hat Hpr].
  { destruct (rows s !! (table, v)); [|done]. by destruct Hrows. }
  rewrite Hat in Hu.
  assert (bool_decide (equations ":attribute_" 0 required = []) || from_option (satisfied (equations ":attribute_" 0 required) m) false (item_for v <$> rows s !! (table, v)) =
          bool_decide (required = []) || from_option (row_matches required) false (rows s !! (table, v))) as Hcond.
  { f_equal; [apply bool_decide_ext; by destruct required|]. destruct (rows s !! (table, v)) as [row|]; [|done]. by apply satisfied_row. }
  rewrite Hcond in Hu. rewrite item_merge in Hu by apply Hrow.
  assert ((equations ":new_attribute_" 0 l).*1 = name <$> l) as Hnames.
  { unfold equations. apply fst_zip. by rewrite !length_fmap, length_seq. }
  assert (plain_row (list_to_map (pairs l) ∪ default ∅ (rows s !! (table, v)))) as Hmerged.
  { destruct (rows s !! (table, v)); cbn [from_option id]; [by apply plain_row_union|]. by rewrite (right_id_L ∅ (∪)). }
  assert (dom (dynamo_of <$> list_to_map (M:=Row) (pairs l)) ## dom ({[pk := DS v]} : gmap string DynamoValue)) as Hdisj.
  { rewrite dom_fmap_L, dom_singleton_L. apply disjoint_singleton_r, not_elem_of_dom. apply Hrow. }
  assert (from_option (map_Forall (λ _, canonical)) True (item_for v <$> rows s !! (table, v))) as Hcan.
  { destruct (rows s !! (table, v)); [by apply item_canonical|done]. }
  specialize (Hu ltac:(by destruct l) ltac:(by rewrite Hnames) (assigned_new 0 l m Hnew) Hdisj Hc Hcan).
  destruct (_ || _); [|done]. destruct Hu as (db' & -> & Hw). exists db'. split; [done|]. by apply (dynamo_wrote db db' s v).
Qed.

(** Upserting an item in DynamoDB does what the job client assumes of the database: where the row has
    the required attributes, or none are required, the new attributes override those of the row, and
    otherwise it reports a failed condition and changes nothing. *)
Theorem aws_upsert_refines db s v required l : implements db s → plain_attributes required → plain_attributes l →
  l ≠ [] → NoDup (name <$> l) →
  let request := mkUpsertItem (string_key v) required l in
  ∃ update r answer s', UpsertDatabaseItem print_float print_double request = Sent update ∧
    upsert_item request s = Some (r, answer, s') ∧
    (updates db table (equations ":new_attribute_" 0 l) (equations ":attribute_" 0 required) {[pk := DS v]} (update_values update) →
     OnWriteCallback (UpdateItem update db) = r ∧ implements (after (UpdateItem update db) db) s').
Proof.
  intros Hi Hreq Hl Hne Hn request.
  destruct (update_params l required (plain_attributes_values l Hl) (plain_attributes_values _ Hreq)) as (m & Em & Hc & Hnew & Hold).
  pose proof (update_outcome db s v required l m Hi Hreq Hl Hne Hn Hc Hnew Hold) as Hu. cbn zeta in Hu.
  eexists. unfold upsert_item.
  cbn [key_of upsert_key upsert_required new_attributes request string_key partition_key table_name mbind option_bind].
  assert (UpsertDatabaseItem print_float print_double request =
    Sent (mkUpdate table {[pk := DS v]} (expression "SET " " , " (equations ":new_attribute_" 0 l))
            (expression "" " and " (equations ":attribute_" 0 required)) m)) as Esent.
  { rewrite dynamo_upsert_request. cbn [upsert_key upsert_required new_attributes request]. rewrite Em. reflexivity. }
  destruct (_ || _); do 3 eexists; (split; [exact Esent|]); (split; [reflexivity|]); intros Hup; specialize (Hu Hup).
  - destruct Hu as (db' & -> & Hi'). done.
  - rewrite Hu. done.
Qed.
End refinement.
