(* ===== verification/JobDatabase.v ===== *)
(** * JobDatabase: the job client over a NoSQL database client

    The job client of [JobClient] calls the database through
    [NoSQLDatabaseClientProviderInterface].  [JobDatabase] is what it relies on,
    for the requests that it makes: the operations refine those on rows that
    [JobClientSpec] is about.  Against the interface, a job that was put, or
    updated, is read back.  The clients for Spanner and for DynamoDB are
    instances, in [GcpJobs] and [AwsJobs]. *)

From S2P Require Import Prelude ExecResult GcpStatus Provider Decimal Utils UuidLib AsyncProg JobClient JobClientSpec JobClientRuns NoSql Queue QueueSpec.

Local Open Scope string_scope.
Local Open Scope list_scope.

(** The same answer: the order of an item's attributes does not matter. *)
Definition same_answer (c : Call) : option (Answer c) → option (Answer c) → Prop :=
  match c with
  | GetDatabaseItem _ => option_Forall2 same_item
  | _ => λ _ _, True
  end.

(** ** The database and the queue together *)

Section cloud.
Context {Db Q : Type} `{!QueueService Q} `{!QueueLaws Q}.
(** What the clients of a cloud do with a call, the rows that a database holds, the calls of the database
    that are supported, and the code for an item that exists. *)
Context (db_does : Db → ∀ c : Call, ExecutionResult → option (Answer c) → Db → Prop).
Context (queue_does : Q → ∀ c : Call, ExecutionResult → option (Answer c) → Q → Prop).
Context (db_holds : Db → Cloud → Prop) (db_supported : Cloud → Call → Prop) (duplicate : Z).

Inductive cloud_does (db : Db) (q : Q) : ∀ c : Call, ExecutionResult → option (Answer c) → Db → Q → Prop :=
  | via_database c r a db' : db_does db c r a db' → cloud_does db q c r a db' q
  | via_queue c r a q' : queue_does q c r a q' → cloud_does db q c r a db q'.

Definition cloud_supported (s : Cloud) (c : Call) : Prop := is_queue_call c ∧ queue_text c ∨ ¬ is_queue_call c ∧ db_supported s c.

(** A cloud whose database and queue simulate those of the job client simulates its cloud. *)
Lemma cloud_simulates :
  (∀ db s s', db_holds db s → rows s' = rows s → db_holds db s') →
  (∀ db s c r a db', db_holds db s → db_supported s c → db_does db c r a db' →
     ∃ a' s', answered duplicate s c = Some (r, a', s') ∧ same_answer c a a' ∧ db_holds db' s') →
  (∀ q s c r a q', queue_holds q s → queue_text c → queue_does q c r a q' → is_queue_call c ∧ performed duplicate s c r a q') →
  (∀ db c r a db', db_does db c r a db' → ¬ is_queue_call c) →
  ∀ db q s c r a db' q', db_holds db s → queue_holds q s → cloud_supported s c → cloud_does db q c r a db' q' →
  ∃ ch a' s', perform duplicate s c ch = Some (r, a', s') ∧ same_answer c a a' ∧ same_top c a a' ∧ db_holds db' s' ∧ queue_holds q' s'.
Proof.
  intros Hrows Hdb Hqueue Hno db q s c r a db' q' Hd Hq Hs Hdoes. destruct Hdoes as [c r a db' Hdoes|c r a q' Hdoes].
  - assert (¬ is_queue_call c) as Hc by (by eapply Hno). destruct Hs as [[? _]|[_ Hs]]; [done|].
    destruct (Hdb db s c r a db' Hd Hs Hdoes) as (a' & s' & E & Ha & Hd'). exists Answered, a', s'.
    split_and!; [done|done|by destruct c|done|]. eapply holds_queue_only; [done|]. by eapply answered_same_queue.
  - assert (queue_text c) as Ht. { destruct Hs as [[_ ?]|[? _]]; [done|]. by destruct c. }
    destruct (Hqueue q s c r a q' Hq Ht Hdoes) as (Hc & ch & a' & s' & E & Ha & Hq' & Hr). exists ch, a', s'.
    split_and!; [done|by destruct c|done|by eapply Hrows|done].
Qed.
End cloud.

(** [holds db s]: the table has the rows of [s].  [storable]: a row that the database keeps.  [reads] and
    [updates]: the service answers the request as its documentation says. *)
Class JobDatabase (Db : Type) (table : string) := {
  holds : Db → Cloud → Prop;
  duplicate_code : Z;
  storable : Row → Prop;
  reads : Db → GetDatabaseItemRequest → Prop;
  updates : Db → UpsertDatabaseItemRequest → Prop;
  db_get : GetDatabaseItemRequest → Db → option (ExecutionResult * option Item);
  db_create : CreateDatabaseItemRequest → Db → option (ExecutionResult * Db);
  db_upsert : UpsertDatabaseItemRequest → Db → option (ExecutionResult * Db);
  db_get_refines db s id : holds db s →
    let request := CreateGetJobByJobIdRequest table id in
    reads db request →
    ∃ item, db_get request db = Some ((get_item request s).1, item) ∧ option_Forall2 same_item item (get_item request s).2;
  db_create_refines db s id l : holds db s → NoDup (name <$> l) → (name <$> l) ⊆ kJobsTableRequiredColumns →
    storable (list_to_map (pairs l)) →
    let request := mkCreateItem (jobs_key table id) l in
    ∃ r answer s' db', create_item duplicate_code request s = Some (r, answer, s') ∧ db_create request db = Some (r, db') ∧ holds db' s';
  db_upsert_refines db s id l : holds db s → l ≠ [] → NoDup (name <$> l) → (name <$> l) ⊆ kJobsTableRequiredColumns →
    storable (list_to_map (pairs l) ∪ default ∅ (rows s !! (table, id))) →
    let request := mkUpsertItem (jobs_key table id) [] l in
    updates db request →
    ∃ r answer s' db', upsert_item request s = Some (r, answer, s') ∧ db_upsert request db = Some (r, db') ∧ holds db' s'
}.

(** ** Items as jobs *)

(** The order of the attributes does not matter. *)
Lemma attributes_perm l l' (m : gmap string ItemAttribute) : NoDup (name <$> l) → l ≡ₚ l' → (∀ a, a ∈ l → m !! name a = None) →
  foldl (λ m a, match m !! name a with Some _ => m | None => <[name a := a]> m end) m l =
  foldl (λ m a, match m !! name a with Some _ => m | None => <[name a := a]> m end) m l'.
Proof.
  intros Hn Hp. revert m Hn. induction Hp as [|a l l' Hp IH|a b l|l1 l2 l3 H1 IH1 H2 IH2]; intros m Hn Hm; [done|..]; cbn.
  - rewrite Hm by left. apply NoDup_cons in Hn as [Ha Hn]. apply IH; [done|]. intros c Hc. rewrite lookup_insert_ne; [by apply Hm; right|].
    intros E. apply Ha. rewrite E. by apply list_elem_of_fmap_2.
  - apply NoDup_cons in Hn as [Ha _]. assert (name a ≠ name b) as Hab by (intros E; apply Ha; rewrite E; left).
    rewrite (Hm b) by left. rewrite (Hm a) by (right; left). rewrite !lookup_insert_ne by done.
    rewrite (Hm a) by (right; left). rewrite (Hm b) by left. by rewrite insert_insert_ne.
  - rewrite IH1 by done. apply IH2; [by rewrite <-H1|]. intros a Ha. apply Hm. by rewrite H1.
Qed.

Lemma existsb_perm {A} (f : A → bool) l l' : l ≡ₚ l' → existsb f l = existsb f l'.
Proof. induction 1 as [|a l l' _ IH|a b l|l1 l2 l3 _ IH1 _ IH2]; cbn; [done|by rewrite IH| |congruence]. by destruct (f a), (f b). Qed.

Lemma item_of_names k row : NoDup (name <$> attributes (item_of k row)).
Proof. cbn. rewrite <-list_fmap_compose. apply NoDup_fst_map_to_list. Qed.

(** The attributes of an update are columns of the table, each at most once. *)
Lemma update_attrs_names b st u rc ps :
  update_attrs b st u rc ps ≠ [] ∧ NoDup (name <$> update_attrs b st u rc ps) ∧
  (name <$> update_attrs b st u rc ps) ⊆ kJobsTableRequiredColumns.
Proof.
  split; [destruct b, st, u, ps; discriminate|].
  split; destruct b, st, u, ps; apply (bool_decide_unpack _); vm_compute; exact I.
Qed.

Section jobs.
Context `{EvpBase64} `{TimeUtil} `{Json}.

Lemma convert_same_item x y : same_item x y → NoDup (name <$> attributes y) → ConvertDatabaseItemToJob x = ConvertDatabaseItemToJob y.
Proof.
  intros [Hk Hp] Hn. unfold ConvertDatabaseItemToJob. assert (GetItemAttributes x = GetItemAttributes y) as ->.
  { unfold GetItemAttributes. apply attributes_perm; [by rewrite Hp|done|done]. }
  assert (ValidateJobItem x = ValidateJobItem y) as ->; [|by rewrite Hk].
  unfold ValidateJobItem. rewrite Hk, (Permutation_length Hp).
  replace (forallb _ kJobsTableRequiredColumns)
    with (forallb (λ c, existsb (λ a, bool_decide (name a = c)) (attributes y)) kJobsTableRequiredColumns); [done|].
  induction kJobsTableRequiredColumns as [|c l IH]; [done|]. cbn. by rewrite IH, (existsb_perm _ _ _ Hp).
Qed.

Context {Db : Type} {table : string} `{!JobDatabase Db table}.
Implicit Types (db : Db) (s : Cloud).

(** A job of the table is read as it is. *)
Lemma stored_read db s job : holds db s → stored s (table, job_id job) job →
  reads db (CreateGetJobByJobIdRequest table (job_id job)) →
  ∃ item, db_get (CreateGetJobByJobIdRequest table (job_id job)) db = Some (SuccessExecutionResult, Some item) ∧
    ConvertDatabaseItemToJob item = Some (HasValue job).
Proof.
  intros Hh (Hrow & Hok & _) Hr. destruct (db_get_refines db s (job_id job) Hh Hr) as (item & Eg & Hi).
  assert (get_item (CreateGetJobByJobIdRequest table (job_id job)) s =
    (SuccessExecutionResult, Some (item_of (jobs_key table (job_id job)) (row_of job)))) as E.
  { unfold get_item. cbn [CreateGetJobByJobIdRequest get_key get_required key_of jobs_key partition_key MakeStringAttribute table_name
      mbind option_bind]. by rewrite Hrow. }
  rewrite E in *. inversion Hi as [x y Hxy Ex Ey|]; subst. exists x. split; [exact Eg|].
  rewrite (convert_same_item _ _ Hxy) by apply item_of_names. by apply convert_row_of.
Qed.

(** What putting a job writes. *)
Definition put_attributes (job : Job) : list ItemAttribute :=
  [MakeStringAttribute kServerJobIdColumnName (server_job_id job);
   MakeStringAttribute kJobBodyColumnName (EVP_EncodeBlock (job_body job));
   MakeIntAttribute kJobStatusColumnName (job_status job);
   MakeStringAttribute kCreatedTimeColumnName (time_ToString (created_time job));
   MakeStringAttribute kUpdatedTimeColumnName (time_ToString (updated_time job));
   MakeIntAttribute kRetryCountColumnName (retry_count job);
   MakeStringAttribute kProcessingStartedTimeColumnName (time_ToString (processing_started_time job))].

Lemma put_request job : job_ok job →
  CreatePutJobRequest table job = Some (HasValue (mkCreateItem (jobs_key table (job_id job)) (put_attributes job))).
Proof.
  intros [[Hb Hbo] _ _ _ _ _]. destruct (body_roundtrip _ Hb Hbo) as [Henc _]. unfold CreatePutJobRequest. by rewrite Henc.
Qed.


(** A job that the job client updates is read back with the fields that the update sets, whichever
    database client it uses. *)
Theorem update_job_read_back db s u job : holds db s → stored s (table, job_id u) job → update_ok u →
  storable (row_of (apply_update u job)) →
  ∃ request, CreateUpsertJobRequest table u = Some (HasValue request) ∧
    (updates db request → ∃ db', db_upsert request db = Some (SuccessExecutionResult, db') ∧
     (reads db' (CreateGetJobByJobIdRequest table (job_id u)) →
      ∃ item, db_get (CreateGetJobByJobIdRequest table (job_id u)) db' = Some (SuccessExecutionResult, Some item) ∧
        ConvertDatabaseItemToJob item = Some (HasValue (apply_update u job)))).
Proof.
  intros Hh Hs Hu Hst. pose proof Hs as (Hrow & Hok & Hid). cbn in Hid.
  destruct (upsert_item_stored table u s job Hu Hs) as (request & Er & Eu). exists request. split; [exact Er|]. intros Hup.
  rewrite upsert_request in Er by done. injection Er as <-.
  destruct (update_attrs_names (EVP_EncodeBlock <$> set_if "" (job_body u)) (set_if JOB_STATUS_UNKNOWN (job_status u))
    (time_ToString <$> set_if kDefaultTimestampValue (updated_time u)) (retry_count u)
    (time_ToString <$> set_if kDefaultTimestampValue (processing_started_time u))) as (Hne & Hn & Hsub).
  edestruct (db_upsert_refines db s (job_id u)) as (r & answer & s' & db' & Eu' & Ed & Hh');
    [exact Hh|exact Hne|exact Hn|exact Hsub| |exact Hup|].
  { rewrite Hrow. cbn [from_option id]. by rewrite row_of_update. }
  rewrite Eu in Eu'. injection Eu' as <- _ <-. exists db'. split; [exact Ed|]. rewrite <-Hid. change (job_id job) with (job_id (apply_update u job)).
  apply (stored_read db' _ _ Hh'). split; [by cbn; rewrite Hid, lookup_insert_eq|]. split; [by apply apply_update_ok|done].
Qed.
End jobs.
