(* ===== verification/GcpJobs.v ===== *)
(** * GcpJobs: the job client over Spanner

    What the Spanner client of [GcpNoSql] does with a call of the job client, as
    a relation; it is a simulation of the database that [JobClientSpec] is
    about, and an instance of [JobDatabase]. *)

From stdpp Require Import pretty.
From S2P Require Import Prelude ExecResult GcpStatus Provider Decimal Utils UuidLib AsyncProg JobClient JobClientSpec JobClientRuns Queue QueueSpec JobDatabase.
From S2P Require Import NoSql GcpNoSql GcpNoSqlSpec.

Local Open Scope string_scope.
Local Open Scope list_scope.

Section gcp.
Context {Db : Type} `{!Spanner Db, !SpannerState Db} `{!JsonText} `{!SpannerLaws Db}.
Variables (to_double : Z → Z) (keys : TableKeys) (table : string).
Implicit Types (db : Db) (s : Cloud).

(** A call, with a scheduler that accepts the task, and a Spanner that answers the query as documented. *)
Inductive gcp_does (db : Db) : ∀ c : Call, ExecutionResult → option (Answer c) → Db → Prop :=
  | gcp_gets request statement r item :
      GcpNoSql.GetDatabaseItem to_double keys request SuccessExecutionResult = Sent statement →
      answers db (get_select request) (params statement) →
      GetDatabaseItemInternal request statement db = (r, item) →
      gcp_does db (JobClient.GetDatabaseItem request) r item db
  | gcp_creates request options r answer db' :
      GcpNoSql.CreateDatabaseItem to_double keys request SuccessExecutionResult = Sent options →
      CreateDatabaseItemInternal request options db = Some (r, db') →
      gcp_does db (JobClient.CreateDatabaseItem request) r answer db'
  | gcp_upserts request task aborted r answer db' :
      GcpNoSql.UpsertDatabaseItem to_double keys request SuccessExecutionResult = Sent task →
      answers db (upsert_select request) (params (select_statement (upsert_select_options task))) →
      Forall (λ db', is_Some (UpsertFunctor task db')) aborted →
      UpsertDatabaseItemInternal task aborted None db = Some (r, db') →
      gcp_does db (JobClient.UpsertDatabaseItem request) r answer db'.

(** A row that is kept as it is: its strings can be printed. *)
Definition storable_row (row : Row) : Prop := plain_row row ∧ ∀ d, shows d row → is_Some (doc_dump d).

(** Attributes that are kept as they are. *)
Definition storable_attributes (l : list ItemAttribute) (old : Row) : Prop :=
  Forall (plain ∘ attribute_value) l ∧ NoDup (name <$> l) ∧ ∀ d, shows d (list_to_map (pairs l) ∪ old) → is_Some (doc_dump d).

(** The calls on items with a string as their key whose attributes are kept as they are. *)
Definition supported s (c : Call) : Prop :=
  match c with
  | JobClient.GetDatabaseItem (mkGetItem k required) =>
      ∃ v, k = jobs_key table v ∧ strings required ∧
        ∀ row a z, rows s !! (table, v) = Some row → a ∈ required → row !! name a ≠ Some (ValueInt z)
  | JobClient.CreateDatabaseItem (mkCreateItem k l) => ∃ v, k = jobs_key table v ∧ storable_attributes l ∅
  | JobClient.UpsertDatabaseItem (mkUpsertItem k required l) =>
      ∃ v, k = jobs_key table v ∧ required = [] ∧ l ≠ [] ∧ storable_attributes l (default ∅ (rows s !! (table, v)))
  | _ => False
  end.

Context (Hkeys : ∀ v, ValidatePartitionAndSortKey keys (jobs_key table v) = SuccessExecutionResult).
#[local] Abbreviation gcp_holds := (implements table kJobsTablePartitionKeyName).

(** The Spanner client is a refinement of the database that the job client is verified against: what it
    does with a call is what that database does, and leaves tables with the same rows. *)
Theorem gcp_database_simulates db s c r a db' : gcp_holds db s → supported s c → gcp_does db c r a db' →
  ∃ a' s', answered SC_GCP_ALREADY_EXISTS s c = Some (r, a', s') ∧ same_answer c a a' ∧ gcp_holds db' s'.
Proof.
  intros Hi Hs Hd. destruct Hd as [request statement r item Es Ha Ei|request options r answer db' Es Ei|request task aborted r answer db' Es Ha Hab Ei];
    destruct request; cbn [supported] in Hs.
  - destruct Hs as (v & -> & Hr & Hint).
    destruct (gcp_get_refines to_double keys table kJobsTablePartitionKeyName Hkeys db s v _ Hi Hr Hint) as (statement' & Es' & Hx).
    injection (eq_trans (eq_sym Es) Es') as <-. destruct (Hx Ha) as [H1 H2].
    change (string_key _ _ v) with (jobs_key table v) in *. rewrite Ei in H1, H2. cbn [fst snd] in *. subst r.
    eexists _, s. split; [|done]. cbn [answered]. f_equal. f_equal. apply surjective_pairing.
  - destruct Hs as (v & -> & Hp & Hn & Hdump). rewrite (right_id_L ∅ (∪)) in Hdump.
    destruct (gcp_create_refines to_double keys table kJobsTablePartitionKeyName Hkeys db s v _ Hi Hp Hn Hdump)
      as (options' & r' & a' & s' & db'' & Es' & Ec & Ei' & Hx).
    injection (eq_trans (eq_sym Es) Es') as <-. injection (eq_trans (eq_sym Ei) Ei') as <- <-. by exists a', s'.
  - destruct Hs as (v & -> & -> & Hne & Hp & Hn & Hdump).
    destruct (gcp_upsert_refines to_double keys table kJobsTablePartitionKeyName Hkeys db s v [] _ aborted Hi (Forall_nil_2 _)
      ltac:(by intros ? ? ? _ ?%not_elem_of_nil) Hne Hp Hn Hdump) as (task' & r' & a' & s' & Es' & Eu & Hx).
    injection (eq_trans (eq_sym Es) Es') as <-. destruct (Hx Ha Hab) as (db'' & Hi' & Ei'). injection (eq_trans (eq_sym Ei) Ei') as -> <-.
    exists a', s'. split; [|done]. etransitivity; [exact Eu|].
    unfold upsert_item in Eu. cbn in Eu. injection Eu as <- _ _. done.
Qed.

Lemma implements_rows db s s' : gcp_holds db s → rows s' = rows s → gcp_holds db s'.
Proof. intros [Hk Hr] E. split; [done|]. intros v. rewrite E. apply Hr. Qed.


(** The attributes of a row that is kept. *)
Lemma storable_attributes_of l old : NoDup (name <$> l) → storable_row (list_to_map (pairs l) ∪ old) → storable_attributes l old.
Proof.
  intros Hn [Hp Hd]. split; [|done]. apply Forall_forall. intros a Ha. apply (Hp (name a)). apply lookup_union_Some_l.
  apply elem_of_list_to_map_1; [by rewrite pairs_names|]. unfold pairs. by apply (list_elem_of_fmap_2 (λ a, (name a, attribute_value a))).
Qed.

#[local] Abbreviation gcp_get request db :=
  (match GcpNoSql.GetDatabaseItem to_double keys request SuccessExecutionResult with
   | Sent statement => Some (GetDatabaseItemInternal request statement db)
   | Rejected _ _ => None
   end).

#[refine] Instance gcp_jobs : JobDatabase Db table := {|
  holds := gcp_holds;
  duplicate_code := SC_GCP_ALREADY_EXISTS;
  storable := storable_row;
  reads db request := ∀ p, answers db (get_select request) p;
  updates db request := ∀ p, answers db (upsert_select request) p;
  db_get request db := gcp_get request db;
  db_create request db :=
    match GcpNoSql.CreateDatabaseItem to_double keys request SuccessExecutionResult with
    | Sent options => CreateDatabaseItemInternal request options db
    | Rejected _ _ => None
    end;
  db_upsert request db :=
    match GcpNoSql.UpsertDatabaseItem to_double keys request SuccessExecutionResult with
    | Sent task => UpsertDatabaseItemInternal task [] None db
    | Rejected _ _ => None
    end |}.
Proof.
  - intros db s v Hi request Hr.
    destruct (gcp_get_refines to_double keys table kJobsTablePartitionKeyName Hkeys db s v [] Hi (Forall_nil_2 _)
      ltac:(by intros ? ? ? _ ?%not_elem_of_nil)) as (statement & Es & Hx).
    destruct (Hx (Hr _)) as [H1 H2]. exists (GetDatabaseItemInternal request statement db).2. split; [|exact H2].
    assert (GcpNoSql.GetDatabaseItem to_double keys request SuccessExecutionResult = Sent statement) as -> by exact Es.
    etransitivity; [|exact (f_equal (λ r, Some (r, _)) H1)]. f_equal. apply surjective_pairing.
  - intros db s v l Hi Hn _ Hst request. rewrite <-(right_id_L ∅ (∪) (list_to_map (pairs l))) in Hst.
    destruct (storable_attributes_of l ∅ Hn Hst) as (Hp & _ & Hd). rewrite (right_id_L ∅ (∪)) in Hd.
    destruct (gcp_create_refines to_double keys table kJobsTablePartitionKeyName Hkeys db s v l Hi Hp Hn Hd)
      as (options & r & a & s' & db' & Es & Ec & Ei & Hi').
    exists r, a, s', db'. split; [exact Ec|]. split; [|exact Hi']. 
    assert (GcpNoSql.CreateDatabaseItem to_double keys request SuccessExecutionResult = Sent options) as -> by exact Es. exact Ei.
  - intros db s v l Hi Hne Hn _ Hst request Hu. destruct (storable_attributes_of l _ Hn Hst) as (Hp & _ & Hd).
    destruct (gcp_upsert_refines to_double keys table kJobsTablePartitionKeyName Hkeys db s v [] l [] Hi (Forall_nil_2 _)
      ltac:(by intros ? ? ? _ ?%not_elem_of_nil) Hne Hp Hn Hd) as (task & r & a & s' & Es & Eu & Hx).
    destruct (Hx (Hu _) (Forall_nil_2 _)) as (db' & Hi' & Ei). exists r, a, s', db'. split; [exact Eu|]. split; [|exact Hi'].
    assert (GcpNoSql.UpsertDatabaseItem to_double keys request SuccessExecutionResult = Sent task) as -> by exact Es.
    rewrite Ei. unfold upsert_item in Eu. cbn in Eu. by injection Eu as <- _ _.
Defined.
End gcp.

(** ** The jobs of a run *)

Module GcpJobRuns.
Import GcpNoSqlRuns CloudQueue Texts Rfc4648.
#[local] Existing Instances codes spanner state laws.

Lemma run_keys v : ValidatePartitionAndSortKey jobs (jobs_key "jobs" v) = SuccessExecutionResult.
Proof. vm_compute. reflexivity. Qed.

#[local] Instance spanner_jobs : JobDatabase Db "jobs" := gcp_jobs id jobs "jobs" run_keys.

Lemma all_storable row : plain_row row → storable_row row.
Proof. intros Hp. split; [done|]. intros d _. by eexists. Qed.

Lemma row_of_plain job : job_ok job → plain_row (row_of job).
Proof.
  intros [_ Hs _ _ _ Hr]. repeat (apply map_Forall_insert_2; [cbn; done || (cbn; unfold JOB_STATUS_CREATED, JOB_STATUS_SUCCESS in *; lia)|]).
  apply map_Forall_empty.
Qed.

Lemma run_reads db v : reads db (CreateGetJobByJobIdRequest "jobs" v).
Proof. intros p. apply select_answers. by right; right; left. Qed.


(** It is then in processing. *)
Definition processing : Job := mkJob "a" "" "" JOB_STATUS_PROCESSING kDefaultTimestampValue (clock 20) 1 (clock 20).

Lemma processing_ok : update_ok processing.
Proof. constructor; try done. by right. Qed.

Lemma job_a_stored : stored (mkCloud {[("jobs", "a") := row_of job_a]} ∅ ∅ 0) ("jobs", "a") job_a.
Proof. split; [apply lookup_singleton_eq|]. split; [apply job_a_ok|done]. Qed.

Lemma update_job_read_back_witness :
  ∃ request db' item, CreateUpsertJobRequest "jobs" processing = Some (HasValue request) ∧
    db_upsert request (one_row "a" (row_of job_a)) = Some (SuccessExecutionResult, db') ∧
    db_get (CreateGetJobByJobIdRequest "jobs" "a") db' = Some (SuccessExecutionResult, Some item) ∧
    ConvertDatabaseItemToJob item = Some (HasValue (apply_update processing job_a)).
Proof.
  destruct (update_job_read_back (JobDatabase0:=spanner_jobs) (one_row "a" (row_of job_a)) _ processing job_a (one_row_implements _ _ (row_of_plain _ job_a_ok)) job_a_stored
    processing_ok (all_storable _ (row_of_plain _ (apply_update_ok _ _ processing_ok job_a_ok)))) as (request & Er & H).
  destruct H as (db' & Eu & H).
  { rewrite upsert_request in Er by apply processing_ok. injection Er as <-. intros p. apply select_answers. by right; right; right; left. }
  destruct (H (run_reads db' "a")) as (item & Eg & Ei). by exists request, db', item.
Defined.

End GcpJobRuns.
