(* ===== verification/AwsJobs.v ===== *)
(** * AwsJobs: the job client over DynamoDB

    What the DynamoDB client of [AwsNoSql] does with a call of the job client, as
    a relation; it is a simulation of the database that [JobClientSpec] is
    about, and an instance of [JobDatabase]. *)

From stdpp Require Import pretty.
From S2P Require Import Prelude ExecResult Provider Decimal Utils UuidLib AsyncProg JobClient JobClientSpec JobClientRuns Queue QueueSpec JobDatabase.
From S2P Require Import NoSql AwsNoSql AwsNoSqlSpec.

Local Open Scope string_scope.
Local Open Scope list_scope.

Section aws.
Context {Db : Type} `{!Dynamo Db} `{!DynamoLaws Db}.
Context (stod : string → option Z) (print_float print_double : Z → string) (table : string).
Implicit Types (db : Db) (s : Cloud).
#[local] Abbreviation aws_holds := (implements table kJobsTablePartitionKeyName).

(** The equations of a request. *)
Definition required_equations (l : list ItemAttribute) : list (string * string) := equations ":attribute_" 0 l.
Definition new_equations (l : list ItemAttribute) : list (string * string) := equations ":new_attribute_" 0 l.

(** A call, with a DynamoDB that answers it as documented; a query sees the present state. *)
Inductive aws_does (db : Db) : ∀ c : Call, ExecutionResult → option (Answer c) → Db → Prop :=
  | aws_gets request query r item :
      AwsNoSql.GetDatabaseItem print_float print_double request = Sent query →
      answers db (table_name (get_key request)) (key_equations (get_key request)) (required_equations (get_required request)) (query_values query) →
      OnGetDatabaseItemCallback stod request (Query query db) = (r, item) →
      aws_does db (JobClient.GetDatabaseItem request) r item db
  | aws_creates request put answer :
      AwsNoSql.CreateDatabaseItem print_float print_double request = Sent put →
      aws_does db (JobClient.CreateDatabaseItem request) (OnWriteCallback (PutItem put db)) answer (after (PutItem put db) db)
  | aws_upserts request update answer :
      AwsNoSql.UpsertDatabaseItem print_float print_double request = Sent update →
      AwsNoSqlSpec.updates db (table_name (upsert_key request)) (new_equations (new_attributes request))
        (required_equations (upsert_required request)) (update_key update) (update_values update) →
      aws_does db (JobClient.UpsertDatabaseItem request) (OnWriteCallback (UpdateItem update db)) answer (after (UpdateItem update db) db).

#[local] Abbreviation kept := (plain_attributes kJobsTablePartitionKeyName).

(** The calls on items with a string as their key whose attributes are kept as they are. *)
Definition aws_supported (c : Call) : Prop :=
  match c with
  | JobClient.GetDatabaseItem (mkGetItem k required) => ∃ v, k = jobs_key table v ∧ kept required
  | JobClient.CreateDatabaseItem (mkCreateItem k l) => ∃ v, k = jobs_key table v ∧ kept l ∧ NoDup (name <$> l)
  | JobClient.UpsertDatabaseItem (mkUpsertItem k required l) =>
      ∃ v, k = jobs_key table v ∧ kept required ∧ kept l ∧ l ≠ [] ∧ NoDup (name <$> l)
  | _ => False
  end.

Lemma job_id_no_nul : no_nul kJobsTablePartitionKeyName.
Proof. done. Qed.

(** The DynamoDB client is a refinement of the database that the job client is verified against: what it
    does with a call is what that database does, and leaves tables with the same rows. *)
Theorem aws_database_simulates db s c r a db' : aws_holds db s → aws_supported c → aws_does db c r a db' →
  ∃ a' s', answered SC_NO_SQL_DATABASE_PROVIDER_CONDITIONAL_CHECKED_FAILED s c = Some (r, a', s') ∧ same_answer c a a' ∧ aws_holds db' s'.
Proof.
  intros Hi Hs Hd. destruct Hd as [request query r item Es Ha Ei|request put answer Es|request update answer Es Ha];
    destruct request; cbn [aws_supported] in Hs.
  - destruct Hs as (v & -> & Hr).
    destruct (aws_get_refines stod print_float print_double table kJobsTablePartitionKeyName job_id_no_nul db s v _ Hi Hr) as (query' & Es' & Hx).
    injection (eq_trans (eq_sym Es) Es') as <-. destruct (Hx Ha) as [H1 H2].
    change (string_key _ _ v) with (jobs_key table v) in *. rewrite Ei in H1, H2. cbn [fst snd] in *. subst r.
    eexists _, s. split; [|done]. cbn [answered]. f_equal. f_equal. apply surjective_pairing.
  - destruct Hs as (v & -> & Hl & Hn).
    destruct (aws_create_refines print_float print_double table kJobsTablePartitionKeyName db s v _ Hi Hl Hn)
      as (put' & r' & a' & s' & Es' & Ec & Er & Hi'). injection (eq_trans (eq_sym Es) Es') as <-. subst r'. by exists a', s'.
  - destruct Hs as (v & -> & Hr & Hl & Hne & Hn).
    destruct (aws_upsert_refines print_float print_double table kJobsTablePartitionKeyName db s v _ _ Hi Hr Hl Hne Hn)
      as (update' & r' & a' & s' & Es' & Eu & Hx). injection (eq_trans (eq_sym Es) Es') as <-.
    assert (update_key update = {[kJobsTablePartitionKeyName := DS v]}) as Ek.
    { rewrite dynamo_upsert_request in Es. cbn in Es. destruct (_ ≫= _) in Es; [|done]. by injection Es as <-. }
    rewrite Ek in Ha. destruct (Hx Ha) as [<- Hi']. by exists a', s'.
Qed.

Lemma dynamo_implements_rows db s s' : aws_holds db s → rows s' = rows s → aws_holds db s'.
Proof. intros [Hk Hr] E. split; [done|]. intros v. rewrite E. apply Hr. Qed.


(** A row that is kept. *)
Lemma kept_attributes l old : NoDup (name <$> l) → (name <$> l) ⊆ kJobsTableRequiredColumns →
  plain_row kJobsTablePartitionKeyName (list_to_map (pairs l) ∪ old) → kept l.
Proof.
  intros Hn Hsub [Hk Hp]. split.
  - apply Forall_forall. intros a Ha. apply (Hp (name a)). apply lookup_union_Some_l.
    apply elem_of_list_to_map_1; [unfold pairs; by rewrite <-list_fmap_compose|].
    unfold pairs. by apply (list_elem_of_fmap_2 (λ a, (name a, attribute_value a))).
  - intros Hin%Hsub. revert Hin. apply (bool_decide_unpack _). vm_compute. exact I.
Qed.

#[refine] Instance aws_jobs : JobDatabase Db table := {|
  holds := aws_holds;
  duplicate_code := SC_NO_SQL_DATABASE_PROVIDER_CONDITIONAL_CHECKED_FAILED;
  storable := plain_row kJobsTablePartitionKeyName;
  reads db request :=
    ∀ values, answers db (table_name (get_key request)) (key_equations (get_key request)) (required_equations (get_required request)) values;
  JobDatabase.updates db request :=
    ∀ key values, AwsNoSqlSpec.updates db (table_name (upsert_key request)) (new_equations (new_attributes request))
      (required_equations (upsert_required request)) key values;
  db_get request db :=
    match AwsNoSql.GetDatabaseItem print_float print_double request with
    | Sent query => Some (OnGetDatabaseItemCallback stod request (Query query db))
    | Rejected _ _ => None
    end;
  db_create request db :=
    match AwsNoSql.CreateDatabaseItem print_float print_double request with
    | Sent put => Some (OnWriteCallback (PutItem put db), after (PutItem put db) db)
    | Rejected _ _ => None
    end;
  db_upsert request db :=
    match AwsNoSql.UpsertDatabaseItem print_float print_double request with
    | Sent update => Some (OnWriteCallback (UpdateItem update db), after (UpdateItem update db) db)
    | Rejected _ _ => None
    end |}.
Proof.
  - intros db s v Hi request Hr.
    destruct (aws_get_refines stod print_float print_double table kJobsTablePartitionKeyName job_id_no_nul db s v [] Hi) as (query & Es & Hx).
    { split; [constructor|apply not_elem_of_nil]. }
    destruct (Hx (Hr _)) as [H1 H2]. exists (OnGetDatabaseItemCallback stod request (Query query db)).2. split; [|exact H2].
    assert (AwsNoSql.GetDatabaseItem print_float print_double request = Sent query) as -> by exact Es.
    etransitivity; [|exact (f_equal (λ r, Some (r, _)) H1)]. f_equal. apply surjective_pairing.
  - intros db s v l Hi Hn Hsub Hst request. rewrite <-(right_id_L ∅ (∪) (list_to_map (pairs l))) in Hst.
    destruct (aws_create_refines print_float print_double table kJobsTablePartitionKeyName db s v l Hi (kept_attributes l ∅ Hn Hsub Hst) Hn)
      as (put & r & a & s' & Es & Ec & Er & Hi'). exists r, a, s', (after (PutItem put db) db). split; [exact Ec|]. split; [|exact Hi'].
    assert (AwsNoSql.CreateDatabaseItem print_float print_double request = Sent put) as -> by exact Es. by rewrite Er.
  - intros db s v l Hi Hne Hn Hsub Hst request Hu.
    destruct (aws_upsert_refines print_float print_double table kJobsTablePartitionKeyName db s v [] l Hi) as (update & r & a & s' & Es & Eu & Hx);
      [split; [constructor|apply not_elem_of_nil]|by eapply kept_attributes|done|done|].
    destruct (Hx (Hu _ _)) as [Er Hi']. exists r, a, s', (after (UpdateItem update db) db). split; [exact Eu|]. split; [|exact Hi'].
    assert (AwsNoSql.UpsertDatabaseItem print_float print_double request = Sent update) as -> by exact Es. by rewrite Er.
Defined.
End aws.

(** ** The jobs of a run *)

Module AwsJobRuns.
Import CloudQueue Texts Rfc4648.

Definition Db : Type := string → gmap string DynamoValue → option (gmap string DynamoValue).

Definition put_at (t : string) (key item : gmap string DynamoValue) (db : Db) : Db :=
  λ t' k, if decide (t' = t ∧ k = key) then Some item else db t' k.

(** The update of a job that starts to be processed, on the condition that it has a server id, or none. *)
Definition processing : Job := mkJob "a" "" "" JOB_STATUS_PROCESSING kDefaultTimestampValue (clock 20) 1 (clock 20).
Definition processing_attributes : list ItemAttribute :=
  update_attrs None (Some JOB_STATUS_PROCESSING) (Some (time_ToString (clock 20))) 1 (Some (time_ToString (clock 20))).
Definition server_id_is (sid : string) : list ItemAttribute := [MakeStringAttribute kServerJobIdColumnName sid].

Definition known_sets : list (string * string) := new_equations processing_attributes.
Definition known_conditions : list (list (string * string)) := [[]; required_equations (server_id_is "")].
Definition conditions_of (e : option string) : option (list (string * string)) :=
  List.find (λ l, bool_decide (expression "" " and " l = e)) known_conditions.

#[local] Instance dynamo : Dynamo Db := {|
  Query q db :=
    match assigned [("JobId", ":partition_key")] (query_values q), conditions_of (filter_expression q) with
    | Some key, Some l => inr (from_option (λ item, if satisfied l (query_values q) item then [item] else []) [] (db (query_table q) key))
    | _, _ => inl OTHER_ERROR
    end;
  PutItem p db :=
    match put_item p !! "JobId" with
    | Some v =>
        match db (put_table p) {["JobId" := v]} with
        | Some _ => inl CONDITIONAL_CHECK_FAILED
        | None => inr (put_at (put_table p) {["JobId" := v]} (put_item p) db)
        end
    | None => inl OTHER_ERROR
    end;
  UpdateItem u db :=
    match assigned known_sets (update_values u), conditions_of (update_condition u) with
    | Some new, Some l =>
        let old := db (update_table u) (update_key u) in
        if bool_decide (l = []) || from_option (satisfied l (update_values u)) false old
        then inr (put_at (update_table u) (update_key u) (new ∪ default (update_key u) old) db)
        else inl CONDITIONAL_CHECK_FAILED
    | _, _ => inl OTHER_ERROR
    end;
  key_schema _ _ := {["JobId"]};
  item_at db := db |}.

#[local, refine] Instance laws : DynamoLaws Db := {| put_new := _ |}.
Proof.
  intros db t n key item _ Hdom Hsub. cbn [PutItem dynamo put_item put_table item_at]. cbn [key_schema dynamo] in Hdom. destruct (dom_singleton_inv_L key _ Hdom) as [v ->].
  apply map_singleton_subseteq_l in Hsub. rewrite Hsub. destruct (db t {["JobId" := v]}); [done|]. by eexists.
Defined.

Lemma run_conditions l : In l known_conditions → conditions_of (expression "" " and " l) = Some l.
Proof. intros [<-|[<-|[]]]; vm_compute; reflexivity. Qed.

Lemma run_answers db v l values : In l known_conditions → answers db "jobs" (key_equations (jobs_key "jobs" v)) l values.
Proof.
  intros Hl key Hkey _ _. cbn zeta. cbn [Query dynamo query_values filter_expression query_table].
  change (key_equations (jobs_key "jobs" v)) with [("JobId", ":partition_key")] in Hkey. rewrite Hkey, run_conditions by done.
  cbn [item_at dynamo]. by destruct (db "jobs" key).
Qed.

Lemma run_updates db l key values : In l known_conditions → AwsNoSqlSpec.updates db "jobs" known_sets l key values.
Proof.
  intros Hl new _ _ _ Hnew _ _ _. cbn zeta. cbn [UpdateItem dynamo update_values update_condition update_table update_key item_at].
  rewrite Hnew, run_conditions by done. destruct (_ || _); [|done]. by eexists.
Qed.

#[local] Instance dynamo_jobs : JobDatabase Db "jobs" := aws_jobs (λ _, None) (λ _, "") (λ _, "") "jobs".

Definition one_item (v : string) (row : Row) : Db := put_at "jobs" {["JobId" := DS v]} (item_for "JobId" v row) (λ _ _, None).
Definition one_job (v : string) (row : Row) : Cloud := mkCloud {[("jobs", v) := row]} ∅ ∅ 0.

Lemma one_item_holds v row : plain_row "JobId" row → implements "jobs" "JobId" (one_item v row) (one_job v row).
Proof.
  intros Hp. split; [done|]. intros w. unfold one_item, put_at. cbn [rows one_job item_at dynamo]. destruct (decide (w = v)) as [->|Hw].
  - by rewrite lookup_singleton_eq, decide_True.
  - rewrite lookup_singleton_ne by congruence. rewrite decide_False; [done|]. intros [_ E]. apply Hw.
    by apply (f_equal (.!! "JobId")) in E; rewrite !lookup_singleton_eq in E; injection E.
Qed.

Lemma job_a_row : plain_row "JobId" (row_of job_a).
Proof. split; [done|]. repeat (apply map_Forall_insert_2; [by split; vm_compute|]). apply map_Forall_empty. Qed.

End AwsJobRuns.
