(* ===== verification/TransactionEngine.v ===== *)
(** * TransactionEngine: the two-phase commit of the privacy budget client

    Models, in [java/com/google/scp/operator/cpio/distributedprivacybudgetclient],
    [TransactionPhaseManagerImpl.java], [Transaction.java] and
    [TransactionEngineImpl.java]: a transaction consumes privacy
    budget on every coordinator or on none, by driving all of them through the
    phases BEGIN, PREPARE, COMMIT, NOTIFY, END (or ABORT, END).

    The engine sees a coordinator through the interface [PrivacyBudgetClient];
    [PrivacyBudgetHttp] has its implementation.  Java objects are mutable, so
    the transaction is passed along.  The tail calls between
    [proceedToNextPhase], [executeCurrentPhase] and [executeDistributedPhase]
    are a loop.  The engine also keeps a log of every answer it gets, which the
    code does not have and which nothing in it depends on. *)

From S2P Require Import Prelude.

(** ** Enumerations *)

Inductive TransactionPhase :=
  NOTSTARTED | BEGIN | PREPARE | COMMIT | NOTIFY | ABORT | END | UNKNOWN | FINISHED.

#[global] Instance TransactionPhase_eq_dec : EqDecision TransactionPhase.
Proof. solve_decision. Defined.

Inductive ExecutionStatus := SUCCESS | FAILURE | RETRY.

#[global] Instance ExecutionStatus_eq_dec : EqDecision ExecutionStatus.
Proof. solve_decision. Defined.

(** [StatusCode.java]; [SC_UNKNOWN] and [SC_OK] are its UNKNOWN and OK. *)
Inductive StatusCode :=
  | SC_UNKNOWN
  | SC_OK
  | MALFORMED_DATA
  | MAP_ENTRY_DOES_NOT_EXIST
  | TRANSACTION_MANAGER_CANNOT_INITIALIZE
  | TRANSACTION_MANAGER_ALREADY_STARTED
  | TRANSACTION_MANAGER_NOT_STARTED
  | TRANSACTION_MANAGER_CANNOT_ACCEPT_NEW_REQUESTS
  | TRANSACTION_MANAGER_INVALID_MAX_CONCURRENT_TRANSACTIONS_VALUE
  | TRANSACTION_MANAGER_RETRIES_EXCEEDED
  | TRANSACTION_ENGINE_CANNOT_START_TRANSACTION
  | TRANSACTION_ENGINE_CANNOT_ACCEPT_TRANSACTION
  | TRANSACTION_ENGINE_INVALID_DISTRIBUTED_COMMAND
  | TRANSACTION_ENGINE_TRANSACTION_IS_EXPIRED
  | TRANSACTION_ENGINE_TRANSACTION_FAILED
  | TRANSACTION_MANAGER_ALREADY_STOPPED
  | TRANSACTION_MANAGER_NOT_FINISHED
  | TRANSACTION_MANAGER_TRANSACTION_NOT_FOUND
  | TRANSACTION_MANAGER_INVALID_TRANSACTION_LOG
  | TRANSACTION_MANAGER_TERMINATABLE_TRANSACTION
  | TRANSACTION_MANAGER_INVALID_TRANSACTION_PHASE
  | TRANSACTION_MANAGER_CURRENT_TRANSACTION_IS_RUNNING
  | TRANSACTION_MANAGER_TRANSACTION_UNKNOWN
  | PRIVACY_BUDGET_CLIENT_UNAUTHENTICATED
  | PRIVACY_BUDGET_CLIENT_UNAUTHORIZED.

#[global] Instance StatusCode_eq_dec : EqDecision StatusCode.
Proof. solve_decision. Defined.

Record ExecutionResult := create { executionStatus : ExecutionStatus; statusCode : StatusCode }.

(** What a call can throw; a [RuntimeException] is unchecked. *)
Inductive Throwable :=
  | TransactionEngineException (c : StatusCode)
  | PrivacyBudgetClientException
  | RuntimeException.

(** ** Requests and transactions

    The id of a transaction is the one of its request. *)

(** [reportingWindow] in milliseconds since the epoch. *)
Record PrivacyBudgetUnit := mkUnit { privacyBudgetKey : string; reportingWindow : Z }.

Record TransactionRequest := mkRequest {
  transactionId : string;
  attributionReportTo : string;
  privacyBudgetUnits : list PrivacyBudgetUnit;
  timeout : Z;
  transactionSecret : string;
  privacyBudgetLimit : Z
}.

Definition DEFAULT_RETRIES : Z := 5.

Record Transaction := mkTransaction {
  request : TransactionRequest;
  currentPhase : TransactionPhase;
  currentPhaseExecutionResult : ExecutionResult;
  transactionExecutionResult : ExecutionResult;
  transactionPhaseFailed : bool;
  transactionFailed : bool;
  currentPhaseFailed : bool;
  lastExecutionTimeNanosForBaseUrl : gmap string (option string);
  lastCompletedTransactionPhaseOnPrivacyBudgetServer : gmap string TransactionPhase;
  retries : Z;
  exhaustedPrivacyBudgetUnits : list PrivacyBudgetUnit
}.

Definition setCurrentPhase (x : TransactionPhase) (e : Transaction) : Transaction :=
  mkTransaction (request e) x (currentPhaseExecutionResult e) (transactionExecutionResult e)
    (transactionPhaseFailed e) (transactionFailed e) (currentPhaseFailed e)
    (lastExecutionTimeNanosForBaseUrl e) (lastCompletedTransactionPhaseOnPrivacyBudgetServer e)
    (retries e) (exhaustedPrivacyBudgetUnits e).
Definition setCurrentPhaseExecutionResult (x : ExecutionResult) (e : Transaction) : Transaction :=
  mkTransaction (request e) (currentPhase e) x (transactionExecutionResult e)
    (transactionPhaseFailed e) (transactionFailed e) (currentPhaseFailed e)
    (lastExecutionTimeNanosForBaseUrl e) (lastCompletedTransactionPhaseOnPrivacyBudgetServer e)
    (retries e) (exhaustedPrivacyBudgetUnits e).
Definition setTransactionExecutionResult (x : ExecutionResult) (e : Transaction) : Transaction :=
  mkTransaction (request e) (currentPhase e) (currentPhaseExecutionResult e) x
    (transactionPhaseFailed e) (transactionFailed e) (currentPhaseFailed e)
    (lastExecutionTimeNanosForBaseUrl e) (lastCompletedTransactionPhaseOnPrivacyBudgetServer e)
    (retries e) (exhaustedPrivacyBudgetUnits e).
Definition setTransactionPhaseFailed (x : bool) (e : Transaction) : Transaction :=
  mkTransaction (request e) (currentPhase e) (currentPhaseExecutionResult e)
    (transactionExecutionResult e) x (transactionFailed e) (currentPhaseFailed e)
    (lastExecutionTimeNanosForBaseUrl e) (lastCompletedTransactionPhaseOnPrivacyBudgetServer e)
    (retries e) (exhaustedPrivacyBudgetUnits e).
Definition setTransactionFailed (x : bool) (e : Transaction) : Transaction :=
  mkTransaction (request e) (currentPhase e) (currentPhaseExecutionResult e)
    (transactionExecutionResult e) (transactionPhaseFailed e) x (currentPhaseFailed e)
    (lastExecutionTimeNanosForBaseUrl e) (lastCompletedTransactionPhaseOnPrivacyBudgetServer e)
    (retries e) (exhaustedPrivacyBudgetUnits e).
Definition setCurrentPhaseFailed (x : bool) (e : Transaction) : Transaction :=
  mkTransaction (request e) (currentPhase e) (currentPhaseExecutionResult e)
    (transactionExecutionResult e) (transactionPhaseFailed e) (transactionFailed e) x
    (lastExecutionTimeNanosForBaseUrl e) (lastCompletedTransactionPhaseOnPrivacyBudgetServer e)
    (retries e) (exhaustedPrivacyBudgetUnits e).
Definition set_timestamps (x : gmap string (option string)) (e : Transaction) : Transaction :=
  mkTransaction (request e) (currentPhase e) (currentPhaseExecutionResult e)
    (transactionExecutionResult e) (transactionPhaseFailed e) (transactionFailed e)
    (currentPhaseFailed e) x (lastCompletedTransactionPhaseOnPrivacyBudgetServer e) (retries e)
    (exhaustedPrivacyBudgetUnits e).
Definition set_completed (x : gmap string TransactionPhase) (e : Transaction) : Transaction :=
  mkTransaction (request e) (currentPhase e) (currentPhaseExecutionResult e)
    (transactionExecutionResult e) (transactionPhaseFailed e) (transactionFailed e)
    (currentPhaseFailed e) (lastExecutionTimeNanosForBaseUrl e) x (retries e)
    (exhaustedPrivacyBudgetUnits e).
Definition setRetries (x : Z) (e : Transaction) : Transaction :=
  mkTransaction (request e) (currentPhase e) (currentPhaseExecutionResult e)
    (transactionExecutionResult e) (transactionPhaseFailed e) (transactionFailed e)
    (currentPhaseFailed e) (lastExecutionTimeNanosForBaseUrl e)
    (lastCompletedTransactionPhaseOnPrivacyBudgetServer e) x (exhaustedPrivacyBudgetUnits e).
Definition setExhaustedPrivacyBudgetUnits (x : list PrivacyBudgetUnit) (e : Transaction) : Transaction :=
  mkTransaction (request e) (currentPhase e) (currentPhaseExecutionResult e)
    (transactionExecutionResult e) (transactionPhaseFailed e) (transactionFailed e)
    (currentPhaseFailed e) (lastExecutionTimeNanosForBaseUrl e)
    (lastCompletedTransactionPhaseOnPrivacyBudgetServer e) (retries e) x.


Definition OK_RESULT : ExecutionResult := create SUCCESS SC_OK.

Definition newTransaction (r : TransactionRequest) : Transaction :=
  mkTransaction r NOTSTARTED OK_RESULT (create FAILURE TRANSACTION_MANAGER_NOT_FINISHED)
    false false false ∅ ∅ DEFAULT_RETRIES [].

Definition getLastCompletedTransactionPhaseOnPrivacyBudgetServer (t : Transaction) (baseUrl : string) : TransactionPhase :=
  default NOTSTARTED (lastCompletedTransactionPhaseOnPrivacyBudgetServer t !! baseUrl).

Definition setLastCompletedTransactionPhaseOnPrivacyBudgetServer (baseUrl : string) (p : TransactionPhase)
    (t : Transaction) : Transaction :=
  set_completed (<[baseUrl := p]> (lastCompletedTransactionPhaseOnPrivacyBudgetServer t)) t.

(** [HashMap.get]: null for a key that is missing. *)
Definition getLastExecutionTimestamp (t : Transaction) (baseUrl : string) : option string :=
  mjoin (lastExecutionTimeNanosForBaseUrl t !! baseUrl).

Definition setLastExecutionTimestamp (baseUrl : string) (ts : option string) (t : Transaction) : Transaction :=
  set_timestamps (<[baseUrl := ts]> (lastExecutionTimeNanosForBaseUrl t)) t.

Definition resetRetries : Transaction → Transaction := setRetries DEFAULT_RETRIES.

(** ** [TransactionPhaseManagerImpl] *)

Definition proceedToNextPhaseInternal (currentPhase : TransactionPhase) (currentPhaseSucceeded : bool) : TransactionPhase :=
  match currentPhase with
  | NOTSTARTED => if currentPhaseSucceeded then BEGIN else END
  | BEGIN => if currentPhaseSucceeded then PREPARE else ABORT
  | PREPARE => if currentPhaseSucceeded then COMMIT else END
  | COMMIT => if currentPhaseSucceeded then NOTIFY else ABORT
  | NOTIFY => if currentPhaseSucceeded then END else NOTIFY
  | ABORT => if currentPhaseSucceeded then END else ABORT
  | END => FINISHED
  | UNKNOWN | FINISHED => UNKNOWN
  end.

Definition nextPhase (currentPhase : TransactionPhase) (currentPhaseResult : ExecutionResult) : TransactionPhase :=
  if bool_decide (currentPhase = UNKNOWN) then ABORT
  else if bool_decide (executionStatus currentPhaseResult = RETRY) then currentPhase
  else proceedToNextPhaseInternal currentPhase (negb (bool_decide (executionStatus currentPhaseResult = FAILURE))).

(** ** The interface of a coordinator's client

    [W] is the state of the world outside of the engine.  A client may change
    what the transaction records for clients (the time stamps, and the units whose
    budget is exhausted), and nothing else of it. *)

Definition control (t : Transaction) :=
  (request t, currentPhase t, currentPhaseExecutionResult t, transactionExecutionResult t,
   (transactionPhaseFailed t, transactionFailed t, currentPhaseFailed t),
   lastCompletedTransactionPhaseOnPrivacyBudgetServer t, retries t).

Class PrivacyBudgetClient (C W : Type) := {
  getPrivacyBudgetServerIdentifier : C → string;
  (* [performActionBegin], ..., [performActionAbort], by their phase *)
  performAction : TransactionPhase → C → Transaction → W → (Throwable + ExecutionResult) * Transaction * W;
  performAction_control p c t w r t' w' : performAction p c t w = (r, t', w') → control t' = control t
}.

Section engine.
Context {C W : Type} `{!PrivacyBudgetClient C W}.

(** What a coordinator answered in a phase. *)
Abbreviation Log := (list (string * TransactionPhase * ExecutionResult)).

Variable privacyBudgetClients : list C.

(** [PARTIAL_SUCCESS_ACCEPTABLE_PHASES]. *)
Definition partial_success_acceptable (p : TransactionPhase) : option Z :=
  match p with NOTIFY => Some 1%Z | END => Some 0%Z | _ => None end.

Definition getCountOfPhaseSuccessAgainstCoordinators (t : Transaction) (p : TransactionPhase) : Z :=
  zlen (filter (λ c, getLastCompletedTransactionPhaseOnPrivacyBudgetServer t (getPrivacyBudgetServerIdentifier c) = p)
          privacyBudgetClients).

Definition canMarkTransactionAsSuccessful (p : TransactionPhase) (t : Transaction) : bool :=
  match partial_success_acceptable p with
  | Some n => (n <=? getCountOfPhaseSuccessAgainstCoordinators t p)%Z
  | None => false
  end.

Definition createTransactionEngineException (transactionStatusCode defaultStatusCode : StatusCode) : Throwable :=
  if bool_decide (transactionStatusCode = PRIVACY_BUDGET_CLIENT_UNAUTHENTICATED) ||
     bool_decide (transactionStatusCode = PRIVACY_BUDGET_CLIENT_UNAUTHORIZED)
  then TransactionEngineException transactionStatusCode
  else TransactionEngineException defaultStatusCode.

(** The default of the two switches over the phase. *)
Definition distributed_phase (p : TransactionPhase) : bool :=
  match p with BEGIN | PREPARE | COMMIT | NOTIFY | ABORT | END => true | _ => false end.

Definition dispatchDistributedCommand (c : C) (t : Transaction) (w : W) : (Throwable + ExecutionResult) * Transaction * W :=
  if negb (distributed_phase (currentPhase t))
  then (inl (TransactionEngineException TRANSACTION_MANAGER_INVALID_TRANSACTION_PHASE), t, w)
  else match performAction (currentPhase t) c t w with
       | (inl PrivacyBudgetClientException, t, w) => (inl (TransactionEngineException SC_UNKNOWN), t, w)
       | r => r
       end.

(** The loop of [executeDistributedPhase] over the clients. *)
Fixpoint dispatch_loop (clients : list C) (phase : TransactionPhase) (t : Transaction) (w : W) (log : Log)
  : option Throwable * Transaction * W * Log :=
  match clients with
  | [] => (None, t, w, log)
  | c :: clients =>
      let id := getPrivacyBudgetServerIdentifier c in
      let last := getLastCompletedTransactionPhaseOnPrivacyBudgetServer t id in
      if (bool_decide (last = NOTSTARTED) && negb (bool_decide (phase = BEGIN))) || bool_decide (last = END)
      then dispatch_loop clients phase t w log
      else match dispatchDistributedCommand c t w with
           | (inl e, t, w) => (Some e, t, w, log)
           | (inr r, t, w) =>
               let log := log ++ [(id, phase, r)] in
               let t :=
                 if bool_decide (executionStatus r = SUCCESS)
                 then setLastCompletedTransactionPhaseOnPrivacyBudgetServer id phase t
                 else if currentPhaseFailed t then t
                 else setCurrentPhaseExecutionResult r (setCurrentPhaseFailed true t) in
               dispatch_loop clients phase t w log
           end
  end.

(** How a call of [proceedToNextPhase] goes on: it returns, throws, or executes the current phase. *)
Inductive Decision :=
  | Return (t : Transaction)
  | Throw (e : Throwable) (t : Transaction)
  | Execute (t : Transaction).

(** The end of [proceedToNextPhase], when retries are left. *)
Definition enter_phase (currentPhase_ next : TransactionPhase) (t : Transaction) : Decision :=
  let t :=
    if currentPhaseFailed t then
      let t := if transactionPhaseFailed t then t
               else setTransactionExecutionResult (currentPhaseExecutionResult t)
                      (setTransactionPhaseFailed true t) in
      setCurrentPhaseExecutionResult OK_RESULT (setCurrentPhaseFailed false t)
    else t in
  if bool_decide (currentPhase t ≠ currentPhase_) then Return t
  else
    let t := setCurrentPhase next t in
    if distributed_phase next then Execute t
    else Throw (TransactionEngineException TRANSACTION_MANAGER_INVALID_TRANSACTION_PHASE) t.

Definition proceedToNextPhase (currentPhase_ : TransactionPhase) (t : Transaction) : Decision :=
  let next := nextPhase currentPhase_ (currentPhaseExecutionResult t) in
  if bool_decide (next = FINISHED) then
    if transactionFailed t
    then Throw (createTransactionEngineException (statusCode (transactionExecutionResult t))
                  TRANSACTION_ENGINE_TRANSACTION_FAILED) t
    else Return t
  else
    let t := if bool_decide (next = ABORT) then setTransactionFailed true t else t in
    if bool_decide (next = UNKNOWN) then
      if bool_decide (currentPhase_ = BEGIN)
      then Throw (createTransactionEngineException (statusCode (currentPhaseExecutionResult t))
                    TRANSACTION_ENGINE_CANNOT_START_TRANSACTION) t
      else Throw (TransactionEngineException TRANSACTION_MANAGER_TRANSACTION_UNKNOWN) t
    else
      let t := if bool_decide (next = currentPhase_) then setRetries (retries t - 1)%Z t else resetRetries t in
      if (retries t <=? 0)%Z then
        if canMarkTransactionAsSuccessful currentPhase_ t then Return t
        else Throw (TransactionEngineException TRANSACTION_MANAGER_RETRIES_EXCEEDED) t
      else enter_phase currentPhase_ next t.

(** How [execute] ends: the exhausted units, or an exception; with the transaction, the world and
    the log. *)
Record Outcome := mkOutcome {
  returned : Throwable + list PrivacyBudgetUnit;
  final : Transaction;
  world : W;
  answers : Log
}.

(** [executeDistributedPhase] and [proceedToNextPhase] in turn, [fuel] times at most. *)
Fixpoint engine_loop (fuel : nat) (d : Decision) (w : W) (log : Log) : option Outcome :=
  match d with
  | Return t => Some (mkOutcome (inr (exhaustedPrivacyBudgetUnits t)) t w log)
  | Throw e t => Some (mkOutcome (inl e) t w log)
  | Execute t =>
      match fuel with
      | 0 => None
      | S fuel =>
          let phase := currentPhase t in
          match dispatch_loop privacyBudgetClients phase t w log with
          | (Some e, t, w, log) => Some (mkOutcome (inl e) t w log)
          | (None, t, w, log) => engine_loop fuel (proceedToNextPhase phase t) w log
          end
      end
  end.

(** A phase is executed at most [DEFAULT_RETRIES] times, and a transaction has at most five of
    them. *)
Definition execute_fuel : nat := 25.

Definition execute (r : TransactionRequest) (w : W) : option Outcome :=
  engine_loop execute_fuel (proceedToNextPhase NOTSTARTED (newTransaction r)) w [].
End engine.
