(* ===== verification/TransactionEngineSpec.v ===== *)
(** * TransactionEngineSpec: what the two-phase commit guarantees

    The engine ends whatever the coordinators answer; it sends COMMIT only
    after every coordinator has prepared, and never both NOTIFY and ABORT; and
    what a normal return says about the coordinators. *)

From S2P Require Import Prelude TransactionEngine.

Section spec.
Context {C W : Type} `{!PrivacyBudgetClient C W}.
Variable clients : list C.

Abbreviation Log := (list (string * TransactionPhase * ExecutionResult)).
Abbreviation id_of := getPrivacyBudgetServerIdentifier.
Abbreviation completed t c := (getLastCompletedTransactionPhaseOnPrivacyBudgetServer t (id_of c)).

Definition succeeded (log : Log) (c : C) (p : TransactionPhase) : Prop :=
  ∃ r, (id_of c, p, r) ∈ log ∧ executionStatus r = SUCCESS.

Lemma succeeded_app log ext c p : succeeded log c p → succeeded (log ++ ext) c p.
Proof. intros (r & Hr & Hs). exists r. split; [|done]. apply elem_of_app. by left. Qed.

(** ** One phase *)

(** What [executeDistributedPhase] leaves alone. *)
Definition frame (t : Transaction) :=
  (request t, currentPhase t, transactionExecutionResult t, transactionPhaseFailed t, transactionFailed t, retries t).

(** A client that the phase skips. *)
Definition skipped (phase last : TransactionPhase) : bool :=
  (bool_decide (last = NOTSTARTED) && negb (bool_decide (phase = BEGIN))) || bool_decide (last = END).

Record dispatched (phase : TransactionPhase) (t t' : Transaction) (ext : Log) : Prop := {
  dd_frame : frame t' = frame t;
  dd_phase : Forall (λ x, x.1.2 = phase) ext;
  dd_last id : getLastCompletedTransactionPhaseOnPrivacyBudgetServer t' id =
                 getLastCompletedTransactionPhaseOnPrivacyBudgetServer t id ∨
               getLastCompletedTransactionPhaseOnPrivacyBudgetServer t' id = phase;
  dd_failed : currentPhaseFailed t = true → currentPhaseFailed t' = true ∧
                currentPhaseExecutionResult t' = currentPhaseExecutionResult t;
  dd_fails : currentPhaseFailed t = false → currentPhaseFailed t' = true →
               executionStatus (currentPhaseExecutionResult t') ≠ SUCCESS ∧
               ∃ id, (id, phase, currentPhaseExecutionResult t') ∈ ext;
  dd_fine : currentPhaseFailed t' = false →
              currentPhaseExecutionResult t' = currentPhaseExecutionResult t ∧
              Forall (λ x, executionStatus x.2 = SUCCESS) ext
}.

Lemma control_frame t t' : control t' = control t →
  frame t' = frame t ∧ currentPhaseFailed t' = currentPhaseFailed t ∧
  currentPhaseExecutionResult t' = currentPhaseExecutionResult t ∧
  lastCompletedTransactionPhaseOnPrivacyBudgetServer t' = lastCompletedTransactionPhaseOnPrivacyBudgetServer t.
Proof. unfold control, frame. destruct t, t'. cbn. intros [= -> -> -> -> -> -> -> -> ->]. done. Qed.

Lemma dispatch_control c t w r t' w' :
  dispatchDistributedCommand c t w = (r, t', w') → control t' = control t.
Proof.
  unfold dispatchDistributedCommand. destruct (distributed_phase (currentPhase t)); cbn [negb]; [|by intros [= _ <- _]].
  destruct (performAction (currentPhase t) c t w) as [[r0 t0] w0] eqn:E. apply performAction_control in E.
  destruct r0 as [[]|]; intros [= _ <- _]; done.
Qed.

(** What one answer does to the transaction. *)
Definition record_answer (id : string) (phase : TransactionPhase) (r : ExecutionResult) (t : Transaction) : Transaction :=
  if bool_decide (executionStatus r = SUCCESS)
  then setLastCompletedTransactionPhaseOnPrivacyBudgetServer id phase t
  else if currentPhaseFailed t then t
  else setCurrentPhaseExecutionResult r (setCurrentPhaseFailed true t).

Lemma completed_record id phase r t id' :
  getLastCompletedTransactionPhaseOnPrivacyBudgetServer (record_answer id phase r t) id' =
    if bool_decide (executionStatus r = SUCCESS) && bool_decide (id = id') then phase
    else getLastCompletedTransactionPhaseOnPrivacyBudgetServer t id'.
Proof.
  unfold record_answer, getLastCompletedTransactionPhaseOnPrivacyBudgetServer.
  destruct (bool_decide (executionStatus r = SUCCESS)); cbn [andb]; [|by destruct (currentPhaseFailed t)].
  cbn. case_bool_decide as E; [subst; by rewrite lookup_insert_eq|by rewrite lookup_insert_ne].
Qed.

Lemma dispatched_nil phase t : dispatched phase t t [].
Proof. constructor; auto; congruence. Qed.

Lemma dispatched_cons c phase t t1 t' r ext :
  control t1 = control t → dispatched phase (record_answer (id_of c) phase r t1) t' ext →
  dispatched phase t t' ((id_of c, phase, r) :: ext).
Proof.
  intros (Hfr & Hcf & Hres & Hlast)%control_frame [F P L A B D].
  assert (∀ id, getLastCompletedTransactionPhaseOnPrivacyBudgetServer t1 id =
    getLastCompletedTransactionPhaseOnPrivacyBudgetServer t id) as Hlast'
    by (intros; unfold getLastCompletedTransactionPhaseOnPrivacyBudgetServer; by rewrite Hlast).
  constructor.
  - rewrite F, <-Hfr. unfold record_answer. destruct (bool_decide _); [done|]. by destruct (currentPhaseFailed t1).
  - by constructor.
  - intros id. destruct (L id) as [E|E]; [|by right]. rewrite completed_record in E.
    destruct (_ && _); [by right|]. left. by rewrite E.
  - intros Hf. rewrite <-Hcf in Hf. unfold record_answer in A.
    destruct (bool_decide _); cbn in A; rewrite <-Hres; [by apply A|]. rewrite Hf in A. by apply A.
  - intros Hf Hf'. rewrite <-Hcf in Hf. unfold record_answer in A, B. destruct (bool_decide _) eqn:Er.
    + destruct (B Hf Hf') as (Hs & id & Hid). split; [done|]. exists id. by right.
    + rewrite Hf in A, B. cbn in A, B. destruct (A eq_refl) as [_ ->]. apply bool_decide_eq_false in Er.
      split; [done|]. exists (id_of c). left.
  - intros Hf'. destruct (D Hf') as [Hr Hall]. unfold record_answer in *.
    destruct (bool_decide _) eqn:Er.
    + apply bool_decide_eq_true in Er. cbn in Hr. rewrite Hr, Hres. split; [done|]. by constructor.
    + exfalso. destruct (currentPhaseFailed t1) eqn:Ef; [destruct (A Ef); congruence|].
      cbn in A. destruct (A eq_refl). congruence.
Qed.

(** Every client takes part in the phase. *)
Definition active (cs : list C) (phase : TransactionPhase) (t : Transaction) : Prop :=
  phase ≠ END ∧ phase ≠ NOTSTARTED ∧ ∀ c, c ∈ cs → skipped phase (completed t c) = false.

Lemma active_record c cs phase t t1 r :
  control t1 = control t → active (c :: cs) phase t → active cs phase (record_answer (id_of c) phase r t1).
Proof.
  intros (_ & _ & _ & Hlast)%control_frame (He & Hn & Ha). split_and!; [done|done|]. intros d Hd.
  rewrite completed_record. destruct (_ && _).
  - unfold skipped. by rewrite (bool_decide_eq_false_2 (phase = NOTSTARTED)), (bool_decide_eq_false_2 (phase = END)) by done.
  - unfold getLastCompletedTransactionPhaseOnPrivacyBudgetServer. rewrite Hlast. apply Ha. by right.
Qed.

Lemma dispatch_loop_spec cs phase t w log e t' w' log' :
  dispatch_loop cs phase t w log = (e, t', w', log') →
  ∃ ext, log' = log ++ ext ∧ dispatched phase t t' ext ∧
    (e = None → currentPhaseFailed t' = false → active cs phase t →
     ∀ c, c ∈ cs → succeeded ext c phase ∧ completed t' c = phase).
Proof.
  revert t w log. induction cs as [|c cs IH]; intros t w log E; cbn in E.
  - injection E as <- <- <- <-. exists []. rewrite app_nil_r. split_and!; [done|apply dispatched_nil|].
    by intros _ _ _ c Hc%elem_of_nil.
  - fold (skipped phase (completed t c)) in E. destruct (skipped phase (completed t c)) eqn:Es.
    + destruct (IH _ _ _ E) as (ext & -> & Hd & Hall). exists ext. split_and!; [done|done|].
      intros _ _ (_ & _ & Ha). rewrite Ha in Es by (by left). done.
    + destruct (dispatchDistributedCommand c t w) as [[[th|r] t1] w1] eqn:Ec; pose proof (dispatch_control _ _ _ _ _ _ Ec) as Hctl.
      * injection E as <- <- <- <-. exists []. rewrite app_nil_r. split_and!; [done| |done].
        apply control_frame in Hctl as (Hfr & Hcf & Hres & Hlast). constructor; try done; try congruence.
        -- intros id. left. unfold getLastCompletedTransactionPhaseOnPrivacyBudgetServer. by rewrite Hlast.
        -- intros. split; congruence.
      * fold (record_answer (id_of c) phase r t1) in E.
        destruct (IH _ _ _ E) as (ext & -> & Hd & Hall). exists ((id_of c, phase, r) :: ext).
        split_and!; [by rewrite <-app_assoc|by eapply dispatched_cons|].
        intros He Hf Ha d Hd'. pose proof (active_record c cs phase t t1 r Hctl Ha) as Ha'.
        assert (executionStatus r = SUCCESS) as Hr.
        { destruct (dispatched_cons c phase t t1 t' r ext Hctl Hd) as [_ _ _ _ _ D]. by apply D in Hf as [_ [? _]%Forall_cons]. }
        apply elem_of_cons in Hd' as [->|Hd'].
        -- split; [exists r; split; [by left|done]|]. destruct Hd as [_ _ L _ _ _].
           destruct (L (id_of c)) as [->|]; [|done]. rewrite completed_record. by rewrite !bool_decide_eq_true_2.
        -- destruct (Hall He Hf Ha' d Hd') as [(r' & Hr' & Hs') Hc]. split; [|done]. exists r'. split; [by right|done].
Qed.

(** ** The states between phases *)

Definition prepare_failed (log : Log) : Prop :=
  ∃ id r, (id, PREPARE, r) ∈ log ∧ executionStatus r = FAILURE.

(** The transaction was given up because of a failed BEGIN or COMMIT. *)
Definition gave_up (t : Transaction) (log : Log) : Prop :=
  transactionFailed t = true ∧
  ∃ id p r, (id, p, r) ∈ log ∧ (p = BEGIN ∨ p = COMMIT) ∧ executionStatus r = FAILURE.

Definition attempted (log : Log) (p : TransactionPhase) : Prop := ∃ id r, (id, p, r) ∈ log.

(** What is known when a phase is about to be executed. *)
Definition known (phase : TransactionPhase) (t : Transaction) (log : Log) : Prop :=
  match phase with
  | BEGIN => transactionFailed t = false ∧ ¬ attempted log COMMIT ∧ ¬ attempted log NOTIFY ∧
      ∀ c, c ∈ clients → completed t c = NOTSTARTED ∨ completed t c = BEGIN
  | PREPARE => transactionFailed t = false ∧ ¬ attempted log COMMIT ∧ ¬ attempted log NOTIFY ∧
      ∀ c, c ∈ clients → completed t c = BEGIN ∨ completed t c = PREPARE
  | COMMIT => transactionFailed t = false ∧ ¬ attempted log NOTIFY ∧
      ∀ c, c ∈ clients → succeeded log c PREPARE ∧ (completed t c = PREPARE ∨ completed t c = COMMIT)
  | NOTIFY => transactionFailed t = false ∧
      ∀ c, c ∈ clients → succeeded log c COMMIT ∧ (completed t c = COMMIT ∨ completed t c = NOTIFY)
  | ABORT => gave_up t log
  | END => gave_up t log ∨ (prepare_failed log ∧ ¬ attempted log COMMIT) ∨
      ∀ c, c ∈ clients → succeeded log c COMMIT
  | _ => False
  end.

(** COMMIT comes after every coordinator has prepared; NOTIFY and ABORT exclude each other. *)
Definition log_ok (log : Log) : Prop :=
  (∀ l1 id r l2, log = l1 ++ (id, COMMIT, r) :: l2 → ∀ c, c ∈ clients → succeeded l1 c PREPARE) ∧
  ¬ (attempted log NOTIFY ∧ attempted log ABORT).

Record ready (t : Transaction) (log : Log) : Prop := {
  rd_fine : currentPhaseFailed t = false;
  rd_result : currentPhaseExecutionResult t = OK_RESULT;
  rd_retries : (0 < retries t ≤ DEFAULT_RETRIES)%Z;
  rd_known : known (currentPhase t) t log;
  rd_log : log_ok log;
  rd_notify : attempted log NOTIFY → transactionFailed t = false;
  rd_abort : attempted log ABORT → transactionFailed t = true
}.

(** The number of phases left, retries included. *)
Definition rank (p : TransactionPhase) : nat :=
  match p with BEGIN => 4 | PREPARE => 3 | COMMIT => 2 | NOTIFY | ABORT => 1 | _ => 0 end.
Definition remaining (t : Transaction) : nat := 5 * rank (currentPhase t) + Z.to_nat (retries t).

(** ** From one phase to the next *)

Lemma attempted_app log ext p q :
  Forall (λ x, x.1.2 = p) ext → attempted (log ++ ext) q → attempted log q ∨ q = p.
Proof.
  intros Hext (id & r & [Hin|Hin]%elem_of_app); [left; by exists id, r|right].
  rewrite Forall_forall in Hext. by apply Hext in Hin.
Qed.

Lemma log_ok_dispatch t t' log ext :
  ready t log → dispatched (currentPhase t) t t' ext →
  log_ok (log ++ ext) ∧ (attempted (log ++ ext) NOTIFY → transactionFailed t = false) ∧
  (attempted (log ++ ext) ABORT → transactionFailed t = true).
Proof.
  intros [_ _ _ Hk [Hc Hna] Hn Ha] [_ Hph _ _ _ _].
  assert (attempted (log ++ ext) NOTIFY → transactionFailed t = false) as Hn'.
  { intros [?|E]%(attempted_app _ _ _ _ Hph); [by apply Hn|]. rewrite <-E in Hk. apply Hk. }
  assert (attempted (log ++ ext) ABORT → transactionFailed t = true) as Ha'.
  { intros [?|E]%(attempted_app _ _ _ _ Hph); [by apply Ha|]. rewrite <-E in Hk. apply Hk. }
  split_and!; [|done|done]. split; [|intros [H1 H2]; specialize (Hn' H1); specialize (Ha' H2); congruence].
  intros l1 id r l2 Hl c Hcc. apply app_eq_inv in Hl as [(k & Hl1 & Hk2)|(k & -> & Hk2)].
  - destruct k as [|x k].
    + rewrite app_nil_r in Hl1. subst l1. cbn in Hk2. subst ext.
      apply Forall_cons in Hph as [Hp _]. cbn in Hp. rewrite <-Hp in Hk. by apply Hk.
    + injection Hk2 as <- ->. by eapply Hc.
  - assert (COMMIT = currentPhase t) as Hp.
    { rewrite Forall_forall in Hph. apply (Hph (id, COMMIT, r)). rewrite Hk2. apply elem_of_app. right. left. }
    rewrite <-Hp in Hk. by apply succeeded_app, Hk.
Qed.

Definition entered (q : TransactionPhase) (t : Transaction) : Transaction :=
  setCurrentPhase q
    (if currentPhaseFailed t then
       setCurrentPhaseExecutionResult OK_RESULT (setCurrentPhaseFailed false
         (if transactionPhaseFailed t then t
          else setTransactionExecutionResult (currentPhaseExecutionResult t) (setTransactionPhaseFailed true t)))
     else t).

Lemma entered_facts q t :
  let t' := entered q t in
  currentPhase t' = q ∧ currentPhaseFailed t' = false ∧ transactionFailed t' = transactionFailed t ∧
  retries t' = retries t ∧
  lastCompletedTransactionPhaseOnPrivacyBudgetServer t' = lastCompletedTransactionPhaseOnPrivacyBudgetServer t ∧
  ((currentPhaseFailed t = false → currentPhaseExecutionResult t = OK_RESULT) →
   currentPhaseExecutionResult t' = OK_RESULT).
Proof.
  unfold entered. destruct (currentPhaseFailed t) eqn:E; [|cbn; split_and!; auto].
  by destruct (transactionPhaseFailed t).
Qed.

Lemma enter_phase_eq p q t : currentPhase t = p → distributed_phase q = true →
  enter_phase p q t = Execute (entered q t).
Proof.
  intros Hp Hq. unfold enter_phase, entered. rewrite Hq.
  destruct (currentPhaseFailed t); [destruct (transactionPhaseFailed t)|]; cbn; by rewrite bool_decide_eq_false_2 by auto.
Qed.

Lemma proceed_advance p q t :
  nextPhase p (currentPhaseExecutionResult t) = q → q ≠ p → distributed_phase q = true → currentPhase t = p →
  proceedToNextPhase clients p t =
    Execute (entered q (resetRetries (if bool_decide (q = ABORT) then setTransactionFailed true t else t))).
Proof.
  intros Hn Hqp Hd Hp. unfold proceedToNextPhase. rewrite Hn.
  rewrite (bool_decide_eq_false_2 (q = FINISHED)) by (by intros ->).
  rewrite (bool_decide_eq_false_2 (q = UNKNOWN)) by (by intros ->).
  rewrite (bool_decide_eq_false_2 (q = p)) by done.
  replace ((retries (resetRetries (if bool_decide (q = ABORT) then setTransactionFailed true t else t)) <=? 0)%Z)
    with false by done.
  apply enter_phase_eq; [|done]. by destruct (bool_decide (q = ABORT)).
Qed.

Lemma proceed_repeat p t :
  nextPhase p (currentPhaseExecutionResult t) = p → distributed_phase p = true → currentPhase t = p →
  (p = ABORT → transactionFailed t = true) →
  let t1 := setRetries (retries t - 1)%Z t in
  proceedToNextPhase clients p t =
    if (retries t - 1 <=? 0)%Z then
      if canMarkTransactionAsSuccessful clients p t1 then Return t1
      else Throw (TransactionEngineException TRANSACTION_MANAGER_RETRIES_EXCEEDED) t1
    else Execute (entered p t1).
Proof.
  intros Hn Hd Hp Ha t1. unfold proceedToNextPhase. rewrite Hn.
  rewrite (bool_decide_eq_false_2 (p = FINISHED)) by (by intros ->).
  rewrite (bool_decide_eq_false_2 (p = UNKNOWN)) by (by intros ->).
  rewrite (bool_decide_eq_true_2 (p = p)) by done.
  assert ((if bool_decide (p = ABORT) then setTransactionFailed true t else t) = t) as ->.
  { case_bool_decide as E; [|done]. specialize (Ha E). destruct t. cbn in Ha. by subst. }
  cbn [retries setRetries]. fold t1. destruct (retries t - 1 <=? 0)%Z; [done|]. by apply enter_phase_eq.
Qed.

(** What a return says. *)
Definition settled (t : Transaction) (log : Log) : Prop :=
  (∀ c, c ∈ clients → succeeded log c COMMIT) ∨ (prepare_failed log ∧ ¬ attempted log COMMIT) ∨ gave_up t log.

Definition decided (t : Transaction) (log : Log) (d : Decision) : Prop :=
  match d with
  | Return t' => settled t' log ∧ log_ok log
  | Throw _ _ => log_ok log
  | Execute t' => ready t' log ∧ remaining t' < remaining t
  end.

Section step.
Variables (t t' : Transaction) (log ext : Log).
Hypothesis Hready : ready t log.
Hypothesis Hdisp : dispatched (currentPhase t) t t' ext.

Lemma step_result : currentPhaseFailed t' = false → currentPhaseExecutionResult t' = OK_RESULT.
Proof. intros Hf. destruct Hdisp as [_ _ _ _ _ D]. destruct (D Hf) as [-> _]. by destruct Hready. Qed.

Lemma step_frame : currentPhase t' = currentPhase t ∧ transactionFailed t' = transactionFailed t ∧ retries t' = retries t.
Proof. destruct Hdisp as [F _ _ _ _ _]. unfold frame in F. by injection F as ? ? ? ? ? ?. Qed.

Lemma step_known_same t'' p : lastCompletedTransactionPhaseOnPrivacyBudgetServer t'' =
    lastCompletedTransactionPhaseOnPrivacyBudgetServer t' → currentPhase t = p →
  ∀ c, completed t'' c = completed t c ∨ completed t'' c = p.
Proof.
  intros E <- c. destruct Hdisp as [_ _ L _ _ _]. unfold getLastCompletedTransactionPhaseOnPrivacyBudgetServer in *.
  rewrite E. apply L.
Qed.

Lemma step_not_attempted q : currentPhase t ≠ q → ¬ attempted log q → ¬ attempted (log ++ ext) q.
Proof. intros Hq Hn [?|E]%(attempted_app _ _ _ _ (dd_phase _ _ _ _ Hdisp)); congruence. Qed.

Lemma advance_ok q :
  nextPhase (currentPhase t) (currentPhaseExecutionResult t') = q → q ≠ currentPhase t → distributed_phase q = true →
  rank q < rank (currentPhase t) → (q = ABORT → ¬ attempted (log ++ ext) NOTIFY) →
  (∀ t'', transactionFailed t'' = (if bool_decide (q = ABORT) then true else transactionFailed t) →
     lastCompletedTransactionPhaseOnPrivacyBudgetServer t'' = lastCompletedTransactionPhaseOnPrivacyBudgetServer t' →
     known q t'' (log ++ ext)) →
  decided t (log ++ ext) (proceedToNextPhase clients (currentPhase t) t').
Proof.
  intros Hn Hqp Hd Hrank Hab Hknown. destruct step_frame as (Hcp & Htf & Hrt).
  rewrite (proceed_advance _ q) by done. set (t1 := resetRetries _).
  assert (transactionFailed t1 = if bool_decide (q = ABORT) then true else transactionFailed t) as Htf1
    by (unfold t1; by destruct (bool_decide (q = ABORT))).
  assert (currentPhaseFailed t1 = currentPhaseFailed t' ∧ currentPhaseExecutionResult t1 = currentPhaseExecutionResult t' ∧
    lastCompletedTransactionPhaseOnPrivacyBudgetServer t1 = lastCompletedTransactionPhaseOnPrivacyBudgetServer t')
    as (Hf1 & Hr1 & Hl1) by (unfold t1; by destruct (bool_decide (q = ABORT))).
  destruct (entered_facts q t1) as (E1 & E2 & E3 & E4 & E5 & E6).
  destruct (log_ok_dispatch t t' log ext Hready Hdisp) as (Hlog & Hnot & Habt).
  cbn [decided]. split.
  - constructor; [done|apply E6; rewrite Hf1, Hr1; apply step_result|by rewrite E4| |done| |].
    + rewrite E1. apply Hknown; congruence.
    + intros Hat. rewrite E3, Htf1. case_bool_decide; [|by apply Hnot]. exfalso. by apply Hab.
    + intros Hat. rewrite E3, Htf1. case_bool_decide; [done|by apply Habt].
  - unfold remaining. rewrite E1, E4. destruct Hready as [_ _ Hr _ _ _ _].
    change (retries t1) with DEFAULT_RETRIES. unfold DEFAULT_RETRIES in *. lia.
Qed.

Lemma repeat_ok :
  nextPhase (currentPhase t) (currentPhaseExecutionResult t') = currentPhase t →
  (∀ t'', transactionFailed t'' = transactionFailed t →
     lastCompletedTransactionPhaseOnPrivacyBudgetServer t'' = lastCompletedTransactionPhaseOnPrivacyBudgetServer t' →
     known (currentPhase t) t'' (log ++ ext)) →
  decided t (log ++ ext) (proceedToNextPhase clients (currentPhase t) t').
Proof.
  intros Hn Hknown. destruct step_frame as (Hcp & Htf & Hrt).
  destruct (log_ok_dispatch t t' log ext Hready Hdisp) as (Hlog & Hnot & Habt).
  pose proof Hready as [_ _ Hr Hk _ _ _].
  assert (distributed_phase (currentPhase t) = true) as Hd by (by destruct (currentPhase t)).
  rewrite proceed_repeat; [|done|done|done|intros E; rewrite Htf; rewrite E in Hk; apply Hk].
  set (t1 := setRetries (retries t' - 1)%Z t'). destruct (Z.leb_spec (retries t' - 1) 0).
  - destruct (canMarkTransactionAsSuccessful clients (currentPhase t) t1) eqn:Ecan; [|done]. split; [|done].
    specialize (Hknown t1 Htf eq_refl). unfold canMarkTransactionAsSuccessful in Ecan.
    destruct (currentPhase t); try done.
    + left. intros c Hc. by apply Hknown.
    + destruct Hknown as [?|[?|?]]; unfold settled; auto.
  - destruct (entered_facts (currentPhase t) t1) as (E1 & E2 & E3 & E4 & E5 & E6). split.
    + constructor; [done|apply E6; apply step_result|rewrite E4; cbn; lia| |done| |].
      * rewrite E1. apply Hknown; [by rewrite E3|by rewrite E5].
      * rewrite E3. cbn. rewrite Htf. done.
      * rewrite E3. cbn. rewrite Htf. done.
    + unfold remaining. rewrite E1, E4. cbn. lia.
Qed.

Lemma gave_up_later t'' : transactionFailed t'' = transactionFailed t → gave_up t log → gave_up t'' (log ++ ext).
Proof.
  intros E (Htf & id & p & r & Hin & Hp). split; [congruence|]. exists id, p, r. split; [apply elem_of_app; by left|done].
Qed.

Lemma repeat_known t'' : transactionFailed t'' = transactionFailed t →
  lastCompletedTransactionPhaseOnPrivacyBudgetServer t'' = lastCompletedTransactionPhaseOnPrivacyBudgetServer t' →
  known (currentPhase t) t'' (log ++ ext).
Proof.
  intros Htf Hl. pose proof Hready as [_ _ _ Hk _ _ _].
  pose proof (step_known_same t'' (currentPhase t) Hl eq_refl) as Hs.
  pose proof step_not_attempted as Hna.
  destruct (currentPhase t); cbn [known] in Hk |- *; try done.
  - destruct Hk as (? & ? & ? & Hk). split_and!; [congruence|auto|auto|]. intros c Hc. destruct (Hs c) as [->| ->]; auto.
  - destruct Hk as (? & ? & ? & Hk). split_and!; [congruence|auto|auto|]. intros c Hc. destruct (Hs c) as [->| ->]; auto.
  - destruct Hk as (? & ? & Hk). split_and!; [congruence|auto|]. intros c Hc. destruct (Hk c Hc) as [? ?].
    split; [by apply succeeded_app|]. destruct (Hs c) as [->| ->]; auto.
  - destruct Hk as (? & Hk). split_and!; [congruence|]. intros c Hc. destruct (Hk c Hc) as [? ?].
    split; [by apply succeeded_app|]. destruct (Hs c) as [->| ->]; auto.
  - by apply gave_up_later.
  - destruct Hk as [?|[[(id & r & Hin & Hr) ?]|Hk]]; [left; by apply gave_up_later| |right; right; intros c Hc; by apply succeeded_app, Hk].
    right. left. split; [|auto]. exists id, r. split; [|done]. apply elem_of_app. by left.
Qed.

Lemma step_active : currentPhase t ≠ ABORT → currentPhase t ≠ END → active clients (currentPhase t) t.
Proof.
  pose proof Hready as [_ _ _ Hk _ _ _].
  destruct (currentPhase t); cbn [known] in Hk; try done; intros _ _; (split_and!; [done|done|]); intros c Hc.
  - by destruct Hk as (_ & _ & _ & [->| ->]%(λ f, f c Hc)).
  - by destruct Hk as (_ & _ & _ & [->| ->]%(λ f, f c Hc)).
  - by destruct Hk as (_ & _ & [_ [->| ->]]%(λ f, f c Hc)).
  - by destruct Hk as (_ & [_ [->| ->]]%(λ f, f c Hc)).
Qed.

Lemma finished_ok : currentPhase t = END → nextPhase (currentPhase t) (currentPhaseExecutionResult t') = FINISHED →
  decided t (log ++ ext) (proceedToNextPhase clients (currentPhase t) t').
Proof.
  intros Hp Hn. destruct step_frame as (_ & Htf & _). unfold proceedToNextPhase. rewrite Hn. cbn.
  destruct (log_ok_dispatch t t' log ext Hready Hdisp) as (Hlog & _ & _).
  pose proof (repeat_known t' Htf eq_refl) as Hk. rewrite Hp in Hk.
  destruct (transactionFailed t') eqn:E; [done|]. split; [|done].
  destruct Hk as [[??]|[?|?]]; [congruence| |]; unfold settled; auto.
Qed.

(** How a phase ends. *)
Inductive phase_end : Prop :=
  | PhaseOk : currentPhaseFailed t' = false → currentPhaseExecutionResult t' = OK_RESULT → phase_end
  | PhaseRetry : executionStatus (currentPhaseExecutionResult t') = RETRY → phase_end
  | PhaseFailure id : executionStatus (currentPhaseExecutionResult t') = FAILURE →
      (id, currentPhase t, currentPhaseExecutionResult t') ∈ ext → phase_end.

Lemma step_end : phase_end.
Proof.
  destruct (currentPhaseFailed t') eqn:Ef; [|apply PhaseOk; [done|by apply step_result]].
  destruct Hdisp as [_ _ _ _ F _]. destruct (F (rd_fine _ _ Hready) Ef) as [Hne [id Hid]].
  destruct (executionStatus (currentPhaseExecutionResult t')) eqn:Es; [done| |]; eauto using phase_end.
Qed.

Lemma next_retry p : p ≠ UNKNOWN → executionStatus (currentPhaseExecutionResult t') = RETRY →
  nextPhase p (currentPhaseExecutionResult t') = p.
Proof. intros Hp Hs. unfold nextPhase. rewrite Hs, bool_decide_eq_false_2 by done. done. Qed.

Lemma next_failure p : executionStatus (currentPhaseExecutionResult t') = FAILURE →
  nextPhase p (currentPhaseExecutionResult t') =
    if bool_decide (p = UNKNOWN) then ABORT else proceedToNextPhaseInternal p false.
Proof. intros Hs. unfold nextPhase. by rewrite Hs. Qed.

Hypothesis Hall : currentPhaseFailed t' = false → active clients (currentPhase t) t →
  ∀ c, c ∈ clients → succeeded ext c (currentPhase t) ∧ completed t' c = currentPhase t.

Lemma step_advanced t'' p : currentPhase t = p → p ≠ ABORT → p ≠ END → currentPhaseFailed t' = false →
  lastCompletedTransactionPhaseOnPrivacyBudgetServer t'' = lastCompletedTransactionPhaseOnPrivacyBudgetServer t' →
  ∀ c, c ∈ clients → succeeded (log ++ ext) c p ∧ completed t'' c = p.
Proof.
  intros Hp Ha He Hf Hl c Hc. rewrite <-Hp in *. destruct (Hall Hf (step_active Ha He) c Hc) as [(r & Hr & Hs) Hco].
  split; [exists r; split; [apply elem_of_app; by right|done]|].
  unfold getLastCompletedTransactionPhaseOnPrivacyBudgetServer in *. by rewrite Hl.
Qed.

(** The phases in which a success leads to the next one, and a failure to ABORT or, for PREPARE, to END. *)
Lemma ok_step p : currentPhase t = p → currentPhaseFailed t' = false → currentPhaseExecutionResult t' = OK_RESULT →
  decided t (log ++ ext) (proceedToNextPhase clients p t').
Proof.
  intros Hp Hf Hr. pose proof Hready as [_ _ _ Hk _ _ _]. pose proof step_not_attempted as Hna.
  pose proof (λ t'', step_advanced t'' p Hp) as Hadv. destruct step_frame as (_ & Htf & _).
  rewrite Hp in Hk, Hna. rewrite <-Hp.
  destruct p; cbn [known] in Hk; try done.
  - destruct Hk as (Ht & ? & ? & _).
    apply (advance_ok PREPARE); rewrite ?Hr, ?Hp; try done; [cbn; lia|]. intros t'' Ht'' Hl; change (transactionFailed t'' = transactionFailed t) in Ht''; cbn.
    split_and!; [congruence|auto|auto|]. intros c Hc. left. by apply Hadv.
  - destruct Hk as (Ht & ? & ? & _).
    apply (advance_ok COMMIT); rewrite ?Hr, ?Hp; try done; [cbn; lia|]. intros t'' Ht'' Hl; change (transactionFailed t'' = transactionFailed t) in Ht''; cbn.
    split_and!; [congruence|auto|]. intros c Hc. destruct (Hadv t'' ltac:(done) ltac:(done) Hf Hl c Hc). auto.
  - destruct Hk as (Ht & ? & _).
    apply (advance_ok NOTIFY); rewrite ?Hr, ?Hp; try done; [cbn; lia|]. intros t'' Ht'' Hl; change (transactionFailed t'' = transactionFailed t) in Ht''; cbn.
    split_and!; [congruence|]. intros c Hc. destruct (Hadv t'' ltac:(done) ltac:(done) Hf Hl c Hc). auto.
  - apply (advance_ok END); rewrite ?Hr, ?Hp; try done; [cbn; lia|]. intros t'' Ht'' Hl; change (transactionFailed t'' = transactionFailed t) in Ht''; cbn.
    right. right. intros c Hc. by apply succeeded_app, Hk.
  - apply (advance_ok END); rewrite ?Hr, ?Hp; try done; [cbn; lia|]. intros t'' Ht'' Hl; change (transactionFailed t'' = transactionFailed t) in Ht''; cbn. left. by apply gave_up_later.
  - apply finished_ok; [done|by rewrite Hr, Hp].
Qed.

Lemma failure_step p id : currentPhase t = p → executionStatus (currentPhaseExecutionResult t') = FAILURE →
  (id, p, currentPhaseExecutionResult t') ∈ ext →
  decided t (log ++ ext) (proceedToNextPhase clients p t').
Proof.
  intros Hp Hs Hin. pose proof Hready as [_ _ _ Hk _ _ _]. pose proof step_not_attempted as Hna.
  pose proof (next_failure p Hs) as Hn. rewrite Hp in Hk, Hna. rewrite <-Hp.
  destruct p; cbn [known] in Hk; try done.
  - apply (advance_ok ABORT); rewrite ?Hp in *; try done; [cbn; lia|intros _; apply Hna; [done|apply Hk]|].
    intros t'' Ht'' _. split; [exact Ht''|]. eexists id, _, _. split; [apply elem_of_app; by right|auto].
  - apply (advance_ok END); rewrite ?Hp in *; try done; [cbn; lia|]. intros t'' _ _. right. left. split; [|by apply Hna, Hk].
    exists id, (currentPhaseExecutionResult t'). split; [apply elem_of_app; by right|done].
  - apply (advance_ok ABORT); rewrite ?Hp in *; try done; [cbn; lia|intros _; apply Hna; [done|apply Hk]|].
    intros t'' Ht'' _. split; [exact Ht''|]. eexists id, _, _. split; [apply elem_of_app; by right|auto].
  - apply repeat_ok; [by rewrite Hp|apply repeat_known].
  - apply repeat_ok; [by rewrite Hp|apply repeat_known].
  - apply finished_ok; [done|by rewrite Hp].
Qed.

Lemma phase_step : decided t (log ++ ext) (proceedToNextPhase clients (currentPhase t) t').
Proof.
  destruct step_end as [Hf Hr|Hs|id Hs Hin].
  - by apply ok_step.
  - apply repeat_ok; [|apply repeat_known]. apply next_retry; [|done].
    intros E. pose proof (rd_known _ _ Hready) as Hk. by rewrite E in Hk.
  - by eapply failure_step.
Qed.
End step.

(** ** The whole run *)

Definition finished_ok_outcome (o : Outcome (W := W)) : Prop :=
  log_ok (answers o) ∧ (∀ us, returned o = inr us → us = exhaustedPrivacyBudgetUnits (final o) ∧ settled (final o) (answers o)).

Lemma engine_loop_ok fuel t w log : ready t log → remaining t ≤ fuel →
  ∃ o, engine_loop clients fuel (Execute t) w log = Some o ∧ finished_ok_outcome o.
Proof.
  revert t w log. induction fuel as [|fuel IH]; intros t w log Hready Hfuel.
  { pose proof (rd_retries _ _ Hready). unfold remaining in Hfuel. lia. }
  cbn [engine_loop].
  destruct (dispatch_loop clients (currentPhase t) t w log) as [[[e t'] w'] log'] eqn:E.
  destruct (dispatch_loop_spec _ _ _ _ _ _ _ _ _ E) as (ext & -> & Hd & Hall).
  destruct e as [e|].
  { eexists. split; [done|]. split; [apply (log_ok_dispatch t t' log ext Hready Hd)|done]. }
  pose proof (phase_step t t' log ext Hready Hd (Hall eq_refl)) as Hdec.
  destruct (proceedToNextPhase clients (currentPhase t) t') as [t2|e t2|t2] eqn:Ep; cbn [decided] in Hdec.
  - exists (mkOutcome (inr (exhaustedPrivacyBudgetUnits t2)) t2 w' (log ++ ext)). split; [by destruct fuel|].
    destruct Hdec. split; [done|]. by intros us [= <-].
  - exists (mkOutcome (inl e) t2 w' (log ++ ext)). split; [by destruct fuel|]. by split.
  - apply IH; [by destruct Hdec|]. destruct Hdec. lia.
Qed.

Lemma ready_begin r : ready (setCurrentPhase BEGIN (newTransaction r)) [].
Proof.
  assert (∀ p, ¬ attempted [] p) as Hno by (by intros p (? & ? & ?%elem_of_nil)).
  constructor; try done.
  - split_and!; try done. by left.
  - split; [by intros []|]. by intros [?%Hno _].
  - by intros ?%Hno.
Qed.

Lemma execute_ok r w : ∃ o, execute clients r w = Some o ∧ finished_ok_outcome o.
Proof.
  apply (engine_loop_ok execute_fuel (setCurrentPhase BEGIN (newTransaction r)) w []); [apply ready_begin|].
  vm_compute. lia.
Qed.

(** ** The world outside *)

(** What the engine guarantees when it calls a client. *)
Definition may_call (log : Log) (p : TransactionPhase) : Prop :=
  p = COMMIT → ∀ c, c ∈ clients → succeeded log c PREPARE.

Section world.
(** [J] holds after a call that answers, [K] after any. *)
Variables J K : Log → W → Prop.
Hypothesis J_K : ∀ log w, J log w → K log w.
Hypothesis J_step : ∀ c t w r t' w' log,
  c ∈ clients → J log w → may_call log (currentPhase t) → distributed_phase (currentPhase t) = true →
  performAction (currentPhase t) c t w = (r, t', w') →
  match r with inl _ => K log w' | inr r => J (log ++ [(id_of c, currentPhase t, r)]) w' end.

Lemma dispatch_world cs phase t w log e t' w' log' :
  cs ⊆ clients → currentPhase t = phase → may_call log phase → J log w →
  dispatch_loop cs phase t w log = (e, t', w', log') →
  match e with None => J log' w' | Some _ => K log' w' end.
Proof.
  revert t w log. induction cs as [|c cs IH]; intros t w log Hcs Hp Hm HJ E; cbn in E.
  { by injection E as <- _ <- <-. }
  assert (cs ⊆ clients) by (intros x Hx; apply Hcs; by right).
  case_match; [by eapply IH|].
  destruct (dispatchDistributedCommand c t w) as [[r t1] w1] eqn:Ec. pose proof (dispatch_control _ _ _ _ _ _ Ec) as Hctl.
  apply control_frame in Hctl as (Hfr & _). unfold dispatchDistributedCommand in Ec.
  destruct (distributed_phase (currentPhase t)) eqn:Ed; cbn [negb] in Ec.
  - destruct (performAction (currentPhase t) c t w) as [[r0 t0] w0] eqn:Ea.
    pose proof (J_step _ _ _ _ _ _ log (Hcs c ltac:(by left)) HJ ltac:(by rewrite Hp) Ed Ea) as Hs.
    destruct r0 as [ex|r0].
    + assert (∃ ex', r = inl ex' ∧ w1 = w0) as (ex' & -> & ->) by (destruct ex; injection Ec as <- <- <-; eauto).
      by injection E as <- <- <- <-.
    + injection Ec as <- <- <-. rewrite Hp in Hs. eapply IH; [done| | | |exact E]; [|by intros Hc c' Hc'; apply succeeded_app, Hm|done].
      injection Hfr as ? Hcp ? ? ? ?. rewrite <-Hp, <-Hcp. by repeat case_match.
  - injection Ec as <- <- <-. injection E as <- <- <- <-. by apply J_K.
Qed.

Lemma known_may_call t log : ready t log → may_call log (currentPhase t).
Proof. intros [_ _ _ Hk _ _ _] Hp. rewrite Hp in Hk. by intros c Hc; apply Hk. Qed.

Definition world_ok (o : Outcome (W := W)) : Prop :=
  K (answers o) (world o) ∧ (∀ us, returned o = inr us → J (answers o) (world o)).

Lemma engine_loop_world fuel t w log o : ready t log → J log w →
  engine_loop clients fuel (Execute t) w log = Some o → world_ok o.
Proof.
  revert t w log. induction fuel as [|fuel IH]; intros t w log Hready HJ E; cbn [engine_loop] in E; [done|].
  destruct (dispatch_loop clients (currentPhase t) t w log) as [[[e t'] w'] log'] eqn:Ed.
  pose proof (dispatch_world _ _ _ _ _ _ _ _ _ ltac:(done) eq_refl (known_may_call _ _ Hready) HJ Ed) as Hw.
  destruct (dispatch_loop_spec _ _ _ _ _ _ _ _ _ Ed) as (ext & -> & Hd & Hall).
  destruct e as [e|]; [by injection E as <-|].
  pose proof (phase_step t t' log ext Hready Hd (Hall eq_refl)) as Hdec.
  destruct (proceedToNextPhase clients (currentPhase t) t') as [t2|e t2|t2] eqn:Ep; cbn [decided] in Hdec.
  - destruct fuel; injection E as <-; (split; [by apply J_K|done]).
  - destruct fuel; injection E as <-; (split; [by apply J_K|done]).
  - eapply IH; [apply Hdec|done|done].
Qed.

Lemma execute_world r w o : J [] w → execute clients r w = Some o → world_ok o.
Proof.
  apply (engine_loop_world execute_fuel (setCurrentPhase BEGIN (newTransaction r)) w []), ready_begin.
Qed.
End world.

Lemma dispatch_loop_calls cs phase t w log e t' w' log' :
  dispatch_loop cs phase t w log = (e, t', w', log') → length log' ≤ length log + length cs.
Proof.
  revert t w log. induction cs as [|c cs IH]; intros t w log E; cbn in E; [injection E as _ _ _ <-; lia|].
  case_match; [apply IH in E; cbn; lia|].
  destruct (dispatchDistributedCommand c t w) as [[[ex|r] t1] w1]; [injection E as _ _ _ <-; lia|].
  apply IH in E. rewrite length_app in E. cbn in E |- *. lia.
Qed.

Lemma engine_loop_calls fuel d w log o : engine_loop clients fuel d w log = Some o →
  length (answers o) ≤ length log + fuel * length clients.
Proof.
  revert d w log. induction fuel as [|fuel IH]; intros d w log E; destruct d as [t|e t|t]; cbn in E;
    try (injection E as <-; cbn; lia); [done|].
  destruct (dispatch_loop clients (currentPhase t) t w log) as [[[e t'] w'] log'] eqn:Ed.
  apply dispatch_loop_calls in Ed. destruct e as [e|]; [injection E as <-; cbn; lia|]. apply IH in E. lia.
Qed.


(** C15: Two-phase commit.  A coordinator is asked to COMMIT only after every coordinator has
    answered its PREPARE with success. *)
Theorem commit_only_after_all_prepared r w o l1 id a l2 :
  execute clients r w = Some o → answers o = l1 ++ (id, COMMIT, a) :: l2 →
  ∀ c, c ∈ clients → succeeded l1 c PREPARE.
Proof. intros Ho Hl. destruct (execute_ok r w) as (o' & Ho' & [[Hc _] _]). simplify_eq. by eapply Hc. Qed.

(** No transaction has both a NOTIFY and an ABORT: the coordinators are never told both that it
    was committed and that it was given up. *)
Theorem notify_excludes_abort r w o :
  execute clients r w = Some o → ¬ (attempted (answers o) NOTIFY ∧ attempted (answers o) ABORT).
Proof. intros Ho. destruct (execute_ok r w) as (o' & Ho' & [[_ Hn] _]). by simplify_eq. Qed.

(** What a normal return says.  The units returned are those the coordinators reported as
    exhausted, and either every coordinator has committed, or a coordinator has refused to prepare and
    none was asked to commit, or the transaction was given up after a coordinator refused to begin or to commit. *)
Theorem execute_returns_settled r w o us :
  execute clients r w = Some o → returned o = inr us →
  us = exhaustedPrivacyBudgetUnits (final o) ∧ settled (final o) (answers o).
Proof. intros Ho Hr. destruct (execute_ok r w) as (o' & Ho' & [_ Hs]). simplify_eq. by apply Hs. Qed.
End spec.
