(* ===== verification/HttpClient.v ===== *)
(** * HttpClient: the HTTP clients of the Java code

    Models [java/com/google/scp/shared/api/util]: [HttpClientWithInterceptor.java],
    [HttpClientWrapper.java] and [HttpClientResponse.java].  Java code that
    mutates a state and throws is a function of type [Java S A]: it returns a
    value or throws, and leaves a new state.  What sends a request (Apache's
    clients, with the interceptors) is the interface [HttpTransport]; the
    retry library is the interface [RetryLibrary], with its documented
    behaviour as a law.  Waiting between attempts is not modelled.  [traced]
    turns any transport into one that remembers every exchange. *)

From stdpp Require Import pretty.
From S2P Require Import Prelude.

Local Open Scope string_scope.
Local Open Scope list_scope.
Local Open Scope Z_scope.

(** ** Code that mutates and throws *)

(** What is thrown, by class.  [JsonProcessingException] extends [IOException]; [OtherThrowable] is
    any other one. *)
Inductive Exn :=
  | IOException
  | JsonProcessingException
  | StsException (statusCode : Z) (errorMessage : option string)
  | IllegalStateException
  | IllegalArgumentException
  | NullPointerException
  | IndexOutOfBoundsException
  | PBCException
  | OtherThrowable.

#[global] Instance Exn_eq_dec : EqDecision Exn.
Proof. solve_decision. Defined.

Definition Java (S A : Type) : Type := S → (Exn + A) * S.

#[global] Instance java_ret S : MRet (Java S) := λ A a s, (inr a, s).
#[global] Instance java_bind S : MBind (Java S) := λ A B f m s,
  match m s with
  | (inl e, s) => (inl e, s)
  | (inr a, s) => f a s
  end.

Definition throw {S A} (e : Exn) : Java S A := λ s, (inl e, s).

(** [try { m } catch ...]: [h] gives the handler of what it catches. *)
Definition try_catch {S A} (m : Java S A) (h : Exn → option (Java S A)) : Java S A := λ s,
  match m s with
  | (inl e, s) => match h e with Some k => k s | None => (inl e, s) end
  | r => r
  end.

Definition or_throw {S A} (e : Exn) (x : option A) : Java S A :=
  match x with Some a => mret a | None => throw e end.

(** ** Requests, responses and the transport *)

Inductive Method := GET | POST.

#[global] Instance Method_eq_dec : EqDecision Method.
Proof. solve_decision. Defined.

(** [req_headers] are the calls of [setHeader], in order. *)
Record SimpleHttpRequest := mkHttpRequest {
  req_method : Method;
  req_uri : string;
  req_headers : list (string * string);
  req_body : option string
}.

Record SimpleHttpResponse := mkHttpResponse {
  resp_code : Z;
  resp_body : option string;
  resp_headers : list (string * string)
}.

(** [HttpClientResponse.create]; a response may have no body. *)
Record HttpClientResponse := createResponse {
  response_statusCode : Z;
  responseBody : option string;
  response_headers : gmap string string
}.

Class HttpTransport (S : Type) := send_request : SimpleHttpRequest → Java S SimpleHttpResponse.

(** [URI.create] accepts the text. *)
Class UriSyntax := uri_valid : string → bool.

(** ** The retry library *)

Record RetryConfig (R : Type) := mkRetryConfig {
  maxAttempts : Z;
  retryOnException : Exn → bool;
  retryOnResult : R → bool
}.
Arguments mkRetryConfig {R}.
Arguments maxAttempts {R}.
Arguments retryOnException {R}.
Arguments retryOnResult {R}.

Definition retryable {R} (cfg : RetryConfig R) (a : Exn + R) : bool :=
  match a with inl e => retryOnException cfg e | inr r => retryOnResult cfg r end.

(** One call, and [n] more while the answer is to be retried; the last answer is the result. *)
Fixpoint attempts {S R} (n : nat) (cfg : RetryConfig R) (call : Java S R) : Java S R := λ s,
  match call s with
  | (a, s) =>
      match n with
      | O => (a, s)
      | Datatypes.S n => if retryable cfg a then attempts n cfg call s else (a, s)
      end
  end.

Class RetryLibrary := {
  decorateCheckedSupplier {S R} : RetryConfig R → Java S R → Java S R;
  decorateCheckedSupplier_attempts {S R} (cfg : RetryConfig R) (call : Java S R) s :
    1 ≤ maxAttempts cfg →
    decorateCheckedSupplier cfg call s = attempts (Z.to_nat (maxAttempts cfg - 1)) cfg call s
}.

Definition RETRYABLE_HTTP_STATUS_CODES : list Z := [408; 429; 500; 502; 503; 504].

(** [Collectors.toMap] and [toImmutableMap] throw on a name that comes twice. *)
Definition headers_map (duplicate : Exn) (hs : list (string * string)) : Exn + gmap string string :=
  if bool_decide (NoDup (map fst hs)) then inr (list_to_map hs) else inl duplicate.

(** ** [HttpClientWithInterceptor] *)

Module HttpClientWithInterceptor.
Abbreviation MAX_ATTEMPTS := 6%Z (only parsing).

Definition retryOnExceptionPredicate (e : Exn) : bool :=
  match e with
  | StsException statusCode _ => negb (statusCode =? 401) && negb (statusCode =? 403)
  | _ => true
  end.

Definition retryConfig : RetryConfig SimpleHttpResponse :=
  mkRetryConfig MAX_ATTEMPTS retryOnExceptionPredicate
    (λ response, bool_decide (resp_code response ∈ RETRYABLE_HTTP_STATUS_CODES)).

Section client.
Context {S : Type} `{!HttpTransport S, !RetryLibrary, !UriSyntax}.

(** The [catch] clauses of [executeRequest]. *)
Definition on_throwable (e : Exn) : Java S SimpleHttpResponse :=
  match e with
  | StsException statusCode message =>
      let errorMessage := default "Unknown error message" message in
      if statusCode =? 401 then mret (mkHttpResponse 401 (Some errorMessage) [])
      else if statusCode =? 403 then mret (mkHttpResponse 403 (Some errorMessage) [])
      else throw IOException
  | _ => throw IOException
  end.

Definition executeRequest (httpRequest : SimpleHttpRequest) : Java S SimpleHttpResponse :=
  try_catch (decorateCheckedSupplier retryConfig (send_request httpRequest)) (λ e, Some (on_throwable e)).

Definition parseResponseHeaders (hs : list (string * string)) : Java S (gmap string string) := λ s,
  (headers_map IllegalStateException hs, s).

Definition create_response (response : SimpleHttpResponse) : Java S HttpClientResponse :=
  hs ← parseResponseHeaders (resp_headers response);
  mret (createResponse (resp_code response) (resp_body response) hs).

Definition URI_create (u : string) : Java S string :=
  if uri_valid u then mret u else throw IllegalArgumentException.

Definition executeGet (endpointUrl : string) (headers : list (string * string)) : Java S HttpClientResponse :=
  endpointUri ← URI_create endpointUrl;
  response ← executeRequest (mkHttpRequest GET endpointUri headers None);
  create_response response.

Definition executePost (endpointUrl payload : string) (headers : list (string * string)) : Java S HttpClientResponse :=
  endpointUri ← URI_create endpointUrl;
  response ← executeRequest (mkHttpRequest POST endpointUri
               (headers ++ [("content-length", pretty (Z.of_nat (String.length payload)))]) (Some payload));
  create_response response.
End client.
End HttpClientWithInterceptor.

(** ** [HttpClientWrapper] *)

Module HttpClientWrapper.

(** What Apache's blocking client returns; reading the entity can throw. *)
Record CloseableHttpResponse := mkCloseable {
  getStatusCode : Z;
  entity : Exn + string;
  getAllHeaders : list (string * string)
}.

Abbreviation DEFAULT_MAX_ATTEMPTS := 6%Z (only parsing).
(** A set of exception classes, as the test whether an exception is an instance of one of them. *)
Definition DEFAULT_EXCEPTIONS_TO_RETRY_ON (e : Exn) : bool :=
  match e with IOException | JsonProcessingException => true | _ => false end.

(** [Builder], without the interceptor and the interval. *)
Record Builder := mkBuilder {
  builder_maxAttempts : Z;
  retryExceptions : option (Exn → bool);
  retryStatusCodes : option (list Z)
}.
Definition builder : Builder := mkBuilder DEFAULT_MAX_ATTEMPTS None None.
Definition setMaxAttempt (n : Z) (b : Builder) : Builder := mkBuilder n (retryExceptions b) (retryStatusCodes b).
Definition setRetryOnExceptions (es : Exn → bool) (b : Builder) : Builder :=
  mkBuilder (builder_maxAttempts b) (Some es) (retryStatusCodes b).
Definition setRetryOnStatusCodes (cs : list Z) (b : Builder) : Builder :=
  mkBuilder (builder_maxAttempts b) (retryExceptions b) (Some cs).
Definition setExponentialBackoff (n : Z) (b : Builder) : Builder := setMaxAttempt n b.

Definition buildRetryConfig (b : Builder) : RetryConfig HttpClientResponse :=
  mkRetryConfig (builder_maxAttempts b)
    (default DEFAULT_EXCEPTIONS_TO_RETRY_ON (retryExceptions b))
    (λ response, bool_decide (response_statusCode response ∈
                                default RETRYABLE_HTTP_STATUS_CODES (retryStatusCodes b))).

Section client.
Context {S Request : Type} `{!RetryLibrary}.
Variable httpClient_execute : Request → Java S CloseableHttpResponse.

Definition wrapper_executeRequest (request : Request) : Java S HttpClientResponse :=
  response ← httpClient_execute request;
  body ← (λ s, (entity response, s)) : Java S string;
  hs ← (λ s, (headers_map IllegalArgumentException (getAllHeaders response), s)) : Java S (gmap string string);
  mret (createResponse (getStatusCode response) (Some body) hs).

Definition execute (b : Builder) (request : Request) : Java S HttpClientResponse :=
  try_catch (decorateCheckedSupplier (buildRetryConfig b) (wrapper_executeRequest request))
    (λ _, Some (throw IOException)).
End client.
End HttpClientWrapper.

(** ** Exchanges *)

Definition Exchange : Type := SimpleHttpRequest * (Exn + SimpleHttpResponse).
Abbreviation Traced S := (S * list Exchange)%type.

(** Any transport, with every exchange remembered. *)
#[global] Instance traced {S} `{!HttpTransport S} : HttpTransport (Traced S) := λ req '(s, tr),
  match send_request req s with
  | (a, s) => (a, (s, tr ++ [(req, a)]))
  end.

(** Retries up to a number of times. *)
#[global] Instance counted_retries : RetryLibrary.
Proof.
  refine {| decorateCheckedSupplier S R cfg call := attempts (Z.to_nat (maxAttempts cfg - 1)) cfg call |}.
  done.
Defined.

Section exchanges.
Context {S : Type} `{!HttpTransport S, !RetryLibrary, !UriSyntax}.
Import HttpClientWithInterceptor.

(** What [executeRequest] makes of the last answer. *)
Definition final_answer (a : Exn + SimpleHttpResponse) : Exn + SimpleHttpResponse :=
  match a with
  | inr r => inr r
  | inl (StsException 401 m) => inr (mkHttpResponse 401 (Some (default "Unknown error message" m)) [])
  | inl (StsException 403 m) => inr (mkHttpResponse 403 (Some (default "Unknown error message" m)) [])
  | inl _ => inl IOException
  end.

(** The exchanges of one call: at most [n] that are retried, then a last one. *)
Definition retried (cfg : RetryConfig SimpleHttpResponse) (n : nat) (req : SimpleHttpRequest)
    (calls : list Exchange) (last : Exn + SimpleHttpResponse) : Prop :=
  (length calls ≤ n)%nat ∧ Forall (λ x, x.1 = req ∧ retryable cfg x.2 = true) calls ∧
  (length calls = n ∨ retryable cfg last = false).

Lemma send_traced req (s : S) (tr : list Exchange) :
  send_request req (s, tr) = ((send_request req s).1, ((send_request req s).2, tr ++ [(req, (send_request req s).1)])).
Proof. unfold send_request at 1, traced. by destruct (send_request req s). Qed.

Lemma attempts_traced cfg n req s tr a s' tr' :
  attempts n cfg (send_request req) (s, tr) = (a, (s', tr')) →
  ∃ calls, tr' = tr ++ calls ++ [(req, a)] ∧ retried cfg n req calls a.
Proof.
  revert s tr. induction n as [|n IH]; intros s tr E; cbn [attempts] in E; rewrite send_traced in E;
    destruct (send_request req s) as [a1 s1]; cbn [fst snd] in E.
  - injection E as <- <- <-. exists []. split; [done|]. split_and!; auto.
  - destruct (retryable cfg a1) eqn:Er.
    + destruct (IH _ _ E) as (calls & -> & Hn & Hall & Hlast). exists ((req, a1) :: calls).
      split; [by rewrite <-app_assoc|]. split_and!; [cbn; lia|by constructor|].
      destruct Hlast as [<-|]; auto.
    + injection E as <- <- <-. exists []. split; [done|]. split_and!; [cbn; lia|done|auto].
Qed.

Lemma on_throwable_final e s : on_throwable e s = (final_answer (inl e), s : Traced S).
Proof.
  destruct e as [| |code m| | | | | |]; try done. cbn.
  destruct (Z.eqb_spec code 401) as [->|H1]; [done|]. destruct (Z.eqb_spec code 403) as [->|H2]; [done|].
  unfold throw. do 2 f_equal. repeat (case_match; try done).
Qed.

(** One call of [executeRequest] sends the same request at most six times, again only while the
    answer is one to retry (a transient status, or an exception that is not a refused token); the result is
    what the last attempt answered, a refused token as a response with its status and any other throwable
    as an [IOException]. *)
Lemma executeRequest_attempts req s tr a s' tr' :
  executeRequest req (s, tr) = (a, (s', tr')) →
  ∃ calls last, tr' = tr ++ calls ++ [(req, last)] ∧ a = final_answer last ∧ retried retryConfig 5 req calls last.
Proof.
  intros E. unfold executeRequest, try_catch in E. rewrite decorateCheckedSupplier_attempts in E by done.
  destruct (attempts _ _ _ _) as [a1 [s1 tr1]] eqn:Ea. apply attempts_traced in Ea as (calls & -> & Hr).
  exists calls, a1. destruct a1 as [e|r].
  - rewrite on_throwable_final in E. by injection E as <- <- <-.
  - by injection E as <- <- <-.
Qed.
End exchanges.

(** [HttpClientWrapper.execute] throws nothing but an [IOException]. *)
Lemma wrapper_throws_io {S Request} `{!RetryLibrary} (http : Request → Java S HttpClientWrapper.CloseableHttpResponse)
    b req s e s' :
  HttpClientWrapper.execute http b req s = (inl e, s') → e = IOException.
Proof.
  unfold HttpClientWrapper.execute, try_catch. destruct (decorateCheckedSupplier _ _ _) as [[e1|r] s1]; by intros [= <- _].
Qed.

(** A server whose response has a header twice. *)
Definition two_cookies : HttpTransport () := λ _ s,
  (inr (mkHttpResponse 200 None [("set-cookie", "a"); ("set-cookie", "b")]), s).

(** [executeRequest] turns every throwable into an [IOException], which the callers retry on, but a
    response with a header that comes twice makes [executeGet] throw an [IllegalStateException]. *)
Theorem duplicate_header_is_unchecked :
  HttpClientWithInterceptor.executeGet (HttpTransport0 := two_cookies) (H0 := λ _, true) "https://a" [] tt = (inl IllegalStateException, tt).
Proof. vm_compute. reflexivity. Qed.
