(* ===== verification/PrivacyBudgetHttp.v ===== *)
(** * PrivacyBudgetHttp: a coordinator's client over HTTP

    Models, in [java/com/google/scp/operator/cpio/distributedprivacybudgetclient],
    [PrivacyBudgetClientImpl.java] with the JSON classes
    [TransactionStatusResponse.java] and [BudgetExhaustedResponse.java],
    [TransactionManagerImpl.java] and [DistributedPrivacyBudgetClientImpl.java].
    The client is an instance of the engine's interface
    [TransactionEngine.PrivacyBudgetClient], on top of [HttpClient].  Jackson,
    [Instant.toString], the clock and random UUIDs are the interface
    [Platform]. *)

From Stdlib Require Import Ascii.
From S2P Require Import Prelude HttpClient TransactionEngine.

Local Open Scope string_scope.
Local Open Scope list_scope.
Local Open Scope Z_scope.

(** ** JSON classes *)

Record TransactionStatusResponse := mkStatusResponse {
  isExpired : bool;
  hasFailed : bool;
  status_currentPhase : TransactionPhase;
  lastExecutionTimestamp : string
}.

(** The properties of a status response that the text has. *)
Record StatusProperties := mkStatusProperties {
  is_expired : option bool;
  has_failures : option bool;
  transaction_execution_phase : option TransactionPhase;
  last_execution_timestamp : option string
}.

(** [TransactionStatusResponse.Builder]: what the text leaves out. *)
Definition build_status (p : StatusProperties) : TransactionStatusResponse :=
  mkStatusResponse (default false (is_expired p)) (default false (has_failures p))
    (default UNKNOWN (transaction_execution_phase p)) (default "" (last_execution_timestamp p)).

(** [BudgetExhaustedResponse], with its indices. *)
Record BudgetExhaustedResponse := mkExhausted { budgetExhaustedIndices : list Z; version : string }.

(** [BudgetExhaustedResponse.Builder]: both properties are required. *)
Definition build_exhausted (f : option (list Z)) (v : option string) : option BudgetExhaustedResponse :=
  f ← f; v ← v; Some (mkExhausted f v).

(** The body of a phase request. *)
Record BudgetEntry := mkEntry { entry_key : string; entry_token : Z; entry_reporting_time : string }.
Record TransactionData := mkData { data_v : string; data_t : list BudgetEntry }.

(** Jackson, java.time and java.util.UUID.  [None] is a [JsonProcessingException]; a text that is null
    is an [IllegalArgumentException]. *)
Class Platform := {
  writeValueAsString : TransactionData → option string;
  read_status : string → option StatusProperties;
  read_exhausted : string → option (option (list Z) * option string);
  Instant_toString : Z → string;
  String_toUpperCase : string → string
}.

Definition BEGIN_TRANSACTION_PATH := "/transactions:begin".
Definition PREPARE_TRANSACTION_PATH := "/transactions:prepare".
Definition COMMIT_TRANSACTION_PATH := "/transactions:commit".
Definition NOTIFY_TRANSACTION_PATH := "/transactions:notify".
Definition ABORT_TRANSACTION_PATH := "/transactions:abort".
Definition END_TRANSACTION_PATH := "/transactions:end".
Definition TRANSACTION_STATUS_PATH := "/transactions:status".
Definition TRANSACTION_ID_HEADER_KEY := "x-gscp-transaction-id".
Definition TRANSACTION_LAST_EXEC_TIMESTAMP_HEADER_KEY := "x-gscp-transaction-last-execution-timestamp".
Definition TRANSACTION_SECRET_HEADER_KEY := "x-gscp-transaction-secret".
Definition CLAIMED_IDENTITY_HEADER_KEY := "x-gscp-claimed-identity".

Definition HTTP_CODES_FOR_STATUS_CHECK_INVOCATION : list Z := [400; 412].

Definition getNextPhaseOnSuccess (p : TransactionPhase) : TransactionPhase :=
  match p with
  | NOTSTARTED => BEGIN
  | BEGIN => PREPARE
  | PREPARE => COMMIT
  | COMMIT => NOTIFY
  | NOTIFY | ABORT => END
  | _ => UNKNOWN
  end.

(** ** [PrivacyBudgetClientImpl] *)

Record PrivacyBudgetClientImpl := mkClient { baseUrl : string }.

Section client.
Context {W : Type} `{!HttpTransport W, !RetryLibrary, !UriSyntax, !Platform}.

(** The client mutates the transaction and the world. *)
Abbreviation Client A := (Java (Transaction * W) A).

Definition http {A} (m : Java W A) : Client A := λ '(t, w), match m w with (r, w) => (r, (t, w)) end.
Definition transaction : Client Transaction := λ '(t, w), (inr t, (t, w)).
Definition update (f : Transaction → Transaction) : Client () := λ '(t, w), (inr tt, (f t, w)).

Variable c : PrivacyBudgetClientImpl.

Definition updateTransactionState (response : HttpClientResponse) : Client () :=
  if response_statusCode response =? 200
  then update (setLastExecutionTimestamp (baseUrl c)
                 (response_headers response !! TRANSACTION_LAST_EXEC_TIMESTAMP_HEADER_KEY))
  else mret tt.

Definition generateTransactionStatus (response : HttpClientResponse) : Client TransactionStatusResponse :=
  if response_statusCode response =? 200
  then
    body ← or_throw IllegalArgumentException (responseBody response);
    p ← or_throw JsonProcessingException (read_status body);
    mret (build_status p)
  else throw IOException.

(** The headers that every request has. *)
Definition identity_headers (t : Transaction) : list (string * string) :=
  [(TRANSACTION_ID_HEADER_KEY, String_toUpperCase (transactionId (request t)));
   (TRANSACTION_SECRET_HEADER_KEY, transactionSecret (request t));
   (CLAIMED_IDENTITY_HEADER_KEY, attributionReportTo (request t))].

Definition fetchTransactionStatus : Client TransactionStatusResponse :=
  t ← transaction;
  response ← http (HttpClientWithInterceptor.executeGet (baseUrl c +:+ TRANSACTION_STATUS_PATH) (identity_headers t));
  generateTransactionStatus response.

(** [ImmutableMap.Builder.put] throws on null. *)
Definition getTransactionPhaseRequestHeaders : Client (list (string * string)) :=
  t ← transaction;
  if bool_decide (currentPhase t ≠ BEGIN) then
    lastExecTimestamp ← or_throw NullPointerException (getLastExecutionTimestamp t (baseUrl c));
    mret (identity_headers t ++ [(TRANSACTION_LAST_EXEC_TIMESTAMP_HEADER_KEY, lastExecTimestamp)])
  else mret (identity_headers t).

Definition generatePayload (t : Transaction) : Client string :=
  let budgets := map (λ budgetUnit, mkEntry (privacyBudgetKey budgetUnit) (privacyBudgetLimit (request t))
                                      (Instant_toString (reportingWindow budgetUnit)))
                   (privacyBudgetUnits (request t)) in
  or_throw JsonProcessingException (writeValueAsString (mkData "1.0" budgets)).

Definition processBudgetExhaustedResponse (response : HttpClientResponse) : Client () :=
  t ← transaction;
  body ← or_throw IllegalArgumentException (responseBody response);
  '(f, v) ← or_throw JsonProcessingException (read_exhausted body);
  budgetExhaustedResponse ← or_throw JsonProcessingException (build_exhausted f v);
  units ← or_throw IndexOutOfBoundsException
            (mapM (λ index, if index <? 0 then None else privacyBudgetUnits (request t) !! Z.to_nat index)
               (budgetExhaustedIndices budgetExhaustedResponse));
  update (setExhaustedPrivacyBudgetUnits units).

Definition getExecutionResultBasedOnTransactionStatus (actionHttpStatusCode : Z) : Client ExecutionResult :=
  if negb (bool_decide (actionHttpStatusCode ∈ HTTP_CODES_FOR_STATUS_CHECK_INVOCATION))
  then mret (create FAILURE SC_UNKNOWN)
  else
    fetched ← try_catch (r ← fetchTransactionStatus; mret (Some r)) (λ e, Some (mret None));
    match fetched with
    | None => mret (create FAILURE SC_UNKNOWN)
    | Some transactionStatusResponse =>
        if isExpired transactionStatusResponse then throw PBCException
        else
          _ ← update (setLastExecutionTimestamp (baseUrl c) (Some (lastExecutionTimestamp transactionStatusResponse)));
          if hasFailed transactionStatusResponse then mret (create RETRY SC_UNKNOWN)
          else
            t ← transaction;
            let serverPhase := status_currentPhase transactionStatusResponse in
            let clientPhase := currentPhase t in
            if bool_decide (serverPhase = getNextPhaseOnSuccess clientPhase) then mret (create SUCCESS SC_OK)
            else if bool_decide (serverPhase = clientPhase) then
              if actionHttpStatusCode =? 400 then mret (create FAILURE SC_UNKNOWN)
              else if actionHttpStatusCode =? 412 then mret (create RETRY SC_UNKNOWN)
              else mret (create FAILURE SC_UNKNOWN)
            else throw PBCException
    end.

Definition generateExecutionResult (response : HttpClientResponse) : Client ExecutionResult :=
  let statusCode := response_statusCode response in
  if statusCode =? 200 then mret (create SUCCESS SC_OK)
  else if bool_decide (statusCode ∈ HTTP_CODES_FOR_STATUS_CHECK_INVOCATION)
  then getExecutionResultBasedOnTransactionStatus statusCode
  else if statusCode =? 409 then
    _ ← try_catch (processBudgetExhaustedResponse response)
          (λ e, match e with JsonProcessingException => Some (throw PBCException) | _ => None end);
    mret (create FAILURE SC_UNKNOWN)
  else if statusCode =? 401 then mret (create FAILURE PRIVACY_BUDGET_CLIENT_UNAUTHENTICATED)
  else if statusCode =? 403 then mret (create FAILURE PRIVACY_BUDGET_CLIENT_UNAUTHORIZED)
  else if (statusCode <? 500) || (599 <? statusCode) then mret (create FAILURE SC_UNKNOWN)
  else mret (create RETRY SC_UNKNOWN).

Definition performTransactionPhaseAction (relativePath : string) : Client ExecutionResult :=
  try_catch
    (t ← transaction;
     payload ← generatePayload t;
     headers ← getTransactionPhaseRequestHeaders;
     response ← http (HttpClientWithInterceptor.executePost (baseUrl c +:+ relativePath) payload headers);
     _ ← updateTransactionState response;
     generateExecutionResult response)
    (λ e, match e with
          | JsonProcessingException => Some (mret (create RETRY MALFORMED_DATA))
          | IOException => Some (mret (create RETRY SC_UNKNOWN))
          | _ => None
          end).

Definition performActionBegin := performTransactionPhaseAction BEGIN_TRANSACTION_PATH.
Definition performActionPrepare := performTransactionPhaseAction PREPARE_TRANSACTION_PATH.
Definition performActionCommit := performTransactionPhaseAction COMMIT_TRANSACTION_PATH.
Definition performActionNotify := performTransactionPhaseAction NOTIFY_TRANSACTION_PATH.
Definition performActionEnd := performTransactionPhaseAction END_TRANSACTION_PATH.
Definition performActionAbort := performTransactionPhaseAction ABORT_TRANSACTION_PATH.
End client.

(** ** What the client changes *)

(** [m] relates the state it starts in and the one it leaves. *)
Definition respects {S A} (R : S → S → Prop) (m : Java S A) : Prop := ∀ s, R s (m s).2.

Section respects.
Context {S : Type} (R : S → S → Prop) `{!PreOrder R}.

Lemma respects_ret {A} (a : A) : respects R (mret a).
Proof. intros s. reflexivity. Qed.
Lemma respects_throw {A} e : respects R (throw (A := A) e).
Proof. intros s. reflexivity. Qed.
Lemma respects_or_throw {A} e (x : option A) : respects R (or_throw e x).
Proof. destruct x; intros s; reflexivity. Qed.
Lemma respects_bind {A B} (m : Java S A) (f : A → Java S B) :
  respects R m → (∀ a, respects R (f a)) → respects R (m ≫= f).
Proof.
  intros Hm Hf s. unfold mbind, java_bind. specialize (Hm s). destruct (m s) as [[e|a] s1]; [done|].
  transitivity s1; [done|apply Hf].
Qed.
Lemma respects_try {A} (m : Java S A) h :
  respects R m → (∀ e k, h e = Some k → respects R k) → respects R (try_catch m h).
Proof.
  intros Hm Hh s. unfold try_catch. specialize (Hm s). destruct (m s) as [[e|a] s1]; [|done].
  destruct (h e) as [k|] eqn:E; [|done]. transitivity s1; [done|by eapply Hh].
Qed.
End respects.

Create HintDb java.
#[export] Hint Resolve respects_ret respects_throw respects_or_throw : java.

(** Goes through the code, statement by statement. *)
Ltac respect :=
  repeat match goal with
  | |- respects _ (mbind _ _) => apply respects_bind; [apply _| |intros ?]
  | |- respects _ (try_catch _ _) => apply respects_try; [apply _| |intros ? ? ?]
  | |- respects _ (let _ := _ in _) => cbv zeta
  | |- respects _ (match ?x with _ => _ end) => destruct x
  | |- respects _ _ => solve [eauto with java typeclass_instances]
  | H : (match ?e with _ => _ end) = Some _ |- _ => destruct e; simplify_eq
  | H : Some _ = Some _ |- _ => simplify_eq
  end.

Lemma respects_http {W A} (R : Transaction * W → Transaction * W → Prop) (m : Java W A) :
  (∀ t w, R (t, w) (t, (m w).2)) → respects R (http m).
Proof. intros HR [t w]. specialize (HR t w). unfold http. by destruct (m w). Qed.

Section frame.
Context {W : Type} `{!HttpTransport W, !RetryLibrary, !UriSyntax, !Platform}.
Variables (c : PrivacyBudgetClientImpl) (path : string) (R : Transaction * W → Transaction * W → Prop).
Context `{!PreOrder R}.
Hypothesis R_update : ∀ f t w, control (f t) = control t → R (t, w) (f t, w).
Hypothesis R_get : ∀ hs, respects R (http (HttpClientWithInterceptor.executeGet (baseUrl c +:+ TRANSACTION_STATUS_PATH) hs)).
Hypothesis R_post : ∀ payload hs, respects R (http (HttpClientWithInterceptor.executePost (baseUrl c +:+ path) payload hs)).

Lemma respects_update f : (∀ t, control (f t) = control t) → respects R (update f).
Proof. intros Hf [t w]. by apply R_update. Qed.
Lemma respects_transaction : respects R transaction.
Proof. intros [t w]. cbn. reflexivity. Qed.

Lemma performTransactionPhaseAction_respects : respects R (performTransactionPhaseAction c path).
Proof.
  pose proof respects_transaction. pose proof respects_update as Hupd.
  unfold performTransactionPhaseAction, generateExecutionResult, getExecutionResultBasedOnTransactionStatus,
    processBudgetExhaustedResponse, updateTransactionState, fetchTransactionStatus, generateTransactionStatus,
    getTransactionPhaseRequestHeaders, generatePayload.
  respect; try (by apply Hupd).
Qed.
End frame.

(** ** The engine's client *)

Section instance.
Context {W : Type} `{!HttpTransport W, !RetryLibrary, !UriSyntax, !Platform}.

(** What the engine sees of what is thrown. *)
Definition thrown (e : Exn) : Throwable :=
  match e with PBCException => PrivacyBudgetClientException | _ => RuntimeException end.

(** The method of a phase; the engine calls the others never. *)
Definition action (p : TransactionPhase) (c : PrivacyBudgetClientImpl) : Java (Transaction * W) ExecutionResult :=
  match p with
  | BEGIN => performActionBegin c
  | PREPARE => performActionPrepare c
  | COMMIT => performActionCommit c
  | NOTIFY => performActionNotify c
  | ABORT => performActionAbort c
  | END => performActionEnd c
  | _ => throw OtherThrowable
  end.

Definition run_action (p : TransactionPhase) (c : PrivacyBudgetClientImpl) (t : Transaction) (w : W)
  : (Throwable + ExecutionResult) * Transaction * W :=
  match action p c (t, w) with
  | (inl e, (t, w)) => (inl (thrown e), t, w)
  | (inr r, (t, w)) => (inr r, t, w)
  end.

Lemma action_respects p c (R : Transaction * W → Transaction * W → Prop) `{!PreOrder R} :
  (∀ path, respects R (performTransactionPhaseAction c path)) → respects R (action p c).
Proof. intros HR. destruct p; try apply respects_throw; try apply _; apply HR. Qed.

Lemma run_action_control p c t w r t' w' : run_action p c t w = (r, t', w') → control t' = control t.
Proof.
  unfold run_action. intros E.
  pose (R := λ a b : Transaction * W, control b.1 = control a.1).
  assert (PreOrder R) by (split; [by intros ?|intros ? ? ? E1 E2; unfold R in *; congruence]).
  assert (respects R (action p c)) as HR.
  { apply action_respects; [done|]. intros path. apply performTransactionPhaseAction_respects; [done|done| |];
      intros; by apply respects_http. }
  specialize (HR (t, w)). destruct (action p c (t, w)) as [[e|a] [t1 w1]]; injection E as <- <- <-; done.
Qed.

#[global] Instance http_client : PrivacyBudgetClient PrivacyBudgetClientImpl W := {|
  getPrivacyBudgetServerIdentifier := baseUrl;
  performAction := run_action;
  performAction_control := run_action_control
|}.

(** ** [TransactionManagerImpl] and [DistributedPrivacyBudgetClientImpl] *)

Inductive ManagerException :=
  | TransactionManagerException (c : StatusCode)
  | UncheckedException.

(** The engine's result, with its exception wrapped; [None] never, since the engine ends. *)
Definition manager_execute (clients : list PrivacyBudgetClientImpl) (r : TransactionRequest) (w : W)
  : option ((ManagerException + list PrivacyBudgetUnit) * W) :=
  o ← execute clients r w;
  Some (match returned o with
        | inl (TransactionEngineException code) => inl (TransactionManagerException code)
        | inl _ => inl UncheckedException
        | inr units => inr units
        end, world o).

Record ConsumePrivacyBudgetRequest := mkConsume {
  consume_attributionReportTo : string;
  consume_privacyBudgetUnits : list PrivacyBudgetUnit;
  consume_privacyBudgetLimit : option Z
}.

Inductive ConsumeException :=
  | DistributedPrivacyBudgetClientException
  | DistributedPrivacyBudgetServiceException (c : StatusCode)
  | UncheckedConsumeException.

Definition PRIVACY_BUDGET_MAX_ITEM : Z := 30000.
Definition TRANSACTION_SECRET_LENGTH : nat := 10.
Definition TRANSACTION_TIMEOUT_MINUTES : Z := 5.

(** [String.replace], of the dashes. *)
Fixpoint remove_dashes (s : string) : string :=
  match s with
  | EmptyString => EmptyString
  | String a s => if Ascii.eqb a "-"%char then remove_dashes s else String a (remove_dashes s)
  end.

Definition generateSecret (random : string) : string :=
  String.substring 0 TRANSACTION_SECRET_LENGTH (remove_dashes random).

(** [now] in milliseconds; [id] and [random] are the two random UUIDs, as texts. *)
Definition buildTransactionRequest (now : Z) (id random : string) (r : ConsumePrivacyBudgetRequest) : TransactionRequest :=
  mkRequest id (consume_attributionReportTo r) (consume_privacyBudgetUnits r)
    (now + TRANSACTION_TIMEOUT_MINUTES * 60000) (generateSecret random)
    (default 1 (consume_privacyBudgetLimit r)).

Definition consumePrivacyBudget (clients : list PrivacyBudgetClientImpl) (now : Z) (id random : string)
    (r : ConsumePrivacyBudgetRequest) (w : W) : option ((ConsumeException + list PrivacyBudgetUnit) * W) :=
  if PRIVACY_BUDGET_MAX_ITEM <? zlen (consume_privacyBudgetUnits r)
  then Some (inl DistributedPrivacyBudgetClientException, w)
  else
    '(a, w) ← manager_execute clients (buildTransactionRequest now id random r) w;
    Some (match a with
          | inl (TransactionManagerException code) => inl (DistributedPrivacyBudgetServiceException code)
          | inl UncheckedException => inl UncheckedConsumeException
          | inr units => inr units
          end, w).
End instance.
