(* ===== verification/PrivacyBudgetHttpSpec.v ===== *)
(** * PrivacyBudgetHttpSpec: the two-phase commit on the wire

    The guarantees of [TransactionEngineSpec] for the HTTP clients of
    [PrivacyBudgetHttp], stated about the exchanges with the coordinators: what
    makes a client answer success, when a request to commit can be sent, and
    what the exchanges say when [consumePrivacyBudget] returns. *)

From Stdlib Require Import Ascii.
From S2P Require Import Prelude Decimal HttpClient TransactionEngine TransactionEngineSpec PrivacyBudgetHttp.

Local Open Scope string_scope.
Local Open Scope list_scope.
Local Open Scope Z_scope.

(** ** Inversion of code that returns *)

Lemma bind_returns {S A B} (m : Java S A) (f : A → Java S B) s b s' :
  (m ≫= f) s = (inr b, s') → ∃ a s1, m s = (inr a, s1) ∧ f a s1 = (inr b, s').
Proof. unfold mbind, java_bind. destruct (m s) as [[e|a] s1]; [done|]. intros E. by exists a, s1. Qed.

Lemma try_returns {S A} (m : Java S A) h s a s' :
  try_catch m h s = (inr a, s') →
  m s = (inr a, s') ∨ ∃ e s1 k, m s = (inl e, s1) ∧ h e = Some k ∧ k s1 = (inr a, s').
Proof.
  unfold try_catch. destruct (m s) as [[e|b] s1]; [|auto]. destruct (h e) as [k|] eqn:E; [|done].
  intros H. right. by exists e, s1, k.
Qed.

Lemma http_returns {W A} (m : Java W A) t w r t' w' :
  http m (t, w) = (r, (t', w')) → t' = t ∧ m w = (r, w').
Proof. unfold http. destruct (m w) as [r1 w1]. by intros [= -> <- ->]. Qed.

Lemma or_throw_returns {S A} e (x : option A) (s : S) a s' :
  or_throw e x s = (inr a, s') → x = Some a ∧ s' = s.
Proof. destruct x; cbn; [|done]. by intros [= -> ->]. Qed.

Lemma headers_returns {W} `{!Platform} c (s : Transaction * W) hs s' :
  getTransactionPhaseRequestHeaders c s = (inr hs, s') → s' = s.
Proof.
  destruct s as [t w]. unfold getTransactionPhaseRequestHeaders. intros (? & ? & [= <- <-] & E)%bind_returns.
  case_bool_decide; [|by injection E as _ <-]. by apply bind_returns in E as (? & ? & [_ ->]%or_throw_returns & [= _ <-]).
Qed.

(** ** Exchanges of a request *)

Section exchanges.
Context {S : Type} `{!HttpTransport S, !RetryLibrary, !UriSyntax}.
Import HttpClientWithInterceptor.

(** An exchange in which the server answered 200 with this body. *)
Definition answered_ok (body : option string) (x : Exchange) : Prop :=
  ∃ r, x.2 = inr r ∧ resp_code r = 200 ∧ resp_body r = body.

Definition to (m : Method) (uri : string) (x : Exchange) : Prop := req_method x.1 = m ∧ req_uri x.1 = uri.

(** The exchanges of a call: all for one request, and a result 200 comes from the server. *)
Definition exchanged (m : Method) (uri : string) (a : Exn + HttpClientResponse) (ext : list Exchange) : Prop :=
  Forall (to m uri) ext ∧
  (∀ r, a = inr r → response_statusCode r = 200 → ∃ x, x ∈ ext ∧ answered_ok (responseBody r) x).

Lemma final_answer_ok a r : final_answer a = inr r → resp_code r = 200 → a = inr r.
Proof.
  destruct a as [[| |code m| | | | | |]|]; try done. cbn. intros E H200. exfalso.
  repeat (case_match; try done); injection E as <-; done.
Qed.

Lemma request_exchanged m uri hs b s tr a s' tr' :
  (response ← executeRequest (mkHttpRequest m uri hs b); create_response response) (s, tr) = (a, (s', tr')) →
  ∃ ext, tr' = tr ++ ext ∧ exchanged m uri a ext.
Proof.
  unfold mbind, java_bind. destruct (executeRequest _ _) as [a1 [s1 tr1]] eqn:E.
  apply executeRequest_attempts in E as (calls & last & -> & -> & _ & Hcalls & _). intros E.
  exists (calls ++ [(mkHttpRequest m uri hs b, last)]).
  assert (tr' = tr ++ calls ++ [(mkHttpRequest m uri hs b, last)]) as ->.
  { destruct (final_answer last); [by injection E as _ _ <-|]. unfold create_response, mbind, java_bind, parseResponseHeaders in E.
    by destruct (headers_map _ _); injection E as _ _ <-. }
  split; [done|]. split.
  - apply Forall_app. split; [|by repeat constructor].
    eapply Forall_impl; [exact Hcalls|]. intros [rq an] [H1 _]. cbn in H1. by subst.
  - intros r -> H200. eexists. split; [apply elem_of_app; right; by left|].
    destruct (final_answer last) as [e|rsp] eqn:El; [done|].
    apply bind_returns in E as (h & s2 & _ & E). injection E as <- _.
    apply final_answer_ok in El as ->; [|done]. by exists rsp.
Qed.

Lemma executePost_exchanged uri payload hs s tr a s' tr' :
  executePost uri payload hs (s, tr) = (a, (s', tr')) → ∃ ext, tr' = tr ++ ext ∧ exchanged POST uri a ext.
Proof.
  unfold executePost, URI_create. destruct (uri_valid uri); [apply request_exchanged|].
  intros E. exists []. rewrite app_nil_r. by injection E as <- _ <-.
Qed.

Lemma executeGet_exchanged uri hs s tr a s' tr' :
  executeGet uri hs (s, tr) = (a, (s', tr')) → ∃ ext, tr' = tr ++ ext ∧ exchanged GET uri a ext.
Proof.
  unfold executeGet, URI_create. destruct (uri_valid uri); [apply request_exchanged|].
  intros E. exists []. rewrite app_nil_r. by injection E as <- _ <-.
Qed.
End exchanges.

(** ** The exchanges of a phase *)

Section phase.
Context {S : Type} `{!HttpTransport S, !RetryLibrary, !UriSyntax, !Platform}.
Implicit Types (c : PrivacyBudgetClientImpl) (t : Transaction) (tr ext : list Exchange).

(** The exchanges that an action at [path] can have. *)
Definition own c (path : string) (x : Exchange) : Prop :=
  to POST (baseUrl c +:+ path) x ∨ to GET (baseUrl c +:+ TRANSACTION_STATUS_PATH) x.

Definition grows c path (a b : Transaction * Traced S) : Prop :=
  control b.1 = control a.1 ∧ ∃ ext, b.2.2 = a.2.2 ++ ext ∧ Forall (own c path) ext.

#[global] Instance grows_preorder c path : PreOrder (grows c path).
Proof.
  split.
  - intros a. split; [done|]. exists []. by rewrite app_nil_r.
  - intros a b d [Hc1 (e1 & E1 & F1)] [Hc2 (e2 & E2 & F2)]. split; [congruence|]. exists (e1 ++ e2).
    rewrite E2, E1, app_assoc. split; [done|]. by apply Forall_app.
Qed.

Lemma action_grows c path : respects (grows c path) (performTransactionPhaseAction c path).
Proof.
  apply performTransactionPhaseAction_respects; [apply _| | |].
  - intros f t w Hf. split; [done|]. exists []. by rewrite app_nil_r.
  - intros hs. apply respects_http. intros t [s tr].
    destruct (HttpClientWithInterceptor.executeGet _ _ _) as [a [s1 tr1]] eqn:E.
    apply executeGet_exchanged in E as (ext & -> & Hall & _). split; [done|]. exists ext. split; [done|].
    eapply Forall_impl; [exact Hall|]. by right.
  - intros payload hs. apply respects_http. intros t [s tr].
    destruct (HttpClientWithInterceptor.executePost _ _ _ _) as [a [s1 tr1]] eqn:E.
    apply executePost_exchanged in E as (ext & -> & Hall & _). split; [done|]. exists ext. split; [done|].
    eapply Forall_impl; [exact Hall|]. by left.
Qed.

(** The coordinator says that it has done the phase: it answers 200 to the request, or its status is
    the next phase. *)
Definition says_done c (path : string) (p : TransactionPhase) (x : Exchange) : Prop :=
  (to POST (baseUrl c +:+ path) x ∧ ∃ b, answered_ok b x) ∨
  (to GET (baseUrl c +:+ TRANSACTION_STATUS_PATH) x ∧
   ∃ b ps, answered_ok (Some b) x ∧ read_status b = Some ps ∧ isExpired (build_status ps) = false ∧
     hasFailed (build_status ps) = false ∧ status_currentPhase (build_status ps) = getNextPhaseOnSuccess p).

Lemma fetch_returns c t s tr st t' s' tr' :
  fetchTransactionStatus c (t, (s, tr)) = (inr st, (t', (s', tr'))) →
  t' = t ∧ ∃ ext x b ps, tr' = tr ++ ext ∧ x ∈ ext ∧ to GET (baseUrl c +:+ TRANSACTION_STATUS_PATH) x ∧
    answered_ok (Some b) x ∧ read_status b = Some ps ∧ st = build_status ps.
Proof.
  unfold fetchTransactionStatus. intros (? & [? ?] & [= <- <- <-] & E)%bind_returns.
  apply bind_returns in E as (r & [t1 [s1 tr1]] & Eg & E). apply http_returns in Eg as [-> Eg].
  apply executeGet_exchanged in Eg as (ext & -> & Hto & Hok).
  unfold generateTransactionStatus in E. destruct (Z.eqb_spec (response_statusCode r) 200) as [H200|]; [|done].
  apply bind_returns in E as (b & ? & [Hb ->]%or_throw_returns & E).
  apply bind_returns in E as (ps & ? & [Hps ->]%or_throw_returns & E). injection E as <- <- <- <-.
  destruct (Hok r eq_refl H200) as (x & Hx & Hans). split; [done|]. exists ext, x, b, ps. rewrite <-Hb.
  split_and!; try done; by apply (proj1 (Forall_forall _ _) Hto).
Qed.

Lemma status_success c path code t s tr r t' s' tr' :
  getExecutionResultBasedOnTransactionStatus c code (t, (s, tr)) = (inr r, (t', (s', tr'))) →
  executionStatus r = SUCCESS →
  ∃ ext x, tr' = tr ++ ext ∧ x ∈ ext ∧ says_done c path (currentPhase t) x.
Proof.
  unfold getExecutionResultBasedOnTransactionStatus. case_match; [by intros [= <- <- <- <-]|].
  intros (fetched & [t1 [s1 tr1]] & Ef & E)%bind_returns Hr.
  apply try_returns in Ef as [Ef|(e & s2 & k & _ & [= <-] & [= <- ->])]; [|by injection E as <- _ _ _].
  apply bind_returns in Ef as (st & ? & Ef & [= <- ->]).
  apply fetch_returns in Ef as (-> & ext & x & b & ps & -> & Hx & Hto & Hans & Hps & ->).
  destruct (isExpired _) eqn:Eexp; [done|].
  apply bind_returns in E as (? & [t2 [s2 tr2]] & [= _ <- <- <-] & E).
  destruct (hasFailed _) eqn:Efail; [by injection E as <- _ _ _|].
  apply bind_returns in E as (t2 & ? & [= <- <-] & E). cbn [currentPhase] in E.
  case_bool_decide as Eph; [|case_bool_decide; [|done]; repeat case_match; by injection E as <- _ _ _].
  injection E as <- <- <- <-. exists ext, x. split_and!; [done|done|]. right. split; [done|]. by exists b, ps.
Qed.

Lemma action_success c path t s tr r t' s' tr' :
  performTransactionPhaseAction c path (t, (s, tr)) = (inr r, (t', (s', tr'))) → executionStatus r = SUCCESS →
  ∃ ext x, tr' = tr ++ ext ∧ x ∈ ext ∧ says_done c path (currentPhase t) x.
Proof.
  unfold performTransactionPhaseAction. intros [E|(e & ? & k & _ & Hk & E)]%try_returns Hr; last first.
  { destruct e; simplify_eq; by injection E as <- _. }
  apply bind_returns in E as (? & [? ?] & [= <- <- <-] & E).
  apply bind_returns in E as (payload & ? & [_ ->]%or_throw_returns & E).
  apply bind_returns in E as (hs & [t1 w1] & Eh & E). apply headers_returns in Eh as [= -> ->].
  apply bind_returns in E as (rsp & [t1 [s1 tr1]] & Ep & E). apply http_returns in Ep as [-> Ep].
  apply executePost_exchanged in Ep as (ext & -> & Hto & Hok).
  apply bind_returns in E as (u & [t2 [s2 tr2]] & Eu & E).
  unfold updateTransactionState in Eu. unfold generateExecutionResult in E.
  destruct (Z.eqb_spec (response_statusCode rsp) 200) as [H200|].
  - injection Eu as _ <- <- <-. injection E as <- <- <- <-. destruct (Hok rsp eq_refl H200) as (x & Hx & Hans).
    exists ext, x. split_and!; [done|done|]. left. split; [by apply (proj1 (Forall_forall _ _) Hto)|by eexists].
  - injection Eu as _ <- <- <-. case_bool_decide.
    + destruct (status_success _ path _ _ _ _ _ _ _ _ E Hr) as (ext2 & x & -> & Hx & Hs).
      exists (ext ++ ext2), x. split_and!; [by rewrite app_assoc|apply elem_of_app; by right|done].
    + case_match; [by apply bind_returns in E as (? & ? & _ & [= <- _])|].
      repeat case_match; by injection E as <- _.
Qed.
End phase.

(** ** The two-phase commit *)

Definition path_of (p : TransactionPhase) : string :=
  match p with
  | BEGIN => BEGIN_TRANSACTION_PATH
  | PREPARE => PREPARE_TRANSACTION_PATH
  | COMMIT => COMMIT_TRANSACTION_PATH
  | NOTIFY => NOTIFY_TRANSACTION_PATH
  | ABORT => ABORT_TRANSACTION_PATH
  | _ => END_TRANSACTION_PATH
  end.

(** Texts with different ends are different, whatever they start with. *)
Lemma append_suffix (n : nat) a b s t : a +:+ s = b +:+ t →
  (n ≤ length (String.list_ascii_of_string s))%nat → (n ≤ length (String.list_ascii_of_string t))%nat →
  take n (reverse (String.list_ascii_of_string s)) = take n (reverse (String.list_ascii_of_string t)).
Proof.
  intros E%(f_equal (λ x, take n (reverse (String.list_ascii_of_string x)))) Hs Ht. cbn beta in E.
  rewrite !list_ascii_app, !reverse_app, !take_app_le in E by (by rewrite length_reverse). done.
Qed.

Lemma path_of_commit a b p : distributed_phase p = true → a +:+ COMMIT_TRANSACTION_PATH = b +:+ path_of p → p = COMMIT.
Proof.
  intros Hp E. apply (append_suffix 3) in E; [|cbn; lia|destruct p; cbn; lia]. destruct p; try done.
Qed.

Section wire.
Context {S : Type} `{!HttpTransport S, !RetryLibrary, !UriSyntax, !Platform}.
Variable clients : list PrivacyBudgetClientImpl.
Abbreviation Log := (list (string * TransactionPhase * ExecutionResult)).

Abbreviation done_on c p := (says_done c (path_of p) p).

(** A request to commit, to one of the coordinators. *)
Definition commit_request (x : Exchange) : Prop :=
  ∃ c, c ∈ clients ∧ to POST (baseUrl c +:+ COMMIT_TRANSACTION_PATH) x.

Definition commits_prepared (tr : list Exchange) : Prop :=
  ∀ l1 x l2, tr = l1 ++ x :: l2 → commit_request x → ∀ c, c ∈ clients → ∃ y, y ∈ l1 ∧ done_on c PREPARE y.

Definition wire_ok (log : Log) (w : Traced S) : Prop :=
  (∀ id p r, (id, p, r) ∈ log → executionStatus r = SUCCESS → ∃ x, x ∈ w.2 ∧ done_on (mkClient id) p x) ∧
  commits_prepared w.2 ∧
  (∀ x, x ∈ w.2 → commit_request x → attempted log COMMIT).

Lemma own_commit c p x : distributed_phase p = true → own c (path_of p) x → commit_request x → p = COMMIT.
Proof.
  intros Hd [[Hm Hu]|[Hm Hu]] (c' & _ & Hm' & Hu'); [|congruence]. eapply path_of_commit; [done|]. by rewrite <-Hu', Hu.
Qed.

Lemma commits_prepared_app log s tr ext c p :
  wire_ok log (s, tr) → may_call clients log p → distributed_phase p = true → Forall (own c (path_of p)) ext →
  commits_prepared (tr ++ ext).
Proof.
  intros (Hdone & Hprep & _) Hmay Hd Hown l1 x l2 El Hx c' Hc'.
  apply app_eq_inv in El as [(k & Etr & Ek)|(k & -> & Eext)].
  - destruct k as [|y k].
    + rewrite app_nil_r in Etr. subst l1. cbn in Ek. subst ext. apply Forall_cons in Hown as [Hown _].
      pose proof (own_commit _ _ _ Hd Hown Hx) as ->. destruct (Hmay eq_refl c' Hc') as (r & Hr & Hs). by eapply Hdone.
    + injection Ek as <- _. by eapply Hprep.
  - assert (own c (path_of p) x) as Hox.
    { rewrite Forall_forall in Hown. apply Hown. rewrite Eext. apply elem_of_app. right. by left. }
    pose proof (own_commit _ _ _ Hd Hox Hx) as ->. destruct (Hmay eq_refl c' Hc') as (r & Hr & Hs).
    destruct (Hdone _ _ _ Hr Hs) as (y & Hy & Hyd). exists y. split; [apply elem_of_app; by left|by destruct c'].
Qed.

Lemma action_path p c : distributed_phase p = true → action (W := Traced S) p c = performTransactionPhaseAction c (path_of p).
Proof. by destruct p. Qed.

Lemma wire_step c t (w : Traced S) r t' w' log :
  c ∈ clients → wire_ok log w → may_call clients log (currentPhase t) → distributed_phase (currentPhase t) = true →
  performAction (currentPhase t) c t w = (r, t', w') →
  match r with
  | inl _ => commits_prepared w'.2
  | inr r => wire_ok (log ++ [(getPrivacyBudgetServerIdentifier c, currentPhase t, r)]) w'
  end.
Proof.
  destruct w as [s tr], w' as [s' tr']. intros Hc Hok Hmay Hd E.
  change (run_action (currentPhase t) c t (s, tr) = (r, t', (s', tr'))) in E. unfold run_action in E.
  rewrite action_path in E by done.
  pose proof (action_grows c (path_of (currentPhase t)) (t, (s, tr))) as [_ (ext & Etr & Hown)].
  destruct (performTransactionPhaseAction _ _ _) as [[e|a] [t1 [s1 tr1]]] eqn:Ea; cbn in Etr; injection E as <- <- <- <-; subst tr1.
  - by eapply commits_prepared_app.
  - pose proof (commits_prepared_app _ _ _ _ _ _ Hok Hmay Hd Hown) as Hcp. destruct Hok as (Hdone & _ & Hcom).
    split_and!; [|done|].
    + intros id p r [Hin|Hin]%elem_of_app Hs.
      * destruct (Hdone _ _ _ Hin Hs) as (x & Hx & Hxd). exists x. split; [apply elem_of_app; by left|done].
      * apply list_elem_of_singleton in Hin as [= -> -> ->].
        destruct (action_success _ _ _ _ _ _ _ _ _ Ea Hs) as (ext' & x & Eq & Hx & Hxd).
        apply app_inv_head in Eq as ->. exists x. split; [apply elem_of_app; by right|by destruct c].
    + intros x [Hx|Hx]%elem_of_app Hxc.
      * destruct (Hcom x Hx Hxc) as (id & r & Hr). exists id, r. apply elem_of_app. by left.
      * rewrite Forall_forall in Hown. rewrite (own_commit _ _ _ Hd (Hown x Hx) Hxc).
        eexists _, _. apply elem_of_app. right. by left.
Qed.

Lemma execute_wire r s o : execute clients r (s, []) = Some o →
  commits_prepared (world o).2 ∧ (∀ us, returned o = inr us → wire_ok (answers o) (world o)).
Proof.
  apply (execute_world clients wire_ok (λ _ w, commits_prepared w.2)); [by intros log w (_ & ? & _)|apply wire_step|].
  split_and!; [by intros ? ? ? ?%elem_of_nil|by intros []|by intros ? ?%elem_of_nil].
Qed.

Lemma consume_runs now id random r (w : Traced S) a w' :
  consumePrivacyBudget clients now id random r w = Some (a, w') →
  (30000 < zlen (consume_privacyBudgetUnits r) ∧ a = inl DistributedPrivacyBudgetClientException ∧ w' = w) ∨
  ∃ o, execute clients (buildTransactionRequest now id random r) w = Some o ∧ world o = w' ∧
    (∀ us, a = inr us ↔ returned o = inr us).
Proof.
  unfold consumePrivacyBudget, manager_execute. destruct (Z.ltb_spec PRIVACY_BUDGET_MAX_ITEM (zlen (consume_privacyBudgetUnits r))) as [Hl|Hl].
  { intros [= <- <-]. by left. }
  intros E. right. destruct (execute clients _ w) as [o|]; [|done]. cbn in E. injection E as <- <-.
  exists o. split_and!; [done|done|]. intros us. destruct (returned o) as [[]|]; split; intros E; by simplify_eq.
Qed.

(** [consumePrivacyBudget] always ends, with a result or an exception; a request with too many
    units is refused before anything is sent. *)
Theorem consume_terminates now id random r (w : Traced S) :
  ∃ a w', consumePrivacyBudget clients now id random r w = Some (a, w') ∧
    (30000 < zlen (consume_privacyBudgetUnits r) → a = inl DistributedPrivacyBudgetClientException ∧ w' = w).
Proof.
  unfold consumePrivacyBudget, manager_execute, PRIVACY_BUDGET_MAX_ITEM. destruct (Z.ltb_spec 30000 (zlen (consume_privacyBudgetUnits r))).
  - by eexists _, _.
  - destruct (execute_ok clients (buildTransactionRequest now id random r) w) as (o & -> & _). cbn. eexists _, _.
    split; [done|lia].
Qed.

(** C3: Two-phase commit on the wire.  Every request to commit is sent after every coordinator has
    said that it is prepared, either by answering the request to prepare with 200 or by reporting the next
    phase as its status; also when the run ends in an exception. *)
Theorem commit_requests_follow_prepares now id random r s a s' tr l1 x l2 :
  consumePrivacyBudget clients now id random r (s, []) = Some (a, (s', tr)) →
  tr = l1 ++ x :: l2 → commit_request x → ∀ c, c ∈ clients → ∃ y, y ∈ l1 ∧ done_on c PREPARE y.
Proof.
  intros [(_ & _ & [= -> ->])|(o & Ho & Hw & _)]%consume_runs.
  - by destruct l1.
  - destruct (execute_wire _ _ _ Ho) as [Hc _]. rewrite Hw in Hc. apply Hc.
Qed.

(** What a result of [consumePrivacyBudget] says about the coordinators: all of them have said that
    they committed, or none of them was asked to, or the engine has given the transaction up. *)
Theorem consume_result_settled now id random r s us s' tr :
  consumePrivacyBudget clients now id random r (s, []) = Some (inr us, (s', tr)) →
  (∀ c, c ∈ clients → ∃ y, y ∈ tr ∧ done_on c COMMIT y) ∨ (∀ y, y ∈ tr → ¬ commit_request y) ∨
  (∃ o, execute clients (buildTransactionRequest now id random r) (s, []) = Some o ∧ gave_up (final o) (answers o)).
Proof.
  intros [(_ & [=] & _)|(o & Ho & Hw & Hret)]%consume_runs.
  destruct (execute_wire _ _ _ Ho) as [_ Hok]. destruct (execute_ok clients (buildTransactionRequest now id random r) (s, [])) as (o' & Ho' & [_ Hset]).
  simplify_eq. destruct (Hok us ltac:(by apply Hret)) as (Hdone & _ & Hcom). rewrite Hw in Hdone, Hcom.
  destruct (Hset us ltac:(by apply Hret)) as [_ [Hall|[[_ Hno]|Hg]]].
  - left. intros c Hc. destruct (Hall c Hc) as (a & Ha & Hs). destruct (Hdone _ _ _ Ha Hs) as (y & Hy & Hyd).
    exists y. split; [done|by destruct c].
  - right. left. intros y Hy Hyc. by apply Hno, (Hcom y).
  - right. right. by exists o.
Qed.
End wire.
