(* ===== verification/PrivacyBudgetRuns.v ===== *)
(** * PrivacyBudgetRuns: transactions against scripted coordinators

    The privacy budget client run on coordinators that answer by a script: the
    runs show that the theorems of [TransactionEngineSpec] and
    [PrivacyBudgetHttpSpec] apply, and three behaviours that the callers of
    [consumePrivacyBudget] would not expect. *)

From S2P Require Import Prelude HttpClient TransactionEngine TransactionEngineSpec PrivacyBudgetHttp PrivacyBudgetHttpSpec.

Local Open Scope string_scope.
Local Open Scope list_scope.
Local Open Scope Z_scope.

(** ** Scripted coordinators *)

(** The answers to come, in order. *)
Definition Script : Type := list (Exn + SimpleHttpResponse).

#[local] Instance scripted : HttpTransport Script := λ _ s,
  match s with
  | [] => (inl OtherThrowable, [])
  | a :: s => (a, s)
  end.

#[local] Instance any_uri : UriSyntax := λ _, true.

(** A JSON library that knows one status text. *)
#[local] Instance plain : Platform := {|
  writeValueAsString _ := Some "{}";
  read_status b :=
    if bool_decide (b = "commit") then Some (mkStatusProperties None None (Some COMMIT) (Some "7")) else None;
  read_exhausted b := if bool_decide (b = "first") then Some (Some [0], Some "1.0") else None;
  Instant_toString _ := "1970-01-01T00:00:00Z";
  String_toUpperCase s := s
|}.

Definition ok : Exn + SimpleHttpResponse :=
  inr (mkHttpResponse 200 None [(TRANSACTION_LAST_EXEC_TIMESTAMP_HEADER_KEY, "1")]).
Definition status (code : Z) : Exn + SimpleHttpResponse := inr (mkHttpResponse code None []).
Definition with_body (code : Z) (b : string) : Exn + SimpleHttpResponse := inr (mkHttpResponse code (Some b) []).

Definition coordinators : list PrivacyBudgetClientImpl := [mkClient "https://a"; mkClient "https://b"].
Definition sample : ConsumePrivacyBudgetRequest := mkConsume "https://adtech" [mkUnit "key" 0] None.
Definition sample_request : TransactionRequest :=
  buildTransactionRequest 0 "id" "9f86d081-884c-4d63-a1b2-0242ac120002" sample.

Definition consume (script : Script) : option ((ConsumeException + list PrivacyBudgetUnit) * Traced Script) :=
  consumePrivacyBudget coordinators 0 "id" "9f86d081-884c-4d63-a1b2-0242ac120002" sample (script, []).

(** Whether a request to commit was sent. *)
Definition is_commit (x : Exchange) : bool :=
  bool_decide (req_method x.1 = POST) &&
  existsb (λ c, bool_decide (req_uri x.1 = baseUrl c +:+ COMMIT_TRANSACTION_PATH)) coordinators.

(** ** Runs that callers would not expect *)

(** A coordinator refuses PREPARE with 403; the engine goes on to END, and [consumePrivacyBudget]
    returns with no exhausted unit, as it does when the budget has been consumed, although no coordinator
    was asked to commit. *)
Theorem refused_prepare_returns_as_success :
  ∃ w, consume [ok; ok; status 403; ok; ok; ok] = Some (inr [], w) ∧ existsb is_commit w.2 = false.
Proof. eexists. split; vm_compute; reflexivity. Qed.

(** A coordinator refuses COMMIT and the transaction is aborted; then END fails until its retries
    are used up.  [consumePrivacyBudget] returns with no exhausted unit instead of throwing. *)
Theorem aborted_transaction_returns_as_success :
  ∃ o, execute coordinators sample_request
         ([ok; ok; ok; ok; ok; status 403; ok; ok] ++ repeat (status 501) 10, []) = Some o ∧
    returned o = inr [] ∧ transactionFailed (final o) = true ∧ existsb is_commit (world o).2 = true.
Proof. eexists. split; [vm_compute; reflexivity|]. vm_compute. auto. Qed.

(** A coordinator answers BEGIN with 200 but without the time stamp header; the next phase throws
    an unchecked exception instead of retrying or failing with a status. *)
Theorem missing_timestamp_is_unchecked :
  ∃ w, consume [status 200; ok] = Some (inl UncheckedConsumeException, w).
Proof. eexists. vm_compute. reflexivity. Qed.

(** ** The theorems apply *)

Definition good_script : Script := [ok; ok; ok; status 412; with_body 200 "commit"; ok; ok; ok; ok; ok; ok].
Definition blank_outcome : Outcome (W := Traced Script) :=
  mkOutcome (inr []) (newTransaction sample_request) ([], []) [].
Definition outcome_of (script : Script) : Outcome (W := Traced Script) :=
  default blank_outcome (execute coordinators sample_request (script, [])).

Lemma good_run : execute coordinators sample_request (good_script, []) = Some (outcome_of good_script).
Proof. vm_compute. reflexivity. Qed.

Lemma commit_only_after_all_prepared_witness :
  succeeded (W := Traced Script) (take 4 (answers (outcome_of good_script))) (mkClient "https://b") PREPARE.
Proof.
  eapply (commit_only_after_all_prepared coordinators sample_request (good_script, [])
    (outcome_of good_script) (take 4 (answers (outcome_of good_script))) "https://a" (create SUCCESS SC_OK)
    (drop 5 (answers (outcome_of good_script)))); [exact good_run|vm_compute; reflexivity|].
  right. left.
Defined.

Lemma notify_excludes_abort_witness :
  attempted (answers (outcome_of good_script)) NOTIFY ∧
  ¬ (attempted (answers (outcome_of good_script)) NOTIFY ∧ attempted (answers (outcome_of good_script)) ABORT).
Proof.
  split; [|exact (notify_excludes_abort coordinators sample_request (good_script, []) _ good_run)].
  eexists "https://a", _. vm_compute. do 6 right. left.
Defined.

Lemma execute_returns_settled_witness :
  [] = exhaustedPrivacyBudgetUnits (final (outcome_of good_script)) ∧
  settled (W := Traced Script) coordinators (final (outcome_of good_script)) (answers (outcome_of good_script)).
Proof.
  apply (execute_returns_settled coordinators sample_request (good_script, []) _ [] good_run).
  vm_compute. reflexivity.
Defined.

Definition good_wire : Traced Script := world (outcome_of good_script).

Lemma good_consume : consume good_script = Some (inr [], good_wire).
Proof. vm_compute. reflexivity. Qed.

Lemma commit_requests_follow_prepares_witness :
  ∃ y, y ∈ take 5 good_wire.2 ∧ says_done (mkClient "https://b") (path_of PREPARE) PREPARE y.
Proof.
  destruct (drop 5 good_wire.2) as [|x l2] eqn:E; [vm_compute in E; discriminate|].
  apply (commit_requests_follow_prepares coordinators 0 "id" "9f86d081-884c-4d63-a1b2-0242ac120002" sample
    good_script (inr []) good_wire.1 good_wire.2 (take 5 good_wire.2) x l2).
  - etransitivity; [exact good_consume|]. by destruct good_wire.
  - by rewrite <-E, take_drop.
  - vm_compute in E. injection E as <- _. exists (mkClient "https://a"). split; [left|]. split; reflexivity.
  - right. left.
Defined.

Lemma consume_result_settled_witness :
  (∀ c, c ∈ coordinators → ∃ y, y ∈ good_wire.2 ∧ says_done c (path_of COMMIT) COMMIT y) ∨
  (∀ y, y ∈ good_wire.2 → ¬ commit_request coordinators y) ∨
  (∃ o, execute coordinators sample_request (good_script, []) = Some o ∧ gave_up (final o) (answers o)).
Proof.
  apply (consume_result_settled coordinators 0 "id" "9f86d081-884c-4d63-a1b2-0242ac120002" sample
    good_script [] good_wire.1 good_wire.2).
  etransitivity; [exact good_consume|]. by destruct good_wire.
Defined.
