(* ===== verification/KeyFetcher.v ===== *)
(** * KeyFetcher: fetching encrypted private keys

    Models, in [cc/cpio/client_providers], [private_key_fetcher_provider/src]:
    [private_key_fetcher_provider_utils.cc], [private_key_fetcher_provider.cc]
    and the two ways to sign a request, [gcp/gcp_private_key_fetcher_provider.cc]
    and [aws/aws_private_key_fetcher_provider.cc]; with the structs of
    [interface/private_key_fetcher_provider_interface.h].

    nlohmann's JSON library is the class [JsonLib]; the auth token and role
    credentials providers, the AWS signer and the HTTP client are calls of
    [AsyncProg] or arguments. *)

From Stdlib Require Import Ascii.
From stdpp Require Import pretty.
From S2P Require Import Prelude ExecResult Utils AsyncProg.

Local Open Scope string_scope.
Local Open Scope list_scope.
Local Open Scope Z_scope.

(** ** Error codes *)

Abbreviation SC_PRIVATE_KEY_FETCHER_PROVIDER := 0x0222%Z (only parsing).
Abbreviation SC_PRIVATE_KEY_FETCHER_PROVIDER_HTTP_CLIENT_NOT_FOUND := (MakeErrorCode SC_PRIVATE_KEY_FETCHER_PROVIDER 0x0001).
Abbreviation SC_PRIVATE_KEY_FETCHER_PROVIDER_PUBLIC_KEYSET_HANDLE_NOT_FOUND := (MakeErrorCode SC_PRIVATE_KEY_FETCHER_PROVIDER 0x0002).
Abbreviation SC_PRIVATE_KEY_FETCHER_PROVIDER_RESOURCE_NAME_NOT_FOUND := (MakeErrorCode SC_PRIVATE_KEY_FETCHER_PROVIDER 0x0003).
Abbreviation SC_PRIVATE_KEY_FETCHER_PROVIDER_ENCRYPTION_KEY_TYPE_NOT_FOUND := (MakeErrorCode SC_PRIVATE_KEY_FETCHER_PROVIDER 0x0004).
Abbreviation SC_PRIVATE_KEY_FETCHER_PROVIDER_EXPIRATION_TIME_NOT_FOUND := (MakeErrorCode SC_PRIVATE_KEY_FETCHER_PROVIDER 0x0005).
Abbreviation SC_PRIVATE_KEY_FETCHER_PROVIDER_KEY_DATA_NOT_FOUND := (MakeErrorCode SC_PRIVATE_KEY_FETCHER_PROVIDER 0x0006).
Abbreviation SC_PRIVATE_KEY_FETCHER_PROVIDER_JSON_TAG_NOT_FOUND := (MakeErrorCode SC_PRIVATE_KEY_FETCHER_PROVIDER 0x0007).
Abbreviation SC_PRIVATE_KEY_FETCHER_PROVIDER_INVALID_ENCRYPTION_KEY_TYPE := (MakeErrorCode SC_PRIVATE_KEY_FETCHER_PROVIDER 0x0008).
Abbreviation SC_PRIVATE_KEY_FETCHER_PROVIDER_KEY_MATERIAL_NOT_FOUND := (MakeErrorCode SC_PRIVATE_KEY_FETCHER_PROVIDER 0x0009).
Abbreviation SC_PRIVATE_KEY_FETCHER_PROVIDER_PUBLIC_KEY_MATERIAL_NOT_FOUND := (MakeErrorCode SC_PRIVATE_KEY_FETCHER_PROVIDER 0x000A).
Abbreviation SC_PRIVATE_KEY_FETCHER_PROVIDER_CREATION_TIME_NOT_FOUND := (MakeErrorCode SC_PRIVATE_KEY_FETCHER_PROVIDER 0x000B).
Abbreviation SC_PRIVATE_KEY_CLIENT_PROVIDER_INVALID_RESOURCE_NAME := (MakeErrorCode SC_PRIVATE_KEY_FETCHER_PROVIDER 0x000C).

(** ** Requests and keys *)

Record PrivateKeyVendingEndpoint := mkEndpoint {
  account_identity : string;
  service_region : string;
  private_key_vending_service_endpoint : string;
  gcp_private_key_vending_service_cloudfunction_url : string;
  gcp_wip_provider : string
}.

(** [request_key_id] is a pointer. *)
Record PrivateKeyFetchingRequest := mkFetchingRequest {
  key_vending_endpoint : PrivateKeyVendingEndpoint;
  request_key_id : option string;
  max_age_seconds : Z
}.

Inductive EncryptionKeyType :=
  | kUnknownEncryptionKeyType
  | kSinglePartyHybridKey
  | kMultiPartyHybridEvenKeysplit.

#[global] Instance EncryptionKeyType_eq_dec : EqDecision EncryptionKeyType.
Proof. solve_decision. Defined.

(** The members of both structs are pointers. *)
Record KeyData := mkKeyData {
  public_key_signature : option string;
  key_encryption_key_uri : option string;
  key_material : option string
}.

Record EncryptionKey := mkEncryptionKey {
  key_id : option string;
  resource_name : option string;
  encryption_key_type : EncryptionKeyType;
  public_keyset_handle : option string;
  public_key_material : option string;
  expiration_time_in_ms : Z;
  creation_time_in_ms : Z;
  key_data : list KeyData
}.

(** ** JSON *)

(** nlohmann's library.  [json_find] is [find], with [None] for [end()]; [json_at] is [operator[]]
    with an index, [json_get] the conversion to a string and [json_parse] the parser, with [None] for
    an exception.  The laws are about values made of objects, arrays and strings. *)
Class JsonLib := {
  json : Type;
  json_parse : string → option json;
  json_find : json → string → option json;
  json_size : json → nat;
  json_at : json → nat → option json;
  json_get : json → option string;
  json_equals : json → string → bool;
  json_object : list (string * json) → json;
  json_array : list json → json;
  json_string : string → json;
  json_find_object ms k : NoDup ms.*1 → json_find (json_object ms) k = list_to_map (M := gmap string json) ms !! k;
  json_size_array vs : json_size (json_array vs) = length vs;
  json_at_array vs i : (i < length vs)%nat → json_at (json_array vs) i = vs !! i;
  json_get_string s : json_get (json_string s) = Some s;
  json_equals_string s s' : json_equals (json_string s) s' = bool_decide (s = s')
}.

(** ** [std::stol] *)

Definition is_space (a : ascii) : bool := bool_decide (a = " "%char) || ((9 <=? nat_of_ascii a) && (nat_of_ascii a <=? 13))%nat.

Fixpoint skip_spaces (s : string) : string :=
  match s with
  | String a s' => if is_space a then skip_spaces s' else s
  | EmptyString => EmptyString
  end.

Definition digit (a : ascii) : option Z :=
  let n := Z.of_nat (nat_of_ascii a) in if (48 <=? n) && (n <=? 57) then Some (n - 48) else None.

(** The digits at the front: the value so far, or [None] when there was no digit. *)
Fixpoint read_digits (acc : option Z) (s : string) : option Z :=
  match s with
  | EmptyString => acc
  | String a s => match digit a with Some d => read_digits (Some (default 0 acc * 10 + d)) s | None => acc end
  end.

(** [None] is one of its exceptions. *)
Definition stol (s : string) : option Z :=
  let s := skip_spaces s in
  v ← match s with
      | String "-" s => Z.opp <$> read_digits None s
      | String "+" s => read_digits None s
      | _ => read_digits None s
      end;
  if (- 2 ^ 63 <=? v) && (v <? 2 ^ 63) then Some v else None.

(** ** [PrivateKeyFetchingClientUtils] *)

Abbreviation kEncryptionKeyPrefix := "encryptionKeys/"%string (only parsing).
Abbreviation kEncryptionKeysLabel := "keys"%string (only parsing).
Abbreviation kResourceNameLabel := "name"%string (only parsing).
Abbreviation kEncryptionKeyType := "encryptionKeyType"%string (only parsing).
Abbreviation kMultiPartyEnum := "MULTI_PARTY_HYBRID_EVEN_KEYSPLIT"%string (only parsing).
Abbreviation kSinglePartyEnum := "SINGLE_PARTY_HYBRID_KEY"%string (only parsing).
Abbreviation kPublicKeysetHandle := "publicKeysetHandle"%string (only parsing).
Abbreviation kPublicKeyMaterial := "publicKeyMaterial"%string (only parsing).
Abbreviation kExpirationTime := "expirationTime"%string (only parsing).
Abbreviation kCreationTime := "creationTime"%string (only parsing).
Abbreviation kKeyData := "keyData"%string (only parsing).
Abbreviation kPublicKeySignature := "publicKeySignature"%string (only parsing).
Abbreviation kKeyEncryptionKeyUri := "keyEncryptionKeyUri"%string (only parsing).
Abbreviation kKeyMaterial := "keyMaterial"%string (only parsing).
Abbreviation kListKeysByTimeUri := ":recent"%string (only parsing).
Abbreviation kMaxAgeSecondsQueryParameter := "maxAgeSeconds="%string (only parsing).

Definition ExtractKeyId (resource_name : string) : ExecutionResultOr string :=
  match String.index 0 kEncryptionKeyPrefix resource_name with
  | Some 0%nat => HasValue (String.substring (String.length kEncryptionKeyPrefix)
                              (String.length resource_name - String.length kEncryptionKeyPrefix) resource_name)
  | _ => HasResult (FailureExecutionResult SC_PRIVATE_KEY_CLIENT_PROVIDER_INVALID_RESOURCE_NAME)
  end.

(** [if (!result.Successful()) return FailureExecutionResult(code);] *)
Definition or_fail {A} (code : Z) (x : Fallible A) : Fallible A :=
  match x with Some (HasResult _) => fail_with code | x => x end.

Section utils.
Context `{!JsonLib}.

Definition ParseJsonValue (json_response : json) (json_tag : string) : Fallible string :=
  match json_find json_response json_tag with
  | None => fail_with SC_PRIVATE_KEY_FETCHER_PROVIDER_JSON_TAG_NOT_FOUND
  | Some v => or_throw (json_get v)
  end.

Definition ParseEncryptionKeyType (json_response : json) (type_tag : string) : ExecutionResultOr EncryptionKeyType :=
  match json_find json_response type_tag with
  | None => HasResult (FailureExecutionResult SC_PRIVATE_KEY_FETCHER_PROVIDER_ENCRYPTION_KEY_TYPE_NOT_FOUND)
  | Some v =>
      if json_equals v kMultiPartyEnum then HasValue kMultiPartyHybridEvenKeysplit
      else if json_equals v kSinglePartyEnum then HasValue kSinglePartyHybridKey
      else HasResult (FailureExecutionResult SC_PRIVATE_KEY_FETCHER_PROVIDER_INVALID_ENCRYPTION_KEY_TYPE)
  end.

(** The body of the loop of [ParseKeyData]: a chunk, and whether it has material and a key's URI. *)
Definition parse_chunk (json_chunk : json) : Fallible (KeyData * bool) :=
  kek_uri ← ParseJsonValue json_chunk kKeyEncryptionKeyUri;
  key_material ← ParseJsonValue json_chunk kKeyMaterial;
  public_key_signature ← ParseJsonValue json_chunk kPublicKeySignature;
  mret (mkKeyData (Some public_key_signature) (Some kek_uri) (Some key_material),
        negb (bool_decide (key_material = "")) && negb (bool_decide (kek_uri = ""))).

Fixpoint parse_chunks (v : json) (i n : nat) (found : bool) (acc : list KeyData) : Fallible (list KeyData * bool) :=
  match n with
  | O => mret (acc, found)
  | S n =>
      json_chunk ← or_throw (json_at v i);
      '(d, f) ← parse_chunk json_chunk;
      parse_chunks v (S i) n (found || f) (acc ++ [d])
  end.

Definition ParseKeyData (json_response : json) (key_data_tag : string) : Fallible (list KeyData) :=
  match json_find json_response key_data_tag with
  | None => fail_with SC_PRIVATE_KEY_FETCHER_PROVIDER_KEY_DATA_NOT_FOUND
  | Some v =>
      '(key_data_list, found_key_material) ← parse_chunks v 0 (json_size v) false [];
      if found_key_material : bool then mret key_data_list
      else fail_with SC_PRIVATE_KEY_FETCHER_PROVIDER_KEY_MATERIAL_NOT_FOUND
  end.

(** The key that is appended to the response. *)
Definition ParseEncryptionKey (json_key : json) : Fallible EncryptionKey :=
  name ← or_fail SC_PRIVATE_KEY_FETCHER_PROVIDER_RESOURCE_NAME_NOT_FOUND (ParseJsonValue json_key kResourceNameLabel);
  handle ← or_fail SC_PRIVATE_KEY_FETCHER_PROVIDER_PUBLIC_KEYSET_HANDLE_NOT_FOUND
             (ParseJsonValue json_key kPublicKeysetHandle);
  public_key_material ← or_fail SC_PRIVATE_KEY_FETCHER_PROVIDER_PUBLIC_KEY_MATERIAL_NOT_FOUND
                          (ParseJsonValue json_key kPublicKeyMaterial);
  type ← ASSIGN_OR_RETURN (ParseEncryptionKeyType json_key kEncryptionKeyType);
  expiration_time ← or_fail SC_PRIVATE_KEY_FETCHER_PROVIDER_EXPIRATION_TIME_NOT_FOUND
                      (ParseJsonValue json_key kExpirationTime);
  expiration ← or_throw (stol expiration_time);
  creation_time ← or_fail SC_PRIVATE_KEY_FETCHER_PROVIDER_CREATION_TIME_NOT_FOUND
                    (ParseJsonValue json_key kCreationTime);
  creation ← or_throw (stol creation_time);
  key_data ← ParseKeyData json_key kKeyData;
  key_id ← ASSIGN_OR_RETURN (ExtractKeyId name);
  mret (mkEncryptionKey (Some key_id) (Some name) type (Some handle) (Some public_key_material)
          (u64 expiration) (u64 creation) key_data).

Fixpoint parse_keys (v : json) (i n : nat) (response : list EncryptionKey) : Fallible (list EncryptionKey) :=
  match n with
  | O => mret response
  | S n =>
      one_key_json ← or_throw (json_at v i);
      key ← ParseEncryptionKey one_key_json;
      parse_keys v (S i) n (response ++ [key])
  end.

(** From an empty response. *)
Definition ParsePrivateKey (body : string) : Fallible (list EncryptionKey) :=
  json_response ← or_throw (json_parse body);
  match json_find json_response kEncryptionKeysLabel with
  | None => key ← ParseEncryptionKey json_response; mret [key]
  | Some json_keys => parse_keys json_keys 0 (json_size json_keys) []
  end.
End utils.

Record HttpRequest := mkHttpRequest {
  path : string;
  query : option string;
  headers : option (list (string * string))
}.

(** The method is always GET. *)
Definition CreateHttpRequest (request : PrivateKeyFetchingRequest) : HttpRequest :=
  let base_uri := private_key_vending_service_endpoint (key_vending_endpoint request) in
  match request_key_id request with
  | Some key_uri =>
      if negb (bool_decide (key_uri = "")) then mkHttpRequest (base_uri +:+ "/" +:+ key_uri) None None
      else mkHttpRequest (base_uri +:+ kListKeysByTimeUri)
             (Some (kMaxAgeSecondsQueryParameter +:+ pretty (max_age_seconds request))) None
  | None =>
      mkHttpRequest (base_uri +:+ kListKeysByTimeUri)
        (Some (kMaxAgeSecondsQueryParameter +:+ pretty (max_age_seconds request))) None
  end.

(** ** The providers *)

Record Credentials := mkCredentials { access_key_id : string; access_key_secret : string; security_token : string }.

Inductive FetchCall :=
  | GetSessionTokenForTargetAudience (token_target_audience_uri : string)
  | GetRoleCredentials (account_identity : string)
  | PerformRequest (request : HttpRequest).

(** The session token, the credentials, and the body of the response. *)
Definition FetchAnswer (c : FetchCall) : Type :=
  match c with
  | GetSessionTokenForTargetAudience _ => string
  | GetRoleCredentials _ => Credentials
  | PerformRequest _ => string
  end.

Abbreviation FetchProg := (Prog (Call := FetchCall) FetchAnswer (list EncryptionKey) ()).

Section fetcher.
Context `{!JsonLib}.

Definition PrivateKeyFetchingCallback (result : ExecutionResult) (body : option string) : FetchProg :=
  if negb (Successful result) then Finish result None
  else match body with
       | None => Crash
       | Some body =>
           match ParsePrivateKey body with
           | None => Crash
           | Some (HasResult r) => Finish r None
           | Some (HasValue keys) => Finish result (Some keys)
           end
       end.

Definition SignHttpRequestCallback (result : ExecutionResult) (signed : option HttpRequest) : FetchProg :=
  if negb (Successful result) then Finish result None
  else match signed with
       | None => Crash
       | Some request => Invoke (PerformRequest request) false (λ _ r body, PrivateKeyFetchingCallback r body)
       end.

(** [SignHttpRequest] of a cloud, with the callback of the sign context. *)
Definition Signer : Type := PrivateKeyFetchingRequest → (ExecutionResult → option HttpRequest → FetchProg) → FetchProg.

Definition FetchPrivateKey (SignHttpRequest : Signer) (request : PrivateKeyFetchingRequest) : FetchProg :=
  SignHttpRequest request SignHttpRequestCallback.
End fetcher.

Abbreviation kAuthorizationHeaderKey := "Authorization"%string (only parsing).
Abbreviation kBearerTokenPrefix := "Bearer "%string (only parsing).

Definition OnGetSessionTokenCallback (request : PrivateKeyFetchingRequest)
    (callback : ExecutionResult → option HttpRequest → FetchProg) (result : ExecutionResult) (token : option string) : FetchProg :=
  if negb (Successful result) then callback result None
  else match token with
       | None => Crash
       | Some access_token =>
           let http_request := CreateHttpRequest request in
           callback SuccessExecutionResult
             (Some (mkHttpRequest (path http_request) (query http_request)
                      (Some [(kAuthorizationHeaderKey, kBearerTokenPrefix +:+ access_token)])))
       end.

Definition GcpSignHttpRequest : Signer := λ request callback,
  Invoke (GetSessionTokenForTargetAudience
            (gcp_private_key_vending_service_cloudfunction_url (key_vending_endpoint request))) true
    (λ _ r token, OnGetSessionTokenCallback request callback r token).

(** [SignHttpRequestUsingV4Signer]: what the AWS library and libcurl make of the request and the
    credentials. *)
Definition V4Signer : Type := HttpRequest → Credentials → string → ExecutionResultOr (list (string * string)).

Definition CreateSessionCredentialsCallbackToSignHttpRequest (sign : V4Signer) (request : PrivateKeyFetchingRequest)
    (callback : ExecutionResult → option HttpRequest → FetchProg) (result : ExecutionResult) (cr : option Credentials) : FetchProg :=
  if negb (Successful result) then callback result None
  else match cr with
       | None => Crash
       | Some cr =>
           let http_request := CreateHttpRequest request in
           match sign http_request cr (service_region (key_vending_endpoint request)) with
           | HasValue headers =>
               callback SuccessExecutionResult (Some (mkHttpRequest (path http_request) (query http_request) (Some headers)))
           | HasResult r => callback r None
           end
       end.

Definition AwsSignHttpRequest (sign : V4Signer) : Signer := λ request callback,
  Invoke (GetRoleCredentials (account_identity (key_vending_endpoint request))) true
    (λ _ r cr, CreateSessionCredentialsCallbackToSignHttpRequest sign request callback r cr).

(** ** What a key vending service sends *)

Record RawData := mkRawData { raw_uri : string; raw_material : string; raw_signature : string }.

Record RawKey := mkRawKey {
  raw_id : string;
  raw_multi_party : bool;
  raw_handle : string;
  raw_public : string;
  raw_expiration : string;
  raw_creation : string;
  raw_data : list RawData
}.

Definition data_of (d : RawData) : KeyData :=
  mkKeyData (Some (raw_signature d)) (Some (raw_uri d)) (Some (raw_material d)).

(** The key that a document stands for. *)
Definition key_of (k : RawKey) : EncryptionKey :=
  mkEncryptionKey (Some (raw_id k)) (Some (kEncryptionKeyPrefix +:+ raw_id k))
    (if raw_multi_party k then kMultiPartyHybridEvenKeysplit else kSinglePartyHybridKey)
    (Some (raw_handle k)) (Some (raw_public k))
    (u64 (default 0 (stol (raw_expiration k)))) (u64 (default 0 (stol (raw_creation k)))) (map data_of (raw_data k)).

Definition has_material (d : RawData) : bool :=
  negb (bool_decide (raw_material d = "")) && negb (bool_decide (raw_uri d = "")).

(** The times are numbers, and some part of the key is there. *)
Definition raw_ok (k : RawKey) : Prop :=
  is_Some (stol (raw_expiration k)) ∧ is_Some (stol (raw_creation k)) ∧ existsb has_material (raw_data k) = true.

Section render.
Context `{!JsonLib}.

Definition render_data (d : RawData) : json :=
  json_object [(kPublicKeySignature, json_string (raw_signature d)); (kKeyEncryptionKeyUri, json_string (raw_uri d));
               (kKeyMaterial, json_string (raw_material d))].

Definition render_key (k : RawKey) : json :=
  json_object
    [(kResourceNameLabel, json_string (kEncryptionKeyPrefix +:+ raw_id k));
     (kEncryptionKeyType, json_string (if raw_multi_party k then kMultiPartyEnum else kSinglePartyEnum));
     (kPublicKeysetHandle, json_string (raw_handle k)); (kPublicKeyMaterial, json_string (raw_public k));
     (kExpirationTime, json_string (raw_expiration k)); (kCreationTime, json_string (raw_creation k));
     (kKeyData, json_array (map render_data (raw_data k)))].

Definition render_keys (ks : list RawKey) : json := json_object [(kEncryptionKeysLabel, json_array (map render_key ks))].

(** The member of a rendered object. *)
Lemma find_member ms k v : bool_decide (NoDup ms.*1) = true → (k, v) ∈ ms → json_find (json_object ms) k = Some v.
Proof.
  intros Hnd%bool_decide_eq_true Hin. rewrite json_find_object by done. by apply elem_of_list_to_map_1.
Qed.

(** Closes the conditions of the lemmas below. *)
Ltac members := first [vm_compute; reflexivity | repeat first [apply list_elem_of_here | apply list_elem_of_further]].

Lemma ExtractKeyId_prefix id : ExtractKeyId (kEncryptionKeyPrefix +:+ id) = HasValue id.
Proof.
  unfold ExtractKeyId. replace (String.index 0 kEncryptionKeyPrefix (kEncryptionKeyPrefix +:+ id)) with (Some 0%nat).
  - f_equal. change (String.substring 0 (String.length id - 0) id = id). rewrite Nat.sub_0_r. apply substring_full.
  - cbn. by destruct id.
Qed.

Lemma ParseJsonValue_member ms k s :
  bool_decide (NoDup ms.*1) = true → (k, json_string s) ∈ ms → ParseJsonValue (json_object ms) k = mret s.
Proof. intros Hnd Hin. unfold ParseJsonValue. rewrite (find_member _ _ _ Hnd Hin), json_get_string. done. Qed.

Lemma parse_chunk_rendered d : parse_chunk (render_data d) = mret (data_of d, has_material d).
Proof.
  unfold parse_chunk, render_data.
  rewrite (ParseJsonValue_member _ kKeyEncryptionKeyUri (raw_uri d)), (ParseJsonValue_member _ kKeyMaterial (raw_material d)),
    (ParseJsonValue_member _ kPublicKeySignature (raw_signature d)); by members.
Qed.

Lemma parse_chunks_rendered ds1 ds2 found acc :
  parse_chunks (json_array (map render_data (ds1 ++ ds2))) (length ds1) (length ds2) found acc =
    mret (acc ++ map data_of ds2, found || existsb has_material ds2).
Proof.
  revert ds1 found acc. induction ds2 as [|d ds2 IH]; intros ds1 found acc; cbn [length parse_chunks].
  - cbn. by rewrite app_nil_r, orb_false_r.
  - rewrite json_at_array by (rewrite length_map, length_app; cbn; lia).
    rewrite list_lookup_fmap, list_lookup_middle by done. cbn -[render_data]. rewrite parse_chunk_rendered. cbn.
    specialize (IH (ds1 ++ [d]) (found || has_material d) (acc ++ [data_of d])).
    rewrite <-app_assoc, length_app, Nat.add_comm in IH. cbn in IH. rewrite IH, <-app_assoc, orb_assoc. done.
Qed.

Lemma ParseKeyData_rendered ms ds :
  bool_decide (NoDup ms.*1) = true → (kKeyData, json_array (map render_data ds)) ∈ ms → existsb has_material ds = true →
  ParseKeyData (json_object ms) kKeyData = mret (map data_of ds).
Proof.
  intros Hnd Hin Hmat. unfold ParseKeyData. rewrite (find_member _ _ _ Hnd Hin), json_size_array, length_map.
  rewrite (parse_chunks_rendered [] ds), Hmat. done.
Qed.

Lemma ParseEncryptionKey_rendered k : raw_ok k → ParseEncryptionKey (render_key k) = mret (key_of k).
Proof.
  intros ([e He] & [c Hc] & Hmat). unfold ParseEncryptionKey, render_key.
  rewrite (ParseJsonValue_member _ kResourceNameLabel (kEncryptionKeyPrefix +:+ raw_id k)) by members.
  rewrite (ParseJsonValue_member _ kPublicKeysetHandle (raw_handle k)) by members.
  rewrite (ParseJsonValue_member _ kPublicKeyMaterial (raw_public k)) by members.
  rewrite (ParseJsonValue_member _ kExpirationTime (raw_expiration k)) by members.
  rewrite (ParseJsonValue_member _ kCreationTime (raw_creation k)) by members.
  rewrite (ParseKeyData_rendered _ (raw_data k)) by first [done | members].
  unfold ParseEncryptionKeyType.
  rewrite (find_member _ kEncryptionKeyType (json_string (if raw_multi_party k then kMultiPartyEnum else kSinglePartyEnum))) by members.
  rewrite !json_equals_string. cbn [mbind Fallible_bind mret Fallible_ret or_fail].
  rewrite ExtractKeyId_prefix. unfold key_of. rewrite He, Hc. by destruct (raw_multi_party k).
Qed.

Lemma parse_keys_rendered ks1 ks2 acc : Forall raw_ok ks2 →
  parse_keys (json_array (map render_key (ks1 ++ ks2))) (length ks1) (length ks2) acc = mret (acc ++ map key_of ks2).
Proof.
  revert ks1 acc. induction ks2 as [|k ks2 IH]; intros ks1 acc Hok; cbn [length parse_keys].
  - cbn. by rewrite app_nil_r.
  - apply Forall_cons in Hok as [Hk Hok]. rewrite json_at_array by (rewrite length_map, length_app; cbn; lia).
    rewrite list_lookup_fmap, list_lookup_middle by done. cbn -[render_key]. rewrite ParseEncryptionKey_rendered by done. cbn.
    specialize (IH (ks1 ++ [k]) (acc ++ [key_of k]) Hok). rewrite <-app_assoc, length_app, Nat.add_comm in IH.
    cbn in IH. rewrite IH, <-app_assoc. done.
Qed.

Lemma ParsePrivateKey_rendered body ks :
  json_parse body = Some (render_keys ks) → Forall raw_ok ks → ParsePrivateKey body = mret (map key_of ks).
Proof.
  intros Hp Hok. unfold ParsePrivateKey. rewrite Hp. cbn [or_throw fmap option_fmap option_map mbind Fallible_bind].
  unfold render_keys. rewrite (find_member _ kEncryptionKeysLabel (json_array (map render_key ks))) by members.
  rewrite json_size_array, length_map. by apply (parse_keys_rendered [] ks).
Qed.

(** ** The chain of calls *)

Context {Srv Choice : Type} (perform : Srv → ∀ c : FetchCall, Choice → option (ExecutionResult * option (FetchAnswer c) * Srv)).

(** The request that the GCP provider sends. *)
Definition gcp_request (request : PrivateKeyFetchingRequest) (token : string) : HttpRequest :=
  let r := CreateHttpRequest request in
  mkHttpRequest (path r) (query r) (Some [(kAuthorizationHeaderKey, kBearerTokenPrefix +:+ token)]).

(** On GCP, [FetchPrivateKey] asks for a token for the endpoint's audience, sends one request with
    it, and returns exactly the keys that the service's document holds. *)
Theorem fetch_returns_vended_keys request token body ks s s1 s2 ch1 ch2 :
  perform s (GetSessionTokenForTargetAudience
               (gcp_private_key_vending_service_cloudfunction_url (key_vending_endpoint request))) ch1 =
    Some (SuccessExecutionResult, Some token, s1) →
  perform s1 (PerformRequest (gcp_request request token)) ch2 = Some (SuccessExecutionResult, Some body, s2) →
  json_parse body = Some (render_keys ks) → Forall raw_ok ks →
  exec perform (λ _, true) [(ch1, tt); (ch2, tt)] s (FetchPrivateKey GcpSignHttpRequest request) =
    Some (SuccessExecutionResult, Some (map key_of ks), s2).
Proof.
  intros H1 H2 Hp Hok. unfold FetchPrivateKey, GcpSignHttpRequest. rewrite (exec_step _ _ _ _ _ _ _ _ _ _ _ _ H1) by done.
  unfold OnGetSessionTokenCallback, SignHttpRequestCallback.
  change (exec perform (λ _, true) [(ch2, tt)] s1 (Invoke (PerformRequest (gcp_request request token)) false
            (λ _ r body, PrivateKeyFetchingCallback r body)) = Some (SuccessExecutionResult, Some (map key_of ks), s2)).
  rewrite (exec_step _ _ _ _ _ _ _ _ _ _ _ _ H2) by done. unfold PrivateKeyFetchingCallback.
  by rewrite (ParsePrivateKey_rendered _ _ Hp Hok).
Qed.

(** A response body that is not JSON ends the process: the parser's exception leaves a [noexcept]
    function. *)
Theorem malformed_body_crashes body :
  json_parse body = None → PrivateKeyFetchingCallback SuccessExecutionResult (Some body) = Crash.
Proof. intros Hp. unfold PrivateKeyFetchingCallback, ParsePrivateKey. by rewrite Hp. Qed.
End render.

(** ** A JSON library *)

Module Tree.
Inductive tree :=
  | TString (s : string)
  | TArray (vs : list tree)
  | TObject (ms : list (string * tree)).

Definition find (v : tree) (k : string) : option tree :=
  match v with TObject ms => list_to_map (M := gmap string tree) ms !! k | _ => None end.
Definition size (v : tree) : nat :=
  match v with TString _ => 1 | TArray vs => length vs | TObject ms => length ms end.
Definition at_ (v : tree) (i : nat) : option tree := match v with TArray vs => vs !! i | _ => None end.
Definition get (v : tree) : option string := match v with TString s => Some s | _ => None end.
Definition equals (v : tree) (s : string) : bool := match v with TString s' => bool_decide (s' = s) | _ => false end.

(** With any parser. *)
Definition lib (parse : string → option tree) : JsonLib.
Proof.
  refine {| json := tree; json_parse := parse; json_find := find; json_size := size; json_at := at_;
            json_get := get; json_equals := equals; json_object := TObject; json_array := TArray; json_string := TString |};
    done.
Defined.
End Tree.

Definition sample_key : RawKey :=
  mkRawKey "k1" true "handle" "public" "1700000000000" "1600000000000"
    [mkRawData "aws-kms://arn" "material" "sig"; mkRawData "" "" ""].

(** Knows one document. *)
#[local] Instance sample_json : JsonLib :=
  Tree.lib (λ b, if bool_decide (b = "doc") then
    Some (Tree.TObject [("keys", Tree.TArray [
      @render_key (Tree.lib (λ _, None)) sample_key])]) else None).

(** The token provider gives [token], the HTTP client the document. *)
Definition sample_perform (s : ()) (c : FetchCall) (ch : ()) : option (ExecutionResult * option (FetchAnswer c) * ()) :=
  match c with
  | GetSessionTokenForTargetAudience _ => Some (SuccessExecutionResult, Some "token", tt)
  | GetRoleCredentials _ => None
  | PerformRequest _ => Some (SuccessExecutionResult, Some "doc", tt)
  end.

Lemma fetch_returns_vended_keys_witness :
  exec sample_perform (λ _, true) [(tt, tt); (tt, tt)] tt
    (FetchPrivateKey GcpSignHttpRequest (mkFetchingRequest (mkEndpoint "" "" "https://a" "aud" "") (Some "k1") 0)) =
    Some (SuccessExecutionResult, Some [key_of sample_key], tt).
Proof.
  apply (fetch_returns_vended_keys sample_perform
    (mkFetchingRequest (mkEndpoint "" "" "https://a" "aud" "") (Some "k1") 0) "token" "doc" [sample_key] tt tt tt tt tt);
    [reflexivity|reflexivity|reflexivity|].
  constructor; [|constructor]. repeat split; vm_compute; eauto.
Defined.

Lemma malformed_body_crashes_witness : PrivateKeyFetchingCallback SuccessExecutionResult (Some "{") = Crash.
Proof. apply malformed_body_crashes. reflexivity. Defined.
