(* ===== verification/PrivateKeyClient.v ===== *)
(** * PrivateKeyClient: private keys from several key vending services

    Models, in [cc/cpio/client_providers/private_key_client_provider/src],
    [private_key_client_utils.cc], [private_key_client_utils.h],
    [private_key_client_provider.cc] and [private_key_client_provider.h].
    [ListPrivateKeys] asks every endpoint for its split of the keys, decrypts
    each split and combines them when the last reply has come.  Its callbacks
    run on any thread and share the status object: they are [Threads.Code], one
    action per access to an atomic, a map, the set of ids or the caller's
    context.  Putting the result together, at the end, is one action.

    The fetcher ([KeyFetcher]) and the KMS client answer from outside: an
    outstanding call stays in a list until its reply starts a callback.  Tink
    and abseil's Base64 are the class [Tink]. *)

From Stdlib Require Import Ascii.
From S2P Require Import Prelude ExecResult Utils ExpiryMap Threads KeyFetcher.

Local Open Scope string_scope.
Local Open Scope list_scope.
Local Open Scope Z_scope.

(** ** Error codes *)

Abbreviation SC_PRIVATE_KEY_CLIENT_PROVIDER := 0x0223%Z (only parsing).
Abbreviation SC_PRIVATE_KEY_CLIENT_PROVIDER_KEY_DATA_NOT_FOUND := (MakeErrorCode SC_PRIVATE_KEY_CLIENT_PROVIDER 0x0001).
Abbreviation SC_PRIVATE_KEY_CLIENT_PROVIDER_SECRET_PIECE_SIZE_UNMATCHED := (MakeErrorCode SC_PRIVATE_KEY_CLIENT_PROVIDER 0x0002).
Abbreviation SC_PRIVATE_KEY_CLIENT_PROVIDER_UNMATCHED_ENDPOINTS_SPLITS := (MakeErrorCode SC_PRIVATE_KEY_CLIENT_PROVIDER 0x0003).
Abbreviation SC_PRIVATE_KEY_CLIENT_PROVIDER_INVALID_KEY_RESOURCE_NAME := (MakeErrorCode SC_PRIVATE_KEY_CLIENT_PROVIDER 0x0004).
Abbreviation SC_PRIVATE_KEY_CLIENT_PROVIDER_INVALID_KEY_DATA_COUNT := (MakeErrorCode SC_PRIVATE_KEY_CLIENT_PROVIDER 0x0006).
Abbreviation SC_PRIVATE_KEY_CLIENT_PROVIDER_CANNOT_CREATE_JSON_KEY_SET := (MakeErrorCode SC_PRIVATE_KEY_CLIENT_PROVIDER 0x0007).
Abbreviation SC_PRIVATE_KEY_CLIENT_PROVIDER_CANNOT_READ_ENCRYPTED_KEY_SET := (MakeErrorCode SC_PRIVATE_KEY_CLIENT_PROVIDER 0x0008).

(** ** [private_key_client_utils] *)

Inductive ListingMethod := kByKeyId | kByMaxAge.

Record DecryptResult := mkDecryptResult {
  decrypt_result : ExecutionResult;
  encryption_key : EncryptionKey;
  plaintext : string
}.

Record KeysResultPerEndpoint := mkKeysResult {
  fetch_result_key_id_map : gmap string ExecutionResult;
  fetch_result : ExecutionResult;
  decrypt_result_key_id_map : gmap string DecryptResult
}.

Record DecryptRequest := mkDecryptRequest {
  ciphertext : string;
  key_resource_name : string;
  kms_account_identity : string;
  kms_region : string;
  kms_gcp_wip_provider : string
}.

(** The times are in milliseconds. *)
Record PrivateKey := mkPrivateKey {
  pk_key_id : string;
  pk_public_key : string;
  pk_private_key : string;
  pk_expiration_time : Z;
  pk_creation_time : Z
}.

(** [JsonKeysetReader::New], [ReadEncrypted] (the encrypted keyset) and [absl::Base64Escape]. *)
Class Tink := {
  JsonKeysetReader_New : string → bool;
  ReadEncrypted : string → option string;
  Base64Escape : string → string
}.

Abbreviation kKeyArnPrefixSize := 10%nat (only parsing).

(** [substr(pos)]; it throws beyond the end. *)
Definition substr_from (pos : nat) (s : string) : option string :=
  if (String.length s <? pos)%nat then None else Some (String.substring pos (String.length s - pos) s).

Section utils.
Context `{!Tink, !EvpBase64}.

(** The loop for a multi-party key. *)
Fixpoint multi_party_request (key_data_ : list KeyData) : Fallible (string * string) :=
  match key_data_ with
  | [] => fail_with SC_PRIVATE_KEY_CLIENT_PROVIDER_KEY_DATA_NOT_FOUND
  | d :: key_data_ =>
      match key_material d with
      | Some material =>
          if bool_decide (material = "") then multi_party_request key_data_
          else
            uri ← or_throw (key_encryption_key_uri d);
            if (String.length uri <? kKeyArnPrefixSize)%nat
            then fail_with SC_PRIVATE_KEY_CLIENT_PROVIDER_INVALID_KEY_RESOURCE_NAME
            else name ← or_throw (substr_from kKeyArnPrefixSize uri); mret (material, name)
      | None => multi_party_request key_data_
      end
  end.

(** The ciphertext and the key's resource name. *)
Definition GetKmsDecryptRequest (k : EncryptionKey) : Fallible (string * string) :=
  match encryption_key_type k with
  | kSinglePartyHybridKey =>
      match key_data k with
      | [d] =>
          material ← or_throw (key_material d);
          if negb (JsonKeysetReader_New material)
          then fail_with SC_PRIVATE_KEY_CLIENT_PROVIDER_CANNOT_CREATE_JSON_KEY_SET
          else match ReadEncrypted material with
               | None => fail_with SC_PRIVATE_KEY_CLIENT_PROVIDER_CANNOT_READ_ENCRYPTED_KEY_SET
               | Some keyset =>
                   uri ← or_throw (key_encryption_key_uri d);
                   name ← or_throw (substr_from kKeyArnPrefixSize uri);
                   mret (Base64Escape keyset, name)
               end
      | _ => fail_with SC_PRIVATE_KEY_CLIENT_PROVIDER_INVALID_KEY_DATA_COUNT
      end
  | kMultiPartyHybridEvenKeysplit => multi_party_request (key_data k)
  | kUnknownEncryptionKeyType => fail_with SC_PRIVATE_KEY_CLIENT_PROVIDER_KEY_DATA_NOT_FOUND
  end.

Definition StrToBytes (s : string) : list ascii := String.list_ascii_of_string s.

Definition xor_byte (a b : ascii) : ascii := ascii_of_N (N.lxor (N_of_ascii a) (N_of_ascii b)).

(** [None] when [arr2] is shorter. *)
Fixpoint XOR (arr1 arr2 : list ascii) : option (list ascii) :=
  match arr1, arr2 with
  | [], _ => Some []
  | a :: arr1, b :: arr2 => r ← XOR arr1 arr2; Some (xor_byte a b :: r)
  | _ :: _, [] => None
  end.

Fixpoint xor_pieces (xor_secret : list ascii) (rest : list DecryptResult) : Fallible (list ascii) :=
  match rest with
  | [] => mret xor_secret
  | d :: rest =>
      let next_piece := StrToBytes (plaintext d) in
      if negb (length xor_secret =? length next_piece)%nat
      then fail_with SC_PRIVATE_KEY_CLIENT_PROVIDER_SECRET_PIECE_SIZE_UNMATCHED
      else xor_secret ← or_throw (XOR xor_secret next_piece); xor_pieces xor_secret rest
  end.

(** The address of the first byte of an empty secret is undefined. *)
Definition ConstructPrivateKey (decrypt_results : list DecryptResult) : Fallible PrivateKey :=
  match decrypt_results with
  | [] => fail_with SC_PRIVATE_KEY_CLIENT_PROVIDER_KEY_DATA_NOT_FOUND
  | d :: rest =>
      let k := encryption_key d in
      id ← or_throw (key_id k);
      public ← or_throw (public_key_material k);
      xor_secret ← xor_pieces (StrToBytes (plaintext d)) rest;
      _ ← or_throw (head xor_secret);
      encoded_key ← Base64Encode (String.string_of_list_ascii xor_secret);
      mret (mkPrivateKey id public encoded_key (expiration_time_in_ms k) (creation_time_in_ms k))
  end.

(** The first of some results, as far as they are there, that is not a success. *)
Definition first_failure (rs : list (option ExecutionResult)) : option ExecutionResult :=
  head (filter (λ r, Successful r = false) (omap id rs)).

Fixpoint ExtractAnyFailure (keys_result : list KeysResultPerEndpoint) (key_id_ : string) : ExecutionResult :=
  match keys_result with
  | [] => SuccessExecutionResult
  | r :: keys_result =>
      match first_failure [Some (fetch_result r); (CM_Find (fetch_result_key_id_map r) key_id_).2;
                           decrypt_result <$> (CM_Find (decrypt_result_key_id_map r) key_id_).2] with
      | Some f => f
      | None => ExtractAnyFailure keys_result key_id_
      end
  end.

Fixpoint ExtractSinglePartyKey (keys_result : list KeysResultPerEndpoint) (key_id_ : string) : option DecryptResult :=
  match keys_result with
  | [] => None
  | r :: keys_result =>
      match CM_Find (decrypt_result_key_id_map r) key_id_ with
      | (_, Some d) =>
          if bool_decide (encryption_key_type (encryption_key d) = kSinglePartyHybridKey) then Some d
          else ExtractSinglePartyKey keys_result key_id_
      | _ => ExtractSinglePartyKey keys_result key_id_
      end
  end.
End utils.

(** ** [PrivateKeyClientProvider] *)

(** [ListPrivateKeysStatus], the results the caller's context was finished with, the calls that are
    outstanding with the index of their endpoint, and what the next calls will return at once (a
    success when the list is empty). *)
Record Shared := mkShared {
  result_list : list KeysResultPerEndpoint;
  key_id_set : list string;
  total_key_split_count : Z;
  finished_key_split_count : Z;
  fetching_call_returned_count : Z;
  got_failure : bool;
  finishes : list (ExecutionResult * option (list PrivateKey));
  fetch_calls : list (PrivateKeyFetchingRequest * nat);
  decrypt_calls : list (DecryptRequest * EncryptionKey * nat);
  begins : list ExecutionResult
}.

Definition set_result_list (x : list KeysResultPerEndpoint) (e : Shared) : Shared :=
  mkShared x (key_id_set e) (total_key_split_count e) (finished_key_split_count e)
    (fetching_call_returned_count e) (got_failure e) (finishes e) (fetch_calls e) (decrypt_calls e)
    (begins e).
Definition set_key_ids (x : list string) (e : Shared) : Shared :=
  mkShared (result_list e) x (total_key_split_count e) (finished_key_split_count e)
    (fetching_call_returned_count e) (got_failure e) (finishes e) (fetch_calls e) (decrypt_calls e)
    (begins e).
Definition set_total (x : Z) (e : Shared) : Shared :=
  mkShared (result_list e) (key_id_set e) x (finished_key_split_count e)
    (fetching_call_returned_count e) (got_failure e) (finishes e) (fetch_calls e) (decrypt_calls e)
    (begins e).
Definition set_finished (x : Z) (e : Shared) : Shared :=
  mkShared (result_list e) (key_id_set e) (total_key_split_count e) x
    (fetching_call_returned_count e) (got_failure e) (finishes e) (fetch_calls e) (decrypt_calls e)
    (begins e).
Definition set_returned (x : Z) (e : Shared) : Shared :=
  mkShared (result_list e) (key_id_set e) (total_key_split_count e) (finished_key_split_count e) x
    (got_failure e) (finishes e) (fetch_calls e) (decrypt_calls e) (begins e).
Definition set_got_failure (x : bool) (e : Shared) : Shared :=
  mkShared (result_list e) (key_id_set e) (total_key_split_count e) (finished_key_split_count e)
    (fetching_call_returned_count e) x (finishes e) (fetch_calls e) (decrypt_calls e) (begins e).
Definition set_finishes (x : list (ExecutionResult * option (list PrivateKey))) (e : Shared) : Shared :=
  mkShared (result_list e) (key_id_set e) (total_key_split_count e) (finished_key_split_count e)
    (fetching_call_returned_count e) (got_failure e) x (fetch_calls e) (decrypt_calls e) (begins e).
Definition set_fetch_calls (x : list (PrivateKeyFetchingRequest * nat)) (e : Shared) : Shared :=
  mkShared (result_list e) (key_id_set e) (total_key_split_count e) (finished_key_split_count e)
    (fetching_call_returned_count e) (got_failure e) (finishes e) x (decrypt_calls e) (begins e).
Definition set_decrypt_calls (x : list (DecryptRequest * EncryptionKey * nat)) (e : Shared) : Shared :=
  mkShared (result_list e) (key_id_set e) (total_key_split_count e) (finished_key_split_count e)
    (fetching_call_returned_count e) (got_failure e) (finishes e) (fetch_calls e) x (begins e).
Definition set_begins (x : list ExecutionResult) (e : Shared) : Shared :=
  mkShared (result_list e) (key_id_set e) (total_key_split_count e) (finished_key_split_count e)
    (fetching_call_returned_count e) (got_failure e) (finishes e) (fetch_calls e) (decrypt_calls e)
    x.

(** Insertion in a [std::set<std::string>], in its order. *)
Fixpoint set_insert (x : string) (l : list string) : list string :=
  match l with
  | [] => [x]
  | y :: l' => match String.compare x y with
               | Lt => x :: l
               | Eq => l
               | Gt => y :: set_insert x l'
               end
  end.

Definition no_results : KeysResultPerEndpoint := mkKeysResult ∅ SuccessExecutionResult ∅.

(** What the end of [OnDecryptCallback] does: it finishes the context; or it finishes it and then
    reads the id of its key for the log; or it reads a null pointer before.  Warnings and errors are
    logged. *)
Inductive Assembled :=
  | Finishes (r : ExecutionResult) (keys : list PrivateKey)
  | FinishesAndLogs (r : ExecutionResult) (keys : list PrivateKey)
  | Crashes.

(** The endpoint list that [Init] builds. *)
Definition Init (primary : PrivateKeyVendingEndpoint) (secondaries : list PrivateKeyVendingEndpoint)
  : list PrivateKeyVendingEndpoint :=
  primary :: secondaries.

(** The conversion of an [int64_t] to an [int]. *)
Definition int_of_int64 (x : Z) : Z := (x + 2 ^ 31) `mod` 2 ^ 32 - 2 ^ 31.

Section provider.
Context `{!Tink, !EvpBase64}.
(** [key_ids] and [max_age] are those of the caller's request. *)
Variables (endpoint_list_ : list PrivateKeyVendingEndpoint) (key_ids : list string) (max_age : Z).

Definition listing_method : ListingMethod := match key_ids with [] => kByMaxAge | _ => kByKeyId end.

Definition endpoint_count_ : nat := length endpoint_list_.
Definition call_count_per_endpoint : nat := match listing_method with kByKeyId => length key_ids | kByMaxAge => 1 end.

(** [context.result = r; context.Finish()]. *)
Definition finish (r : ExecutionResult) (resp : option (list PrivateKey)) : Code Shared () :=
  modifies (λ s, set_finishes (finishes s ++ [(r, resp)]) s).

(** The [compare_exchange_strong] of [got_failure], and the end of the call when it succeeds. *)
Definition fail_once (r : ExecutionResult) : Code Shared () :=
  won ← atomically (λ s, if got_failure s then (s, false) else (set_got_failure true s, true));
  if won : bool then finish r None else mret tt.

(** A call that is outstanding afterwards unless it is refused. *)
Definition begin_call (register : Shared → Shared) : Code Shared ExecutionResult :=
  atomically (λ s,
    match begins s with
    | [] => (register s, SuccessExecutionResult)
    | r :: rs => let s := set_begins rs s in if Successful r then (register s, r) else (s, r)
    end).

(** [result_list[uri_index]] is updated. *)
Definition at_endpoint (uri_index : nat) (f : KeysResultPerEndpoint → KeysResultPerEndpoint) (s : Shared) : Shared :=
  set_result_list (alter f uri_index (result_list s)) s.

(** *** The end *)

(** The splits of a key; [None] when an endpoint has none or its key has another number of splits. *)
Fixpoint collect_splits (rs : list KeysResultPerEndpoint) (id : string) : option (list DecryptResult) :=
  match rs with
  | [] => Some []
  | r :: rs =>
      match (CM_Find (decrypt_result_key_id_map r) id).2 with
      | Some d => if (length (key_data (encryption_key d)) =? endpoint_count_)%nat
                  then ds ← collect_splits rs id; Some (d :: ds)
                  else None
      | None => None
      end
  end.

(** The loop over [key_id_set]; [encryption_key_] is the key of the callback. *)
Fixpoint assemble (rs : list KeysResultPerEndpoint) (encryption_key_ : option EncryptionKey) (ids : list string)
    (keys : list PrivateKey) : Assembled :=
  match ids with
  | [] => Finishes SuccessExecutionResult keys
  | id :: ids =>
      let construct ds :=
        match ConstructPrivateKey ds with
        | None => Crashes
        | Some (HasResult r) => Finishes r keys
        | Some (HasValue key) => assemble rs encryption_key_ ids (keys ++ [key])
        end in
      match ExtractSinglePartyKey rs id with
      | Some d => construct [d]
      | None =>
          let r := ExtractAnyFailure rs id in
          if negb (Successful r) then Finishes r keys
          else match collect_splits rs id with
               | Some ds => construct ds
               | None =>
                   match listing_method with
                   | kByKeyId =>
                       FinishesAndLogs
                         (FailureExecutionResult SC_PRIVATE_KEY_CLIENT_PROVIDER_UNMATCHED_ENDPOINTS_SPLITS) keys
                   | kByMaxAge =>
                       match encryption_key_ ≫= key_id with
                       | None => Crashes
                       | Some _ => assemble rs encryption_key_ ids keys
                       end
                   end
               end
      end
  end.

(** *** Callbacks *)

Definition InsertDecryptResult (uri_index : nat) (k : EncryptionKey) (result : ExecutionResult) (text : string)
  : Code Shared ExecutionResult :=
  id ← deref (key_id k);
  atomically (λ s,
    match result_list s !! uri_index with
    | None => (s, SuccessExecutionResult)
    | Some rs =>
        match CM_Insert (decrypt_result_key_id_map rs) id (mkDecryptResult result k text) with
        | (r, _, m) => (at_endpoint uri_index (λ rs, mkKeysResult (fetch_result_key_id_map rs) (fetch_result rs) m) s, r)
        end
    end).

Definition complete (encryption_key_ : option EncryptionKey) : Code Shared () :=
  o ← reads (λ s, assemble (result_list s) encryption_key_ (key_id_set s) []);
  match o with
  | Crashes => Fault
  | Finishes r keys => finish r (Some keys)
  | FinishesAndLogs r keys => _ ← finish r (Some keys); _ ← deref (encryption_key_ ≫= key_id); mret tt
  end.

Definition OnDecryptCallback (result : ExecutionResult) (response : option string)
    (encryption_key_ : option EncryptionKey) (uri_index : nat) : Code Shared () :=
  failed ← reads got_failure;
  if failed : bool then mret tt
  else
    finished_key_split_count_prev ← reads (λ s, u64 (finished_key_split_count s - 1));
    prev ←
      match encryption_key_ with
      | None => mret (Some finished_key_split_count_prev)
      | Some k =>
          text ← (if Successful result then deref response else mret "");
          insert_result ← InsertDecryptResult uri_index k result text;
          if negb (Successful insert_result) then _ ← fail_once insert_result; mret None
          else atomically (λ s, (set_finished (finished_key_split_count s + 1) s, Some (finished_key_split_count s)))
      end;
    match prev with
    | None => mret tt
    | Some prev =>
        returned ← reads fetching_call_returned_count;
        if returned =? Z.of_nat (call_count_per_endpoint * endpoint_count_) then
          total ← reads total_key_split_count;
          if prev =? u64 (total - 1) then complete encryption_key_ else mret tt
        else mret tt
    end.

(** One key of a response: [false] when the function returns. *)
Definition decrypt_one (request : PrivateKeyFetchingRequest) (uri_index : nat) (k : EncryptionKey) : Code Shared bool :=
  _ ← match listing_method with
      | kByMaxAge => id ← deref (key_id k); modifies (λ s, set_key_ids (set_insert id (key_id_set s)) s)
      | kByKeyId => mret tt
      end;
  kms ← deref (GetKmsDecryptRequest k);
  match kms with
  | HasResult r => _ ← fail_once r; mret false
  | HasValue (text, name) =>
      let e := key_vending_endpoint request in
      let decrypt := mkDecryptRequest text name (account_identity e) (service_region e) (gcp_wip_provider e) in
      r ← begin_call (λ s, set_decrypt_calls (decrypt_calls s ++ [(decrypt, k, uri_index)]) s);
      if negb (Successful r) then _ ← fail_once r; mret false else mret true
  end.

(** Where the result of a fetch goes: [false] when it is a duplicate. *)
Definition record_fetch (request : PrivateKeyFetchingRequest) (result : ExecutionResult) (uri_index : nat)
  : Code Shared bool :=
  match listing_method with
  | kByKeyId =>
      id ← deref (request_key_id request);
      insert_result ← atomically (λ s,
        match result_list s !! uri_index with
        | None => (s, SuccessExecutionResult)
        | Some rs =>
            match CM_Insert (fetch_result_key_id_map rs) id result with
            | (r, _, m) => (at_endpoint uri_index (λ rs, mkKeysResult m (fetch_result rs) (decrypt_result_key_id_map rs)) s, r)
            end
        end);
      if negb (Successful insert_result) then _ ← fail_once insert_result; mret false
      else _ ← modifies (λ s, set_key_ids (set_insert id (key_id_set s)) s); mret true
  | kByMaxAge =>
      _ ← modifies (at_endpoint uri_index (λ rs, mkKeysResult (fetch_result_key_id_map rs) result (decrypt_result_key_id_map rs)));
      mret true
  end.

Definition OnFetchPrivateKeyCallback (request : PrivateKeyFetchingRequest) (result : ExecutionResult)
    (response : option (list EncryptionKey)) (uri_index : nat) : Code Shared () :=
  failed ← reads got_failure;
  if failed : bool then mret tt
  else
    _ ← modifies (λ s, set_returned (fetching_call_returned_count s + 1) s);
    recorded ← record_fetch request result uri_index;
    if negb recorded then mret tt
    else if negb (Successful result) then OnDecryptCallback SuccessExecutionResult None None uri_index
    else
      encryption_keys ← deref response;
      match encryption_keys with
      | [] => OnDecryptCallback SuccessExecutionResult None None uri_index
      | _ =>
          _ ← modifies (λ s, set_total (total_key_split_count s + zlen encryption_keys) s);
          _ ← for_each encryption_keys (decrypt_one request uri_index);
          mret tt
      end.

(** *** [ListPrivateKeys] *)

(** The requests of the two loops, in order, with the index of their endpoint.  A request by id
    leaves the age at zero. *)
Definition fetch_requests : list (PrivateKeyFetchingRequest * nat) :=
  '(call_key_id, age) ←
    (match listing_method with
     | kByKeyId => (λ id, (Some id, 0)) <$> key_ids
     | kByMaxAge => [(None, int_of_int64 max_age)]
     end);
  imap (λ uri_index e, (mkFetchingRequest e call_key_id age, uri_index)) endpoint_list_.

Fixpoint fetch_all (requests : list (PrivateKeyFetchingRequest * nat)) : Code Shared ExecutionResult :=
  match requests with
  | [] => mret SuccessExecutionResult
  | (request, uri_index) :: requests =>
      r ← begin_call (λ s, set_fetch_calls (fetch_calls s ++ [(request, uri_index)]) s);
      if negb (Successful r) then _ ← fail_once r; mret r else fetch_all requests
  end.

Definition ListPrivateKeys : Code Shared ExecutionResult := fetch_all fetch_requests.

Definition initial_status (rs : list ExecutionResult) : Shared :=
  mkShared (replicate endpoint_count_ no_results) [] 0 0 0 false [] [] [] rs.

(** *** Replies *)

Inductive Reply :=
  | FetchReply (i : nat) (result : ExecutionResult) (response : option (list EncryptionKey))
  | DecryptReply (i : nat) (result : ExecutionResult) (response : option string).

Definition reply (s : Shared) (e : Reply) : option (Shared * Code Shared ()) :=
  match e with
  | FetchReply i result response =>
      '(request, uri_index) ← fetch_calls s !! i;
      Some (set_fetch_calls (delete i (fetch_calls s)) s, OnFetchPrivateKeyCallback request result response uri_index)
  | DecryptReply i result response =>
      '(request, k, uri_index) ← decrypt_calls s !! i;
      Some (set_decrypt_calls (delete i (decrypt_calls s)) s, OnDecryptCallback result response (Some k) uri_index)
  end.
End provider.
