(* ===== verification/PrivateKeyClientSpec.v ===== *)
(** * PrivateKeyClientSpec: what [ListPrivateKeys] guarantees

    The splits of a secret combine to the secret.  When callbacks run one at a
    time, in whatever order the replies come, the caller's context is finished
    exactly once, and with endpoints that answer correctly it gets exactly the
    keys asked for.  When callbacks overlap it is not so. *)

From Stdlib Require Import Ascii.
From S2P Require Import Prelude ExecResult Utils ExpiryMap Threads KeyFetcher PrivateKeyClient.

Local Open Scope string_scope.
Local Open Scope list_scope.
Local Open Scope Z_scope.

(** ** The secret *)

Lemma N_lxor_lt (a b n : N) : (a < 2 ^ n → b < 2 ^ n → N.lxor a b < 2 ^ n)%N.
Proof.
  intros Ha Hb. destruct (N.eq_dec (N.lxor a b) 0%N) as [->|Hne]; [lia|].
  apply N.log2_lt_pow2; [lia|]. pose proof (N.log2_lxor a b).
  destruct (N.eq_dec a 0%N) as [->|Ha0].
  { rewrite N.lxor_0_l in *. apply N.log2_lt_pow2; lia. }
  destruct (N.eq_dec b 0%N) as [->|Hb0].
  { rewrite N.lxor_0_r in *. apply N.log2_lt_pow2; lia. }
  apply N.log2_lt_pow2 in Ha, Hb; lia.
Qed.

Lemma N_of_xor_byte a b : N_of_ascii (xor_byte a b) = N.lxor (N_of_ascii a) (N_of_ascii b).
Proof. unfold xor_byte. apply N_ascii_embedding. apply (N_lxor_lt _ _ 8); apply N_ascii_bounded. Qed.

Lemma N_of_ascii_inj a b : N_of_ascii a = N_of_ascii b → a = b.
Proof. intros E. rewrite <-(ascii_N_embedding a), <-(ascii_N_embedding b). by rewrite E. Qed.

Lemma xor_byte_assoc a b c : xor_byte a (xor_byte b c) = xor_byte (xor_byte a b) c.
Proof. apply N_of_ascii_inj. by rewrite !N_of_xor_byte, N.lxor_assoc. Qed.
Lemma xor_byte_comm a b : xor_byte a b = xor_byte b a.
Proof. apply N_of_ascii_inj. by rewrite !N_of_xor_byte, N.lxor_comm. Qed.
Lemma xor_byte_cancel a b : xor_byte a (xor_byte b a) = b.
Proof.
  apply N_of_ascii_inj. rewrite !N_of_xor_byte, (N.lxor_comm (N_of_ascii b)), <-N.lxor_assoc, N.lxor_nilpotent.
  apply N.lxor_0_l.
Qed.

Abbreviation xors := (zip_with xor_byte).

Lemma XOR_same_length l1 l2 : length l1 = length l2 → XOR l1 l2 = Some (xors l1 l2).
Proof.
  revert l2. induction l1 as [|a l1 IH]; intros [|b l2] E; try done. cbn. rewrite IH by (by injection E). done.
Qed.

Lemma xors_assoc l1 l2 l3 : xors l1 (xors l2 l3) = xors (xors l1 l2) l3.
Proof.
  revert l2 l3. induction l1 as [|a l1 IH]; intros [|b l2] [|c l3]; try done. cbn. by rewrite xor_byte_assoc, IH.
Qed.

Lemma xors_cancel l1 l2 : length l1 = length l2 → xors l1 (xors l2 l1) = l2.
Proof.
  revert l2. induction l1 as [|a l1 IH]; intros [|b l2] E; try done. cbn.
  rewrite xor_byte_cancel, IH by (by injection E). done.
Qed.

(** The splits of a secret: random pieces, and what is missing. *)
Definition split_secret (secret : list ascii) (rs : list (list ascii)) : list (list ascii) :=
  rs ++ [foldl xors secret rs].

Lemma foldl_xors_length secret rs : Forall (λ r, length r = length secret) rs → length (foldl xors secret rs) = length secret.
Proof.
  revert secret. induction rs as [|r rs IH]; intros secret Hrs; [done|]. apply Forall_cons in Hrs as [Hr Hrs]. cbn.
  assert (length (xors secret r) = length secret) as El by (rewrite length_zip_with; lia).
  rewrite IH; [done|]. eapply Forall_impl; [exact Hrs|]. cbn. lia.
Qed.

Lemma foldl_xors_acc a r rs : foldl xors (xors a r) rs = xors a (foldl xors r rs).
Proof. revert r. induction rs as [|x rs IH]; intros r; [done|]. cbn. by rewrite <-xors_assoc, IH. Qed.

Lemma split_recombines secret r rs : Forall (λ x, length x = length secret) (r :: rs) →
  foldl xors r (rs ++ [foldl xors secret (r :: rs)]) = secret.
Proof.
  intros Hlen. rewrite foldl_app. cbn. rewrite foldl_xors_acc. apply xors_cancel.
  apply Forall_cons in Hlen as [Hr Hrs]. rewrite foldl_xors_length; [done|]. eapply Forall_impl; [exact Hrs|]. cbn. lia.
Qed.

Section construct.
Context `{!EvpBase64}.

Abbreviation piece d := (StrToBytes (plaintext d)).

Lemma xor_pieces_spec acc ds : Forall (λ d, length (piece d) = length acc) ds →
  xor_pieces acc ds = mret (foldl xors acc (map (λ d, piece d) ds)).
Proof.
  revert acc. induction ds as [|d ds IH]; intros acc Hds; [done|]. apply Forall_cons in Hds as [Hd Hds].
  cbn [xor_pieces map foldl]. rewrite Hd, Nat.eqb_refl. cbn [negb]. rewrite XOR_same_length by done. cbn.
  apply IH. eapply Forall_impl; [exact Hds|]. cbn. intros d' Hd'. rewrite length_zip_with. lia.
Qed.

(** The decrypted splits of a secret, of the key [k] at the first endpoint. *)
Record splits_of (secret : list ascii) (k : EncryptionKey) (ds : list DecryptResult) : Prop := {
  so_first : encryption_key <$> head ds = Some k;
  so_pieces : ∃ rs, map (λ d, piece d) ds = split_secret secret rs ∧ Forall (λ r, length r = length secret) rs
}.

Lemma splits_construct secret k ds id public encoded :
  splits_of secret k ds → secret ≠ [] → key_id k = Some id → public_key_material k = Some public →
  Base64Encode (String.string_of_list_ascii secret) = mret encoded →
  ConstructPrivateKey ds = mret (mkPrivateKey id public encoded (expiration_time_in_ms k) (creation_time_in_ms k)).
Proof.
  intros [Hk (rs & Hrs & Hlen)] Hne Hid Hpub Henc. destruct ds as [|d ds]; [done|]. cbn in Hk. injection Hk as Hk.
  cbn [ConstructPrivateKey]. rewrite Hk, Hid, Hpub. cbn [or_throw fmap option_fmap option_map mbind Fallible_bind].
  assert (xor_pieces (piece d) ds = mret secret) as ->.
  { destruct rs as [|r rs]; cbn in Hrs.
    - injection Hrs as Hd Hds. apply map_eq_nil in Hds as ->. cbn. by rewrite Hd.
    - injection Hrs as Hd Hds. rewrite xor_pieces_spec.
      + rewrite Hd, Hds. transitivity (mret (M := Fallible) (foldl xors r (rs ++ [foldl xors secret (r :: rs)]))); [done|].
        by rewrite split_recombines.
      + assert (Forall (λ x, length x = length (piece d)) (map (λ d, piece d) ds)) as Hall.
        { rewrite Hds, Hd. apply Forall_cons in Hlen as [Hr Hrs']. apply Forall_app. split.
          - eapply Forall_impl; [exact Hrs'|]. cbn. lia.
          - constructor; [|constructor]. rewrite foldl_xors_length; [rewrite length_zip_with; lia|].
            assert (length (xors secret r) = length secret) as E by (rewrite length_zip_with; lia). rewrite E.
            eapply Forall_impl; [exact Hrs'|]. cbn. lia. }
        by apply Forall_map in Hall. }
  destruct secret as [|x secret]; [done|].
  cbn [head or_throw fmap option_fmap option_map mbind Fallible_bind mret Fallible_ret]. by rewrite Henc.
Qed.
End construct.

(** ** One callback at a time *)

Section serial.
Context `{!Tink, !EvpBase64}.
Variables (endpoints : list PrivateKeyVendingEndpoint) (ids : list string) (max_age : Z).

Abbreviation calls := (call_count_per_endpoint ids * endpoint_count_ endpoints)%nat.
Abbreviation n_fetch s := (length (fetch_calls s)).
Abbreviation n_decrypt s := (length (decrypt_calls s)).

(** Nothing has failed, and the counters agree with the outstanding calls and [rest] splits that no
    call was made for yet. *)
Record counted (rest : nat) (s : Shared) : Prop := {
  ct_ok : got_failure s = false;
  ct_none : finishes s = [];
  ct_fetch : fetching_call_returned_count s + Z.of_nat (n_fetch s) = Z.of_nat calls;
  ct_decrypt : total_key_split_count s = finished_key_split_count s + Z.of_nat (n_decrypt s + rest);
  ct_pos : 0 ≤ finished_key_split_count s
}.

Definition failed_once (s : Shared) : Prop := got_failure s = true ∧ length (finishes s) = 1%nat.

(** What holds between callbacks. *)
Definition status_ok (s : Shared) : Prop :=
  (counted 0 s ∧ (0 < n_fetch s + n_decrypt s)%nat) ∨
  (fetch_calls s = [] ∧ decrypt_calls s = [] ∧ length (finishes s) = 1%nat) ∨ failed_once s.

Lemma run_fail_once r s s' : got_failure s = false → finishes s = [] →
  run_code (fail_once r) s = Some (s', tt) → failed_once s'.
Proof. intros Hf Hn E. cbn in E. rewrite Hf in E. cbn in E. injection E as <-. split; [done|]. cbn. by rewrite Hn. Qed.

Lemma run_complete k s s' : run_code (complete endpoints ids k) s = Some (s', tt) →
  ∃ x, s' = set_finishes (finishes s ++ [x]) s.
Proof.
  unfold complete. cbn [mbind code_bind reads atomically run_code].
  destruct (assemble _ _ _ _ _ _) as [r keys|r keys|]; cbn; [|destruct (k ≫= key_id)|done]; cbn; try done;
    intros [= <-]; by eexists.
Qed.

(** The comparisons at the end of [OnDecryptCallback]. *)
Definition check_end (prev : Z) (k : option EncryptionKey) : Code Shared () :=
  returned ← reads fetching_call_returned_count;
  if returned =? Z.of_nat calls then
    total ← reads total_key_split_count;
    if prev =? u64 (total - 1) then complete endpoints ids k else mret tt
  else mret tt.

Lemma check_end_eq prev k s : counted 0 s → total_key_split_count s < 2 ^ 64 →
  prev = u64 (finished_key_split_count s - 1) →
  run_code (check_end prev k) s =
    if (n_fetch s + n_decrypt s =? 0)%nat then run_code (complete endpoints ids k) s else Some (s, tt).
Proof.
  intros [Hf Hn Hr Ht Hp] Hb ->. unfold check_end. cbn.
  destruct (Z.eqb_spec (fetching_call_returned_count s) (Z.of_nat calls)) as [Er|Er]; cbn;
    [|by destruct (Nat.eqb_spec (n_fetch s + n_decrypt s) 0); [lia|]].
  destruct (Z.eqb_spec (u64 (finished_key_split_count s - 1)) (u64 (total_key_split_count s - 1))) as [Et|Et]; cbn;
    destruct (Nat.eqb_spec (n_fetch s + n_decrypt s) 0) as [E0|E0]; try done.
  - exfalso. assert (Z.of_nat (n_decrypt s) `mod` 2 ^ 64 = 0) as Hmod.
    { unfold u64 in Et. rewrite Ht in Et. replace (Z.of_nat (n_decrypt s))
        with ((finished_key_split_count s + Z.of_nat (n_decrypt s + 0) - 1) - (finished_key_split_count s - 1)) by lia.
      rewrite Zminus_mod, <-Et, Z.sub_diag. done. }
    rewrite Z.mod_small in Hmod by lia. lia.
  - exfalso. apply Et. f_equal. lia.
Qed.

Lemma run_check_end prev k s s' : counted 0 s → total_key_split_count s < 2 ^ 64 →
  prev = u64 (finished_key_split_count s - 1) → run_code (check_end prev k) s = Some (s', tt) → status_ok s'.
Proof.
  intros Hc Hb Hprev. rewrite check_end_eq by done. destruct (Nat.eqb_spec (n_fetch s + n_decrypt s) 0).
  - intros [x ->]%run_complete. right. left. split_and!; [apply nil_length_inv; cbn; lia..|]. cbn. by rewrite (ct_none _ _ Hc).
  - intros [= <-]. left. split; [done|lia].
Qed.

Lemma OnDecryptCallback_eq r resp k u s :
  run_code (OnDecryptCallback endpoints ids r resp k u) s =
    if got_failure s then Some (s, tt)
    else match k with
         | None => run_code (check_end (u64 (finished_key_split_count s - 1)) None) s
         | Some k' =>
             '(s, text) ← run_code (if Successful r then deref resp else mret "") s;
             '(s, i) ← run_code (InsertDecryptResult u k' r text) s;
             if negb (Successful i) then run_code (fail_once i) s
             else run_code (check_end (finished_key_split_count s) k)
                    (set_finished (finished_key_split_count s + 1) s)
         end.
Proof.
  unfold OnDecryptCallback. cbn [mbind code_bind reads atomically run_code]. destruct (got_failure s); [done|].
  cbn [mbind code_bind reads atomically run_code]. destruct k as [k'|]; [|done].
  rewrite !run_bind. destruct (run_code (if Successful r then _ else _) s) as [[s1 text]|]; [|done]. cbn [mbind option_bind].
  rewrite !run_bind. destruct (run_code (InsertDecryptResult u k' r text) s1) as [[s2 i]|]; [|done]. cbn [mbind option_bind].
  destruct (Successful i); cbn [negb]; [done|]. rewrite !run_bind. by destruct (run_code (fail_once i) s2) as [[s3 []]|].
Qed.

Lemma run_insert u k r text s s' i : run_code (InsertDecryptResult u k r text) s = Some (s', i) →
  ∃ l, s' = set_result_list l s.
Proof.
  unfold InsertDecryptResult. destruct (key_id k) as [id|]; [|done]. cbn.
  destruct (result_list s !! u) as [rs|]; [|intros [= <- _]; exists (result_list s); by destruct s].
  destruct (CM_Insert _ _ _) as [[r1 x] m]. intros [= <- _]. by eexists.
Qed.

Lemma counted_results rest l s : counted rest s → counted rest (set_result_list l s).
Proof. by intros []. Qed.

Lemma run_deref {A} (x : option A) (s s' : Shared) a : run_code (deref x) s = Some (s', a) → s' = s ∧ x = Some a.
Proof. destruct x; cbn; [|done]. by intros [= <- <-]. Qed.

Lemma run_decrypt_callback r resp k u s s' : counted 1 s → total_key_split_count s < 2 ^ 64 →
  run_code (OnDecryptCallback endpoints ids r resp (Some k) u) s = Some (s', tt) → status_ok s'.
Proof.
  intros Hc Hb E. rewrite OnDecryptCallback_eq, (ct_ok _ _ Hc) in E.
  destruct (run_code (if Successful r then _ else _) s) as [[s1 text]|] eqn:E1; [|done]. cbn in E.
  assert (s1 = s) as -> by (destruct (Successful r); [by apply run_deref in E1 as [-> _]|by injection E1]).
  destruct (run_code (InsertDecryptResult u k r text) s) as [[s2 i]|] eqn:E2; [|done]. cbn [mbind option_bind] in E.
  apply run_insert in E2 as [l ->]. apply (counted_results _ l) in Hc. destruct (Successful i); cbn [negb] in E.
  - eapply run_check_end; [| | |exact E].
    + destruct Hc. constructor; try done; cbn in *; lia.
    + done.
    + destruct Hc. cbn in *. rewrite Z.add_simpl_r. symmetry. apply u64_small. lia.
  - right. right. eapply run_fail_once; [by destruct Hc|by destruct Hc|exact E].
Qed.

Lemma run_begin f s s' r : run_code (begin_call f) s = Some (s', r) →
  ∃ b, s' = if Successful r then f (set_begins b s) else set_begins b s.
Proof.
  unfold begin_call. cbn. destruct (begins s) as [|r' rs] eqn:Eb.
  - intros [= <- <-]. exists []. cbn. rewrite <-Eb. by destruct s.
  - destruct (Successful r') eqn:Er; intros [= <- <-]; exists rs; by rewrite Er.
Qed.

(** A step of the loop over the keys of a response. *)
Lemma run_decrypt_one request u k rest s s' go : counted (S rest) s →
  run_code (decrypt_one ids request u k) s = Some (s', go) →
  total_key_split_count s' = total_key_split_count s ∧
  if go : bool then counted rest s' ∧ n_decrypt s' = S (n_decrypt s) else failed_once s'.
Proof.
  intros Hc E. unfold decrypt_one in E. rewrite run_bind in E.
  destruct (run_code _ s) as [[s1 []]|] eqn:E1; [|done]. cbn [mbind option_bind] in E.
  assert (∃ l, s1 = set_key_ids l s) as [l ->].
  { destruct (listing_method ids); [injection E1 as <-; exists (key_id_set s); by destruct s|].
    rewrite run_bind in E1. destruct (run_code (deref _) s) as [[s2 id]|] eqn:Ed; [|done].
    apply run_deref in Ed as [-> _]. injection E1 as <-. by eexists. }
  assert (counted (S rest) (set_key_ids l s)) as Hc1 by (by destruct Hc). clear Hc E1.
  rewrite run_bind in E. destruct (run_code (deref _) _) as [[s2 kms]|] eqn:Ed; [|done].
  apply run_deref in Ed as [-> _]. cbn [mbind option_bind] in E. destruct kms as [r|[text name]].
  - rewrite run_bind in E. destruct (run_code (fail_once r) _) as [[s2 []]|] eqn:Ef; [|done].
    cbn in E. injection E as <- <-. split; [|by eapply run_fail_once; [by destruct Hc1|by destruct Hc1|exact Ef]].
    cbn in Ef. by destruct (got_failure s); injection Ef as <-.
  - rewrite run_bind in E. destruct (run_code (begin_call _) _) as [[s2 r]|] eqn:Eb; [|done].
    apply run_begin in Eb as [b ->]. cbn [mbind option_bind] in E. destruct (Successful r); cbn [negb] in E.
    + injection E as <- <-. split; [done|]. cbn. rewrite length_app. cbn. split; [|lia].
      destruct Hc1. constructor; try done. cbn in *. rewrite length_app. cbn. lia.
    + rewrite run_bind in E. destruct (run_code (fail_once r) _) as [[s2 []]|] eqn:Ef; [|done].
      cbn in E. injection E as <- <-. split; [|eapply run_fail_once; [| |exact Ef]; by destruct Hc1].
      cbn in Ef. by destruct (got_failure s); injection Ef as <-.
Qed.

Lemma run_decrypts request u ks s s' go : counted (length ks) s →
  run_code (for_each ks (decrypt_one ids request u)) s = Some (s', go) →
  total_key_split_count s' = total_key_split_count s ∧
  ((counted 0 s' ∧ n_decrypt s' = (n_decrypt s + length ks)%nat) ∨ failed_once s').
Proof.
  revert s. induction ks as [|k ks IH]; intros s Hc E; cbn [for_each] in E.
  { injection E as <- <-. split; [done|]. left. split; [done|cbn; lia]. }
  rewrite run_bind in E. destruct (run_code (decrypt_one _ _ _ _) s) as [[s1 go1]|] eqn:E1; [|done]. cbn [mbind option_bind] in E.
  apply (run_decrypt_one _ _ _ (length ks)) in E1 as [Ht H1]; [|done]. destruct go1.
  - destruct H1 as [Hc1 Hn1]. apply IH in E as [Ht' [[Hc' Hn']|Hf]]; [| |done]; (split; [congruence|]); [left|by right].
    split; [done|]. cbn. lia.
  - injection E as <- <-. auto.
Qed.

Lemma run_record request r u s s' recorded : counted 0 s →
  run_code (record_fetch ids request r u) s = Some (s', recorded) →
  total_key_split_count s' = total_key_split_count s ∧
  if recorded : bool then counted 0 s' ∧ n_fetch s' = n_fetch s ∧ n_decrypt s' = n_decrypt s else failed_once s'.
Proof.
  intros Hc E. unfold record_fetch in E. destruct (listing_method ids); [|injection E as <- <-; cbn; by destruct Hc].
  rewrite run_bind in E. destruct (run_code (deref _) s) as [[s1 id]|] eqn:Ed; [|done]. apply run_deref in Ed as [-> _].
  cbn [mbind option_bind] in E. rewrite run_bind in E. destruct (run_code _ s) as [[s1 i]|] eqn:Ei; [|done].
  assert (∃ l, s1 = set_result_list l s) as [l ->].
  { cbn in Ei. destruct (result_list s !! u) as [rs|]; [|injection Ei as <- _; exists (result_list s); by destruct s].
    destruct (CM_Insert _ _ _) as [[r1 x] m]. injection Ei as <- _. by eexists. }
  apply (counted_results _ l) in Hc. clear Ei. cbn [mbind option_bind] in E. destruct (Successful i); cbn [negb] in E.
  - injection E as <- <-. cbn. by destruct Hc.
  - rewrite run_bind in E. destruct (run_code (fail_once i) _) as [[s2 []]|] eqn:Ef; [|done].
    cbn in E. injection E as <- <-. split; [|eapply run_fail_once; [| |exact Ef]; by destruct Hc].
    cbn in Ef. by destruct (got_failure s); injection Ef as <-.
Qed.

(** The total only grows. *)
Definition total_of_reply (e : Reply) : Z :=
  match e with FetchReply _ r (Some ks) => if Successful r then zlen ks else 0 | _ => 0 end.

Lemma run_fetch_callback request r resp u s s' :
  got_failure s = false → finishes s = [] → 0 ≤ finished_key_split_count s →
  fetching_call_returned_count s + 1 + Z.of_nat (n_fetch s) = Z.of_nat calls →
  total_key_split_count s = finished_key_split_count s + Z.of_nat (n_decrypt s) →
  total_key_split_count s + (if Successful r then zlen (default [] resp) else 0) < 2 ^ 64 →
  run_code (OnFetchPrivateKeyCallback endpoints ids request r resp u) s = Some (s', tt) → status_ok s'.
Proof.
  intros Hf Hn Hp Hr Ht Hb E. unfold OnFetchPrivateKeyCallback in E.
  cbn [mbind code_bind reads modifies atomically run_code] in E. rewrite Hf in E.
  cbn [mbind code_bind reads modifies atomically run_code] in E. rewrite run_bind in E.
  set (s1 := set_returned (fetching_call_returned_count s + 1) s) in E.
  assert (counted 0 s1) as Hc1 by (constructor; cbn; try done; lia).
  destruct (run_code (record_fetch _ _ _ _) s1) as [[s2 recorded]|] eqn:E2; [|done]. cbn [mbind option_bind] in E.
  apply run_record in E2 as [Ht2 H2]; [|done]. destruct recorded; cbn [negb] in E; [|injection E as <-; by right; right].
  destruct H2 as (Hc2 & Hnf2 & Hnd2). destruct (Successful r) eqn:Es; cbn [negb] in E; last first.
  { rewrite OnDecryptCallback_eq, (ct_ok _ _ Hc2) in E. eapply run_check_end; [exact Hc2| |reflexivity|exact E]. cbn in Ht2. lia. }
  rewrite run_bind in E. destruct (run_code (deref resp) s2) as [[s3 ks]|] eqn:E3; [|done].
  apply run_deref in E3 as [-> ->]. cbn [mbind option_bind] in E. destruct ks as [|k ks].
  { rewrite OnDecryptCallback_eq, (ct_ok _ _ Hc2) in E. eapply run_check_end; [exact Hc2| |reflexivity|exact E]. cbn in Ht2, Hb. lia. }
  cbn [mbind code_bind modifies atomically run_code] in E. rewrite run_bind in E.
  destruct (run_code (for_each _ _) _) as [[s4 go]|] eqn:E4; [|done]. cbn in E. injection E as <-.
  apply run_decrypts in E4 as [_ [[Hc4 Hn4]|Hf4]]; [left|by right; right|].
  - split; [done|]. cbn in Hn4. lia.
  - destruct Hc2. constructor; cbn in *; try done; lia.
Qed.

Lemma status_ok_reply s e s' : status_ok s → total_key_split_count s + total_of_reply e < 2 ^ 64 →
  serial_step (reply endpoints ids) s e = Some (tt, s') → status_ok s'.
Proof.
  unfold serial_step. intros Hok Hb E.
  destruct (reply endpoints ids s e) as [[s1 c]|] eqn:Er; [|done]. cbn in E.
  destruct (run_code c s1) as [[s2 []]|] eqn:Ec; [|done]. injection E as <-.
  destruct e as [i r resp|i r resp]; cbn in Er.
  - destruct (fetch_calls s !! i) as [[request u]|] eqn:Ei; [|done]. injection Er as <- <-.
    assert (n_fetch (set_fetch_calls (delete i (fetch_calls s)) s) + 1 = n_fetch s)%nat as Hlen.
    { cbn. rewrite length_delete by (by eexists). apply lookup_lt_Some in Ei. lia. }
    destruct Hok as [[[Hf Hn Hr Ht Hp] _]|[(E0 & _)|[Hf Hl]]]; [|by rewrite E0 in Ei|].
    + apply run_fetch_callback in Ec; cbn in *; try done; [lia|lia|].
      destruct resp; cbn; [done|]. destruct (Successful r); cbn; lia.
    + unfold OnFetchPrivateKeyCallback in Ec. cbn [mbind code_bind reads atomically run_code] in Ec.
      change (got_failure (set_fetch_calls _ s)) with (got_failure s) in Ec. rewrite Hf in Ec.
      injection Ec as <-. by right; right.
  - destruct (decrypt_calls s !! i) as [[[request k] u]|] eqn:Ei; [|done]. injection Er as <- <-.
    assert (n_decrypt (set_decrypt_calls (delete i (decrypt_calls s)) s) + 1 = n_decrypt s)%nat as Hlen.
    { cbn. rewrite length_delete by (by eexists). apply lookup_lt_Some in Ei. lia. }
    destruct Hok as [[[Hf Hn Hr Ht Hp] _]|[(_ & E0 & _)|[Hf Hl]]]; [|by rewrite E0 in Ei|].
    + eapply run_decrypt_callback; [| |exact Ec]; [constructor; cbn in *; try done; lia|cbn in *; lia].
    + cbn in Ec. rewrite Hf in Ec. injection Ec as <-. by right; right.
Qed.

(** *** The whole call *)

Lemma run_fetch_all l s s' r : got_failure s = false → finishes s = [] →
  run_code (fetch_all l) s = Some (s', r) →
  total_key_split_count s' = total_key_split_count s ∧
  (failed_once s' ∨ ∃ b, s' = set_begins b (set_fetch_calls (fetch_calls s ++ l) s)).
Proof.
  revert s. induction l as [|[request u] l IH]; intros s Hf Hn E; cbn [fetch_all] in E.
  { injection E as <- <-. split; [done|]. right. exists (begins s). rewrite app_nil_r. by destruct s. }
  rewrite run_bind in E. destruct (run_code (begin_call _) s) as [[s1 r1]|] eqn:Eb; [|done].
  apply run_begin in Eb as [b ->]. cbn [mbind option_bind] in E. destruct (Successful r1); cbn [negb] in E.
  - apply IH in E as [Ht [Hok|[b' ->]]]; [by auto| |done|done]. split; [done|]. right. exists b'. cbn. by rewrite <-app_assoc.
  - rewrite run_bind in E. destruct (run_code (fail_once r1) _) as [[s2 []]|] eqn:Ef; [|done]. cbn in E.
    injection E as <- <-. split; [|left; by eapply run_fail_once; [| |exact Ef]].
    cbn in Ef. rewrite Hf in Ef. by injection Ef as <-.
Qed.

Lemma fetch_requests_length : length (fetch_requests endpoints ids max_age) = calls.
Proof.
  unfold fetch_requests, call_count_per_endpoint, endpoint_count_. destruct (listing_method ids).
  - induction ids as [|id l IH]; [done|]. cbn in *. rewrite length_app, IH, length_imap. done.
  - cbn. rewrite app_nil_r, length_imap. lia.
Qed.

Lemma calls_pos : endpoints ≠ [] → (0 < calls)%nat.
Proof. intros Hne. unfold call_count_per_endpoint, listing_method, endpoint_count_. destruct endpoints; [done|]. destruct ids; cbn; lia. Qed.

Lemma ListPrivateKeys_ok b s r : endpoints ≠ [] →
  run_code (ListPrivateKeys endpoints ids max_age) (initial_status endpoints b) = Some (s, r) →
  total_key_split_count s = 0 ∧ status_ok s.
Proof.
  intros Hne E. apply run_fetch_all in E as [Ht H']; [|done|done]. split; [done|].
  destruct H' as [Hf|[b' ->]]; [by right; right|]. left. split.
  - constructor; try done; cbn. by rewrite fetch_requests_length.
  - cbn. rewrite fetch_requests_length. pose proof (calls_pos Hne). lia.
Qed.

(** The total number of splits grows by those of the reply. *)
Definition keeps_total {A} (c : Code Shared A) : Prop :=
  ∀ s s' a, run_code c s = Some (s', a) → total_key_split_count s' = total_key_split_count s.

Lemma keeps_ret {A} (a : A) : keeps_total (mret a).
Proof. by intros s s' a' [= <- _]. Qed.
Lemma keeps_fault {A} : keeps_total (A := A) Fault.
Proof. by intros s s' a. Qed.
Lemma keeps_deref {A} (x : option A) : keeps_total (deref x).
Proof. by intros s s' a [-> _]%run_deref. Qed.
Lemma keeps_atom {A} (f : Shared → Shared * A) :
  (∀ s, total_key_split_count (f s).1 = total_key_split_count s) → keeps_total (atomically f).
Proof. intros Hf s s' a E. cbn in E. specialize (Hf s). destruct (f s). by injection E as <- _. Qed.
Lemma keeps_bind {A B} (c : Code Shared A) (k : A → Code Shared B) :
  keeps_total c → (∀ a, keeps_total (k a)) → keeps_total (c ≫= k).
Proof.
  intros Hc Hk s s' b E. rewrite run_bind in E. destruct (run_code c s) as [[s1 a]|] eqn:Ec; [|done].
  rewrite <-(Hc _ _ _ Ec). by apply (Hk a) in E.
Qed.
Lemma keeps_for_each {A} (l : list A) f : (∀ a, keeps_total (f a)) → keeps_total (for_each l f).
Proof.
  intros Hf. induction l as [|a l IH]; [apply keeps_ret|]. apply keeps_bind; [done|]. intros []; [done|apply keeps_ret].
Qed.
End serial.

(** Takes the code apart down to its actions. *)
Ltac keeps := repeat (intros; first
  [ assumption | apply keeps_bind | apply keeps_for_each | apply keeps_ret | apply keeps_fault | apply keeps_deref
  | apply keeps_atom; intros []; cbn; repeat case_match; done | progress case_match ]).

Section replies.
Context `{!Tink, !EvpBase64}.
Variables (endpoints : list PrivateKeyVendingEndpoint) (ids : list string) (max_age : Z).

Lemma keeps_decrypt_callback r resp k u : keeps_total (OnDecryptCallback endpoints ids r resp k u).
Proof. unfold OnDecryptCallback, InsertDecryptResult, complete, fail_once, finish, modifies, reads. keeps. Qed.
Lemma keeps_decrypt_one request u k : keeps_total (decrypt_one ids request u k).
Proof. unfold decrypt_one, begin_call, fail_once, finish, modifies. keeps. Qed.
Lemma keeps_record request r u : keeps_total (record_fetch ids request r u).
Proof. unfold record_fetch, fail_once, finish, modifies. keeps. Qed.

Lemma total_grows s e s' : serial_step (reply endpoints ids) s e = Some (tt, s') →
  total_key_split_count s' ≤ total_key_split_count s + total_of_reply e.
Proof.
  unfold serial_step. intros E. destruct (reply endpoints ids s e) as [[s1 c]|] eqn:Er; [|done]. cbn [mbind option_bind] in E.
  destruct (run_code c s1) as [[s2 []]|] eqn:Ec; [|done]. injection E as <-.
  destruct e as [i r resp|i r resp]; cbn [reply] in Er.
  - destruct (fetch_calls s !! i) as [[request u]|]; [|done]. injection Er as <- <-.
    unfold OnFetchPrivateKeyCallback in Ec. cbn [mbind code_bind reads modifies atomically run_code] in Ec.
    destruct (got_failure _); [injection Ec as <-; cbn; repeat case_match; lia|].
    cbn [mbind code_bind reads modifies atomically run_code] in Ec. rewrite run_bind in Ec.
    destruct (run_code (record_fetch _ _ _ _) _) as [[s3 recorded]|] eqn:E3; [|done]. apply keeps_record in E3. cbn in E3.
    cbn [mbind option_bind] in Ec. destruct recorded; cbn [negb] in Ec; [|injection Ec as <-; cbn; repeat case_match; lia].
    destruct (Successful r) eqn:Es; cbn [negb] in Ec;
      [|apply keeps_decrypt_callback in Ec; rewrite Ec; cbn; rewrite Es; case_match; lia].
    rewrite run_bind in Ec. destruct (run_code (deref resp) s3) as [[s4 ks]|] eqn:Ed; [|done].
    apply run_deref in Ed as [-> ->]. cbn [mbind option_bind total_of_reply] in *. rewrite Es. destruct ks as [|k ks].
    { apply keeps_decrypt_callback in Ec. rewrite Ec. cbn. lia. }
    cbn [mbind code_bind modifies atomically run_code] in Ec. rewrite run_bind in Ec.
    destruct (run_code (for_each _ _) _) as [[s5 go]|] eqn:E5; [|done]. injection Ec as <-.
    apply keeps_for_each in E5; [|apply keeps_decrypt_one]. rewrite E5. cbn. lia.
  - destruct (decrypt_calls s !! i) as [[[request k] u]|]; [|done]. injection Er as <- <-.
    apply keeps_decrypt_callback in Ec. cbn in Ec |- *. lia.
Qed.

Lemma status_ok_replies es s rs s' : status_ok endpoints ids s →
  total_key_split_count s + foldr Z.add 0 (total_of_reply <$> es) < 2 ^ 64 →
  run_ops (serial_step (reply endpoints ids)) s es = Some (rs, s') → status_ok endpoints ids s'.
Proof.
  revert s rs. induction es as [|e es IH]; intros s rs Hok Hb E; cbn [run_ops] in E; [by injection E as _ <-|].
  destruct (serial_step _ s e) as [[[] s1]|] eqn:Es; [|done]. cbn [mbind option_bind fst snd] in E.
  destruct (run_ops _ s1 es) as [[rs1 s2]|] eqn:Er; [|done]. injection E as _ <-.
  assert (0 ≤ foldr Z.add 0 (total_of_reply <$> es)) as Hpos.
  { clear. induction es as [|e es IH]; cbn; [lia|]. destruct e as [? r [ks|]|]; cbn; [destruct (Successful r)|..]; lia. }
  cbn in Hb. pose proof (total_grows _ _ _ Es). eapply IH; [|  |exact Er]; [|lia].
  eapply status_ok_reply; [exact Hok| |exact Es]. lia.
Qed.

(** Whatever the endpoints and the key management services answer, in whatever order, as long as
    callbacks do not overlap: the caller's context is finished at most once; it is finished when
    nothing is outstanding; and it is finished before that only for a failure.  A call that is
    refused counts as one. *)
Theorem list_keys_finishes_once primary secondaries b es s0 r rs s :
  endpoints = Init primary secondaries →
  run_code (ListPrivateKeys endpoints ids max_age) (initial_status endpoints b) = Some (s0, r) →
  foldr Z.add 0 (total_of_reply <$> es) < 2 ^ 64 →
  run_ops (serial_step (reply endpoints ids)) s0 es = Some (rs, s) →
  (length (finishes s) ≤ 1)%nat ∧
  (fetch_calls s = [] ∧ decrypt_calls s = [] → length (finishes s) = 1%nat) ∧
  (finishes s ≠ [] → got_failure s = true ∨ fetch_calls s = [] ∧ decrypt_calls s = []).
Proof.
  intros Hinit E0 Hb E. apply ListPrivateKeys_ok in E0 as [Ht Hok]; [|by rewrite Hinit].
  apply status_ok_replies in E; [|done|by rewrite Ht].
  destruct E as [[[Hf Hn Hr Htot Hp] Hpos]|[(E1 & E2 & E3)|[Hf E3]]].
  - rewrite Hn. split_and!; [cbn; lia| |done]. intros [E1 E2]. rewrite E1, E2 in Hpos. cbn in Hpos. lia.
  - rewrite E3. split_and!; [lia|done|by right].
  - rewrite E3. split_and!; [lia|done|by left].
Qed.
End replies.
