(* ===== verification/PrivateKeyClientRuns.v ===== *)
(** * PrivateKeyClientRuns: runs of [ListPrivateKeys]

    With endpoints and key management services that answer correctly, one
    callback at a time and in any order, the call ends and the caller gets
    exactly the keys, in the order of their ids.  Runs whose callbacks overlap,
    or whose endpoints disagree, show what can go wrong. *)

From Stdlib Require Import Ascii Sorted.
From Stdlib Require OrdersEx.
From S2P Require Import Prelude ExecResult Utils ExpiryMap Threads KeyFetcher PrivateKeyClient PrivateKeyClientSpec.

Local Open Scope string_scope.
Local Open Scope list_scope.
Local Open Scope Z_scope.

(** ** The set of ids *)

Definition string_lt : string → string → Prop := OrdersEx.String_as_OT.lt.

Lemma string_lt_compare x y : string_lt x y ↔ String.compare x y = Lt.
Proof. done. Qed.

#[global] Instance string_lt_trans : Transitive string_lt.
Proof. apply OrdersEx.String_as_OT.lt_strorder. Qed.
#[global] Instance string_lt_irreflexive : Irreflexive string_lt.
Proof. apply OrdersEx.String_as_OT.lt_strorder. Qed.

Lemma elem_of_set_insert x y l : x ∈ set_insert y l ↔ x = y ∨ x ∈ l.
Proof.
  induction l as [|z l IH]; cbn; [set_solver|]. destruct (String.compare y z) eqn:E; [|set_solver..].
  apply String.compare_eq_iff in E as ->. set_solver.
Qed.

Lemma set_insert_sorted x l : StronglySorted string_lt l → StronglySorted string_lt (set_insert x l).
Proof.
  induction 1 as [|y l Hl IH Hy]; cbn; [repeat constructor|]. destruct (String.compare x y) eqn:E.
  - by constructor.
  - constructor; [by constructor|]. constructor; [done|]. eapply Forall_impl; [exact Hy|]. cbn. intros z Hz. by etransitivity.
  - constructor; [done|]. apply Forall_forall. intros z [->|Hz]%elem_of_set_insert.
    + apply string_lt_compare. rewrite String.compare_antisym, E. done.
    + by eapply Forall_forall in Hy.
Qed.

Lemma sorted_NoDup l : StronglySorted string_lt l → NoDup l.
Proof.
  induction 1 as [|y l Hl IH Hy]; constructor; [|done]. intros Hin. eapply Forall_forall in Hy; [|exact Hin].
  by apply irreflexivity in Hy; [|apply _].
Qed.

Definition set_inserts (l : list string) (set : list string) : list string := foldl (flip set_insert) set l.

Lemma elem_of_set_inserts x l set : x ∈ set_inserts l set ↔ x ∈ l ∨ x ∈ set.
Proof.
  revert set. induction l as [|y l IH]; intros set; cbn; [set_solver|]. fold (set_inserts l (set_insert y set)).
  rewrite IH. cbn. rewrite elem_of_set_insert. set_solver.
Qed.

Lemma set_inserts_sorted l set : StronglySorted string_lt set → StronglySorted string_lt (set_inserts l set).
Proof. revert set. induction l as [|y l IH]; intros set Hs; [done|]. by apply IH, set_insert_sorted. Qed.

(** ** Endpoints that answer correctly *)

Section honest.
Context `{!Tink, !EvpBase64}.
(** The caller's request, and: the ids of the keys it is for, each endpoint's part of a key and the
    order it lists them in, what each key management service decrypts, the secrets. *)
Variables (primary : PrivateKeyVendingEndpoint) (secondaries : list PrivateKeyVendingEndpoint)
  (key_ids : list string) (max_age : Z).
Variables (ids : list string) (listing : nat → list string) (key_at : nat → string → EncryptionKey)
  (plain : nat → string → string) (secret : string → list ascii) (public encoded : string → string).

Abbreviation endpoints := (Init primary secondaries).
Abbreviation n := (endpoint_count_ endpoints).

Record honest : Prop := {
  h_ids : NoDup ids;
  h_some : ids ≠ [];
  h_request : key_ids = ids ∨ key_ids = [];
  h_listing u : listing u ≡ₚ ids;
  h_id u id : key_id (key_at u id) = Some id;
  h_type u id : encryption_key_type (key_at u id) = kMultiPartyHybridEvenKeysplit;
  h_splits u id : length (key_data (key_at u id)) = n;
  h_kms u id : ∃ x, GetKmsDecryptRequest (key_at u id) = Some (HasValue x);
  h_public id : public_key_material (key_at 0 id) = Some (public id);
  h_secret id : secret id ≠ [];
  h_plain id : ∃ rs, map (λ u, StrToBytes (plain u id)) (seq 0 n) = split_secret (secret id) rs ∧
    Forall (λ r, length r = length (secret id)) rs;
  h_encoded id : Base64Encode (String.string_of_list_ascii (secret id)) = mret (encoded id);
  h_bound : Z.of_nat (n * length ids) < 2 ^ 64
}.

(** The key that the caller is to get. *)
Definition whole_key (id : string) : PrivateKey :=
  mkPrivateKey id (public id) (encoded id) (expiration_time_in_ms (key_at 0 id)) (creation_time_in_ms (key_at 0 id)).

Definition listed (request : PrivateKeyFetchingRequest) (u : nat) : list string :=
  match request_key_id request with Some id => [id] | None => listing u end.

(** The reply to one of the outstanding calls, the [c]-th modulo their number. *)
Definition honest_reply (s : Shared) (c : nat) : option Reply :=
  let i := (c `mod` (length (fetch_calls s) + length (decrypt_calls s)))%nat in
  match fetch_calls s !! i with
  | Some (request, u) => Some (FetchReply i SuccessExecutionResult (Some (key_at u <$> listed request u)))
  | None =>
      let j := (i - length (fetch_calls s))%nat in
      '(_, k, u) ← decrypt_calls s !! j;
      id ← key_id k;
      Some (DecryptReply j SuccessExecutionResult (Some (plain u id)))
  end.

Definition honest_step (s : Shared) (c : nat) : option (() * Shared) :=
  e ← honest_reply s c; serial_step (reply endpoints key_ids) s e.

(** *** Invariant *)

(** The splits that are not fetched, or not decrypted. *)
Definition pending (s : Shared) : list (nat * string) :=
  '(request, u) ← fetch_calls s; (u,.) <$> listed request u.
Definition decrypting (s : Shared) : list (nat * string) :=
  (λ '(_, k, u), (u, default "" (key_id k))) <$> decrypt_calls s.

Definition decrypted (u : nat) (id : string) : DecryptResult :=
  mkDecryptResult SuccessExecutionResult (key_at u id) (plain u id).

Record endpoint_ok (s : Shared) (u : nat) (rs : KeysResultPerEndpoint) : Prop := {
  eo_result : fetch_result rs = SuccessExecutionResult;
  eo_fetch id r : fetch_result_key_id_map rs !! id = Some r → r = SuccessExecutionResult ∧ (u, id) ∉ pending s;
  eo_none id : (u, id) ∈ pending s ++ decrypting s → decrypt_result_key_id_map rs !! id = None;
  eo_some id : id ∈ ids → (u, id) ∉ pending s ++ decrypting s →
    decrypt_result_key_id_map rs !! id = Some (decrypted u id)
}.

Record collecting (s : Shared) : Prop := {
  co_counted : counted endpoints key_ids 0 s;
  co_total : (Z.to_nat (total_key_split_count s) + length (pending s) = n * length ids)%nat;
  co_begins : begins s = [];
  co_length : length (result_list s) = n;
  co_fetch request u : (request, u) ∈ fetch_calls s →
    (u < n)%nat ∧ match listing_method key_ids with
                  | kByKeyId => ∃ id, id ∈ ids ∧ request_key_id request = Some id
                  | kByMaxAge => request_key_id request = None
                  end;
  co_decrypt d k u : (d, k, u) ∈ decrypt_calls s → (u < n)%nat ∧ ∃ id, id ∈ ids ∧ k = key_at u id;
  co_nodup : NoDup (pending s ++ decrypting s);
  co_results u rs : result_list s !! u = Some rs → endpoint_ok s u rs;
  co_sorted : StronglySorted string_lt (key_id_set s);
  co_seen id : id ∈ key_id_set s ↔ id ∈ ids ∧ ∃ u, (u < n)%nat ∧ (u, id) ∉ pending s
}.

Hypothesis Hh : honest.

(** *** The end *)

(** An endpoint's results of a key when everything has come. *)
Definition key_there (id : string) (u : nat) (rs : KeysResultPerEndpoint) : Prop :=
  fetch_result rs = SuccessExecutionResult ∧
  (∀ r, fetch_result_key_id_map rs !! id = Some r → r = SuccessExecutionResult) ∧
  decrypt_result_key_id_map rs !! id = Some (decrypted u id).

Abbreviation all_there id off rss := (∀ u rs, rss !! u = Some rs → key_there id (off + u) rs).

Lemma all_there_cons id off rs rss : all_there id off (rs :: rss) → key_there id off rs ∧ all_there id (S off) rss.
Proof.
  intros Hall. split.
  - specialize (Hall 0%nat rs eq_refl). by rewrite Nat.add_0_r in Hall.
  - intros u r Hr. specialize (Hall (S u) r Hr). by rewrite Nat.add_succ_comm.
Qed.

Lemma no_single_party id off rss : all_there id off rss → ExtractSinglePartyKey rss id = None.
Proof.
  revert off. induction rss as [|rs rss IH]; intros off Hall; [done|]. apply all_there_cons in Hall as [(_ & _ & Hd) Hall].
  cbn. unfold CM_Find. rewrite Hd. cbn. rewrite (h_type Hh). by apply IH in Hall.
Qed.

Lemma no_failure id off rss : all_there id off rss → ExtractAnyFailure rss id = SuccessExecutionResult.
Proof.
  revert off. induction rss as [|rs rss IH]; intros off Hall; [done|]. apply all_there_cons in Hall as [(Hr & Hf & Hd) Hall].
  cbn [ExtractAnyFailure]. unfold CM_Find. rewrite Hd, Hr.
  destruct (fetch_result_key_id_map rs !! id) as [r|] eqn:E; [rewrite (Hf r eq_refl)|]; cbn; by eapply IH.
Qed.

Lemma all_splits id off rss : all_there id off rss →
  collect_splits endpoints rss id = Some ((λ u, decrypted u id) <$> seq off (length rss)).
Proof.
  revert off. induction rss as [|rs rss IH]; intros off Hall; [done|]. apply all_there_cons in Hall as [(_ & _ & Hd) Hall].
  cbn [collect_splits length seq]. unfold CM_Find. rewrite Hd. cbn [snd encryption_key decrypted].
  rewrite (h_splits Hh), Nat.eqb_refl, (IH (S off)) by done. done.
Qed.

Lemma construct_whole id : ConstructPrivateKey ((λ u, decrypted u id) <$> seq 0 n) = mret (whole_key id).
Proof.
  destruct (h_plain Hh id) as (rs & Hrs & Hlen).
  apply (splits_construct (secret id)); [|by apply h_secret|by apply h_id|by apply h_public|by apply h_encoded].
  constructor; [done|]. exists rs. split; [|done]. rewrite <-Hrs. apply map_map.
Qed.

Lemma assemble_whole rss k l acc : length rss = n → (∀ id, id ∈ l → all_there id 0 rss) →
  assemble endpoints key_ids rss k l acc = Finishes SuccessExecutionResult (acc ++ (whole_key <$> l)).
Proof.
  intros Hlen. revert acc. induction l as [|id l IH]; intros acc Hall; [by rewrite app_nil_r|].
  cbn [assemble fmap list_fmap]. assert (all_there id 0 rss) as Hid by (apply Hall; set_solver).
  rewrite (no_single_party id 0), (no_failure id 0), (all_splits id 0), Hlen, construct_whole by done. cbn.
  rewrite IH by (intros; apply Hall; set_solver). by rewrite <-app_assoc.
Qed.

Lemma complete_whole s k : collecting s → fetch_calls s = [] → decrypt_calls s = [] →
  ∃ l, l ≡ₚ ids ∧ StronglySorted string_lt l ∧
    run_code (complete endpoints key_ids k) s =
      Some (set_finishes [(SuccessExecutionResult, Some (whole_key <$> l))] s, tt).
Proof.
  intros Hc Ef Ed. assert (pending s = []) as Ep by (unfold pending; by rewrite Ef).
  assert (decrypting s = []) as Eg by (unfold decrypting; by rewrite Ed).
  assert (∀ id, id ∈ key_id_set s ↔ id ∈ ids) as Hids.
  { intros id. rewrite (co_seen _ Hc), Ep. split; [by intros []|]. intros Hid. split; [done|].
    exists 0%nat. split; [cbn; lia|set_solver]. }
  exists (key_id_set s). split_and!; [|apply Hc|].
  - apply NoDup_Permutation; [apply sorted_NoDup, Hc|apply Hh|done].
  - unfold complete. cbn [mbind code_bind reads atomically run_code].
    rewrite assemble_whole.
    + cbn. by rewrite (ct_none _ _ _ _ (co_counted _ Hc)).
    + apply Hc.
    + intros id Hid%Hids u rs Hrs. destruct (co_results _ Hc _ _ Hrs) as [H1 H2 _ H4]. split_and!; [done| |].
      * intros r Hr. by apply (H2 id).
      * apply H4; [done|]. rewrite Ep, Eg. set_solver.
Qed.

(** *** A fetch that returns *)

Record refetched (request : PrivateKeyFetchingRequest) (u v : nat) (rs0 rs : KeysResultPerEndpoint) : Prop := {
  rf_decrypt : decrypt_result_key_id_map rs = decrypt_result_key_id_map rs0;
  rf_result : fetch_result rs0 = SuccessExecutionResult → fetch_result rs = SuccessExecutionResult;
  rf_fetch id r : fetch_result_key_id_map rs !! id = Some r →
    fetch_result_key_id_map rs0 !! id = Some r ∨ v = u ∧ request_key_id request = Some id ∧ r = SuccessExecutionResult
}.

Lemma refetched_alter request u f (rss : list KeysResultPerEndpoint) rs0 :
  rss !! u = Some rs0 → refetched request u u rs0 (f rs0) →
  ∀ v rs, alter f u rss !! v = Some rs → ∃ rs0, rss !! v = Some rs0 ∧ refetched request u v rs0 rs.
Proof.
  intros Hu Hf v rs Hv. destruct (decide (u = v)) as [<-|Hne].
  - rewrite list_lookup_alter_eq, Hu in Hv. injection Hv as <-. eauto.
  - rewrite list_lookup_alter_ne in Hv by done. exists rs. split; [done|]. by constructor; auto.
Qed.

(** Where the ids of a request by id go. *)
Definition ids_of_request (request : PrivateKeyFetchingRequest) : list string := option_list (request_key_id request).

Lemma run_record_honest request u rs0 s :
  match listing_method key_ids with
  | kByKeyId => ∃ id, request_key_id request = Some id ∧ fetch_result_key_id_map rs0 !! id = None
  | kByMaxAge => request_key_id request = None
  end →
  result_list s !! u = Some rs0 →
  ∃ rl, run_code (record_fetch key_ids request SuccessExecutionResult u) s =
      Some (set_key_ids (set_inserts (ids_of_request request) (key_id_set s)) (set_result_list rl s), true) ∧
    length rl = length (result_list s) ∧
    ∀ v rs, rl !! v = Some rs → ∃ rs0, result_list s !! v = Some rs0 ∧ refetched request u v rs0 rs.
Proof.
  intros Hreq Hu. unfold record_fetch, ids_of_request. destruct (listing_method key_ids).
  - destruct Hreq as (id & Hid & Hnone). rewrite Hid. cbn. rewrite Hu. unfold CM_Insert. rewrite Hnone. cbn.
    eexists. split_and!; [reflexivity|apply length_alter|]. apply (refetched_alter _ _ _ _ rs0); [done|].
    constructor; [done|done|]. cbn. intros id' r [[<- <-]|[_ ?]]%lookup_insert_Some; auto.
  - rewrite Hreq. cbn. exists (result_list (at_endpoint u (λ rs,
      mkKeysResult (fetch_result_key_id_map rs) SuccessExecutionResult (decrypt_result_key_id_map rs)) s)).
    split_and!; [by destruct s|apply length_alter|].
    apply (refetched_alter _ _ _ _ rs0); [done|]. constructor; auto.
Qed.

Definition decrypt_request (request : PrivateKeyFetchingRequest) (u : nat) (id : string) : DecryptRequest * EncryptionKey * nat :=
  let '(text, name) := match GetKmsDecryptRequest (key_at u id) with Some (HasValue x) => x | _ => (EmptyString, EmptyString) end in
  let e := key_vending_endpoint request in
  (mkDecryptRequest text name (account_identity e) (service_region e) (gcp_wip_provider e), key_at u id, u).

Lemma run_decrypts_honest request u l s : begins s = [] →
  run_code (for_each (key_at u <$> l) (decrypt_one key_ids request u)) s =
    Some (set_key_ids (match listing_method key_ids with kByMaxAge => set_inserts l (key_id_set s) | _ => key_id_set s end)
            (set_decrypt_calls (decrypt_calls s ++ (decrypt_request request u <$> l)) s), true).
Proof.
  revert s. induction l as [|id l IH]; intros s Hb.
  { cbn. rewrite app_nil_r. by destruct s, (listing_method key_ids). }
  cbn [fmap list_fmap for_each]. rewrite run_bind.
  destruct (h_kms Hh u id) as [[text name] Hkms].
  assert (run_code (decrypt_one key_ids request u (key_at u id)) s =
    Some (set_key_ids (match listing_method key_ids with kByMaxAge => set_insert id (key_id_set s) | _ => key_id_set s end)
            (set_decrypt_calls (decrypt_calls s ++ [decrypt_request request u id]) s), true)) as ->.
  { unfold decrypt_one, decrypt_request. rewrite Hkms, (h_id Hh). destruct s. cbn in Hb. subst.
    by destruct (listing_method key_ids). }
  cbn [mbind option_bind]. rewrite IH by done. cbn. rewrite <-app_assoc. by destruct (listing_method key_ids).
Qed.

Lemma key_ids_by_id : listing_method key_ids = kByKeyId → key_ids = ids.
Proof. destruct (h_request Hh) as [->| ->]; [done|]. by destruct ids. Qed.

Lemma run_fetch_honest s i request u : collecting s → fetch_calls s !! i = Some (request, u) →
  ∃ rl, run_code (OnFetchPrivateKeyCallback endpoints key_ids request SuccessExecutionResult
                    (Some (key_at u <$> listed request u)) u) (set_fetch_calls (delete i (fetch_calls s)) s) =
      Some (mkShared rl (set_inserts (listed request u) (key_id_set s))
              (total_key_split_count s + zlen (listed request u)) (finished_key_split_count s)
              (fetching_call_returned_count s + 1) false [] (delete i (fetch_calls s))
              (decrypt_calls s ++ (decrypt_request request u <$> listed request u)) [], tt) ∧
    length rl = length (result_list s) ∧
    ∀ v rs, rl !! v = Some rs → ∃ rs0, result_list s !! v = Some rs0 ∧ refetched request u v rs0 rs.
Proof.
  intros Hc Hi. assert (Hin : (request, u) ∈ fetch_calls s) by (by eapply list_elem_of_lookup_2).
  destruct (co_fetch _ Hc _ _ Hin) as [Hu Hreq].
  destruct (lookup_lt_is_Some_2 (result_list s) u) as [rs0 Hrs0]; [by rewrite (co_length _ Hc)|].
  set (s1 := set_returned (fetching_call_returned_count s + 1) (set_fetch_calls (delete i (fetch_calls s)) s)).
  assert (Hreq' : match listing_method key_ids with
    | kByKeyId => ∃ id, request_key_id request = Some id ∧ fetch_result_key_id_map rs0 !! id = None
    | kByMaxAge => request_key_id request = None end).
  { destruct (listing_method key_ids); [|done]. destruct Hreq as (id & Hid & E). exists id. split; [done|].
    destruct (fetch_result_key_id_map rs0 !! id) as [r|] eqn:Er; [|done]. exfalso.
    apply (eo_fetch _ _ _ (co_results _ Hc _ _ Hrs0)) in Er as [_ Hnot]. apply Hnot. unfold pending.
    apply list_elem_of_bind. exists (request, u). split; [|done]. unfold listed. rewrite E. set_solver. }
  destruct (run_record_honest request u rs0 s1 Hreq' Hrs0) as (rl & Erun & Hlen & Hrf).
  exists rl. split; [|done]. unfold OnFetchPrivateKeyCallback.
  destruct (co_counted _ Hc) as [Hgf Hfin _ _ _]. pose proof (co_begins _ Hc) as Hb.
  cbn [mbind code_bind reads modifies atomically run_code].
  change (got_failure (set_fetch_calls _ s)) with (got_failure s). rewrite Hgf.
  cbn [mbind code_bind reads modifies atomically run_code]. rewrite run_bind. change (set_returned _ (set_fetch_calls _ s)) with s1. rewrite Erun.
  cbn [mbind option_bind negb Successful]. change (Successful SuccessExecutionResult) with true. cbn [negb].
  rewrite run_bind. cbn [deref run_code mbind option_bind].
  destruct (key_at u <$> listed request u) as [|k ks] eqn:Ek.
  { exfalso. apply fmap_nil_inv in Ek. unfold listed in Ek. destruct (request_key_id request); [done|].
    pose proof (h_listing Hh u) as Hp. rewrite Ek in Hp. apply Permutation_nil_l in Hp. by apply (h_some Hh). }
  cbn [mbind code_bind modifies atomically run_code]. rewrite <-Ek, run_bind, run_decrypts_honest by done.
  unfold s1, set_key_ids, set_decrypt_calls, set_total, set_result_list, set_returned, set_fetch_calls. cbn. rewrite Hgf, Hfin, Hb, length_fmap. unfold listed, ids_of_request in *.
  destruct (listing_method key_ids); [destruct Hreq' as (id & -> & _)|rewrite Hreq']; done.
Qed.

Lemma listed_in_ids s request u id : collecting s → (request, u) ∈ fetch_calls s → id ∈ listed request u → id ∈ ids.
Proof.
  intros Hc Hin Hid. destruct (co_fetch _ Hc _ _ Hin) as [_ Hreq]. unfold listed in Hid. destruct (listing_method key_ids).
  - destruct Hreq as (id' & Hin' & E). rewrite E in Hid. set_solver.
  - rewrite Hreq in Hid. by rewrite (h_listing Hh u) in Hid.
Qed.

(** The splits of a fetch that returns move to those being decrypted. *)
Lemma collecting_fetch s i request u rl : collecting s → fetch_calls s !! i = Some (request, u) →
  length rl = length (result_list s) →
  (∀ v rs, rl !! v = Some rs → ∃ rs0, result_list s !! v = Some rs0 ∧ refetched request u v rs0 rs) →
  collecting (mkShared rl (set_inserts (listed request u) (key_id_set s))
              (total_key_split_count s + zlen (listed request u)) (finished_key_split_count s)
              (fetching_call_returned_count s + 1) false [] (delete i (fetch_calls s))
              (decrypt_calls s ++ (decrypt_request request u <$> listed request u)) []).
Proof.
  intros Hc Hi Hlen Hrf. set (l := listed request u). set (s' := mkShared _ _ _ _ _ _ _ _ _ _).
  assert (Hin : (request, u) ∈ fetch_calls s) by (by eapply list_elem_of_lookup_2).
  assert (Hp : pending s ≡ₚ ((u,.) <$> l) ++ pending s').
  { unfold pending. rewrite (delete_Permutation _ _ _ Hi). done. }
  assert (Hd : decrypting s' = decrypting s ++ ((u,.) <$> l)).
  { unfold decrypting, s'. cbn. rewrite fmap_app. f_equal. rewrite <-list_fmap_compose. apply list_fmap_ext.
    intros j id _. unfold compose, decrypt_request. destruct (match GetKmsDecryptRequest _ with Some _ => _ | None => _ end) as [text name].
    cbn. by rewrite (h_id Hh). }
  assert (Hpd : pending s' ++ decrypting s' ≡ₚ pending s ++ decrypting s).
  { rewrite Hd, Hp. solve_Permutation. }
  assert (Hnd : NoDup (pending s)) by (pose proof (co_nodup _ Hc) as H'; by apply NoDup_app in H' as (? & _)).
  rewrite Hp in Hnd. apply NoDup_app in Hnd as (_ & Hnd & _).
  assert (Hpl : length (pending s) = (length l + length (pending s'))%nat) by (by rewrite Hp, length_app, length_fmap).
  assert (length (delete i (fetch_calls s)) + 1 = length (fetch_calls s))%nat as Hdl.
  { rewrite length_delete by eauto. apply lookup_lt_Some in Hi. lia. }
  destruct Hc as [[H1 H2 H3 H4 H5] H6 H7 H8 H9 H10 H11 H12 H13 H14].
  constructor; try done.
  - constructor; unfold s'; cbn [fetching_call_returned_count fetch_calls total_key_split_count finished_key_split_count decrypt_calls];
      rewrite ?length_app, ?length_fmap; fold l; try done; lia.
  - cbn [total_key_split_count s']. lia.
  - by transitivity (length (result_list s)).
  - intros rq v [j Hj]%list_elem_of_lookup. apply H9. cbn in Hj. rewrite (delete_Permutation _ _ _ Hi).
    right. by eapply list_elem_of_lookup_2.
  - intros d k v [Hold|(id & E & Hid)%list_elem_of_fmap]%elem_of_app; [by eapply H10|].
    unfold decrypt_request in E. case_match. injection E as -> -> ->. split; [by eapply H9|]. exists id. split; [|done].
    eapply listed_in_ids; [by constructor|done|done].
  - by rewrite Hpd.
  - intros v rs (rs0 & Hrs0 & [E1 E2 E3])%Hrf. destruct (H12 _ _ Hrs0) as [F1 F2 F3 F4]. constructor.
    + auto.
    + intros id r [Hold|(-> & Eid & ->)]%E3.
      * apply F2 in Hold as [-> Hnot]. split; [done|]. rewrite Hp in Hnot. set_solver.
      * split; [done|]. apply Hnd. unfold l, listed. rewrite Eid. set_solver.
    + intros id. rewrite Hpd, E1. apply F3.
    + intros id. rewrite Hpd, E1. apply F4.
  - by apply set_inserts_sorted.
  - intros id. cbn. rewrite elem_of_set_inserts, H14. split.
    + intros [Hid|(Hid & v & Hv & Hnot)].
      * split; [by eapply listed_in_ids; [by constructor|..]|]. exists u. split; [by eapply H9|]. apply Hnd. set_solver.
      * split; [done|]. exists v. split; [done|]. rewrite Hp in Hnot. set_solver.
    + intros (Hid & v & Hv & Hnot). destruct (decide ((v, id) ∈ pending s)) as [Hin'|Hnot']; [left|right; eauto].
      rewrite Hp in Hin'. set_solver.
Qed.

(** *** A split that is decrypted *)

Definition insert_split (u : nat) (id : string) (s : Shared) : Shared :=
  at_endpoint u (λ rs, mkKeysResult (fetch_result_key_id_map rs) (fetch_result rs)
    (<[id := decrypted u id]> (decrypt_result_key_id_map rs))) s.

(** The state when the callback compares its counters. *)
Definition after_decrypt (j u : nat) (id : string) (s : Shared) : Shared :=
  set_finished (finished_key_split_count s + 1) (insert_split u id (set_decrypt_calls (delete j (decrypt_calls s)) s)).

Lemma collecting_decrypt s j d u id : collecting s → decrypt_calls s !! j = Some (d, key_at u id, u) →
  collecting (after_decrypt j u id s).
Proof.
  intros Hc Hj. set (s' := after_decrypt j u id s).
  assert (Hp : pending s' = pending s) by done.
  assert (Hd : decrypting s ≡ₚ (u, id) :: decrypting s').
  { unfold decrypting. rewrite (delete_Permutation _ _ _ Hj), fmap_cons, (h_id Hh). done. }
  pose proof (co_nodup _ Hc) as Hnd. rewrite Hd, <-Permutation_middle in Hnd. apply NoDup_cons in Hnd as [Hnot Hnd].
  assert (length (delete j (decrypt_calls s)) + 1 = length (decrypt_calls s))%nat as Hdl.
  { rewrite length_delete by eauto. apply lookup_lt_Some in Hj. lia. }
  assert (Hid : id ∈ ids).
  { destruct (co_decrypt _ Hc d (key_at u id) u) as (_ & id' & Hid' & E); [by eapply list_elem_of_lookup_2|].
    apply (f_equal key_id) in E. rewrite !(h_id Hh) in E. by injection E as ->. }
  destruct Hc as [[H1 H2 H3 H4 H5] H6 H7 H8 H9 H10 H11 H12 H13 H14]. constructor; try done.
  - constructor; unfold s', after_decrypt; cbn [fetching_call_returned_count fetch_calls total_key_split_count finished_key_split_count
      decrypt_calls set_finished insert_split at_endpoint set_result_list set_decrypt_calls]; try done; lia.
  - unfold s'. cbn. by rewrite length_alter.
  - intros d' k v [m Hm]%list_elem_of_lookup. apply (H10 d'). cbn in Hm. rewrite (delete_Permutation _ _ _ Hj).
    right. by eapply list_elem_of_lookup_2.
  - assert (∀ v x, (v, x) ∈ pending s ++ decrypting s ↔ (v, x) = (u, id) ∨ (v, x) ∈ pending s' ++ decrypting s') as Hmem.
    { intros v x. rewrite Hp, Hd. set_solver. }
    intros v rs Hv. unfold s' in Hv. cbn in Hv. destruct (decide (u = v)) as [<-|Hne].
    + rewrite list_lookup_alter_eq in Hv. destruct (result_list s !! u) as [rs0|] eqn:E; [|done]. injection Hv as <-.
      destruct (H12 _ _ E) as [F1 F2 F3 F4]. constructor; cbn; [exact F1|exact F2|..].
      * intros x Hx. rewrite lookup_insert_ne by (intros ->; done). apply F3, Hmem. by right.
      * intros x Hx Hnx. destruct (decide (id = x)) as [<-|Hx']; [by rewrite lookup_insert_eq|].
        rewrite lookup_insert_ne by done. apply F4; [done|]. rewrite Hmem. naive_solver.
    + rewrite list_lookup_alter_ne in Hv by done. destruct (H12 _ _ Hv) as [F1 F2 F3 F4]. constructor; [exact F1|exact F2|..].
      * intros x Hx. apply F3, Hmem. by right.
      * intros x Hx Hnx. apply F4; [done|]. rewrite Hmem. naive_solver.
Qed.

Lemma run_decrypt_honest s j d u id : collecting s → decrypt_calls s !! j = Some (d, key_at u id, u) →
  let s' := after_decrypt j u id s in
  run_code (OnDecryptCallback endpoints key_ids SuccessExecutionResult (Some (plain u id)) (Some (key_at u id)) u)
      (set_decrypt_calls (delete j (decrypt_calls s)) s) =
    if (length (fetch_calls s') + length (decrypt_calls s') =? 0)%nat
    then run_code (complete endpoints key_ids (Some (key_at u id))) s' else Some (s', tt).
Proof.
  intros Hc Hj s'. assert (Hc' : collecting s') by by eapply collecting_decrypt.
  destruct (co_counted _ Hc) as [Hgf _ _ _ Hpos]. rewrite OnDecryptCallback_eq.
  change (got_failure (set_decrypt_calls _ s)) with (got_failure s). rewrite Hgf. cbn [Successful mbind option_bind].
  change (Successful SuccessExecutionResult) with true. cbn [deref run_code mbind option_bind].
  assert (Hin : (d, key_at u id, u) ∈ decrypt_calls s) by (by eapply list_elem_of_lookup_2).
  destruct (co_decrypt _ Hc _ _ _ Hin) as [Hu _].
  destruct (lookup_lt_is_Some_2 (result_list s) u) as [rs0 Hrs0]; [by rewrite (co_length _ Hc)|].
  assert (Hnone : decrypt_result_key_id_map rs0 !! id = None).
  { apply (eo_none _ _ _ (co_results _ Hc _ _ Hrs0)). apply elem_of_app. right.
    apply list_elem_of_fmap. exists (d, key_at u id, u). by rewrite (h_id Hh). }
  assert (run_code (InsertDecryptResult u (key_at u id) SuccessExecutionResult (plain u id))
    (set_decrypt_calls (delete j (decrypt_calls s)) s) =
      Some (insert_split u id (set_decrypt_calls (delete j (decrypt_calls s)) s), SuccessExecutionResult)) as ->.
  { unfold InsertDecryptResult. rewrite (h_id Hh). cbn. rewrite Hrs0. unfold CM_Insert. rewrite Hnone.
    unfold insert_split, at_endpoint. cbn. do 3 f_equal. apply list_alter_ext; [|done].
    intros rs E. rewrite Hrs0 in E. by injection E as ->. }
  cbn [mbind option_bind]. change (Successful SuccessExecutionResult) with true. cbn [negb].
  rewrite check_end_eq; [done|apply Hc'| |].
  - pose proof (co_total _ Hc'). pose proof (h_bound Hh). destruct (co_counted _ Hc').
    change (total_key_split_count s' < 2 ^ 64). lia.
  - symmetry. cbn. rewrite Z.add_simpl_r. pose proof (co_total _ Hc'). pose proof (h_bound Hh).
    destruct (co_counted _ Hc') as [_ _ _ Ht _]. apply u64_small.
    change (total_key_split_count s' = finished_key_split_count s + 1 + Z.of_nat (length (decrypt_calls s') + 0)) in Ht. lia.
Qed.

(** *** Runs *)

Abbreviation outstanding s := (length (fetch_calls s) + length (decrypt_calls s))%nat.

(** The replies that are still to come. *)
Definition work (s : Shared) : nat := outstanding s + length (pending s).

Definition done_with (s : Shared) (l : list string) : Prop :=
  fetch_calls s = [] ∧ decrypt_calls s = [] ∧ finishes s = [(SuccessExecutionResult, Some (whole_key <$> l))].

Definition delivered (s : Shared) : Prop := ∃ l, l ≡ₚ ids ∧ StronglySorted string_lt l ∧ done_with s l.

Lemma listed_some s request u : collecting s → (request, u) ∈ fetch_calls s → (0 < length (listed request u))%nat.
Proof.
  intros Hc Hin. unfold listed. destruct (request_key_id request); [cbn; lia|]. rewrite (h_listing Hh u).
  pose proof (h_some Hh). destruct ids; [done|cbn; lia].
Qed.

Lemma honest_fetch s i request u : collecting s → fetch_calls s !! i = Some (request, u) →
  ∃ s', serial_step (reply endpoints key_ids) s
      (FetchReply i SuccessExecutionResult (Some (key_at u <$> listed request u))) = Some (tt, s') ∧
    collecting s' ∧ (0 < outstanding s')%nat ∧ work s = S (work s').
Proof.
  intros Hc Hi. destruct (run_fetch_honest s i request u Hc Hi) as (rl & Erun & Hlen & Hrf).
  eexists. unfold serial_step, reply. rewrite Hi. cbn [mbind option_bind]. rewrite Erun. split; [reflexivity|].
  assert (Hin : (request, u) ∈ fetch_calls s) by (by eapply list_elem_of_lookup_2).
  pose proof (listed_some _ _ _ Hc Hin). split; [by apply collecting_fetch|].
  assert (length (delete i (fetch_calls s)) + 1 = length (fetch_calls s))%nat as Hdl.
  { rewrite length_delete by eauto. apply lookup_lt_Some in Hi. lia. }
  cbn [fetch_calls decrypt_calls]. rewrite length_app, length_fmap. split; [lia|].
  unfold work, pending at 1. cbn [fetch_calls decrypt_calls]. rewrite (delete_Permutation _ _ _ Hi) at 2. cbn [mbind list_bind].
  rewrite !length_app, !length_fmap. change (pending (mkShared _ _ _ _ _ _ _ ?f _ _)) with (f ≫= λ '(request, u), (u,.) <$> listed request u). lia.
Qed.

Lemma honest_decrypt s j d u id : collecting s → decrypt_calls s !! j = Some (d, key_at u id, u) →
  ∃ s', serial_step (reply endpoints key_ids) s (DecryptReply j SuccessExecutionResult (Some (plain u id))) = Some (tt, s') ∧
    (collecting s' ∧ (0 < outstanding s')%nat ∧ work s = S (work s') ∨ work s = 1%nat ∧ delivered s').
Proof.
  intros Hc Hj. pose proof (collecting_decrypt _ _ _ _ _ Hc Hj) as Hc'. pose proof (run_decrypt_honest _ _ _ _ _ Hc Hj) as Erun.
  cbn zeta in Erun. set (s' := after_decrypt j u id s) in *.
  assert (work s = S (work s')) as Hw.
  { change (work s') with (length (fetch_calls s) + length (delete j (decrypt_calls s)) + length (pending s))%nat.
    rewrite length_delete by eauto. apply lookup_lt_Some in Hj. unfold work. lia. }
  unfold serial_step, reply. rewrite Hj. cbn [mbind option_bind]. rewrite Erun.
  destruct (Nat.eqb_spec (outstanding s') 0) as [E0|E0]; [|exists s'; split; [done|left; split; [done|lia]]].
  assert (fetch_calls s' = [] ∧ decrypt_calls s' = []) as [Ef Ed] by (split; apply nil_length_inv; lia).
  destruct (complete_whole s' (Some (key_at u id)) Hc' Ef Ed) as (l & Hl & Hs & ->). eexists. split; [reflexivity|].
  right. split; [unfold work, pending in Hw; rewrite Ef, Ed in Hw; exact Hw|]. by exists l.
Qed.

Lemma honest_step_ok s c : collecting s → (0 < outstanding s)%nat →
  ∃ s', honest_step s c = Some (tt, s') ∧
    (collecting s' ∧ (0 < outstanding s')%nat ∧ work s = S (work s') ∨ work s = 1%nat ∧ delivered s').
Proof.
  intros Hc Hpos. unfold honest_step, honest_reply. set (i := (c `mod` outstanding s)%nat).
  assert (i < outstanding s)%nat as Hi by (apply Nat.mod_upper_bound; lia).
  destruct (fetch_calls s !! i) as [[request u]|] eqn:Ef.
  - cbn [mbind option_bind]. destruct (honest_fetch _ _ _ _ Hc Ef) as (s' & E & Hs'). exists s'. split; [exact E|by left].
  - apply lookup_ge_None in Ef.
    destruct (lookup_lt_is_Some_2 (decrypt_calls s) (i - length (fetch_calls s))) as [[[d k] u] Hj]; [lia|].
    rewrite Hj. cbn [mbind option_bind].
    destruct (co_decrypt _ Hc d k u) as (_ & id & _ & ->); [by eapply list_elem_of_lookup_2|].
    rewrite (h_id Hh). cbn [mbind option_bind]. by apply (honest_decrypt _ _ d).
Qed.

Lemma honest_run s cs : collecting s → (0 < outstanding s)%nat → length cs = work s →
  ∃ rs s', run_ops honest_step s cs = Some (rs, s') ∧ delivered s'.
Proof.
  revert s. induction cs as [|c cs IH]; intros s Hc Hpos Hw; [unfold work in Hw; cbn in Hw; lia|].
  cbn [run_ops]. destruct (honest_step_ok s c Hc Hpos) as (s1 & -> & [(Hc1 & Hpos1 & Hw1)|[Hw1 Hd]]);
    cbn [mbind option_bind fst snd].
  - destruct (IH s1 Hc1 Hpos1) as (rs & s' & -> & Hd); [cbn in Hw; lia|]. cbn. eauto.
  - destruct cs; [|cbn in Hw; lia]. cbn. eauto.
Qed.

(** *** The beginning *)

Lemma run_fetch_all_accepted l s : begins s = [] →
  run_code (fetch_all l) s = Some (set_fetch_calls (fetch_calls s ++ l) s, SuccessExecutionResult).
Proof.
  revert s. induction l as [|[request u] l IH]; intros s Hb; [cbn; rewrite app_nil_r; by destruct s|].
  cbn [fetch_all]. rewrite run_bind. cbn [begin_call atomically run_code]. rewrite Hb. cbn [mbind option_bind].
  change (Successful SuccessExecutionResult) with true. cbn [negb]. rewrite IH by done. cbn. by rewrite <-app_assoc.
Qed.

Definition at_first : Shared :=
  set_fetch_calls (fetch_requests endpoints key_ids max_age) (initial_status endpoints []).

(** What the [u]-th endpoint is asked for in one round of calls. *)
Definition asked (x : option string) (u : nat) : list string := match x with Some id => [id] | None => listing u end.

Definition rounds : list (option string) := match listing_method key_ids with kByKeyId => Some <$> key_ids | kByMaxAge => [None] end.

Lemma pending_round off (l : list PrivateKeyVendingEndpoint) x age :
  (imap (λ u e, (mkFetchingRequest e x age, (off + u)%nat)) l ≫= λ '(request, u), (u,.) <$> listed request u) =
    seq off (length l) ≫= λ u, (u,.) <$> asked x u.
Proof.
  revert off. induction l as [|e l IH]; intros off; [done|]. cbn [imap mbind list_bind length seq]. rewrite Nat.add_0_r. f_equal.
  rewrite <-IH. f_equal. apply imap_ext. intros i y _. cbn. by rewrite Nat.add_succ_r.
Qed.

Lemma pending_at_first : pending at_first = rounds ≫= λ x, seq 0 n ≫= λ u, (u,.) <$> asked x u.
Proof.
  unfold pending, at_first, rounds, fetch_requests. cbn [fetch_calls set_fetch_calls initial_status].
  destruct (listing_method key_ids).
  - induction key_ids as [|id l IH]; [done|]. cbn [fmap list_fmap mbind list_bind]. rewrite bind_app, IH. f_equal.
    exact (pending_round 0 endpoints (Some id) 0).
  - cbn [mbind list_bind]. rewrite !app_nil_r. exact (pending_round 0 endpoints None _).
Qed.

Lemma rounds_cases : (rounds = Some <$> ids ∧ key_ids = ids) ∨ rounds = [None].
Proof.
  unfold rounds. destruct (listing_method key_ids) eqn:E; [left|by right]. by rewrite (key_ids_by_id E).
Qed.

Lemma elem_of_pending_at_first u id : (u, id) ∈ pending at_first ↔ (u < n)%nat ∧ id ∈ ids.
Proof.
  rewrite pending_at_first, list_elem_of_bind. setoid_rewrite list_elem_of_bind. setoid_rewrite list_elem_of_fmap.
  setoid_rewrite elem_of_seq. destruct rounds_cases as [[-> _]| ->].
  - split.
    + intros (x & (v & (id' & E & Hid) & Hv) & (id2 & -> & H2)%list_elem_of_fmap). cbn in Hid. injection E as -> ->.
      assert (id' = id2) as -> by set_solver. split; [lia|done].
    + intros [Hu Hid]. exists (Some id). split; [|by apply list_elem_of_fmap_2]. exists u. split; [|lia]. exists id. set_solver.
  - split.
    + intros (x & (v & (id' & E & Hid) & Hv) & ->%list_elem_of_singleton). cbn in Hid. injection E as -> ->.
      rewrite (h_listing Hh) in Hid. split; [lia|done].
    + intros [Hu Hid]. exists None. split; [|set_solver]. exists u. split; [|lia]. exists id. cbn. by rewrite (h_listing Hh).
Qed.

Lemma pending_at_first_length : length (pending at_first) = (n * length ids)%nat.
Proof.
  rewrite pending_at_first.
  assert (∀ x k l, (∀ u, length (asked x u) = k) → length (l ≫= λ u, (u,.) <$> asked x u) = (length l * k)%nat) as Hlen.
  { intros x k l Hk. induction l as [|u l IH]; [done|]. rewrite bind_cons, length_app, length_fmap, Hk, IH. cbn. lia. }
  destruct rounds_cases as [[-> _]| ->].
  - induction ids as [|id l IH]; [cbn; lia|]. rewrite fmap_cons, bind_cons, length_app, IH, (Hlen _ 1%nat), length_seq by done.
    cbn [length]. lia.
  - rewrite bind_singleton, (Hlen _ (length ids)), length_seq; [done|].
    intros u. cbn. by rewrite (h_listing Hh).
Qed.

Lemma pending_at_first_NoDup : NoDup (pending at_first).
Proof.
  rewrite pending_at_first. apply NoDup_bind.
  - intros x1 x2 [u id] H1 H2 (v1 & (i1 & E1 & I1)%list_elem_of_fmap & _)%list_elem_of_bind
      (v2 & (i2 & E2 & I2)%list_elem_of_fmap & _)%list_elem_of_bind. injection E1 as -> ->. injection E2 as -> ->.
    destruct rounds_cases as [[E _]|E]; rewrite E in H1, H2; [|set_solver].
    apply list_elem_of_fmap in H1 as (a & -> & _), H2 as (b & -> & _). cbn in I1, I2. set_solver.
  - intros x Hx. apply NoDup_bind; [set_solver| |apply NoDup_seq]. intros u _. apply NoDup_fmap; [by intros ?? [= ->]|].
    destruct rounds_cases as [[E _]|E]; rewrite E in Hx.
    + apply list_elem_of_fmap in Hx as (a & -> & _). apply NoDup_singleton.
    + apply list_elem_of_singleton in Hx as ->. cbn. rewrite (h_listing Hh). apply Hh.
  - destruct rounds_cases as [[-> _]| ->]; [|apply NoDup_singleton]. apply NoDup_fmap; [apply _|apply Hh].
Qed.

Lemma fetch_at_first request u : (request, u) ∈ fetch_calls at_first →
  (u < n)%nat ∧ match listing_method key_ids with
                | kByKeyId => ∃ id, id ∈ ids ∧ request_key_id request = Some id
                | kByMaxAge => request_key_id request = None
                end.
Proof.
  cbn [at_first fetch_calls set_fetch_calls]. unfold fetch_requests.
  intros ([x age] & Hin & Hx)%list_elem_of_bind. apply elem_of_lookup_imap in Hin as (j & e & E & Hj). injection E as -> ->.
  split; [by apply lookup_lt_Some in Hj|]. cbn. destruct (listing_method key_ids) eqn:Em.
  - apply list_elem_of_fmap in Hx as (id & [= -> _] & Hid). exists id. by rewrite <-(key_ids_by_id Em).
  - apply list_elem_of_singleton in Hx. by injection Hx.
Qed.

Lemma collecting_at_first : collecting at_first.
Proof.
  assert (Hd : decrypting at_first = []) by done. constructor; try done.
  - constructor; try done. cbn [at_first fetch_calls set_fetch_calls fetching_call_returned_count initial_status].
    by rewrite fetch_requests_length.
  - cbn [at_first total_key_split_count set_fetch_calls initial_status]. rewrite pending_at_first_length. lia.
  - apply length_replicate.
  - apply fetch_at_first.
  - intros d k u []%not_elem_of_nil.
  - rewrite Hd, app_nil_r. apply pending_at_first_NoDup.
  - intros u rs Hrs. cbn [at_first result_list set_fetch_calls initial_status] in Hrs.
    apply lookup_replicate in Hrs as [-> Hu]. constructor; [done|done|done|]. intros id Hid Hnot. exfalso. apply Hnot.
    rewrite Hd, app_nil_r. by apply elem_of_pending_at_first.
  - constructor.
  - intros id. cbn [at_first key_id_set set_fetch_calls initial_status]. split; [set_solver|].
    intros (Hid & u & Hu & Hnot). exfalso. apply Hnot. by apply elem_of_pending_at_first.
Qed.

(** C7: with endpoints and key management services that answer correctly, one callback at a time: in
    whatever order the replies come, after one for each call and each split nothing is outstanding
    and the caller's context has been finished once, with success and exactly the keys asked for (or
    all of them), in the order of their ids, each with the secret that its splits were made from. *)
Theorem list_keys_delivers cs :
  length cs = (call_count_per_endpoint key_ids * n + n * length ids)%nat →
  ∃ s0 rs s, run_code (ListPrivateKeys endpoints key_ids max_age) (initial_status endpoints []) =
      Some (s0, SuccessExecutionResult) ∧
    run_ops honest_step s0 cs = Some (rs, s) ∧ delivered s.
Proof.
  intros Hcs. exists at_first. assert (Hlen : length (fetch_calls at_first) = (call_count_per_endpoint key_ids * n)%nat)
    by apply fetch_requests_length.
  destruct (honest_run at_first cs) as (rs & s & Hrun & Hd).
  - apply collecting_at_first.
  - rewrite Hlen. pose proof (calls_pos endpoints key_ids) as Hpos. specialize (Hpos ltac:(done)). lia.
  - unfold work. rewrite Hlen, pending_at_first_length, Hcs. cbn. lia.
  - exists rs, s. split; [|done]. unfold ListPrivateKeys. rewrite run_fetch_all_accepted; done.
Qed.
End honest.

(** ** Two endpoints *)

Module TwoEndpoints.
Import Rfc4648.

(** A keyset is its own encryption. *)
#[local] Instance tink : Tink :=
  {| JsonKeysetReader_New := λ _, true; ReadEncrypted := Some; Base64Escape := λ s, s |}.

Definition endpoint1 : PrivateKeyVendingEndpoint := mkEndpoint "account1" "us" "https://one" "" "".
Definition endpoint2 : PrivateKeyVendingEndpoint := mkEndpoint "account2" "us" "https://two" "" "".

Definition part (material : string) : KeyData := mkKeyData (Some "") (Some "aws-kms://key") (Some material).

(** The [u]-th endpoint's key has a material for its own split only. *)
Definition key_of (u : nat) (id : string) : EncryptionKey :=
  mkEncryptionKey (Some id) None kMultiPartyHybridEvenKeysplit None (Some "public") 20 10
    (match u with O => [part "split"; part ""] | _ => [part ""; part "split"] end).

Definition the_secret : list ascii := StrToBytes "key".
Definition pad : list ascii := StrToBytes "pad".
Definition split_of (u : nat) (id : string) : string :=
  String.string_of_list_ascii (match u with O => pad | _ => zip_with xor_byte the_secret pad end).
Definition encoded_secret (id : string) : string :=
  match Base64Encode (String.string_of_list_ascii the_secret) with Some (HasValue e) => e | _ => "" end.

Lemma two_honest key_ids : key_ids = ["a"; "b"] ∨ key_ids = [] →
  honest endpoint1 [endpoint2] key_ids ["a"; "b"] (λ u, match u with O => ["a"; "b"] | _ => ["b"; "a"] end)
    key_of split_of (λ _, the_secret) (λ _, "public") encoded_secret.
Proof.
  intros Hids. constructor; try done.
  - by apply (bool_decide_unpack _).
  - intros [|u]; [done|]. apply perm_swap.
  - by intros [|u] id.
  - intros [|u] id; by eexists.
  - intros id. exists [pad]. split; [by vm_compute|by repeat constructor].
Qed.

Lemma list_keys_delivers_witness :
  (∃ s0 rs s, run_code (ListPrivateKeys (Init endpoint1 [endpoint2]) [] 60) (initial_status (Init endpoint1 [endpoint2]) []) =
      Some (s0, SuccessExecutionResult) ∧
    run_ops (honest_step endpoint1 [endpoint2] [] (λ u, match u with O => ["a"; "b"] | _ => ["b"; "a"] end) key_of split_of)
      s0 [1; 5; 2; 0; 3; 0]%nat = Some (rs, s) ∧
    delivered ["a"; "b"] key_of (λ _, "public") encoded_secret s) ∧ encoded_secret "a" = "a2V5".
Proof.
  split; [|by vm_compute]. apply (list_keys_delivers _ _ _ _ ["a"; "b"] _ _ _ (λ _, the_secret)); [|done].
  apply two_honest. by right.
Defined.

(** *** Callbacks that overlap *)

Abbreviation both := (Init endpoint1 [endpoint2]).

(** After [ListPrivateKeys], for every key of the last minute. *)
Definition started : Shared := match run_code (ListPrivateKeys both [] 60) (initial_status both []) with
  | Some (s, _) => s | None => initial_status both [] end.

Definition ok : ExecutionResult := SuccessExecutionResult.

(** Both endpoints have the key [a].  The second endpoint's callback has counted its reply, and not
    yet its key, when the first endpoint's split is decrypted. *)
Definition overtaken : list (ThreadEvent (E := Reply)) :=
  Env (FetchReply 0 ok (Some [key_of 0 "a"])) :: replicate 6 (Run 0) ++
  Env (FetchReply 0 ok (Some [key_of 1 "a"])) :: replicate 2 (Run 1) ++
  Env (DecryptReply 0 ok (Some (split_of 0 "a"))) :: replicate 8 (Run 2) ++
  replicate 4 (Run 1) ++
  Env (DecryptReply 0 ok (Some (split_of 1 "a"))) :: replicate 8 (Run 3).


(** A key of one party, at the first endpoint only. *)
Definition single_key (id : string) : EncryptionKey :=
  mkEncryptionKey (Some id) None kSinglePartyHybridKey None (Some "public") 20 10 [part "keyset"].

(** The decryption has been counted when the second endpoint's empty reply comes. *)
Definition both_last : list (ThreadEvent (E := Reply)) :=
  Env (FetchReply 0 ok (Some [single_key "a"])) :: replicate 6 (Run 0) ++
  Env (DecryptReply 0 ok (Some "key")) :: replicate 4 (Run 1) ++
  Env (FetchReply 0 ok (Some [])) :: replicate 9 (Run 2) ++
  replicate 4 (Run 1).

(** Both callbacks find that they are the last. *)
Lemma both_callbacks_finish :
  (λ '(_, w), (ended w, fst <$> finishes (shared w))) <$> run_ops (thread_step (reply both [])) (mkWorld started []) both_last =
    Some (true, [ok; ok]).
Proof. vm_compute. reflexivity. Qed.

(** One callback at a time: the second endpoint does not have the key, and its reply is the last. *)
Lemma missing_split_crashes :
  ∃ rs s, run_ops (serial_step (reply both [])) started
      [FetchReply 0 ok (Some [key_of 0 "a"]); DecryptReply 0 ok (Some (split_of 0 "a"))] = Some (rs, s) ∧
    is_Some (reply both [] s (FetchReply 0 ok (Some []))) ∧
    serial_step (reply both []) s (FetchReply 0 ok (Some [])) = None.
Proof. eexists _, _. split_and!; [vm_compute; reflexivity|by eexists|vm_compute; reflexivity]. Qed.

Lemma list_keys_finishes_once_witness :
  ∃ s0 rs s, run_code (ListPrivateKeys both [] 60) (initial_status both []) = Some (s0, ok) ∧
    run_ops (serial_step (reply both [])) s0
      [FetchReply 1 ok (Some []); FetchReply 0 ok (Some [single_key "a"]); DecryptReply 0 ok (Some "key")] = Some (rs, s) ∧
    length (finishes s) = 1%nat.
Proof.
  eexists _, _, _. split_and!; [by vm_compute|by vm_compute|].
  eapply (list_keys_finishes_once both [] 60 endpoint1 [endpoint2] []
    [FetchReply 1 ok (Some []); FetchReply 0 ok (Some [single_key "a"]); DecryptReply 0 ok (Some "key")]);
    [done|by vm_compute|by vm_compute|by vm_compute|by vm_compute].
Defined.
End TwoEndpoints.
