(* ===== verification/Timers.v ===== *)
(** * Timers: the executor as its clients see it

    What clients of [AsyncExecutorInterface::ScheduleFor]
    ([cc/core/interface/async_executor_interface.h]) rely on: the executor may
    refuse the work; work that it takes runs at most once, at any time until it
    is cancelled.  [TaskExecutor] and [AsyncExecutor] model the implementation;
    here the work of a client is the number of its timer. *)

From S2P Require Import Prelude ExecResult.

Record Timers := mkTimers {
  pending : list nat;
  next_timer : nat;
  schedule_answers : list ExecutionResult        (* of the next calls; a success after them *)
}.

Definition no_timers (answers : list ExecutionResult) : Timers := mkTimers [] 0 answers.

(** The result, and the timer when it is a success. *)
Definition ScheduleFor (t : Timers) : Timers * (ExecutionResult * option nat) :=
  let r := default SuccessExecutionResult (head (schedule_answers t)) in
  let answers := tail (schedule_answers t) in
  if Successful r
  then (mkTimers (pending t ++ [next_timer t]) (S (next_timer t)) answers, (r, Some (next_timer t)))
  else (mkTimers (pending t) (next_timer t) answers, (r, None)).

(** The timer does not run (again): the cancellation callback, or its start. *)
Definition remove_timer (timer : nat) (t : Timers) : Timers :=
  mkTimers (filter (.≠ timer) (pending t)) (next_timer t) (schedule_answers t).
