(* ===== verification/MetricCloud.v ===== *)
(** * MetricCloud: metrics as the clouds take them

    Models [metric_client_utils.cc] of
    [cc/cpio/client_providers/metric_client_provider/src] and, in its
    directories [aws] and [gcp], the translation of requests and the packing of
    them into calls of CloudWatch and Cloud Monitoring
    ([aws_metric_client_utils.cc], [aws_metric_client_provider.cc],
    [gcp_metric_client_utils.cc], [gcp_metric_client_provider.cc]).

    The class [MetricCloud] is what the provider ([MetricClient]) needs of a
    cloud, [Aws] and [Gcp] are its instances.  [std::stod] and the size of a
    serialized request are parameters; the time is an argument. *)

From S2P Require Import Prelude ExecResult Utils.

Local Open Scope string_scope.
Local Open Scope list_scope.
Local Open Scope Z_scope.

(** ** Error codes *)

Abbreviation SC_METRIC_CLIENT_PROVIDER := 0x0216%Z (only parsing).
Abbreviation SC_METRIC_CLIENT_PROVIDER_IS_NOT_RUNNING := (MakeErrorCode SC_METRIC_CLIENT_PROVIDER 0x0001).
Abbreviation SC_METRIC_CLIENT_PROVIDER_IS_ALREADY_RUNNING := (MakeErrorCode SC_METRIC_CLIENT_PROVIDER 0x0002).
Abbreviation SC_METRIC_CLIENT_PROVIDER_NAMESPACE_NOT_SET := (MakeErrorCode SC_METRIC_CLIENT_PROVIDER 0x0003).
Abbreviation SC_METRIC_CLIENT_PROVIDER_METRIC_NOT_SET := (MakeErrorCode SC_METRIC_CLIENT_PROVIDER 0x0004).
Abbreviation SC_METRIC_CLIENT_PROVIDER_METRIC_NAME_NOT_SET := (MakeErrorCode SC_METRIC_CLIENT_PROVIDER 0x0005).
Abbreviation SC_METRIC_CLIENT_PROVIDER_METRIC_VALUE_NOT_SET := (MakeErrorCode SC_METRIC_CLIENT_PROVIDER 0x0006).
Abbreviation SC_METRIC_CLIENT_PROVIDER_EXECUTOR_NOT_AVAILABLE := (MakeErrorCode SC_METRIC_CLIENT_PROVIDER 0x0007).
Abbreviation SC_AWS_METRIC_CLIENT_PROVIDER := 0x0213%Z (only parsing).
Abbreviation SC_AWS_METRIC_CLIENT_PROVIDER_METRIC_LIMIT_REACHED_PER_REQUEST := (MakeErrorCode SC_AWS_METRIC_CLIENT_PROVIDER 0x0001).
Abbreviation SC_AWS_METRIC_CLIENT_PROVIDER_REQUEST_PAYLOAD_OVERSIZE := (MakeErrorCode SC_AWS_METRIC_CLIENT_PROVIDER 0x0002).
Abbreviation SC_AWS_METRIC_CLIENT_PROVIDER_INVALID_TIMESTAMP := (MakeErrorCode SC_AWS_METRIC_CLIENT_PROVIDER 0x0003).
Abbreviation SC_AWS_METRIC_CLIENT_PROVIDER_INVALID_METRIC_VALUE := (MakeErrorCode SC_AWS_METRIC_CLIENT_PROVIDER 0x0004).
Abbreviation SC_AWS_METRIC_CLIENT_PROVIDER_OVERSIZE_DATUM_DIMENSIONS := (MakeErrorCode SC_AWS_METRIC_CLIENT_PROVIDER 0x0005).
Abbreviation SC_AWS_METRIC_CLIENT_PROVIDER_INVALID_METRIC_UNIT := (MakeErrorCode SC_AWS_METRIC_CLIENT_PROVIDER 0x0006).
Abbreviation SC_AWS_METRIC_CLIENT_PROVIDER_SHOULD_ENABLE_BATCH_RECORDING := (MakeErrorCode SC_AWS_METRIC_CLIENT_PROVIDER 0x0007).
Abbreviation SC_GCP_METRIC_CLIENT := 0x0204%Z (only parsing).
Abbreviation SC_GCP_METRIC_CLIENT_FAILED_WITH_INVALID_TIMESTAMP := (MakeErrorCode SC_GCP_METRIC_CLIENT 0x0001).
Abbreviation SC_GCP_METRIC_CLIENT_FAILED_OVERSIZE_METRIC_LABELS := (MakeErrorCode SC_GCP_METRIC_CLIENT 0x0002).
Abbreviation SC_GCP_METRIC_CLIENT_INVALID_METRIC_VALUE := (MakeErrorCode SC_GCP_METRIC_CLIENT 0x0003).
Abbreviation SC_GCP_METRIC_CLIENT_INVALID_METRIC_LABEL_KEY := (MakeErrorCode SC_GCP_METRIC_CLIENT 0x0004).
Abbreviation SC_GCP_METRIC_CLIENT_INVALID_METRIC_LABEL_VALUE := (MakeErrorCode SC_GCP_METRIC_CLIENT 0x0005).
Abbreviation SC_GCP_METRIC_CLIENT_TOO_MANY_METRICS_IN_ONE_REQUEST := (MakeErrorCode SC_GCP_METRIC_CLIENT 0x0006).
Abbreviation SC_GCP_METRIC_CLIENT_DUPLICATE_METRIC_IN_ONE_REQUEST := (MakeErrorCode SC_GCP_METRIC_CLIENT 0x0007).

(** ** Requests *)

(** The proto's units; the names drop their prefix. *)
Inductive MetricUnit :=
  | UNKNOWN | SECONDS | MICROSECONDS | MILLISECONDS
  | BITS | KILOBITS | MEGABITS | GIGABITS | TERABITS
  | BYTES | KILOBYTES | MEGABYTES | GIGABYTES | TERABYTES
  | COUNT | PERCENT
  | BITS_PER_SECOND | KILOBITS_PER_SECOND | MEGABITS_PER_SECOND | GIGABITS_PER_SECOND | TERABITS_PER_SECOND
  | BYTES_PER_SECOND | KILOBYTES_PER_SECOND | MEGABYTES_PER_SECOND | GIGABYTES_PER_SECOND | TERABYTES_PER_SECOND
  | COUNT_PER_SECOND.

(** The timestamp is in nanoseconds, 0 when it is not set. *)
Record Metric := mkMetric {
  metric_name : string;
  metric_value : string;
  metric_unit : MetricUnit;
  metric_labels : gmap string string;
  metric_timestamp : Z
}.

Record PutMetricsRequest := mkPutMetricsRequest {
  request_namespace : string;
  metrics : list Metric
}.

(** An [AsyncContext]: which call it is of, and its request. *)
Record Context := mkContext {
  context_id : nat;
  context_request : PutMetricsRequest
}.

Record MetricBatchingOptions := mkMetricBatchingOptions {
  metric_namespace : string;
  enable_batch_recording : bool;
  batch_recording_time_duration : Z
}.

(** The first metric without a name or a value. *)
Fixpoint validate_metrics (l : list Metric) : ExecutionResult :=
  match l with
  | [] => SuccessExecutionResult
  | m :: l =>
      if bool_decide (metric_name m = "") then FailureExecutionResult SC_METRIC_CLIENT_PROVIDER_METRIC_NAME_NOT_SET
      else if bool_decide (metric_value m = "")
           then FailureExecutionResult SC_METRIC_CLIENT_PROVIDER_METRIC_VALUE_NOT_SET
           else validate_metrics l
  end.

Definition ValidateRequest (request : PutMetricsRequest) (options : MetricBatchingOptions) : ExecutionResult :=
  if negb (enable_batch_recording options) && bool_decide (request_namespace request = "")
  then FailureExecutionResult SC_METRIC_CLIENT_PROVIDER_NAMESPACE_NOT_SET
  else match metrics request with
       | [] => FailureExecutionResult SC_METRIC_CLIENT_PROVIDER_METRIC_NOT_SET
       | l => validate_metrics l
       end.

(** ** What a cloud does with requests *)

(** [MetricsBatchPush]: the result, the contexts that are finished at once, and the calls that are
    started, each with the contexts it is for.  [on_reply]: the contexts that the callback of a call
    finishes; [None] is undefined behaviour. *)
Class MetricCloud := {
  CloudRequest : Type;
  MetricsBatchPush : MetricBatchingOptions → Z → list Context →
    ExecutionResult * list (Context * ExecutionResult) * list (CloudRequest * list Context);
  on_reply : list Context → ExecutionResult → option (list (Context * ExecutionResult));
  push_partition options now v r finished calls :
    enable_batch_recording options = true ∨ (length v ≤ 1)%nat →
    MetricsBatchPush options now v = (r, finished, calls) → finished.*1 ++ (calls ≫= snd) ≡ₚ v;
  reply_finishes v r finished : on_reply v r = Some finished → finished.*1 = v
}.

(** [std::stod], with [None] for an exception. *)
Class Stod := { Double : Type; stod : string → option Double }.

(** [metric_requests_vector.back()] for the log. *)
Definition finish_all (v : list Context) (r : ExecutionResult) : option (list (Context * ExecutionResult)) :=
  if negb (Successful r) && bool_decide (v = []) then None else Some ((λ c, (c, r)) <$> v).

Lemma finish_all_contexts v r finished : finish_all v r = Some finished → finished.*1 = v.
Proof.
  unfold finish_all. destruct (_ && _); [done|]. intros [= <-]. rewrite <-list_fmap_compose. apply list_fmap_id.
Qed.

(** ** CloudWatch *)

Module Aws.
Inductive StandardUnit :=
  | NOT_SET | Seconds | Microseconds | Milliseconds
  | Bytes | Kilobytes | Megabytes | Gigabytes | Terabytes
  | Bits | Kilobits | Megabits | Gigabits | Terabits
  | Percent | Count
  | Bytes_Second | Kilobytes_Second | Megabytes_Second | Gigabytes_Second | Terabytes_Second
  | Bits_Second | Kilobits_Second | Megabits_Second | Gigabits_Second | Terabits_Second
  | Count_Second.

#[global] Instance StandardUnit_eq_dec : EqDecision StandardUnit.
Proof. solve_decision. Defined.

Definition kAwsMetricUnitMap (u : MetricUnit) : StandardUnit :=
  match u with
  | UNKNOWN => NOT_SET
  | SECONDS => Seconds | MICROSECONDS => Microseconds | MILLISECONDS => Milliseconds
  | BITS => Bits | KILOBITS => Kilobits | MEGABITS => Megabits | GIGABITS => Gigabits | TERABITS => Terabits
  | BYTES => Bytes | KILOBYTES => Kilobytes | MEGABYTES => Megabytes | GIGABYTES => Gigabytes | TERABYTES => Terabytes
  | COUNT => Count | PERCENT => Percent
  | BITS_PER_SECOND => Bits_Second | KILOBITS_PER_SECOND => Kilobits_Second | MEGABITS_PER_SECOND => Megabits_Second
  | GIGABITS_PER_SECOND => Gigabits_Second | TERABITS_PER_SECOND => Terabits_Second
  | BYTES_PER_SECOND => Bytes_Second | KILOBYTES_PER_SECOND => Kilobytes_Second | MEGABYTES_PER_SECOND => Megabytes_Second
  | GIGABYTES_PER_SECOND => Gigabytes_Second | TERABYTES_PER_SECOND => Terabytes_Second
  | COUNT_PER_SECOND => Count_Second
  end.

Abbreviation kTwoWeeksSecondsCount := (24 * 14 * 3600)%Z (only parsing).
Abbreviation kTwoHoursSecondsCount := (2 * 3600)%Z (only parsing).
Abbreviation kAwsMetricDatumSizeLimit := 1000%Z (only parsing).
Abbreviation kAwsPayloadSizeLimit := (1024 * 1024)%Z (only parsing).

Section aws.
Context `{!Stod}.

(** The time is in milliseconds. *)
Record MetricDatum := mkMetricDatum {
  datum_name : string;
  datum_value : Double;
  datum_unit : StandardUnit;
  datum_timestamp : Z;
  datum_dimensions : list (string * string)
}.

Definition datum_of (now : Z) (metric : Metric) : ExecutionResultOr MetricDatum :=
  let fail code := HasResult (FailureExecutionResult code) in
  let now_ms := now / 1000000 in
  let input_timestamp_in_ms := metric_timestamp metric / 1000000 in
  let difference := (now_ms - input_timestamp_in_ms) `quot` 1000 in
  if 30 <? Z.of_nat (size (metric_labels metric)) then fail SC_AWS_METRIC_CLIENT_PROVIDER_OVERSIZE_DATUM_DIMENSIONS
  else if input_timestamp_in_ms <? 0 then fail SC_AWS_METRIC_CLIENT_PROVIDER_INVALID_TIMESTAMP
  else if (0 <? input_timestamp_in_ms) && ((kTwoWeeksSecondsCount <? difference) || (difference <? - kTwoHoursSecondsCount))
  then fail SC_AWS_METRIC_CLIENT_PROVIDER_INVALID_TIMESTAMP
  else match stod (metric_value metric) with
       | None => fail SC_AWS_METRIC_CLIENT_PROVIDER_INVALID_METRIC_VALUE
       | Some value =>
           let unit := kAwsMetricUnitMap (metric_unit metric) in
           if bool_decide (unit = NOT_SET) then fail SC_AWS_METRIC_CLIENT_PROVIDER_INVALID_METRIC_UNIT
           else HasValue (mkMetricDatum (metric_name metric) value unit
                            (if 0 <? input_timestamp_in_ms then input_timestamp_in_ms else now_ms)
                            (map_to_list (metric_labels metric)))
       end.

Fixpoint datums_of (now : Z) (l : list Metric) (datum_list : list MetricDatum) : ExecutionResultOr (list MetricDatum) :=
  match l with
  | [] => HasValue datum_list
  | metric :: l =>
      match datum_of now metric with
      | HasResult r => HasResult r
      | HasValue datum => datums_of now l (datum_list ++ [datum])
      end
  end.

(** The context is finished with the result when it is a failure. *)
Definition ParseRequestToDatum (now : Z) (request : PutMetricsRequest) (request_metric_limit : Z)
  : ExecutionResultOr (list MetricDatum) :=
  if request_metric_limit <? zlen (metrics request)
  then HasResult (FailureExecutionResult SC_AWS_METRIC_CLIENT_PROVIDER_METRIC_LIMIT_REACHED_PER_REQUEST)
  else datums_of now (metrics request) [].

Record PutMetricDataRequest := mkPutMetricDataRequest {
  data_namespace : string;
  metric_data : list MetricDatum
}.

(** The length of [SerializePayload]. *)
Variable payload_length : PutMetricDataRequest → Z.

(** The chunk that is being filled. *)
Record Chunk := mkChunk {
  request_chunk : list MetricDatum;
  context_chunk : list Context;
  chunk_payload : Z;
  chunk_size : Z
}.

Definition empty_chunk : Chunk := mkChunk [] [] 0 0.

Definition add_to_chunk (chunk : Chunk) (context : Context) (datum_list : list MetricDatum) (datums_payload : Z) : Chunk :=
  mkChunk (request_chunk chunk ++ datum_list) (context_chunk chunk ++ [context])
    (chunk_payload chunk + datums_payload) (chunk_size chunk + zlen datum_list).

Definition call_of (name_space : string) (chunk : Chunk) : PutMetricDataRequest * list Context :=
  (mkPutMetricDataRequest name_space (request_chunk chunk), context_chunk chunk).

(** The loop and what follows it: the contexts that are finished and the calls of
    [PutMetricDataAsync]. *)
Fixpoint push_loop (now : Z) (name_space : string) (v : list Context) (chunk : Chunk)
  : list (Context * ExecutionResult) * list (PutMetricDataRequest * list Context) :=
  match v with
  | [] => ([], match context_chunk chunk with [] => [] | _ => [call_of name_space chunk] end)
  | context :: v =>
      match ParseRequestToDatum now (context_request context) kAwsMetricDatumSizeLimit with
      | HasResult r => let '(finished, calls) := push_loop now name_space v chunk in ((context, r) :: finished, calls)
      | HasValue datum_list =>
          let datums_payload := payload_length (mkPutMetricDataRequest name_space datum_list) in
          if kAwsPayloadSizeLimit <? datums_payload then
            let '(finished, calls) := push_loop now name_space v chunk in
            ((context, FailureExecutionResult SC_AWS_METRIC_CLIENT_PROVIDER_REQUEST_PAYLOAD_OVERSIZE) :: finished, calls)
          else if (kAwsMetricDatumSizeLimit <? chunk_size chunk + zlen datum_list) ||
                  (kAwsPayloadSizeLimit <? chunk_payload chunk + datums_payload) then
            let '(finished, calls) := push_loop now name_space v (add_to_chunk empty_chunk context datum_list datums_payload) in
            (finished, call_of name_space chunk :: calls)
          else push_loop now name_space v (add_to_chunk chunk context datum_list datums_payload)
      end
  end.

Definition AwsMetricsBatchPush (options : MetricBatchingOptions) (now : Z) (metric_requests_vector : list Context)
  : ExecutionResult * list (Context * ExecutionResult) * list (PutMetricDataRequest * list Context) :=
  match metric_requests_vector with
  | [] => (SuccessExecutionResult, [], [])
  | first :: rest =>
      if negb (enable_batch_recording options) && negb (bool_decide (rest = []))
      then (FailureExecutionResult SC_AWS_METRIC_CLIENT_PROVIDER_SHOULD_ENABLE_BATCH_RECORDING, [], [])
      else
        let name_space := if bool_decide (metric_namespace options = "")
                          then request_namespace (context_request first) else metric_namespace options in
        let '(finished, calls) := push_loop now name_space metric_requests_vector empty_chunk in
        (SuccessExecutionResult, finished, calls)
  end.

Definition OnPutMetricDataAsyncCallback : list Context → ExecutionResult → option (list (Context * ExecutionResult)) :=
  finish_all.

(** *** Packing *)

Lemma push_loop_partition now name_space v chunk finished calls :
  push_loop now name_space v chunk = (finished, calls) → finished.*1 ++ (calls ≫= snd) ≡ₚ context_chunk chunk ++ v.
Proof.
  revert chunk finished calls. induction v as [|c v IH]; intros chunk finished calls E; cbn [push_loop] in E.
  { injection E as <- <-. destruct (context_chunk chunk) eqn:Ec; [done|]. cbn. rewrite Ec. done. }
  assert (∀ r, (let '(finished, calls) := push_loop now name_space v chunk in ((c, r) :: finished, calls)) = (finished, calls) →
    finished.*1 ++ (calls ≫= snd) ≡ₚ context_chunk chunk ++ c :: v) as Hskip.
  { intros r. destruct (push_loop now name_space v chunk) as [f1 c1] eqn:E1. intros [= <- <-].
    apply IH in E1. rewrite fmap_cons. cbn [fst]. rewrite <-app_comm_cons, E1. by rewrite Permutation_middle. }
  destruct (ParseRequestToDatum _ _ _) as [r|datums]; [by apply Hskip in E|].
  destruct (_ <? payload_length _); [by apply Hskip in E|]. destruct (_ || _).
  - destruct (push_loop now name_space v (add_to_chunk empty_chunk _ _ _)) as [f1 c1] eqn:E1. injection E as <- <-.
    apply IH in E1. cbn in E1. rewrite bind_cons. cbn [call_of snd]. rewrite (Permutation_app_comm (context_chunk chunk)), app_assoc, E1.
    by rewrite (Permutation_app_comm (c :: v)).
  - apply IH in E. rewrite E. cbn [add_to_chunk context_chunk]. by rewrite <-app_assoc.
Qed.

(** The requests of a chunk, with what they were translated to. *)
Record packs (now : Z) (name_space : string) (contexts : list Context) (data : list MetricDatum) (payload : Z) : Prop := {
  pk_parts : ∃ parts : list (Context * list MetricDatum),
    contexts = parts.*1 ∧ data = concat parts.*2 ∧
    payload = foldr Z.add 0 ((λ p, payload_length (mkPutMetricDataRequest name_space p.2)) <$> parts) ∧
    Forall (λ p, ParseRequestToDatum now (context_request p.1) kAwsMetricDatumSizeLimit = HasValue p.2) parts;
  pk_size : zlen data ≤ kAwsMetricDatumSizeLimit;
  pk_payload : payload ≤ kAwsPayloadSizeLimit
}.

Definition chunk_ok (now : Z) (name_space : string) (chunk : Chunk) : Prop :=
  packs now name_space (context_chunk chunk) (request_chunk chunk) (chunk_payload chunk) ∧
  chunk_size chunk = zlen (request_chunk chunk).

(** A call of CloudWatch: it is for some context, and within the limits. *)
Definition call_ok (now : Z) (name_space : string) (call : PutMetricDataRequest * list Context) : Prop :=
  data_namespace call.1 = name_space ∧ call.2 ≠ [] ∧
  ∃ payload, packs now name_space call.2 (metric_data call.1) payload.

Lemma datums_of_length now l acc ds : datums_of now l acc = HasValue ds → length ds = (length acc + length l)%nat.
Proof.
  revert acc. induction l as [|m l IH]; intros acc E; cbn [datums_of] in E.
  { injection E as <-. cbn. lia. }
  destruct (datum_of now m) as [r|d]; [done|]. apply IH in E. rewrite E, length_app. cbn. lia.
Qed.

Lemma parse_limit now request limit ds : ParseRequestToDatum now request limit = HasValue ds → zlen ds ≤ limit.
Proof.
  unfold ParseRequestToDatum. destruct (Z.ltb_spec limit (zlen (metrics request))); [done|].
  intros E%datums_of_length. cbn in E. lia.
Qed.

Lemma add_to_chunk_ok now name_space chunk c ds :
  let payload := payload_length (mkPutMetricDataRequest name_space ds) in
  chunk_ok now name_space chunk →
  ParseRequestToDatum now (context_request c) kAwsMetricDatumSizeLimit = HasValue ds →
  chunk_size chunk + zlen ds ≤ kAwsMetricDatumSizeLimit → chunk_payload chunk + payload ≤ kAwsPayloadSizeLimit →
  chunk_ok now name_space (add_to_chunk chunk c ds payload).
Proof.
  intros payload [[(parts & E1 & E2 & E3 & E4) Hs Hp] Hsize] Hparse H1 H2.
  split; [|cbn; rewrite length_app; lia]. constructor; cbn; [|rewrite length_app; lia|done].
  exists (parts ++ [(c, ds)]). rewrite !fmap_app, concat_app, foldr_app, E1, E2. cbn. rewrite app_nil_r. split_and!; try done.
  - rewrite E3, Z.add_0_r. fold payload. clear. induction parts as [|p parts IH]; cbn; [lia|]. rewrite <-IH. lia.
  - apply Forall_app. split; [done|]. by constructor.
Qed.

Lemma empty_chunk_ok now name_space : chunk_ok now name_space empty_chunk.
Proof. split; [|done]. constructor; [|done|done]. by exists []. Qed.

Lemma add_to_chunk_nonempty chunk c ds payload :
  context_chunk (add_to_chunk chunk c ds payload) = [] → add_to_chunk chunk c ds payload = empty_chunk.
Proof. cbn. by destruct (context_chunk chunk). Qed.

Lemma push_loop_ok now name_space v chunk finished calls :
  chunk_ok now name_space chunk → (context_chunk chunk = [] → chunk = empty_chunk) →
  push_loop now name_space v chunk = (finished, calls) → Forall (call_ok now name_space) calls.
Proof.
  revert chunk finished calls. induction v as [|c v IH]; intros chunk finished calls Hok Hne E; cbn [push_loop] in E.
  { injection E as <- <-. destruct (context_chunk chunk) eqn:Ec; constructor; [|constructor].
    split; [done|]. cbn. rewrite Ec. split; [done|]. exists (chunk_payload chunk). rewrite <-Ec. apply Hok. }
  assert (∀ r, (let '(finished, calls) := push_loop now name_space v chunk in ((c, r) :: finished, calls)) = (finished, calls) →
    Forall (call_ok now name_space) calls) as Hskip.
  { intros r. destruct (push_loop now name_space v chunk) as [f1 c1] eqn:E1. intros [= <- <-]. by eapply IH. }
  destruct (ParseRequestToDatum _ _ _) as [r|ds] eqn:Ep; [by apply Hskip in E|].
  destruct (Z.ltb_spec kAwsPayloadSizeLimit (payload_length (mkPutMetricDataRequest name_space ds))); [by apply Hskip in E|].
  pose proof (parse_limit _ _ _ _ Ep) as Hlen.
  destruct (Z.ltb_spec kAwsMetricDatumSizeLimit (chunk_size chunk + zlen ds)) as [Hbig|Hsmall]; cbn [orb] in E;
    [|destruct (Z.ltb_spec kAwsPayloadSizeLimit (chunk_payload chunk + payload_length (mkPutMetricDataRequest name_space ds))) as [Hbig|]].
  3: { eapply IH; [|apply add_to_chunk_nonempty|exact E]. by apply add_to_chunk_ok. }
  all: destruct (push_loop now name_space v (add_to_chunk empty_chunk _ _ _)) as [f1 c1] eqn:E1; injection E as <- <-.
  all: constructor; [|eapply IH; [|apply add_to_chunk_nonempty|exact E1]; apply add_to_chunk_ok; [apply empty_chunk_ok|done|cbn; lia|cbn; lia]].
  all: split; [done|]; split; [intros Ec; cbn in Ec; rewrite (Hne Ec) in Hbig; cbn in Hbig; lia|].
  all: exists (chunk_payload chunk); apply Hok.
Qed.


Lemma aws_partition options now v r finished calls :
  enable_batch_recording options = true ∨ (length v ≤ 1)%nat →
  AwsMetricsBatchPush options now v = (r, finished, calls) → finished.*1 ++ (calls ≫= snd) ≡ₚ v.
Proof.
  intros Hb. unfold AwsMetricsBatchPush. destruct v as [|first rest]; [intros [= _ <- <-]; done|].
  destruct (negb (enable_batch_recording options) && negb (bool_decide (rest = []))) eqn:Eg.
  { exfalso. apply andb_true_iff in Eg as [E1%negb_true_iff E2%negb_true_iff%bool_decide_eq_false].
    destruct Hb as [Hb|Hb]; [congruence|]. destruct rest; [done|cbn in Hb; lia]. }
  destruct (push_loop _ _ _ _) as [f1 c1] eqn:E. intros [= _ <- <-]. by apply push_loop_partition in E.
Qed.

Definition cloud : MetricCloud := {|
  CloudRequest := PutMetricDataRequest;
  MetricsBatchPush := AwsMetricsBatchPush;
  on_reply := OnPutMetricDataAsyncCallback;
  push_partition := aws_partition;
  reply_finishes := finish_all_contexts
|}.
End aws.
End Aws.

(** ** Cloud Monitoring *)

Module Gcp.
Abbreviation kCustomMetricTypePrefix := "custom.googleapis.com"%string (only parsing).
Abbreviation kProjectNamePrefix := "projects/"%string (only parsing).
Abbreviation kResourceType := "gce_instance"%string (only parsing).
Abbreviation kGcpMetricLabelsSizeLimit := 30%Z (only parsing).
Abbreviation kGcpStringLengthForLabelKey := 100%nat (only parsing).
Abbreviation kGcpStringLengthForLabelValue := 1024%nat (only parsing).
Abbreviation kGcpTimeSeriesInOneRequest := 200%Z (only parsing).
Abbreviation kGcpTimeSeriesSizeLimit := 200%Z (only parsing).
Abbreviation k25HoursSecondsCount := (25 * 3600)%Z (only parsing).
Abbreviation k5MinsSecondsCount := (5 * 60)%Z (only parsing).

Fixpoint validate_labels (labels : list (string * string)) : ExecutionResult :=
  match labels with
  | [] => SuccessExecutionResult
  | (key, value) :: labels =>
      if (kGcpStringLengthForLabelKey <? String.length key)%nat
      then FailureExecutionResult SC_GCP_METRIC_CLIENT_INVALID_METRIC_LABEL_KEY
      else if (kGcpStringLengthForLabelValue <? String.length value)%nat
      then FailureExecutionResult SC_GCP_METRIC_CLIENT_INVALID_METRIC_LABEL_VALUE
      else validate_labels labels
  end.

Definition ValidateMetricLabels (metric : Metric) : ExecutionResult :=
  if kGcpMetricLabelsSizeLimit <? Z.of_nat (size (metric_labels metric))
  then FailureExecutionResult SC_GCP_METRIC_CLIENT_FAILED_OVERSIZE_METRIC_LABELS
  else validate_labels (map_to_list (metric_labels metric)).

Definition ValidateMetricTimestamp (now : Z) (metric : Metric) : ExecutionResult :=
  let difference := (now - metric_timestamp metric) `quot` 1000000000 in
  if (k25HoursSecondsCount <? difference) || (difference <? - k5MinsSecondsCount)
  then FailureExecutionResult SC_GCP_METRIC_CLIENT_FAILED_WITH_INVALID_TIMESTAMP else SuccessExecutionResult.

Section gcp.
Context `{!Stod}.

Record MonitoredResource := mkMonitoredResource {
  resource_type : string;
  resource_labels : gmap string string
}.

Record TimeSeries := mkTimeSeries {
  series_type : string;
  series_labels : gmap string string;
  point_value : Double;
  point_end_time : Z;
  series_resource : option MonitoredResource
}.

Definition VerifyNoDuplicateMetrics (time_series_list : list TimeSeries) (pending_time_series : TimeSeries) : ExecutionResult :=
  if existsb (λ t, bool_decide (series_type t = series_type pending_time_series ∧
                                series_labels t = series_labels pending_time_series)) time_series_list
  then FailureExecutionResult SC_GCP_METRIC_CLIENT_DUPLICATE_METRIC_IN_ONE_REQUEST else SuccessExecutionResult.

(** The checks of one metric, in their order. *)
Definition series_of_metric (now : Z) (name_space : string) (time_series_list : list TimeSeries) (metric : Metric)
  : ExecutionResultOr TimeSeries :=
  let labels_result := ValidateMetricLabels metric in
  if negb (Successful labels_result) then HasResult labels_result
  else match stod (metric_value metric) with
       | None => HasResult (FailureExecutionResult SC_GCP_METRIC_CLIENT_INVALID_METRIC_VALUE)
       | Some value =>
           let time_series :=
             mkTimeSeries (kCustomMetricTypePrefix +:+ "/" +:+ name_space +:+ "/" +:+ metric_name metric)
               (metric_labels metric) value (metric_timestamp metric) None in
           let timestamp_result := ValidateMetricTimestamp now metric in
           let duplicate_result := VerifyNoDuplicateMetrics time_series_list time_series in
           if negb (Successful timestamp_result) then HasResult timestamp_result
           else if negb (Successful duplicate_result) then HasResult duplicate_result
           else HasValue time_series
       end.

Fixpoint series_of (now : Z) (name_space : string) (l : list Metric) (time_series_list : list TimeSeries)
  : ExecutionResultOr (list TimeSeries) :=
  match l with
  | [] => HasValue time_series_list
  | metric :: l =>
      match series_of_metric now name_space time_series_list metric with
      | HasResult r => HasResult r
      | HasValue time_series => series_of now name_space l (time_series_list ++ [time_series])
      end
  end.

Definition ParseRequestToTimeSeries (now : Z) (request : PutMetricsRequest) (name_space : string)
  : ExecutionResultOr (list TimeSeries) :=
  if kGcpTimeSeriesInOneRequest <? zlen (metrics request)
  then HasResult (FailureExecutionResult SC_GCP_METRIC_CLIENT_TOO_MANY_METRICS_IN_ONE_REQUEST)
  else series_of now name_space (metrics request) [].

Definition ConstructProjectName (project_id : string) : string := kProjectNamePrefix +:+ project_id.

Definition AddResourceToTimeSeries (project_id instance_id instance_zone : string) (l : list TimeSeries) : list TimeSeries :=
  let resource := mkMonitoredResource kResourceType
    {["project_id" := project_id; "instance_id" := instance_id; "zone" := instance_zone]} in
  (λ t, mkTimeSeries (series_type t) (series_labels t) (point_value t) (point_end_time t) (Some resource)) <$> l.

Record CreateTimeSeriesRequest := mkCreateTimeSeriesRequest {
  project_name : string;
  time_series : list TimeSeries
}.

Record Instance_ := mkInstance { project_id : string; instance_id : string; zone_id : string }.
Variable instance_resource_ : Instance_.

(** The loop: the contexts that are finished and the requests, with the last one, which is being
    filled, in [last_series] and [last_contexts]. *)
Fixpoint chop_loop (now : Z) (name_space : string) (v : list Context) (last_series : list TimeSeries) (last_contexts : list Context)
  : list (Context * ExecutionResult) * list (CreateTimeSeriesRequest * list Context) :=
  let request_of l := mkCreateTimeSeriesRequest (ConstructProjectName (project_id instance_resource_)) l in
  match v with
  | [] => ([], [(request_of last_series, last_contexts)])
  | context :: v =>
      match ParseRequestToTimeSeries now (context_request context) name_space with
      | HasValue l =>
          let l := AddResourceToTimeSeries (project_id instance_resource_) (instance_id instance_resource_)
                     (zone_id instance_resource_) l in
          if kGcpTimeSeriesSizeLimit <? zlen last_series + zlen l then
            let '(finished, calls) := chop_loop now name_space v l [context] in
            (finished, (request_of last_series, last_contexts) :: calls)
          else chop_loop now name_space v (last_series ++ l) (last_contexts ++ [context])
      | HasResult r =>
          let '(finished, calls) := chop_loop now name_space v last_series last_contexts in ((context, r) :: finished, calls)
      end
  end.

Definition GcpMetricsBatchPush (options : MetricBatchingOptions) (now : Z) (context_vector : list Context)
  : ExecutionResult * list (Context * ExecutionResult) * list (CreateTimeSeriesRequest * list Context) :=
  let name_space := if enable_batch_recording options then metric_namespace options
                    else from_option (request_namespace ∘ context_request) "" (last context_vector) in
  let '(finished, calls) := chop_loop now name_space context_vector [] [] in
  (SuccessExecutionResult, finished, calls).

Definition OnAsyncCreateTimeSeriesCallback : list Context → ExecutionResult → option (list (Context * ExecutionResult)) :=
  finish_all.

(** *** Chopping *)

Lemma chop_loop_partition now name_space v series contexts finished calls :
  chop_loop now name_space v series contexts = (finished, calls) → finished.*1 ++ (calls ≫= snd) ≡ₚ contexts ++ v.
Proof.
  revert series contexts finished calls. induction v as [|c v IH]; intros series contexts finished calls E; cbn [chop_loop] in E.
  { injection E as <- <-. done. }
  destruct (ParseRequestToTimeSeries _ _ _) as [r|l].
  - destruct (chop_loop _ _ v _ _) as [f1 c1] eqn:E1. injection E as <- <-. apply IH in E1. rewrite fmap_cons.
    cbn [fst]. rewrite <-app_comm_cons, E1. by rewrite Permutation_middle.
  - destruct (_ <? _).
    + destruct (chop_loop _ _ v _ _) as [f1 c1] eqn:E1. injection E as <- <-. apply IH in E1. rewrite bind_cons. cbn [snd].
      rewrite (Permutation_app_comm contexts), app_assoc, E1. by rewrite (Permutation_app_comm (c :: v)).
    + apply IH in E. rewrite E. by rewrite <-app_assoc.
Qed.

Lemma series_of_length now name_space l acc ds : series_of now name_space l acc = HasValue ds → length ds = (length acc + length l)%nat.
Proof.
  revert acc. induction l as [|m l IH]; intros acc E; cbn [series_of] in E.
  { injection E as <-. cbn. lia. }
  destruct (series_of_metric _ _ _ m) as [r|d]; [done|]. apply IH in E. rewrite E, length_app. cbn. lia.
Qed.

Lemma parse_series_limit now request name_space l : ParseRequestToTimeSeries now request name_space = HasValue l →
  length l = length (metrics request) ∧ zlen l ≤ kGcpTimeSeriesInOneRequest.
Proof.
  unfold ParseRequestToTimeSeries. destruct (Z.ltb_spec kGcpTimeSeriesInOneRequest (zlen (metrics request))); [done|].
  intros E%series_of_length. cbn in E. lia.
Qed.

(** No call of Cloud Monitoring has more than 200 time series, and they are as many as the
    metrics of its contexts. *)
Theorem gcp_calls_within_limits options now v r finished calls :
  GcpMetricsBatchPush options now v = (r, finished, calls) →
  Forall (λ call, zlen (time_series call.1) ≤ kGcpTimeSeriesSizeLimit ∧
                  length (time_series call.1) = length (call.2 ≫= metrics ∘ context_request)) calls.
Proof.
  unfold GcpMetricsBatchPush. set (ns := if enable_batch_recording options then _ else _). clearbody ns.
  destruct (chop_loop now ns v [] []) as [f1 c1] eqn:E. intros [= _ _ <-]. revert E.
  assert (zlen ([] : list TimeSeries) ≤ kGcpTimeSeriesSizeLimit) as H0 by done.
  assert (length ([] : list TimeSeries) = length (([] : list Context) ≫= metrics ∘ context_request)) as H1 by done.
  revert H0 H1. generalize ([] : list TimeSeries) ([] : list Context). revert f1 c1.
  induction v as [|c v IH]; intros f1 c1 series contexts H0 H1 E; cbn [chop_loop] in E.
  { injection E as <- <-. by constructor. }
  destruct (ParseRequestToTimeSeries _ _ _) as [r'|l] eqn:Ep.
  - destruct (chop_loop _ _ v _ _) as [f2 c2] eqn:E1. injection E as <- <-. by eapply IH.
  - apply parse_series_limit in Ep as [Hlen Hlim]. unfold AddResourceToTimeSeries in E. rewrite length_fmap in E.
    destruct (Z.ltb_spec kGcpTimeSeriesSizeLimit (zlen series + zlen l)).
    + destruct (chop_loop _ _ v _ _) as [f2 c2] eqn:E1. injection E as <- <-. constructor; [done|].
      eapply IH; [| |exact E1]; rewrite length_fmap; [done|]. cbn. by rewrite app_nil_r.
    + eapply IH; [| |exact E]; rewrite ?bind_app, ?length_app, length_fmap; [lia|]. cbn. rewrite app_nil_r. lia.
Qed.

(** When no request of a batch can be translated, a call without time series is made all the
    same, for no context; when the service refuses it, the callback takes the last context of an
    empty vector. *)
Theorem gcp_invalid_batch_crashes options now v failure : Successful failure = false →
  (∀ c, c ∈ v → ∃ r, ParseRequestToTimeSeries now (context_request c)
     (if enable_batch_recording options then metric_namespace options
      else from_option (request_namespace ∘ context_request) "" (last v)) = HasResult r) →
  ∃ finished request, GcpMetricsBatchPush options now v = (SuccessExecutionResult, finished, [(request, [])]) ∧
    time_series request = [] ∧ OnAsyncCreateTimeSeriesCallback [] failure = None.
Proof.
  unfold GcpMetricsBatchPush. set (ns := if enable_batch_recording options then _ else _). clearbody ns. intros Hf Hall.
  assert (∃ finished, chop_loop now ns v [] [] =
    (finished, [(mkCreateTimeSeriesRequest (ConstructProjectName (project_id instance_resource_)) [], [])])) as [finished ->].
  { induction v as [|c v IH]; [by eexists|]. cbn [chop_loop].
    destruct (Hall c) as [r ->]; [by left|]. destruct IH as [finished ->]; [intros; apply Hall; by right|]. by eexists. }
  eexists _, _. split; [done|]. split; [done|]. unfold OnAsyncCreateTimeSeriesCallback, finish_all. by rewrite Hf.
Qed.

Lemma gcp_partition options now v r finished calls :
  enable_batch_recording options = true ∨ (length v ≤ 1)%nat →
  GcpMetricsBatchPush options now v = (r, finished, calls) → finished.*1 ++ (calls ≫= snd) ≡ₚ v.
Proof.
  intros _. unfold GcpMetricsBatchPush. destruct (chop_loop _ _ _ _ _) as [f1 c1] eqn:E. intros [= _ <- <-].
  by apply chop_loop_partition in E.
Qed.

Definition cloud : MetricCloud := {|
  CloudRequest := CreateTimeSeriesRequest;
  MetricsBatchPush := GcpMetricsBatchPush;
  on_reply := OnAsyncCreateTimeSeriesCallback;
  push_partition := gcp_partition;
  reply_finishes := finish_all_contexts
|}.
End gcp.
End Gcp.

(** ** Runs *)

Module CloudRuns.
#[local] Instance any_double : Stod := {| Double := (); stod := λ _, Some tt |}.

Definition batching : MetricBatchingOptions := mkMetricBatchingOptions "ns" true 1000.

(** A request of [n] metrics without a timestamp. *)
Definition context (i n : nat) : Context :=
  mkContext i (mkPutMetricsRequest "ns" (replicate n (mkMetric "m" "1" COUNT ∅ 0))).


(** A metric without a timestamp makes Google's provider send an empty call. *)
Lemma gcp_invalid_batch_crashes_witness :
  ∃ finished request, Gcp.GcpMetricsBatchPush (Gcp.mkInstance "p" "i" "z") batching 1700000000000000000 [context 0 1] =
      (SuccessExecutionResult, finished, [(request, [])]) ∧
    Gcp.OnAsyncCreateTimeSeriesCallback [] (FailureExecutionResult SC_UNKNOWN) = None.
Proof.
  destruct (Gcp.gcp_invalid_batch_crashes (Gcp.mkInstance "p" "i" "z") batching 1700000000000000000 [context 0 1] (FailureExecutionResult SC_UNKNOWN))
    as (finished & request & E & _ & Hcrash); [done| |by exists finished, request].
  intros c ->%list_elem_of_singleton. eexists. vm_compute. reflexivity.
Defined.
End CloudRuns.
