(* ===== verification/MetricClient.v ===== *)
(** * MetricClient: the metric client provider

    Models [metric_client_provider.cc] and [.h] of
    [cc/cpio/client_providers/metric_client_provider/src], over any cloud
    ([MetricCloud.MetricCloud]): the life cycle, the vector of the requests that
    wait for a push, the timer that pushes it, and the callbacks of the calls.

    The provider is code of several threads ([Threads]).  A critical section of
    [sync_mutex_] is one action that waits while the mutex is held; the other
    reads and writes of the fields are actions of their own.  The executor is
    [Timers].  The cloud answers a call at any
    time with any result.  [put_contexts] is a ghost: the contexts that
    [PutMetrics] has been called with. *)

From S2P Require Import Prelude ExecResult Utils Threads Timers MetricCloud.

Local Open Scope string_scope.
Local Open Scope list_scope.
Local Open Scope Z_scope.

Abbreviation kMetricsBatchSize := 1000%Z (only parsing).

Section provider.
Context `{!MetricCloud} (options : MetricBatchingOptions).

Record Provider := mkProvider {
  is_running_ : bool;
  sync_mutex_ : bool;                                  (* locked by a call that has returned *)
  metric_requests_vector_ : list Context;
  number_metrics_in_vector_ : Z;
  active_push_count_ : Z;
  current_cancellation_callback_ : option nat;
  executor : Timers;
  calls : list (CloudRequest * list Context);
  finished : list (Context * ExecutionResult);
  put_contexts : list Context
}.

Definition initial_provider (answers : list ExecutionResult) : Provider :=
  mkProvider false false [] 0 0 None (no_timers answers) [] [] [].

#[local] Abbreviation is_batch_recording_enable := (enable_batch_recording options).

Definition set_running (b : bool) (s : Provider) : Provider :=
  mkProvider b (sync_mutex_ s) (metric_requests_vector_ s) (number_metrics_in_vector_ s) (active_push_count_ s)
    (current_cancellation_callback_ s) (executor s) (calls s) (finished s)
    (put_contexts s).

Definition leave_locked (s : Provider) : Provider :=
  mkProvider (is_running_ s) true (metric_requests_vector_ s) (number_metrics_in_vector_ s) (active_push_count_ s)
    (current_cancellation_callback_ s) (executor s) (calls s) (finished s)
    (put_contexts s).

Definition set_vector (v : list Context) (n : Z) (s : Provider) : Provider :=
  mkProvider (is_running_ s) (sync_mutex_ s) v n (active_push_count_ s)
    (current_cancellation_callback_ s) (executor s) (calls s) (finished s)
    (put_contexts s).

Definition set_calls (l : list (CloudRequest * list Context)) (n : Z) (s : Provider) : Provider :=
  mkProvider (is_running_ s) (sync_mutex_ s) (metric_requests_vector_ s) (number_metrics_in_vector_ s) n
    (current_cancellation_callback_ s) (executor s) l (finished s)
    (put_contexts s).

Definition finish (l : list (Context * ExecutionResult)) (s : Provider) : Provider :=
  mkProvider (is_running_ s) (sync_mutex_ s) (metric_requests_vector_ s) (number_metrics_in_vector_ s)
    (active_push_count_ s) (current_cancellation_callback_ s) (executor s) (calls s)
    (finished s ++ l) (put_contexts s).

Definition set_executor (callback : option nat) (t : Timers) (s : Provider) : Provider :=
  mkProvider (is_running_ s) (sync_mutex_ s) (metric_requests_vector_ s) (number_metrics_in_vector_ s)
    (active_push_count_ s) callback t (calls s) (finished s) (put_contexts s).

Definition note_put (context : Context) (s : Provider) : Provider :=
  mkProvider (is_running_ s) (sync_mutex_ s) (metric_requests_vector_ s) (number_metrics_in_vector_ s)
    (active_push_count_ s) (current_cancellation_callback_ s) (executor s) (calls s)
    (finished s) (context :: put_contexts s).

(** [ScheduleFor] sets the callback when it succeeds. *)
Definition schedule (s : Provider) : Provider * ExecutionResult :=
  let '(t, (r, timer)) := ScheduleFor (executor s) in
  (set_executor (union timer (current_cancellation_callback_ s)) t s, r).

Definition cancel (timer : nat) (s : Provider) : Provider :=
  set_executor (current_cancellation_callback_ s) (remove_timer timer (executor s)) s.

(** ** The provider *)

(** A critical section of [sync_mutex_]. *)
Definition locked {A} (f : Provider → Provider * A) : Code Provider A :=
  awaits (λ s, if sync_mutex_ s then None else Some (f s)).

Definition Init (has_executor : bool) : ExecutionResult :=
  if is_batch_recording_enable && bool_decide (metric_namespace options = "")
  then FailureExecutionResult SC_METRIC_CLIENT_PROVIDER_NAMESPACE_NOT_SET
  else if is_batch_recording_enable && negb has_executor
       then FailureExecutionResult SC_METRIC_CLIENT_PROVIDER_EXECUTOR_NOT_AVAILABLE
       else SuccessExecutionResult.

Definition RunMetricsBatchPush (now : Z) (s : Provider) : Provider :=
  let requests_vector_copy := metric_requests_vector_ s in
  let s := set_vector [] 0 s in
  match requests_vector_copy with
  | [] => s
  | _ =>
      let '(_, done, started) := MetricsBatchPush options now requests_vector_copy in
      finish done (set_calls (calls s ++ started) (u64 (active_push_count_ s + zlen started)) s)
  end.

Definition ScheduleMetricsBatchPush : Code Provider ExecutionResult :=
  running ← reads is_running_;
  if negb running then mret (FailureExecutionResult SC_METRIC_CLIENT_PROVIDER_IS_NOT_RUNNING)
  else atomically schedule.

(** The work that [ScheduleMetricsBatchPush] gives to the executor. *)
Definition scheduled_push (now : Z) : Code Provider () :=
  _ ← ScheduleMetricsBatchPush;
  locked (λ s, (RunMetricsBatchPush now s, tt)).

(** The early return leaves the mutex locked. *)
Definition Run : Code Provider ExecutionResult :=
  was_running ← locked (λ s, if is_running_ s then (leave_locked s, true) else (set_running true s, false));
  if was_running : bool then mret (FailureExecutionResult SC_METRIC_CLIENT_PROVIDER_IS_ALREADY_RUNNING)
  else if is_batch_recording_enable then ScheduleMetricsBatchPush
       else mret SuccessExecutionResult.

(** To call an empty [current_cancellation_callback_] throws. *)
Definition Stop (now : Z) : Code Provider ExecutionResult :=
  ok ← locked (λ s,
    let s := set_running false s in
    if is_batch_recording_enable then
      match current_cancellation_callback_ s with
      | Some timer => (RunMetricsBatchPush now (cancel timer s), Some tt)
      | None => (leave_locked s, None)
      end
    else (s, Some tt));
  _ ← deref ok;
  awaits (λ s, if bool_decide (active_push_count_ s = 0) then Some (s, SuccessExecutionResult) else None).

(** The critical section of [PutMetrics]. *)
Definition add_request (now : Z) (context : Context) (s : Provider) : Provider :=
  let s := set_vector (metric_requests_vector_ s ++ [context])
    (u64 (number_metrics_in_vector_ s + zlen (metrics (context_request context)))) s in
  if negb is_batch_recording_enable || (kMetricsBatchSize <=? number_metrics_in_vector_ s)
  then RunMetricsBatchPush now s else s.

Definition PutMetrics (now : Z) (context : Context) : Code Provider ExecutionResult :=
  running ← reads is_running_;
  let reject r := (_ ← modifies (finish [(context, r)]); mret r) in
  if negb running then reject (FailureExecutionResult SC_METRIC_CLIENT_PROVIDER_IS_NOT_RUNNING)
  else
    let execution_result := ValidateRequest (context_request context) options in
    if negb (Successful execution_result) then reject execution_result
    else
      _ ← locked (λ s, (add_request now context s, tt));
      mret SuccessExecutionResult.

(** The callback of the [i]th call: [active_push_count_--] and what the cloud's callback finishes. *)
Definition on_push_reply (i : nat) (r : ExecutionResult) (s : Provider) : option (Provider * Code Provider ()) :=
  '(_, contexts) ← calls s !! i;
  let s := set_calls (delete i (calls s)) (u64 (active_push_count_ s - 1)) s in
  match on_reply contexts r with
  | Some done => Some (finish done s, Ret tt)
  | None => Some (s, Fault)
  end.

Inductive ProviderEvent :=
  | CallRun
  | CallStop (now : Z)
  | CallPutMetrics (now : Z) (context : Context)
  | TimerFires (timer : nat) (now : Z)
  | CloudReplies (call : nat) (r : ExecutionResult).

Definition provider_env (s : Provider) (e : ProviderEvent) : option (Provider * Code Provider ()) :=
  match e with
  | CallRun => Some (s, ignore Run)
  | CallStop now => Some (s, ignore (Stop now))
  | CallPutMetrics now context => Some (note_put context s, ignore (PutMetrics now context))
  | TimerFires timer now =>
      if bool_decide (timer ∈ pending (executor s)) then Some (cancel timer s, scheduled_push now) else None
  | CloudReplies i r => on_push_reply i r s
  end.

Definition provider_step : World Provider → @ThreadEvent ProviderEvent → option (() * World Provider) :=
  thread_step provider_env.

End provider.
