(* ===== verification/MetricClientSpec.v ===== *)
(** * MetricClientSpec: what the metric client provider promises

    Theorems about every interleaving of the code of [MetricClient]: each
    request that [PutMetrics] was given is in one place (with its caller, in the
    vector, in a call of the cloud, or finished), so it is finished at most
    once; the vector stays below [kMetricsBatchSize] metrics; the count that
    [Stop] waits for is the number of the calls.  The runs at the end show what
    goes wrong around [Run] and [Stop]. *)

From S2P Require Import Prelude ExecResult Utils Threads Timers MetricCloud MetricClient.

Local Open Scope string_scope.
Local Open Scope list_scope.
Local Open Scope Z_scope.

Definition number_of_metrics (v : list Context) : Z :=
  foldr (λ c n, zlen (metrics (context_request c)) + n) 0 v.

Lemma number_of_metrics_app v w : number_of_metrics (v ++ w) = number_of_metrics v + number_of_metrics w.
Proof.
  induction v as [|c v IH]; [done|]. change (zlen (metrics (context_request c)) + number_of_metrics (v ++ w) =
    zlen (metrics (context_request c)) + number_of_metrics v + number_of_metrics w). lia.
Qed.

Lemma number_of_metrics_nonneg v : 0 ≤ number_of_metrics v.
Proof.
  induction v as [|c v IH]; [done|]. change (0 ≤ zlen (metrics (context_request c)) + number_of_metrics v).
  lia.
Qed.

Section spec.
Context `{!MetricCloud} (options : MetricBatchingOptions).

Definition contexts_of (cs : list (CloudRequest * list Context)) : list Context := cs ≫= snd.

(** The threads hold the contexts [l]. *)
Record provider_ok (s : Provider) (l : list Context) : Prop := {
  ok_contexts : put_contexts s ≡ₚ l ++ (finished s).*1 ++ metric_requests_vector_ s ++ contexts_of (calls s);
  ok_number : number_metrics_in_vector_ s = number_of_metrics (metric_requests_vector_ s);
  ok_bounded : number_metrics_in_vector_ s < kMetricsBatchSize;
  ok_unbatched : enable_batch_recording options = false → metric_requests_vector_ s = [];
  ok_active : active_push_count_ s = u64 (zlen (calls s))
}.

Lemma provider_ok_perm s l l' : l ≡ₚ l' → provider_ok s l → provider_ok s l'.
Proof. intros E [Hp ????]. split; try done. by rewrite Hp, E. Qed.

Lemma provider_ok_same s s' l :
  finished s' = finished s → metric_requests_vector_ s' = metric_requests_vector_ s → calls s' = calls s →
  number_metrics_in_vector_ s' = number_metrics_in_vector_ s → active_push_count_ s' = active_push_count_ s →
  put_contexts s' = put_contexts s → provider_ok s l → provider_ok s' l.
Proof. intros E1 E2 E3 E4 E5 E6 [H1 H2 H3 H4 H5]. split; rewrite ?E1, ?E2, ?E3, ?E4, ?E5, ?E6; done. Qed.

Lemma push_ok now s l :
  put_contexts s ≡ₚ l ++ (finished s).*1 ++ metric_requests_vector_ s ++ contexts_of (calls s) →
  (enable_batch_recording options = true ∨ (length (metric_requests_vector_ s) ≤ 1)%nat) →
  active_push_count_ s = u64 (zlen (calls s)) →
  provider_ok (RunMetricsBatchPush options now s) l.
Proof.
  intros HP Hv Ha. unfold RunMetricsBatchPush. destruct (metric_requests_vector_ s) as [|c v] eqn:Ev; [split; done|].
  destruct (MetricsBatchPush options now (c :: v)) as [[r done] started] eqn:Ep.
  pose proof (push_partition _ _ _ _ _ _ Hv Ep) as Hpart. split; cbn; try done.
  - rewrite HP, <-Hpart. unfold contexts_of. rewrite fmap_app, bind_app. solve_Permutation.
  - rewrite Ha, length_app, Nat2Z.inj_add. unfold u64. apply Zplus_mod_idemp_l.
Qed.

Lemma push_keeps_ok now s l : provider_ok s l → provider_ok (RunMetricsBatchPush options now s) l.
Proof.
  intros [H1 H2 H3 H4 H5]. apply push_ok; [done| |done].
  destruct (enable_batch_recording options); [by left|right]. rewrite H4 by done. cbn. lia.
Qed.

Lemma add_request_ok now context s l :
  zlen (metrics (context_request context)) < 2 ^ 31 → provider_ok s (context :: l) →
  provider_ok (add_request options now context s) l.
Proof.
  intros Hsize [H1 H2 H3 H4 H5]. unfold add_request. cbv zeta.
  set (s1 := set_vector _ _ _).
  assert (number_metrics_in_vector_ s1 = number_of_metrics (metric_requests_vector_ s1)) as Hn.
  { cbn. rewrite number_of_metrics_app, H2. cbn. rewrite Z.add_0_r. apply Z.mod_small.
    pose proof (number_of_metrics_nonneg (metric_requests_vector_ s)). lia. }
  assert (put_contexts s1 ≡ₚ l ++ (finished s1).*1 ++ metric_requests_vector_ s1 ++ contexts_of (calls s1)) as HP.
  { cbn. rewrite H1. solve_Permutation. }
  destruct (enable_batch_recording options) eqn:Eb; cbn [negb orb].
  - destruct (Z.leb_spec kMetricsBatchSize (number_metrics_in_vector_ s1)).
    + apply push_ok; auto.
    + split; auto. by rewrite Eb.
  - apply push_ok; auto. right. cbn. rewrite H4 by done. cbn. lia.
Qed.

(** ** The code keeps the invariant *)

#[local] Abbreviation keeps := (owns provider_ok).

Lemma owns_locked {A} (f : Provider → Provider * A) k l l' :
  (∀ s rest, provider_ok s (l ++ rest) → provider_ok (f s).1 (l' ++ rest)) → (∀ a, keeps (k a) l') →
  keeps (locked f ≫= k) l.
Proof.
  intros Hf. apply owns_awaits. intros s rest s' a HI E. destruct (sync_mutex_ s); [done|].
  injection E as Ef. specialize (Hf s rest HI). by rewrite Ef in Hf.
Qed.

Lemma schedule_keeps k : (∀ a, keeps (k a) []) → keeps (ScheduleMetricsBatchPush ≫= k) [].
Proof.
  intros Hk. apply owns_reads. intros []; cbn [negb]; [|apply Hk]. apply (owns_atomically _ _ _ _ []); [|apply Hk]. intros s rest HI.
  unfold schedule. destruct (ScheduleFor _) as [t [r timer]]. by eapply provider_ok_same; [..|exact HI].
Qed.

Lemma run_keeps : keeps (ignore (Run options)) [].
Proof.
  unfold ignore, Run. apply (owns_locked _ _ [] []).
  - intros s rest HI. destruct (is_running_ s); (eapply provider_ok_same; [..|exact HI]; done).
  - intros []; [done|]. destruct (enable_batch_recording options); [|done]. by apply schedule_keeps.
Qed.

Lemma stop_keeps now : keeps (ignore (Stop options now)) [].
Proof.
  unfold ignore, Stop. apply (owns_locked _ _ [] []).
  - intros s rest HI. destruct (enable_batch_recording options); [|by eapply provider_ok_same; [..|exact HI]].
    cbn [current_cancellation_callback_ set_running]. destruct (current_cancellation_callback_ s); cbn [fst].
    + apply push_keeps_ok. by eapply provider_ok_same; [..|exact HI].
    + by eapply provider_ok_same; [..|exact HI].
  - intros [[]|]; [|done]. intros s rest s' r HI E. destruct (bool_decide _); [|done]. injection E as <- <-. by exists [].
Qed.

Lemma put_metrics_keeps now context :
  zlen (metrics (context_request context)) < 2 ^ 31 → keeps (ignore (PutMetrics options now context)) [context].
Proof.
  intros Hsize. unfold ignore, PutMetrics.
  assert (∀ r, keeps (_ ← (_ ← modifies (finish [(context, r)]); mret r); mret tt) [context]) as Hreject.
  { intros r s rest [H1 H2 H3 H4 H5]. exists []. split; [|done]. split; try done. cbn. rewrite H1, fmap_app. cbn. solve_Permutation. }
  apply owns_reads. intros []; cbn [negb]; [|apply Hreject].
  destruct (Successful _); cbn [negb]; [|apply Hreject].
  apply (owns_locked _ _ _ []); [|done]. intros s rest HI. by apply add_request_ok.
Qed.

Lemma scheduled_keeps now : keeps (scheduled_push options now) [].
Proof.
  apply schedule_keeps. intros _. apply (owns_locked (λ s, (RunMetricsBatchPush options now s, tt)) Ret [] []); [|by intros []].
  intros s rest HI. by apply push_keeps_ok.
Qed.

Lemma contexts_delete cs i q v : cs !! i = Some (q, v) → contexts_of cs ≡ₚ v ++ contexts_of (delete i cs).
Proof.
  intros Ei. unfold contexts_of. by rewrite (delete_Permutation cs i (q, v) Ei) at 1.
Qed.

Definition small_request (e : ProviderEvent) : Prop :=
  match e with CallPutMetrics _ context => zlen (metrics (context_request context)) < 2 ^ 31 | _ => True end.

Lemma reply_ok s l i r s' c : provider_ok s l → on_push_reply i r s = Some (s', c) →
  ∃ l', keeps c l' ∧ provider_ok s' (l' ++ l).
Proof.
  intros [H1 H2 H3 H4 H5] E. unfold on_push_reply in E. destruct (calls s !! i) as [[q v]|] eqn:Ei; [|done]. cbn in E.
  assert (u64 (active_push_count_ s - 1) = u64 (zlen (delete i (calls s)))) as Ha.
  { rewrite H5. unfold u64. rewrite Zminus_mod_idemp_l. f_equal.
    pose proof (lookup_lt_Some _ _ _ Ei). rewrite length_delete by eauto. lia. }
  pose proof (contexts_delete _ _ _ _ Ei) as Hd. destruct (on_reply v r) as [done|] eqn:Er; injection E as <- <-.
  - exists []. split; [reflexivity|]. split; auto. cbn. rewrite H1, fmap_app, (reply_finishes _ _ _ Er), Hd. solve_Permutation.
  - exists v. split; [exact I|]. split; auto. cbn. rewrite H1, Hd. solve_Permutation.
Qed.

Lemma env_keeps s e s' c l : small_request e → provider_ok s l → provider_env options s e = Some (s', c) →
  ∃ l', keeps c l' ∧ provider_ok s' (l' ++ l).
Proof.
  intros Hs HI E. destruct e as [|now|now context|timer now|i r]; cbn in E.
  - injection E as <- <-. exists []. split; [apply run_keeps|done].
  - injection E as <- <-. exists []. split; [apply stop_keeps|done].
  - injection E as <- <-. exists [context]. split; [by apply put_metrics_keeps|].
    destruct HI as [H1 ????]. split; try done. cbn. by rewrite H1.
  - destruct (bool_decide _); [|done]. injection E as <- <-. exists []. split; [apply scheduled_keeps|].
    by eapply provider_ok_same; [..|exact HI].
  - by eapply reply_ok.
Qed.

Lemma initial_ok answers : provider_ok (initial_provider answers) [].
Proof. split; cbn; try done. Qed.

#[local] Abbreviation runs answers evs rs w :=
  (run_ops (provider_step options) (mkWorld (initial_provider answers) []) evs = Some (rs, w)).
#[local] Abbreviation small_requests :=
  (Forall (λ ev, match ev with Env e => small_request e | Threads.Run _ => True end)).

Lemma run_ok w evs rs w' ls :
  small_requests evs → world_ok provider_ok w ls → run_ops (provider_step options) w evs = Some (rs, w') →
  ∃ ls', world_ok provider_ok w' ls'.
Proof. intros Hs Hw E. eapply owns_run; [apply provider_ok_perm|apply env_keeps|done|done|done]. Qed.

Lemma initial_world_ok answers : world_ok provider_ok (mkWorld (initial_provider answers) []) [].
Proof. split; [constructor|apply initial_ok]. Qed.

(** C8: In every interleaving of the provider's calls, timers and replies, no context is finished
    twice, only contexts that [PutMetrics] was called with are finished, and when no call is under way
    the ones that are not finished are those of the vector and of the calls of the cloud. *)
Theorem metrics_finish_once answers evs rs w :
  runs answers evs rs w → small_requests evs → NoDup (put_contexts (shared w)) →
  NoDup (finished (shared w)).*1 ∧ (finished (shared w)).*1 ⊆ put_contexts (shared w) ∧
  (ended w = true → (finished (shared w)).*1 ++ metric_requests_vector_ (shared w) ++ contexts_of (calls (shared w)) ≡ₚ
    put_contexts (shared w)).
Proof.
  intros E Hs Hnd. destruct (run_ok _ _ _ _ _ Hs (initial_world_ok answers) E) as [ls Hw].
  pose proof (ok_contexts _ _ (proj2 Hw)) as HP. rewrite HP in Hnd. apply NoDup_app in Hnd as (_ & _ & Hnd).
  apply NoDup_app in Hnd as (Hnd & _ & _). repeat split; [done| |].
  - intros c Hc. rewrite HP, !elem_of_app. auto.
  - intros He. by rewrite (ok_contexts _ _ (ended_owns_nothing _ _ _ Hw He)).
Qed.

(** In every interleaving the counter of the metrics is the number of metrics in the vector and
    below [kMetricsBatchSize], nothing waits when batching is off, and [active_push_count_], on which
    [Stop] waits, is the number of calls that the cloud has not answered. *)
Theorem vector_is_bounded answers evs rs w :
  runs answers evs rs w → small_requests evs →
  number_metrics_in_vector_ (shared w) = number_of_metrics (metric_requests_vector_ (shared w)) ∧
  number_of_metrics (metric_requests_vector_ (shared w)) < kMetricsBatchSize ∧
  (enable_batch_recording options = false → metric_requests_vector_ (shared w) = []) ∧
  active_push_count_ (shared w) = u64 (zlen (calls (shared w))).
Proof.
  intros E Hs. destruct (run_ok _ _ _ _ _ Hs (initial_world_ok answers) E) as [ls [_ HI]].
  destruct HI as [H1 H2 H3 H4 H5]. rewrite <-H2. done.
Qed.

(** ** Stop *)

(** The cloud answers each of its calls. *)
Lemma replies_drain r : (∀ v, is_Some (on_reply v r)) → ∀ n s ts, length (calls s) = n →
  ∃ rs s' ts', run_ops (provider_step options) (mkWorld s ts) (replicate n (Env (CloudReplies 0 r))) =
      Some (rs, mkWorld s' (ts ++ ts')) ∧
    ended (mkWorld s ts') = true ∧ calls s' = [] ∧ metric_requests_vector_ s' = metric_requests_vector_ s ∧
    is_running_ s' = is_running_ s.
Proof.
  intros Hr. induction n as [|n IH]; intros s ts Hn.
  { exists [], s, []. rewrite app_nil_r. by apply nil_length_inv in Hn. }
  destruct (calls s) as [|[q v] cs] eqn:Ec; [done|]. injection Hn as Hn. destruct (Hr v) as [done Hv].
  set (s1 := finish done (set_calls cs (u64 (active_push_count_ s - 1)) s)).
  destruct (IH s1 (ts ++ [Ret tt]) Hn) as (rs & s' & ts' & E & He & Hc & Hvec & Hrun).
  exists (tt :: rs), s', (Ret tt :: ts'). split; [|by repeat split].
  eapply run_step; [|by rewrite <-app_assoc in E].
  unfold provider_step. cbn [thread_step provider_env shared threads]. unfold on_push_reply. rewrite Ec. cbn. by rewrite Hv.
Qed.

Lemma push_empties now s : metric_requests_vector_ (RunMetricsBatchPush options now s) = [] ∧
  is_running_ (RunMetricsBatchPush options now s) = is_running_ s.
Proof.
  unfold RunMetricsBatchPush. destruct (metric_requests_vector_ s); [done|]. by destruct (MetricsBatchPush _ _ _) as [[]].
Qed.

Lemma ended_app s (ts ts' : list (Code Provider ())) :
  ended (mkWorld s (ts ++ ts')) = ended (mkWorld s ts) && ended (mkWorld s ts').
Proof. apply forallb_app. Qed.

#[local] Abbreviation wait_for_pushes :=
  (ignore (awaits (λ s, if bool_decide (active_push_count_ s = 0) then Some (s, SuccessExecutionResult) else None))).

(** [Stop] up to its wait. *)
Lemma stop_pushes now s ts timer :
  enable_batch_recording options = true → sync_mutex_ s = false → current_cancellation_callback_ s = Some timer →
  run_ops (provider_step options) (mkWorld s ts) [Env (CallStop now); Threads.Run (length ts)] =
    Some ([tt; tt], mkWorld (RunMetricsBatchPush options now (cancel timer (set_running false s))) (ts ++ [wait_for_pushes])).
Proof.
  intros Hb Hm Ht. unfold provider_step. cbn [run_ops thread_step provider_env shared threads mbind option_bind fst snd].
  rewrite list_lookup_middle by done. cbn. rewrite Hm, Hb, Ht. cbn. by rewrite insert_app_r_alt, Nat.sub_diag by done.
Qed.

(** The wait is over when there are no calls. *)
Lemma stop_returns s ts ts' ls :
  world_ok provider_ok (mkWorld s ((ts ++ [wait_for_pushes]) ++ ts')) ls → calls s = [] →
  run_ops (provider_step options) (mkWorld s ((ts ++ [wait_for_pushes]) ++ ts')) [Threads.Run (length ts)] =
    Some ([tt], mkWorld s ((ts ++ [Ret tt]) ++ ts')).
Proof.
  intros [_ HI] Hc. pose proof (ok_active _ _ HI) as Ha. cbn [shared] in Ha. rewrite Hc in Ha.
  unfold provider_step. cbn [run_ops thread_step shared threads]. rewrite <-!app_assoc. cbn [app]. rewrite list_lookup_middle by done.
  cbn. rewrite bool_decide_true by done. cbn. by rewrite insert_app_r_alt, Nat.sub_diag by done.
Qed.

End spec.

(** ** Runs *)

Module Runs.

(** AWS's provider, with a request of at most 100 bytes. *)
#[local] Instance any_double : Stod := {| Double := (); stod := λ _, Some tt |}.
#[local] Instance aws : MetricCloud := Aws.cloud (λ _, 100).

Definition batching : MetricBatchingOptions := mkMetricBatchingOptions "ns" true 1000.
Definition direct : MetricBatchingOptions := mkMetricBatchingOptions "" false 0.
Definition request : PutMetricsRequest := mkPutMetricsRequest "ns" [mkMetric "m" "1" COUNT ∅ 0].
Definition context (i : nat) : Context := mkContext i request.

Definition start : World Provider := mkWorld (initial_provider []) [].

(** What is seen of the provider at the end of a run, when all threads have ended. *)
Definition observe {A} (f : Provider → A) (options : MetricBatchingOptions) (evs : list (@ThreadEvent ProviderEvent))
  : option (A * bool) :=
  (λ '(_, w), (f (shared w), ended w)) <$> run_ops (provider_step options) start evs.

Lemma observe_run {A} (f : Provider → A) options evs a b : observe f options evs = Some (a, b) →
  ∃ rs w, run_ops (provider_step options) start evs = Some (rs, w) ∧ f (shared w) = a ∧ ended w = b.
Proof.
  unfold observe. destruct (run_ops _ start evs) as [[rs w]|]; [|done]. cbn. intros [= <- <-]. eauto.
Qed.

(** A request before [Run], one after it, which the timer pushes, and one that waits. *)
Definition timer_run : list (@ThreadEvent ProviderEvent) :=
  [Env (CallPutMetrics 5 (context 0)); Threads.Run 0; Threads.Run 0;
   Env CallRun; Threads.Run 1; Threads.Run 1; Threads.Run 1;
   Env (CallPutMetrics 5 (context 1)); Threads.Run 2; Threads.Run 2;
   Env (TimerFires 0 5); Threads.Run 3; Threads.Run 3; Threads.Run 3;
   Env (CloudReplies 0 SuccessExecutionResult);
   Env (CallPutMetrics 5 (context 2)); Threads.Run 5; Threads.Run 5].

Lemma timer_run_small : Forall (λ ev, match ev with Env e => small_request e | Threads.Run _ => True end) timer_run.
Proof. by repeat constructor. Qed.

Lemma metrics_finish_once_witness :
  ∃ rs w, run_ops (provider_step batching) start timer_run = Some (rs, w) ∧ ended w = true ∧
    NoDup (finished (shared w)).*1.
Proof.
  destruct (observe_run put_contexts batching timer_run [context 2; context 1; context 0] true)
    as (rs & w & E & Hp & He); [by vm_compute|].
  exists rs, w. split; [done|]. split; [done|]. apply (metrics_finish_once batching [] timer_run rs w E timer_run_small).
  rewrite Hp. apply (NoDup_fmap_1 context_id). by apply (bool_decide_unpack _); vm_compute.
Defined.

Lemma vector_is_bounded_witness :
  ∃ rs w, run_ops (provider_step batching) start timer_run = Some (rs, w) ∧
    metric_requests_vector_ (shared w) = [context 2] ∧
    number_of_metrics (metric_requests_vector_ (shared w)) < kMetricsBatchSize.
Proof.
  destruct (observe_run metric_requests_vector_ batching timer_run [context 2] true)
    as (rs & w & E & Hp & He); [by vm_compute|].
  exists rs, w. split; [done|]. split; [done|].
  by apply (vector_is_bounded batching [] timer_run rs w E timer_run_small).
Defined.


(** A [PutMetrics] that has seen the provider running can add its context after [Stop] has pushed
    the vector: [Stop] returns, the timer is cancelled, no call is under way, and the context stays in the
    vector, neither pushed nor finished, although [PutMetrics] returns a success. *)
Theorem put_racing_stop_is_lost :
  observe (λ s, (is_running_ s, pending (executor s), length (calls s), metric_requests_vector_ s, finished s)) batching
    [Env CallRun; Threads.Run 0; Threads.Run 0; Threads.Run 0;
     Env (CallPutMetrics 5 (context 0)); Threads.Run 1;
     Env (CallStop 5); Threads.Run 2; Threads.Run 2;
     Threads.Run 1] =
  Some ((false, [], 0%nat, [context 0], []), true).
Proof. by vm_compute. Qed.

(** A second [Run] returns a failure with the mutex locked: after it [PutMetrics] of a valid request,
    [Stop] and [Run] wait for ever. *)
Theorem second_run_locks_out s options :
  is_running_ s = true → sync_mutex_ s = false →
  ∃ s', run_code (Run options) s = Some (s', FailureExecutionResult SC_METRIC_CLIENT_PROVIDER_IS_ALREADY_RUNNING) ∧
    ∀ now c, run_code (Run options) s' = None ∧ run_code (Stop options now) s' = None ∧
      (Successful (ValidateRequest (context_request c) options) = true → run_code (PutMetrics options now c) s' = None).
Proof.
  intros Hr Hm. exists (leave_locked s). split; [cbn; by rewrite Hm; cbn; rewrite Hr|].
  intros now c. split; [done|]. split; [done|]. intros Hv. cbn. rewrite Hr. cbn. by rewrite Hv.
Qed.

Lemma second_run_locks_out_witness :
  ∃ s', run_code (Run direct) (set_running true (initial_provider [])) =
    Some (s', FailureExecutionResult SC_METRIC_CLIENT_PROVIDER_IS_ALREADY_RUNNING) ∧
    run_code (PutMetrics direct 5 (context 0)) s' = None.
Proof.
  destruct (second_run_locks_out (set_running true (initial_provider [])) direct eq_refl eq_refl) as (s' & E & H).
  exists s'. split; [done|]. by apply (H 5 (context 0)).
Defined.

(** [Stop] before [Run] with batching calls an empty function, which throws. *)
Lemma stop_before_run_crashes :
  (λ '(_, w), faulted w) <$> run_ops (provider_step batching) start [Env (CallStop 5); Threads.Run 0] = Some true.
Proof. by vm_compute. Qed.

End Runs.
