(* ===== verification/MetricAggregation.v ===== *)
(** * MetricAggregation: metrics that count events

    Models [cc/public/cpio/utils/metric_aggregation/src]: [AggregateMetric]
    (counters that a timer pushes to the metric client), [SimpleMetric],
    [MetricUtils] and [MetricInstanceFactory], with [interface/type_def.h] and
    [ConvertToMetricUnitProto] of the metric client provider.

    [AggregateMetric] is code of several threads ([Threads]): each access to an
    atomic is one action, and so is a critical section of [task_schedule_mutex_],
    in which only the executor ([Timers]) is called.  [accepted] is a ghost: the
    increments that were added to a counter, and [pushed] has the calls of the
    metric client, whose result is only logged. *)

From stdpp Require Import pretty.
From S2P Require Import Prelude ExecResult Utils Threads Timers MetricCloud.

Local Open Scope string_scope.
Local Open Scope list_scope.
Local Open Scope Z_scope.

Abbreviation SC_CUSTOMIZED_METRIC := 0x020D%Z (only parsing).
Abbreviation SC_CUSTOMIZED_METRIC_PUSH_CANNOT_SCHEDULE := (MakeErrorCode SC_CUSTOMIZED_METRIC 0x0001).
Abbreviation SC_CUSTOMIZED_METRIC_EVENT_CODE_NOT_EXIST := (MakeErrorCode SC_CUSTOMIZED_METRIC 0x0002).
Abbreviation SC_CUSTOMIZED_METRIC_NOT_RUNNING := (MakeErrorCode SC_CUSTOMIZED_METRIC 0x0003).
Abbreviation SC_CUSTOMIZED_METRIC_ALREADY_RUNNING := (MakeErrorCode SC_CUSTOMIZED_METRIC 0x0004).
Abbreviation SC_CUSTOMIZED_METRIC_CANNOT_INCREMENT_WHEN_NOT_RUNNING := (MakeErrorCode SC_CUSTOMIZED_METRIC 0x0005).

(** ** Metric definitions *)

Module Unit.
Inductive MetricUnit :=
  | kUnknown | kSeconds | kMicroseconds | kMilliseconds
  | kBits | kKilobits | kMegabits | kGigabits | kTerabits
  | kBytes | kKilobytes | kMegabytes | kGigabytes | kTerabytes
  | kCount | kPercent
  | kBitsPerSecond | kKilobitsPerSecond | kMegabitsPerSecond | kGigabitsPerSecond | kTerabitsPerSecond
  | kBytesPerSecond | kKilobytesPerSecond | kMegabytesPerSecond | kGigabytesPerSecond | kTerabytesPerSecond
  | kCountPerSecond.

Definition ConvertToMetricUnitProto (u : MetricUnit) : MetricCloud.MetricUnit :=
  match u with
  | kSeconds => SECONDS
  | kMicroseconds => MICROSECONDS
  | kMilliseconds => MILLISECONDS
  | kBits => BITS
  | kKilobits => KILOBITS
  | kMegabits => MEGABITS
  | kGigabits => GIGABITS
  | kTerabits => TERABITS
  | kBytes => BYTES
  | kKilobytes => KILOBYTES
  | kMegabytes => MEGABYTES
  | kGigabytes => GIGABYTES
  | kTerabytes => TERABYTES
  | kCount => COUNT
  | kPercent => PERCENT
  | kBitsPerSecond => BITS_PER_SECOND
  | kKilobitsPerSecond => KILOBITS_PER_SECOND
  | kMegabitsPerSecond => MEGABITS_PER_SECOND
  | kGigabitsPerSecond => GIGABITS_PER_SECOND
  | kTerabitsPerSecond => TERABITS_PER_SECOND
  | kBytesPerSecond => BYTES_PER_SECOND
  | kKilobytesPerSecond => KILOBYTES_PER_SECOND
  | kMegabytesPerSecond => MEGABYTES_PER_SECOND
  | kGigabytesPerSecond => GIGABYTES_PER_SECOND
  | kTerabytesPerSecond => TERABYTES_PER_SECOND
  | kCountPerSecond => COUNT_PER_SECOND
  | kUnknown => UNKNOWN
  end.
End Unit.

Record MetricDefinition := mkMetricDefinition {
  name : string;
  unit : Unit.MetricUnit;
  labels : gmap string string;
  definition_namespace : string
}.

(** [std::map::insert]: a label that is there stays. *)
Definition AddMetricLabels (metric_labels : gmap string string) (m : MetricDefinition) : MetricDefinition :=
  mkMetricDefinition (name m) (unit m) (labels m ∪ metric_labels) (definition_namespace m).

Definition GetPutMetricsRequest (now : Z) (metric_info : MetricDefinition) (metric_value : string) : PutMetricsRequest :=
  mkPutMetricsRequest (definition_namespace metric_info)
    [mkMetric (name metric_info) metric_value (Unit.ConvertToMetricUnitProto (unit metric_info)) (labels metric_info) now].

Abbreviation kMethodName := "MethodName"%string (only parsing).
Abbreviation kComponentName := "ComponentName"%string (only parsing).

Definition CreateMetricLabelsWithComponentSignature (component_name method_name : string) : gmap string string :=
  let labels := {[ kComponentName := component_name ]} in
  if bool_decide (method_name = "") then labels else <[ kMethodName := method_name ]> labels.

(** ** AggregateMetric *)

Abbreviation kEventCodeLabelKey := "EventCode"%string (only parsing).

(** The counter without an event code, or the one of an event code. *)
Definition Counter : Type := option string.

Record Aggregate := mkAggregate {
  counters : gmap Counter Z;                     (* [counter_] and [event_counters_] *)
  event_metric_infos_ : gmap string MetricDefinition;
  metric_info_ : MetricDefinition;
  is_running_ : bool;
  can_accept_incoming_increments_ : bool;
  current_cancellation_callback_ : option nat;
  executor : Timers;
  pushed : list (Counter * Z * PutMetricsRequest);
  accepted : list (Counter * Z)
}.

Definition event_metric (info : MetricDefinition) (key code : string) : MetricDefinition :=
  AddMetricLabels {[ key := code ]} info.

(** The constructor with event codes; the other one has none. *)
Definition construct (info : MetricDefinition) (event_code_labels_list : list string) (event_code_label_key : string)
    (answers : list ExecutionResult) : Aggregate :=
  mkAggregate
    (foldr (λ code m, <[ Some code := 0 ]> m) {[ None := 0 ]} event_code_labels_list)
    (foldr (λ code m, <[ code := event_metric info event_code_label_key code ]> m) ∅ event_code_labels_list)
    info false false None (no_timers answers) [] [].

Definition set_counter (c : Counter) (v : Z) (s : Aggregate) : Aggregate :=
  mkAggregate (<[ c := v ]> (counters s)) (event_metric_infos_ s) (metric_info_ s) (is_running_ s)
    (can_accept_incoming_increments_ s) (current_cancellation_callback_ s) (executor s) (pushed s) (accepted s).

Definition set_running (b : bool) (s : Aggregate) : Aggregate :=
  mkAggregate (counters s) (event_metric_infos_ s) (metric_info_ s) b
    (can_accept_incoming_increments_ s) (current_cancellation_callback_ s) (executor s) (pushed s) (accepted s).

Definition set_accepting (b : bool) (s : Aggregate) : Aggregate :=
  mkAggregate (counters s) (event_metric_infos_ s) (metric_info_ s) (is_running_ s)
    b (current_cancellation_callback_ s) (executor s) (pushed s) (accepted s).

Definition set_executor (callback : option nat) (t : Timers) (s : Aggregate) : Aggregate :=
  mkAggregate (counters s) (event_metric_infos_ s) (metric_info_ s) (is_running_ s)
    (can_accept_incoming_increments_ s) callback t (pushed s) (accepted s).

Definition note_accepted (c : Counter) (v : Z) (s : Aggregate) : Aggregate :=
  mkAggregate (counters s) (event_metric_infos_ s) (metric_info_ s) (is_running_ s)
    (can_accept_incoming_increments_ s) (current_cancellation_callback_ s) (executor s) (pushed s)
    ((c, v) :: accepted s).

Definition put (c : Counter) (v : Z) (request : PutMetricsRequest) (s : Aggregate) : Aggregate :=
  mkAggregate (counters s) (event_metric_infos_ s) (metric_info_ s) (is_running_ s)
    (can_accept_incoming_increments_ s) (current_cancellation_callback_ s) (executor s)
    (pushed s ++ [(c, v, request)]) (accepted s).

Definition value_of (c : Counter) (s : Aggregate) : Z := default 0 (counters s !! c).

Definition cancel (timer : nat) (s : Aggregate) : Aggregate :=
  set_executor (current_cancellation_callback_ s) (remove_timer timer (executor s)) s.

Section aggregate.
(** The keys of [event_counters_], in the order in which the map is iterated over. *)
Variable event_codes : list string.

Definition ScheduleMetricPush : Code Aggregate ExecutionResult :=
  atomically (λ s,
    if negb (is_running_ s) then (s, FailureExecutionResult SC_CUSTOMIZED_METRIC_NOT_RUNNING)
    else
      let '(t, (r, timer)) := ScheduleFor (executor s) in
      (set_executor (union timer (current_cancellation_callback_ s)) t s,
       if Successful r then SuccessExecutionResult
       else FailureExecutionResult SC_CUSTOMIZED_METRIC_PUSH_CANNOT_SCHEDULE)).

(** The counter is passed as an [int64_t]. *)
Definition MetricPushHandler (now : Z) (c : Counter) (v : Z) (metric_info : MetricDefinition) : Code Aggregate () :=
  modifies (put c v (GetPutMetricsRequest now metric_info (pretty (s64 v)))).

(** [exchange(0)] and the push of what was there. *)
Definition push_counter (now : Z) (c : Counter) (info : Aggregate → option MetricDefinition) : Code Aggregate () :=
  value ← atomically (λ s, (set_counter c 0 s, value_of c s));
  if 0 <? value then
    metric_info ← reads info;
    metric_info ← deref metric_info;
    MetricPushHandler now c value metric_info
  else mret tt.

Definition RunMetricPush (now : Z) : Code Aggregate () :=
  _ ← push_counter now None (Some ∘ metric_info_);
  for_all event_codes (λ code, push_counter now (Some code) (λ s, event_metric_infos_ s !! code)).

Definition scheduled_push (now : Z) : Code Aggregate () :=
  _ ← RunMetricPush now;
  _ ← ScheduleMetricPush;
  mret tt.

Definition Run : Code Aggregate ExecutionResult :=
  running ← reads is_running_;
  if running : bool then mret (FailureExecutionResult SC_CUSTOMIZED_METRIC_ALREADY_RUNNING)
  else
    _ ← modifies (set_running true);
    _ ← modifies (set_accepting true);
    ScheduleMetricPush.

(** [while (counter.load() > 0) sleep]. *)
Definition wait_flushed (c : Counter) : Code Aggregate () :=
  awaits (λ s, if 0 <? value_of c s then None else Some (s, tt)).

Definition Stop : Code Aggregate ExecutionResult :=
  running ← reads is_running_;
  if negb running then mret (FailureExecutionResult SC_CUSTOMIZED_METRIC_NOT_RUNNING)
  else
    _ ← modifies (set_accepting false);
    _ ← wait_flushed None;
    _ ← for_all event_codes (λ code, wait_flushed (Some code));
    _ ← modifies (set_running false);
    callback ← reads current_cancellation_callback_;
    match callback with
    | Some timer => _ ← modifies (cancel timer); mret SuccessExecutionResult
    | None => mret SuccessExecutionResult
    end.

Definition add (c : Counter) (v : Z) (s : Aggregate) : Aggregate :=
  note_accepted c v (set_counter c (u64 (value_of c s + v)) s).

(** The keys of [event_counters_] do not change: [find] needs no action of its own. *)
Definition IncrementBy (value : Z) (event_code : string) : Code Aggregate ExecutionResult :=
  accepting ← reads can_accept_incoming_increments_;
  if negb accepting then mret (FailureExecutionResult SC_CUSTOMIZED_METRIC_CANNOT_INCREMENT_WHEN_NOT_RUNNING)
  else if bool_decide (event_code = "") then _ ← modifies (add None value); mret SuccessExecutionResult
  else if bool_decide (event_code ∈ event_codes)
  then _ ← modifies (add (Some event_code) value); mret SuccessExecutionResult
  else mret (FailureExecutionResult SC_CUSTOMIZED_METRIC_EVENT_CODE_NOT_EXIST).

Definition Increment (event_code : string) : Code Aggregate ExecutionResult := IncrementBy 1 event_code.

Inductive AggregateEvent :=
  | CallRun
  | CallStop
  | CallIncrementBy (value : Z) (event_code : string)
  | TimerFires (timer : nat) (now : Z).

Definition aggregate_env (s : Aggregate) (e : AggregateEvent) : option (Aggregate * Code Aggregate ()) :=
  match e with
  | CallRun => Some (s, ignore Run)
  | CallStop => Some (s, ignore Stop)
  | CallIncrementBy value code => Some (s, ignore (IncrementBy value code))
  | TimerFires timer now =>
      if bool_decide (timer ∈ pending (executor s)) then Some (cancel timer s, scheduled_push now) else None
  end.

Definition aggregate_step : World Aggregate → @ThreadEvent AggregateEvent → option (() * World Aggregate) :=
  thread_step aggregate_env.
End aggregate.

(** ** SimpleMetric *)

Module Simple.
Record SimpleMetric := mkSimpleMetric {
  metric_info_ : MetricDefinition;
  current_task_cancellation_callback_ : option nat;
  executor : Timers;
  tasks : gmap nat PutMetricsRequest;            (* what the timers push *)
  put_requests : list PutMetricsRequest
}.

Definition construct_simple (info : MetricDefinition) (answers : list ExecutionResult) : SimpleMetric :=
  mkSimpleMetric info None (no_timers answers) ∅ [].

Definition Push (now : Z) (metric_value : string) (metric_info : option MetricDefinition) (s : SimpleMetric)
  : SimpleMetric :=
  let request := GetPutMetricsRequest now (default (metric_info_ s) metric_info) metric_value in
  let '(t, (_, timer)) := ScheduleFor (executor s) in
  match timer with
  | Some timer => mkSimpleMetric (metric_info_ s) (Some timer) t (<[ timer := request ]> (tasks s)) (put_requests s)
  | None => mkSimpleMetric (metric_info_ s) (current_task_cancellation_callback_ s) t (tasks s) (put_requests s)
  end.

(** [RunMetricPush]. *)
Definition PutRequest (request : PutMetricsRequest) (s : SimpleMetric) : SimpleMetric :=
  mkSimpleMetric (metric_info_ s) (current_task_cancellation_callback_ s) (executor s) (tasks s)
    (put_requests s ++ [request]).

Definition drop_timer (timer : nat) (s : SimpleMetric) : SimpleMetric :=
  mkSimpleMetric (metric_info_ s) (current_task_cancellation_callback_ s) (remove_timer timer (executor s)) (tasks s)
    (put_requests s).

(** [Stop] cancels the last task only. *)
Definition StopSimple (s : SimpleMetric) : SimpleMetric * ExecutionResult :=
  (from_option (λ timer, drop_timer timer s) s (current_task_cancellation_callback_ s), SuccessExecutionResult).

Inductive SimpleEvent :=
  | CallPush (now : Z) (metric_value : string) (metric_info : option MetricDefinition)
  | CallStop
  | TimerFires (timer : nat).

Definition simple_step (s : SimpleMetric) (e : SimpleEvent) : option (() * SimpleMetric) :=
  match e with
  | CallPush now v info => Some (tt, Push now v info s)
  | CallStop => Some (tt, (StopSimple s).1)
  | TimerFires timer =>
      if bool_decide (timer ∈ pending (executor s))
      then request ← tasks s !! timer; Some (tt, PutRequest request (drop_timer timer s))
      else None
  end.
End Simple.

(** ** MetricInstanceFactory *)

Definition ConstructSimpleMetricInstance (info : MetricDefinition) (answers : list ExecutionResult)
  : Simple.SimpleMetric := Simple.construct_simple info answers.

(** An empty key stands for the default one. *)
Definition ConstructAggregateMetricInstance (info : MetricDefinition) (event_code_labels_list : list string)
    (event_code_name : string) (answers : list ExecutionResult) : Aggregate :=
  if bool_decide (event_code_name = "") then construct info event_code_labels_list kEventCodeLabelKey answers
  else construct info event_code_labels_list event_code_name answers.
