(* ===== verification/MetricAggregationSpec.v ===== *)
(** * MetricAggregationSpec: what the aggregated metrics promise

    In every interleaving of the code of [MetricAggregation], what was added to
    a counter is what is in it, what a push under way has taken out of it, and
    what has been pushed: no increment is lost or pushed twice.  A push without
    interference empties every counter.  The runs at the end show increments
    that [Stop] leaves behind, and a [Stop] that cannot return. *)

From S2P Require Import Prelude ExecResult Utils Threads Timers MetricCloud MetricAggregation.

Local Open Scope string_scope.
Local Open Scope list_scope.
Local Open Scope Z_scope.

(** What [l] adds to the counter [c]. *)
Definition total (c : Counter) (l : list (Counter * Z)) : Z :=
  foldr (λ p n, if bool_decide (p.1 = c) then p.2 + n else n) 0 l.

Lemma total_cons c p l : total c (p :: l) = (if bool_decide (p.1 = c) then p.2 else 0) + total c l.
Proof. change (total c (p :: l)) with (if bool_decide (p.1 = c) then p.2 + total c l else total c l). case_bool_decide; lia. Qed.

Lemma total_app c l l' : total c (l ++ l') = total c l + total c l'.
Proof. induction l as [|p l IH]; [done|]. cbn [app]. rewrite !total_cons, IH. lia. Qed.

#[global] Instance total_perm c : Proper ((≡ₚ) ==> eq) (total c).
Proof.
  intros l l' E. induction E as [|p l l' E IH|p q l|l l1 l2 E1 IH1 E2 IH2]; [done|..|by rewrite IH1];
    rewrite !total_cons; [by rewrite IH|lia].
Qed.

Lemma value_of_set c c' v s : value_of c' (set_counter c v s) = if bool_decide (c = c') then v else value_of c' s.
Proof.
  unfold value_of. cbn [counters set_counter]. case_bool_decide as E; [subst; by rewrite lookup_insert_eq|].
  by rewrite lookup_insert_ne.
Qed.

Section spec.
Variable event_codes : list string.

#[local] Abbreviation nonneg := (Forall (λ p : Counter * Z, 0 ≤ p.2)).

Lemma total_nonneg c l : nonneg l → 0 ≤ total c l.
Proof. induction 1 as [|p l Hp Hl IH]; [done|]. rewrite total_cons. case_bool_decide; lia. Qed.

(** The threads hold the values [l].  The sums are exact until more than [uint64_t] can hold has been
    added to a counter. *)
Record counts (s : Aggregate) (l : list (Counter * Z)) : Prop := {
  counts_nonneg : nonneg (accepted s ++ l ++ (pushed s).*1);
  counts_value c : 0 ≤ value_of c s;
  counts_sum c : total c (accepted s) < 2 ^ 64 → total c (accepted s) = value_of c s + total c l + total c (pushed s).*1
}.

Lemma counts_perm s l l' : l ≡ₚ l' → counts s l → counts s l'.
Proof. intros E [H1 H2 H3]. split; [by rewrite <-E|done|]. intros c. rewrite <-E. apply H3. Qed.

Lemma counts_same s s' l :
  counters s' = counters s → pushed s' = pushed s → accepted s' = accepted s → counts s l → counts s' l.
Proof. intros E1 E2 E3 [H1 H2 H3]. split; unfold value_of in *; by rewrite ?E1, ?E2, ?E3. Qed.

Ltac counts_same := let H := fresh in intros ?? H; eapply counts_same; [..|exact H]; done.

Lemma counts_exchange c s rest : counts s rest → counts (set_counter c 0 s) ([(c, value_of c s)] ++ rest).
Proof.
  intros [H1 H2 H3]. split.
  - cbn [accepted pushed set_counter]. specialize (H2 c). rewrite !Forall_app in *. intuition.
  - intros c'. rewrite value_of_set. case_bool_decide; auto with lia.
  - intros c' Hc. rewrite value_of_set, total_app, total_cons. change (total c' []) with 0. rewrite H3 by done.
    cbn [fst snd pushed set_counter]. case_bool_decide; subst; lia.
Qed.

Lemma counts_put c v request s rest : counts s ([(c, v)] ++ rest) → counts (put c v request s) rest.
Proof.
  intros [H1 H2 H3]. split; [|done|].
  - cbn [accepted pushed put]. rewrite fmap_app, !Forall_app in *. intuition.
  - intros c' Hc. rewrite H3 by done. cbn [pushed put]. rewrite fmap_app, !total_app. cbn [fmap list_fmap fst].
    change (value_of c' (put c v request s)) with (value_of c' s). lia.
Qed.

Lemma counts_add c v s rest : 0 ≤ v → counts s rest → counts (add c v s) rest.
Proof.
  intros Hv [H1 H2 H3]. pose proof H1 as Hnn. rewrite !Forall_app in Hnn. destruct Hnn as (_ & Hr & Hp). split.
  - cbn [accepted pushed add note_accepted set_counter app]. by constructor.
  - intros c'. unfold add. change (value_of c' (note_accepted c v ?s)) with (value_of c' s). rewrite value_of_set.
    case_bool_decide; [|done]. by apply Z.mod_pos_bound.
  - intros c' Hc. unfold add in *. cbn [accepted pushed note_accepted set_counter] in *. rewrite total_cons in *. cbn [fst snd] in *.
    change (value_of c' (note_accepted c v ?s)) with (value_of c' s). rewrite value_of_set.
    pose proof (total_nonneg c' _ Hr). pose proof (total_nonneg c' _ Hp). specialize (H2 c').
    case_bool_decide; subst; rewrite H3 in * by lia; [|lia]. unfold u64. rewrite Z.mod_small by lia. lia.
Qed.

#[local] Abbreviation keeps := (owns counts).

Lemma aggregate_schedule_keeps k : (∀ a, keeps (k a) []) → keeps (ScheduleMetricPush ≫= k) [].
Proof.
  apply owns_atomically. intros s rest HI. destruct (is_running_ s); [|done]. cbn [negb].
  destruct (ScheduleFor _) as [t [r timer]]. by eapply counts_same; [..|exact HI].
Qed.

Lemma push_counter_keeps now c info k : keeps (k tt) [] → keeps (push_counter now c info ≫= k) [].
Proof.
  intros Hk. apply owns_bind_assoc, owns_action. intros s rest HI. change ([] ++ rest) with rest in HI.
  pose proof (counts_exchange c s rest HI) as HI'. cbn [fst snd]. destruct (Z.ltb_spec 0 (value_of c s)) as [Hpos|Hzero].
  - exists [(c, value_of c s)]. split; [done|]. apply owns_bind_assoc, owns_reads. intros [metric_info|]; [|done].
    apply (owns_modifies _ _ _ _ []); [|done]. intros s' rest'. apply counts_put.
  - exists []. split; [|done]. assert (value_of c s = 0) as E0 by (pose proof (counts_value _ _ HI c); lia).
    rewrite E0 in HI'. destruct HI' as [H1 H2 H3]. split; [|done|].
    + rewrite !Forall_app in *. cbn [accepted pushed set_counter] in *. intuition.
    + intros c' Hc. rewrite H3, total_app, total_cons by done. change (total c' []) with 0. cbn [fst snd]. case_bool_decide; cbn [app]; lia.
Qed.

Lemma aggregate_scheduled_keeps now : keeps (scheduled_push event_codes now) [].
Proof.
  unfold scheduled_push, RunMetricPush. apply owns_bind_assoc, push_counter_keeps, owns_for_all.
  - intros code k'. apply push_counter_keeps.
  - by apply aggregate_schedule_keeps.
Qed.

Lemma aggregate_run_keeps : keeps (ignore Run) [].
Proof.
  apply owns_reads. intros []; [done|]. do 2 (apply (owns_modifies _ _ _ _ []); [counts_same|]). by apply aggregate_schedule_keeps.
Qed.

Lemma wait_keeps c k : keeps (k tt) [] → keeps (wait_flushed c ≫= k) [].
Proof.
  intros Hk. apply (owns_awaits _ _ _ _ []); [|by intros []]. intros s rest s' a HI E.
  destruct (0 <? value_of c s); [done|]. by injection E as <- _.
Qed.

Lemma aggregate_stop_keeps : keeps (ignore (Stop event_codes)) [].
Proof.
  apply owns_reads. intros []; [|done]. apply (owns_modifies _ _ _ _ []); [counts_same|]. cbn [negb].
  apply owns_bind_assoc, wait_keeps, owns_bind_assoc, owns_for_all; [intros code k'; apply wait_keeps|].
  apply (owns_modifies _ _ _ _ []); [counts_same|]. apply owns_reads. intros [timer|]; [|done].
  apply (owns_modifies _ _ _ _ []); [counts_same|done].
Qed.

Lemma increment_keeps value code : 0 ≤ value → keeps (ignore (IncrementBy event_codes value code)) [].
Proof.
  intros Hv. apply owns_reads. intros []; [|done]. cbn [negb]. repeat case_bool_decide; try done;
    (apply (owns_modifies _ _ _ _ []); [|done]; intros s rest; by apply counts_add).
Qed.

Definition unsigned_increment (e : AggregateEvent) : Prop :=
  match e with CallIncrementBy value _ => 0 ≤ value | _ => True end.

Lemma aggregate_env_keeps s e s' c l : unsigned_increment e → counts s l → aggregate_env event_codes s e = Some (s', c) →
  ∃ l', keeps c l' ∧ counts s' (l' ++ l).
Proof.
  intros Hv HI E. exists []. destruct e as [| |value code|timer now]; cbn in E;
    [..|destruct (bool_decide _); [|done]]; injection E as <- <-;
    (split; [first [apply aggregate_run_keeps|apply aggregate_stop_keeps|by apply increment_keeps|apply aggregate_scheduled_keeps]|];
     by eapply counts_same; [..|exact HI]).
Qed.
Lemma construct_counts info key answers : counts (construct info event_codes key answers) [].
Proof.
  assert (∀ c, value_of c (construct info event_codes key answers) = 0) as Hv.
  { intros c. unfold value_of, construct. cbn [counters]. induction event_codes as [|code codes IH]; cbn.
    - destruct (decide (c = None)) as [->|]; [by rewrite lookup_singleton_eq|by rewrite lookup_singleton_ne].
    - destruct (decide (c = Some code)) as [->|]; [by rewrite lookup_insert_eq|by rewrite lookup_insert_ne]. }
  split; [done|intros c; by rewrite Hv|]. intros c _. by rewrite Hv.
Qed.


(** ** A push *)

(** The push of one counter. *)
Definition push_of (now : Z) (s : Aggregate) (c : Counter) (m : MetricDefinition) : list (Counter * Z * PutMetricsRequest) :=
  let v := value_of c s in
  if 0 <? v then [(c, v, GetPutMetricsRequest now m (pretty.pretty (s64 v)))] else [].

Lemma run_push_counter now c info m s : info (set_counter c 0 s) = Some m →
  ∃ s', run_code (push_counter now c info) s = Some (s', tt) ∧ pushed s' = pushed s ++ push_of now s c m ∧
    event_metric_infos_ s' = event_metric_infos_ s ∧
    ∀ c', value_of c' s' = if bool_decide (c = c') then 0 else value_of c' s.
Proof.
  intros Hm. unfold push_counter, push_of. rewrite run_bind. cbn [run_code atomically mbind option_bind].
  destruct (0 <? value_of c s).
  - eexists. split; [cbn; by rewrite Hm|]. split; [done|]. split; [done|]. intros c'.
    change (value_of c' (put _ _ _ ?s)) with (value_of c' s). apply value_of_set.
  - eexists. split; [done|]. cbn [pushed set_counter]. rewrite app_nil_r. split; [done|]. split; [done|].
    intros c'. apply value_of_set.
Qed.

Definition event_push (now : Z) (s : Aggregate) (code : string) : list (Counter * Z * PutMetricsRequest) :=
  from_option (push_of now s (Some code)) [] (event_metric_infos_ s !! code).

Lemma run_event_pushes now codes s :
  NoDup codes → (∀ code, code ∈ codes → is_Some (event_metric_infos_ s !! code)) →
  ∃ s', run_code (for_all codes (λ code, push_counter now (Some code) (λ s, event_metric_infos_ s !! code))) s =
      Some (s', tt) ∧ pushed s' = pushed s ++ (codes ≫= event_push now s) ∧
    ∀ c, value_of c s' = if bool_decide (c ∈ Some <$> codes) then 0 else value_of c s.
Proof.
  revert s. induction codes as [|code codes IH]; intros s Hnd Hinfo; [exists s; by rewrite app_nil_r|].
  apply NoDup_cons in Hnd as [Hnew Hnd]. destruct (Hinfo code) as [m Hm]; [left|].
  destruct (run_push_counter now (Some code) (λ s, event_metric_infos_ s !! code) m s Hm) as (s1 & E1 & Hp1 & Hi1 & Hv1).
  destruct (IH s1 Hnd) as (s2 & E2 & Hp2 & Hv2); [intros; rewrite Hi1; apply Hinfo; by right|].
  exists s2. split; [cbn [for_all]; rewrite run_bind, E1; exact E2|]. split.
  - rewrite Hp2, Hp1, <-app_assoc. f_equal. cbn [mbind list_bind]. f_equal; [unfold event_push; by rewrite Hm|].
    apply bind_ext_in. intros code' Hin. unfold event_push, push_of. rewrite Hi1, Hv1, bool_decide_false; [done|].
    intros [= <-]. done.
  - intros c. rewrite Hv2, Hv1. cbn [fmap list_fmap]. repeat case_bool_decide; set_solver.
Qed.

(** A push that nothing interferes with terminates, calls the metric client once for each counter
    that is not zero, with its value and under its metric, in the order of the counters, and leaves every
    counter at zero. *)
Theorem push_flushes_counters now s :
  NoDup event_codes → (∀ code, code ∈ event_codes → is_Some (event_metric_infos_ s !! code)) →
  ∃ s', run_code (RunMetricPush event_codes now) s = Some (s', tt) ∧
    pushed s' = pushed s ++ push_of now s None (metric_info_ s) ++ (event_codes ≫= event_push now s) ∧
    (∀ c, c ∈ None :: (Some <$> event_codes) → value_of c s' = 0).
Proof.
  intros Hnd Hinfo.
  destruct (run_push_counter now None (Some ∘ metric_info_) (metric_info_ s) s eq_refl) as (s1 & E1 & Hp1 & Hi1 & Hv1).
  destruct (run_event_pushes now event_codes s1 Hnd) as (s2 & E2 & Hp2 & Hv2); [intros; rewrite Hi1; auto|].
  exists s2. split; [unfold RunMetricPush; rewrite run_bind, E1; exact E2|]. split.
  - rewrite Hp2, Hp1, <-app_assoc. do 2 f_equal. apply bind_ext_in. intros code Hin.
    unfold event_push, push_of. by rewrite Hi1, Hv1, bool_decide_false.
  - intros c Hc. rewrite Hv2, Hv1. repeat case_bool_decide; set_solver.
Qed.
End spec.

(** ** Runs *)

Module AggregateRuns.
Definition info : MetricDefinition := mkMetricDefinition "requests" Unit.kCount ∅ "ns".
Definition codes : list string := ["error"; "retry"].
Definition start : World Aggregate := mkWorld (construct info codes kEventCodeLabelKey []) [].

Definition observe {A} (f : Aggregate → A) (w : World Aggregate) (evs : list (@ThreadEvent AggregateEvent))
  : option (A * bool) :=
  (λ '(_, w), (f (shared w), ended w)) <$> run_ops (aggregate_step codes) w evs.

Lemma aggregate_observed {A} (f : Aggregate → A) w evs a b : observe f w evs = Some (a, b) →
  ∃ rs w', run_ops (aggregate_step codes) w evs = Some (rs, w') ∧ f (shared w') = a ∧ ended w' = b.
Proof.
  unfold observe. destruct (run_ops _ w evs) as [[rs w']|]; [|done]. cbn. intros [= <- <-]. eauto.
Qed.

#[local] Abbreviation Run := Threads.Run.

(** [Run], two increments, and a push between whose steps a third comes. *)
Definition increments : list (@ThreadEvent AggregateEvent) :=
  [Env CallRun; Run 0; Run 0; Run 0; Run 0;
   Env (CallIncrementBy 3 ""); Run 1; Run 1; Env (CallIncrementBy 4 "error"); Run 2; Run 2;
   Env (TimerFires 0 5); Run 3;
   Env (CallIncrementBy 10 ""); Run 4; Run 4;
   Run 3; Run 3; Run 3; Run 3; Run 3; Run 3; Run 3].


Lemma push_flushes_counters_witness :
  ∃ s', run_code (RunMetricPush codes 5) (add (Some "retry") 2 (shared start)) = Some (s', tt) ∧
    value_of (Some "retry") s' = 0.
Proof.
  destruct (push_flushes_counters codes 5 (add (Some "retry") 2 (shared start))) as (s' & E & _ & Hv).
  - by apply (bool_decide_unpack _); vm_compute.
  - intros code Hc. apply list_elem_of_In in Hc. destruct Hc as [<-|[<-|[]]]; by eexists; vm_compute.
  - exists s'. split; [done|]. apply Hv. by apply (bool_decide_unpack _); vm_compute.
Defined.

(** An increment that was let in before [Stop] closed the counters can be added after [Stop] has
    seen them empty: it is accepted with a success, but no timer is left to push it. *)
Theorem increment_racing_stop_is_lost :
  observe (λ s, (is_running_ s, pending (executor s), accepted s, value_of None s, pushed s)) start
    [Env CallRun; Run 0; Run 0; Run 0; Run 0;
     Env (CallIncrementBy 3 ""); Run 1;
     Env CallStop; Run 2; Run 2; Run 2; Run 2; Run 2; Run 2; Run 2; Run 2;
     Run 1] =
  Some ((false, [], [(None, 3)], 3, []), true).
Proof. by vm_compute. Qed.

(** When the executor refuses the next push, increments are still accepted, but no timer is left,
    and [Stop], which waits for a push, waits for ever. *)
Theorem refused_push_blocks_stop :
  ∃ rs w, run_ops (aggregate_step codes)
      (mkWorld (construct info codes kEventCodeLabelKey [SuccessExecutionResult; FailureExecutionResult SC_UNKNOWN]) [])
      [Env CallRun; Run 0; Run 0; Run 0; Run 0;
       Env (TimerFires 0 5); Run 1; Run 1; Run 1; Run 1;
       Env (CallIncrementBy 3 ""); Run 2; Run 2] = Some (rs, w) ∧
    ended w = true ∧ pending (executor (shared w)) = [] ∧ accepted (shared w) = [(None, 3)] ∧
    run_code (Stop codes) (shared w) = None.
Proof.
  match goal with |- ∃ rs w, run_ops _ ?w0 ?evs = _ ∧ _ =>
    destruct (aggregate_observed (λ s, (pending (executor s), accepted s, bool_decide (run_code (Stop codes) s = None))) w0 evs
      ([], [(None, 3)], true) true) as (rs & w & E & Ho & He); [by vm_compute|] end.
  injection Ho as Hp Ha Hs. exists rs, w. repeat split; try done. by apply bool_decide_eq_true in Hs.
Qed.

(** A label that the metric has under the key of the event codes hides them: two event codes are pushed
    under the same labels. *)
Lemma label_hides_event_code m code code' key v :
  labels m !! key = Some v → labels (event_metric m key code) = labels (event_metric m key code').
Proof.
  intros Hv. unfold event_metric, AddMetricLabels. cbn [labels].
  assert (∀ code, labels m ∪ {[ key := code ]} = labels m) as E; [|by rewrite !E].
  intros c. apply map_eq. intros i. destruct (decide (i = key)) as [->|].
  - by rewrite (lookup_union_Some_l _ _ _ _ Hv).
  - rewrite lookup_union, lookup_singleton_ne by done. by destruct (labels m !! i).
Qed.
End AggregateRuns.

(** ** SimpleMetric *)

Module SimpleSpec.
Import Simple.

(** Every timer that waits has a request, and timers are new. *)
Record simple_ok (s : SimpleMetric) : Prop := {
  simple_tasks timer : timer ∈ pending (executor s) → is_Some (tasks s !! timer);
  simple_nodup : NoDup (pending (executor s));
  simple_new timer : timer ∈ pending (executor s) → (timer < next_timer (executor s))%nat
}.

(** The requests of the timers that wait. *)
Definition waiting (s : SimpleMetric) : list PutMetricsRequest := omap (λ timer, tasks s !! timer) (pending (executor s)).

Lemma remove_timer_ok timer s : simple_ok s → simple_ok (drop_timer timer s).
Proof.
  intros [H1 H2 H3]. split; cbn.
  - intros t [_ Ht]%list_elem_of_filter. auto.
  - by apply NoDup_filter.
  - intros t [_ Ht]%list_elem_of_filter. auto.
Qed.

Lemma simple_push_ok now v info s : simple_ok s → simple_ok (Push now v info s).
Proof.
  intros [H1 H2 H3]. unfold Push, ScheduleFor. destruct (Successful _); [|by split]. split; cbn.
  - intros t [Ht| ->%list_elem_of_singleton]%elem_of_app; [|rewrite lookup_insert_eq; eauto].
    destruct (decide (next_timer (executor s) = t)) as [->|]; [rewrite lookup_insert_eq; eauto|].
    rewrite lookup_insert_ne by done. auto.
  - apply NoDup_app. split; [done|]. split; [|apply NoDup_singleton].
    intros t Ht ->%list_elem_of_singleton. specialize (H3 _ Ht). lia.
  - intros t [Ht%H3| ->%list_elem_of_singleton]%elem_of_app; lia.
Qed.

Lemma step_ok s e r s' : simple_ok s → simple_step s e = Some (r, s') → simple_ok s'.
Proof.
  intros Hs E. destruct e as [now v info| |timer]; cbn in E.
  - injection E as _ <-. by apply simple_push_ok.
  - injection E as _ <-. destruct (current_task_cancellation_callback_ s); [by apply remove_timer_ok|done].
  - destruct (bool_decide _); [|done]. destruct (tasks s !! timer); [|done]. injection E as _ <-.
    destruct (remove_timer_ok timer s Hs). by split.
Qed.

Lemma waiting_insert s timer request (l : list nat) : (∀ t, t ∈ l → t ≠ timer) →
  omap (λ t, <[ timer := request ]> (tasks s) !! t) l = omap (λ t, tasks s !! t) l.
Proof.
  induction l as [|t l IH]; intros Hl; [done|]. cbn. rewrite lookup_insert_ne by (symmetry; apply Hl; by left).
  rewrite IH; [done|]. intros t' Ht'. apply Hl. by right.
Qed.

(** [Push] hands its request, made of the metric it was given or else of its own, to the executor
    behind the ones that wait; when its timer fires, the metric client gets that request and the others
    still wait. *)
Theorem simple_push_reaches_client now v info s :
  simple_ok s → head (schedule_answers (executor s)) = None →
  let request := GetPutMetricsRequest now (default (metric_info_ s) info) v in
  waiting (Push now v info s) = waiting s ++ [request] ∧
  ∃ s', simple_step (Push now v info s) (TimerFires (next_timer (executor s))) = Some (tt, s') ∧
    put_requests s' = put_requests s ++ [request] ∧ waiting s' = waiting s.
Proof.
  intros [H1 H2 H3] Hr request. unfold Push, ScheduleFor. rewrite Hr.
  change (Successful (default SuccessExecutionResult None)) with true. cbv iota.
  assert (∀ t, t ∈ pending (executor s) → t ≠ next_timer (executor s)) as Hne by (intros t Ht%H3; lia).
  set (timer := next_timer (executor s)) in *. split.
  - unfold waiting. cbn [pending executor tasks]. rewrite omap_app, (waiting_insert s) by done. cbn.
    by rewrite lookup_insert_eq.
  - cbn [simple_step executor pending tasks]. rewrite bool_decide_true by set_solver. rewrite lookup_insert_eq.
    eexists. split; [done|]. split; [done|]. unfold waiting. cbn [tasks executor PutRequest drop_timer remove_timer pending].
    rewrite filter_app, filter_cons_False, app_nil_r by auto. rewrite (waiting_insert s).
    + f_equal. by apply list_filter_all.
    + by intros t [? _]%list_elem_of_filter.
Qed.

(** [Stop] cancels the last of two pushes: the first still runs after it. *)
Lemma simple_stop_cancels_last m :
  (λ '(_, s), (pending (executor s), metric_value <$> (put_requests s ≫= metrics))) <$>
    run_ops simple_step (construct_simple m [])
      [CallPush 1 "1" None; CallPush 2 "2" None; CallStop; TimerFires 0] = Some ([], ["1"]).
Proof. by vm_compute. Qed.

Lemma simple_push_reaches_client_witness :
  waiting (Push 5 "7" None (construct_simple AggregateRuns.info [])) = [GetPutMetricsRequest 5 AggregateRuns.info "7"].
Proof.
  apply (simple_push_reaches_client 5 "7" None (construct_simple AggregateRuns.info [])); [|done]. split; cbn; [set_solver|constructor|set_solver].
Defined.
End SimpleSpec.
