(* ===== verification/BlobStorage.v ===== *)
(** * BlobStorage: requests of the blob storage clients

    The messages of
    [cc/public/cpio/proto/blob_storage_service/v1/blob_storage_service.proto],
    and what the providers of both clouds
    ([cc/cpio/client_providers/blob_storage_client_provider/src/aws] and [gcp])
    share: the tests of the arguments, constants, and the producer's context of
    an upload ([Streaming]), which several threads use. *)

From S2P Require Import Prelude ExecResult Provider TaskExecutor Streaming Threads.

Local Open Scope string_scope.
Local Open Scope list_scope.
Local Open Scope Z_scope.

Abbreviation SC_BLOB_STORAGE_PROVIDER := 0x0207%Z (only parsing).
Abbreviation SC_BLOB_STORAGE_PROVIDER_BLOB_PATH_NOT_FOUND := (MakeErrorCode SC_BLOB_STORAGE_PROVIDER 0x0001).
Abbreviation SC_BLOB_STORAGE_PROVIDER_ERROR_GETTING_BLOB := (MakeErrorCode SC_BLOB_STORAGE_PROVIDER 0x0002).
Abbreviation SC_BLOB_STORAGE_PROVIDER_UNRETRIABLE_ERROR := (MakeErrorCode SC_BLOB_STORAGE_PROVIDER 0x0003).
Abbreviation SC_BLOB_STORAGE_PROVIDER_RETRIABLE_ERROR := (MakeErrorCode SC_BLOB_STORAGE_PROVIDER 0x0004).
Abbreviation SC_BLOB_STORAGE_PROVIDER_INVALID_ARGS := (MakeErrorCode SC_BLOB_STORAGE_PROVIDER 0x0005).
Abbreviation SC_BLOB_STORAGE_PROVIDER_STREAM_SESSION_EXPIRED := (MakeErrorCode SC_BLOB_STORAGE_PROVIDER 0x0006).
Abbreviation SC_BLOB_STORAGE_PROVIDER_STREAM_SESSION_CANCELLED := (MakeErrorCode SC_BLOB_STORAGE_PROVIDER 0x0007).
Abbreviation SC_BLOB_STORAGE_PROVIDER_EMPTY_ETAG := (MakeErrorCode SC_BLOB_STORAGE_PROVIDER 0x0008).

Abbreviation INVALID_ARGS := (FailureExecutionResult SC_BLOB_STORAGE_PROVIDER_INVALID_ARGS).

(** ** Messages *)

Record BlobMetadata := mkBlobMetadata { bucket_name : string; blob_name : string }.
Record ByteRange := mkByteRange { begin_byte_index : Z; end_byte_index : Z }.
Record Blob := mkBlob { metadata : BlobMetadata; data : list Z }.

Record GetBlobRequest := mkGetBlobRequest {
  get_metadata : BlobMetadata;
  byte_range : option ByteRange
}.

Record GetBlobStreamRequest := mkGetBlobStreamRequest {
  stream_get : GetBlobRequest;
  max_bytes_per_response : Z
}.

Record GetBlobStreamResponse := mkGetBlobStreamResponse {
  blob_portion : Blob;
  response_range : ByteRange
}.

Record ListBlobsMetadataRequest := mkListBlobsMetadataRequest {
  list_metadata : BlobMetadata;
  page_token : option string;
  max_page_size : option Z
}.

Record ListBlobsMetadataResponse := mkListBlobsMetadataResponse {
  blob_metadatas : list BlobMetadata;
  next_page_token : string
}.

Record PutBlobStreamRequest := mkPutBlobStreamRequest {
  put_portion : Blob;
  stream_keepalive_duration : option Z           (* in nanoseconds *)
}.

#[global] Instance BlobMetadata_eq_dec : EqDecision BlobMetadata.
Proof. solve_decision. Defined.

(** ** Arguments *)

Definition empty (s : string) : bool := bool_decide (s = "").
Definition missing_name (m : BlobMetadata) : bool := empty (bucket_name m) || empty (blob_name m).

(** [ValidateGetBlobRequest]; Google's provider has the same tests in [GetBlob] and [GetBlobStream]. *)
Definition ValidateGetBlobRequest (request : GetBlobRequest) : ExecutionResult :=
  if missing_name (get_metadata request) then INVALID_ARGS
  else match byte_range request with
       | Some range => if end_byte_index range <? begin_byte_index range then INVALID_ARGS else SuccessExecutionResult
       | None => SuccessExecutionResult
       end.

(** The test of [PutBlob] and [PutBlobStream]. *)
Definition invalid_blob (b : Blob) : bool := missing_name (metadata b) || bool_decide (data b = []).

Abbreviation kListBlobsMetadataMaxResults := 1000.
Abbreviation k64KbCount := (Z.shiftl 64 10).
Abbreviation kDefaultStreamKeepaliveNanos := (5 * 60 * 10 ^ 9).
Abbreviation kMaximumStreamKeepaliveNanos := (10 * 60 * 10 ^ 9).

(** The tests of [ListBlobsMetadata]: the second one does not finish the context. *)
Definition list_rejected {Call} (request : ListBlobsMetadataRequest) (c : Call) : Started Call :=
  if empty (bucket_name (list_metadata request)) then Rejected INVALID_ARGS true
  else if bool_decide (kListBlobsMetadataMaxResults < default 0 (max_page_size request)) then Rejected INVALID_ARGS false
  else Sent c.

(** ** What a reader is promised *)

(** The bytes from [a] to [e], both inclusive. *)
Definition slice (blob : list Z) (a e : Z) : list Z := take (Z.to_nat (e - a + 1)) (drop (Z.to_nat a) blob).

Lemma length_slice blob a e : 0 ≤ a → e < zlen blob → zlen (slice blob a e) = Z.max 0 (e - a + 1).
Proof. intros Ha He. unfold slice. rewrite length_take, length_drop. lia. Qed.

Lemma slice_split blob a c e : 0 ≤ a ≤ c + 1 → c ≤ e → slice blob a e = slice blob a c ++ slice blob (c + 1) e.
Proof.
  intros Ha Hc. unfold slice. replace (Z.to_nat (e - a + 1)) with (Z.to_nat (c - a + 1) + Z.to_nat (e - (c + 1) + 1))%nat by lia.
  rewrite <-take_take_drop, drop_drop. do 3 f_equal. lia.
Qed.

Section reader.
Variables (blob : list Z) (md : BlobMetadata).

(** The portions of [m] bytes from [a] to [e]. *)
Fixpoint delivers (a e m : Z) (msgs : list GetBlobStreamResponse) : Prop :=
  match msgs with
  | [] => e < a
  | msg :: msgs =>
      a ≤ e ∧ response_range msg = mkByteRange a (Z.min (a + m - 1) e) ∧
      blob_portion msg = mkBlob md (slice blob a (Z.min (a + m - 1) e)) ∧
      delivers (Z.min (a + m - 1) e + 1) e m msgs
  end.

Lemma delivers_data a e m msgs : 0 ≤ a → 0 < m → delivers a e m msgs → concat (data ∘ blob_portion <$> msgs) = slice blob a e.
Proof.
  revert a. induction msgs as [|msg msgs IH]; intros a Ha Hm; cbn [delivers].
  - intros He. unfold slice. by replace (Z.to_nat (e - a + 1)) with 0%nat by lia.
  - intros (Hle & _ & Ep & Hd). cbn. rewrite Ep, (IH (Z.min (a + m - 1) e + 1)) by (done || lia). cbn. by rewrite <-slice_split by lia.
Qed.

(** The bounds of the request: its range, or the whole object. *)
Definition first_byte (request : GetBlobStreamRequest) : Z := from_option begin_byte_index 0 (byte_range (stream_get request)).
Definition last_byte (request : GetBlobStreamRequest) : Z :=
  Z.min (from_option end_byte_index (zlen blob - 1) (byte_range (stream_get request))) (zlen blob - 1).

Definition portion_size (request : GetBlobStreamRequest) : Z :=
  if max_bytes_per_response request =? 0 then k64KbCount else max_bytes_per_response request.

(** A request that the provider accepts, for a range that starts inside of the object. *)
Record readable (request : GetBlobStreamRequest) : Prop := {
  readable_metadata : get_metadata (stream_get request) = md;
  readable_name : missing_name md = false;
  readable_range r : byte_range (stream_get request) = Some r → 0 ≤ begin_byte_index r ≤ end_byte_index r ∧ end_byte_index r < 2 ^ 64;
  readable_first : first_byte request < zlen blob;
  readable_size : 0 ≤ max_bytes_per_response request ∧ zlen blob + portion_size request < 2 ^ 63
}.

Lemma portion_size_pos request : readable request → 0 < portion_size request.
Proof.
  intros [_ _ _ _ [Hmax _]]. unfold portion_size. destruct (Z.eqb_spec (max_bytes_per_response request) 0); [done|lia].
Qed.

Lemma readable_bounds request : readable request → 0 ≤ first_byte request ≤ last_byte request.
Proof.
  intros [_ _ Hrange Hfirst _]. unfold first_byte, last_byte in *.
  destruct (byte_range (stream_get request)) as [r|] eqn:Er; cbn in *; [specialize (Hrange r eq_refl)|]; lia.
Qed.
End reader.

(** ** The context of an upload *)

Section upload_context.
Context {Q : Type} `{BQ : !BoundedQueue PutBlobStreamRequest Q}.
Context {S : Type} (context : S → Stream (Msg:=PutBlobStreamRequest) (Q:=Q))
        (set_context : Stream (Msg:=PutBlobStreamRequest) (Q:=Q) → S → S).

Definition TryPushRequest (m : PutBlobStreamRequest) : Code S ExecutionResult :=
  refused ← reads (push_done_test ∘ context);
  match refused with
  | Some r => mret r
  | None =>
      refused ← reads (push_cancel_test ∘ context);
      match refused with
      | Some r => mret r
      | None => atomically (λ s, let '(r, c) := push_enqueue m (context s) in (set_context c s, r))
      end
  end.

Definition TryGetNextRequest : Code S (option PutBlobStreamRequest) :=
  atomically (λ s, let '(m, c) := TryGetNext (context s) in (set_context c s, m)).
End upload_context.

(** What a message brings. *)
Definition portion_data (m : PutBlobStreamRequest) : list Z := data (put_portion m).

(** The messages that were accepted are those taken and those that wait. *)
Definition fifo {Msg Q} `{!BoundedQueue Msg Q} (c : Stream (Msg:=Msg) (Q:=Q)) : Prop :=
  Streaming.accepted c = taken c ++ items (queue c).

Section fifo.
Context {Msg Q : Type} `{BQ : !BoundedQueue Msg Q}.
Implicit Types c : Stream (Msg:=Msg) (Q:=Q).

Lemma fifo_new cap : fifo (new_stream cap : Stream (Msg:=Msg) (Q:=Q)).
Proof. unfold fifo, new_stream. cbn. by rewrite new_items. Qed.

Lemma fifo_enqueue m c : fifo c → fifo (push_enqueue m c).2.
Proof.
  unfold fifo, push_enqueue, TryEnqueue. intros Hf. destruct (try_push m (queue c)) as [q|] eqn:E; [|done].
  apply push_some in E as [E _]. cbn. by rewrite E, Hf, app_assoc.
Qed.

Lemma fifo_get c m c' : fifo c → TryGetNext c = (m, c') →
  fifo c' ∧ is_marked_done c' = is_marked_done c ∧
  match m with Some m => taken c' = taken c ++ [m] | None => c' = c ∧ items (queue c) = [] end.
Proof.
  unfold fifo, TryGetNext, TryDequeue. intros Hf. destruct (try_pop (queue c)) as [[x q]|] eqn:E; intros [= <- <-]; cbn.
  - apply pop_some in E as [E _]. by rewrite <-app_assoc, Hf, E.
  - by apply pop_none in E.
Qed.
End fifo.
