(* ===== verification/AwsBlob.v ===== *)
(** * AwsBlob: blobs in S3

    Models [aws_blob_storage_client_provider.cc] of
    [cc/cpio/client_providers/blob_storage_client_provider/src/aws], with
    [aws_blob_storage_client_utils.h].  S3 answers from outside: an outcome is
    an error or a result.  A method is what it sends, and its callback what it
    does with the outcome.

    [GetBlobStream] is a chain of reads; what its callback reads of the
    consumer's context (whether it is cancelled, and the results of pushing a
    message and of scheduling its processing) are arguments.  [PutBlobStream]
    is code of several threads ([Threads]): the caller pushes portions and marks
    the context done while callbacks of S3 and polls take them.  [None] stands
    for undefined behaviour. *)

From Stdlib Require Import Ascii.
From stdpp Require Import pretty.
From S2P Require Import Prelude ExecResult Provider Decimal TaskExecutor Streaming Threads BlobStorage.

Local Open Scope string_scope.
Local Open Scope list_scope.
Local Open Scope Z_scope.

Abbreviation kMinimumPartSize := (Z.shiftl 5 20).

(** ** S3 *)

Inductive S3Errors := INTERNAL_FAILURE | SERVICE_UNAVAILABLE | THROTTLING | NO_SUCH_KEY | OTHER_S3_ERROR.

Definition Outcome (A : Type) : Type := S3Errors + A.

Definition ConvertS3ErrorToExecutionResult (e : S3Errors) : ExecutionResult :=
  match e with
  | INTERNAL_FAILURE => FailureExecutionResult SC_AWS_INTERNAL_SERVICE_ERROR
  | SERVICE_UNAVAILABLE | THROTTLING => RetryExecutionResult SC_AWS_SERVICE_UNAVAILABLE
  | NO_SUCH_KEY => FailureExecutionResult SC_AWS_NOT_FOUND
  | OTHER_S3_ERROR => FailureExecutionResult SC_AWS_INTERNAL_SERVICE_ERROR
  end.

Record GetObjectRequest := mkGetObjectRequest { object : BlobMetadata; range : option string }.

Record GetObjectResult := mkGetObjectResult {
  ContentLength : Z;
  ContentRange : string;
  Body : list Z
}.

Record ListObjectsRequest := mkListObjectsRequest {
  Bucket : string;
  MaxKeys : Z;
  Prefix : option string;
  Marker : option string
}.

Record ListObjectsResult := mkListObjectsResult { Contents : list string; NextMarker : string }.

(** ["bytes=" a "-" b], inclusive on both ends. *)
Definition range_header (a b : Z) : string := "bytes=" +:+ pretty a +:+ "-" +:+ pretty b.

(** [body.read] of [n] bytes; [None] inside when there are fewer. *)
Definition read_body (body : list Z) (n : Z) : option (list Z) :=
  if n <=? zlen body then Some (take (Z.to_nat n) body) else None.

(** ** Single calls *)

Definition MakeGetObjectRequest (request : GetBlobRequest) (r : option string) : GetObjectRequest :=
  mkGetObjectRequest (get_metadata request) r.

Definition GetBlob (request : GetBlobRequest) : Started GetObjectRequest :=
  let r := ValidateGetBlobRequest request in
  if negb (Successful r) then Rejected r true
  else Sent (MakeGetObjectRequest request
         ((λ b, range_header (begin_byte_index b) (end_byte_index b)) <$> byte_range request)).

(** [None]: a negative length, for which [resize] throws. *)
Definition OnGetObjectCallback (request : GetBlobRequest) (outcome : Outcome GetObjectResult)
  : option (ExecutionResult * option Blob) :=
  match outcome with
  | inl e => Some (ConvertS3ErrorToExecutionResult e, None)
  | inr result =>
      if ContentLength result <? 0 then None
      else match read_body (Body result) (ContentLength result) with
           | Some bytes => Some (SuccessExecutionResult, Some (mkBlob (get_metadata request) bytes))
           | None =>
               let filled := Body result ++ replicate (Z.to_nat (ContentLength result) - length (Body result)) 0 in
               Some (FailureExecutionResult SC_BLOB_STORAGE_PROVIDER_ERROR_GETTING_BLOB,
                     Some (mkBlob (get_metadata request) filled))
           end
  end.

Definition ListBlobsMetadata (request : ListBlobsMetadataRequest) : Started ListObjectsRequest :=
  list_rejected request
    (mkListObjectsRequest (bucket_name (list_metadata request))
       (default kListBlobsMetadataMaxResults (max_page_size request))
       (if empty (blob_name (list_metadata request)) then None else Some (blob_name (list_metadata request)))
       (page_token request)).

Definition OnListObjectsMetadataCallback (request : ListBlobsMetadataRequest) (outcome : Outcome ListObjectsResult)
  : ExecutionResult * option ListBlobsMetadataResponse :=
  match outcome with
  | inl e => (ConvertS3ErrorToExecutionResult e, None)
  | inr result =>
      (SuccessExecutionResult,
       Some (mkListBlobsMetadataResponse (mkBlobMetadata (bucket_name (list_metadata request)) <$> Contents result)
               (NextMarker result)))
  end.

Section md5.
(** [SetContentMd5]: the checksum of a body that goes with a request. *)
Variable SetContentMd5 : list Z → ExecutionResult.

Definition PutBlob (request : Blob) : Started Blob :=
  if invalid_blob request then Rejected INVALID_ARGS true
  else let md5_result := SetContentMd5 (data request) in
       if negb (Successful md5_result) then Rejected md5_result true else Sent request.

(** Of [PutBlob] and [DeleteBlob]. *)
Definition OnPutObjectCallback (outcome : Outcome ()) : ExecutionResult :=
  match outcome with
  | inl e => ConvertS3ErrorToExecutionResult e
  | inr _ => SuccessExecutionResult
  end.

Definition DeleteBlob (request : BlobMetadata) : Started BlobMetadata :=
  if missing_name request then Rejected INVALID_ARGS true else Sent request.

(** ** GetBlobStream *)

Record GetBlobStreamTracker := mkGetBlobStreamTracker {
  last_begin_byte_index : Z;
  last_end_byte_index : Z;
  tracked_max_bytes : Z                          (* max_bytes_per_response *)
}.

Definition GetBlobStream (request : GetBlobStreamRequest) : Started (GetObjectRequest * GetBlobStreamTracker) :=
  let get := stream_get request in
  let r := ValidateGetBlobRequest get in
  if negb (Successful r) then Rejected r true
  else
    let max := s64 (if max_bytes_per_response request =? 0 then k64KbCount else max_bytes_per_response request) in
    let read_size := u64 max in
    match byte_range get with
    | Some b =>
        let end_index := Z.min (end_byte_index b) (u64 (begin_byte_index b + read_size - 1)) in
        Sent (MakeGetObjectRequest get (Some (range_header (begin_byte_index b) end_index)),
              mkGetBlobStreamTracker (s64 (begin_byte_index b)) (s64 end_index) max)
    | None =>
        Sent (MakeGetObjectRequest get (Some (range_header 0 (u64 (read_size - 1)))),
              mkGetBlobStreamTracker 0 (s64 (read_size - 1)) max)
    end.

(** The message that a callback pushes, and then what it does: the context is finished, or the next
    part is read. *)
Inductive StreamNext :=
  | StreamFinished (r : ExecutionResult)
  | StreamRead (request : GetObjectRequest) (tracker : GetBlobStreamTracker).

(** The total size of the object, after the slash of the [Content-Range]. *)
Definition total_length (content_range : string) : option Z := strtol <$> StrSplit "/"%char content_range !! 1%nat.

Definition OnGetObjectStreamCallback (request : GetBlobStreamRequest) (tracker : GetBlobStreamTracker)
    (outcome : Outcome GetObjectResult) (cancelled : bool) (push_result schedule_result : ExecutionResult)
  : option (list GetBlobStreamResponse * StreamNext) :=
  let get := stream_get request in
  match outcome with
  | inl e => Some ([], StreamFinished (ConvertS3ErrorToExecutionResult e))
  | inr result =>
      if cancelled
      then Some ([], StreamFinished (FailureExecutionResult SC_BLOB_STORAGE_PROVIDER_STREAM_SESSION_CANCELLED))
      else
        let actual_length_read := ContentLength result in
        asked ← int64 (1 + last_end_byte_index tracker - last_begin_byte_index tracker);
        last_end ← (if actual_length_read <? asked
                    then int64 (last_begin_byte_index tracker + actual_length_read - 1)
                    else Some (last_end_byte_index tracker));
        if actual_length_read <? 0 then None
        else
          match read_body (Body result) actual_length_read with
          | None => Some ([], StreamFinished (FailureExecutionResult SC_BLOB_STORAGE_PROVIDER_ERROR_GETTING_BLOB))
          | Some bytes =>
              let response := mkGetBlobStreamResponse (mkBlob (get_metadata get) bytes)
                                (mkByteRange (u64 (last_begin_byte_index tracker)) (u64 last_end)) in
              if negb (Successful push_result) then Some ([], StreamFinished push_result)
              else if negb (Successful schedule_result) then Some ([response], StreamFinished schedule_result)
              else
                total ← total_length (ContentRange result);
                let requested_end := from_option end_byte_index 0 (byte_range get) in
                if (total - 1 <=? last_end) || (u64 last_end =? requested_end)
                then Some ([response], StreamFinished SuccessExecutionResult)
                else
                  new_begin ← int64 (last_end + 1);
                  new_end_index ← int64 (new_begin + (tracked_max_bytes tracker - 1));
                  let new_end_index :=
                    match byte_range get with
                    | Some b => if end_byte_index b <? u64 new_end_index then s64 (end_byte_index b) else new_end_index
                    | None => new_end_index
                    end in
                  Some ([response],
                        StreamRead (MakeGetObjectRequest get (Some (range_header new_begin new_end_index)))
                          (mkGetBlobStreamTracker new_begin new_end_index (tracked_max_bytes tracker)))
          end
  end.

(** ** PutBlobStream *)

Record PutBlobStreamTracker := mkPutBlobStreamTracker {
  upload_id : string;
  next_part_number : Z;
  accumulated_contents : list Z;
  completed_multipart_upload : list (Z * string);  (* part numbers and their etags *)
  expiry_time_ns : Z
}.

(** What the upload waits for: a reply of S3, or the poll that forwards the number of the last part and
    its outcome. *)
Inductive Pending :=
  | CreateMultipartUpload
  | UploadPart (number : Z) (body : list Z)
  | Poll (number : Z) (outcome : Outcome string)
  | CompleteMultipartUpload (parts : list (Z * string))
  | AbortMultipartUpload (result : ExecutionResult).

Section upload.
Context {Q : Type} `{BQ : !BoundedQueue PutBlobStreamRequest Q}.
#[local] Abbreviation Context_ := (Stream (Msg:=PutBlobStreamRequest) (Q:=Q)).

(** [parts] is a ghost: the parts that were sent to S3. *)
Record Upload := mkUpload {
  context : Context_;
  tracker : PutBlobStreamTracker;
  pending : option Pending;
  poll_answers : list ExecutionResult;           (* of the executor; a success after them *)
  finished : list ExecutionResult;
  parts : list (Z * list Z)
}.

Definition set_context (c : Context_) (s : Upload) : Upload :=
  mkUpload c (tracker s) (pending s) (poll_answers s) (finished s) (parts s).
Definition set_tracker (t : PutBlobStreamTracker) (s : Upload) : Upload :=
  mkUpload (context s) t (pending s) (poll_answers s) (finished s) (parts s).
Definition set_pending (p : option Pending) (s : Upload) : Upload :=
  mkUpload (context s) (tracker s) p (poll_answers s) (finished s) (parts s).

Definition set_accumulated (l : list Z) (t : PutBlobStreamTracker) : PutBlobStreamTracker :=
  mkPutBlobStreamTracker (upload_id t) (next_part_number t) l (completed_multipart_upload t) (expiry_time_ns t).

(** [FinishStreamingContext]. *)
Definition finish_stream (r : ExecutionResult) (s : Upload) : Upload :=
  mkUpload (MarkDone (context s)) (tracker s) (pending s) (poll_answers s) (finished s ++ [r]) (parts s).

Definition AbortUpload (r : ExecutionResult) (s : Upload) : Upload := set_pending (Some (AbortMultipartUpload r)) s.

Definition ScheduleAnotherPutBlobStreamPoll (number : Z) (outcome : Outcome string) (s : Upload) : Upload :=
  let r := default SuccessExecutionResult (head (poll_answers s)) in
  let s := mkUpload (context s) (tracker s) (pending s) (tail (poll_answers s)) (finished s) (parts s) in
  if Successful r then set_pending (Some (Poll number outcome)) s else finish_stream r s.

(** [UploadPartAsync] of the next part, with its checksum; clears what was accumulated. *)
Definition upload_part (body : list Z) (s : Upload) : Upload :=
  let md5_result := SetContentMd5 body in
  if negb (Successful md5_result) then finish_stream md5_result s
  else
    let number := next_part_number (tracker s) in
    mkUpload (context s) (set_accumulated [] (tracker s)) (Some (UploadPart number body)) (poll_answers s) (finished s)
      (parts s ++ [(number, body)]).

Definition CompleteUpload (s : Upload) : Upload :=
  match accumulated_contents (tracker s) with
  | [] => set_pending (Some (CompleteMultipartUpload (completed_multipart_upload (tracker s)))) s
  | contents => upload_part contents s
  end.

(** The reply for the next part: the part is added to the completed ones, or the upload is aborted with
    the result. *)
Definition record_part (number : Z) (outcome : Outcome string) (s : Upload) : Upload * option ExecutionResult :=
  let t := tracker s in
  if next_part_number t =? number then
    match outcome with
    | inl e => (s, Some (ConvertS3ErrorToExecutionResult e))
    | inr etag =>
        if empty etag then (s, Some (FailureExecutionResult SC_BLOB_STORAGE_PROVIDER_EMPTY_ETAG))
        else (set_tracker (mkPutBlobStreamTracker (upload_id t) (next_part_number t + 1) (accumulated_contents t)
                             (completed_multipart_upload t ++ [(number, etag)]) (expiry_time_ns t)) s, None)
    end
  else (s, None).

(** A portion: it is uploaded with what was accumulated, or added to it. *)
Definition take_portion (number : Z) (outcome : Outcome string) (bytes : list Z) (s : Upload) : Upload :=
  let contents := accumulated_contents (tracker s) ++ bytes in
  if kMinimumPartSize <=? zlen contents then upload_part contents s
  else ScheduleAnotherPutBlobStreamPoll number outcome (set_tracker (set_accumulated contents (tracker s)) s).

Section blob.
Variable request : PutBlobStreamRequest.           (* the first one *)

(** The callback when the last part is recorded.  What no other thread sees of the tracker is one action
    with the next access to the context. *)
Definition next_portion (number : Z) (outcome : Outcome string) (now : Z) : Code Upload () :=
  cancelled ← reads (IsCancelled ∘ context);
  if cancelled : bool
  then modifies (AbortUpload (FailureExecutionResult SC_BLOB_STORAGE_PROVIDER_STREAM_SESSION_CANCELLED))
  else
    next ← TryGetNextRequest context set_context;
    match next with
    | None =>
        done ← reads (IsMarkedDone ∘ context);
        if done : bool then modifies CompleteUpload
        else modifies (λ s,
          if expiry_time_ns (tracker s) <=? now
          then AbortUpload (FailureExecutionResult SC_BLOB_STORAGE_PROVIDER_STREAM_SESSION_EXPIRED) s
          else ScheduleAnotherPutBlobStreamPoll number outcome s)
    | Some portion =>
        if bool_decide (metadata (put_portion portion) = metadata (put_portion request))
        then modifies (take_portion number outcome (data (put_portion portion)))
        else modifies (finish_stream INVALID_ARGS)
    end.

Definition OnUploadPartCallback (number : Z) (outcome : Outcome string) (now : Z) : Code Upload () :=
  failed ← atomically (record_part number outcome);
  match failed with
  | Some r => modifies (AbortUpload r)
  | None => next_portion number outcome now
  end.

(** The upload was created: its first portion is uploaded, or waits for more. *)
Definition start_upload (id : string) (now : Z) (s : Upload) : Upload :=
  let duration := default kDefaultStreamKeepaliveNanos (stream_keepalive_duration request) in
  if kMaximumStreamKeepaliveNanos <? duration then finish_stream INVALID_ARGS s
  else
    let bytes := data (put_portion request) in
    let t := mkPutBlobStreamTracker id 1 [] [] (now + duration) in
    if zlen bytes <? kMinimumPartSize
    then ScheduleAnotherPutBlobStreamPoll 0 (inl OTHER_S3_ERROR) (set_tracker (set_accumulated bytes t) s)
    else upload_part bytes (set_tracker t s).

Definition OnCreateMultipartUploadCallback (outcome : Outcome string) (now : Z) : Code Upload () :=
  match outcome with
  | inl e => modifies (finish_stream (ConvertS3ErrorToExecutionResult e))
  | inr id => modifies (start_upload id now)
  end.

Definition OnCompleteMultipartUploadCallback (outcome : Outcome ()) : Code Upload () :=
  modifies (finish_stream (OnPutObjectCallback outcome)).

(** [OnAbortMultipartUploadCallback] logs a failure, and finishes the context with the result of the upload. *)
Definition OnAbortMultipartUploadCallback (result : ExecutionResult) : Code Upload () := modifies (finish_stream result).

(** [PutBlobStream]: the upload is created. *)
Definition PutBlobStream (capacity : Z) (answers : list ExecutionResult) : Started Upload :=
  if invalid_blob (put_portion request) then Rejected INVALID_ARGS true
  else Sent (mkUpload (new_stream capacity) (mkPutBlobStreamTracker "" 1 [] [] 0) (Some CreateMultipartUpload) answers [] []).

(** ** Threads *)

Inductive UploadEvent :=
  | Push (m : PutBlobStreamRequest)
  | CallMarkDone
  | CallTryCancel
  | Created (outcome : Outcome string) (now : Z)
  | PartUploaded (outcome : Outcome string) (now : Z)
  | PollFires (now : Z)
  | Completed (outcome : Outcome ())
  | Aborted.

Definition upload_env (s : Upload) (e : UploadEvent) : option (Upload * Code Upload ()) :=
  match e, pending s with
  | Push m, _ => Some (s, ignore (TryPushRequest context set_context m))
  | CallMarkDone, _ => Some (set_context (MarkDone (context s)) s, mret tt)
  | CallTryCancel, _ => Some (set_context (TryCancel (context s)) s, mret tt)
  | Created outcome now, Some CreateMultipartUpload =>
      Some (set_pending None s, OnCreateMultipartUploadCallback outcome now)
  | PartUploaded outcome now, Some (UploadPart number _) =>
      Some (set_pending None s, OnUploadPartCallback number outcome now)
  | PollFires now, Some (Poll number outcome) => Some (set_pending None s, OnUploadPartCallback number outcome now)
  | Completed outcome, Some (CompleteMultipartUpload _) =>
      Some (set_pending None s, OnCompleteMultipartUploadCallback outcome)
  | Aborted, Some (AbortMultipartUpload r) => Some (set_pending None s, OnAbortMultipartUploadCallback r)
  | _, _ => None
  end.

Definition upload_step : World Upload → @ThreadEvent UploadEvent → option (() * World Upload) := thread_step upload_env.
End blob.
End upload.
End md5.
