(* ===== verification/AwsBlobSpec.v ===== *)
(** * AwsBlobSpec: what the S3 client promises

    Reading: with an S3 that serves ranges as documented, [GetBlobStream]
    delivers the requested range in order, in portions of the size asked for,
    and ends; except that without a range, and with portions of one byte, it
    ends after the first one.

    Writing: whatever the threads do, the context of a [PutBlobStream] is
    finished exactly once, and the parts that are completed are, in order, what
    was taken from the context; when callbacks run one at a time that is all
    that the caller pushed, and every part but the last one has the size S3
    requires.  A portion that comes while a callback runs can be lost. *)

From Stdlib Require Import Ascii.
From stdpp Require Import pretty.
From S2P Require Import Prelude ExecResult Provider Decimal TaskExecutor Streaming Threads BlobStorage AwsBlob.

Local Open Scope string_scope.
Local Open Scope list_scope.
Local Open Scope Z_scope.

(** ** Reading *)

Definition content_range (a e n : Z) : string := "bytes " +:+ pretty a +:+ "-" +:+ pretty e +:+ "/" +:+ pretty n.

Lemma total_length_of a e n : 0 ≤ a → 0 ≤ e → 0 ≤ n ≤ LONG_MAX → total_length (content_range a e n) = Some n.
Proof.
  intros Ha He Hn. unfold total_length, content_range.
  set (p := "bytes " +:+ pretty a +:+ "-" +:+ pretty e).
  assert ("bytes " +:+ pretty a +:+ "-" +:+ pretty e +:+ "/" +:+ pretty n = p +:+ String "/" (pretty n)) as ->.
  { unfold p. by rewrite <-!string_app_assoc. }
  rewrite StrSplit_first; [|unfold p; rewrite !list_ascii_app, !Forall_app; repeat split; try by repeat constructor].
  - rewrite StrSplit_digits; [|done|apply pretty_digits; lia]. cbn. rewrite strtol_pretty by lia. f_equal. lia.
  - by apply digits_not, pretty_digits.
  - by apply digits_not, pretty_digits.
Qed.

Section reading.
Variables (blob : list Z) (md : BlobMetadata).
#[local] Abbreviation last_byte := (last_byte blob).
#[local] Abbreviation delivers := (delivers blob md).
#[local] Abbreviation readable := (readable blob md).
(** S3 for one object: a read of a range that starts inside of it gives that range, cut at its end. *)
Variable s3 : GetObjectRequest → Outcome GetObjectResult.
Definition serves : Prop := ∀ a b, 0 ≤ a ≤ b → a < zlen blob →
  let e := Z.min b (zlen blob - 1) in
  s3 (mkGetObjectRequest md (Some (range_header a b))) =
    inr (mkGetObjectResult (e - a + 1) (content_range a e (zlen blob)) (slice blob a e)).

(** The stream with a consumer that neither cancels nor refuses messages. *)
Fixpoint stream_run (fuel : nat) (request : GetBlobStreamRequest) (get : GetObjectRequest) (t : GetBlobStreamTracker)
  : option (list GetBlobStreamResponse * ExecutionResult) :=
  match fuel with
  | O => None
  | S fuel =>
      '(msgs, next) ← OnGetObjectStreamCallback request t (s3 get) false SuccessExecutionResult SuccessExecutionResult;
      match next with
      | StreamFinished r => Some (msgs, r)
      | StreamRead get t => '(msgs', r) ← stream_run fuel request get t; Some (msgs ++ msgs', r)
      end
  end.

Context (Hserves : serves).

(** One callback. *)
Lemma callback_step request a b m :
  get_metadata (stream_get request) = md → 0 ≤ a ≤ b → a < zlen blob → b < 2 ^ 63 - 1 → 0 < m → zlen blob + m < 2 ^ 63 →
  (∀ r, byte_range (stream_get request) = Some r → 0 ≤ end_byte_index r) →
  let c := Z.min b (zlen blob - 1) in
  let requested_end := from_option end_byte_index 0 (byte_range (stream_get request)) in
  let msg := mkGetBlobStreamResponse (mkBlob md (slice blob a c)) (mkByteRange a c) in
  OnGetObjectStreamCallback request (mkGetBlobStreamTracker a b m)
    (s3 (mkGetObjectRequest md (Some (range_header a b)))) false SuccessExecutionResult SuccessExecutionResult =
  Some ([msg],
    if (zlen blob - 1 <=? c) || (c =? requested_end) then StreamFinished SuccessExecutionResult
    else let b' := from_option (λ r, Z.min (end_byte_index r) (c + m)) (c + m) (byte_range (stream_get request)) in
         StreamRead (mkGetObjectRequest md (Some (range_header (c + 1) b'))) (mkGetBlobStreamTracker (c + 1) b' m)).
Proof.
  intros Hmd Hab Ha Hb Hm Hlen Hend c requested_end msg. rewrite Hserves by lia. fold c.
  assert (a ≤ c ≤ b ∧ c ≤ zlen blob - 1 ∧ c = Z.min b (zlen blob - 1)) as Hc by (unfold c; lia). clearbody c.
  unfold OnGetObjectStreamCallback. cbn [ContentLength ContentRange Body last_end_byte_index last_begin_byte_index tracked_max_bytes].
  rewrite (int64_small (1 + b - a)) by lia. cbn [mbind option_bind].
  assert ((if c - a + 1 <? 1 + b - a then int64 (a + (c - a + 1) - 1) else Some b) = Some c) as ->.
  { destruct (Z.ltb_spec (c - a + 1) (1 + b - a)); [rewrite int64_small by lia|]; f_equal; lia. }
  cbn [mbind option_bind]. rewrite (proj2 (Z.ltb_ge _ _)) by lia. unfold read_body.
  rewrite length_slice, Z.max_r, Z.leb_refl by lia. rewrite take_ge by (pose proof (length_slice blob a c); lia).
  change (negb (Successful SuccessExecutionResult)) with false. cbv iota.
  rewrite total_length_of by (unfold LONG_MAX; lia). cbn [mbind option_bind]. rewrite Hmd, !u64_small by lia. fold requested_end msg.
  destruct (_ || _); [done|]. rewrite (int64_small (c + 1)) by lia. cbn [mbind option_bind].
  replace (c + 1 + (m - 1)) with (c + m) by lia. rewrite int64_small by lia. cbn [mbind option_bind]. unfold MakeGetObjectRequest. rewrite Hmd.
  destruct (byte_range (stream_get request)) as [[lo hi]|]; cbn [from_option end_byte_index]; [|done].
  specialize (Hend _ eq_refl). cbn in Hend. rewrite u64_small by lia. destruct (Z.ltb_spec hi (c + m)).
  - by rewrite s64_small, Z.min_l by lia.
  - by rewrite Z.min_r by lia.
Qed.

Lemma stream_run_delivers request m fuel a b :
  get_metadata (stream_get request) = md → 0 < m → zlen blob + m < 2 ^ 63 →
  (∀ r, byte_range (stream_get request) = Some r → 0 ≤ end_byte_index r) →
  (byte_range (stream_get request) = None → m = 1 → zlen blob = 1) →
  b = from_option (λ r, Z.min (end_byte_index r) (a + m - 1)) (a + m - 1) (byte_range (stream_get request)) →
  0 ≤ a ≤ last_byte request → last_byte request - a < Z.of_nat fuel →
  ∃ msgs, stream_run fuel request (mkGetObjectRequest md (Some (range_header a b))) (mkGetBlobStreamTracker a b m) =
    Some (msgs, SuccessExecutionResult) ∧ delivers a (last_byte request) m msgs.
Proof.
  intros Hmd Hm Hlen Hend Hone Eb Ha Hfuel. revert a b Eb Ha Hfuel. induction fuel as [|fuel IH]; intros a b Eb Ha Hfuel; [lia|].
  cbn [stream_run]. pose proof Ha as Ha'. unfold BlobStorage.last_byte in Ha'.
  assert (a ≤ b ≤ a + m - 1) as Hab.
  { destruct (byte_range (stream_get request)) as [r|]; cbn in Eb, Ha'; lia. }
  rewrite callback_step by (done || lia). cbn [mbind option_bind].
  set (c := Z.min b (zlen blob - 1)).
  assert (c = Z.min (a + m - 1) (last_byte request)) as Ec.
  { unfold c, BlobStorage.last_byte. destruct (byte_range (stream_get request)) as [r|]; cbn in Eb |- *; lia. }
  assert (((zlen blob - 1 <=? c) || (c =? from_option end_byte_index 0 (byte_range (stream_get request)))) = (last_byte request <=? c)) as ->.
  { unfold BlobStorage.last_byte in *. destruct (byte_range (stream_get request)) as [r|]; cbn in Eb, Ec, Hone |- *.
    - destruct (Z.leb_spec (zlen blob - 1) c), (Z.eqb_spec c (end_byte_index r)), (Z.leb_spec (Z.min (end_byte_index r) (zlen blob - 1)) c); cbn; lia.
    - destruct (Z.leb_spec (zlen blob - 1) c), (Z.eqb_spec c 0), (Z.leb_spec (Z.min (zlen blob - 1) (zlen blob - 1)) c); cbn; try lia.
      specialize (Hone eq_refl). lia. }
  destruct (Z.leb_spec (last_byte request) c).
  - eexists. split; [done|]. cbn [BlobStorage.delivers response_range blob_portion]. rewrite <-Ec. repeat split; lia || done.
  - destruct (IH (c + 1) (from_option (λ r, Z.min (end_byte_index r) (c + m)) (c + m) (byte_range (stream_get request)))) as (msgs & E & Hd);
      [replace (c + 1 + m - 1) with (c + m) by lia; done|lia|lia|].
    rewrite E. eexists. split; [done|]. cbn [app BlobStorage.delivers response_range blob_portion]. rewrite <-Ec. repeat split; lia || done.
Qed.
(** The first read. *)
Lemma first_read request : readable request →
  let a := first_byte request in
  let m := portion_size request in
  let b := from_option (λ r, Z.min (end_byte_index r) (a + m - 1)) (a + m - 1) (byte_range (stream_get request)) in
  GetBlobStream request = Sent (mkGetObjectRequest md (Some (range_header a b)), mkGetBlobStreamTracker a b m).
Proof.
  intros [Hmd Hname Hrange Hfirst [Hmax Hsize]] a m b. unfold GetBlobStream, ValidateGetBlobRequest. rewrite Hmd, Hname.
  fold (portion_size request). fold m. fold m in Hsize. unfold MakeGetObjectRequest. rewrite Hmd.
  assert (0 < m) as Hm by (unfold m, portion_size; destruct (Z.eqb_spec (max_bytes_per_response request) 0); [done|lia]).
  unfold a, b, first_byte in *. destruct (byte_range (stream_get request)) as [r|] eqn:Er; cbn [from_option] in *.
  - destruct (Hrange r eq_refl) as [Hr Hr']. rewrite (proj2 (Z.ltb_ge _ _)) by lia. cbn [negb Successful].
    rewrite (s64_small m), (u64_small m), u64_small, !s64_small by lia. done.
  - change (negb (Successful SuccessExecutionResult)) with false. cbv iota.
    rewrite (s64_small m), (u64_small m), u64_small, s64_small by lia. done.
Qed.


(** Without a byte range, and with portions of one byte, the stream of an object of several bytes ends
    after the first one, with a success: the end of the range, zero when there is none, is taken for
    reached. *)
Theorem one_byte_stream_is_cut request :
  readable request → byte_range (stream_get request) = None → portion_size request = 1 → 1 < zlen blob →
  ∃ get t, GetBlobStream request = Sent (get, t) ∧
    stream_run 1 request get t =
      Some ([mkGetBlobStreamResponse (mkBlob md (slice blob 0 0)) (mkByteRange 0 0)], SuccessExecutionResult).
Proof.
  intros Hr Hnone Hone Hlen. pose proof (first_read request Hr) as E. cbv zeta in E. destruct Hr as [Hmd _ _ _ [_ Hsize]].
  unfold first_byte in E. rewrite Hone in Hsize. rewrite Hnone, Hone in E. cbn [from_option] in E. eexists _, _. split; [exact E|].
  cbn [stream_run]. change (0 + 1 - 1) with 0. rewrite callback_step by (done || lia || (intros r; by rewrite Hnone)). cbn [mbind option_bind].
  rewrite Z.min_l by lia. rewrite Hnone. cbn [from_option]. by rewrite orb_true_r.
Qed.

(** [GetBlob] of a range that starts inside of the object returns its bytes, cut at the end. *)
Theorem get_blob_returns_range request r :
  get_metadata request = md → missing_name md = false → byte_range request = Some r →
  0 ≤ begin_byte_index r ≤ end_byte_index r → begin_byte_index r < zlen blob →
  ∃ get, GetBlob request = Sent get ∧
    OnGetObjectCallback request (s3 get) =
      Some (SuccessExecutionResult, Some (mkBlob md (slice blob (begin_byte_index r) (Z.min (end_byte_index r) (zlen blob - 1))))).
Proof.
  intros Hmd Hname Hr Hle Hlt. unfold GetBlob, ValidateGetBlobRequest. rewrite Hmd, Hname, Hr, (proj2 (Z.ltb_ge _ _)) by lia.
  eexists. split; [done|]. unfold MakeGetObjectRequest. rewrite Hmd. cbn [fmap option_fmap option_map]. rewrite Hserves by lia.
  set (e := Z.min _ _). assert (e < zlen blob ∧ begin_byte_index r ≤ e) as He by (unfold e; lia). clearbody e.
  unfold OnGetObjectCallback. cbn [ContentLength Body]. rewrite (proj2 (Z.ltb_ge _ _)) by lia. unfold read_body.
  rewrite length_slice, Z.max_r, Z.leb_refl, Hmd by lia. do 4 f_equal. apply take_ge.
  pose proof (length_slice blob (begin_byte_index r) e). lia.
Qed.
End reading.

(** ** A run of reading *)

Module ReadRuns.
(** An object of five bytes. *)
Definition bytes : list Z := [10; 11; 12; 13; 14].
Definition md : BlobMetadata := mkBlobMetadata "bucket" "blob".

(** S3 by parsing the header. *)
Definition parse_range (h : string) : option (Z * Z) :=
  match StrSplit "=" h with
  | [_; ab] => match StrSplit "-" ab with [a; b] => Some (strtol a, strtol b) | _ => None end
  | _ => None
  end.

Definition small_s3 (get : GetObjectRequest) : Outcome GetObjectResult :=
  match range get ≫= parse_range with
  | Some (a, b) => let e := Z.min b 4 in inr (mkGetObjectResult (e - a + 1) (content_range a e 5) (slice bytes a e))
  | None => inl OTHER_S3_ERROR
  end.

Lemma parse_range_header a b : 0 ≤ a → 0 ≤ b → parse_range (range_header a b) = Some (Z.min LONG_MAX a, Z.min LONG_MAX b).
Proof.
  intros Ha Hb. unfold parse_range, range_header.
  change ("bytes=" +:+ ?s) with ("bytes" +:+ String "=" s). change ("-" +:+ ?s) with (String "-" s).
  rewrite StrSplit_first by (by repeat constructor).
  assert (StrSplit "=" (pretty a +:+ String "-" (pretty b)) = [pretty a +:+ String "-" (pretty b)]) as ->.
  { apply StrSplit_none. rewrite list_ascii_app, Forall_app. split; [by apply digits_not, pretty_digits|].
    constructor; [done|]. by apply digits_not, pretty_digits. }
  rewrite StrSplit_first by (by apply digits_not, pretty_digits). rewrite StrSplit_digits by (done || by apply pretty_digits).
  by rewrite !strtol_pretty.
Qed.

Lemma small_s3_serves : serves bytes md small_s3.
Proof.
  intros a b Hab Ha e. unfold small_s3. cbn [range mbind option_bind]. rewrite parse_range_header by lia.
  change (zlen bytes) with 5 in *. unfold LONG_MAX. unfold e.
  replace (Z.min (2 ^ 63 - 1) a) with a by lia. by replace (Z.min (Z.min (2 ^ 63 - 1) b) 4) with (Z.min b (5 - 1)) by lia.
Qed.

Definition request (max : Z) (r : option ByteRange) : GetBlobStreamRequest :=
  mkGetBlobStreamRequest (mkGetBlobRequest md r) max.


Lemma one_byte_stream_is_cut_witness :
  ∃ get t, GetBlobStream (request 1 None) = Sent (get, t) ∧
    (λ p : list GetBlobStreamResponse * ExecutionResult, (data ∘ blob_portion <$> p.1, p.2)) <$> stream_run small_s3 1 (request 1 None) get t = Some ([[10]], SuccessExecutionResult).
Proof.
  destruct (one_byte_stream_is_cut bytes md small_s3 small_s3_serves (request 1 None)) as (get & t & E1 & E2).
  - by split.
  - done.
  - done.
  - done.
  - exists get, t. split; [done|]. by rewrite E2.
Defined.

Lemma get_blob_returns_range_witness :
  ∃ get, GetBlob (mkGetBlobRequest md (Some (mkByteRange 3 9))) = Sent get ∧
    OnGetObjectCallback (mkGetBlobRequest md (Some (mkByteRange 3 9))) (small_s3 get) =
      Some (SuccessExecutionResult, Some (mkBlob md [13; 14])).
Proof.
  by apply (get_blob_returns_range bytes md small_s3 small_s3_serves (mkGetBlobRequest md (Some (mkByteRange 3 9))) (mkByteRange 3 9)).
Defined.
End ReadRuns.

(** ** Writing *)

Section writing.
Context {Q : Type} `{BQ : !BoundedQueue PutBlobStreamRequest Q}.
Variables (SetContentMd5 : list Z → ExecutionResult) (request : PutBlobStreamRequest).
#[local] Abbreviation Upload := (Upload (Q:=Q)).
Implicit Types s : Upload.

(** Where the thread of the upload is: it holds the first portion, the reply for a part, a poll, nothing, a
    portion that it has taken; or it has seen the context marked done, or has the reply to its last call. *)
Inductive Held :=
  | HCreate
  | HReply (n : Z)
  | HPoll (n : Z)
  | HIdle (n : Z)
  | HTaken (n : Z) (d : list Z)
  | HDone
  | HEnd.

Definition held_data (h : Held) : list Z :=
  match h with HCreate => portion_data request | HTaken _ d => d | _ => [] end.

Definition pending_data s : list Z :=
  match pending s with Some CreateMultipartUpload => portion_data request | _ => [] end.

Definition all_parts_completed s : Prop := length (parts s) = length (completed_multipart_upload (tracker s)).
Definition one_part_open s : Prop := length (parts s) = S (length (completed_multipart_upload (tracker s))).
Definition fresh s : Prop :=
  parts s = [] ∧ taken (context s) = [] ∧ accumulated_contents (tracker s) = [] ∧
  completed_multipart_upload (tracker s) = [].

Definition held_ok s (h : Held) : Prop :=
  match h with
  | HCreate => fresh s
  | HReply n => n = next_part_number (tracker s) ∧ one_part_open s
  | HPoll n | HIdle n | HTaken n _ => n + 1 = next_part_number (tracker s) ∧ all_parts_completed s
  | HDone => is_marked_done (context s) = true ∧ all_parts_completed s
  | HEnd => True
  end.

Definition pending_ok s : Prop :=
  match pending s with
  | None => True
  | Some CreateMultipartUpload => fresh s
  | Some (UploadPart n _) => n = next_part_number (tracker s) ∧ one_part_open s
  | Some (Poll n _) => n + 1 = next_part_number (tracker s) ∧ all_parts_completed s
  | Some (CompleteMultipartUpload ps) =>
      ps = completed_multipart_upload (tracker s) ∧ all_parts_completed s ∧ accumulated_contents (tracker s) = []
  | Some (AbortMultipartUpload _) => True
  end.

Definition big (p : Z * list Z) : Prop := kMinimumPartSize ≤ zlen p.2.

Record upload_ok s (l : list Held) : Prop := {
  uo_once : (length l + from_option (λ _, 1) 0 (pending s) + length (finished s) = 1)%nat;
  uo_fifo : fifo (context s);
  uo_held : Forall (held_ok s) l;
  uo_pending : pending_ok s;
  uo_data : finished s = [] →
    portion_data request ++ concat (portion_data <$> taken (context s)) =
      concat (parts s).*2 ++ accumulated_contents (tracker s) ++ (l ≫= held_data) ++ pending_data s;
  uo_numbers : (parts s).*1 = seqZ 1 (zlen (parts s)) ∧
    (completed_multipart_upload (tracker s)).*1 = seqZ 1 (zlen (completed_multipart_upload (tracker s))) ∧
    next_part_number (tracker s) = 1 + zlen (completed_multipart_upload (tracker s));
  uo_sizes : is_marked_done (context s) = false → Forall big (parts s)
}.

Lemma upload_ok_perm s l l' : l ≡ₚ l' → upload_ok s l → upload_ok s l'.
Proof.
  intros E [H1 H2 H3 H4 H5 H6 H7]. split; [by rewrite <-E|done|by rewrite <-E|done| |done|done].
  intros Hf. rewrite (H5 Hf). destruct l as [|h [|? ?]], l' as [|h' [|? ?]]; try (apply Permutation_length in E; cbn in *; lia); [done|].
  by apply Permutation_singleton_inj in E as ->.
Qed.

(** Who holds something is alone. *)
Lemma holder s h rest : upload_ok s ([h] ++ rest) → rest = [] ∧ pending s = None ∧ finished s = [].
Proof.
  intros [H1 _ _ _ _ _ _]. cbn in H1. destruct rest, (pending s), (finished s); cbn in *; try lia. done.
Qed.

#[local] Abbreviation keeps := (owns upload_ok).

(** The last action of a callback. *)
Definition leaves (h : Held) (f : Upload → Upload) : Prop :=
  ∀ s, upload_ok s [h] → pending s = None → finished s = [] → upload_ok (f s) [].

Lemma leaves_keeps h f : leaves h f → keeps (modifies f) [h].
Proof.
  intros Hf s rest HI. destruct (holder _ _ _ HI) as (-> & Hp & Hfin). exists []. split; [|done]. by apply Hf.
Qed.

Lemma finish_leaves h r : leaves h (finish_stream r).
Proof. intros s [H1 H2 H3 H4 H5 H6 H7] Hp Hf. split; cbn; rewrite ?Hp, ?Hf; try done. Qed.

Lemma abort_leaves h r : held_data h = [] → leaves h (AbortUpload r).
Proof.
  intros Hd s [H1 H2 H3 H4 H5 H6 H7] Hp Hf. split; cbn; rewrite ?Hf; try done.
  intros _. rewrite (H5 Hf). cbn. unfold pending_data. cbn. by rewrite Hp, Hd.
Qed.

Lemma poll_leaves n o : leaves (HIdle n) (ScheduleAnotherPutBlobStreamPoll n o).
Proof.
  intros s Hok Hp Hf. unfold ScheduleAnotherPutBlobStreamPoll. set (s1 := mkUpload _ _ _ _ _ _).
  assert (upload_ok s1 [HIdle n]) as Hok1 by (destruct Hok; by split).
  destruct (Successful _); [|exact (finish_leaves _ _ _ Hok1 Hp Hf)].
  destruct Hok1 as [H1 H2 H3 H4 H5 H6 H7]. apply Forall_cons in H3 as [H3 _]. split; cbn; rewrite ?Hf; try done.
  intros _. change (pending_data (set_pending _ s1)) with (@nil Z). specialize (H5 Hf). unfold pending_data in H5. change (pending s1) with (pending s) in H5. by rewrite Hp in H5.
Qed.

Lemma upload_part_ok s h body : upload_ok s [h] → pending s = None → finished s = [] → all_parts_completed s →
  portion_data request ++ concat (portion_data <$> taken (context s)) = concat (parts s).*2 ++ body →
  (is_marked_done (context s) = false → kMinimumPartSize ≤ zlen body) →
  upload_ok (upload_part SetContentMd5 body s) [].
Proof.
  intros Hok Hp Hf Hall Hd Hsize. unfold upload_part. destruct (Successful _); [|exact (finish_leaves _ _ _ Hok Hp Hf)].
  destruct Hok as [H1 H2 H3 H4 H5 (H6 & H6' & H6'') H7]. unfold all_parts_completed in Hall. cbn [negb].
  split; cbn; rewrite ?Hf; try done.
  - split; [done|]. unfold one_part_open. cbn. rewrite length_app. cbn. lia.
  - intros _. unfold pending_data. cbn. rewrite Hd, fmap_app, concat_app. cbn. by rewrite !app_nil_r.
  - split; [|done]. rewrite fmap_app, length_app, Nat2Z.inj_add, seqZ_app by lia. cbn [fmap list_fmap fst length].
    by rewrite H6, H6'', Hall.
  - intros Hm. apply Forall_app. split; [by apply H7|]. constructor; [by apply Hsize|done].
Qed.

Lemma complete_leaves : leaves HDone (CompleteUpload SetContentMd5).
Proof.
  intros s Hok Hp Hf. pose proof Hok as [H1 H2 H3 H4 H5 H6 H7]. apply Forall_cons in H3 as [[Hm Hall] _].
  specialize (H5 Hf). unfold pending_data in H5. rewrite Hp in H5. cbn in H5. rewrite app_nil_r in H5.
  unfold CompleteUpload. destruct (accumulated_contents (tracker s)) as [|x acc] eqn:Ea.
  - split; cbn; rewrite ?Hf; try done. intros _. unfold pending_data. cbn. by rewrite Ea, H5.
  - eapply upload_part_ok; [done|done|done|done|done|]. by rewrite Hm.
Qed.

Lemma take_leaves n o d : leaves (HTaken n d) (take_portion SetContentMd5 n o d).
Proof.
  intros s Hok Hp Hf. pose proof Hok as [H1 H2 H3 H4 H5 H6 H7]. apply Forall_cons in H3 as [[Hn Hall] _].
  specialize (H5 Hf). unfold pending_data in H5. rewrite Hp in H5. cbn in H5. rewrite !app_nil_r in H5.
  unfold take_portion. destruct (Z.leb_spec kMinimumPartSize (zlen (accumulated_contents (tracker s) ++ d))).
  - by eapply upload_part_ok.
  - apply poll_leaves; [|done|done]. split; cbn; try done.
    + constructor; [done|constructor].
    + by unfold pending_ok; cbn; rewrite Hp.
    + intros _. unfold pending_data. cbn. rewrite Hp, H5. cbn. by rewrite !app_nil_r.
Qed.

Lemma start_leaves id now : leaves HCreate (start_upload SetContentMd5 request id now).
Proof.
  intros s Hok Hp Hf. unfold start_upload. destruct (_ <? _); [exact (finish_leaves _ _ _ Hok Hp Hf)|].
  pose proof Hok as [H1 H2 H3 H4 H5 H6 H7]. apply Forall_cons in H3 as [(E1 & E2 & E3 & E4) _].
  set (t := mkPutBlobStreamTracker _ _ _ _ _).
  assert (∀ acc h, held_ok (set_tracker (set_accumulated acc t) s) h → acc ++ held_data h = portion_data request →
    upload_ok (set_tracker (set_accumulated acc t) s) [h]) as Hset.
  { intros acc h Hh Hd. split; cbn; try done.
    - by constructor.
    - by unfold pending_ok; cbn; rewrite Hp.
    - intros _. unfold pending_data. cbn. rewrite Hp, E1, E2. cbn. by rewrite !app_nil_r, Hd.
    - by rewrite E1. }
  destruct (Z.ltb_spec (zlen (data (put_portion request))) kMinimumPartSize).
  - apply poll_leaves; [|done|done]. apply Hset; [|by rewrite app_nil_r]. split; [done|]. unfold all_parts_completed. cbn. by rewrite E1.
  - apply (upload_part_ok (set_tracker (set_accumulated [] t) s) HCreate); try done.
    + apply Hset; done.
    + unfold all_parts_completed. cbn. by rewrite E1.
    + cbn. rewrite E1, E2. cbn. by rewrite app_nil_r.
Qed.

Lemma record_reply n outcome s : upload_ok s [HReply n] →
  match record_part n outcome s with
  | (s', Some _) => s' = s
  | (s', None) => upload_ok s' [HIdle n]
  end.
Proof.
  intros Hok. pose proof Hok as [H1 H2 H3 H4 H5 (H6 & H6' & H6'') H7]. apply Forall_cons in H3 as [[Hn Hopen] _].
  unfold record_part. rewrite <-Hn, Z.eqb_refl. destruct outcome as [e|etag]; [done|]. destruct (empty etag); [done|].
  unfold one_part_open in Hopen. split; cbn; try done.
  - constructor; [|constructor]. split; cbn; [lia|]. unfold all_parts_completed. cbn. rewrite length_app. cbn. lia.
  - destruct (holder s (HReply n) [] Hok) as (_ & Hp & _). by unfold pending_ok; cbn; rewrite Hp.
  - split; [done|]. rewrite fmap_app, length_app, Nat2Z.inj_add, seqZ_app by lia. split; [|cbn; lia].
    cbn [fmap list_fmap fst length]. by rewrite H6', Hn, H6''.
Qed.

Lemma record_poll n outcome s : upload_ok s [HPoll n] → record_part n outcome s = (s, None) ∧ upload_ok s [HIdle n].
Proof.
  intros Hok. pose proof Hok as [H1 H2 H3 H4 H5 H6 H7]. apply Forall_cons in H3 as [[Hn Hall] _].
  unfold record_part. rewrite (proj2 (Z.eqb_neq _ _)) by lia. split; [done|]. split; try done. by constructor.
Qed.

Lemma idle_keeps n outcome now : keeps (next_portion SetContentMd5 request n outcome now) [HIdle n].
Proof.
  apply owns_reads. intros []; [by apply leaves_keeps, abort_leaves|].
  apply owns_action. intros s rest HI. destruct (holder _ _ _ HI) as (-> & Hp & Hfin).
  pose proof HI as [H1 H2 H3 H4 H5 H6 H7]. apply Forall_cons in H3 as [H3 _]. cbn [fst].
  destruct (TryGetNext (context s)) as [next c] eqn:Eg. destruct (fifo_get _ _ _ H2 Eg) as (Hf & Hm & Ht). cbn [snd fst].
  destruct next as [portion|].
  - exists [HTaken n (portion_data portion)]. split.
    + split; cbn; try done.
      * by constructor.
      * by unfold pending_ok; cbn; rewrite Hp.
      * intros _. specialize (H5 Hfin). unfold pending_data in *. rewrite Hp in H5. cbn. rewrite Hp, Ht, fmap_app, concat_app, app_assoc, H5.
        cbn. by rewrite !app_nil_r, <-app_assoc.
      * by rewrite Hm.
    + case_bool_decide; apply leaves_keeps; [apply take_leaves|apply finish_leaves].
  - destruct Ht as [-> _]. exists [HIdle n]. split; [by destruct s|].
    apply owns_action. intros s' rest HI'. destruct (holder _ _ _ HI') as (-> & Hp' & Hfin').
    unfold compose. destruct (IsMarkedDone (context s')) eqn:Ed; cbn [fst snd].
    + exists [HDone]. split; [|by apply leaves_keeps, complete_leaves]. destruct HI' as [I1 I2 I3 I4 I5 I6 I7].
      apply Forall_cons in I3 as [[_ I3] _]. split; try done. by constructor.
    + exists [HIdle n]. split; [done|]. apply leaves_keeps. intros s2 Hs2 Hp2 Hf2.
      destruct (_ <=? _); [by apply (abort_leaves (HIdle n))|by apply poll_leaves].
Qed.

Lemma reply_keeps n outcome now : keeps (OnUploadPartCallback SetContentMd5 request n outcome now) [HReply n].
Proof.
  apply owns_action. intros s rest HI. destruct (holder _ _ _ HI) as (-> & Hp & Hfin).
  pose proof (record_reply n outcome s HI) as Hr. destruct (record_part n outcome s) as [s' [r|]]; cbn [fst snd].
  - subst s'. exists [HReply n]. split; [done|]. by apply leaves_keeps, abort_leaves.
  - exists [HIdle n]. split; [done|apply idle_keeps].
Qed.

Lemma poll_keeps n outcome now : keeps (OnUploadPartCallback SetContentMd5 request n outcome now) [HPoll n].
Proof.
  apply owns_action. intros s rest HI. destruct (holder _ _ _ HI) as (-> & Hp & Hfin).
  destruct (record_poll n outcome s HI) as [E Hidle]. rewrite E. exists [HIdle n]. split; [done|apply idle_keeps].
Qed.

(** A change of the context that takes nothing. *)
Lemma set_context_ok s l c : upload_ok s l → fifo c → taken c = taken (context s) →
  (is_marked_done c = false → is_marked_done (context s) = false) →
  (is_marked_done (context s) = true → is_marked_done c = true) → upload_ok (set_context c s) l.
Proof.
  intros [H1 H2 H3 H4 H5 H6 H7] Hf Ht Hm Hm'. split; cbn; try done.
  - eapply Forall_impl; [exact H3|]. intros []; cbn; unfold fresh; cbn; rewrite ?Ht; try done. intros []. auto.
  - unfold pending_ok in *. cbn. destruct (pending s) as [[]|]; try done. unfold fresh in *. cbn. by rewrite Ht.
  - rewrite Ht. exact H5.
  - intros. auto.
Qed.

Lemma push_request_keeps m : keeps (ignore (TryPushRequest context set_context m)) [].
Proof.
  apply owns_reads. intros [r|]; [done|]. apply owns_reads. intros [r|]; [done|].
  apply (owns_atomically _ _ _ _ []); [|done]. intros s rest HI. cbn [app] in HI |- *.
  pose proof (fifo_enqueue m (context s) (uo_fifo _ _ HI)) as Hf. destruct (push_enqueue m (context s)) as [r c] eqn:E.
  unfold push_enqueue in E. destruct (TryEnqueue _ _) as [r' q]. injection E as <- <-. by apply set_context_ok.
Qed.

(** A callback takes over from what the upload waited for. *)
Lemma take_over s l h p : upload_ok s l → pending s = Some p → held_data h = pending_data s →
  (pending_ok s → held_ok (set_pending None s) h) → l = [] ∧ upload_ok (set_pending None s) ([h] ++ l).
Proof.
  intros [H1 H2 H3 H4 H5 H6 H7] Hp Hd Hh. rewrite Hp in H1. cbn in H1.
  assert (l = []) as -> by (destruct l; cbn in *; [done|lia]). split; [done|]. split; cbn; try done.
  - constructor; [by apply Hh|constructor].
  - intros Hf. rewrite (H5 Hf). cbn. by rewrite Hd, !app_nil_r.
Qed.

(** The reply for a part, and a poll. *)
Lemma part_over s l n body : upload_ok s l → pending s = Some (UploadPart n body) → upload_ok (set_pending None s) ([HReply n] ++ l).
Proof.
  intros HI Ep. eapply take_over; [done|done|by unfold pending_data; rewrite Ep|by unfold pending_ok; rewrite Ep].
Qed.

Lemma poll_over s l n o : upload_ok s l → pending s = Some (Poll n o) → upload_ok (set_pending None s) ([HPoll n] ++ l).
Proof.
  intros HI Ep. eapply take_over; [done|done|by unfold pending_data; rewrite Ep|by unfold pending_ok; rewrite Ep].
Qed.

Lemma create_over s l : upload_ok s l → pending s = Some CreateMultipartUpload → upload_ok (set_pending None s) ([HCreate] ++ l).
Proof.
  intros HI Ep. eapply take_over; [done|done|by unfold pending_data; rewrite Ep|by unfold pending_ok; rewrite Ep].
Qed.

Lemma upload_env_keeps s e s' c l : True → upload_ok s l → upload_env SetContentMd5 request s e = Some (s', c) →
  ∃ l', keeps c l' ∧ upload_ok s' (l' ++ l).
Proof.
  intros _ HI E. pose proof (uo_fifo _ _ HI) as H2.
  destruct e as [m| | |outcome now|outcome now|now|outcome|]; cbn in E.
  - injection E as <- <-. exists []. split; [apply push_request_keeps|done].
  - injection E as <- <-. exists []. split; [done|]. by apply set_context_ok.
  - injection E as <- <-. exists []. split; [done|]. by apply set_context_ok.
  - destruct (pending s) as [[]|] eqn:Ep; try done. injection E as <- <-. exists [HCreate]. split; [|by apply create_over].
    destruct outcome; apply leaves_keeps; [apply finish_leaves|apply start_leaves].
  - destruct (pending s) as [[]|] eqn:Ep; try done. injection E as <- <-. exists [HReply number].
    split; [apply reply_keeps|by eapply part_over].
  - destruct (pending s) as [[]|] eqn:Ep; try done. injection E as <- <-. exists [HPoll number].
    split; [apply poll_keeps|by eapply poll_over].
  - destruct (pending s) as [[]|] eqn:Ep; try done. injection E as <- <-. exists [HEnd].
    split; [apply leaves_keeps, finish_leaves|]. eapply take_over; [done|done|by unfold pending_data; rewrite Ep|done].
  - destruct (pending s) as [[]|] eqn:Ep; try done. injection E as <- <-. exists [HEnd].
    split; [apply leaves_keeps, finish_leaves|]. eapply take_over; [done|done|by unfold pending_data; rewrite Ep|done].
Qed.

#[local] Abbreviation uploads cap answers evs rs w :=
  (∃ s, PutBlobStream request cap answers = Sent s ∧
     run_ops (upload_step SetContentMd5 request) (mkWorld s []) evs = Some (rs, w)).

Lemma upload_run_ok cap answers evs rs w : uploads cap answers evs rs w → ∃ ls, world_ok upload_ok w ls.
Proof.
  intros (s & Es & E). unfold PutBlobStream in Es. destruct (invalid_blob _); [done|]. injection Es as <-.
  eapply owns_run; [apply upload_ok_perm|apply upload_env_keeps| | |exact E].
  - apply Forall_true. by intros [].
  - split; [constructor|]. split; cbn; try done; [apply fifo_new|]. by rewrite app_nil_r.
Qed.

(** C24: In every interleaving the context of a [PutBlobStream] is finished at most once, and exactly once
    when no thread is under way and the upload waits for nothing. *)
Theorem put_stream_finishes_once cap answers evs rs w :
  uploads cap answers evs rs w →
  (length (finished (shared w)) ≤ 1)%nat ∧
  (ended w = true → pending (shared w) = None → length (finished (shared w)) = 1%nat).
Proof.
  intros E. destruct (upload_run_ok _ _ _ _ _ E) as [ls Hw]. pose proof (uo_once _ _ (proj2 Hw)) as H1. split; [lia|].
  intros He Hp. pose proof (uo_once _ _ (ended_owns_nothing _ _ _ Hw He)) as H2. rewrite Hp in H2. cbn in H2. lia.
Qed.

(** In every interleaving, when the upload is completed, the parts that are completed are all that were
    sent, numbered from one, and their bytes are the first portion and the portions taken from the
    context, in order. *)
Theorem put_stream_completes_taken cap answers evs rs w ps :
  uploads cap answers evs rs w → pending (shared w) = Some (CompleteMultipartUpload ps) → 
  ps.*1 = (parts (shared w)).*1 ∧ (parts (shared w)).*1 = seqZ 1 (zlen (parts (shared w))) ∧
  concat (parts (shared w)).*2 = portion_data request ++ concat (portion_data <$> taken (context (shared w))).
Proof.
  intros E Hp. destruct (upload_run_ok _ _ _ _ _ E) as [ls [_ [H1 H2 H3 H4 H5 (H6 & H6' & _) H7]]].
  unfold pending_ok in H4. rewrite Hp in H1, H4. destruct H4 as (-> & Hall & Hacc). unfold all_parts_completed in Hall.
  rewrite H6', H6, Hall. split; [done|]. split; [done|]. cbn in H1.
  assert (concat ls = [] ∧ finished (shared w) = []) as [Els Hf] by (destruct (concat ls), (finished (shared w)); cbn in *; try lia; done).
  specialize (H5 Hf). unfold pending_data in H5. rewrite Hp, Els, Hacc in H5. cbn in H5. by rewrite H5, app_nil_r.
Qed.

(** ** One callback at a time *)

(** Nothing comes after what was taken. *)
Definition closed s : Prop := is_marked_done (context s) = true ∧ items (queue (context s)) = [].

(** All parts are big, or the last one was sent when nothing came any more. *)
Record serial_ok s : Prop := {
  so_parts : Forall big (parts s) ∨
    (closed s ∧ accumulated_contents (tracker s) = [] ∧ Forall big (removelast (parts s)));
  so_complete ps : pending s = Some (CompleteMultipartUpload ps) → closed s
}.

Lemma serial_ok_same s s' : serial_ok s → parts s' = parts s →
  (closed s → closed s' ∧ (accumulated_contents (tracker s) = [] → accumulated_contents (tracker s') = [])) →
  (∀ ps, pending s' = Some (CompleteMultipartUpload ps) → pending s = pending s') → serial_ok s'.
Proof.
  intros [[H|(Hc & Ha & Hb)] H2] Ep Hk Hp; split; rewrite ?Ep; auto.
  - intros ps E. rewrite <-(Hp ps E) in E. by apply Hk, (H2 ps).
  - right. destruct (Hk Hc). auto.
  - intros ps E. by apply Hk.
Qed.

Lemma finish_serial r s : serial_ok s → serial_ok (finish_stream r s).
Proof. intros H. eapply serial_ok_same; [exact H|done| |done]. unfold closed. cbn. tauto. Qed.

Lemma poll_serial n o s : serial_ok s → serial_ok (ScheduleAnotherPutBlobStreamPoll n o s).
Proof.
  intros H. unfold ScheduleAnotherPutBlobStreamPoll. destruct (Successful _); [|apply finish_serial]; eapply serial_ok_same; done.
Qed.

Lemma upload_part_serial body s : serial_ok s → Forall big (parts s) → pending s = None →
  closed s ∨ kMinimumPartSize ≤ zlen body → serial_ok (upload_part SetContentMd5 body s).
Proof.
  intros H Hb Hp Hbody. unfold upload_part. destruct (Successful _); cbn [negb]; [|by apply finish_serial]. split; [|done].
  cbn. destruct Hbody as [Hc|Hbig].
  - right. split; [done|]. split; [done|]. by rewrite removelast_last.
  - left. apply Forall_app. split; [done|]. by constructor.
Qed.

Lemma next_portion_serial n o now s s' : serial_ok s → pending s = None → fifo (context s) →
  run_code (next_portion SetContentMd5 request n o now) s = Some (s', tt) → serial_ok s'.
Proof.
  intros H Hp Hf. cbn. destruct (IsCancelled (context s)); cbn; [intros [= <-]; by eapply serial_ok_same|].
  destruct (TryGetNext (context s)) as [next c] eqn:Eg. destruct (fifo_get _ _ _ Hf Eg) as (Hf' & Hm & Ht). destruct next as [m|].
  - assert (Forall big (parts s)) as Hb.
    { destruct (so_parts _ H) as [|((_ & Hi) & _)]; [done|]. unfold TryGetNext, TryDequeue in Eg. by rewrite (proj2 (pop_none _) Hi) in Eg. }
    assert (serial_ok (set_context c s)) as H1 by (split; [by left|]; cbn; by rewrite Hp).
    case_bool_decide; intros [= <-]; [|by apply finish_serial]. unfold take_portion.
    destruct (Z.leb_spec kMinimumPartSize (zlen (accumulated_contents (tracker (set_context c s)) ++ data (put_portion m)))).
    + apply upload_part_serial; auto.
    + apply poll_serial. split; [by left|]. cbn. by rewrite Hp.
  - destruct Ht as [-> Hi]. destruct s as [c t p pa fi ps]. cbn in *. destruct (IsMarkedDone c) eqn:Ed; cbn; intros [= <-].
    + assert (closed (mkUpload c t p pa fi ps)) as Hc by done. unfold CompleteUpload. cbn.
      destruct (accumulated_contents t) eqn:Ea.
      * destruct H as [H1 H2]. split; cbn; [by destruct H1 as [|(? & ? & ?)]; [left|right]|done].
      * apply upload_part_serial; [done| |done|by left]. destruct (so_parts _ H) as [|(_ & Hacc & _)]; [done|]. cbn in Hacc. by rewrite Ea in Hacc.
    + destruct (_ <=? now); [by eapply serial_ok_same|by apply poll_serial].
Qed.

Lemma callback_serial n o now s s' : serial_ok s → upload_ok s [HReply n] ∨ upload_ok s [HPoll n] →
  run_code (OnUploadPartCallback SetContentMd5 request n o now) s = Some (s', tt) → serial_ok s'.
Proof.
  intros H Hok E. assert (pending s = None) as Hp by (by destruct Hok as [Hok|Hok]; apply (holder _ _ [] Hok)).
  change (run_code (OnUploadPartCallback SetContentMd5 request n o now) s) with
    (let '(s1, failed) := record_part n o s in
     run_code (match failed with Some r => modifies (AbortUpload r) | None => next_portion SetContentMd5 request n o now end) s1) in E.
  assert (match record_part n o s with (s1, Some _) => s1 = s | (s1, None) => upload_ok s1 [HIdle n] end) as Hr.
  { destruct Hok as [Hok|Hok]; [by apply record_reply|]. by destruct (record_poll n o s Hok) as [-> ?]. }
  destruct (record_part n o s) as [s1 failed] eqn:Er. destruct failed as [r|].
  - subst s1. cbn in E. injection E as <-. by eapply serial_ok_same.
  - eapply (next_portion_serial n o now s1); [|by apply (holder _ _ [] Hr)|apply Hr|exact E].
    unfold record_part in Er. destruct (_ =? n); [|by injection Er as <-]. destruct o as [e|etag]; [done|].
    destruct (empty etag); [done|]. injection Er as <-. eapply serial_ok_same; [exact H|done|done|]. cbn. by rewrite Hp.
Qed.

Lemma start_serial id now s : serial_ok s → upload_ok s [HCreate] → serial_ok (start_upload SetContentMd5 request id now s).
Proof.
  intros H Hok. destruct (holder _ _ [] Hok) as (_ & Hp & Hf). pose proof (uo_held _ _ Hok) as [(E1 & _) _]%Forall_cons.
  unfold start_upload. destruct (_ <? _); [by apply finish_serial|].
  assert (∀ t, serial_ok (set_tracker t s)) as Ht by (intros t; split; [left; cbn; by rewrite E1|cbn; by rewrite Hp]).
  destruct (Z.ltb_spec (zlen (data (put_portion request))) kMinimumPartSize); [by apply poll_serial|].
  apply upload_part_serial; [done|cbn; by rewrite E1|done|by right].
Qed.

Lemma serial_step_ok s e s' : upload_ok s [] ∧ serial_ok s →
  serial_step (upload_env SetContentMd5 request) s e = Some (tt, s') → upload_ok s' [] ∧ serial_ok s'.
Proof.
  intros [Hok Hs] E. unfold serial_step in E. destruct (upload_env _ _ s e) as [[s1 c]|] eqn:Ee; [|done]. cbn in E.
  destruct (run_code c s1) as [[s2 []]|] eqn:Er; [|done]. injection E as <-.
  destruct (upload_env_keeps s e s1 c [] I Hok Ee) as (l & Hc & Hok1). split; [by eapply owns_run_code|].
  assert (serial_ok (set_pending None s)) as Hnone by (by eapply serial_ok_same).
  destruct e as [m| | |outcome now|outcome now|now|outcome|]; cbn in Ee.
  - injection Ee as <- <-. cbn in Er. unfold push_done_test in Er. destruct (IsMarkedDone (context s)) eqn:Ed; cbn in Er; [by injection Er as <-|].
    unfold push_cancel_test in Er. destruct (IsCancelled (context s)); cbn in Er; [by injection Er as <-|].
    unfold push_enqueue in Er. destruct (TryEnqueue _ _) as [r q]. cbn in Er. injection Er as <-.
    eapply serial_ok_same; [exact Hs|done| |done]. unfold closed. cbn. unfold IsMarkedDone in Ed. rewrite Ed. by intros [? _].
  - injection Ee as <- <-. injection Er as <-. eapply serial_ok_same; [exact Hs|done| |done]. unfold closed. cbn. tauto.
  - injection Ee as <- <-. injection Er as <-. eapply serial_ok_same; [exact Hs|done| |done]. unfold closed. cbn. tauto.
  - destruct (pending s) as [[]|] eqn:Ep; try done. injection Ee as <- <-.
    destruct outcome; injection Er as <-; [by apply finish_serial|]. apply start_serial; [done|by apply create_over].
  - destruct (pending s) as [[]|] eqn:Ep; try done. injection Ee as <- <-. eapply callback_serial; [exact Hnone| |exact Er].
    left. by eapply (part_over s []).
  - destruct (pending s) as [[]|] eqn:Ep; try done. injection Ee as <- <-. eapply callback_serial; [exact Hnone| |exact Er].
    right. by eapply (poll_over s []).
  - destruct (pending s) as [[]|] eqn:Ep; try done. injection Ee as <- <-. injection Er as <-. by apply finish_serial.
  - destruct (pending s) as [[]|] eqn:Ep; try done. injection Ee as <- <-. injection Er as <-. by apply finish_serial.
Qed.

End writing.

(** ** Runs of writing *)

Module WriteRuns.
#[local] Abbreviation Queue := (Z * list PutBlobStreamRequest)%type.
Definition md5 : list Z → ExecutionResult := λ _, SuccessExecutionResult.
Definition portion (bytes : list Z) : PutBlobStreamRequest := mkPutBlobStreamRequest (mkBlob ReadRuns.md bytes) None.
Definition start : Upload (Q:=Queue) :=
  mkUpload (new_stream 10) (mkPutBlobStreamTracker "" 1 [] [] 0) (Some CreateMultipartUpload) [] [] [].

#[local] Abbreviation Run := Threads.Run.
#[local] Abbreviation events := (list (@ThreadEvent UploadEvent)).

Definition observe {A} (f : Upload (Q:=Queue) → A) (first : list Z) (evs : events) : option (A * bool) :=
  (λ '(_, w), (f (shared w), ended w)) <$> run_ops (upload_step md5 (portion first)) (mkWorld start []) evs.

Lemma upload_observed {A} (f : Upload (Q:=Queue) → A) first evs a b : observe f first evs = Some (a, b) →
  ∃ rs w, run_ops (upload_step md5 (portion first)) (mkWorld start []) evs = Some (rs, w) ∧ f (shared w) = a ∧ ended w = b.
Proof.
  unfold observe. destruct (run_ops _ _ evs) as [[rs w]|]; [|done]. cbn. intros [= <- <-]. eauto.
Qed.

(** Two small portions, [MarkDone], and the replies: one part is uploaded. *)
Definition small_upload : events :=
  [Env (Created (inr "id") 0); Run 0;
   Env (Push (portion [2])); Run 1; Run 1; Run 1;
   Env (PollFires 1); Run 2; Run 2; Run 2; Run 2;
   Env CallMarkDone;
   Env (PollFires 2); Run 4; Run 4; Run 4; Run 4; Run 4;
   Env (PartUploaded (inr "etag") 3); Run 5; Run 5; Run 5; Run 5; Run 5].

Lemma put_stream_completes_taken_witness :
  ∃ rs w, run_ops (upload_step md5 (portion [1])) (mkWorld start []) small_upload = Some (rs, w) ∧
    pending (shared w) = Some (CompleteMultipartUpload [(1, "etag")]) ∧ concat (parts (shared w)).*2 = [1; 2].
Proof.
  destruct (upload_observed (λ s, (pending s, taken (context s))) [1] small_upload
    (Some (CompleteMultipartUpload [(1, "etag")]), [portion [2]]) true) as (rs & w & E & Ho & He); [vm_compute; reflexivity|].
  injection Ho as Hp Ht. exists rs, w. split; [exact E|]. split; [exact Hp|].
  destruct (put_stream_completes_taken md5 (portion [1]) 10 [] small_upload rs w [(1, "etag")]) as (_ & _ & Hc);
    [exists start; split; [reflexivity|exact E]|exact Hp|].
  rewrite Hc, Ht. reflexivity.
Defined.

Lemma put_stream_finishes_once_witness :
  ∃ rs w, run_ops (upload_step md5 (portion [1])) (mkWorld start []) (small_upload ++ [Env (Completed (inr tt)); Run 6]) = Some (rs, w) ∧
    length (finished (shared w)) = 1%nat.
Proof.
  destruct (upload_observed pending [1] (small_upload ++ [Env (Completed (inr tt)); Run 6]) None true) as (rs & w & E & Hp & He); [vm_compute; reflexivity|].
  exists rs, w. split; [exact E|].
  apply (put_stream_finishes_once md5 (portion [1]) 10 [] (small_upload ++ [Env (Completed (inr tt)); Run 6]) rs w);
    [exists start; split; [reflexivity|exact E]|exact He|exact Hp].
Defined.

Definition serial_upload : list UploadEvent :=
  [Created (inr "id") 0; Push (portion [2]); PollFires 1; CallMarkDone; PollFires 2; PartUploaded (inr "etag") 3].


(** A first portion that makes a part is uploaded at once. *)
Lemma first_part_sent first : kMinimumPartSize ≤ zlen first →
  run_ops (upload_step md5 (portion first)) (mkWorld start []) [Env (Created (inr "id") 0); Run 0] =
  Some ([tt; tt], mkWorld (mkUpload (new_stream 10) (mkPutBlobStreamTracker "id" 1 [] [] kDefaultStreamKeepaliveNanos)
    (Some (UploadPart 1 first)) [] [] [(1, first)]) [mret tt]).
Proof.
  intros Hbig. assert (E : start_upload md5 (portion first) "id" 0 (set_pending None start) =
    mkUpload (new_stream 10) (mkPutBlobStreamTracker "id" 1 [] [] kDefaultStreamKeepaliveNanos)
      (Some (UploadPart 1 first)) [] [] [(1, first)]).
  { unfold start_upload. cbn [put_portion data portion]. rewrite (proj2 (Z.ltb_ge (zlen first) _) Hbig). reflexivity. }
  rewrite <- E. reflexivity.
Qed.

(** A portion that is pushed after a callback found no portion, and before it looks whether the context
    is marked done, is lost: with a first portion that makes a part, the upload is completed without it and
    the caller is told of a success. *)
Theorem portion_racing_done_is_lost first m : kMinimumPartSize ≤ zlen first →
  observe (λ s, (finished s, Streaming.accepted (context s), taken (context s), parts s)) first
    ([Env (Created (inr "id") 0); Run 0] ++
     [Env (PartUploaded (inr "etag") 1); Run 1; Run 1; Run 1;
      Env (Push m); Run 2; Run 2; Run 2; Env CallMarkDone;
      Run 1; Run 1; Env (Completed (inr tt)); Run 4]) =
  Some (([SuccessExecutionResult], [m], [], [(1, first)]), true).
Proof.
  intros Hbig. unfold observe. rewrite run_ops_app, first_part_sent by exact Hbig. vm_compute. reflexivity.
Qed.

Lemma big_portion : ∃ first : list Z, kMinimumPartSize ≤ zlen first.
Proof. exists (replicate (Z.to_nat kMinimumPartSize) 0). rewrite length_replicate. lia. Qed.

Lemma portion_racing_done_is_lost_witness :
  ∃ first, kMinimumPartSize ≤ zlen first ∧
    fst <$> observe (λ s, (finished s, Streaming.accepted (context s), taken (context s), parts s)) first
      ([Env (Created (inr "id") 0); Run 0] ++
       [Env (PartUploaded (inr "etag") 1); Run 1; Run 1; Run 1;
        Env (Push (portion [2])); Run 2; Run 2; Run 2; Env CallMarkDone;
        Run 1; Run 1; Env (Completed (inr tt)); Run 4]) =
    Some ([SuccessExecutionResult], [portion [2]], [], [(1, first)]).
Proof.
  destruct big_portion as [first H]. exists first. split; [exact H|].
  rewrite (portion_racing_done_is_lost first (portion [2]) H). reflexivity.
Defined.
End WriteRuns.
