(* ===== verification/GcpBlob.v ===== *)
(** * GcpBlob: blobs in Cloud Storage

    Models [gcp_blob_storage_client_provider.cc] and [.h] of
    [cc/cpio/client_providers/blob_storage_client_provider/src/gcp], with
    [gcp_blob_storage_client_utils.h].  Google's client library is a parameter:
    streams to read an object from and to write it to, and what its other calls
    return.  The results of scheduling a task, and what a read learns of the
    consumer's context, are arguments.

    [PutBlobStream] is code of several threads ([Threads]): the caller pushes
    portions and marks the context done while a task of the I/O executor takes
    them and schedules itself again.  [None] stands for undefined behaviour and
    for a string too long to be allocated. *)

From S2P Require Import Prelude ExecResult Provider TaskExecutor Streaming Threads BlobStorage GcpStatus.

Local Open Scope string_scope.
Local Open Scope list_scope.
Local Open Scope Z_scope.

Definition ConvertCloudStorageErrorToExecutionResult (e : StatusCode) : ExecutionResult :=
  match e with
  | kResourceExhausted | kUnavailable | kInternal | kUnknown | kAborted | kFailedPrecondition | kAlreadyExists =>
      RetryExecutionResult SC_BLOB_STORAGE_PROVIDER_RETRIABLE_ERROR
  | kNotFound => FailureExecutionResult SC_BLOB_STORAGE_PROVIDER_BLOB_PATH_NOT_FOUND
  | kOutOfRange => FailureExecutionResult SC_BLOB_STORAGE_PROVIDER_ERROR_GETTING_BLOB
  | _ => FailureExecutionResult SC_BLOB_STORAGE_PROVIDER_UNRETRIABLE_ERROR
  end.

(** ** Reading *)

(** [google::cloud::storage::ObjectReadStream]: [size] is the one of the whole object; [read] gives as
    many of the bytes asked for as there are. *)
Class ObjectReadStream (St : Type) := {
  status : St → StatusCode;
  size : St → option Z;
  read : Z → St → list Z * St
}.

Section reading.
Context {St : Type} `{!ObjectReadStream St}.
(** Of an object, or a right-open range of it. *)
Variable ReadObject : BlobMetadata → option (Z * Z) → St.

Definition read_range (request : GetBlobRequest) : option (Z * Z) :=
  (λ b, (s64 (begin_byte_index b), s64 (u64 (end_byte_index b + 1)))) <$> byte_range request.

(** The length of what is read of an object of [n] bytes. *)
Definition content_length (request : GetBlobRequest) (n : Z) : Z :=
  match byte_range request with
  | Some b =>
      let max_end_index := u64 (n - 1) in
      let end_index := if max_end_index <? end_byte_index b then max_end_index else end_byte_index b in
      u64 (1 + end_index - begin_byte_index b)
  | None => n
  end.

(** [resize] of an empty string to [n], and [read] into it. *)
Definition read_bytes (n : Z) (st : St) : option (list Z * St) :=
  if 2 ^ 63 <=? n then None
  else let '(bytes, st) := read n st in Some (bytes ++ replicate (Z.to_nat n - length bytes) 0, st).

Definition GetBlob (request : GetBlobRequest) (schedule_result : ExecutionResult) : Started GetBlobRequest :=
  let r := ValidateGetBlobRequest request in
  if negb (Successful r) then Rejected r true else scheduled schedule_result request.

Definition GetBlobInternal (request : GetBlobRequest) : option (ExecutionResult * option Blob) :=
  let blob_stream := ReadObject (get_metadata request) (read_range request) in
  let r := GcpErrorConverter (status blob_stream) in
  if negb (Successful r) then Some (r, None)
  else
    n ← size blob_stream;
    '(bytes, blob_stream) ← read_bytes (content_length request n) blob_stream;
    let blob := mkBlob (get_metadata request) bytes in
    Some (GcpErrorConverter (status blob_stream), Some blob).

Definition GetBlobStream (request : GetBlobStreamRequest) (schedule_result : ExecutionResult) : Started GetBlobStreamRequest :=
  let r := ValidateGetBlobRequest (stream_get request) in
  if negb (Successful r) then Rejected r true else scheduled schedule_result request.

Record GetBlobStreamTracker := mkGetBlobStreamTracker {
  stream : St;
  last_end_byte_index : Z;
  bytes_remaining : Z
}.

(** [inl r]: the context is finished with [r]. *)
Definition InitGetBlobStreamTracker (request : GetBlobRequest) : ExecutionResult + GetBlobStreamTracker :=
  let blob_stream := ReadObject (get_metadata request) (read_range request) in
  let r := GcpErrorConverter (status blob_stream) in
  if negb (Successful r) then inl r
  else match size blob_stream with
       | None => inl (FailureExecutionResult SC_BLOB_STORAGE_PROVIDER_ERROR_GETTING_BLOB)
       | Some n =>
           inr (mkGetBlobStreamTracker blob_stream (u64 (from_option begin_byte_index 0 (byte_range request) - 1))
                  (content_length request n))
       end.

Definition ReadNextPortion (request : GetBlobStreamRequest) (tracker : GetBlobStreamTracker)
  : option (GetBlobStreamResponse * GetBlobStreamTracker) :=
  let next_read_size :=
    Z.min (if max_bytes_per_response request =? 0 then k64KbCount else max_bytes_per_response request)
      (bytes_remaining tracker) in
  let first := u64 (last_end_byte_index tracker + 1) in
  let last := u64 (first + next_read_size - 1) in
  '(bytes, st) ← read_bytes next_read_size (stream tracker);
  Some (mkGetBlobStreamResponse (mkBlob (get_metadata (stream_get request)) bytes) (mkByteRange first last),
        mkGetBlobStreamTracker st last (bytes_remaining tracker - next_read_size)).

(** What one task does: the messages it pushes, the results it finishes the context with, and the
    tracker of the task that it schedules. *)
Record StreamTask := mkStreamTask {
  pushed : list GetBlobStreamResponse;
  finishes : list ExecutionResult;
  next_task : option GetBlobStreamTracker
}.

(** From the tracker on.  [process_result] is the result of scheduling [ProcessNextMessage]: a failure
    finishes the context, and the task goes on. *)
Definition read_portion (request : GetBlobStreamRequest) (tracker : GetBlobStreamTracker) (cancelled : bool)
    (push_result process_result schedule_result : ExecutionResult) : option StreamTask :=
  if cancelled
  then Some (mkStreamTask [] [FailureExecutionResult SC_BLOB_STORAGE_PROVIDER_STREAM_SESSION_CANCELLED] None)
  else
    '(response, tracker) ← ReadNextPortion request tracker;
    let r := GcpErrorConverter (status (stream tracker)) in
    if negb (Successful r) then Some (mkStreamTask [] [r] None)
    else if negb (Successful push_result) then Some (mkStreamTask [] [push_result] None)
    else
      let failed := if Successful process_result then [] else [process_result] in
      if bytes_remaining tracker =? 0 then Some (mkStreamTask [response] (failed ++ [SuccessExecutionResult]) None)
      else if Successful schedule_result then Some (mkStreamTask [response] failed (Some tracker))
      else Some (mkStreamTask [response] (failed ++ [schedule_result]) None).

Definition GetBlobStreamInternal (request : GetBlobStreamRequest) (tracker : option GetBlobStreamTracker) (cancelled : bool)
    (push_result process_result schedule_result : ExecutionResult) : option StreamTask :=
  match default (InitGetBlobStreamTracker (stream_get request)) (inr <$> tracker) with
  | inl r => Some (mkStreamTask [] [r] None)
  | inr tracker => read_portion request tracker cancelled push_result process_result schedule_result
  end.
End reading.

(** ** Listing *)

Record ListObjectsRequest := mkListObjectsRequest {
  Bucket : string;
  Prefix : option string;
  StartOffset : option string;
  MaxResults : Z
}.

Definition ListBlobsMetadata (request : ListBlobsMetadataRequest) (schedule_result : ExecutionResult)
  : Started ListBlobsMetadataRequest :=
  match list_rejected request request with
  | Rejected r f => Rejected r f
  | Sent _ => scheduled schedule_result request
  end.

Definition IsPageTokenObject (request : ListBlobsMetadataRequest) (name : string) : bool :=
  bool_decide (page_token request = Some name).

Definition GetMaxPageSize (request : ListBlobsMetadataRequest) : Z :=
  default kListBlobsMetadataMaxResults (max_page_size request).

Definition list_objects (request : ListBlobsMetadataRequest) : ListObjectsRequest :=
  let md := list_metadata request in
  mkListObjectsRequest (bucket_name md) (if empty (blob_name md) then None else Some (blob_name md))
    (match page_token request with Some t => if empty t then None else Some t | None => None end)
    (GetMaxPageSize request).

(** The loop over the names that the library returns, page after page, or the error it meets. *)
Fixpoint list_loop (request : ListBlobsMetadataRequest) (objects : list (StatusCode + string)) (found : list BlobMetadata)
  : ExecutionResult * ListBlobsMetadataResponse :=
  match objects with
  | [] => (SuccessExecutionResult, mkListBlobsMetadataResponse found "")
  | inl e :: _ => (ConvertCloudStorageErrorToExecutionResult e, mkListBlobsMetadataResponse found "")
  | inr name :: objects =>
      if bool_decide (found = []) && IsPageTokenObject request name then list_loop request objects found
      else
        let found := found ++ [mkBlobMetadata (bucket_name (list_metadata request)) name] in
        if zlen found =? GetMaxPageSize request then (SuccessExecutionResult, mkListBlobsMetadataResponse found name)
        else list_loop request objects found
  end.

Definition ListBlobsMetadataInternal (ListObjects : ListObjectsRequest → list (StatusCode + string))
    (request : ListBlobsMetadataRequest) : ExecutionResult * ListBlobsMetadataResponse :=
  list_loop request (ListObjects (list_objects request)) [].

(** ** Single calls *)

(** An invalid request does not finish the context. *)
Definition PutBlob (request : Blob) (schedule_result : ExecutionResult) : Started Blob :=
  if invalid_blob request then Rejected INVALID_ARGS false else scheduled schedule_result request.

(** With the status of [InsertObject]. *)
Definition PutBlobInternal (status_code : StatusCode) : ExecutionResult :=
  if bool_decide (status_code = kOk) then SuccessExecutionResult else ConvertCloudStorageErrorToExecutionResult status_code.

Definition DeleteBlob (request : BlobMetadata) (schedule_result : ExecutionResult) : Started BlobMetadata :=
  if missing_name request then Rejected INVALID_ARGS true else scheduled schedule_result request.

(** With the status of [DeleteObject]. *)
Definition DeleteBlobInternal (status_code : StatusCode) : ExecutionResult :=
  if bool_decide (status_code = kOk) then SuccessExecutionResult else ConvertCloudStorageErrorToExecutionResult status_code.

(** ** Writing *)

(** [google::cloud::storage::ObjectWriteStream], together with what the service has of its session. *)
Class ObjectWriteStream (St : Type) := {
  WriteObject : BlobMetadata → St;                         (* NewResumableUploadSession *)
  RestoreObject : BlobMetadata → string → St → St;          (* RestoreResumableUploadSession *)
  write : list Z → St → St;
  last_status : St → StatusCode;
  resumable_session_id : St → string;
  Suspend : St → St;
  Close : St → St;
  metadata_status : St → StatusCode                        (* of a closed stream *)
}.

Section upload.
Context {Q : Type} `{BQ : !BoundedQueue PutBlobStreamRequest Q} {St : Type} `{!ObjectWriteStream St}.
#[local] Abbreviation Context_ := (Stream (Msg:=PutBlobStreamRequest) (Q:=Q)).

Record PutBlobStreamTracker := mkPutBlobStreamTracker {
  write_stream : St;
  session_id : option string;
  tracked : BlobMetadata;
  expiry_time_ns : Z
}.

(** What the executor has to run. *)
Inductive UploadTask := InitTask | NextTask (tracker : PutBlobStreamTracker).

Record Upload := mkUpload {
  context : Context_;
  task : option UploadTask;
  answers : list ExecutionResult;                (* of the executor, when a task is scheduled *)
  finished : list ExecutionResult;
  deleted : list string;                         (* sessions *)
  closed : option St;
  suspensions : list St                          (* the streams that were suspended *)
}.

Definition set_context (c : Context_) (s : Upload) : Upload :=
  mkUpload c (task s) (answers s) (finished s) (deleted s) (closed s) (suspensions s).

(** [FinishStreamingContext]. *)
Definition finish_stream (r : ExecutionResult) (s : Upload) : Upload :=
  mkUpload (MarkDone (context s)) (task s) (answers s) (finished s ++ [r]) (deleted s) (closed s) (suspensions s).

(** [Schedule] and [ScheduleFor] of [PutBlobStreamInternal]. *)
Definition schedule_next (tracker : PutBlobStreamTracker) (s : Upload) : Upload :=
  let r := default SuccessExecutionResult (head (answers s)) in
  let s := mkUpload (context s) (task s) (tail (answers s)) (finished s) (deleted s) (closed s) (suspensions s) in
  if Successful r then mkUpload (context s) (Some (NextTask tracker)) (answers s) (finished s) (deleted s) (closed s) (suspensions s)
  else finish_stream r s.

Definition RestoreUploadIfSuspended (tracker : PutBlobStreamTracker) : PutBlobStreamTracker :=
  match session_id tracker with
  | Some id =>
      mkPutBlobStreamTracker (RestoreObject (tracked tracker) id (write_stream tracker)) None (tracked tracker)
        (expiry_time_ns tracker)
  | None => tracker
  end.

(** The session is deleted and the context finished. *)
Definition delete_upload (id : string) (r : ExecutionResult) (s : Upload) : Upload :=
  finish_stream r (mkUpload (context s) (task s) (answers s) (finished s) (deleted s ++ [id]) (closed s) (suspensions s)).

Definition cancel_upload (tracker : PutBlobStreamTracker) : Upload → Upload :=
  delete_upload (resumable_session_id (write_stream (RestoreUploadIfSuspended tracker)))
    (FailureExecutionResult SC_BLOB_STORAGE_PROVIDER_STREAM_SESSION_CANCELLED).

Definition close_upload (tracker : PutBlobStreamTracker) (s : Upload) : Upload :=
  let st := Close (write_stream (RestoreUploadIfSuspended tracker)) in
  let r := if bool_decide (metadata_status st = kOk) then SuccessExecutionResult
           else ConvertCloudStorageErrorToExecutionResult (metadata_status st) in
  finish_stream r (mkUpload (context s) (task s) (answers s) (finished s) (deleted s) (Some st) (suspensions s)).

Definition suspend_upload (st : St) (s : Upload) : Upload :=
  mkUpload (context s) (task s) (answers s) (finished s) (deleted s) (closed s) (suspensions s ++ [st]).

(** No message waits: the session expires, or is suspended until the next look. *)
Definition wait_upload (tracker : PutBlobStreamTracker) (now : Z) (s : Upload) : Upload :=
  if expiry_time_ns tracker <=? now
  then delete_upload (default (resumable_session_id (write_stream tracker)) (session_id tracker))
         (FailureExecutionResult SC_BLOB_STORAGE_PROVIDER_STREAM_SESSION_EXPIRED) s
  else
    match session_id tracker with
    | Some _ => schedule_next tracker s
    | None =>
        let st := write_stream tracker in
        schedule_next (mkPutBlobStreamTracker (Suspend st) (Some (resumable_session_id st)) (tracked tracker)
                         (expiry_time_ns tracker))
          (suspend_upload st s)
    end.

(** A portion is written. *)
Definition write_portion (tracker : PutBlobStreamTracker) (portion : Blob) : Upload → Upload :=
  if bool_decide (metadata portion = tracked tracker)
  then
    let tracker := RestoreUploadIfSuspended tracker in
    let st := write (data portion) (write_stream tracker) in
    let r := GcpErrorConverter (last_status st) in
    if negb (Successful r) then finish_stream r
    else schedule_next (mkPutBlobStreamTracker st (session_id tracker) (tracked tracker) (expiry_time_ns tracker))
  else finish_stream INVALID_ARGS.

Definition PutBlobStreamInternal (tracker : PutBlobStreamTracker) (now : Z) : Code Upload () :=
  cancelled ← reads (IsCancelled ∘ context);
  if cancelled : bool then modifies (cancel_upload tracker)
  else
    request ← TryGetNextRequest context set_context;
    match request with
    | None =>
        done ← reads (IsMarkedDone ∘ context);
        if done : bool then modifies (close_upload tracker) else modifies (wait_upload tracker now)
    | Some request => modifies (write_portion tracker (put_portion request))
    end.

Section blob.
Variable request : PutBlobStreamRequest.           (* the first one *)

(** [inl r]: the context is finished with [r]. *)
Definition init_tracker (now : Z) : ExecutionResult + PutBlobStreamTracker :=
  let duration := default kDefaultStreamKeepaliveNanos (stream_keepalive_duration request) in
  if kMaximumStreamKeepaliveNanos <? duration then inl INVALID_ARGS
  else
    let md := metadata (put_portion request) in
    let st := write (data (put_portion request)) (WriteObject md) in
    let r := GcpErrorConverter (last_status st) in
    if negb (Successful r) then inl r else inr (mkPutBlobStreamTracker st None md (now + duration)).

(** [now] and [later] are the times that it and [PutBlobStreamInternal] read. *)
Definition InitPutBlobStream (now later : Z) : Code Upload () :=
  match init_tracker now with
  | inl r => modifies (finish_stream r)
  | inr tracker => PutBlobStreamInternal tracker later
  end.

Definition PutBlobStream (capacity : Z) (schedule_result : ExecutionResult) (more : list ExecutionResult) : Started Upload :=
  if invalid_blob (put_portion request) then Rejected INVALID_ARGS true
  else scheduled schedule_result (mkUpload (new_stream capacity) (Some InitTask) more [] [] None []).

(** ** Threads *)

Inductive UploadEvent :=
  | Push (m : PutBlobStreamRequest)
  | CallMarkDone
  | CallTryCancel
  | RunTask (now later : Z).

Definition upload_env (s : Upload) (e : UploadEvent) : option (Upload * Code Upload ()) :=
  match e with
  | Push m => Some (s, ignore (TryPushRequest context set_context m))
  | CallMarkDone => Some (set_context (MarkDone (context s)) s, mret tt)
  | CallTryCancel => Some (set_context (TryCancel (context s)) s, mret tt)
  | RunTask now later =>
      t ← task s;
      Some (mkUpload (context s) None (answers s) (finished s) (deleted s) (closed s) (suspensions s),
            match t with
            | InitTask => InitPutBlobStream now later
            | NextTask tracker => PutBlobStreamInternal tracker later
            end)
  end.

Definition upload_step : World Upload → @ThreadEvent UploadEvent → option (() * World Upload) := thread_step upload_env.
End blob.
End upload.
