(* ===== verification/GcpBlobSpec.v ===== *)
(** * GcpBlobSpec: what the Cloud Storage client promises

    Reading: [GetBlobStream] delivers the requested range in order, in portions
    of the size asked for, and ends; the contract is the one that the S3 client
    has ([BlobStorage.delivers]).  Listing: following the page tokens gives
    every name once.

    Writing: in every interleaving the context of a [PutBlobStream] is finished
    exactly once; a stream that is closed has, in order, what was taken from the
    context, unless it was suspended with bytes that the service had not yet
    committed, which are lost. *)

From S2P Require Import Prelude ExecResult Provider TaskExecutor Streaming Threads BlobStorage GcpStatus GcpBlob.

Local Open Scope string_scope.
Local Open Scope list_scope.
Local Open Scope Z_scope.

(** ** Reading *)

(** What the library's documentation says of reading: a stream that is [kOk] has bytes that are not yet
    read, and gives them in order. *)
Class ReadStreamLaws (St : Type) `{!ObjectReadStream St} := {
  unread : St → list Z;
  read_unread st n bytes st' :
    status st = kOk → 0 ≤ n ≤ zlen (unread st) → read n st = (bytes, st') →
    bytes = take (Z.to_nat n) (unread st) ∧ unread st' = drop (Z.to_nat n) (unread st) ∧ status st' = kOk
}.

Section reading.
Context {St : Type} `{!ObjectReadStream St, !ReadStreamLaws St}.
Variables (blob : list Z) (md : BlobMetadata) (ReadObject : BlobMetadata → option (Z * Z) → St).
#[local] Abbreviation last_byte := (last_byte blob).
#[local] Abbreviation delivers := (delivers blob md).
#[local] Abbreviation readable := (readable blob md).

(** Cloud Storage for one object: all of it, or a range that starts inside of it, cut at its end. *)
Record serves : Prop := {
  serves_all : let st := ReadObject md None in
    status st = kOk ∧ size st = Some (zlen blob) ∧ unread st = blob;
  serves_range a b : 0 ≤ a < b → a < zlen blob → let st := ReadObject md (Some (a, b)) in
    status st = kOk ∧ size st = Some (zlen blob) ∧ unread st = slice blob a (Z.min (b - 1) (zlen blob - 1))
}.

(** The tasks of a stream with a consumer that does not cancel, and an executor that takes every task. *)
Fixpoint stream_run (fuel : nat) (request : GetBlobStreamRequest) (t : option (GetBlobStreamTracker (St:=St)))
  : option (list GetBlobStreamResponse * list ExecutionResult) :=
  match fuel with
  | O => None
  | S fuel =>
      t ← GetBlobStreamInternal ReadObject request t false SuccessExecutionResult SuccessExecutionResult SuccessExecutionResult;
      match next_task t with
      | None => Some (pushed t, finishes t)
      | Some _ => '(msgs, rs) ← stream_run fuel request (next_task t); Some (pushed t ++ msgs, finishes t ++ rs)
      end
  end.

Lemma read_bytes_unread n st : status st = kOk → 0 ≤ n ≤ zlen (unread st) → n < 2 ^ 63 →
  ∃ st', read_bytes n st = Some (take (Z.to_nat n) (unread st), st') ∧
    unread st' = drop (Z.to_nat n) (unread st) ∧ status st' = kOk.
Proof.
  intros Hs Hn Hm. unfold read_bytes. rewrite (proj2 (Z.leb_gt _ _)) by lia. destruct (read n st) as [bytes st'] eqn:E.
  destruct (read_unread st n bytes st' Hs Hn E) as (-> & Hu & Hs'). exists st'. split; [|done].
  rewrite length_take, Nat.min_l, Nat.sub_diag by lia. cbn. by rewrite app_nil_r.
Qed.

Lemma drop_slice a e n : 0 ≤ a → 0 ≤ n → drop (Z.to_nat n) (slice blob a e) = slice blob (a + n) e.
Proof.
  intros Ha Hn. unfold slice. rewrite skipn_firstn_comm, drop_drop. f_equal; [lia|]. f_equal. lia.
Qed.

Lemma take_slice a c e : 0 ≤ a → c ≤ e → take (Z.to_nat (c - a + 1)) (slice blob a e) = slice blob a c.
Proof. intros Ha Hc. unfold slice. rewrite take_take. f_equal. lia. Qed.

(** The bytes from [a] to [e] are still to be read. *)
Record at_byte (a e : Z) (t : GetBlobStreamTracker (St:=St)) : Prop := {
  at_status : status (stream t) = kOk;
  at_unread : unread (stream t) = slice blob a e;
  at_last : last_end_byte_index t = u64 (a - 1);
  at_remaining : bytes_remaining t = e - a + 1
}.

(** One task. *)
Lemma portion_step request a e m t :
  get_metadata (stream_get request) = md → m = portion_size request → 0 < m → 0 ≤ a ≤ e → e < zlen blob → zlen blob + m < 2 ^ 63 →
  at_byte a e t →
  let c := Z.min (a + m - 1) e in
  let msg := mkGetBlobStreamResponse (mkBlob md (slice blob a c)) (mkByteRange a c) in
  ∃ t', at_byte (c + 1) e t' ∧
    read_portion request t false SuccessExecutionResult SuccessExecutionResult SuccessExecutionResult =
    Some (if e <=? c then mkStreamTask [msg] [SuccessExecutionResult] None else mkStreamTask [msg] [] (Some t')).
Proof.
  intros Hmd Em Hm Ha He Hlen [Hs Hu Hl Hr] c msg. assert (a ≤ c ≤ e ∧ c = Z.min (a + m - 1) e) as Hc by (unfold c; lia). clearbody c.
  pose proof (length_slice blob a e ltac:(lia) He) as Hz.
  destruct (read_bytes_unread (c - a + 1) (stream t)) as (st & Er & Hu' & Hs'); [done|rewrite Hu; lia|lia|].
  rewrite Hu, drop_slice in Hu' by lia. rewrite Hu, take_slice in Er by lia. replace (a + (c - a + 1)) with (c + 1) in Hu' by lia.
  assert (u64 (last_end_byte_index t + 1) = a) as E1.
  { rewrite Hl. unfold u64. rewrite Zplus_mod_idemp_l. replace (a - 1 + 1) with a by lia. apply u64_small. lia. }
  exists (mkGetBlobStreamTracker st c (bytes_remaining t - (c - a + 1))). split.
  { split; cbn; [done|done|rewrite u64_small by lia; lia|lia]. }
  unfold read_portion, ReadNextPortion. fold (portion_size request). rewrite <-Em, Hr, E1, Hmd.
  replace (Z.min m (e - a + 1)) with (c - a + 1) by lia. rewrite Er. cbn [mbind option_bind].
  rewrite (u64_small (a + (c - a + 1) - 1)) by lia. replace (a + (c - a + 1) - 1) with c by lia. cbn [stream]. rewrite Hs'. cbn [negb Successful].
  change (negb (Successful (GcpErrorConverter kOk))) with false. change (negb (Successful SuccessExecutionResult)) with false.
  change (Successful SuccessExecutionResult) with true. cbv iota. cbn [bytes_remaining app]. fold msg.
  destruct (Z.eqb_spec (e - a + 1 - (c - a + 1)) 0), (Z.leb_spec e c); try lia; done.
Qed.

Lemma run_portions request fuel a e m t :
  get_metadata (stream_get request) = md → m = portion_size request → 0 < m → e < zlen blob → zlen blob + m < 2 ^ 63 →
  0 ≤ a ≤ e → at_byte a e t → e - a < Z.of_nat fuel →
  ∃ msgs, stream_run fuel request (Some t) = Some (msgs, [SuccessExecutionResult]) ∧ delivers a e m msgs.
Proof.
  intros Hmd Em Hm He Hlen. revert a t. induction fuel as [|fuel IH]; intros a t Ha Ht Hfuel; [lia|].
  destruct (portion_step request a e m t Hmd Em Hm Ha He Hlen Ht) as (t' & Ht' & E). cbv zeta in Ht', E.
  cbn [stream_run]. unfold GetBlobStreamInternal. cbn [fmap option_fmap option_map from_option id]. rewrite E. cbn [mbind option_bind].
  destruct (Z.leb_spec e (Z.min (a + m - 1) e)); cbn [next_task pushed finishes].
  - eexists. split; [done|]. cbn [BlobStorage.delivers]. repeat split; lia || done.
  - destruct (IH (Z.min (a + m - 1) e + 1) t') as (msgs & E' & Hd); [lia|done|lia|]. rewrite E'. cbn [mbind option_bind].
    eexists. split; [done|]. cbn [app BlobStorage.delivers]. repeat split; lia || done.
Qed.

(** What the first task finds. *)
Lemma init_tracker_at request : serves → readable request →
  from_option end_byte_index 0 (byte_range (stream_get request)) < 2 ^ 63 - 1 →
  ∃ t, InitGetBlobStreamTracker ReadObject (stream_get request) = inr t ∧
    at_byte (first_byte request) (last_byte request) t.
Proof.
  intros [Hall Hserve] Hr Hend. pose proof (readable_bounds _ _ _ Hr) as Hb. pose proof (portion_size_pos _ _ _ Hr) as Hm.
  destruct Hr as [Hmd Hname Hrange Hfirst [Hmax Hsize]].
  assert (zlen blob < 2 ^ 63) as Hlen by lia.
  unfold InitGetBlobStreamTracker, read_range, content_length. rewrite Hmd. unfold first_byte, BlobStorage.last_byte in *.
  destruct (byte_range (stream_get request)) as [r|] eqn:Er; cbn [fmap option_fmap option_map from_option] in *.
  - destruct (Hrange r eq_refl) as [Hle _].
    rewrite (s64_small (begin_byte_index r)), (u64_small (end_byte_index r + 1)), (s64_small (end_byte_index r + 1)) by lia.
    destruct (Hserve (begin_byte_index r) (end_byte_index r + 1)) as (-> & -> & Hu); [lia|lia|].
    change (negb (Successful (GcpErrorConverter kOk))) with false. cbv iota. eexists. split; [done|].
    rewrite (u64_small (zlen blob - 1)) by lia.
    assert ((if zlen blob - 1 <? end_byte_index r then zlen blob - 1 else end_byte_index r) = Z.min (end_byte_index r) (zlen blob - 1)) as ->
      by (destruct (Z.ltb_spec (zlen blob - 1) (end_byte_index r)); lia).
    split; cbn; [|rewrite Hu; f_equal; lia|done|rewrite u64_small by lia; lia].
    by destruct (Hserve (begin_byte_index r) (end_byte_index r + 1)) as (-> & _); [lia|lia|].
  - destruct Hall as (Hs & Hz & Hu). rewrite Hs, Hz. change (negb (Successful (GcpErrorConverter kOk))) with false. cbv iota.
    eexists. split; [done|]. split; cbn; [done| |done|lia]. rewrite Hu. unfold slice. rewrite drop_0, take_ge by lia. done.
Qed.

(** C14: With a Cloud Storage that serves ranges, [GetBlobStream] delivers the bytes of the requested range,
    cut at the end of the object, in order and in portions of [max_bytes_per_response], and then finishes
    the context once, with a success, after at most as many tasks as the object has bytes. *)
Theorem gcp_blob_stream_delivers request :
  serves → readable request → from_option end_byte_index 0 (byte_range (stream_get request)) < 2 ^ 63 - 1 →
  GetBlobStream request SuccessExecutionResult = Sent request ∧
  ∃ msgs, stream_run (length blob) request None = Some (msgs, [SuccessExecutionResult]) ∧
    delivers (first_byte request) (last_byte request) (portion_size request) msgs ∧
    concat (data ∘ blob_portion <$> msgs) = slice blob (first_byte request) (last_byte request).
Proof.
  intros Hs Hr Hend. pose proof (readable_bounds _ _ _ Hr) as Hb. pose proof (portion_size_pos _ _ _ Hr) as Hm.
  destruct (init_tracker_at request Hs Hr Hend) as (t & Et & Ht). destruct Hr as [Hmd Hname Hrange Hfirst [Hmax Hsize]]. split.
  - unfold GetBlobStream, ValidateGetBlobRequest. rewrite Hmd, Hname.
    destruct (byte_range (stream_get request)) as [r|] eqn:Er; [|done]. specialize (Hrange r eq_refl). by rewrite (proj2 (Z.ltb_ge _ _)) by lia.
  - assert (last_byte request < zlen blob) as Hl by (unfold BlobStorage.last_byte; lia).
    destruct (run_portions request (length blob) (first_byte request) (last_byte request) (portion_size request) t) as (msgs & E & Hd);
      [done|done|done|done|done|done|done|lia|].
    exists msgs. split; [|split; [done|by apply (delivers_data _ md _ _ (portion_size request)); [lia| |]]].
    destruct blob as [|b bs]; [cbn in *; lia|]. rewrite <-E. cbn [length stream_run]. unfold GetBlobStreamInternal.
    cbn [fmap option_fmap option_map from_option id]. by rewrite Et.
Qed.

(** [GetBlob] returns the bytes of the requested range, cut at the end of the object, or all of it. *)
Theorem gcp_get_blob_returns_range request :
  serves → readable (mkGetBlobStreamRequest request 0) → from_option end_byte_index 0 (byte_range request) < 2 ^ 63 - 1 →
  GetBlobInternal ReadObject request =
    Some (SuccessExecutionResult,
          Some (mkBlob md (slice blob (first_byte (mkGetBlobStreamRequest request 0)) (last_byte (mkGetBlobStreamRequest request 0))))).
Proof.
  intros Hs Hr Hend. destruct (init_tracker_at _ Hs Hr Hend) as (t & Et & [H1 H2 _ H4]). pose proof (readable_bounds _ _ _ Hr) as Hb.
  pose proof (portion_size_pos _ _ _ Hr) as Hm. destruct Hr as [Hmd _ _ _ [_ Hsize]]. cbn [stream_get] in *. unfold InitGetBlobStreamTracker, GetBlobInternal in *. rewrite Hmd in *.
  destruct (negb _); [done|]. destruct (size _) as [n|]; [|done]. injection Et as <-. cbn in H1, H2, H4 |- *.
  set (a := first_byte _) in *. set (e := last_byte _) in *.
  assert (e < zlen blob) as He by (unfold e, BlobStorage.last_byte; lia). pose proof (length_slice blob a e ltac:(lia) He) as Hz.
  assert (zlen blob < 2 ^ 63) as Hlen by lia.
  destruct (read_bytes_unread (e - a + 1) (ReadObject md (read_range request))) as (st & Er & _ & Hs'); [done|rewrite H2; lia|lia|].
  rewrite H4, Er. cbn. rewrite Hs', H2, take_slice by lia. done.
Qed.

(** A failure to schedule the processing of a message finishes the context, and the task goes on: the
    last portion finishes it a second time. *)
Theorem refused_processing_finishes_twice request a e t r :
  get_metadata (stream_get request) = md → 0 ≤ a ≤ e → e < zlen blob → zlen blob + portion_size request < 2 ^ 63 →
  e - a < portion_size request → at_byte a e t → Successful r = false →
  finishes <$> GetBlobStreamInternal ReadObject request (Some t) false SuccessExecutionResult r SuccessExecutionResult =
    Some [r; SuccessExecutionResult].
Proof.
  intros Hmd Ha He Hlen Hlast Ht Hr.
  destruct (portion_step request a e (portion_size request) t Hmd eq_refl ltac:(lia) Ha He Hlen Ht) as (t' & _ & E).
  cbv zeta in E. rewrite (proj2 (Z.leb_le _ _)) in E by lia. unfold GetBlobStreamInternal. cbn [fmap option_fmap option_map from_option id].
  revert E. unfold read_portion. destruct (ReadNextPortion request t) as [[m t1]|]; [|done]. cbn [mbind option_bind].
  destruct (negb _); [done|]. rewrite Hr. cbn. by destruct (bytes_remaining t1 =? 0).
Qed.
End reading.

(** ** Listing *)

Section listing.
Variables (bucket prefix : string) (names : list string) (ListObjects : ListObjectsRequest → list (StatusCode + string)).
Variable page_size : option Z.
#[local] Abbreviation blob_of := (mkBlobMetadata bucket).

Definition page_request (token : option string) : ListBlobsMetadataRequest :=
  mkListBlobsMetadataRequest (mkBlobMetadata bucket prefix) token page_size.

(** The library returns the names with the prefix, which are not empty, in an order in which a start
    offset that is a name selects the names from that one on. *)
Record listed : Prop := {
  listed_nodup : NoDup names;
  listed_nonempty : "" ∉ names;
  listed_all : ListObjects (list_objects (page_request None)) = inr <$> names;
  listed_from xs t ys : names = xs ++ t :: ys → ListObjects (list_objects (page_request (Some t))) = inr <$> t :: ys
}.

(** The caller that asks for page after page. *)
Fixpoint pages (fuel : nat) (token : option string) : option (list (list BlobMetadata)) :=
  match fuel with
  | O => None
  | S fuel =>
      let '(r, response) := ListBlobsMetadataInternal ListObjects (page_request token) in
      if negb (Successful r) then None
      else if empty (next_page_token response) then Some [blob_metadatas response]
      else rest ← pages fuel (Some (next_page_token response)); Some (blob_metadatas response :: rest)
  end.

#[local] Abbreviation size := (default kListBlobsMetadataMaxResults page_size).

(** Pages without an end, when the size of a page is zero. *)
Lemma list_loop_unlimited token l found : size = 0 → (∀ t, token = Some t → t ∉ l) →
  list_loop (page_request token) (inr <$> l) found = (SuccessExecutionResult, mkListBlobsMetadataResponse (found ++ (blob_of <$> l)) "").
Proof.
  intros Hz. revert found. induction l as [|n l IH]; intros found Ht; cbn; [by rewrite app_nil_r|].
  assert (IsPageTokenObject (page_request token) n = false) as ->.
  { apply bool_decide_eq_false. cbn. intros E. specialize (Ht n E). set_solver. }
  rewrite andb_false_r. unfold GetMaxPageSize. cbn [max_page_size page_request]. rewrite Hz.
  rewrite (proj2 (Z.eqb_neq _ _)) by (rewrite length_app; cbn; lia). rewrite IH; [by rewrite <-app_assoc|].
  intros t E. specialize (Ht t E). set_solver.
Qed.

(** One page: it is full, and its last name is the token, or it has the rest of the names. *)
Lemma list_loop_page token l found k : zlen found + k = size → 0 < k → (∀ t, token = Some t → t ∉ l) →
  list_loop (page_request token) (inr <$> l) found =
  (SuccessExecutionResult,
   mkListBlobsMetadataResponse (found ++ (blob_of <$> take (Z.to_nat k) l)) (default "" (l !! Z.to_nat (k - 1)))).
Proof.
  revert found k. induction l as [|n l IH]; intros found k Hk Hpos Ht; cbn [fmap list_fmap list_loop].
  { by rewrite take_nil, app_nil_r. }
  assert (IsPageTokenObject (page_request token) n = false) as ->.
  { apply bool_decide_eq_false. cbn. intros E. specialize (Ht n E). set_solver. }
  rewrite andb_false_r. unfold GetMaxPageSize. cbn [max_page_size page_request list_metadata bucket_name].
  rewrite length_app. cbn [length]. destruct (Z.eqb_spec (Z.of_nat (length found + 1)) size) as [E|E].
  - assert (k = 1) as -> by lia. done.
  - rewrite (IH _ (k - 1)); [|rewrite length_app; cbn; lia|lia|intros t E'; specialize (Ht t E'); set_solver].
    replace (Z.to_nat k) with (S (Z.to_nat (k - 1))) by lia.
    assert ((n :: l) !! Z.to_nat (k - 1) = l !! Z.to_nat (k - 1 - 1)) as ->
      by (replace (Z.to_nat (k - 1)) with (S (Z.to_nat (k - 1 - 1))) by lia; done).
    by rewrite <-app_assoc.
Qed.

(** The names that are left after a token. *)
Definition left_after (token : option string) (rest : list string) : Prop :=
  match token with None => names = rest | Some t => ∃ xs, names = xs ++ t :: rest end.

Lemma page_after token rest : listed → left_after token rest →
  ListBlobsMetadataInternal ListObjects (page_request token) = list_loop (page_request token) (inr <$> rest) [] ∧
  (∀ t, token = Some t → t ∉ rest).
Proof.
  intros [Hnd Hne Hall Hfrom] Hl. unfold ListBlobsMetadataInternal. destruct token as [t|]; cbn in Hl.
  - destruct Hl as [xs E]. rewrite (Hfrom xs t rest E). split.
    + cbn [fmap list_fmap list_loop]. unfold IsPageTokenObject. cbn. by rewrite bool_decide_true.
    + intros t' [= <-]. rewrite E in Hnd. by apply NoDup_app in Hnd as (_ & _ & Hnd%NoDup_cons_1_1).
  - rewrite Hall, Hl. done.
Qed.

Lemma pages_from fuel token rest : listed → 0 ≤ size → left_after token rest → (length rest < fuel)%nat →
  ∃ ps, pages fuel token = Some ps ∧ concat ps = blob_of <$> rest ∧ Forall (λ p, 0 < size → zlen p ≤ size) ps.
Proof.
  intros Hl Hz. revert token rest. induction fuel as [|fuel IH]; intros token rest Hr Hf; [lia|].
  destruct (page_after token rest Hl Hr) as [E Ht]. cbn [pages]. rewrite E. destruct (Z.eq_dec size 0) as [Hs|Hs].
  { rewrite list_loop_unlimited by done. eexists. split; [done|]. cbn. rewrite app_nil_r. split; [done|]. constructor; [lia|done]. }
  rewrite (list_loop_page _ _ _ size) by (done || lia). cbn [negb Successful].
  change (negb (Successful SuccessExecutionResult)) with false. cbv iota. cbn [next_page_token blob_metadatas app].
  assert (zlen (blob_of <$> take (Z.to_nat size) rest) ≤ size) as Hlen by (rewrite length_fmap, length_take; lia).
  destruct (rest !! Z.to_nat (size - 1)) as [t|] eqn:Et; cbn.
  - assert (t ∈ names) as Hin.
    { apply list_elem_of_lookup_2 in Et. destruct token; cbn in Hr; [destruct Hr as [xs ->]|subst]; set_solver. }
    unfold empty. rewrite bool_decide_false by (intros ->; by apply (listed_nonempty Hl)).
    pose proof (take_drop_middle _ _ _ Et) as Hmid. replace (S (Z.to_nat (size - 1))) with (Z.to_nat size) in Hmid by lia.
    assert (left_after (Some t) (drop (Z.to_nat size) rest)) as Hr'.
    { cbn. destruct token as [t0|]; cbn in Hr; [destruct Hr as [xs Hn]; exists (xs ++ t0 :: take (Z.to_nat (size - 1)) rest)|exists (take (Z.to_nat (size - 1)) rest)].
      - by rewrite <-app_assoc, Hn, <-app_comm_cons, Hmid.
      - by rewrite Hmid. }
    apply lookup_lt_Some in Et. destruct (IH _ _ Hr') as (ps & -> & Hc & Hp); [rewrite length_drop; lia|].
    eexists. split; [done|]. cbn. rewrite Hc, <-fmap_app, take_drop. split; [done|]. by constructor.
  - apply lookup_ge_None in Et. rewrite take_ge in * by lia. eexists. split; [done|]. cbn. rewrite app_nil_r. split; [done|]. by constructor.
Qed.

(** C25: A caller that follows the page tokens gets every name once and in order, in pages of at most the
    size it asked for, and comes to an end. *)
Theorem pages_list_all_names : listed → 0 ≤ size →
  ∃ ps, pages (S (length names)) None = Some ps ∧ concat ps = blob_of <$> names ∧ Forall (λ p, 0 < size → zlen p ≤ size) ps.
Proof. intros Hl Hs. by apply pages_from; [| | |lia]. Qed.
End listing.

(** ** Writing *)

(** What the library's documentation says of writing: a stream whose status is [kOk] has what was written
    to it; one that is restored goes on from the bytes that the service had committed, the first ones. *)
Class WriteStreamLaws (St : Type) `{!ObjectWriteStream St} := {
  written : St → list Z;
  committed : list Z → list Z;
  written_new md : written (WriteObject md) = [];
  written_write bytes st : last_status (write bytes st) = kOk → written (write bytes st) = written st ++ bytes;
  committed_prefix l : committed l `prefix_of` l;
  written_restored md st : written (RestoreObject md (resumable_session_id st) (Suspend st)) = committed (written st);
  written_closed st : metadata_status (Close st) = kOk → written (Close st) = written st
}.

Section writing.
Context {Q : Type} `{BQ : !BoundedQueue PutBlobStreamRequest Q} {St : Type} `{!ObjectWriteStream St, !WriteStreamLaws St}.
Variable request : PutBlobStreamRequest.
#[local] Abbreviation Upload := (Upload (Q:=Q) (St:=St)).
#[local] Abbreviation Tracker := (PutBlobStreamTracker (St:=St)).
Implicit Types (s : Upload) (t : Tracker).

(** Where the task of the upload is: at its start, with nothing, with a portion, or at its end. *)
Inductive Held :=
  | HInit
  | HIdle (t : Tracker)
  | HTaken (t : Tracker) (d : list Z).

(** The bytes that the upload has when its tracker is restored. *)
Definition content t : list Z := written (write_stream (RestoreUploadIfSuspended t)).

(** What was taken from the context, after the first portion. *)
Definition sent s : list Z := portion_data request ++ concat (portion_data <$> taken (context s)).

Definition held_ok s (h : Held) : Prop :=
  match h with
  | HInit => taken (context s) = []
  | HIdle t => content t = sent s
  | HTaken t d => content t ++ d = sent s
  end.

Definition task_held (u : UploadTask) : Held :=
  match u with InitTask => HInit | NextTask t => HIdle t end.

(** Every suspension found all bytes committed. *)
Definition nothing_dropped s : Prop := Forall (λ st, committed (written st) = written st) (suspensions s).

Record upload_ok s (l : list Held) : Prop := {
  uo_once : (length l + from_option (λ _, 1) 0 (task s) + length (finished s) = 1)%nat;
  uo_fifo : fifo (context s);
  uo_held : nothing_dropped s → Forall (held_ok s) l;
  uo_task u : nothing_dropped s → task s = Some u → held_ok s (task_held u);
  uo_open : finished s = [] → closed s = None;
  uo_closed st : nothing_dropped s → closed s = Some st → metadata_status st = kOk → written st = sent s;
  uo_success r : r ∈ finished s → Successful r = true → ∃ st, closed s = Some st ∧ metadata_status st = kOk
}.

Lemma gcs_ok_perm s l l' : l ≡ₚ l' → upload_ok s l → upload_ok s l'.
Proof. intros E [H1 H2 H3 H4 H5 H6 H7]. split; try done; intros; rewrite <-E; auto. Qed.

Lemma gcs_holder s h rest : upload_ok s ([h] ++ rest) → rest = [] ∧ task s = None ∧ finished s = [].
Proof.
  intros [H1 _ _ _ _ _ _]. cbn in H1. destruct rest, (task s), (finished s); cbn in *; try lia. done.
Qed.

#[local] Abbreviation keeps := (owns upload_ok).

(** The last action of a task. *)
Definition leaves (h : Held) (f : Upload → Upload) : Prop :=
  ∀ s, upload_ok s [h] → task s = None → finished s = [] → upload_ok (f s) [].

Lemma gcs_leaves_keeps h f : leaves h f → keeps (modifies f) [h].
Proof.
  intros Hf s rest HI. destruct (gcs_holder _ _ _ HI) as (-> & Hp & Hfin). exists []. split; [|done]. by apply Hf.
Qed.

(** A failure finishes the context. *)
Lemma gcs_finish_leaves h r : Successful r = false → leaves h (finish_stream r).
Proof.
  intros Hr s [H1 H2 H3 H4 H5 H6 H7] Ht Hf. split; cbn; rewrite ?Ht, ?Hf; try done; try by intros.
  intros r' Hr'. apply list_elem_of_singleton in Hr' as ->. by rewrite Hr.
Qed.

Lemma delete_leaves h id r : Successful r = false → leaves h (delete_upload id r).
Proof.
  intros Hr s Hok Ht Hf. unfold delete_upload. apply (gcs_finish_leaves h); [done| |done|done]. destruct Hok; by split.
Qed.

Lemma schedule_leaves t : leaves (HIdle t) (schedule_next t).
Proof.
  intros s Hok Ht Hf. unfold schedule_next.
  set (s1 := mkUpload (context s) (task s) (tail (answers s)) (finished s) (deleted s) (closed s) (suspensions s)).
  assert (upload_ok s1 [HIdle t]) as Hok1 by (destruct Hok; split; assumption).
  destruct (Successful _) eqn:Er; [|exact (gcs_finish_leaves _ _ Er _ Hok1 Ht Hf)].
  destruct Hok1 as [H1 H2 H3 H4 H5 H6 H7]. split; cbn; rewrite ?Hf; try done.
  - intros u Hn [= <-]. specialize (H3 Hn). by apply Forall_cons in H3 as [H3 _].
  - intros _. by apply H5.
  - intros r Hr. by apply elem_of_nil in Hr.
Qed.

Lemma converted_fails e : Successful (ConvertCloudStorageErrorToExecutionResult e) = false.
Proof. by destruct e. Qed.

Lemma close_leaves t : leaves (HIdle t) (close_upload t).
Proof.
  intros s [H1 H2 H3 H4 H5 H6 H7] Ht Hf. unfold close_upload. set (st := Close _).
  split; cbn; rewrite ?Ht, ?Hf; try done.
  - intros st' Hn [= <-] Hm. unfold st in *. rewrite written_closed by done. specialize (H3 Hn). by apply Forall_cons in H3 as [H3 _].
  - intros r Hr Hs. apply list_elem_of_singleton in Hr as ->. exists st. split; [done|].
    case_bool_decide; [done|]. by rewrite converted_fails in Hs.
Qed.

Lemma wait_leaves t now : leaves (HIdle t) (wait_upload t now).
Proof.
  intros s Hok Ht Hf. unfold wait_upload. destruct (_ <=? _); [by apply (delete_leaves (HIdle t))|].
  destruct (session_id t) as [id|] eqn:Es; [by apply schedule_leaves|].
  apply schedule_leaves; [|done|done]. destruct Hok as [H1 H2 H3 H4 H5 H6 H7].
  assert (nothing_dropped (suspend_upload (write_stream t) s) →
    nothing_dropped s ∧ committed (written (write_stream t)) = written (write_stream t)) as Hd.
  { unfold nothing_dropped. cbn. intros [Hn Hc]%Forall_app. by apply Forall_cons in Hc as [Hc _]. }
  split; cbn; try done.
  - intros [Hn Hc]%Hd. constructor; [|constructor]. specialize (H3 Hn). apply Forall_cons in H3 as [H3 _]. revert H3. cbn.
    unfold content, RestoreUploadIfSuspended. rewrite Es. cbn. rewrite written_restored, Hc. done.
  - intros u [Hn _]%Hd. by apply H4.
  - intros st [Hn _]%Hd. by apply H6.
Qed.

Lemma write_leaves t m : leaves (HTaken t (portion_data m)) (write_portion t (put_portion m)).
Proof.
  intros s Hok Ht Hf. unfold write_portion. case_bool_decide; [|by apply (gcs_finish_leaves (HTaken t (portion_data m)))].
  destruct (Successful _) eqn:Es; [|by apply (gcs_finish_leaves (HTaken t (portion_data m)))].
  rewrite converted_success in Es. apply bool_decide_eq_true in Es. cbn [negb].
  apply schedule_leaves; [|done|done]. destruct Hok as [H1 H2 H3 H4 H5 H6 H7]. split; try done.
  intros Hn. constructor; [|constructor]. specialize (H3 Hn). apply Forall_cons in H3 as [H3 _]. cbn in H3 |- *. rewrite <-H3.
  set (st := write_stream _) in *. unfold content.
  assert (session_id (RestoreUploadIfSuspended t) = None) as E by (unfold RestoreUploadIfSuspended; by destruct (session_id t) eqn:?).
  unfold RestoreUploadIfSuspended at 1. cbn [session_id]. rewrite E. cbn [write_stream]. by apply written_write.
Qed.

Lemma task_keeps t now : keeps (PutBlobStreamInternal t now) [HIdle t].
Proof.
  apply owns_reads. intros []; [by apply gcs_leaves_keeps, delete_leaves|].
  apply owns_action. intros s rest HI. destruct (gcs_holder _ _ _ HI) as (-> & Ht & Hfin).
  pose proof HI as [H1 H2 H3 H4 H5 H6 H7]. cbn [fst].
  destruct (TryGetNext (context s)) as [next c] eqn:Eg. destruct (fifo_get _ _ _ H2 Eg) as (Hf & Hm & Hg). cbn [snd fst].
  destruct next as [m|].
  - exists [HTaken t (portion_data m)]. split; [|apply gcs_leaves_keeps, write_leaves]. split; cbn; try done.
    + intros Hn. constructor; [|constructor]. specialize (H3 Hn). apply Forall_cons in H3 as [H3 _]. cbn in H3 |- *.
      rewrite H3. unfold sent. cbn. rewrite Hg, fmap_app, concat_app, <-app_assoc. cbn. by rewrite app_nil_r.
    + by rewrite Ht.
    + by rewrite (H5 Hfin).
  - destruct Hg as [-> _]. exists [HIdle t]. split; [by destruct s|].
    apply owns_reads. intros []; apply gcs_leaves_keeps; [apply close_leaves|apply wait_leaves].
Qed.

Lemma init_keeps now later : keeps (InitPutBlobStream request now later) [HInit].
Proof.
  unfold InitPutBlobStream. destruct (init_tracker request now) as [r|t] eqn:E; unfold init_tracker in E.
  - apply gcs_leaves_keeps, gcs_finish_leaves. destruct (_ <? _); [by injection E as <-|]. destruct (Successful _) eqn:Es; [done|]. by injection E as <-.
  - destruct (_ <? _); [done|]. destruct (Successful _) eqn:Es; [|done]. injection E as <-.
    rewrite converted_success in Es. apply bool_decide_eq_true in Es.
    intros s rest HI. destruct (gcs_holder _ _ _ HI) as (-> & Ht & Hf).
    refine (task_keeps _ later s [] _). destruct HI as [H1 H2 H3 H4 H5 H6 H7]. split; try done.
    intros Hn. constructor; [|constructor]. specialize (H3 Hn). apply Forall_cons in H3 as [H3 _]. cbn in H3 |- *.
    unfold content, sent. cbn. rewrite H3, written_write, written_new by done. cbn. by rewrite app_nil_r.
Qed.

(** A change of the context that takes nothing. *)
Lemma gcs_context_ok s l c : upload_ok s l → fifo c → taken c = taken (context s) → upload_ok (set_context c s) l.
Proof.
  intros [H1 H2 H3 H4 H5 H6 H7] Hf Ht.
  assert (∀ h, held_ok s h → held_ok (set_context c s) h) as Hh by (intros []; cbn; unfold sent; cbn; by rewrite Ht).
  split; cbn; try done.
  - intros Hn. eapply Forall_impl; [by apply H3|]. auto.
  - intros u Hn E. auto.
  - intros st Hn Ec Hm. unfold sent. cbn. rewrite Ht. by apply H6.
Qed.

Lemma gcs_push_keeps m : keeps (ignore (TryPushRequest context set_context m)) [].
Proof.
  apply owns_reads. intros [r|]; [done|]. apply owns_reads. intros [r|]; [done|].
  apply (owns_atomically _ _ _ _ []); [|done]. intros s rest HI. cbn [app] in HI |- *.
  pose proof (fifo_enqueue m (context s) (uo_fifo _ _ HI)) as Hf. destruct (push_enqueue m (context s)) as [r c] eqn:E.
  unfold push_enqueue in E. destruct (TryEnqueue _ _) as [r' q]. injection E as <- <-. by apply gcs_context_ok.
Qed.

Lemma gcs_env_keeps s e s' c l : True → upload_ok s l → upload_env request s e = Some (s', c) →
  ∃ l', keeps c l' ∧ upload_ok s' (l' ++ l).
Proof.
  intros _ HI E. pose proof HI as [H1 H2 H3 H4 H5 H6 H7]. destruct e as [m| | |now later]; cbn in E.
  - injection E as <- <-. exists []. split; [apply gcs_push_keeps|done].
  - injection E as <- <-. exists []. split; [done|]. by apply gcs_context_ok.
  - injection E as <- <-. exists []. split; [done|]. by apply gcs_context_ok.
  - destruct (task s) as [u|] eqn:Et; [|done]. injection E as <- <-. exists [task_held u]. split.
    { destruct u as [|t]; [apply init_keeps|apply task_keeps]. }
    cbn in H1. assert (l = []) as -> by (destruct l; cbn in *; [done|lia]). split; cbn; try done.
    intros Hn. constructor; [by apply H4|constructor].
Qed.

#[local] Abbreviation uploads cap more evs rs w :=
  (∃ s, PutBlobStream request cap SuccessExecutionResult more = Sent s ∧
     run_ops (upload_step request) (mkWorld s []) evs = Some (rs, w)).

Lemma started_ok cap more s : PutBlobStream request cap SuccessExecutionResult more = Sent s → upload_ok s [].
Proof.
  unfold PutBlobStream. destruct (invalid_blob _); [done|]. intros [= <-].
  split; cbn; try done; [apply fifo_new|by intros ? _ [= <-]|]. intros r Hr. by apply elem_of_nil in Hr.
Qed.

Lemma gcs_run_ok cap more evs rs w : uploads cap more evs rs w → ∃ ls, world_ok upload_ok w ls.
Proof.
  intros (s & Es & E). eapply owns_run; [apply gcs_ok_perm|apply gcs_env_keeps| | |exact E].
  - apply Forall_true. by intros [].
  - split; [constructor|]. by eapply started_ok.
Qed.

(** In every interleaving the context of a [PutBlobStream] is finished at most once, and exactly once
    when no thread is under way and no task is scheduled. *)
Theorem gcp_put_stream_finishes_once cap more evs rs w :
  uploads cap more evs rs w →
  (length (finished (shared w)) ≤ 1)%nat ∧
  (ended w = true → task (shared w) = None → length (finished (shared w)) = 1%nat).
Proof.
  intros E. destruct (gcs_run_ok _ _ _ _ _ E) as [ls Hw]. pose proof (uo_once _ _ (proj2 Hw)) as H1. split; [lia|].
  intros He Hp. pose proof (uo_once _ _ (ended_owns_nothing _ _ _ Hw He)) as H2. rewrite Hp in H2. cbn in H2. lia.
Qed.

(** C26: In every interleaving, when the upload finishes with a success, the stream is closed with the first
    portion and the portions taken from the context, in order, provided that no suspension dropped bytes. *)
Theorem gcp_put_stream_closes_taken cap more evs rs w r :
  uploads cap more evs rs w → r ∈ finished (shared w) → Successful r = true → nothing_dropped (shared w) →
  ∃ st, closed (shared w) = Some st ∧
    written st = portion_data request ++ concat (portion_data <$> taken (context (shared w))).
Proof.
  intros E Hr Hs Hn. destruct (gcs_run_ok _ _ _ _ _ E) as [ls [_ Hok]].
  destruct (uo_success _ _ Hok r Hr Hs) as (st & Hc & Hm). exists st. split; [done|]. by apply (uo_closed _ _ Hok).
Qed.

(** ** One task at a time *)

(** After the end nothing waits, and nothing comes. *)
Definition drained s : Prop := closed s = None ∨ is_marked_done (context s) = true ∧ items (queue (context s)) = [].

Lemma schedule_drained t s : drained s → drained (schedule_next t s).
Proof. intros Hd. unfold schedule_next, drained in *. cbn in *. destruct (Successful _); cbn; [done|]. naive_solver. Qed.

Lemma task_drained t now s s' : closed s = None → fifo (context s) →
  run_code (PutBlobStreamInternal t now) s = Some (s', tt) → drained s'.
Proof.
  intros Hc Hf. unfold PutBlobStreamInternal. cbn. unfold compose. destruct (IsCancelled (context s)); cbn.
  { intros [= <-]. by left. }
  destruct (TryGetNext (context s)) as [[m|] c] eqn:Eg; cbn; destruct (fifo_get _ _ _ Hf Eg) as (_ & Hm & Hg).
  - intros [= <-]. unfold write_portion. repeat (case_bool_decide || case_match); try (by left). apply schedule_drained. by left.
  - destruct Hg as [-> Hi]. destruct (IsMarkedDone (context s)) eqn:Ed; cbn; intros [= <-]; [by right|].
    unfold wait_upload. destruct (_ <=? _); [by left|]. destruct (session_id t); apply schedule_drained; by left.
Qed.

Lemma gcs_serial_ok s e s' : upload_ok s [] ∧ drained s →
  serial_step (upload_env request) s e = Some (tt, s') → upload_ok s' [] ∧ drained s'.
Proof.
  intros [Hok Hd] E. unfold serial_step in E. destruct (upload_env request s e) as [[s1 c]|] eqn:Ee; [|done]. cbn in E.
  destruct (run_code c s1) as [[s2 []]|] eqn:Er; [|done]. injection E as <-.
  destruct (gcs_env_keeps s e s1 c [] I Hok Ee) as (l & Hc & Hok1). split; [by eapply owns_run_code|].
  destruct e as [m| | |now later]; cbn in Ee.
  - injection Ee as <- <-. cbn in Er. unfold push_done_test in Er. destruct (IsMarkedDone (context s)) eqn:Ed; cbn in Er; [by injection Er as <-|].
    unfold push_cancel_test in Er. destruct (IsCancelled (context s)); cbn in Er; [by injection Er as <-|].
    unfold push_enqueue in Er. destruct (TryEnqueue _ _) as [r q]. cbn in Er. injection Er as <-.
    destruct Hd as [Hd|[Hd _]]; [by left|]. unfold IsMarkedDone in Ed. congruence.
  - injection Ee as <- <-. injection Er as <-. unfold drained in *. cbn in *. tauto.
  - injection Ee as <- <-. injection Er as <-. unfold drained in *. cbn in *. tauto.
  - destruct (task s) as [u|] eqn:Et; [|done]. injection Ee as <- <-. destruct Hok as [H1 H2 _ _ H5 _ _]. rewrite Et in H1. cbn in H1.
    assert (closed s = None) as Hcl by (apply H5; destruct (finished s); [done|cbn in *; lia]).
    destruct u as [|t]; [|by eapply task_drained; [| |exact Er]].
    unfold InitPutBlobStream in Er. destruct (init_tracker request now); [injection Er as <-; by left|].
    by eapply task_drained; [| |exact Er].
Qed.

(** When tasks and calls run one at a time, and no suspension dropped bytes, an upload that finishes
    with a success has all that the caller pushed, in order. *)
Theorem gcp_put_stream_uploads_all cap more evs rs s0 s r :
  PutBlobStream request cap SuccessExecutionResult more = Sent s0 →
  run_ops (serial_step (upload_env request)) s0 evs = Some (rs, s) →
  r ∈ finished s → Successful r = true → nothing_dropped s →
  ∃ st, closed s = Some st ∧ written st = portion_data request ++ concat (portion_data <$> Streaming.accepted (context s)).
Proof.
  intros E0 E Hr Hs Hn. assert (upload_ok s [] ∧ drained s) as [Hok Hd].
  { revert E. apply (run_ops_invariant (serial_step (upload_env request)) (λ _, True) (λ s, upload_ok s [] ∧ drained s)); [| |by apply Forall_true].
    - intros s1 e [] s2 H1 _. by apply gcs_serial_ok.
    - split; [by eapply started_ok|]. left. unfold PutBlobStream in E0. destruct (invalid_blob _); [done|]. by injection E0 as <-. }
  destruct (uo_success _ _ Hok r Hr Hs) as (st & Hc & Hm). exists st. split; [done|].
  destruct Hd as [Hd|[_ Hi]]; [congruence|]. rewrite (uo_closed _ _ Hok st Hn Hc Hm). unfold sent.
  by rewrite (uo_fifo _ _ Hok), Hi, app_nil_r.
Qed.

Lemma get_nothing (c : Stream (Msg:=PutBlobStreamRequest) (Q:=Q)) : items (queue c) = [] → TryGetNext c = (None, c).
Proof. intros E. unfold TryGetNext, TryDequeue. by rewrite (proj2 (pop_none _) E). Qed.

(** Two steps of a task that finds no portion. *)
Lemma task_waits t now s : IsCancelled (context s) = false → items (queue (context s)) = [] → IsMarkedDone (context s) = false →
  run_code (PutBlobStreamInternal t now) s = Some (wait_upload t now s, tt).
Proof.
  intros Hc Hi Hm. unfold PutBlobStreamInternal. cbn. unfold compose. rewrite Hc. cbn. rewrite get_nothing by done. cbn. rewrite Hm. cbn.
  by destruct s.
Qed.

Lemma task_closes t now s : IsCancelled (context s) = false → items (queue (context s)) = [] → IsMarkedDone (context s) = true →
  run_code (PutBlobStreamInternal t now) s = Some (close_upload t s, tt).
Proof.
  intros Hc Hi Hm. unfold PutBlobStreamInternal. cbn. unfold compose. rewrite Hc. cbn. rewrite get_nothing by done. cbn. rewrite Hm. cbn.
  by destruct s.
Qed.

(** C40: An upload that waits for the next portion is suspended, and goes on from the bytes that the service
    has committed: if there is no more portion the caller is told of a success, and the object has only
    those. *)
Theorem suspension_drops_bytes cap :
  invalid_blob (put_portion request) = false → stream_keepalive_duration request = None →
  let st := write (portion_data request) (WriteObject (metadata (put_portion request))) in
  let restored := RestoreObject (metadata (put_portion request)) (resumable_session_id st) (Suspend st) in
  last_status st = kOk → metadata_status (Close restored) = kOk →
  ∃ s s' rs, (PutBlobStream request cap SuccessExecutionResult [] : Started Upload) = Sent s ∧
    run_ops (serial_step (upload_env request)) s [RunTask 0 1; CallMarkDone; RunTask 2 3] = Some (rs, s') ∧
    finished s' = [SuccessExecutionResult] ∧ closed s' = Some (Close restored) ∧
    written (Close restored) = committed (portion_data request).
Proof.
  intros Hv Hk st restored Hst Hclose. unfold PutBlobStream. rewrite Hv.
  assert (written (Close restored) = committed (portion_data request)) as Hw.
  { rewrite written_closed by done. unfold restored. rewrite written_restored. unfold st. by rewrite written_write, written_new. }
  set (t := mkPutBlobStreamTracker st None (metadata (put_portion request)) kDefaultStreamKeepaliveNanos).
  assert (init_tracker request 0 = inr t) as Et.
  { unfold init_tracker. rewrite Hk. cbn [default from_option id]. fold (portion_data request). fold st. by rewrite Hst. }
  eexists _, _, _. split; [done|]. split; [|split; [|split; [|exact Hw]]].
  - eapply run_step.
    { unfold serial_step, upload_env. cbn [task mbind option_bind]. unfold InitPutBlobStream. rewrite Et, task_waits by (done || apply new_items). done. }
    eapply run_step; [done|]. eapply run_step; [|done].
    unfold serial_step, upload_env. cbn [task set_context wait_upload schedule_next mbind option_bind].
    change (task _) with (Some (NextTask (mkPutBlobStreamTracker (Suspend st) (Some (resumable_session_id st)) (metadata (put_portion request)) kDefaultStreamKeepaliveNanos))).
    cbn [mbind option_bind]. rewrite task_closes by (done || apply new_items). done.
  - cbn. fold restored. by rewrite Hclose.
  - done.
Qed.
End writing.

(** ** Runs *)

Module Runs.
Definition md : BlobMetadata := mkBlobMetadata "bucket" "blob".

(** An object of five bytes: a stream is its status, its size and the bytes not yet read. *)
Definition bytes : list Z := [10; 11; 12; 13; 14].
Definition Reader : Type := StatusCode * list Z.

#[local] Instance reader_stream : ObjectReadStream Reader := {
  status st := st.1;
  size st := Some 5;
  read n st := (take (Z.to_nat n) st.2, (st.1, drop (Z.to_nat n) st.2))
}.

#[local, refine] Instance reader_laws : ReadStreamLaws Reader := {| unread st := st.2 |}.
Proof. intros st n bs st' Hs Hn [= <- <-]. done. Defined.

Definition read_five (m : BlobMetadata) (r : option (Z * Z)) : Reader :=
  match r with
  | None => (kOk, bytes)
  | Some (a, b) =>
      if bool_decide (0 ≤ a < b ∧ a < 5) then (kOk, slice bytes a (Z.min (b - 1) 4)) else (kOutOfRange, [])
  end.

Lemma read_five_serves : serves bytes md read_five.
Proof. split; [done|]. intros a b Hab Ha. cbn. change (zlen bytes) with 5 in *. by rewrite bool_decide_true. Qed.

Definition request (max : Z) (r : option ByteRange) : GetBlobStreamRequest :=
  mkGetBlobStreamRequest (mkGetBlobRequest md r) max.

Lemma request_readable : readable bytes md (request 1 None).
Proof. by split. Qed.

(** Portions of one byte, without a range. *)
Lemma gcp_blob_stream_delivers_witness :
  ∃ msgs, stream_run read_five 5 (request 1 None) None = Some (msgs, [SuccessExecutionResult]) ∧
    concat (data ∘ blob_portion <$> msgs) = bytes.
Proof.
  destruct (gcp_blob_stream_delivers bytes md read_five (request 1 None) read_five_serves request_readable) as [_ (msgs & E1 & _ & E2)]; [done|].
  by exists msgs.
Defined.

Lemma gcp_get_blob_returns_range_witness :
  GetBlobInternal read_five (mkGetBlobRequest md (Some (mkByteRange 3 9))) = Some (SuccessExecutionResult, Some (mkBlob md [13; 14])).
Proof.
  apply (gcp_get_blob_returns_range bytes md read_five (mkGetBlobRequest md (Some (mkByteRange 3 9))) read_five_serves); [|done].
  split; [done|done| |done|done]. by intros r [= <-].
Defined.

Lemma refused_processing_finishes_twice_witness :
  finishes <$> GetBlobStreamInternal read_five (request 9 None) (Some (mkGetBlobStreamTracker (kOk, bytes) (2 ^ 64 - 1) 5)) false
      SuccessExecutionResult (RetryExecutionResult SC_ASYNC_EXECUTOR_EXCEEDING_QUEUE_CAP) SuccessExecutionResult =
    Some [RetryExecutionResult SC_ASYNC_EXECUTOR_EXCEEDING_QUEUE_CAP; SuccessExecutionResult].
Proof. by apply (refused_processing_finishes_twice bytes md read_five (request 9 None) 0 4). Defined.

(** Three names, in pages of two. *)
Definition three_names (l : ListObjectsRequest) : list (StatusCode + string) :=
  match StartOffset l with
  | None => [inr "a"; inr "b"; inr "c"]
  | Some "b" => [inr "b"; inr "c"]
  | Some "c" => [inr "c"]
  | Some _ => [inr "a"; inr "b"; inr "c"]
  end.

Lemma three_names_listed : listed "bucket" "" ["a"; "b"; "c"] three_names (Some 2).
Proof.
  split; [by repeat (constructor; [set_solver|]); constructor|set_solver|done|].
  intros [|x1 [|x2 [|x3 [|x4 xs]]]] t ys E; cbn in E; simplify_eq; try done.
Qed.

Lemma pages_list_all_names_witness :
  ∃ ps, pages "bucket" "" three_names (Some 2) 4 None = Some ps ∧ concat ps = mkBlobMetadata "bucket" <$> ["a"; "b"; "c"].
Proof.
  destruct (pages_list_all_names "bucket" "" ["a"; "b"; "c"] three_names (Some 2) three_names_listed) as (ps & E & Hc & _); [done|].
  by exists ps.
Defined.

(** A writer is what the service has: a suspended one keeps the chunks of 256 KiB. *)
Definition chunks (l : list Z) : list Z := take (Z.to_nat (zlen l / 262144 * 262144)) l.

#[local] Instance writer_stream : ObjectWriteStream (list Z) := {
  WriteObject _ := [];
  RestoreObject _ _ l := l;
  write bs l := l ++ bs;
  last_status _ := kOk;
  resumable_session_id _ := "session";
  Suspend := chunks;
  Close l := l;
  metadata_status _ := kOk
}.

#[local, refine] Instance writer_laws : WriteStreamLaws (list Z) := {| written l := l; committed := chunks |}.
Proof. all: try done. intros l. apply prefix_take. Defined.

#[local] Abbreviation Queue := (Z * list PutBlobStreamRequest)%type.
#[local] Abbreviation Run := Threads.Run.
Definition portion (bs : list Z) : PutBlobStreamRequest := mkPutBlobStreamRequest (mkBlob md bs) None.
Definition start : Upload (Q:=Queue) (St:=list Z) := mkUpload (new_stream 10) (Some InitTask) [] [] [] None [].

(** The second portion comes before the task runs. *)
Definition serial_upload : list UploadEvent := [Push (portion [2]); CallMarkDone; RunTask 0 1; RunTask 2 3].

Lemma gcp_put_stream_uploads_all_witness :
  ∃ rs s, run_ops (serial_step (upload_env (portion [1]))) start serial_upload = Some (rs, s) ∧
    ∃ st, closed s = Some st ∧ written st = [1; 2].
Proof.
  eexists _, _. split; [vm_compute; reflexivity|].
  eapply (gcp_put_stream_uploads_all (portion [1]) 10 [] serial_upload _ start); [vm_compute; reflexivity..| | |].
  - apply list_elem_of_singleton. reflexivity.
  - reflexivity.
  - constructor.
Defined.

Definition observe {A} (f : Upload (Q:=Queue) (St:=list Z) → A) (evs : list ThreadEvent) : option (A * bool) :=
  (λ '(_, w), (f (shared w), ended w)) <$> run_ops (upload_step (portion [1])) (mkWorld start []) evs.

Lemma gcs_observed {A} (f : Upload (Q:=Queue) (St:=list Z) → A) evs a b : observe f evs = Some (a, b) →
  ∃ rs w, run_ops (upload_step (portion [1])) (mkWorld start []) evs = Some (rs, w) ∧ f (shared w) = a ∧ ended w = b.
Proof.
  unfold observe. destruct (run_ops _ _ evs) as [[rs w]|]; [|done]. cbn. intros [= <- <-]. eauto.
Qed.

Definition threaded_upload : list ThreadEvent :=
  [Env (RunTask 0 1); Env (Push (portion [2])); Run 0; Run 1; Run 1; Run 1; Run 0; Run 0;
   Env CallMarkDone; Env (RunTask 2 3); Run 3; Run 3; Run 3; Run 3].

Lemma gcp_put_stream_finishes_once_witness :
  ∃ rs w, run_ops (upload_step (portion [1])) (mkWorld start []) threaded_upload = Some (rs, w) ∧ length (finished (shared w)) = 1%nat.
Proof.
  destruct (gcs_observed (λ s, bool_decide (is_Some (task s))) threaded_upload false true) as (rs & w & E & Hp & He); [vm_compute; reflexivity|].
  exists rs, w. split; [exact E|]. apply bool_decide_eq_false in Hp.
  apply (gcp_put_stream_finishes_once (portion [1]) 10 [] threaded_upload rs w);
    [exists start; split; [reflexivity|exact E]|exact He|by apply eq_None_not_Some].
Defined.

Lemma gcp_put_stream_closes_taken_witness :
  ∃ rs w, run_ops (upload_step (portion [1])) (mkWorld start []) threaded_upload = Some (rs, w) ∧
    ∃ st, closed (shared w) = Some st ∧ written st = [1; 2].
Proof.
  destruct (gcs_observed (λ s, (finished s, taken (context s), suspensions s)) threaded_upload
    ([SuccessExecutionResult], [portion [2]], []) true) as (rs & w & E & Ho & He); [vm_compute; reflexivity|].
  injection Ho as Hf Ht Hs. exists rs, w. split; [exact E|].
  destruct (gcp_put_stream_closes_taken (portion [1]) 10 [] threaded_upload rs w SuccessExecutionResult) as (st & Hc & Hw).
  - exists start. split; [reflexivity|exact E].
  - rewrite Hf. apply list_elem_of_singleton. reflexivity.
  - reflexivity.
  - unfold nothing_dropped. rewrite Hs. constructor.
  - exists st. split; [exact Hc|]. rewrite Hw, Ht. reflexivity.
Defined.

(** The only portion has less than a chunk: nothing of it is left. *)
Lemma suspension_drops_bytes_witness :
  ∃ (s s' : Upload (Q:=Queue) (St:=list Z)) rs, PutBlobStream (portion [1]) 10 SuccessExecutionResult [] = Sent s ∧
    run_ops (serial_step (upload_env (portion [1]))) s [RunTask 0 1; CallMarkDone; RunTask 2 3] = Some (rs, s') ∧
    finished s' = [SuccessExecutionResult] ∧ closed s' = Some [].
Proof.
  destruct (suspension_drops_bytes (Q:=Queue) (portion [1]) 10) as (s & s' & rs & E1 & E2 & E3 & E4 & _); [reflexivity..|].
  exists s, s', rs. split; [exact E1|]. split; [exact E2|]. split; [exact E3|]. rewrite E4. reflexivity.
Defined.
End Runs.
