(* ===== verification/HttpExchange.v ===== *)
(** * HttpExchange: requests and responses of the HTTP/2 client

    Models [GetEscapedUriWithQuery] of [cc/core/utils/src/http.cc], the request
    and the response of [cc/core/interface/http_types.h], and the parts of
    [cc/core/http2_client/src/http_connection.cc] that do not touch the state of
    the connection: the headers and the body of the request that is submitted,
    the response that grows with what arrives, and the result of a closed
    exchange.

    A [std::multimap] is the list of its entries in key order.  libcurl's escaping is a parameter,
    and so is the number of bytes that can be allocated; [None] is an exception in a [noexcept]
    function, or undefined behaviour. *)

From Stdlib Require Import Ascii.
From stdpp Require Import pretty.
From S2P Require Import Prelude ExecResult UuidLib Serialization Decimal Utils.

Local Open Scope string_scope.
Local Open Scope list_scope.
Local Open Scope Z_scope.

(** ** Error codes *)

Abbreviation SC_CORE_UTILS_CURL_INIT_ERROR := (MakeErrorCode SC_CORE_UTILS 0x0003).
Abbreviation SC_HTTP2_CLIENT := 0x0012%Z (only parsing).
Abbreviation SC_HTTP2_CLIENT_INVALID_URI := (MakeErrorCode SC_HTTP2_CLIENT 0x0001).
Abbreviation SC_HTTP2_CLIENT_FAILED_TO_ISSUE_HTTP_REQUEST := (MakeErrorCode SC_HTTP2_CLIENT 0x0003).
Abbreviation SC_HTTP2_CLIENT_TLS_CTX_ERROR := (MakeErrorCode SC_HTTP2_CLIENT 0x0009).
Abbreviation SC_HTTP2_CLIENT_NO_CONNECTION_ESTABLISHED := (MakeErrorCode SC_HTTP2_CLIENT 0x000A).
Abbreviation SC_HTTP2_CLIENT_HTTP_METHOD_NOT_SUPPORTED := (MakeErrorCode SC_HTTP2_CLIENT 0x000B).
Abbreviation SC_HTTP2_CLIENT_CONNECTION_POOL_IS_NOT_AVAILABLE := (MakeErrorCode SC_HTTP2_CLIENT 0x000D).
Abbreviation SC_HTTP2_CLIENT_CONNECTION_INITIALIZATION_FAILED := (MakeErrorCode SC_HTTP2_CLIENT 0x000E).
Abbreviation SC_HTTP2_CLIENT_CONNECTION_STOP_FAILED := (MakeErrorCode SC_HTTP2_CLIENT 0x000F).
Abbreviation SC_HTTP2_CLIENT_CONNECTION_DROPPED := (MakeErrorCode SC_HTTP2_CLIENT 0x0010).
Abbreviation SC_HTTP2_CLIENT_HTTP_STATUS_MULTIPLE_CHOICES := (MakeErrorCode SC_HTTP2_CLIENT 0x0015).
Abbreviation SC_HTTP2_CLIENT_HTTP_STATUS_MOVED_PERMANENTLY := (MakeErrorCode SC_HTTP2_CLIENT 0x0016).
Abbreviation SC_HTTP2_CLIENT_HTTP_STATUS_FOUND := (MakeErrorCode SC_HTTP2_CLIENT 0x0017).
Abbreviation SC_HTTP2_CLIENT_HTTP_STATUS_SEE_OTHER := (MakeErrorCode SC_HTTP2_CLIENT 0x0018).
Abbreviation SC_HTTP2_CLIENT_HTTP_STATUS_NOT_MODIFIED := (MakeErrorCode SC_HTTP2_CLIENT 0x0019).
Abbreviation SC_HTTP2_CLIENT_HTTP_STATUS_TEMPORARY_REDIRECT := (MakeErrorCode SC_HTTP2_CLIENT 0x001A).
Abbreviation SC_HTTP2_CLIENT_HTTP_STATUS_PERMANENT_REDIRECT := (MakeErrorCode SC_HTTP2_CLIENT 0x001B).
Abbreviation SC_HTTP2_CLIENT_HTTP_STATUS_BAD_REQUEST := (MakeErrorCode SC_HTTP2_CLIENT 0x001C).
Abbreviation SC_HTTP2_CLIENT_HTTP_STATUS_UNAUTHORIZED := (MakeErrorCode SC_HTTP2_CLIENT 0x001D).
Abbreviation SC_HTTP2_CLIENT_HTTP_STATUS_FORBIDDEN := (MakeErrorCode SC_HTTP2_CLIENT 0x001E).
Abbreviation SC_HTTP2_CLIENT_HTTP_STATUS_NOT_FOUND := (MakeErrorCode SC_HTTP2_CLIENT 0x0020).
Abbreviation SC_HTTP2_CLIENT_HTTP_STATUS_METHOD_NOT_ALLOWED := (MakeErrorCode SC_HTTP2_CLIENT 0x0021).
Abbreviation SC_HTTP2_CLIENT_HTTP_STATUS_REQUEST_TIMEOUT := (MakeErrorCode SC_HTTP2_CLIENT 0x0022).
Abbreviation SC_HTTP2_CLIENT_HTTP_STATUS_CONFLICT := (MakeErrorCode SC_HTTP2_CLIENT 0x0023).
Abbreviation SC_HTTP2_CLIENT_HTTP_STATUS_GONE := (MakeErrorCode SC_HTTP2_CLIENT 0x0024).
Abbreviation SC_HTTP2_CLIENT_HTTP_STATUS_LENGTH_REQUIRED := (MakeErrorCode SC_HTTP2_CLIENT 0x0025).
Abbreviation SC_HTTP2_CLIENT_HTTP_STATUS_PRECONDITION_FAILED := (MakeErrorCode SC_HTTP2_CLIENT 0x0026).
Abbreviation SC_HTTP2_CLIENT_HTTP_STATUS_REQUEST_ENTITY_TOO_LARGE := (MakeErrorCode SC_HTTP2_CLIENT 0x0027).
Abbreviation SC_HTTP2_CLIENT_HTTP_STATUS_REQUEST_URI_TOO_LONG := (MakeErrorCode SC_HTTP2_CLIENT 0x0028).
Abbreviation SC_HTTP2_CLIENT_HTTP_STATUS_UNSUPPORTED_MEDIA_TYPE := (MakeErrorCode SC_HTTP2_CLIENT 0x0029).
Abbreviation SC_HTTP2_CLIENT_HTTP_STATUS_REQUEST_RANGE_NOT_SATISFIABLE := (MakeErrorCode SC_HTTP2_CLIENT 0x002A).
Abbreviation SC_HTTP2_CLIENT_HTTP_STATUS_MISDIRECTED_REQUEST := (MakeErrorCode SC_HTTP2_CLIENT 0x002B).
Abbreviation SC_HTTP2_CLIENT_HTTP_STATUS_TOO_MANY_REQUESTS := (MakeErrorCode SC_HTTP2_CLIENT 0x002C).
Abbreviation SC_HTTP2_CLIENT_HTTP_STATUS_INTERNAL_SERVER_ERROR := (MakeErrorCode SC_HTTP2_CLIENT 0x002D).
Abbreviation SC_HTTP2_CLIENT_HTTP_STATUS_NOT_IMPLEMENTED := (MakeErrorCode SC_HTTP2_CLIENT 0x002E).
Abbreviation SC_HTTP2_CLIENT_HTTP_STATUS_BAD_GATEWAY := (MakeErrorCode SC_HTTP2_CLIENT 0x002F).
Abbreviation SC_HTTP2_CLIENT_HTTP_STATUS_SERVICE_UNAVAILABLE := (MakeErrorCode SC_HTTP2_CLIENT 0x0030).
Abbreviation SC_HTTP2_CLIENT_HTTP_STATUS_GATEWAY_TIMEOUT := (MakeErrorCode SC_HTTP2_CLIENT 0x0031).
Abbreviation SC_HTTP2_CLIENT_HTTP_STATUS_HTTP_VERSION_NOT_SUPPORTED := (MakeErrorCode SC_HTTP2_CLIENT 0x0032).
Abbreviation SC_HTTP2_CLIENT_HTTP_REQUEST_CLOSE_ERROR := (MakeErrorCode SC_HTTP2_CLIENT 0x0033).
Abbreviation SC_HTTP2_CLIENT_HTTP_REQUEST_RESPONSE_STATUS_UNKNOWN := (MakeErrorCode SC_HTTP2_CLIENT 0x0034).
Abbreviation SC_HTTP2_CLIENT_HTTP_CONNECTION_NOT_READY := (MakeErrorCode SC_HTTP2_CLIENT 0x0035).

(** ** Data *)

Inductive HttpMethod := GET | POST | PUT | UNKNOWN.

Abbreviation HttpHeaders := (list (string * string)) (only parsing).

(** The pointers may be null.  [auth_context], which the client does not read, is left out. *)
Record HttpRequest := mkHttpRequest {
  method : HttpMethod;
  path : option string;
  query : option string;
  headers : option HttpHeaders;
  body : BytesBuffer
}.

(** [reserved]: the capacity of the vector of [response_body]. *)
Record HttpResponse := mkHttpResponse {
  response_headers : option HttpHeaders;
  response_body : BytesBuffer;
  reserved : Z;
  code : HttpStatusCode
}.

Definition new_response : HttpResponse := mkHttpResponse None (BytesBuffer_of_size 0) 0 0.

(** [multimap::insert]: after the entries with the same key. *)
Fixpoint multimap_insert (key value : string) (m : HttpHeaders) : HttpHeaders :=
  match m with
  | [] => [(key, value)]
  | (k, v) :: m' => if String.ltb key k then (key, value) :: m else (k, v) :: multimap_insert key value m'
  end.

Definition multimap_erase (key : string) (m : HttpHeaders) : HttpHeaders := filter (λ e, e.1 ≠ key) m.

(** The values of a key. *)
Definition values_of (key : string) (m : HttpHeaders) : list string := (filter (λ e, e.1 = key) m).*2.

(** ** The URI *)

(** The conversion of the pieces of a [StrSplit] to a pair. *)
Definition first_two (pieces : list string) : string * string :=
  (default "" (pieces !! 0%nat), default "" (pieces !! 1%nat)).

Section uri.
(** [curl_easy_escape], which returns a null pointer on a failure; [StrAppend] takes it as empty. *)
Context (curl_easy_escape : string → option string).

Definition append_part (escaped_query query_part : string) : string :=
  let escaped_query := if bool_decide (escaped_query = "") then escaped_query else escaped_query +:+ "&" in
  let name_and_value := first_two (StrSplit "="%char query_part) in
  escaped_query +:+ name_and_value.1 +:+ "=" +:+ default "" (curl_easy_escape name_and_value.2).

Definition escape_query (query : string) : string := foldl append_part "" (StrSplit "&"%char query).

(** [curl_ok]: the answer of [curl_easy_init]. *)
Definition GetEscapedUriWithQuery (curl_ok : bool) (request : HttpRequest) : Fallible string :=
  match query request with
  | None | Some "" => or_throw (path request)
  | Some query =>
      if negb curl_ok then fail_with SC_CORE_UTILS_CURL_INIT_ERROR
      else path ← or_throw (path request); mret (path +:+ "?" +:+ escape_query query)
  end.
End uri.

(** ** The request that is submitted *)

Definition kContentLengthHeader : string := "content-length".
Definition kClientActivityIdHeader : string := "x-gscp-client-activity-id".

(** All the bytes of the vector are copied. *)
Definition request_body (request : HttpRequest) : option (list Z) :=
  if 0 <? length_ (body request) then bytes (body request) else Some [].

Definition copy_headers (request : HttpRequest) : HttpHeaders :=
  foldl (λ m e, multimap_insert e.1 e.2 m) [] (default [] (headers request)).

Definition request_headers (request : HttpRequest) (activity_id : string) (body : list Z) : HttpHeaders :=
  let headers := copy_headers request in
  let headers := multimap_insert kContentLengthHeader (pretty (zlen body)) (multimap_erase kContentLengthHeader headers) in
  multimap_insert kClientActivityIdHeader activity_id (multimap_erase kClientActivityIdHeader headers).

(** ** The response that arrives *)

Section response.
(** The number of bytes that [reserve] can get. *)
Context (max_alloc : Z).

Definition reserve (n : Z) (reserved : Z) : option Z :=
  if n <=? max_alloc then Some (Z.max n reserved) else None.

(** [content_length] is negative when the response does not tell it. *)
Definition OnResponseCallback (status_code : Z) (header : HttpHeaders) (content_length : Z) (r : HttpResponse)
  : option HttpResponse :=
  let headers := foldl (λ m e, multimap_insert e.1 e.2 m) [] header in
  if 0 <=? content_length then
    reserved ← reserve content_length 0;
    Some (mkHttpResponse (Some headers) (mkBytesBuffer (Some []) (length_ (response_body r)) content_length) reserved status_code)
  else Some (mkHttpResponse (Some headers) (response_body r) (reserved r) status_code).

Definition OnResponseBodyCallback (data : list Z) (r : HttpResponse) : option HttpResponse :=
  if bool_decide (data = []) then Some r
  else
    let body := response_body r in
    body_buffer ← bytes body;
    let size := zlen body_buffer + zlen data in
    '(reserved, capacity) ←
      (if reserved r <? size then reserved ← reserve size (reserved r); Some (reserved, size)
       else Some (reserved r, capacity body));
    Some (mkHttpResponse (response_headers r) (mkBytesBuffer (Some (body_buffer ++ data)) (u64 (length_ body + zlen data)) capacity)
            reserved (code r)).
End response.

(** ** The result of an exchange *)

Definition ConvertHttpStatusCodeToExecutionResult (status_code : HttpStatusCode) : ExecutionResult :=
  match status_code with
  | 200 | 201 | 202 | 204 | 206 => SuccessExecutionResult
  | 300 => FailureExecutionResult SC_HTTP2_CLIENT_HTTP_STATUS_MULTIPLE_CHOICES
  | 301 => FailureExecutionResult SC_HTTP2_CLIENT_HTTP_STATUS_MOVED_PERMANENTLY
  | 302 => FailureExecutionResult SC_HTTP2_CLIENT_HTTP_STATUS_FOUND
  | 303 => FailureExecutionResult SC_HTTP2_CLIENT_HTTP_STATUS_SEE_OTHER
  | 304 => FailureExecutionResult SC_HTTP2_CLIENT_HTTP_STATUS_NOT_MODIFIED
  | 307 => FailureExecutionResult SC_HTTP2_CLIENT_HTTP_STATUS_TEMPORARY_REDIRECT
  | 308 => FailureExecutionResult SC_HTTP2_CLIENT_HTTP_STATUS_PERMANENT_REDIRECT
  | 400 => FailureExecutionResult SC_HTTP2_CLIENT_HTTP_STATUS_BAD_REQUEST
  | 401 => FailureExecutionResult SC_HTTP2_CLIENT_HTTP_STATUS_UNAUTHORIZED
  | 403 => FailureExecutionResult SC_HTTP2_CLIENT_HTTP_STATUS_FORBIDDEN
  | 404 => FailureExecutionResult SC_HTTP2_CLIENT_HTTP_STATUS_NOT_FOUND
  | 405 => FailureExecutionResult SC_HTTP2_CLIENT_HTTP_STATUS_METHOD_NOT_ALLOWED
  | 408 => FailureExecutionResult SC_HTTP2_CLIENT_HTTP_STATUS_REQUEST_TIMEOUT
  | 409 => FailureExecutionResult SC_HTTP2_CLIENT_HTTP_STATUS_CONFLICT
  | 410 => FailureExecutionResult SC_HTTP2_CLIENT_HTTP_STATUS_GONE
  | 411 => FailureExecutionResult SC_HTTP2_CLIENT_HTTP_STATUS_LENGTH_REQUIRED
  | 412 => FailureExecutionResult SC_HTTP2_CLIENT_HTTP_STATUS_PRECONDITION_FAILED
  | 413 => FailureExecutionResult SC_HTTP2_CLIENT_HTTP_STATUS_REQUEST_ENTITY_TOO_LARGE
  | 414 => FailureExecutionResult SC_HTTP2_CLIENT_HTTP_STATUS_REQUEST_URI_TOO_LONG
  | 415 => FailureExecutionResult SC_HTTP2_CLIENT_HTTP_STATUS_UNSUPPORTED_MEDIA_TYPE
  | 416 => FailureExecutionResult SC_HTTP2_CLIENT_HTTP_STATUS_REQUEST_RANGE_NOT_SATISFIABLE
  | 421 => FailureExecutionResult SC_HTTP2_CLIENT_HTTP_STATUS_MISDIRECTED_REQUEST
  | 429 => FailureExecutionResult SC_HTTP2_CLIENT_HTTP_STATUS_TOO_MANY_REQUESTS
  | 500 => RetryExecutionResult SC_HTTP2_CLIENT_HTTP_STATUS_INTERNAL_SERVER_ERROR
  | 501 => RetryExecutionResult SC_HTTP2_CLIENT_HTTP_STATUS_NOT_IMPLEMENTED
  | 502 => RetryExecutionResult SC_HTTP2_CLIENT_HTTP_STATUS_BAD_GATEWAY
  | 503 => RetryExecutionResult SC_HTTP2_CLIENT_HTTP_STATUS_SERVICE_UNAVAILABLE
  | 504 => RetryExecutionResult SC_HTTP2_CLIENT_HTTP_STATUS_GATEWAY_TIMEOUT
  | 505 => RetryExecutionResult SC_HTTP2_CLIENT_HTTP_STATUS_HTTP_VERSION_NOT_SUPPORTED
  | 0 => FailureExecutionResult SC_UNKNOWN
  | _ => FailureExecutionResult SC_HTTP2_CLIENT_HTTP_REQUEST_RESPONSE_STATUS_UNKNOWN
  end.

(** The result that [OnRequestResponseClosed] gives to the context. *)
Definition closed_result (code : HttpStatusCode) (error_code : Z) : ExecutionResult :=
  let result := ConvertHttpStatusCodeToExecutionResult code in
  if error_code =? 0 then result
  else if negb (Successful result) && negb (result_eqb result (FailureExecutionResult SC_UNKNOWN)) then result
       else RetryExecutionResult SC_HTTP2_CLIENT_HTTP_REQUEST_CLOSE_ERROR.

(** ** Facts *)

Abbreviation without c s := (Forall (.≠ c) (String.list_ascii_of_string s)) (only parsing).

(** A parameter of a query: a name and a value, in which [=] and [&] do not occur. *)
Definition parameter (kv : string * string) : Prop :=
  without "="%char kv.1 ∧ without "&"%char kv.1 ∧ without "="%char kv.2 ∧ without "&"%char kv.2.

Definition print_parameter (kv : string * string) : string := kv.1 +:+ "=" +:+ kv.2.

Lemma print_parameter_without kv : parameter kv → without "&"%char (print_parameter kv).
Proof.
  intros (_ & H1 & _ & H2). unfold print_parameter. rewrite !list_ascii_app, !Forall_app. repeat split; try done. by repeat constructor.
Qed.

Lemma split_parameter kv : parameter kv → first_two (StrSplit "="%char (print_parameter kv)) = kv.
Proof.
  intros (H1 & _ & H2 & _). unfold print_parameter. change ("=" +:+ kv.2) with (String "="%char kv.2).
  rewrite StrSplit_first, StrSplit_none by done. by destruct kv.
Qed.

(** What follows a second [=] in a parameter is dropped. *)
Lemma split_drops_rest name v w : without "="%char name → without "="%char v →
  first_two (StrSplit "="%char (name +:+ String "="%char (v +:+ String "="%char w))) = (name, v).
Proof. intros H1 H2. by rewrite !StrSplit_first. Qed.

Section escaping.
Context (curl_easy_escape : string → option string).

Definition escaped_parameter (kv : string * string) : string := print_parameter (kv.1, default "" (curl_easy_escape kv.2)).

Lemma split_parameters kvs : kvs ≠ [] → Forall parameter kvs →
  StrSplit "&"%char (String.concat "&" (print_parameter <$> kvs)) = print_parameter <$> kvs.
Proof.
  induction kvs as [|kv [|kv' kvs] IH]; intros Hne Hp; [done|..]; apply Forall_cons in Hp as [H1 Hp].
  - by apply StrSplit_none, print_parameter_without.
  - change (String.concat "&" (print_parameter <$> kv :: kv' :: kvs)) with
      (print_parameter kv +:+ String "&"%char (String.concat "&" (print_parameter <$> kv' :: kvs))).
    rewrite StrSplit_first by (by apply print_parameter_without). by rewrite IH.
Qed.

Lemma append_parameters kvs q : q ≠ "" → Forall parameter kvs → kvs ≠ [] →
  foldl (append_part curl_easy_escape) q (print_parameter <$> kvs) =
    q +:+ "&" +:+ String.concat "&" (escaped_parameter <$> kvs).
Proof.
  revert q. induction kvs as [|kv kvs IH]; intros q Hq Hp Hne; [done|]. apply Forall_cons in Hp as [H1 Hp].
  cbn [fmap list_fmap foldl]. unfold append_part at 2. rewrite bool_decide_false, split_parameter by done.
  destruct kvs as [|kv' kvs]; [cbn; by rewrite <-!string_app_assoc|]. rewrite IH; [|by destruct q|done|done].
  unfold escaped_parameter at 2, print_parameter. cbn [fst snd String.concat fmap list_fmap]. by rewrite <-!string_app_assoc.
Qed.

(** The names of the parameters stay, their values are escaped. *)
Theorem escape_query_parameters kvs : kvs ≠ [] → Forall parameter kvs →
  escape_query curl_easy_escape (String.concat "&" (print_parameter <$> kvs)) = String.concat "&" (escaped_parameter <$> kvs).
Proof.
  intros Hne Hp. unfold escape_query. rewrite split_parameters by done. destruct kvs as [|kv kvs]; [done|].
  apply Forall_cons in Hp as [H1 Hp]. cbn [fmap list_fmap foldl].
  assert (append_part curl_easy_escape "" (print_parameter kv) = escaped_parameter kv) as E.
  { unfold append_part. by rewrite bool_decide_true, split_parameter. }
  rewrite E. destruct kvs as [|kv' kvs]; [done|]. rewrite append_parameters; [done| |done|done].
  unfold escaped_parameter, print_parameter. by destruct (kv.1).
Qed.
End escaping.

(** ** Headers *)

Lemma multimap_insert_perm k v m : multimap_insert k v m ≡ₚ (k, v) :: m.
Proof.
  induction m as [|[k' v'] m IH]; [done|]. cbn. destruct (String.ltb k k'); [done|]. rewrite IH. constructor.
Qed.

Lemma values_of_perm k m m' : m ≡ₚ m' → values_of k m ≡ₚ values_of k m'.
Proof. intros E. unfold values_of. by rewrite E. Qed.

Lemma values_of_cons k k' v m : values_of k ((k', v) :: m) = (if decide (k' = k) then [v] else []) ++ values_of k m.
Proof. unfold values_of. rewrite filter_cons. cbn. by destruct (decide (k' = k)). Qed.

Lemma values_of_erase k k' m : values_of k (multimap_erase k' m) = if decide (k = k') then [] else values_of k m.
Proof.
  induction m as [|[a b] m IH]; [by destruct (decide (k = k'))|]. unfold multimap_erase in *. rewrite filter_cons, !values_of_cons. cbn [fst].
  destruct (decide (a ≠ k')) as [Ha|<-%dec_stable]; rewrite ?values_of_cons, IH.
  - destruct (decide (k = k')) as [->|]; [by rewrite decide_False|done].
  - destruct (decide (k = a)); [done|]. by rewrite decide_False.
Qed.

Lemma values_of_set k k' v m :
  values_of k (multimap_insert k' v (multimap_erase k' m)) ≡ₚ if decide (k = k') then [v] else values_of k m.
Proof.
  rewrite (values_of_perm _ _ _ (multimap_insert_perm _ _ _)), values_of_cons, values_of_erase.
  destruct (decide (k = k')) as [->|]; [by rewrite decide_True|]. by rewrite decide_False.
Qed.

Lemma copy_headers_perm l m : foldl (λ m e, multimap_insert e.1 e.2 m) m l ≡ₚ m ++ l.
Proof.
  revert m. induction l as [|[k v] l IH]; intros m; [by rewrite app_nil_r|]. cbn. rewrite IH, multimap_insert_perm.
  solve_Permutation.
Qed.

(** The request that is submitted tells the length of its body and the activity of the context,
    whatever the headers of the caller say of them; the caller's other headers are kept. *)
Theorem submitted_headers request activity_id body :
  let hs := request_headers request activity_id body in
  values_of kContentLengthHeader hs = [pretty (zlen body)] ∧ values_of kClientActivityIdHeader hs = [activity_id] ∧
  ∀ k, k ≠ kContentLengthHeader → k ≠ kClientActivityIdHeader → values_of k hs ≡ₚ values_of k (default [] (headers request)).
Proof.
  unfold request_headers. cbv zeta. split; [|split].
  - apply Permutation_length_1_inv. rewrite values_of_set, decide_False by done. by rewrite values_of_set, decide_True.
  - apply Permutation_length_1_inv. by rewrite values_of_set, decide_True.
  - intros k H1 H2. rewrite values_of_set, decide_False, values_of_set, decide_False by done.
    apply values_of_perm. apply (copy_headers_perm _ []).
Qed.

(** ** The response *)

Section receiving.
Context (max_alloc : Z).

Definition OnResponseBodyCallbacks (chunks : list (list Z)) (r : HttpResponse) : option HttpResponse :=
  foldl (λ r data, r ← r; OnResponseBodyCallback max_alloc data r) (Some r) chunks.

(** The buffer of the response holds [data]. *)
Definition holds (data : list Z) (r : HttpResponse) : Prop :=
  bytes (response_body r) = Some data ∧ length_ (response_body r) = zlen data ∧
  zlen data ≤ capacity (response_body r) ∧ reserved r = capacity (response_body r).

Lemma body_callback_holds data chunk r : holds data r → zlen (data ++ chunk) ≤ max_alloc → max_alloc < 2 ^ 64 →
  ∃ r', OnResponseBodyCallback max_alloc chunk r = Some r' ∧ holds (data ++ chunk) r' ∧ code r' = code r ∧
    response_headers r' = response_headers r.
Proof.
  intros (Hb & Hl & Hc & Hr) Hmax H64. rewrite length_app in Hmax. unfold OnResponseBodyCallback.
  destruct (bool_decide_reflect (chunk = [])) as [->|]; [exists r; by rewrite app_nil_r|].
  rewrite Hb. cbn [mbind option_bind]. unfold reserve.
  assert (u64 (length_ (response_body r) + zlen chunk) = zlen (data ++ chunk)) as El.
  { rewrite Hl, length_app, u64_small; lia. }
  destruct (Z.ltb_spec (reserved r) (zlen data + zlen chunk)).
  - rewrite (proj2 (Z.leb_le _ _)) by lia. cbn. eexists. split; [done|]. repeat split; cbn; [exact El|rewrite length_app; lia|lia].
  - cbn. eexists. split; [done|]. repeat split; cbn; [exact El|rewrite length_app; lia|lia].
Qed.

(** The response of an exchange is what arrived: its status and its chunks in order, in a buffer
    whose length is within its capacity, as long as the announced length and the body fit in memory. *)
Theorem response_accumulates status header content_length chunks :
  content_length ≤ max_alloc → zlen (concat chunks) ≤ max_alloc → max_alloc < 2 ^ 64 →
  ∃ r, (OnResponseCallback max_alloc status header content_length new_response ≫= OnResponseBodyCallbacks chunks) = Some r ∧
    code r = status ∧ BytesBuffer_ToString (response_body r) = Some (concat chunks) ∧
    length_ (response_body r) = zlen (concat chunks) ∧ length_ (response_body r) ≤ capacity (response_body r).
Proof.
  intros Hcl Hmax H64.
  assert (∃ r, OnResponseCallback max_alloc status header content_length new_response = Some r ∧ holds [] r ∧ code r = status)
    as (r & -> & Hr & Hs).
  { unfold OnResponseCallback, reserve. destruct (Z.leb_spec 0 content_length).
    - rewrite (proj2 (Z.leb_le _ _)) by lia. eexists. split; [done|]. repeat split; cbn; lia.
    - eexists. split; [done|]. by repeat split. }
  cbn [mbind option_bind].
  assert (∀ data r, holds data r → code r = status → zlen (data ++ concat chunks) ≤ max_alloc →
    ∃ r', OnResponseBodyCallbacks chunks r = Some r' ∧ holds (data ++ concat chunks) r' ∧ code r' = status) as Hloop.
  { clear r Hr Hs Hmax. induction chunks as [|chunk chunks IH]; intros data r Hr Hs Hmax.
    { exists r. cbn. by rewrite app_nil_r. }
    cbn in Hmax. rewrite app_assoc, length_app in Hmax.
    destruct (body_callback_holds data chunk r Hr) as (r1 & E1 & Hr1 & Hc1 & _); [lia|done|].
    destruct (IH (data ++ chunk) r1) as (r2 & E2 & Hr2 & Hc2); [done|congruence|rewrite length_app; lia|].
    exists r2. cbn. rewrite app_assoc. split; [|done]. unfold OnResponseBodyCallbacks. cbn. by rewrite E1. }
  destruct (Hloop [] r) as (r' & E & (Hb & Hl & Hc & _) & Hs'); [done|done|done|].
  exists r'. split; [done|]. split; [done|]. unfold BytesBuffer_ToString. rewrite Hb. cbn [mbind option_bind app].
  rewrite !Hl. cbn [app] in *. split; [|done]. rewrite mem_read_Some by lia. cbn [Z.to_nat drop]. by rewrite Nat2Z.id, firstn_all.
Qed.

(** A response that announces more bytes than can be allocated ends the process, before any byte of
    it has arrived. *)
Theorem announced_length_crashes status header content_length r :
  0 ≤ content_length → max_alloc < content_length → OnResponseCallback max_alloc status header content_length r = None.
Proof.
  intros H1 H2. unfold OnResponseCallback, reserve. rewrite (proj2 (Z.leb_le _ _) H1). by rewrite (proj2 (Z.leb_gt _ _) H2).
Qed.
End receiving.

(** ** The result *)

Definition success_codes : list Z := [200; 201; 202; 204; 206].
Definition retry_codes : list Z := [500; 501; 502; 503; 504; 505].

(** What the table has for the codes that it does not list. *)
Lemma convert_default code : code ∉ [0; 200; 201; 202; 204; 206; 300; 301; 302; 303; 304; 307; 308; 400; 401; 403; 404; 405; 408;
    409; 410; 411; 412; 413; 414; 415; 416; 421; 429; 500; 501; 502; 503; 504; 505] →
  ConvertHttpStatusCodeToExecutionResult code = FailureExecutionResult SC_HTTP2_CLIENT_HTTP_REQUEST_RESPONSE_STATUS_UNKNOWN.
Proof.
  destruct code as [|p|p]; [|do 9 try (destruct p as [p|p|]; try (intros _; reflexivity))|intros _; reflexivity].
  all: intros H; exfalso; apply H; by apply (bool_decide_unpack _); vm_compute.
Qed.

Lemma convert_status code : let r := ConvertHttpStatusCodeToExecutionResult code in
  (code ∈ success_codes ∧ r = SuccessExecutionResult) ∨
  (code ∈ retry_codes ∧ status r = Retry) ∨
  (code ∉ success_codes ∧ code ∉ retry_codes ∧ status r = Failure ∧ (r = FailureExecutionResult SC_UNKNOWN ↔ code = 0)).
Proof.
  cbv zeta. destruct (decide (code ∈ [0; 200; 201; 202; 204; 206; 300; 301; 302; 303; 304; 307; 308; 400; 401; 403; 404; 405; 408;
    409; 410; 411; 412; 413; 414; 415; 416; 421; 429; 500; 501; 502; 503; 504; 505])) as [H|H].
  - repeat (apply elem_of_cons in H as [->|H]); [..|by apply not_elem_of_nil in H].
    all: first [left; split; [by apply (bool_decide_unpack _); vm_compute|done]
      | right; left; split; [by apply (bool_decide_unpack _); vm_compute|done]
      | right; right; split; [by apply (bool_decide_unpack _); vm_compute|]; split; [by apply (bool_decide_unpack _); vm_compute|];
          split; [done|]; split; [by intros [=]|by intros]].
  - right. right. rewrite convert_default by done. repeat split; try done; intros Hc; exfalso; apply H; revert Hc; unfold success_codes, retry_codes; set_solver.
Qed.

(** An exchange succeeds only with a code of success and an orderly close.  It is to be retried when
    the server failed, or when the stream broke with no answer or with a successful one. *)
Theorem closed_result_spec code error_code : let r := closed_result code error_code in
  (Successful r = true ↔ code ∈ success_codes ∧ error_code = 0) ∧
  (Retryable r = true ↔ code ∈ retry_codes ∨ (error_code ≠ 0 ∧ (code = 0 ∨ code ∈ success_codes))).
Proof.
  cbv zeta. unfold closed_result. pose proof (convert_status code) as Hc. cbv zeta in Hc. revert Hc.
  generalize (ConvertHttpStatusCodeToExecutionResult code). intros r Hc.
  assert (code ∈ success_codes → code ∉ retry_codes) as Hdis.
  { intros H. repeat (apply elem_of_cons in H as [->|H]); [..|by apply not_elem_of_nil in H]; by apply (bool_decide_unpack _); vm_compute. }
  assert (∀ r, Successful r = true ↔ r = SuccessExecutionResult) as Hs.
  { intros [st c]. unfold Successful, result_eqb. rewrite andb_true_iff, !bool_decide_eq_true. cbn [status status_code]. split; [by intros [-> ->]|by intros [= -> ->]]. }
  assert (∀ r, Retryable r = true ↔ status r = Retry) as Hr by (intros; apply bool_decide_eq_true).
  assert (result_eqb r (FailureExecutionResult SC_UNKNOWN) = true ↔ r = FailureExecutionResult SC_UNKNOWN) as Hu.
  { destruct r as [st c]. unfold result_eqb. rewrite andb_true_iff, !bool_decide_eq_true. cbn [status status_code]. split; [by intros [-> ->]|by intros [= -> ->]]. }
  pose proof (Hs r) as Hsr. rewrite Hs, Hr. clear Hs Hr.
  assert (code = 0 → code ∉ success_codes ∧ code ∉ retry_codes) as H0.
  { intros ->. split; by apply (bool_decide_unpack _); vm_compute. }
  revert Hc Hdis H0. generalize (code ∈ success_codes) (code ∈ retry_codes) (code = 0). intros P Q U Hc Hdis H0.
  assert (status SuccessExecutionResult = Success) as Hss by done. set (close := RetryExecutionResult _).
  assert (status close = Retry) as Hcl by done. clearbody close. revert Hss Hu Hsr Hc.
  generalize SuccessExecutionResult (FailureExecutionResult SC_UNKNOWN) (result_eqb r (FailureExecutionResult SC_UNKNOWN)) (Successful r).
  intros ok unknown b s Hss Hu Hsr Hc.
  destruct (Z.eqb_spec error_code 0) as [He|He]; [|destruct s, b; cbn [negb andb]].
  all: destruct Hc as [[H1 H2]|[[H1 H2]|(H1 & H2 & H3 & H4)]].
  all: split; split; intros; destruct_and?; destruct_or?; try tauto; try intuition congruence.
Qed.
