(* ===== verification/HttpConnection.v ===== *)
(** * HttpConnection: a connection of the HTTP/2 client

    Models [http_connection.cc] and [http_connection.h] of
    [cc/core/http2_client/src]: the life cycle, the map of the calls that are
    pending, and the callbacks of nghttp2.

    The connection is code of several threads ([Threads]): the callers of its
    operations, and one worker that runs [io_service_->run()].  Boost's service
    and nghttp2's session are not part of the sources.  Of the service we use
    that [post] appends to a queue, that the worker takes the handlers in order,
    one at a time, until the service is stopped or, without a guard, has no
    work left, and that it may throw.  Of the session, that it calls back on the
    worker for requests it has accepted, and closes each of them at most once.
    When it does so, and with what, is up to the environment.

    [finished] are the contexts given to their callback, [refused] the ones
    that [Execute] has returned a failure for, and [executed] the ones that
    [Execute] was called with; the last two are ghosts. *)

From S2P Require Import Prelude ExecResult UuidLib Serialization ExpiryMap Utils Threads HttpExchange.

Local Open Scope string_scope.
Local Open Scope list_scope.
Local Open Scope Z_scope.

(** ** Data *)

Record HttpContext := mkHttpContext {
  context_id : nat;
  request : HttpRequest;
  activity_id : Uuid
}.

(** What [session::submit] is called with. *)
Record Submission := mkSubmission {
  submitted_method : string;
  submitted_uri : string;
  submitted_body : list Z;
  submitted_headers : HttpHeaders
}.

(** A request that the session has accepted, and the response object that its callbacks share. *)
Record Stream := mkStream {
  submission : Submission;
  stream_context : HttpContext;
  stream_response : HttpResponse
}.

(** The closures that are posted. *)
Inductive Handler :=
  | ShutdownSession
  | StopService
  | MarkReady
  | DropConnection
  | Send (request_id : Uuid) (http_context : HttpContext).

(** [generation] tells the services that [io_service_] points to one after the other apart. *)
Record IoService := mkIoService {
  generation : nat;
  posted : list Handler;
  work_guard_ : bool;
  stopped : bool;
  busy : bool                       (* the worker runs a handler or a callback *)
}.

(** [worker_]: null, or a thread that runs, has returned, or was joined. *)
Inductive Worker := NoWorker | Running | Returned | Joined.

Record Attempt := mkAttempt { attempt_id : Uuid; attempt_context : HttpContext }.

Record Connection := mkConnection {
  is_ready_ : bool;
  is_dropped_ : bool;
  pending_network_calls_ : gmap Uuid HttpContext;
  io_service_ : option IoService;
  worker_ : Worker;
  session_ : bool;
  streams : gmap Uuid Stream;
  finished : list (Attempt * (ExecutionResult * option HttpResponse));
  refused : list (Attempt * ExecutionResult);
  executed : list Attempt
}.

Definition new_connection : Connection := mkConnection false false ∅ None NoWorker false ∅ [] [] [].

Definition set_flags (ready dropped : bool) (s : Connection) : Connection :=
  mkConnection ready dropped (pending_network_calls_ s) (io_service_ s) (worker_ s) (session_ s) (streams s)
    (finished s) (refused s) (executed s).

Definition set_pending (m : gmap Uuid HttpContext) (s : Connection) : Connection :=
  mkConnection (is_ready_ s) (is_dropped_ s) m (io_service_ s) (worker_ s) (session_ s) (streams s)
    (finished s) (refused s) (executed s).

Definition set_service (io : option IoService) (s : Connection) : Connection :=
  mkConnection (is_ready_ s) (is_dropped_ s) (pending_network_calls_ s) io (worker_ s) (session_ s) (streams s)
    (finished s) (refused s) (executed s).

Definition set_worker (w : Worker) (s : Connection) : Connection :=
  mkConnection (is_ready_ s) (is_dropped_ s) (pending_network_calls_ s) (io_service_ s) w (session_ s) (streams s)
    (finished s) (refused s) (executed s).

Definition set_session (b : bool) (m : gmap Uuid Stream) (s : Connection) : Connection :=
  mkConnection (is_ready_ s) (is_dropped_ s) (pending_network_calls_ s) (io_service_ s) (worker_ s) b m
    (finished s) (refused s) (executed s).

(** [Finish()] calls the callback with what the context holds. *)
Definition finish (a : Attempt) (r : ExecutionResult) (response : option HttpResponse) (s : Connection) : Connection :=
  mkConnection (is_ready_ s) (is_dropped_ s) (pending_network_calls_ s) (io_service_ s) (worker_ s) (session_ s) (streams s)
    (finished s ++ [(a, (r, response))]) (refused s) (executed s).

Definition refuse (a : Attempt) (r : ExecutionResult) (s : Connection) : Connection :=
  mkConnection (is_ready_ s) (is_dropped_ s) (pending_network_calls_ s) (io_service_ s) (worker_ s) (session_ s) (streams s)
    (finished s) (refused s ++ [(a, r)]) (executed s).

Definition note_executed (a : Attempt) (s : Connection) : Connection :=
  mkConnection (is_ready_ s) (is_dropped_ s) (pending_network_calls_ s) (io_service_ s) (worker_ s) (session_ s) (streams s)
    (finished s) (refused s) (a :: executed s).

Definition set_ready (b : bool) (s : Connection) : Connection := set_flags b (is_dropped_ s) s.
Definition set_dropped (b : bool) (s : Connection) : Connection := set_flags (is_ready_ s) b s.

Definition update_service (f : IoService → IoService) (s : Connection) : Connection := set_service (f <$> io_service_ s) s.

Definition set_busy (b : bool) (io : IoService) : IoService :=
  mkIoService (generation io) (posted io) (work_guard_ io) (stopped io) b.
Definition set_stopped (io : IoService) : IoService := mkIoService (generation io) (posted io) (work_guard_ io) true (busy io).
Definition reset_guard (io : IoService) : IoService := mkIoService (generation io) (posted io) false (stopped io) (busy io).
Definition set_posted (l : list Handler) (io : IoService) : IoService :=
  mkIoService (generation io) l (work_guard_ io) (stopped io) (busy io).

(** ** Operations *)

(** [post( *io_service_, handler)]: the pointer is read, and then the queue of what it points to is
    extended.  A service that was replaced in between has been destroyed. *)
Definition append_handler (g : nat) (h : Handler) (s : Connection) : Connection * option () :=
  match io_service_ s with
  | Some io => if bool_decide (generation io = g) then (set_service (Some (set_posted (posted io ++ [h]) io)) s, Some tt) else (s, None)
  | None => (s, None)
  end.

Definition post (h : Handler) : Code Connection () :=
  io ← reads io_service_;
  io ← deref io;
  ok ← atomically (append_handler (generation io) h);
  deref ok.

Definition erase (request_id : Uuid) (s : Connection) : Connection * ExecutionResult :=
  let '(r, m) := CM_Erase (pending_network_calls_ s) request_id in (set_pending m s, r).

(** [Erase], and [FinishContext] unless it failed. *)
Definition finish_erased (a : Attempt) (r : ExecutionResult) (response : option HttpResponse) (k : Code Connection ()) : Code Connection () :=
  erased ← atomically (erase (attempt_id a));
  if negb (Successful erased) then mret tt
  else _ ← modifies (finish a r response); k.

Definition cancel_call (key : Uuid) : Code Connection () :=
  found ← reads (λ s, CM_Find (pending_network_calls_ s) key);
  if negb (Successful found.1) then mret tt
  else
    http_context ← deref found.2;
    erased ← atomically (erase key);
    if negb (Successful erased) then mret tt
    else
      dropped ← reads is_dropped_;
      modifies (finish (mkAttempt key http_context)
        (if dropped : bool then RetryExecutionResult SC_HTTP2_CLIENT_CONNECTION_DROPPED
         else FailureExecutionResult SC_HTTP2_CLIENT_CONNECTION_DROPPED) None).

Definition CancelPendingCallbacks : Code Connection () :=
  keys ← reads (λ s, CM_Keys (pending_network_calls_ s));
  if negb (Successful keys.1) then mret tt else for_all keys.2 cancel_call.

Definition OnConnectionCreated : Code Connection () := post MarkReady.
Definition OnConnectionError : Code Connection () := post DropConnection.

(** How the TLS context is configured: well, with an error code, or with an exception. *)
Inductive TlsAnswer := TlsReady | TlsError | TlsThrows.

(** A service that its worker still runs is destroyed: undefined behaviour. *)
Definition new_service (s : Connection) : Connection * option () :=
  match worker_ s with
  | Running => (s, None)
  | _ => (set_service (Some (mkIoService (default 0%nat (S ∘ generation <$> io_service_ s)) [] true false false)) s, Some tt)
  end.

Definition Init (tls : TlsAnswer) : Code Connection ExecutionResult :=
  ok ← atomically new_service;
  _ ← deref ok;
  match tls with
  | TlsThrows => mret (FailureExecutionResult SC_HTTP2_CLIENT_CONNECTION_INITIALIZATION_FAILED)
  | TlsError => mret (FailureExecutionResult SC_HTTP2_CLIENT_TLS_CTX_ERROR)
  | TlsReady => _ ← modifies (λ s, set_session true (streams s) s); mret SuccessExecutionResult
  end.

(** To replace a thread that was not joined ends the process. *)
Definition start_worker (s : Connection) : Connection * option () :=
  match worker_ s with
  | NoWorker | Joined => (set_worker Running s, Some tt)
  | Running | Returned => (s, None)
  end.

Definition Run : Code Connection ExecutionResult :=
  ok ← atomically start_worker;
  _ ← deref ok;
  mret SuccessExecutionResult.

(** [worker_->joinable()], of a pointer that may be null. *)
Definition joinable (s : Connection) : option bool :=
  match worker_ s with
  | NoWorker => None
  | Running | Returned => Some true
  | Joined => Some false
  end.

(** [join()] throws when another call has joined the thread: [false]. *)
Definition join (s : Connection) : option (Connection * bool) :=
  match worker_ s with
  | Running => None
  | Returned => Some (set_worker Joined s, true)
  | NoWorker | Joined => Some (s, false)
  end.

(** The part of [Stop] before the worker is joined; its value tells whether there is one to join. *)
Definition stop_service : Code Connection bool :=
  session ← reads session_;
  _ ← (if session : bool then post ShutdownSession else mret tt);
  _ ← modifies (set_ready false);
  io ← reads io_service_;
  _ ← deref io;                                       (* [work_guard_] is set with [io_service_] *)
  _ ← modifies (update_service reset_guard);
  _ ← post StopService;
  waits ← reads joinable;
  deref waits.

Definition Stop : Code Connection ExecutionResult :=
  waits ← stop_service;
  joined ← (if waits : bool then awaits join else mret true);
  if negb joined then mret (FailureExecutionResult SC_HTTP2_CLIENT_CONNECTION_STOP_FAILED)
  else _ ← CancelPendingCallbacks; mret SuccessExecutionResult.

Definition Reset : Code Connection () :=
  _ ← modifies (set_ready false);
  _ ← modifies (set_dropped false);
  modifies (λ s, set_session false (streams s) s).

Definition insert_call (a : Attempt) (s : Connection) : Connection * ExecutionResult :=
  let '(r, _, m) := CM_Insert (pending_network_calls_ s) (attempt_id a) (attempt_context a) in
  if Successful r then (set_pending m s, r) else (refuse a r (set_pending m s), r).

Definition Execute (a : Attempt) : Code Connection ExecutionResult :=
  ready ← reads is_ready_;
  if negb ready then
    let failure := RetryExecutionResult SC_HTTP2_CLIENT_NO_CONNECTION_ESTABLISHED in
    _ ← modifies (refuse a failure); mret failure
  else
    execution_result ← atomically (insert_call a);
    if negb (Successful execution_result) then mret execution_result
    else _ ← post (Send (attempt_id a) (attempt_context a)); mret SuccessExecutionResult.

Section callbacks.
Context (curl_easy_escape : string → option string) (max_alloc : Z).

(** The answers of libcurl and of nghttp2 to one request. *)
Record SendAnswers := mkSendAnswers { curl_ok : bool; submit_ok : bool }.

Definition open_stream (request_id : Uuid) (st : Stream) (s : Connection) : Connection :=
  set_session (session_ s) (<[request_id := st]> (streams s)) s.

Definition method_tag (m : HttpMethod) : option string :=
  match m with GET => Some "GET" | POST => Some "POST" | PUT | UNKNOWN => None end.

Definition SendHttpRequest (answers : SendAnswers) (a : Attempt) : Code Connection () :=
  let http_context := attempt_context a in
  match method_tag (method (request http_context)) with
  | None => finish_erased a (FailureExecutionResult SC_HTTP2_CLIENT_HTTP_METHOD_NOT_SUPPORTED) None (mret tt)
  | Some tag =>
      body ← deref (request_body (request http_context));
      activity ← deref (ToString (activity_id http_context));
      let headers := request_headers (request http_context) (String.string_of_list_ascii activity) body in
      uri ← deref (GetEscapedUriWithQuery curl_easy_escape (curl_ok answers) (request http_context));
      match uri with
      | HasResult r => finish_erased a r None (mret tt)
      | HasValue uri =>
          session ← reads session_;
          if negb session then Fault
          else if negb (submit_ok answers) then
            finish_erased a (RetryExecutionResult SC_HTTP2_CLIENT_FAILED_TO_ISSUE_HTTP_REQUEST) None OnConnectionError
          else modifies (open_stream (attempt_id a) (mkStream (mkSubmission tag uri body headers) http_context new_response))
      end
  end.

(** [on_close] is called once: the stream is gone. *)
Definition OnRequestResponseClosed (a : Attempt) (response : HttpResponse) (error_code : Z) : Code Connection () :=
  finish_erased a (closed_result (code response) error_code) (Some response) (mret tt).

Definition update_response (request_id : Uuid) (st : Stream) (response : HttpResponse) : Connection → Connection :=
  open_stream request_id (mkStream (submission st) (stream_context st) response).

(** ** The worker *)

Definition handler_code (answers : SendAnswers) (h : Handler) : Code Connection () :=
  match h with
  | ShutdownSession => session ← reads session_; if session : bool then mret tt else Fault
  | StopService => modifies (update_service set_stopped)
  | MarkReady => modifies (set_ready true)
  | DropConnection =>
      _ ← modifies (set_ready false);
      _ ← modifies (set_dropped true);
      CancelPendingCallbacks
  | Send request_id http_context => SendHttpRequest answers (mkAttempt request_id http_context)
  end.

Inductive SessionEvent :=
  | WorkerTakes (answers : SendAnswers)
  | WorkerReturns
  | WorkerThrows
  | SessionConnected
  | SessionFailed
  | StreamResponds (request_id : Uuid) (status_code : Z) (header : HttpHeaders) (content_length : Z)
  | StreamReceives (request_id : Uuid) (data : list Z)
  | StreamCloses (request_id : Uuid) (error_code : Z).

(** The service that the worker runs, when it does nothing at the moment. *)
Definition idle_service (s : Connection) : option IoService :=
  match worker_ s, io_service_ s with
  | Running, Some io => if busy io then None else Some io
  | _, _ => None
  end.

(** The worker is busy with a piece of code. *)
Definition on_worker (c : Code Connection ()) (s : Connection) : Connection * Code Connection () :=
  (update_service (set_busy true) s, _ ← c; modifies (update_service (set_busy false))).

(** What the worker does when [run()] throws. *)
Definition worker_throws : Code Connection () :=
  _ ← modifies (set_dropped true);
  _ ← modifies (set_ready false);
  modifies (set_worker Returned).

Definition session_env (s : Connection) (e : SessionEvent) : option (Connection * Code Connection ()) :=
  io ← idle_service s;
  match e with
  | WorkerTakes answers =>
      match stopped io, posted io with
      | false, h :: rest => Some (on_worker (handler_code answers h) (set_service (Some (set_posted rest io)) s))
      | _, _ => None
      end
  | WorkerReturns =>
      if stopped io || (negb (work_guard_ io) && bool_decide (posted io = [])) then Some (set_worker Returned s, Ret tt) else None
  | WorkerThrows =>
      Some (update_service (set_busy true) s, worker_throws)
  | SessionConnected => if session_ s then Some (on_worker OnConnectionCreated s) else None
  | SessionFailed => if session_ s then Some (on_worker OnConnectionError s) else None
  | StreamResponds request_id status_code header content_length =>
      st ← streams s !! request_id;
      Some (on_worker (r ← deref (OnResponseCallback max_alloc status_code header content_length (stream_response st));
                       modifies (update_response request_id st r)) s)
  | StreamReceives request_id data =>
      st ← streams s !! request_id;
      Some (on_worker (r ← deref (OnResponseBodyCallback max_alloc data (stream_response st));
                       modifies (update_response request_id st r)) s)
  | StreamCloses request_id error_code =>
      st ← streams s !! request_id;
      Some (on_worker (OnRequestResponseClosed (mkAttempt request_id (stream_context st)) (stream_response st) error_code)
              (set_session (session_ s) (delete request_id (streams s)) s))
  end.

(** ** The connection and its callers *)

Inductive ConnectionEvent :=
  | CallInit (tls : TlsAnswer)
  | CallRun
  | CallStop
  | CallReset
  | CallExecute (a : Attempt)
  | Session (e : SessionEvent).

Definition connection_env (s : Connection) (e : ConnectionEvent) : option (Connection * Code Connection ()) :=
  match e with
  | CallInit tls => Some (s, ignore (Init tls))
  | CallRun => Some (s, ignore Run)
  | CallStop => Some (s, ignore Stop)
  | CallReset => Some (s, ignore Reset)
  | CallExecute a => Some (note_executed a s, ignore (Execute a))
  | Session e => session_env s e
  end.

Definition connection_step : World Connection → @ThreadEvent ConnectionEvent → option (() * World Connection) :=
  thread_step connection_env.

End callbacks.
