(* ===== verification/HttpConnectionSpec.v ===== *)
(** * HttpConnectionSpec: what a connection of the HTTP/2 client promises

    Theorems about every interleaving of the code of [HttpConnection]: an
    attempt that [Execute] was called with is in one place (with a thread,
    refused, in the map of the pending calls, or finished), so its context is
    finished at most once; [Stop], when nothing is executed next to it, leaves
    nothing unfinished; a connection that drops hands every pending call back
    to be retried.  The runs at the end show what goes wrong when [Execute]
    races with [Stop] or with a recycling. *)

From S2P Require Import Prelude ExecResult UuidLib Serialization ExpiryMap Utils Threads HttpExchange HttpConnection.

Local Open Scope string_scope.
Local Open Scope list_scope.
Local Open Scope Z_scope.

(** ** What the code does not do *)

Abbreviation keeps_executed := (λ s s', executed s' = executed s).

(** Only [Execute] adds to the pending calls. *)
Abbreviation removes_calls := (λ s s', executed s' = executed s ∧ pending_network_calls_ s' ⊆ pending_network_calls_ s).

(** Only [Stop] joins the worker. *)
Definition quiet (s s' : Connection) : Prop :=
  executed s' = executed s ∧ pending_network_calls_ s' ⊆ pending_network_calls_ s ∧
  (joinable s = Some true → joinable s' = Some true).

Lemma quiet_removes {A} (c : Code Connection A) : within quiet c → within removes_calls c.
Proof. apply within_mono. by intros s s' (? & ? & _). Qed.

(** The tactic for an action that changes other fields only. *)
Ltac frame := repeat match goal with
  | |- within _ (_ ≫= _) => apply within_bind
  | |- within _ (atomically _) => split; [intros ?|done]
  | |- within _ (reads _) => split; [done|done]
  | |- within _ (modifies _) => split; [done|done]
  | |- within _ (deref ?x) => destruct x; done
  | |- within _ (mret _) => done
  | |- within _ (if ?b then _ else _) => destruct b
  | |- within _ (match ?x with _ => _ end) => destruct x
  | |- within _ Fault => done
  | |- within _ (ignore _) => unfold ignore
  | |- ∀ _, _ => intros ?
  end.

Lemma post_within h : within quiet (post h).
Proof.
  unfold post. frame. unfold append_handler. destruct (io_service_ s); [|done]. by destruct (bool_decide _).
Qed.

Lemma erase_within request_id : within quiet (atomically (erase request_id)).
Proof.
  split; [|done]. intros s. unfold erase, CM_Erase. destruct (_ !! request_id); [|done]. split; [done|]. split; [apply delete_subseteq|done].
Qed.

Lemma cancel_within : within quiet CancelPendingCallbacks.
Proof.
  unfold CancelPendingCallbacks. frame; cbn; try done. apply within_for_all. intros key. unfold cancel_call.
  frame; try apply erase_within; done.
Qed.

Lemma stop_service_within : within quiet stop_service.
Proof. unfold stop_service. frame; try apply post_within; done. Qed.

Lemma stop_within : within removes_calls Stop.
Proof.
  unfold Stop. frame; [apply quiet_removes, stop_service_within|..]; try apply quiet_removes, cancel_within; try done.
  split; [|done]. intros s s' r. unfold join. by destruct (worker_ s); intros [= <- <-].
Qed.

Lemma life_cycle_within tls : within quiet (Init tls) ∧ within quiet Run ∧ within quiet Reset.
Proof.
  split; [|split]; [unfold Init|unfold Run|unfold Reset]; frame; try done.
  - unfold new_service, quiet, joinable. by destruct (worker_ s) eqn:Ew; cbn; rewrite ?Ew.
  - unfold start_worker, quiet, joinable. by destruct (worker_ s) eqn:Ew; cbn; rewrite ?Ew.
Qed.

Lemma execute_within a : within keeps_executed (Execute a).
Proof.
  unfold Execute. frame; try done.
  - unfold insert_call, CM_Insert. by destruct (_ !! attempt_id a).
  - eapply within_mono; [|apply post_within]. by intros s s' [].
Qed.

Section spec.
Context (curl_easy_escape : string → option string) (max_alloc : Z).

Lemma finish_erased_within a r response k : within quiet k → within quiet (finish_erased a r response k).
Proof. intros Hk. unfold finish_erased. frame; try done. apply erase_within. Qed.

Lemma handler_within answers h : within quiet (handler_code curl_easy_escape answers h).
Proof.
  destruct h as [| | | |id c]; cbn [handler_code]; frame; try done; try apply cancel_within.
  unfold SendHttpRequest. frame; try done; try (by apply finish_erased_within). by apply finish_erased_within, post_within.
Qed.

Lemma session_within s e s' c : session_env curl_easy_escape max_alloc s e = Some (s', c) →
  quiet s s' ∧ within quiet c.
Proof.
  unfold session_env. destruct (idle_service s) as [io|]; [|done]. cbn [mbind option_bind].
  assert (∀ s1 c1, quiet s s1 → within quiet c1 → Some (on_worker c1 s1) = Some (s', c) →
    quiet s s' ∧ within quiet c) as Hon.
  { intros s1 c1 Hs Hc [= <- <-]. split; [done|]. by apply within_bind; [|intros; split]. }
  destruct e as [answers| | | | |id code header n|id data|id error_code].
  - destruct (stopped io), (posted io) as [|h rest]; try done. apply Hon; [done|]. apply handler_within.
  - destruct (_ || _); [|done]. by intros [= <- <-].
  - intros [= <- <-]. split; [done|]. by repeat split.
  - destruct (session_ s); [|done]. apply Hon; [done|]. apply post_within.
  - destruct (session_ s); [|done]. apply Hon; [done|]. apply post_within.
  - destruct (streams s !! id) as [st|]; [|done]. apply Hon; [done|]. by frame.
  - destruct (streams s !! id) as [st|]; [|done]. apply Hon; [done|]. by frame.
  - destruct (streams s !! id) as [st|]; [|done]. apply Hon; [done|]. by apply finish_erased_within.
Qed.

Lemma connection_within s e s' c : connection_env curl_easy_escape max_alloc s e = Some (s', c) →
  match e with
  | CallExecute a => s' = note_executed a s ∧ within keeps_executed c
  | CallStop => s' = s ∧ within removes_calls c
  | _ => quiet s s' ∧ within quiet c
  end.
Proof.
  destruct e as [tls| | | |a|e]; cbn [connection_env]; try (intros [= <- <-]; split; [done|]).
  - frame. apply life_cycle_within.
  - frame. by apply (life_cycle_within TlsReady).
  - frame. apply stop_within.
  - frame. by apply (life_cycle_within TlsReady).
  - frame. apply execute_within.
  - apply session_within.
Qed.

(** ** Every attempt is in one place *)

Definition attempts_in (m : gmap Uuid HttpContext) : list Attempt := (λ kc, mkAttempt kc.1 kc.2) <$> map_to_list m.

Section attempts.
(** The ids tell the contexts apart. *)
Context (context_of : Uuid → HttpContext).

(** The threads hold the attempts [l]. *)
Record calls_ok (s : Connection) (l : list Attempt) : Prop := {
  ok_attempts : executed s ≡ₚ l ++ (refused s).*1 ++ (finished s).*1 ++ attempts_in (pending_network_calls_ s);
  ok_contexts : ∀ a, a ∈ executed s → attempt_context a = context_of (attempt_id a);
  ok_posted : ∀ io request_id c, io_service_ s = Some io → Send request_id c ∈ posted io → c = context_of request_id;
  ok_streams : ∀ request_id st, streams s !! request_id = Some st → stream_context st = context_of request_id
}.

Lemma calls_ok_perm s l l' : l ≡ₚ l' → calls_ok s l → calls_ok s l'.
Proof. intros E [Hp ???]. split; try done. by rewrite Hp, E. Qed.

(** A change that does not touch the attempts. *)
Lemma calls_ok_same s s' l :
  executed s' = executed s → refused s' = refused s → finished s' = finished s →
  pending_network_calls_ s' = pending_network_calls_ s → streams s' = streams s →
  (∀ io', io_service_ s' = Some io' → posted io' = [] ∨ ∃ io, io_service_ s = Some io ∧ posted io' = posted io) →
  calls_ok s l → calls_ok s' l.
Proof.
  intros E1 E2 E3 E4 E5 E6 [H1 H2 H3 H4]. split; rewrite ?E1, ?E2, ?E3, ?E4, ?E5; try done.
  intros io' id c Eio Hin. destruct (E6 io' Eio) as [E|(io & E & Ep)]; rewrite ?E in Hin; [by apply not_elem_of_nil in Hin|].
  rewrite Ep in Hin. by eapply H3.
Qed.

Lemma update_service_ok f s l : (∀ io, posted (f io) = posted io) → calls_ok s l → calls_ok (update_service f s) l.
Proof.
  intros Hf. apply calls_ok_same; try done. cbn. intros io'. destruct (io_service_ s) as [io|]; [|done].
  intros [= <-]. right. exists io. by rewrite Hf.
Qed.

#[local] Abbreviation keeps := (owns calls_ok).

(** The tactic for an action that does not touch the attempts. *)
Ltac same :=
  let HI := fresh "HI" in
  intros ? ? HI; eapply calls_ok_same; [..|exact HI]; try done; cbn; intros ? ?; right; eauto.

Lemma append_handler_ok g h s l : (∀ request_id c, h = Send request_id c → c = context_of request_id) →
  calls_ok s l → calls_ok (append_handler g h s).1 l.
Proof.
  intros Hh HI. unfold append_handler. destruct (io_service_ s) as [io|] eqn:Eio; [|done].
  destruct (bool_decide _); [|done]. destruct HI as [H1 H2 H3 H4]. split; try done. cbn.
  intros ? id c [= <-]. cbn. rewrite elem_of_app, list_elem_of_singleton. intros [Hin|<-]; [by eapply H3|by apply Hh].
Qed.

Lemma post_keeps h k l : (∀ request_id c, h = Send request_id c → c = context_of request_id) →
  keeps (k tt) l → keeps (post h ≫= k) l.
Proof.
  intros Hh Hk. apply owns_bind_assoc, owns_reads. intros [io|]; [|done]. apply owns_bind_assoc.
  apply (owns_atomically _ _ _ _ l); [intros s rest HI; by apply append_handler_ok|]. intros [[]|]; done.
Qed.

Lemma attempts_delete m request_id c : m !! request_id = Some c →
  attempts_in m ≡ₚ mkAttempt request_id c :: attempts_in (delete request_id m).
Proof. intros E. unfold attempts_in. by rewrite <-(map_to_list_delete m _ _ E). Qed.

Lemma attempts_insert m request_id c : m !! request_id = None →
  attempts_in (<[request_id := c]> m) ≡ₚ mkAttempt request_id c :: attempts_in m.
Proof. intros E. unfold attempts_in. by rewrite map_to_list_insert. Qed.

(** The one whose [Erase] succeeds takes the attempt out of the map. *)
Lemma erase_ok request_id s l : calls_ok s l →
  let '(s', r) := erase request_id s in
  if Successful r then calls_ok s' (mkAttempt request_id (context_of request_id) :: l) else calls_ok s' l.
Proof.
  intros [H1 H2 H3 H4]. unfold erase, CM_Erase. destruct (pending_network_calls_ s !! request_id) as [c|] eqn:E; cbn.
  - pose proof (attempts_delete _ _ _ E) as Hd. assert (c = context_of request_id) as ->.
    { apply (H2 (mkAttempt request_id c)). rewrite H1, Hd. set_solver. }
    split; try done. cbn. rewrite H1, Hd. solve_Permutation.
  - split; try done.
Qed.

Lemma finish_call_ok a r response s l : calls_ok s (a :: l) → calls_ok (finish a r response s) l.
Proof.
  intros [H1 H2 H3 H4]. split; try done. cbn. rewrite H1, fmap_app. cbn. solve_Permutation.
Qed.

Lemma erased_keeps request_id k :
  (∀ r, Successful r = true → keeps (k r) [mkAttempt request_id (context_of request_id)]) →
  (∀ r, Successful r = false → keeps (k r) []) → keeps (atomically (erase request_id) ≫= k) [].
Proof.
  intros H1 H2. apply owns_action. intros s rest HI. pose proof (erase_ok request_id s rest HI) as He.
  destruct (erase request_id s) as [s' r]. cbn. destruct (Successful r) eqn:Er; (eexists; split; [|by eauto]); done.
Qed.

Lemma finish_erased_keeps a r response c k : attempt_context a = context_of (attempt_id a) →
  keeps (c ≫= k) [] → keeps (k tt) [] → keeps (finish_erased a r response c ≫= k) [].
Proof.
  intros Ha Hc Hk. apply owns_bind_assoc, erased_keeps; intros erased Er; rewrite Er; cbn [negb]; [|done].
  apply owns_bind_assoc. apply (owns_modifies _ _ _ _ []); [|done]. intros s rest HI. apply finish_call_ok.
  destruct a as [id c']. cbn in *. by rewrite Ha.
Qed.

Lemma cancel_call_keeps key k : keeps (k tt) [] → keeps (cancel_call key ≫= k) [].
Proof.
  intros Hk. apply owns_bind_assoc. intros s0 rest0 HI0. exists []. split; [done|]. cbn [fst snd].
  unfold CM_Find. destruct (pending_network_calls_ s0 !! key) as [c|] eqn:E; [|done]. cbn [fst snd].
  change (Successful SuccessExecutionResult) with true. cbn [negb]. cbn [deref]. apply owns_bind_assoc.
  assert (c = context_of key) as ->.
  { apply (ok_contexts _ _ HI0 (mkAttempt key c)). rewrite (ok_attempts _ _ HI0), (attempts_delete _ _ _ E). set_solver. }
  apply erased_keeps; intros erased Er; rewrite Er; cbn [negb]; [|done].
  apply owns_bind_assoc, owns_reads. intros dropped. apply (owns_modifies _ _ _ _ []); [|done].
  intros s rest HI. by apply finish_call_ok.
Qed.

Lemma cancel_keeps k : keeps (k tt) [] → keeps (CancelPendingCallbacks ≫= k) [].
Proof.
  intros Hk. apply owns_bind_assoc, owns_reads. intros [r keys]. cbn [fst snd]. destruct (Successful r); [|done].
  cbn [negb]. apply owns_for_all; [|done]. intros key k'. apply cancel_call_keeps.
Qed.

Lemma connection_init_keeps tls : keeps (ignore (Init tls)) [].
Proof.
  unfold ignore, Init. apply owns_bind_assoc, (owns_atomically _ _ _ _ []).
  - intros s rest HI. unfold new_service. destruct (worker_ s); [|done|..];
      (eapply calls_ok_same; [..|exact HI]; try done; cbn; intros io' [= <-]; by left).
  - intros [[]|]; [|done]. destruct tls; [|done|done]. cbn [deref mbind code_bind].
    apply owns_bind_assoc, (owns_modifies _ _ _ _ []); [same|done].
Qed.

Lemma run_connection_keeps : keeps (ignore Run) [].
Proof.
  unfold ignore, Run. apply owns_bind_assoc, (owns_atomically _ _ _ _ []).
  - intros s rest HI. unfold start_worker. destruct (worker_ s); try done;
      (eapply calls_ok_same; [..|exact HI]; try done; cbn; intros io ?; right; eauto).
  - by intros [[]|].
Qed.

Lemma join_ok s l s' b : calls_ok s l → join s = Some (s', b) → calls_ok s' l.
Proof.
  intros HI. unfold join. destruct (worker_ s); intros [= <- <-]; try done.
  eapply calls_ok_same; [..|exact HI]; try done. cbn. intros io ?. right. eauto.
Qed.

Lemma stop_service_keeps k : (∀ b, keeps (k b) []) → keeps (stop_service ≫= k) [].
Proof.
  intros Hk. unfold stop_service. apply owns_bind_assoc, owns_reads. intros session. apply owns_bind_assoc.
  assert (∀ k', keeps (k' tt) [] → keeps ((if session then post ShutdownSession else mret tt) ≫= k') []) as Hif.
  { intros k' Hk'. destruct session; [by apply post_keeps|done]. }
  apply Hif. apply owns_bind_assoc, (owns_modifies _ _ _ _ []); [same|].
  apply owns_bind_assoc, owns_reads. intros [io|]; [|done].
  apply owns_bind_assoc, owns_bind_assoc, (owns_modifies _ _ _ _ []).
  { intros s rest HI. by apply update_service_ok. }
  apply owns_bind_assoc, post_keeps; [done|]. apply owns_bind_assoc, owns_reads. intros [waits|]; [apply Hk|done].
Qed.

Lemma stop_connection_keeps k : (∀ r, keeps (k r) []) → keeps (Stop ≫= k) [].
Proof.
  intros Hk. unfold Stop. apply owns_bind_assoc, stop_service_keeps. intros waits.
  assert (∀ k', (∀ b, keeps (k' b) []) → keeps ((if waits then awaits join else mret true) ≫= k') []) as Hwait.
  { intros k' Hk'. destruct waits; [|apply Hk']. apply (owns_awaits _ _ _ _ []); [|done].
    intros s rest s' b HI E. by eapply join_ok. }
  apply owns_bind_assoc, Hwait. intros []; cbn [negb]; [|apply Hk]. apply owns_bind_assoc, cancel_keeps. apply Hk.
Qed.

Lemma reset_keeps : keeps (ignore Reset) [].
Proof.
  unfold ignore, Reset. do 2 (apply owns_bind_assoc, (owns_modifies _ _ _ _ []); [same|]). by apply (owns_modifies _ _ _ _ []); [same|].
Qed.

Lemma refuse_ok a r s l : calls_ok s (a :: l) → calls_ok (refuse a r s) l.
Proof. intros [H1 H2 H3 H4]. split; try done. cbn. rewrite H1, fmap_app. cbn. solve_Permutation. Qed.

Lemma insert_call_ok a s l : calls_ok s (a :: l) → calls_ok (insert_call a s).1 l.
Proof.
  intros HI. unfold insert_call, CM_Insert. destruct (_ !! attempt_id a) as [c|] eqn:E.
  - by apply (refuse_ok _ _ s).
  - destruct HI as [H1 H2 H3 H4]. split; try done. destruct a as [id c].
    change (executed s ≡ₚ l ++ (refused s).*1 ++ (finished s).*1 ++ attempts_in (<[id := c]> (pending_network_calls_ s))).
    rewrite attempts_insert by done. rewrite H1. solve_Permutation.
Qed.

Lemma execute_keeps a k : attempt_context a = context_of (attempt_id a) → (∀ r, keeps (k r) []) → keeps (Execute a ≫= k) [a].
Proof.
  intros Ha Hk. unfold Execute. apply owns_bind_assoc, owns_reads. intros []; cbn [negb].
  - apply owns_bind_assoc, (owns_atomically _ _ _ _ []); [intros s rest HI; by apply insert_call_ok|].
    intros r. destruct (Successful r); cbn [negb]; [|apply Hk]. apply owns_bind_assoc, post_keeps; [by intros ? ? [= <- <-]|apply Hk].
  - apply owns_bind_assoc, (owns_modifies _ _ _ _ []); [|apply Hk]. intros s rest HI. by apply refuse_ok.
Qed.

(** ** The worker's code *)

Lemma open_stream_ok request_id st s l : stream_context st = context_of request_id →
  calls_ok s l → calls_ok (open_stream request_id st s) l.
Proof.
  intros Hst [H1 H2 H3 H4]. split; try done. cbn. intros id st'. rewrite lookup_insert_Some. intros [[<- <-]|[_ E]]; [done|by apply H4].
Qed.

Lemma send_keeps answers a k : attempt_context a = context_of (attempt_id a) →
  keeps (k tt) [] → keeps (SendHttpRequest curl_easy_escape answers a ≫= k) [].
Proof.
  intros Ha Hk. unfold SendHttpRequest. destruct (method_tag _) as [tag|]; [|by apply finish_erased_keeps].
  destruct (request_body _) as [body|]; [|done]. cbn [deref mbind code_bind]. destruct (ToString _); [|done]. cbn [deref].
  destruct (GetEscapedUriWithQuery _ _ _) as [[r|uri]|]; [by apply finish_erased_keeps| |done]. cbn [deref].
  apply owns_bind_assoc, owns_reads. intros []; cbn [negb]; [|done].
  destruct (submit_ok answers); cbn [negb].
  - apply (owns_modifies _ _ _ _ []); [|done]. intros s rest HI. by apply open_stream_ok.
  - apply finish_erased_keeps; [done| |done]. by apply post_keeps.
Qed.

Lemma handler_keeps answers h k : (∀ request_id c, h = Send request_id c → c = context_of request_id) →
  keeps (k tt) [] → keeps (handler_code curl_easy_escape answers h ≫= k) [].
Proof.
  intros Hh Hk. destruct h as [| | | |id c]; cbn [handler_code].
  - apply owns_bind_assoc, owns_reads. by intros [].
  - apply (owns_modifies _ _ _ _ []); [|done]. intros s rest HI. by apply update_service_ok.
  - apply (owns_modifies _ _ _ _ []); [same|done].
  - apply owns_bind_assoc, (owns_modifies _ _ _ _ []); [same|]. apply owns_bind_assoc, (owns_modifies _ _ _ _ []); [same|].
    by apply cancel_keeps.
  - apply send_keeps; [by apply Hh|done].
Qed.

Lemma on_worker_ok c s l s' c' : Some (on_worker c s) = Some (s', c') → calls_ok s l →
  (∀ k, keeps (k tt) [] → keeps (c ≫= k) []) → keeps c' [] ∧ calls_ok s' l.
Proof.
  intros E HI Hc. injection E as <- <-. split; [|by apply update_service_ok]. apply Hc. apply (owns_modifies _ _ Ret _ []); [|done].
  intros s' rest HI'. by apply update_service_ok.
Qed.

Lemma session_env_ok s e s' c l : calls_ok s l → session_env curl_easy_escape max_alloc s e = Some (s', c) →
  keeps c [] ∧ calls_ok s' l.
Proof.
  intros HI E. unfold session_env in E. destruct (idle_service s) as [io|] eqn:Ei; [|done]. cbn [mbind option_bind] in E.
  assert (io_service_ s = Some io) as Eio.
  { unfold idle_service in Ei. destruct (worker_ s), (io_service_ s) as [io'|]; try done. destruct (busy io'); congruence. }
  assert (∀ id st r k, streams s !! id = Some st → keeps (k tt) [] →
    keeps ((r ← deref r; modifies (update_response id st r)) ≫= k) []) as Hupd.
  { intros id st [r|] k Est Hk; [|done]. apply (owns_modifies _ _ _ _ []); [|done]. intros s1 rest HI1.
    apply open_stream_ok; [|done]. exact (ok_streams _ _ HI _ _ Est). }
  destruct e as [answers| | | | |id code header n|id data|id error_code].
  - destruct (stopped io), (posted io) as [|h rest] eqn:Ep; try done. apply (on_worker_ok _ _ _ _ _ E).
    + destruct HI as [H1 H2 H3 H4]. split; try done. cbn. intros ? id c' [= <-] Hin. eapply H3; [done|]. rewrite Ep. by constructor.
    + intros k Hk. apply handler_keeps; [|done]. intros id c' ->. eapply (ok_posted _ _ HI); [done|]. rewrite Ep. by constructor.
  - destruct (_ || _); [|done]. injection E as <- <-. split; [done|]. eapply calls_ok_same; [..|exact HI]; try done.
    intros io' E'. right. eauto.
  - injection E as <- <-. split; [|by apply update_service_ok]. unfold worker_throws.
    apply (owns_modifies _ _ _ _ []); [same|]. apply (owns_modifies _ _ _ _ []); [same|]. apply (owns_modifies _ _ Ret _ []); [same|done].
  - destruct (session_ s); [|done]. apply (on_worker_ok _ _ _ _ _ E); [done|]. intros k Hk. by apply post_keeps.
  - destruct (session_ s); [|done]. apply (on_worker_ok _ _ _ _ _ E); [done|]. intros k Hk. by apply post_keeps.
  - destruct (streams s !! id) as [st|] eqn:Est; [|done]. apply (on_worker_ok _ _ _ _ _ E); [done|]. intros k Hk. by apply Hupd.
  - destruct (streams s !! id) as [st|] eqn:Est; [|done]. apply (on_worker_ok _ _ _ _ _ E); [done|]. intros k Hk. by apply Hupd.
  - destruct (streams s !! id) as [st|] eqn:Est; [|done]. apply (on_worker_ok _ _ _ _ _ E).
    + destruct HI as [H1 H2 H3 H4]. split; try done. cbn. intros id' st'. rewrite lookup_delete_Some. intros [_ E']. by apply H4.
    + intros k Hk. apply finish_erased_keeps; [|done|done]. by apply (ok_streams _ _ HI).
Qed.

Definition event_ok (e : ConnectionEvent) : Prop :=
  match e with CallExecute a => attempt_context a = context_of (attempt_id a) | _ => True end.

Lemma connection_env_ok s e s' c l : event_ok e → calls_ok s l →
  connection_env curl_easy_escape max_alloc s e = Some (s', c) → ∃ l', keeps c l' ∧ calls_ok s' (l' ++ l).
Proof.
  intros He HI E. destruct e as [tls| | | |a|e]; cbn in E; try (injection E as <- <-).
  - exists []. split; [apply connection_init_keeps|done].
  - exists []. split; [apply run_connection_keeps|done].
  - exists []. split; [by apply stop_connection_keeps|done].
  - exists []. split; [apply reset_keeps|done].
  - exists [a]. split; [by apply execute_keeps|]. destruct HI as [H1 H2 H3 H4]. split; try done; cbn.
    + by rewrite H1.
    + intros a' [->|Ha']%elem_of_cons; [done|by apply H2].
  - exists []. by eapply session_env_ok.
Qed.
End attempts.

(** ** Attempts *)

Definition attempts_of : list (@ThreadEvent ConnectionEvent) → list Attempt :=
  brought (λ e, match e with CallExecute a => [a] | _ => [] end).

#[local] Abbreviation runs w evs rs w' := (run_ops (connection_step curl_easy_escape max_alloc) w evs = Some (rs, w')).

(** [executed] are the attempts of the callers. *)
Lemma executed_run evs w rs w' : Forall (within keeps_executed) (threads w) → runs w evs rs w' →
  executed (shared w') ≡ₚ attempts_of evs ++ executed (shared w).
Proof.
  apply ghost_run. intros s e s' c Ee. apply connection_within in Ee.
  destruct e; destruct Ee as [Hs Hc]; try (split; [by rewrite (proj1 Hs)|eapply within_mono; [|exact Hc]; by intros ? ? []]).
  - rewrite Hs. split; [done|]. eapply within_mono; [|exact Hc]. by intros ? ? [].
  - by rewrite Hs.
Qed.

(** The context of an id, among attempts whose ids are distinct. *)
Definition context_in (l : list Attempt) (id : Uuid) : HttpContext :=
  default (mkHttpContext 0 (mkHttpRequest GET None None None (BytesBuffer_of_size 0)) kZeroUuid)
    ((list_to_map ((λ a, (attempt_id a, attempt_context a)) <$> l) : gmap Uuid HttpContext) !! id).

Lemma context_in_attempts l a : NoDup (attempt_id <$> l) → a ∈ l → attempt_context a = context_in l (attempt_id a).
Proof.
  intros Hnd Ha. unfold context_in. rewrite (elem_of_list_to_map_1 _ _ (attempt_context a)); [done| |].
  - by rewrite <-list_fmap_compose.
  - by apply (list_elem_of_fmap_2 (λ a, (attempt_id a, attempt_context a))).
Qed.

Lemma new_connection_ok context_of : world_ok (calls_ok context_of) (mkWorld new_connection []) [].
Proof. split; [constructor|]. split; cbn; [done|intros a Ha; by apply not_elem_of_nil in Ha|done|intros id st; by rewrite lookup_empty]. Qed.

Lemma connection_run_ok evs rs w : runs (mkWorld new_connection []) evs rs w → NoDup (attempt_id <$> attempts_of evs) →
  ∃ ls, world_ok (calls_ok (context_in (attempts_of evs))) w ls.
Proof.
  intros E Hnd. eapply owns_run; [apply calls_ok_perm|apply (connection_env_ok (context_in (attempts_of evs)))| |apply new_connection_ok|exact E].
  assert (∀ a, a ∈ attempts_of evs → attempt_context a = context_in (attempts_of evs) (attempt_id a)) as Hin.
  { intros a. by apply context_in_attempts. }
  revert Hin. generalize (context_in (attempts_of evs)). intros F Hin. clear E Hnd. induction evs as [|ev evs IH]; [done|].
  constructor; [destruct ev as [[]|]; cbn; try done; apply Hin; by left|]. apply IH. intros a Ha. apply Hin.
  cbn. destruct ev as [[]|]; try done. by right.
Qed.

Lemma attempts_placed evs rs w : runs (mkWorld new_connection []) evs rs w → NoDup (attempt_id <$> attempts_of evs) →
  ∃ l, attempts_of evs ≡ₚ l ++ (refused (shared w)).*1 ++ (finished (shared w)).*1 ++ attempts_in (pending_network_calls_ (shared w)) ∧
    (ended w = true → l = []).
Proof.
  intros E Hnd. destruct (connection_run_ok _ _ _ E Hnd) as [ls Hw].
  assert (executed (shared w) ≡ₚ attempts_of evs) as Hex
    by (by rewrite (executed_run _ (mkWorld new_connection []) _ _ (Forall_nil_2 _) E), app_nil_r).
  destruct (ended w) eqn:He.
  - exists []. split; [|done]. by rewrite <-Hex, (ok_attempts _ _ _ (ended_owns_nothing _ _ _ Hw He)).
  - exists (concat ls). split; [|done]. by rewrite <-Hex, (ok_attempts _ _ _ (proj2 Hw)).
Qed.

(** In every interleaving of the calls of a connection with its worker and the callbacks of
    nghttp2, through drops, stops and recyclings, and when each attempt has an id of its own: no
    context is finished twice, one that [Execute] returned a failure for is not finished at all, and
    when no call is under way the attempts that are neither are those of the pending calls. *)
Theorem connection_finishes_once evs rs w :
  runs (mkWorld new_connection []) evs rs w → NoDup (attempt_id <$> attempts_of evs) →
  NoDup ((refused (shared w)).*1 ++ (finished (shared w)).*1) ∧
  (refused (shared w)).*1 ++ (finished (shared w)).*1 ⊆ attempts_of evs ∧
  (ended w = true → (refused (shared w)).*1 ++ (finished (shared w)).*1 ++ attempts_in (pending_network_calls_ (shared w)) ≡ₚ
    attempts_of evs).
Proof.
  intros E Hnd. destruct (attempts_placed _ _ _ E Hnd) as (l & HP & Hl). assert (NoDup (attempts_of evs)) as Hnd' by (by apply NoDup_fmap_1 in Hnd).
  split; [|split].
  - rewrite HP in Hnd'. apply NoDup_app in Hnd' as (_ & _ & Hnd'). rewrite app_assoc in Hnd'. by apply NoDup_app in Hnd' as (? & _ & _).
  - intros a Ha. rewrite HP. rewrite !elem_of_app in *. tauto.
  - intros He. by rewrite HP, Hl.
Qed.

(** ** [Stop] *)

(** What a thread is about to do with pending calls: cancel all of them (of a worker that it can join, or at once), or one. *)
Inductive Task := JoinThenCancel | CancelAll | CancelOne (key : Uuid).

Definition stops (t : Task) : bool := match t with CancelOne _ => false | _ => true end.

(** What is pending is for one of the threads to cancel, and there is one [Stop] at most. *)
Record to_cancel (s : Connection) (l : list Task) : Prop := {
  tc_joins : JoinThenCancel ∈ l → joinable s = Some true;
  tc_calls : JoinThenCancel ∈ l ∨ CancelAll ∈ l ∨ ∀ key, is_Some (pending_network_calls_ s !! key) → CancelOne key ∈ l;
  tc_one : (length (filter stops l) ≤ 1)%nat
}.

Lemma to_cancel_perm s l l' : l ≡ₚ l' → to_cancel s l → to_cancel s l'.
Proof. intros E [H1 H2 H3]. split; [by rewrite <-E| |by rewrite <-E]. setoid_rewrite <-E. done. Qed.

Lemma to_cancel_quiet s s' l : quiet s s' → to_cancel s l → to_cancel s' l.
Proof.
  intros (_ & Hp & Hj) [H1 H2 H3]. split; [by auto| |done]. destruct H2 as [?|[?|H2]]; [by left|by right; left|right; right].
  intros key [c Hc]. apply H2. exists c. by eapply lookup_weaken.
Qed.

#[local] Abbreviation cancels := (owns to_cancel).

Lemma cancel_one_cancels key k keys :
  cancels (k tt) (CancelOne <$> keys) → cancels (cancel_call key ≫= k) (CancelOne <$> key :: keys).
Proof.
  intros Hk. assert (∀ s rest, pending_network_calls_ s !! key = None → to_cancel s ((CancelOne <$> key :: keys) ++ rest) →
    to_cancel s ((CancelOne <$> keys) ++ rest)) as Hdrop.
  { intros s rest E [H1 H2 H3]. split.
    - intros H. apply H1. by right.
    - destruct H2 as [H|[H|H]].
      + left. by apply elem_of_cons in H as [|].
      + right. left. by apply elem_of_cons in H as [|].
      + right. right. intros key' Hkey'. pose proof (H key' Hkey') as Hin. apply elem_of_cons in Hin as [Hin|]; [|done].
        simplify_eq. rewrite E in Hkey'. by destruct Hkey'.
    - done. }
  apply owns_bind_assoc, owns_action. intros s rest HI.
  destruct (pending_network_calls_ s !! key) as [c|] eqn:E.
  - exists (CancelOne <$> key :: keys). split; [done|]. cbn [fst snd]. unfold CM_Find. rewrite E. cbn [fst snd]. change (Successful SuccessExecutionResult) with true. cbn [negb deref].
    apply owns_bind_assoc, owns_bind_assoc, owns_action. clear s rest HI E. intros s rest HI.
    exists (CancelOne <$> keys). split.
    + pose proof (proj1 (erase_within key) s) as Hq. apply (to_cancel_quiet _ _ _ Hq) in HI. apply Hdrop; [|exact HI].
      unfold erase, CM_Erase. destruct (pending_network_calls_ s !! key) eqn:E; [apply lookup_delete_eq|exact E].
    + destruct (negb _); [done|]. apply (within_owns_bind _ quiet); [apply to_cancel_quiet| |by intros []]. by frame.
  - exists (CancelOne <$> keys). split; [by apply Hdrop|]. cbn [fst snd]. unfold CM_Find. by rewrite E.
Qed.

Lemma cancel_all_cancels k : cancels (k tt) [] → cancels (CancelPendingCallbacks ≫= k) [CancelAll].
Proof.
  intros Hk. apply owns_bind_assoc, owns_action. intros s rest [H1 H2 H3]. exists (CancelOne <$> (map_to_list (pending_network_calls_ s)).*1).
  split.
  - assert (filter stops (CancelOne <$> (map_to_list (pending_network_calls_ s)).*1) = []) as Ef.
    { generalize (map_to_list (pending_network_calls_ s)).*1. intros l. by induction l. }
    split.
    + intros H. apply H1. rewrite elem_of_app in H. destruct H as [H|H]; [|by right]. by apply list_elem_of_fmap in H as (? & ? & _).
    + right. right. intros key [c Hc]. apply elem_of_app. left. apply list_elem_of_fmap_2, list_elem_of_fmap.
      exists (key, c). split; [done|]. by apply elem_of_map_to_list.
    + rewrite filter_app, Ef. rewrite filter_app in H3. cbn [app length] in H3 |- *. change (filter stops [CancelAll]) with [CancelAll] in H3. cbn in H3. lia.
  - unfold CM_Keys. cbn [fst snd]. change (Successful SuccessExecutionResult) with true. cbn [negb].
    generalize (map_to_list (pending_network_calls_ s)).*1. intros keys. induction keys as [|key keys IH]; [done|].
    apply owns_bind_assoc. by apply cancel_one_cancels.
Qed.

Lemma stop_cancels : cancels (ignore Stop) [CancelAll].
Proof.
  unfold ignore, Stop, stop_service. assert (∀ A (c : Code Connection A) k, within quiet c → (∀ a, cancels (k a) [CancelAll]) → cancels (c ≫= k) [CancelAll]) as Hq.
  { intros A c k. apply within_owns_bind, to_cancel_quiet. }
  apply owns_bind_assoc, owns_bind_assoc, Hq; [by frame|]. intros session. apply owns_bind_assoc, Hq; [frame; apply post_within|]. intros _.
  apply owns_bind_assoc, Hq; [by frame|]. intros _. apply owns_bind_assoc, Hq; [by frame|]. intros io.
  apply owns_bind_assoc, Hq; [by frame|]. intros _. apply owns_bind_assoc, Hq; [by frame|]. intros _.
  apply owns_bind_assoc, Hq; [apply post_within|]. intros _.
  assert (cancels (_ ← (_ ← CancelPendingCallbacks; mret SuccessExecutionResult); mret tt) [CancelAll]) as Hcancel.
  { by apply owns_bind_assoc, cancel_all_cancels. }
  apply owns_bind_assoc, owns_action. intros s rest HI. destruct (joinable s) as [[]|] eqn:Ej; [| |by exists [CancelAll]].
  - exists [JoinThenCancel]. split; [destruct HI as [H1 H2 H3]; split; [done|by left; left|done]|]. cbn [deref mbind code_bind snd].
    clear s rest HI Ej. intros s rest s' joined [H1 H2 H3] E. exists [CancelAll].
    specialize (H1 (list_elem_of_here _ _)). unfold joinable in H1. unfold join in E.
    destruct (worker_ s); try done. injection E as <- <-. split; [|exact Hcancel]. split; [|by right; left; left|done].
    intros H. apply elem_of_cons in H as [|H]; [done|]. exfalso.
    assert (In JoinThenCancel (filter stops rest)) as Hin by (apply list_elem_of_In, list_elem_of_filter; done).
    rewrite filter_app in H3. change (filter stops [JoinThenCancel]) with [JoinThenCancel] in H3.
    destruct (filter stops rest); [done|]. cbn in H3. lia.
  - exists [CancelAll]. split; [done|]. exact Hcancel.
Qed.

Definition quiet_event (e : ConnectionEvent) : Prop := match e with CallStop | CallExecute _ => False | _ => True end.
#[local] Abbreviation quiet_events := (Forall (λ ev, match ev with Env e => quiet_event e | Threads.Run _ => True end)).

Lemma quiet_event_cancels s e s' c l : quiet_event e → to_cancel s l →
  connection_env curl_easy_escape max_alloc s e = Some (s', c) → ∃ l', cancels c l' ∧ to_cancel s' (l' ++ l).
Proof.
  intros He HI E. apply connection_within in E. exists [].
  destruct e; try done; destruct E as [Hs Hc]; (split; [by eapply within_owns; [apply to_cancel_quiet|]|by eapply to_cancel_quiet]).
Qed.

Lemma quiet_attempts evs : quiet_events evs → attempts_of evs = [].
Proof. induction 1 as [|[e|i] evs He Hevs IH]; [done| |done]. by destruct e. Qed.

Lemma ended_forall (w : World Connection) : ended w = true → Forall (λ c, c = Ret tt) (threads w).
Proof. intros He. apply Is_true_true, forallb_True in He. eapply Forall_impl; [exact He|]. by intros [[]| | |]. Qed.

(** A [Stop] that has just been called *)
Lemma stop_to_cancel w : ended w = true →
  world_ok to_cancel (mkWorld (shared w) (threads w ++ [ignore Stop])) (((λ _, []) <$> threads w) ++ [[CancelAll]]).
Proof.
  intros He. split; cbn.
  - apply Forall2_app; [|constructor; [apply stop_cancels|constructor]]. apply Forall2_fmap_r, Forall_Forall2_diag.
    eapply Forall_impl; [by apply ended_forall|]. by intros c ->.
  - rewrite concat_app. assert (concat ((λ _, []) <$> threads w) = ([] : list Task)) as -> by (by induction (threads w)).
    split; [|by right; left; left|done]. intros H. apply elem_of_cons in H as [|H]; [done|by apply not_elem_of_nil in H].
Qed.

Lemma run_cancels evs w ls rs w' : quiet_events evs → world_ok to_cancel w ls → runs w evs rs w' → ∃ ls', world_ok to_cancel w' ls'.
Proof. intros Hq Hw E. eapply owns_run; [apply to_cancel_perm|apply quiet_event_cancels|exact Hq|exact Hw|exact E]. Qed.

(** C20: [Stop] leaves nothing behind: when it is called while no other call is under way, and no
    [Execute] and no other [Stop] comes next to it, then, however the worker and the callbacks go on,
    once all threads have come to their end there is no pending call, and every context that [Execute]
    has accepted is finished. *)
Theorem connection_stop_finishes_all evs rs w evs' rs' w' :
  runs (mkWorld new_connection []) evs rs w → NoDup (attempt_id <$> attempts_of evs) → ended w = true →
  runs w (Env CallStop :: evs') rs' w' → quiet_events evs' → ended w' = true →
  pending_network_calls_ (shared w') = ∅ ∧ (refused (shared w')).*1 ++ (finished (shared w')).*1 ≡ₚ attempts_of evs.
Proof.
  intros E Hnd He E' Hq He'.
  assert (attempts_of (evs ++ Env CallStop :: evs') = attempts_of evs) as Ha.
  { unfold attempts_of, brought. rewrite bind_app. cbn. pose proof (quiet_attempts evs' Hq) as Hqa. unfold attempts_of, brought in Hqa. by rewrite Hqa, app_nil_r. }
  assert (pending_network_calls_ (shared w') = ∅) as Hp.
  { clear E Hnd Ha. cbn [run_ops connection_step thread_step connection_env mbind option_bind fst snd] in E'.
    destruct (run_ops _ _ evs') as [[rs2 w2]|] eqn:E2; [|done]. injection E' as _ <-.
    destruct (run_cancels _ _ _ _ _ Hq (stop_to_cancel w He) E2) as [ls Hls].
    destruct (ended_owns_nothing _ _ _ Hls He') as [_ [H|[H|H]] _]; [by apply not_elem_of_nil in H..|].
    apply map_empty. intros key. destruct (_ !! key) eqn:Ek; [|done]. specialize (H key (mk_is_Some _ _ Ek)). by apply not_elem_of_nil in H. }
  split; [done|]. destruct (attempts_placed (evs ++ Env CallStop :: evs') (rs ++ rs') w') as (l & HP & Hl); [by eapply run_two|by rewrite Ha|].
  rewrite Ha, Hp, Hl in HP by done. by rewrite HP, app_nil_r.
Qed.

(** ** Code that runs alone *)

Definition drop_result (dropped : bool) : ExecutionResult :=
  if dropped then RetryExecutionResult SC_HTTP2_CLIENT_CONNECTION_DROPPED
  else FailureExecutionResult SC_HTTP2_CLIENT_CONNECTION_DROPPED.

(** All that is pending is finished with the result of a connection that is gone. *)
Definition cancelled (s : Connection) : Connection :=
  mkConnection (is_ready_ s) (is_dropped_ s) ∅ (io_service_ s) (worker_ s) (session_ s) (streams s)
    (finished s ++ ((λ a, (a, (drop_result (is_dropped_ s), None))) <$> attempts_in (pending_network_calls_ s)))
    (refused s) (executed s).

Lemma cancel_loop_runs l s : NoDup l.*1 → pending_network_calls_ s = list_to_map l →
  run_code (for_all l.*1 cancel_call) s = Some (
    mkConnection (is_ready_ s) (is_dropped_ s) ∅ (io_service_ s) (worker_ s) (session_ s) (streams s)
      (finished s ++ ((λ kc, (mkAttempt kc.1 kc.2, (drop_result (is_dropped_ s), None))) <$> l)) (refused s) (executed s), tt).
Proof.
  revert s. induction l as [|[key c] l IH]; intros s Hnd Hm.
  { cbn. rewrite app_nil_r. destruct s. cbn in *. by rewrite Hm. }
  apply NoDup_cons in Hnd as [Hk Hnd]. assert (pending_network_calls_ s !! key = Some c) as Hl by (rewrite Hm; apply lookup_insert_eq).
  cbn [fmap list_fmap fst for_all]. rewrite run_bind.
  assert (run_code (cancel_call key) s = Some (finish (mkAttempt key c) (drop_result (is_dropped_ s)) None
    (set_pending (delete key (pending_network_calls_ s)) s), tt)) as ->.
  { unfold cancel_call. rewrite run_bind. cbn [run_code reads atomically mbind option_bind]. unfold CM_Find. rewrite Hl. cbn [fst snd].
    change (Successful SuccessExecutionResult) with true. cbn [negb deref]. cbn. unfold erase, CM_Erase. by rewrite Hl. }
  cbn [mbind option_bind]. rewrite IH; [|done|].
  - cbn. by rewrite <-app_assoc.
  - cbn. rewrite Hm. cbn. rewrite delete_insert_eq. apply delete_id, not_elem_of_list_to_map_1. done.
Qed.

Lemma cancel_runs s : run_code CancelPendingCallbacks s = Some (cancelled s, tt).
Proof.
  unfold CancelPendingCallbacks. rewrite run_bind. cbn [run_code reads atomically mbind option_bind]. unfold CM_Keys. cbn [fst snd].
  change (Successful SuccessExecutionResult) with true. cbn [negb]. rewrite cancel_loop_runs.
  - unfold cancelled, attempts_in. by rewrite <-list_fmap_compose.
  - apply NoDup_fst_map_to_list.
  - by rewrite list_to_map_to_list.
Qed.

(** When the connection drops, every pending call is given back to be retried, in one callback
    each, and no new call is accepted before the connection is recycled. *)
Theorem drop_gives_back_calls answers s :
  ∃ s', run_code (handler_code curl_easy_escape answers DropConnection) s = Some (s', tt) ∧
    is_dropped_ s' = true ∧ pending_network_calls_ s' = ∅ ∧
    finished s' = finished s ++
      ((λ a, (a, (RetryExecutionResult SC_HTTP2_CLIENT_CONNECTION_DROPPED, None))) <$> attempts_in (pending_network_calls_ s)) ∧
    ∀ a, run_code (Execute a) s' =
      Some (refuse a (RetryExecutionResult SC_HTTP2_CLIENT_NO_CONNECTION_ESTABLISHED) s',
            RetryExecutionResult SC_HTTP2_CLIENT_NO_CONNECTION_ESTABLISHED).
Proof. eexists. split; [exact (cancel_runs (set_dropped true (set_ready false s)))|]. by repeat split. Qed.

(** ** [Stop] returns *)

(** A request whose pointers are set, in a context whose id can be printed. *)
Definition sendable (c : HttpContext) : Prop :=
  is_Some (request_body (request c)) ∧ is_Some (path (request c)) ∧ is_Some (ToString (activity_id c)).

Definition answers_ok : SendAnswers := mkSendAnswers true true.

Lemma uri_runs c : sendable c → is_Some (GetEscapedUriWithQuery curl_easy_escape true (request c)).
Proof.
  intros (_ & [p Hp] & _). unfold GetEscapedUriWithQuery. rewrite Hp. destruct (query (request c)) as [[|ch q]|]; by eexists.
Qed.

(** The service of the connection after a handler. *)
Definition after_handler (h : Handler) (io : IoService) : IoService := match h with StopService => set_stopped io | _ => io end.

Lemma handler_runs h s io : session_ s = true → io_service_ s = Some io → (∀ id c, h = Send id c → sendable c) →
  ∃ s', run_code (handler_code curl_easy_escape answers_ok h) s = Some (s', tt) ∧
    io_service_ s' = Some (after_handler h io) ∧ worker_ s' = worker_ s ∧ session_ s' = true.
Proof.
  intros Hs Hio Hsend. destruct h as [| | | |id c].
  - exists s. cbn. rewrite Hs. by repeat split.
  - eexists. split; [done|]. cbn. by rewrite Hio.
  - eexists. by split.
  - eexists. split; [exact (cancel_runs (set_dropped true (set_ready false s)))|]. done.
  - specialize (Hsend id c eq_refl) as Hc. destruct (uri_runs _ Hc) as [uri Hu]. destruct Hc as ([body Hb] & _ & [act Ha]).
    cbn [handler_code]. unfold SendHttpRequest. cbn [attempt_context attempt_id curl_ok answers_ok].
    assert (∀ r, ∃ s', run_code (finish_erased (mkAttempt id c) r None (mret tt)) s = Some (s', tt) ∧
      io_service_ s' = Some io ∧ worker_ s' = worker_ s ∧ session_ s' = true) as Hf.
    { intros r. unfold finish_erased. rewrite run_bind. cbn [run_code atomically mbind option_bind]. unfold erase, CM_Erase. cbn [attempt_id].
      destruct (_ !! id); by eexists. }
    destruct (method_tag _) as [tag|]; [|apply Hf]. rewrite Hb, Hu. cbn [deref mbind code_bind].
    rewrite Ha. cbn [deref].
    destruct uri as [r|uri]; [apply Hf|]. eexists. split; [cbn; rewrite Hs; reflexivity|]. done.
Qed.

Definition sends_ok (l : list Handler) : Prop := ∀ id c, Send id c ∈ l → sendable c.

Lemma worker_takes h rest s io ts : idle_service s = Some io → stopped io = false → posted io = h :: rest →
  session_ s = true → (∀ id c, h = Send id c → sendable c) →
  ∃ evs rs s', runs (mkWorld s ts) evs rs (mkWorld s' (ts ++ [Ret tt])) ∧ quiet_events evs ∧ session_ s' = true ∧
    idle_service s' = Some (after_handler h (set_posted rest io)).
Proof.
  intros Hidle Hst Hp Hs Hsend.
  assert (worker_ s = Running ∧ io_service_ s = Some io ∧ busy io = false) as (Hw & Hio & Hb).
  { unfold idle_service in Hidle. destruct (worker_ s); try done. destruct (io_service_ s) as [io'|]; [|done].
    destruct (busy io') eqn:Eb; [done|]. injection Hidle as ->. done. }
  set (s1 := update_service (set_busy true) (set_service (Some (set_posted rest io)) s)).
  destruct (handler_runs h s1 (set_busy true (set_posted rest io)) Hs eq_refl Hsend) as (s2 & Er & Eio & Ew & Es).
  destruct (run_code_interleaves (connection_env curl_easy_escape max_alloc)
    (_ ← handler_code curl_easy_escape answers_ok h; modifies (update_service (set_busy false))) s1
    (update_service (set_busy false) s2) ts) as (n & rs & Erun); [by rewrite run_bind, Er|].
  eexists (Env (Session (WorkerTakes answers_ok)) :: replicate n (Threads.Run (length ts))), _, _. split; [|split; [|split]].
  - eapply run_step; [|exact Erun]. unfold connection_step. cbn [thread_step connection_env shared threads]. unfold session_env.
    rewrite Hidle. cbn [mbind option_bind]. by rewrite Hst, Hp.
  - constructor; [done|]. by apply Forall_replicate.
  - exact Es.
  - unfold idle_service. cbn. rewrite Ew, Eio. cbn. rewrite Hw. destruct io. cbn in Hb. subst. by destruct h.
Qed.

(** The worker runs what is posted, in order, up to the handler that stops the service. *)
Lemma worker_drains l s io ts : idle_service s = Some io → stopped io = false → posted io = l ++ [StopService] →
  session_ s = true → sends_ok l →
  ∃ evs rs s' ts', runs (mkWorld s ts) evs rs (mkWorld s' (ts ++ ts')) ∧ Forall (λ c, c = Ret tt) ts' ∧ quiet_events evs ∧
    ∃ io', idle_service s' = Some io' ∧ stopped io' = true.
Proof.
  revert s io ts. induction l as [|h l IH]; intros s io ts Hidle Hst Hp Hs Hl.
  - destruct (worker_takes _ _ s io ts Hidle Hst Hp Hs) as (evs & rs & s' & E & Hq & _ & Hi); [done|].
    exists evs, rs, s', [Ret tt]. split_and!; [done|by constructor|done|by eexists].
  - destruct (worker_takes _ _ s io ts Hidle Hst Hp Hs) as (evs & rs & s' & E & Hq & Hs' & Hi); [intros id c ->; apply (Hl id c); by left|].
    destruct (stopped (after_handler h (set_posted (l ++ [StopService]) io))) eqn:Est.
    { exists evs, rs, s', [Ret tt]. split_and!; [done|by constructor|done|by eexists]. }
    edestruct (IH s' _ (ts ++ [Ret tt]) Hi Est) as (evs2 & rs2 & s2 & ts2 & E2 & Ht & Hq2 & H2); [by destruct h|done|intros id c Hin; apply (Hl id c); by right|].
    exists (evs ++ evs2), (rs ++ rs2), s2, (Ret tt :: ts2). rewrite <-app_assoc in E2.
    split_and!; [by eapply run_two|by constructor|by apply Forall_app|done].
Qed.

#[local] Abbreviation finish_stop waits :=
  (joined ← (if waits : bool then awaits join else mret true);
   if negb joined then mret (FailureExecutionResult SC_HTTP2_CLIENT_CONNECTION_STOP_FAILED)
   else _ ← CancelPendingCallbacks; mret SuccessExecutionResult).

Lemma stop_service_runs s io : idle_service s = Some io → session_ s = true →
  ∃ s', run_code stop_service s = Some (s', true) ∧ session_ s' = true ∧
    idle_service s' = Some (mkIoService (generation io) ((posted io ++ [ShutdownSession]) ++ [StopService]) false (stopped io) false).
Proof.
  destruct s as [ready dropped pending [io'|] worker session st fin ref ex]; unfold idle_service; cbn; intros Hi ->; destruct worker; try done.
  destruct (busy io') eqn:Eb; [done|]. injection Hi as <-. eexists. unfold stop_service, post, append_handler. cbn.
  rewrite bool_decide_true by done. cbn. rewrite bool_decide_true by done. cbn. split; [reflexivity|]. cbn. rewrite Eb. split; [done|]. unfold set_posted, reset_guard. cbn. by rewrite Eb.
Qed.

Lemma finish_stop_runs s : worker_ s = Returned →
  ∃ s', run_code (ignore (finish_stop true)) s = Some (s', tt).
Proof.
  intros Hw. eexists. unfold ignore. rewrite run_bind, run_bind. cbn [run_code awaits]. unfold join. rewrite Hw.
  cbn [mbind option_bind negb]. rewrite run_bind, cancel_runs. reflexivity.
Qed.

(** [Stop] returns: called while no other call is under way and the worker runs, and with requests
    that can be sent, it comes to its end as soon as the worker has run what was posted, the handler
    that stops the service being the last. *)
Theorem connection_stop_returns w io :
  ended w = true → idle_service (shared w) = Some io → stopped io = false → session_ (shared w) = true → sends_ok (posted io) →
  ∃ evs rs w', runs w (Env CallStop :: evs) rs w' ∧ quiet_events evs ∧ ended w' = true ∧ pending_network_calls_ (shared w') = ∅.
Proof.
  intros He Hidle Hst Hs Hsend. destruct w as [s ts]. cbn [shared threads] in *.
  destruct (stop_service_runs s io Hidle Hs) as (s1 & E1 & Hs1 & Hi1).
  destruct (run_code_prefix (connection_env curl_easy_escape max_alloc) (λ c, ignore (waits ← c; finish_stop waits)) stop_service s s1 true ts [])
    as (n1 & rs1 & R1); [done|done|done|].
  edestruct (worker_drains (posted io ++ [ShutdownSession]) s1 _ (ts ++ [ignore (finish_stop true)]) Hi1 Hst eq_refl Hs1)
    as (evs2 & rs2 & s2 & ts2 & R2 & Ht2 & Hq2 & io2 & Hi2 & Hst2).
  { intros id c [H|H]%elem_of_app; [by apply (Hsend id c)|by apply list_elem_of_singleton in H]. }
  destruct (finish_stop_runs (set_worker Returned s2) eq_refl) as (s3 & E3).
  destruct (run_code_prefix (connection_env curl_easy_escape max_alloc) (λ c, c) (ignore (finish_stop true)) (set_worker Returned s2) s3 tt ts (ts2 ++ [Ret tt]))
    as (n3 & rs3 & R3); [done|done|done|].
  assert (runs (mkWorld s2 ((ts ++ [ignore (finish_stop true)]) ++ ts2)) [Env (Session WorkerReturns)] [tt]
    (mkWorld (set_worker Returned s2) (ts ++ ignore (finish_stop true) :: ts2 ++ [Ret tt]))) as RW.
  { unfold connection_step. cbn [run_ops thread_step connection_env shared threads]. unfold session_env. rewrite Hi2. cbn. rewrite Hst2. cbn.
    by rewrite <-!app_assoc. }
  eexists (replicate n1 (Threads.Run (length ts)) ++ (evs2 ++ [Env (Session WorkerReturns)]) ++ replicate n3 (Threads.Run (length ts))), _, _.
  split; [|split; [|split]].
  - eapply run_step; [reflexivity|]. eapply run_two; [exact R1|]. eapply run_two; [|exact R3]. eapply run_two; [exact R2|exact RW].
  - rewrite !Forall_app. repeat split; try (by apply Forall_replicate); try done. by repeat constructor.
  - unfold ended in *. cbn [threads] in *. rewrite forallb_app, He. cbn. rewrite forallb_app. cbn. rewrite andb_true_r.
    apply Is_true_true, forallb_True. eapply Forall_impl; [exact Ht2|]. by intros c ->.
  - cbn. revert E3. unfold ignore. rewrite run_bind, run_bind. cbn [run_code awaits join worker_ set_worker mbind option_bind negb].
    rewrite run_bind, cancel_runs. by intros [= <-].
Qed.
End spec.

(** ** Runs *)

Module ConnectionRuns.

Definition curl (s : string) : option string := Some s.
Abbreviation step := (connection_step curl 1000).
Abbreviation go i n := (replicate n (Threads.Run i)).
Abbreviation session e := (Env (Session e)).
Abbreviation takes := (session (WorkerTakes answers_ok)).

Definition get_request : HttpRequest := mkHttpRequest GET (Some "https://host/path") None None (BytesBuffer_of_size 0).
Definition attempt (i : Z) : Attempt := mkAttempt (mkUuid i 0) (mkHttpContext (Z.to_nat i) get_request kZeroUuid).

(** A connection that is ready. *)
Definition connect : list (@ThreadEvent ConnectionEvent) :=
  [Env (CallInit TlsReady)] ++ go 0%nat 2%nat ++ [Env CallRun] ++ go 1%nat 1%nat ++
  [session SessionConnected] ++ go 2%nat 3%nat ++ [takes] ++ go 3%nat 2%nat.

(** One call that is answered, one that is refused since its id is in use, and one that waits. *)
Definition calls : list (@ThreadEvent ConnectionEvent) :=
  connect ++ [Env (CallExecute (attempt 0))] ++ go 4%nat 4%nat ++ [takes] ++ go 5%nat 3%nat ++
  [session (StreamResponds (mkUuid 0 0) 200 [("a", "b")] 2)] ++ go 6%nat 2%nat ++
  [session (StreamReceives (mkUuid 0 0) [104; 105])] ++ go 7%nat 2%nat ++
  [session (StreamCloses (mkUuid 0 0) 0)] ++ go 8%nat 3%nat ++
  [Env (CallExecute (attempt 1))] ++ go 9%nat 4%nat.

(** [Stop], while the worker runs what was posted. *)
Definition stops_after : list (@ThreadEvent ConnectionEvent) :=
  go 10%nat 9%nat ++ [takes] ++ go 11%nat 3%nat ++ [takes] ++ go 12%nat 2%nat ++ [takes] ++ go 13%nat 2%nat ++
  [session WorkerReturns] ++ go 10%nat 6%nat.

Definition start : World Connection := mkWorld new_connection [].

Definition observe {A} (f : Connection → A) (evs : list (@ThreadEvent ConnectionEvent)) : option (A * bool) :=
  (λ '(_, w), (f (shared w), ended w)) <$> run_ops step start evs.

Lemma observe_connection {A} (f : Connection → A) evs a b : observe f evs = Some (a, b) →
  ∃ rs w, run_ops step start evs = Some (rs, w) ∧ f (shared w) = a ∧ ended w = b.
Proof. unfold observe. destruct (run_ops _ start evs) as [[rs w]|]; [|done]. cbn. intros [= <- <-]. eauto. Qed.

Lemma calls_ids : NoDup (attempt_id <$> attempts_of calls).
Proof. by apply (bool_decide_unpack _); vm_compute. Qed.

Lemma connection_finishes_once_witness :
  ∃ rs w, run_ops step start calls = Some (rs, w) ∧ (finished (shared w)).*1 = [attempt 0] ∧
    NoDup ((refused (shared w)).*1 ++ (finished (shared w)).*1).
Proof.
  destruct (observe_connection (λ s, (finished s).*1) calls [attempt 0] true) as (rs & w & E & Hf & He); [by vm_compute|].
  exists rs, w. split; [done|]. split; [done|]. by apply (connection_finishes_once curl 1000 calls rs w E calls_ids).
Defined.

Lemma connection_stop_finishes_all_witness :
  ∃ rs w rs' w', run_ops step start calls = Some (rs, w) ∧ run_ops step w (Env CallStop :: stops_after) = Some (rs', w') ∧
    pending_network_calls_ (shared w') = ∅ ∧ (refused (shared w')).*1 ++ (finished (shared w')).*1 ≡ₚ attempts_of calls.
Proof.
  destruct (observe_connection (λ s, (finished s).*1) calls [attempt 0] true) as (rs & w & E & _ & He); [by vm_compute|].
  assert (observe (λ s, (finished s).*1) (calls ++ Env CallStop :: stops_after) = Some ([attempt 0; attempt 1], true)) as E'
    by (by vm_compute).
  destruct (observe_connection _ _ _ _ E') as (rs2 & w2 & E2 & _ & He2). rewrite run_ops_app, E in E2. cbn [mbind option_bind] in E2.
  destruct (run_ops step w (Env CallStop :: stops_after)) as [[rs' w']|] eqn:Ew; [|done]. injection E2 as _ <-.
  exists rs, w, rs', w'. split; [done|]. split; [done|].
  apply (connection_stop_finishes_all curl 1000 calls rs w stops_after rs' w' E calls_ids He Ew); [|done].
  by repeat constructor.
Defined.

Lemma connection_stop_returns_witness :
  ∃ rs w evs rs' w', run_ops step start calls = Some (rs, w) ∧ run_ops step w (Env CallStop :: evs) = Some (rs', w') ∧
    ended w' = true ∧ pending_network_calls_ (shared w') = ∅.
Proof.
  destruct (observe_connection (λ s, (idle_service s, session_ s)) calls
    (Some (mkIoService 0 [Send (mkUuid 1 0) (attempt_context (attempt 1))] true false false), true) true) as (rs & w & E & Hf & He); [by vm_compute|].
  injection Hf as Hi Hs. destruct (connection_stop_returns curl 1000 w _ He Hi eq_refl Hs) as (evs & rs' & w' & E' & _ & He' & Hp).
  - intros id c H. apply list_elem_of_singleton in H as [= -> ->]. repeat split; by eexists.
  - exists rs, w, evs, rs', w'. split; [exact E|]. split; [exact E'|]. split; [exact He'|exact Hp].
Defined.

(** An [Execute] that has seen the connection ready can add its call after [Stop] has cancelled the
    pending ones: it returns a success, the worker is gone, and the context is never finished. *)
Theorem execute_racing_stop_is_orphaned :
  observe (λ s, (worker_ s, attempts_in (pending_network_calls_ s), finished s, refused s))
    (connect ++ [Env (CallExecute (attempt 0))] ++ go 4%nat 1%nat ++
     [Env CallStop] ++ go 5%nat 9%nat ++ [takes] ++ go 6%nat 2%nat ++ [takes] ++ go 7%nat 2%nat ++ [session WorkerReturns] ++ go 5%nat 2%nat ++
     go 4%nat 3%nat) =
  Some ((Joined, [attempt 0], [], []), true).
Proof. vm_compute. reflexivity. Qed.

(** An [Execute] that is between its reading of [io_service_] and the post, while the connection drops
    and is recycled, uses a service that [Init] has destroyed. *)
Theorem execute_racing_recycle_faults :
  (λ '(_, w), (faulted w, (finished (shared w)).*1)) <$> run_ops step start
    (connect ++ [Env (CallExecute (attempt 0))] ++ go 4%nat 3%nat ++
     [session SessionFailed] ++ go 5%nat 3%nat ++ [takes] ++ go 6%nat 8%nat ++
     [Env CallStop] ++ go 7%nat 9%nat ++ [takes] ++ go 8%nat 2%nat ++ [takes] ++ go 9%nat 2%nat ++ [session WorkerReturns] ++ go 7%nat 2%nat ++
     [Env CallReset] ++ go 11%nat 3%nat ++ [Env (CallInit TlsReady)] ++ go 12%nat 2%nat ++ go 4%nat 1%nat) =
  Some (true, [attempt 0]).
Proof. vm_compute. reflexivity. Qed.

End ConnectionRuns.
