(* ===== verification/HttpPool.v ===== *)
(** * HttpPool: the connections of the HTTP/2 client

    Models [http_connection_pool.cc], [http_connection_pool.h] and
    [http2_client.cc] of [cc/core/http2_client/src]: the connections of a host
    and their choice in turn, their recycling, and what the client gives to the
    dispatcher for each attempt.

    The pool is code of several threads ([Threads]) over the connections of
    [HttpConnection], each of which is a part of its state ([focus]).  An entry
    is an object that several threads point to, so [connections_] maps a host to
    its index in [entries].  nghttp2's parsing of URIs is a parameter, as are the
    answers of the TLS library to each [Init].  [performed] and [returned] are
    ghosts: the attempts of the dispatcher, and those for which [GetConnection]
    returned a failure. *)

From Stdlib Require Import Ascii.
From S2P Require Import Prelude ExecResult UuidLib Serialization ExpiryMap Utils Threads HttpExchange HttpConnection.

Local Open Scope string_scope.
Local Open Scope list_scope.
Local Open Scope Z_scope.

(** ** Data *)

Record HttpConnectionPoolEntry := mkEntry {
  http_connections : list nat;
  is_initialized : bool;
  order_counter : Z
}.

Definition new_entry : HttpConnectionPoolEntry := mkEntry [] false 0.

Record HttpConnectionPool := mkPool {
  is_running_ : bool;
  connections_ : gmap string nat;
  entries : list HttpConnectionPoolEntry;
  connection_objects : gmap nat Connection;
  connection_lock_ : bool;
  performed : list Attempt;
  returned : list (Attempt * ExecutionResult)
}.

Definition new_pool : HttpConnectionPool := mkPool false ∅ [] ∅ false [] [].

Definition set_running (b : bool) (p : HttpConnectionPool) : HttpConnectionPool :=
  mkPool b (connections_ p) (entries p) (connection_objects p) (connection_lock_ p) (performed p) (returned p).
Definition set_connections (m : gmap string nat) (p : HttpConnectionPool) : HttpConnectionPool :=
  mkPool (is_running_ p) m (entries p) (connection_objects p) (connection_lock_ p) (performed p) (returned p).
Definition set_entries (l : list HttpConnectionPoolEntry) (p : HttpConnectionPool) : HttpConnectionPool :=
  mkPool (is_running_ p) (connections_ p) l (connection_objects p) (connection_lock_ p) (performed p) (returned p).
Definition set_objects (m : gmap nat Connection) (p : HttpConnectionPool) : HttpConnectionPool :=
  mkPool (is_running_ p) (connections_ p) (entries p) m (connection_lock_ p) (performed p) (returned p).
Definition set_lock (b : bool) (p : HttpConnectionPool) : HttpConnectionPool :=
  mkPool (is_running_ p) (connections_ p) (entries p) (connection_objects p) b (performed p) (returned p).
Definition note_performed (a : Attempt) (p : HttpConnectionPool) : HttpConnectionPool :=
  mkPool (is_running_ p) (connections_ p) (entries p) (connection_objects p) (connection_lock_ p) (a :: performed p) (returned p).
Definition note_returned (a : Attempt) (r : ExecutionResult) (p : HttpConnectionPool) : HttpConnectionPool :=
  mkPool (is_running_ p) (connections_ p) (entries p) (connection_objects p) (connection_lock_ p) (performed p) (returned p ++ [(a, r)]).

Definition object (i : nat) (p : HttpConnectionPool) : Connection := default new_connection (connection_objects p !! i).
Definition set_object (i : nat) (c : Connection) (p : HttpConnectionPool) : HttpConnectionPool :=
  set_objects (<[i := c]> (connection_objects p)) p.

(** A call of the [i]th connection object. *)
Definition on_connection {A} (i : nat) (c : Code Connection A) : Code HttpConnectionPool A := focus (object i) (set_object i) c.

Definition entry (e : nat) (p : HttpConnectionPool) : HttpConnectionPoolEntry := default new_entry (entries p !! e).
Definition update_entry (e : nat) (f : HttpConnectionPoolEntry → HttpConnectionPoolEntry) (p : HttpConnectionPool) : HttpConnectionPool :=
  set_entries (alter f e (entries p)) p.

Definition push_back (i : nat) (x : HttpConnectionPoolEntry) : HttpConnectionPoolEntry :=
  mkEntry (http_connections x ++ [i]) (is_initialized x) (order_counter x).
Definition pop_back (x : HttpConnectionPoolEntry) : HttpConnectionPoolEntry :=
  mkEntry (removelast (http_connections x)) (is_initialized x) (order_counter x).
Definition set_initialized (x : HttpConnectionPoolEntry) : HttpConnectionPoolEntry :=
  mkEntry (http_connections x) true (order_counter x).
Definition increment (x : HttpConnectionPoolEntry) : HttpConnectionPoolEntry :=
  mkEntry (http_connections x) (is_initialized x) (u64 (order_counter x + 1)).

(** [boost::to_lower] *)
Definition lower (c : ascii) : ascii :=
  let n := N_of_ascii c in if ((65 <=? n) && (n <=? 90))%N then ascii_of_N (n + 32) else c.
Definition to_lower (s : string) : string :=
  String.string_of_list_ascii (lower <$> String.list_ascii_of_string s).

Section pool.
(** [host_service_from_uri]: the scheme, the host and the service. *)
Context (host_service_from_uri : string → option (string * string * string)) (max_connections_per_host_ : Z).

Definition Init : ExecutionResult := SuccessExecutionResult.

Definition Run : Code HttpConnectionPool ExecutionResult :=
  _ ← modifies (set_running true); mret SuccessExecutionResult.

(** Stops connections up to the first that fails to stop. *)
Fixpoint stop_all (l : list nat) : Code HttpConnectionPool ExecutionResult :=
  match l with
  | [] => mret SuccessExecutionResult
  | i :: l =>
      execution_result ← on_connection i HttpConnection.Stop;
      if negb (Successful execution_result) then mret execution_result else stop_all l
  end.

Fixpoint stop_entries (keys : list string) : Code HttpConnectionPool ExecutionResult :=
  match keys with
  | [] => mret SuccessExecutionResult
  | key :: keys =>
      found ← reads (λ p, CM_Find (connections_ p) key);
      match found with
      | (execution_result, e) =>
          if negb (Successful execution_result) then mret execution_result
          else
            e ← deref e;
            l ← reads (λ p, http_connections (entry e p));
            execution_result ← stop_all l;
            if negb (Successful execution_result) then mret execution_result else stop_entries keys
      end
  end.

Definition Stop : Code HttpConnectionPool ExecutionResult :=
  _ ← modifies (set_running false);
  keys ← reads (λ p, CM_Keys (connections_ p));
  if negb (Successful keys.1) then mret keys.1 else stop_entries keys.2.

(** [CreateHttpConnection], and [push_back]. *)
Definition CreateHttpConnection (e : nat) (p : HttpConnectionPool) : HttpConnectionPool * nat :=
  let i := fresh (dom (connection_objects p)) in
  (update_entry e (push_back i) (set_object i new_connection p), i).

(** The connections created before are stopped, and the entry is erased. *)
Definition abandon (key : string) (e : nat) : Code HttpConnectionPool () :=
  _ ← modifies (update_entry e pop_back);
  l ← reads (λ p, http_connections (entry e p));
  _ ← for_all l (λ i, ignore (on_connection i HttpConnection.Stop));
  modifies (λ p, set_connections (CM_Erase (connections_ p) key).2 p).

(** The loop over [n] connections; [inl] is the failure of one. *)
Fixpoint create_connections (n : nat) (tls : list TlsAnswer) (key : string) (e : nat) : Code HttpConnectionPool (ExecutionResult + ()) :=
  match n with
  | O => mret (inr tt)
  | S n =>
      i ← atomically (CreateHttpConnection e);
      execution_result ← on_connection i (HttpConnection.Init (default TlsReady (head tls)));
      if negb (Successful execution_result) then _ ← abandon key e; mret (inl execution_result)
      else
        execution_result ← on_connection i HttpConnection.Run;
        if negb (Successful execution_result) then _ ← abandon key e; mret (inl execution_result)
        else create_connections n (tail tls) key e
  end.

Definition RecycleConnection (tls : TlsAnswer) (i : nat) : Code HttpConnectionPool () :=
  _ ← awaits (λ p, if connection_lock_ p then None else Some (set_lock true p, tt));
  dropped ← on_connection i (reads is_dropped_);
  if negb dropped then modifies (set_lock false)
  else
    _ ← on_connection i HttpConnection.Stop;
    _ ← on_connection i HttpConnection.Reset;
    _ ← on_connection i (HttpConnection.Init tls);
    _ ← on_connection i HttpConnection.Run;
    modifies (set_lock false).

(** The first connection that is ready, from an index on. *)
Fixpoint find_ready (n : nat) (cur_index : Z) (e : nat) : Code HttpConnectionPool (option nat) :=
  match n with
  | O => mret None
  | S n =>
      i ← reads (λ p, http_connections (entry e p) !! Z.to_nat cur_index);
      i ← deref i;
      ready ← on_connection i (reads is_ready_);
      if ready : bool then mret (Some i) else find_ready n ((cur_index + 1) `mod` max_connections_per_host_) e
  end.

(** [connections_.Insert] of a new entry: the entry of the host, and whether it is the new one. *)
Definition insert_entry (key : string) (p : HttpConnectionPool) : HttpConnectionPool * (bool * nat) :=
  let '(r, e, m) := CM_Insert (connections_ p) key (length (entries p)) in
  if Successful r then (set_connections m (set_entries (entries p ++ [new_entry]) p), (true, e)) else (p, (false, e)).

(** The key of the entry of a URI. *)
Definition pool_key (uri : string) : option string :=
  '(scheme, host, service) ← host_service_from_uri uri;
  let scheme := to_lower scheme in
  if bool_decide (scheme = "https" ∨ scheme = "http") then Some (host +:+ ":" +:+ service) else None.

(** The connection of an entry whose turn it is, or another one that is ready. *)
Definition choose_connection (tls : TlsAnswer) (e : nat) : Code HttpConnectionPool (ExecutionResult * option nat) :=
  initialized ← reads (λ p, is_initialized (entry e p));
  if negb initialized then mret (RetryExecutionResult SC_HTTP2_CLIENT_NO_CONNECTION_ESTABLISHED, None)
  else
    value ← atomically (λ p, (update_entry e increment p, order_counter (entry e p)));
    if max_connections_per_host_ =? 0 then Fault
    else
      let connections_index := value `mod` max_connections_per_host_ in
      i ← reads (λ p, http_connections (entry e p) !! Z.to_nat connections_index);
      i ← deref i;
      dropped ← on_connection i (reads is_dropped_);
      if negb dropped then mret (SuccessExecutionResult, Some i)
      else
        _ ← RecycleConnection tls i;
        ready ← on_connection i (reads is_ready_);
        if ready : bool then mret (SuccessExecutionResult, Some i)
        else
          n ← reads (λ p, length (http_connections (entry e p)));
          found ← find_ready n connections_index e;
          let connection := default i found in
          ready ← on_connection connection (reads is_ready_);
          if negb ready then mret (RetryExecutionResult SC_HTTP2_CLIENT_HTTP_CONNECTION_NOT_READY, None)
          else mret (SuccessExecutionResult, Some connection).

(** [tls]: the answers for the connections that the call creates or recycles. *)
Definition GetConnection (tls : list TlsAnswer) (uri : option string) : Code HttpConnectionPool (ExecutionResult * option nat) :=
  running ← reads is_running_;
  if negb running then mret (FailureExecutionResult SC_HTTP2_CLIENT_CONNECTION_POOL_IS_NOT_AVAILABLE, None)
  else
    uri ← deref uri;
    match pool_key uri with
    | None => mret (FailureExecutionResult SC_HTTP2_CLIENT_INVALID_URI, None)
    | Some key =>
        inserted ← atomically (insert_entry key);
        let e := inserted.2 in
        created ←
          (if inserted.1 : bool then
             created ← create_connections (Z.to_nat max_connections_per_host_) tls key e;
             match created with
             | inl execution_result => mret (inl execution_result)
             | inr _ => _ ← modifies (update_entry e set_initialized); mret (inr tt)
             end
           else mret (inr tt));
        match created with
        | inl execution_result => mret (execution_result, None)
        | inr _ => choose_connection (default TlsReady (head tls)) e
        end
    end.

(** ** The client *)

(** The operation that [PerformRequest] dispatches, for one attempt. *)
Definition PerformRequest (tls : list TlsAnswer) (a : Attempt) : Code HttpConnectionPool ExecutionResult :=
  got ← GetConnection tls (path (request (attempt_context a)));
  if negb (Successful got.1) then _ ← modifies (note_returned a got.1); mret got.1
  else
    i ← deref got.2;
    _ ← on_connection i (modifies (note_executed a));
    on_connection i (Execute a).

Inductive PoolEvent :=
  | CallPoolRun
  | CallPoolStop
  | CallPerformRequest (tls : list TlsAnswer) (a : Attempt)
  | ConnectionEvent (i : nat) (e : SessionEvent).

Definition pool_env (curl_easy_escape : string → option string) (max_alloc : Z) (p : HttpConnectionPool) (e : PoolEvent)
  : option (HttpConnectionPool * Code HttpConnectionPool ()) :=
  match e with
  | CallPoolRun => Some (p, ignore Run)
  | CallPoolStop => Some (p, ignore Stop)
  | CallPerformRequest tls a => Some (note_performed a p, ignore (PerformRequest tls a))
  | ConnectionEvent i e =>
      '(s, c) ← session_env curl_easy_escape max_alloc (object i p) e;
      Some (set_object i s p, ignore (on_connection i c))
  end.

Definition pool_step (curl_easy_escape : string → option string) (max_alloc : Z)
  : World HttpConnectionPool → @ThreadEvent PoolEvent → option (() * World HttpConnectionPool) :=
  thread_step (pool_env curl_easy_escape max_alloc).
End pool.
