(* ===== verification/HttpPoolSpec.v ===== *)
(** * HttpPoolSpec: what the pool of the HTTP/2 client promises

    Theorems about every interleaving of the code of [HttpPool] and
    [HttpConnection]: each attempt that the dispatcher makes is answered at most
    once, over all connections; an entry that is initialised has all of its
    connections, so that the choice of one does not fail; the connections take
    turns. *)

From S2P Require Import Prelude ExecResult UuidLib Serialization ExpiryMap Utils Threads HttpExchange HttpConnection HttpConnectionSpec HttpPool.

Local Open Scope string_scope.
Local Open Scope list_scope.
Local Open Scope Z_scope.

Section spec.
Context (host_service_from_uri : string → option (string * string * string)) (max_connections_per_host_ : Z)
  (curl_easy_escape : string → option string) (max_alloc : Z).

(** ** Attempts *)

(** What a thread holds: an attempt that no connection has got, or one of a connection. *)
Inductive Holds := Waiting (a : Attempt) | At (i : nat) (a : Attempt).

Definition waiting (l : list Holds) : list Attempt := omap (λ h, match h with Waiting a => Some a | At _ _ => None end) l.
Definition held (i : nat) (l : list Holds) : list Attempt :=
  omap (λ h, match h with Waiting _ => None | At j a => if decide (i = j) then Some a else None end) l.

Lemma waiting_at i l : waiting (At i <$> l) = [].
Proof. by induction l. Qed.

Lemma held_at i j l : held i (At j <$> l) = if decide (i = j) then l else [].
Proof. unfold held. induction l as [|a l IH]; cbn; destruct (decide (i = j)); [done..|by rewrite IH|done]. Qed.

Lemma held_app i l l' : held i (l ++ l') = held i l ++ held i l'.
Proof. apply omap_app. Qed.

Lemma waiting_app l l' : waiting (l ++ l') = waiting l ++ waiting l'.
Proof. apply omap_app. Qed.

(** What the connections have been given. *)
Definition all_of {B} (f : Connection → list B) (p : HttpConnectionPool) : list B := map_to_list (connection_objects p) ≫= λ ic, f ic.2.

Lemma all_of_set {B} (f : Connection → list B) i s p : f new_connection = [] → f s = f (object i p) →
  all_of f (set_object i s p) ≡ₚ all_of f p.
Proof.
  intros Hnew Hs. unfold all_of, object in *. cbn. destruct (connection_objects p !! i) as [s0|] eqn:E; cbn in Hs.
  - rewrite <-(insert_delete_id (connection_objects p) i s0 E) at 2. rewrite <-insert_delete_eq.
    rewrite !map_to_list_insert by apply lookup_delete_eq. cbn. by rewrite Hs.
  - rewrite map_to_list_insert by done. cbn. by rewrite Hs, Hnew.
Qed.

Lemma all_of_cons {B} (f : Connection → list B) i s x p : f new_connection = [] → f s = x :: f (object i p) →
  all_of f (set_object i s p) ≡ₚ x :: all_of f p.
Proof.
  intros Hnew Hs. unfold all_of, object in *. cbn. destruct (connection_objects p !! i) as [s0|] eqn:E; cbn in Hs.
  - rewrite <-(insert_delete_id (connection_objects p) i s0 E) at 2. rewrite <-insert_delete_eq.
    rewrite !map_to_list_insert by apply lookup_delete_eq. cbn. by rewrite Hs.
  - rewrite map_to_list_insert by done. cbn. by rewrite Hs, Hnew.
Qed.

Section attempts.
Context (context_of : Uuid → HttpContext).

Record attempts_ok (p : HttpConnectionPool) (l : list Holds) : Prop := {
  ao_performed : performed p ≡ₚ waiting l ++ (returned p).*1 ++ all_of executed p;
  ao_objects : ∀ i, calls_ok context_of (object i p) (held i l)
}.

Lemma attempts_ok_perm p l l' : l ≡ₚ l' → attempts_ok p l → attempts_ok p l'.
Proof.
  intros E [H1 H2]. split.
  - rewrite H1. unfold waiting. by rewrite E.
  - intros i. eapply calls_ok_perm; [|apply H2]. unfold held. by rewrite E.
Qed.

Lemma object_set i j s p : object j (set_object i s p) = if decide (j = i) then s else object j p.
Proof.
  unfold object. cbn. destruct (decide (j = i)) as [->|]; [by rewrite lookup_insert_eq|by rewrite lookup_insert_ne].
Qed.

(** A connection as a part of the pool *)
Lemma connection_part i p l rest : attempts_ok p ((At i <$> l) ++ rest) →
  ∃ rest', calls_ok context_of (object i p) (l ++ rest') ∧
    ∀ s l', keeps_executed (object i p) s → calls_ok context_of s (l' ++ rest') → attempts_ok (set_object i s p) ((At i <$> l') ++ rest).
Proof.
  intros [H1 H2]. exists (held i rest). split.
  { specialize (H2 i). by rewrite held_app, held_at, decide_True in H2. }
  intros s l' Hex Hs. split.
  - cbn. rewrite all_of_set by done. by rewrite H1, !waiting_app, !waiting_at.
  - intros j. specialize (H2 j). rewrite object_set, held_app, held_at in *. by destruct (decide (j = i)) as [->|].
Qed.

Lemma same_attempts p p' l : performed p' = performed p → returned p' = returned p → connection_objects p' = connection_objects p →
  attempts_ok p l → attempts_ok p' l.
Proof. intros E1 E2 E3 [H1 H2]. unfold all_of, object in *. split; unfold all_of, object; by rewrite ?E1, ?E2, ?E3. Qed.

#[local] Abbreviation neutral_code := (neutral attempts_ok).

Lemma connection_neutral {A} i (c : Code Connection A) :
  within keeps_executed c → owns (calls_ok context_of) (ignore c) [] → neutral_code (on_connection i c).
Proof. apply neutral_focus with (part := At i). apply connection_part. Qed.

(** Code of the connections *)
Lemma stop_neutral i : neutral_code (on_connection i HttpConnection.Stop).
Proof.
  apply connection_neutral; [eapply within_mono; [|apply stop_within]; by intros ? ? []|]. by apply stop_connection_keeps.
Qed.

Lemma init_neutral i tls : neutral_code (on_connection i (HttpConnection.Init tls)).
Proof. apply connection_neutral; [eapply within_mono; [|apply life_cycle_within]; by intros ? ? []|]. apply connection_init_keeps. Qed.

Lemma run_neutral i : neutral_code (on_connection i HttpConnection.Run).
Proof.
  apply connection_neutral; [eapply within_mono; [|apply (life_cycle_within TlsReady)]; by intros ? ? []|]. apply run_connection_keeps.
Qed.

Lemma reset_neutral i : neutral_code (on_connection i HttpConnection.Reset).
Proof.
  apply connection_neutral; [eapply within_mono; [|apply (life_cycle_within TlsReady)]; by intros ? ? []|]. apply reset_keeps.
Qed.

Lemma read_neutral {A} i (f : Connection → A) : neutral_code (on_connection i (reads f)).
Proof. apply connection_neutral; [by split|]. by apply owns_reads. Qed.

(** The tactic that takes code apart. *)
Ltac calm := repeat match goal with
  | |- neutral _ (_ ≫= _) => apply neutral_bind
  | |- neutral _ (mret _) => apply neutral_ret
  | |- neutral _ (reads _) => apply neutral_atomically; by intros
  | |- neutral _ (modifies _) => apply neutral_atomically; intros ?p ?l; apply same_attempts; done
  | |- neutral _ (deref ?x) => destruct x; [apply neutral_ret|done]
  | |- neutral _ (if ?b then _ else _) => destruct b
  | |- neutral _ (match ?x with _ => _ end) => destruct x
  | |- neutral _ (ignore _) => unfold ignore
  | |- neutral _ Fault => done
  | |- neutral _ (on_connection _ HttpConnection.Stop) => apply stop_neutral
  | |- neutral _ (on_connection _ (HttpConnection.Init _)) => apply init_neutral
  | |- neutral _ (on_connection _ HttpConnection.Run) => apply run_neutral
  | |- neutral _ (on_connection _ HttpConnection.Reset) => apply reset_neutral
  | |- neutral _ (on_connection _ (reads _)) => apply read_neutral
  | |- neutral _ (for_all _ _) => apply neutral_for_all
  | |- ∀ _, _ => intros ?
  end.

Lemma pool_stop_neutral : neutral_code Stop.
Proof.
  assert (∀ l, neutral_code (stop_all l)) as Hall by (induction l as [|i l IH]; cbn [stop_all]; calm; done).
  assert (∀ l, neutral_code (stop_entries l)) as Hentries by (induction l as [|key l IH]; cbn [stop_entries]; calm; done).
  unfold Stop. calm. apply Hentries.
Qed.

Lemma create_ok e p l : attempts_ok p l → attempts_ok (CreateHttpConnection e p).1 l.
Proof.
  intros HI. unfold CreateHttpConnection. set (i := fresh _). apply (same_attempts (set_object i new_connection p)); [done..|].
  assert (object i p = new_connection) as Ho.
  { unfold object. assert (connection_objects p !! i = None) as ->; [|done]. apply (not_elem_of_dom_1 (D := gset nat)), is_fresh. }
  destruct HI as [H1 H2]. split.
  - cbn. rewrite all_of_set; [done|done|]. by rewrite Ho.
  - intros j. rewrite object_set. destruct (decide (j = i)) as [->|]; [rewrite <-Ho|]; apply H2.
Qed.

Lemma abandon_neutral key e : neutral_code (abandon key e).
Proof. unfold abandon. calm. Qed.

Lemma create_connections_neutral n tls key e : neutral_code (create_connections n tls key e).
Proof.
  revert tls. induction n as [|n IH]; intros tls; cbn [create_connections]; [calm|].
  apply neutral_bind; [apply neutral_atomically; intros; by apply create_ok|]. calm; try apply abandon_neutral. apply IH.
Qed.

Lemma recycle_neutral tls i : neutral_code (RecycleConnection tls i).
Proof.
  unfold RecycleConnection. apply neutral_bind.
  - apply neutral_awaits. intros p l p' a HI. destruct (connection_lock_ p); [done|]. intros [= <- <-]. by eapply same_attempts; [..|exact HI].
  - calm.
Qed.

Lemma find_ready_neutral n index e : neutral_code (find_ready max_connections_per_host_ n index e).
Proof. revert index. induction n as [|n IH]; intros index; cbn [find_ready]; calm. apply IH. Qed.

Lemma choose_neutral tls e : neutral_code (choose_connection max_connections_per_host_ tls e).
Proof.
  unfold choose_connection. apply neutral_bind; [calm|]. intros []; cbn [negb]; [|calm].
  apply neutral_bind; [apply neutral_atomically; intros p l; by apply same_attempts|]. intros value. cbv zeta.
  calm; [apply recycle_neutral|apply find_ready_neutral].
Qed.

Lemma get_connection_neutral tls uri : neutral_code (GetConnection host_service_from_uri max_connections_per_host_ tls uri).
Proof.
  unfold GetConnection. calm; try apply create_connections_neutral; try apply choose_neutral.
  apply neutral_atomically. intros p l. unfold insert_entry, CM_Insert. destruct (_ !! _); [done|]. by apply same_attempts.
Qed.

(** One attempt of the dispatcher *)
Lemma perform_keeps tls a : attempt_context a = context_of (attempt_id a) →
  owns attempts_ok (ignore (PerformRequest host_service_from_uri max_connections_per_host_ tls a)) [Waiting a].
Proof.
  intros Ha. unfold ignore, PerformRequest. apply owns_bind_assoc, get_connection_neutral. intros [r i]. cbn [fst snd].
  destruct (Successful r); cbn [negb].
  - destruct i as [i|]; [|done]. apply owns_bind_assoc. cbn [deref mbind code_bind]. apply owns_bind_assoc.
    intros p rest [H1 H2]. exists [At i a]. split.
    + change (attempts_ok (set_object i (note_executed a (object i p)) p) ([At i a] ++ rest)). split.
      * rewrite all_of_cons by done. rewrite H1. cbn. solve_Permutation.
      * intros j. rewrite object_set. specialize (H2 j) as Hj. cbn. unfold held in *. cbn in *.
        destruct (decide (j = i)) as [->|]; [|done]. destruct Hj as [G1 G2 G3 G4]. split; try done; cbn.
        -- by rewrite G1.
        -- intros a' [->|Ha']%elem_of_cons; [done|by apply G2].
    + apply (owns_focus _ _ (calls_ok context_of) attempts_ok (At i) keeps_executed (Execute a) _ [a] []); [apply connection_part|apply execute_within| |done].
      by apply execute_keeps.
  - apply owns_bind_assoc, (owns_modifies _ _ _ _ []); [|done]. intros p rest [H1 H2]. split; [|done].
    cbn in *. rewrite H1, fmap_app. cbn. unfold all_of. cbn. solve_Permutation.
Qed.

Definition attempt_ok (e : PoolEvent) : Prop :=
  match e with CallPerformRequest _ a => attempt_context a = context_of (attempt_id a) | _ => True end.

Lemma pool_env_ok p e p' c l : attempt_ok e → attempts_ok p l →
  pool_env host_service_from_uri max_connections_per_host_ curl_easy_escape max_alloc p e = Some (p', c) →
  ∃ l', owns attempts_ok c l' ∧ attempts_ok p' (l' ++ l).
Proof.
  intros He HI E. destruct e as [| |tls a|i e]; cbn [pool_env] in E; try (injection E as <- <-).
  - exists []. split; [|done]. apply neutral_ignore. unfold Run. calm.
  - exists []. split; [|done]. apply neutral_ignore, pool_stop_neutral.
  - exists [Waiting a]. split; [by apply perform_keeps|]. destruct HI as [H1 H2]. split; [|done]. cbn. by rewrite H1.
  - destruct (session_env _ _ _ _) as [[s c']|] eqn:Es; [|done]. injection E as <- <-. exists [].
    pose proof (session_within _ _ _ _ _ _ Es) as [Hs Hc]. destruct (connection_part i p [] l HI) as (rest & Hcalls & Hput).
    destruct (session_env_ok _ _ _ _ _ _ _ _ Hcalls Es) as [Hown Hcalls']. split; [|apply (Hput s []); [apply Hs|done]].
    apply neutral_ignore, connection_neutral; [eapply within_mono; [|exact Hc]; by intros ? ? []|by apply owns_ignore].
Qed.
End attempts.

(** ** The attempts of a run *)

Abbreviation keeps_performed := (λ p p', performed p' = performed p).

Lemma on_connection_within {A} i (c : Code Connection A) : within keeps_performed (on_connection i c).
Proof. apply (within_focus _ _ (λ _ _, True)); [done|]. by apply within_any. Qed.

Lemma get_connection_within tls uri : within keeps_performed (GetConnection host_service_from_uri max_connections_per_host_ tls uri).
Proof.
  assert (∀ key e, within keeps_performed (abandon key e)) as Ha.
  { intros key e. unfold abandon. frame. apply within_for_all. intros i. frame. apply on_connection_within. }
  assert (∀ n tls key e, within keeps_performed (create_connections n tls key e)) as Hc.
  { induction n as [|n IH]; intros tls' key e; cbn [create_connections]; frame; try apply on_connection_within; try apply Ha; [done|apply IH]. }
  assert (∀ tls i, within keeps_performed (RecycleConnection tls i)) as Hr.
  { intros tls' i. unfold RecycleConnection. frame; try apply on_connection_within. split; [|done]. intros p p' a. destruct (connection_lock_ p); [done|]. by intros [= <- <-]. }
  assert (∀ n index e, within keeps_performed (find_ready max_connections_per_host_ n index e)) as Hf.
  { induction n as [|n IH]; intros index e; cbn [find_ready]; frame; [apply on_connection_within|apply IH]. }
  unfold GetConnection, choose_connection. frame; try apply Hc; try apply on_connection_within; try apply Hr; try apply Hf; try done.
  unfold insert_entry, CM_Insert. by destruct (_ !! _).
Qed.

Definition pool_attempts : list (@ThreadEvent PoolEvent) → list Attempt :=
  brought (λ e, match e with CallPerformRequest _ a => [a] | _ => [] end).

#[local] Abbreviation runs w evs rs w' :=
  (run_ops (pool_step host_service_from_uri max_connections_per_host_ curl_easy_escape max_alloc) w evs = Some (rs, w')).

Lemma performed_run evs rs w : runs (mkWorld new_pool []) evs rs w → performed (shared w) ≡ₚ pool_attempts evs.
Proof.
  intros E. rewrite <-(app_nil_r (pool_attempts evs)). revert E. apply (ghost_run _ performed); [|constructor]. intros p e p' c E.
  destruct e as [| |tls a|i e]; cbn [pool_env] in E; try (injection E as <- <-).
  - split; [done|]. by repeat split.
  - split; [done|]. unfold Stop. frame.
    assert (∀ l, within keeps_performed (stop_all l)) as Hall by (induction l as [|j l IH]; cbn [stop_all]; frame; [apply on_connection_within|done]).
    assert (∀ l, within keeps_performed (stop_entries l)) as Hentries by (induction l as [|key l IH]; cbn [stop_entries]; frame; [apply Hall|done]).
    apply Hentries.
  - split; [done|]. unfold PerformRequest. frame; try apply on_connection_within. apply get_connection_within.
  - destruct (session_env _ _ _ _) as [[s c']|]; [|done]. injection E as <- <-. split; [done|]. frame. apply on_connection_within.
Qed.

Lemma all_of_split {B} (f g : Connection → list B) (h : nat → list B) p :
  (∀ i, f (object i p) ≡ₚ h i ++ g (object i p)) →
  all_of f p ≡ₚ (map_to_list (connection_objects p) ≫= λ ic, h ic.1) ++ all_of g p.
Proof.
  intros Hf. unfold all_of.
  assert (∀ ic, ic ∈ map_to_list (connection_objects p) → f ic.2 ≡ₚ h ic.1 ++ g ic.2) as Hl.
  { intros [i s] Hin. apply elem_of_map_to_list in Hin. specialize (Hf i). unfold object in Hf. by rewrite Hin in Hf. }
  revert Hl. induction (map_to_list (connection_objects p)) as [|ic l IH]; intros Hl; [done|]. cbn.
  rewrite (Hl ic) by (by left). rewrite IH; [solve_Permutation|]. intros. apply Hl. by right.
Qed.

(** The attempts that a connection has refused, finished, or keeps. *)
Definition settled (s : Connection) : list Attempt := (refused s).*1 ++ (finished s).*1.
Definition kept (s : Connection) : list Attempt := settled s ++ attempts_in (pending_network_calls_ s).

Lemma pool_attempts_placed evs rs w : runs (mkWorld new_pool []) evs rs w → NoDup (attempt_id <$> pool_attempts evs) →
  ∃ l, pool_attempts evs ≡ₚ l ++ (returned (shared w)).*1 ++ all_of kept (shared w) ∧ (ended w = true → l = []).
Proof.
  intros E Hnd. set (F := context_in (pool_attempts evs)).
  assert (∃ ls, world_ok (attempts_ok F) w ls) as [ls Hw].
  { eapply owns_run; [apply attempts_ok_perm|apply (pool_env_ok F)| | |exact E].
    - apply Forall_forall. intros [e|i] Hev; [|done]. destruct e as [| |tls a|i e]; try done. apply context_in_attempts; [done|].
      unfold pool_attempts, brought. apply list_elem_of_bind. eexists. split; [|exact Hev]. by left.
    - instantiate (1 := []). split; [constructor|]. split; [done|]. intros i. apply (proj2 (new_connection_ok F)). }
  assert (∀ l, attempts_ok F (shared w) l → ∃ l', pool_attempts evs ≡ₚ l' ++ (returned (shared w)).*1 ++ all_of kept (shared w) ∧ (l = [] → l' = [])) as Hsum.
  { intros l [H1 H2]. exists (waiting l ++ (map_to_list (connection_objects (shared w)) ≫= λ ic, held ic.1 l)). split.
    { rewrite <-(performed_run _ _ _ E), H1. rewrite (all_of_split executed kept (λ i, held i l)); [solve_Permutation|].
      intros i. rewrite (ok_attempts _ _ _ (H2 i)). unfold kept, settled. solve_Permutation. }
    intros ->. cbn. by induction (map_to_list _). }
  destruct (ended w) eqn:He.
  - destruct (Hsum [] (ended_owns_nothing _ _ _ Hw He)) as (l' & HP & Hl). exists l'. eauto.
  - destruct (Hsum _ (proj2 Hw)) as (l' & HP & _). exists l'. done.
Qed.

(** C12: In every interleaving of the attempts of the dispatcher with the workers of the connections,
    with the creation, the recycling and the stop of connections, and when each attempt has an id of
    its own: over all connections an attempt gets one answer at most, a result that [PerformRequest]
    returns or a callback, and when no call is under way the attempts without an answer are those of
    the pending calls of the connections. *)
Theorem client_answers_once evs rs w :
  runs (mkWorld new_pool []) evs rs w → NoDup (attempt_id <$> pool_attempts evs) →
  NoDup ((returned (shared w)).*1 ++ all_of settled (shared w)) ∧
  (ended w = true → (returned (shared w)).*1 ++ all_of kept (shared w) ≡ₚ pool_attempts evs).
Proof.
  intros E Hnd. destruct (pool_attempts_placed _ _ _ E Hnd) as (l & HP & Hl). split; [|intros He; by rewrite HP, Hl].
  apply NoDup_fmap_1 in Hnd. rewrite HP in Hnd. apply NoDup_app in Hnd as (_ & _ & Hnd).
  rewrite (all_of_split kept settled (λ i, attempts_in (pending_network_calls_ (object i (shared w))))) in Hnd by (intros i; unfold kept; solve_Permutation).
  rewrite (Permutation_app_comm (_ ≫= _)), app_assoc in Hnd. by apply NoDup_app in Hnd as (? & _ & _).
Qed.

(** ** Entries *)

(** A thread creates the connections of an entry, and has created [n] of them. *)
Record Build := mkBuild { build_key : string; build_entry : nat; build_count : nat }.

#[local] Abbreviation max_count := (Z.to_nat max_connections_per_host_).

Record entries_ok (p : HttpConnectionPool) (l : list Build) : Prop := {
  eo_mapped : ∀ key e, connections_ p !! key = Some e →
    (e < length (entries p))%nat ∧ (is_initialized (entry e p) = true ∨ ∃ n, mkBuild key e n ∈ l);
  eo_complete : ∀ e, is_initialized (entry e p) = true → length (http_connections (entry e p)) = max_count;
  eo_building : ∀ key e n, mkBuild key e n ∈ l →
    (e < length (entries p))%nat ∧ is_initialized (entry e p) = false ∧ length (http_connections (entry e p)) = n;
  eo_distinct : NoDup (build_entry <$> l)
}.

Lemma entries_ok_perm p l l' : l ≡ₚ l' → entries_ok p l → entries_ok p l'.
Proof.
  intros E [H1 H2 H3 H4]. split; [|done|by intros ???; rewrite <-E; apply H3|by rewrite <-E].
  intros key e Hk. destruct (H1 key e Hk) as [? [?|[n ?]]]; (split; [done|]); [by left|right; exists n; by rewrite <-E].
Qed.

(** The entries stay as they are, but for their counters. *)
Definition same_entries (p p' : HttpConnectionPool) : Prop :=
  connections_ p' = connections_ p ∧ length (entries p') = length (entries p) ∧
  ∀ e, is_initialized (entry e p') = is_initialized (entry e p) ∧ http_connections (entry e p') = http_connections (entry e p).

Lemma same_entries_ok p p' l : same_entries p p' → entries_ok p l → entries_ok p' l.
Proof.
  intros (E1 & E2 & E3) [H1 H2 H3 H4]. split; [..|done]; rewrite ?E1, ?E2.
  - intros key e. rewrite (proj1 (E3 e)). apply H1.
  - intros e. rewrite (proj1 (E3 e)), (proj2 (E3 e)). apply H2.
  - intros key e n. rewrite (proj1 (E3 e)), (proj2 (E3 e)). apply H3.
Qed.

Lemma on_connection_entries {A} i (c : Code Connection A) : within same_entries (on_connection i c).
Proof. apply (within_focus _ _ (λ _ _, True)); [done|]. by apply within_any. Qed.

Lemma entry_update e f p e' : entry e' (update_entry e f p) = if decide (e' = e ∧ (e < length (entries p))%nat) then f (entry e p) else entry e' p.
Proof.
  unfold entry, update_entry. cbn. destruct (decide (e' = e)) as [->|Hne].
  - rewrite list_lookup_alter_eq. destruct (entries p !! e) eqn:E; cbn.
    + rewrite decide_True; [done|]. split; [done|]. by eapply lookup_lt_Some.
    + rewrite decide_False; [done|]. intros [_ ?%lookup_lt_is_Some]. rewrite E in H. by destruct H.
  - rewrite list_lookup_alter_ne by done. rewrite decide_False; [done|]. by intros [].
Qed.

(** A thread changes the entry that it builds. *)
Lemma build_ok key e n n' f p rest : (∀ x, is_initialized (f x) = is_initialized x) →
  (∀ x, length (http_connections x) = n → length (http_connections (f x)) = n') →
  entries_ok p (mkBuild key e n :: rest) → entries_ok (update_entry e f p) (mkBuild key e n' :: rest).
Proof.
  intros Hi Hn [H1 H2 H3 H4]. destruct (H3 key e n) as (He & Hinit & Hlen); [by left|]. split; cbn.
  - intros key' e' Hk. destruct (H1 key' e' Hk) as [He' Hb]. rewrite length_alter. split; [done|]. rewrite entry_update.
    destruct (decide _) as [[-> _]|]; [right|destruct Hb as [|[m Hm]]; [by left|right]].
    + destruct Hb as [|[m Hm]]; [congruence|]. apply elem_of_cons in Hm as [Hm|Hm]; [simplify_eq; exists n'; by left|exists m; by right].
    + apply elem_of_cons in Hm as [Hm|Hm]; [simplify_eq; exists n'; by left|exists m; by right].
  - intros e'. rewrite entry_update. destruct (decide _) as [[-> _]|]; [rewrite Hi; congruence|apply H2].
  - intros key' e' m Hm. rewrite length_alter, entry_update. apply elem_of_cons in Hm as [[= -> -> ->]|Hm].
    + rewrite decide_True by done. rewrite Hi. auto.
    + destruct (H3 key' e' m) as (? & ? & ?); [by right|]. rewrite decide_False; [done|]. intros [-> _].
      apply NoDup_cons in H4 as [Hnin _]. apply Hnin. by apply (list_elem_of_fmap_2' build_entry _ _ _ Hm).
  - done.
Qed.

#[local] Abbreviation builds := (owns entries_ok).

Lemma calm_builds {A} (c : Code HttpConnectionPool A) k l : within same_entries c → (∀ a, builds (k a) l) → builds (c ≫= k) l.
Proof. apply within_owns_bind. apply same_entries_ok. Qed.

Lemma reads_entries {A} (f : HttpConnectionPool → A) : within same_entries (reads f).
Proof. by split. Qed.

Lemma create_builds e p : update_entry e (push_back (CreateHttpConnection e p).2) (set_object (CreateHttpConnection e p).2 new_connection p) = (CreateHttpConnection e p).1.
Proof. done. Qed.

Lemma erase_build key e n p rest : entries_ok p (mkBuild key e n :: rest) →
  entries_ok (set_connections (CM_Erase (connections_ p) key).2 p) rest.
Proof.
  intros [H1 H2 H3 H4]. apply NoDup_cons in H4 as [_ H4]. split; [|done|intros; apply (H3 key0); by right|done].
  intros key' e' Hk. assert (connections_ p !! key' = Some e' ∧ key' ≠ key) as [Hk' Hne].
  { cbn in Hk. unfold CM_Erase in Hk. destruct (connections_ p !! key) eqn:E; cbn in Hk.
    - apply lookup_delete_Some in Hk as []. done.
    - split; [done|]. intros ->. congruence. }
  destruct (H1 _ _ Hk') as [? [|[m Hm]]]; (split; [done|]); [by left|right; exists m].
  apply elem_of_cons in Hm as [|]; [congruence|done].
Qed.

Lemma abandon_builds key e n k : (∀ a, builds (k a) []) → builds (abandon key e ≫= k) [mkBuild key e (S n)].
Proof.
  intros Hk. unfold abandon. apply owns_bind_assoc, (owns_modifies _ _ _ _ [mkBuild key e n]).
  { intros p rest. apply build_ok; [done|]. intros x Hx. cbn. rewrite removelast_firstn_len, length_take. lia. }
  apply owns_bind_assoc, calm_builds; [apply reads_entries|]. intros l. apply owns_bind_assoc, calm_builds.
  { apply within_for_all. intros i. apply within_bind; [apply on_connection_entries|done]. }
  intros _. apply (owns_modifies _ _ _ _ []); [|apply Hk]. intros p rest. apply erase_build.
Qed.

Lemma create_connections_builds n tls key e i k :
  (∀ r, builds (k (inl r)) []) → builds (k (inr tt)) [mkBuild key e (i + n)] →
  builds (create_connections n tls key e ≫= k) [mkBuild key e i].
Proof.
  intros Hl Hr. revert i tls Hr. induction n as [|n IH]; intros i tls Hr; cbn [create_connections]; [by rewrite Nat.add_0_r in Hr|].
  apply owns_bind_assoc, (owns_atomically _ _ _ _ [mkBuild key e (S i)]).
  { intros p rest HI. rewrite <-create_builds. apply (build_ok key e i); [done|intros x <-; cbn; rewrite length_app; cbn; lia|].
    apply (same_entries_ok p); [by repeat split|exact HI]. }
  intros id. apply owns_bind_assoc, calm_builds; [apply on_connection_entries|]. intros r.
  assert (∀ r', builds ((_ ← abandon key e; mret (inl r')) ≫= k) [mkBuild key e (S i)]) as Hab.
  { intros r'. apply owns_bind_assoc, abandon_builds. intros _. apply Hl. }
  destruct (Successful r); cbn [negb]; [|apply Hab]. apply owns_bind_assoc, calm_builds; [apply on_connection_entries|]. intros r'.
  destruct (Successful r'); cbn [negb]; [|apply Hab]. apply IH. by rewrite Nat.add_succ_r in Hr.
Qed.

Lemma initialized_ok key e p rest : entries_ok p (mkBuild key e max_count :: rest) → entries_ok (update_entry e set_initialized p) rest.
Proof.
  intros [H1 H2 H3 H4]. destruct (H3 key e max_count) as (He & Hinit & Hlen); [by left|]. split; cbn.
  - intros key' e' Hk. destruct (H1 key' e' Hk) as [He' Hb]. rewrite length_alter. split; [done|]. rewrite entry_update.
    destruct (decide _) as [|Hd]; [by left|]. destruct Hb as [|[m Hm]]; [by left|right; exists m].
    apply elem_of_cons in Hm as [Hm|]; [|done]. simplify_eq. by destruct Hd.
  - intros e'. rewrite entry_update. destruct (decide _) as [[-> _]|]; [done|apply H2].
  - intros key' e' m Hm. rewrite length_alter, entry_update. destruct (H3 key' e' m) as (? & ? & ?); [by right|].
    rewrite decide_False; [done|]. intros [-> _]. apply NoDup_cons in H4 as [Hnin _]. apply Hnin.
    by apply (list_elem_of_fmap_2' build_entry _ _ _ Hm).
  - by apply NoDup_cons in H4 as [_ ?].
Qed.

Lemma insert_entry_ok key p rest : entries_ok p rest →
  let '(p', (new, e)) := insert_entry key p in if new : bool then entries_ok p' (mkBuild key e 0 :: rest) else entries_ok p' rest.
Proof.
  intros [H1 H2 H3 H4]. unfold insert_entry, CM_Insert. destruct (connections_ p !! key) as [e|] eqn:E; [by split|]. cbn.
  assert (∀ e, entry e (set_connections (<[key := length (entries p)]> (connections_ p)) (set_entries (entries p ++ [new_entry]) p)) = entry e p) as He.
  { intros e. unfold entry. cbn. destruct (decide (e < length (entries p))%nat); [by rewrite lookup_app_l|].
    rewrite (lookup_ge_None_2 (entries p)) by lia. rewrite lookup_app_r by lia. destruct (e - length (entries p))%nat as [|j]; [done|]. by destruct j. }
  split.
  - intros key' e'. cbn. rewrite length_app, He. cbn. rewrite lookup_insert_Some. intros [[<- <-]|[Hne Hk]].
    + split; [lia|]. right. exists 0%nat. by left.
    + destruct (H1 key' e' Hk) as [? [|[m ?]]]; (split; [lia|]); [by left|right; exists m; by right].
  - intros e. rewrite He. apply H2.
  - intros key' e' n Hin. rewrite He. cbn. rewrite length_app. cbn. apply elem_of_cons in Hin as [[= -> -> ->]|Hin].
    + split; [lia|]. unfold entry. by rewrite lookup_ge_None_2.
    + destruct (H3 key' e' n Hin) as (? & ? & ?). split; [lia|done].
  - cbn. apply NoDup_cons. split; [|done]. intros Hin. apply list_elem_of_fmap in Hin as ([key' e' n] & Heq & Hin). cbn in Heq. subst.
    destruct (H3 _ _ _ Hin). lia.
Qed.

Lemma increment_same e p : same_entries p (update_entry e increment p).
Proof.
  split; [done|]. split; [apply length_alter|]. intros e'. rewrite entry_update. destruct (decide _) as [[-> _]|]; done.
Qed.

Lemma choose_entries tls e : within same_entries (choose_connection max_connections_per_host_ tls e).
Proof.
  assert (∀ tls i, within same_entries (RecycleConnection tls i)) as Hr.
  { intros tls' i. unfold RecycleConnection. frame; try apply on_connection_entries. split; [|done]. intros p p' a.
    destruct (connection_lock_ p); [done|]. by intros [= <- <-]. }
  assert (∀ n index e, within same_entries (find_ready max_connections_per_host_ n index e)) as Hf.
  { induction n as [|n IH]; intros index e'; cbn [find_ready]; frame; [apply on_connection_entries|apply IH]. }
  unfold choose_connection. frame; try apply on_connection_entries; try apply Hr; try apply Hf. apply increment_same.
Qed.

Lemma get_connection_builds tls uri k : (∀ a, builds (k a) []) →
  builds (GetConnection host_service_from_uri max_connections_per_host_ tls uri ≫= k) [].
Proof.
  intros Hk. unfold GetConnection. apply owns_bind_assoc, calm_builds; [apply reads_entries|]. intros []; cbn [negb]; [|apply Hk].
  destruct uri as [uri|]; [|done]. cbn [deref mbind code_bind]. destruct (pool_key _ uri) as [key|]; [|apply Hk].
  assert (∀ e, builds (choose_connection max_connections_per_host_ (default TlsReady (head tls)) e ≫= k) []) as Hchoose.
  { intros e. by apply calm_builds; [apply choose_entries|]. }
  apply owns_bind_assoc, owns_action. intros p rest HI. pose proof (insert_entry_ok key p rest HI) as Hins.
  destruct (insert_entry key p) as [p' [[] e]]; cbn [fst snd]; [|exists []; split; [done|apply Hchoose]].
  exists [mkBuild key e 0]. split; [done|]. apply owns_bind_assoc, owns_bind_assoc, create_connections_builds; [intros r; apply Hk|].
  apply owns_bind_assoc, (owns_modifies _ _ _ _ []); [|apply Hchoose]. intros p1 rest1. apply initialized_ok.
Qed.

Lemma pool_env_builds p e p' c l : entries_ok p l →
  pool_env host_service_from_uri max_connections_per_host_ curl_easy_escape max_alloc p e = Some (p', c) →
  ∃ l', builds c l' ∧ entries_ok p' (l' ++ l).
Proof.
  intros HI E. exists []. destruct e as [| |tls a|i e]; cbn [pool_env] in E; try (injection E as <- <-).
  - split; [|done]. apply (within_owns _ same_entries); [apply same_entries_ok|]. unfold Run. by frame.
  - split; [|done]. apply (within_owns _ same_entries); [apply same_entries_ok|]. unfold Stop. frame.
    assert (∀ l, within same_entries (stop_all l)) as Hall by (induction l0 as [|j l0 IH]; cbn [stop_all]; frame; [apply on_connection_entries|done]).
    assert (∀ l, within same_entries (stop_entries l)) as Hentries by (induction l0 as [|key l0 IH]; cbn [stop_entries]; frame; [apply Hall|done]).
    apply Hentries.
  - split; [|by apply (same_entries_ok p)]. apply owns_bind_assoc, get_connection_builds. intros [r i]. cbn [fst snd].
    apply calm_builds; [|done]. frame; apply on_connection_entries.
  - destruct (session_env _ _ _ _) as [[s c']|]; [|done]. injection E as <- <-. split; [|by apply (same_entries_ok p)].
    apply (within_owns _ same_entries); [apply same_entries_ok|]. frame. apply on_connection_entries.
Qed.

(** C21: In every interleaving, an entry that is initialised has exactly
    [max_connections_per_host_] connections, so that [GetConnection] finds one at each index that it
    computes; an entry that another thread still builds is not used.  When no call is under way every
    host has such an entry or none: a creation that failed leaves nothing behind. *)
Theorem pool_entries_complete evs rs w :
  runs (mkWorld new_pool []) evs rs w → 0 < max_connections_per_host_ →
  (∀ e value, is_initialized (entry e (shared w)) = true →
     is_Some (http_connections (entry e (shared w)) !! Z.to_nat (value `mod` max_connections_per_host_))) ∧
  (ended w = true → ∀ key e, connections_ (shared w) !! key = Some e → is_initialized (entry e (shared w)) = true ∧
     Z.of_nat (length (http_connections (entry e (shared w)))) = max_connections_per_host_).
Proof.
  intros E Hmax. assert (∃ ls, world_ok entries_ok w ls) as [ls Hw].
  { eapply (owns_run _ entries_ok entries_ok_perm (λ _, True)); [intros s e s' c l _; apply pool_env_builds| | |exact E].
    - apply Forall_forall. by intros [].
    - instantiate (1 := []). split; [constructor|]. split; [intros key e H; by destruct (lookup_empty_Some _ _ H)|done|intros ??? H; by apply not_elem_of_nil in H|constructor]. }
  split.
  - intros e value He. apply lookup_lt_is_Some. rewrite (eo_complete _ _ (proj2 Hw) e He).
    pose proof (Z.mod_pos_bound value _ Hmax). lia.
  - intros Hended key e Hk. destruct (ended_owns_nothing _ _ _ Hw Hended) as [H1 H2 _ _].
    destruct (H1 key e Hk) as [_ [Hi|[n Hn]]]; [|by apply not_elem_of_nil in Hn]. split; [done|]. rewrite (H2 e Hi). lia.
Qed.

(** ** Turns *)

(** [n] calls of [GetConnection] for a URI, one after the other. *)
Fixpoint get_many (n : nat) (uri : string) (p : HttpConnectionPool) : option (HttpConnectionPool * list (ExecutionResult * option nat)) :=
  match n with
  | O => Some (p, [])
  | S n =>
      '(p, got) ← run_code (GetConnection host_service_from_uri max_connections_per_host_ [] (Some uri)) p;
      '(p, rest) ← get_many n uri p;
      Some (p, got :: rest)
  end.

(** The entry of a URI is in use, and none of its connections has dropped. *)
Record in_use (uri : string) (e : nat) (l : list nat) (counter : Z) (p : HttpConnectionPool) : Prop := {
  iu_running : HttpPool.is_running_ p = true;
  iu_mapped : ∃ key, pool_key host_service_from_uri uri = Some key ∧ connections_ p !! key = Some e;
  iu_entry : entries p !! e = Some (mkEntry l true counter);
  iu_dropped : ∀ i, i ∈ l → is_dropped_ (object i p) = false
}.

Lemma get_one uri e l counter p i : in_use uri e l counter p → 0 < max_connections_per_host_ →
  l !! Z.to_nat (counter `mod` max_connections_per_host_) = Some i →
  ∃ p', run_code (GetConnection host_service_from_uri max_connections_per_host_ [] (Some uri)) p = Some (p', (SuccessExecutionResult, Some i)) ∧
    in_use uri e l (u64 (counter + 1)) p'.
Proof.
  intros [H1 (key & Hkey & Hmap) H3 H4] Hmax Hi. exists (set_object i (object i p) (update_entry e increment p)).
  assert (entry e p = mkEntry l true counter) as He by (unfold entry; by rewrite H3).
  assert (entries (update_entry e increment p) !! e = Some (mkEntry l true (u64 (counter + 1)))) as He'.
  { cbn. by rewrite list_lookup_alter_eq, H3. }
  split.
  - transitivity (run_code (choose_connection max_connections_per_host_ TlsReady e) p).
    { unfold GetConnection. cbn -[choose_connection create_connections insert_entry]. rewrite H1. cbn -[choose_connection create_connections insert_entry].
      rewrite Hkey. cbn -[choose_connection create_connections insert_entry].
      assert (insert_entry key p = (p, (false, e))) as -> by (unfold insert_entry, CM_Insert; by rewrite Hmap). done. }
    unfold choose_connection. cbn -[update_entry entry RecycleConnection find_ready]. rewrite He. cbn -[update_entry entry RecycleConnection find_ready].
    rewrite He. cbn -[update_entry entry RecycleConnection find_ready]. destruct (Z.eqb_spec max_connections_per_host_ 0); [lia|].
    cbn -[update_entry entry RecycleConnection find_ready]. assert (entry e (update_entry e increment p) = mkEntry l true (u64 (counter + 1))) as -> by (unfold entry; by rewrite He'). cbn -[update_entry entry RecycleConnection find_ready].
    rewrite Hi. cbn -[update_entry entry RecycleConnection find_ready].
    change (object i (update_entry e increment p)) with (object i p). by rewrite H4 by (by eapply list_elem_of_lookup_2).
  - split; [done|by exists key|done|]. intros j Hj. rewrite object_set. destruct (decide (j = i)) as [->|]; by apply H4.
Qed.

Lemma get_many_turns n uri e l counter p : in_use uri e l counter p → zlen l = max_connections_per_host_ → 0 < max_connections_per_host_ →
  0 ≤ counter → counter + Z.of_nat n < 2 ^ 64 →
  ∃ p' ids, get_many n uri p = Some (p', (λ i, (SuccessExecutionResult, Some i)) <$> ids) ∧ length ids = n ∧
    ∀ j, (j < n)%nat → ids !! j = l !! Z.to_nat ((counter + Z.of_nat j) `mod` max_connections_per_host_).
Proof.
  intros Hp Hl Hmax. revert counter p Hp. induction n as [|n IH]; intros counter p Hp Hc Hn.
  { exists p, []. split; [done|]. split; [done|]. lia. }
  destruct (lookup_lt_is_Some_2 l (Z.to_nat (counter `mod` max_connections_per_host_))) as [i Hi].
  { pose proof (Z.mod_pos_bound counter _ Hmax). lia. }
  destruct (get_one uri e l counter p i Hp Hmax Hi) as (p1 & E1 & Hp1). rewrite u64_small in Hp1 by lia.
  destruct (IH _ _ Hp1) as (p2 & ids & E2 & Hlen & His); [lia|lia|].
  exists p2, (i :: ids). cbn [get_many]. rewrite E1. cbn [mbind option_bind]. rewrite E2. split; [done|]. cbn. split; [by rewrite Hlen|].
  intros [|j] Hj; cbn; [by rewrite Z.add_0_r|]. rewrite His by lia. do 3 f_equal. lia.
Qed.

(** The connections of a host take turns: as long as none of them drops, as many calls of
    [GetConnection] as there are connections return each of them once, beginning with the one whose
    turn it is. *)
Theorem connections_take_turns uri e l counter p :
  in_use uri e l counter p → zlen l = max_connections_per_host_ → 0 < max_connections_per_host_ →
  0 ≤ counter → counter + zlen l < 2 ^ 64 →
  ∃ p', get_many (length l) uri p = Some (p', (λ i, (SuccessExecutionResult, Some i)) <$> rotate (Z.to_nat counter) l) ∧
    rotate (Z.to_nat counter) l ≡ₚ l.
Proof.
  intros Hp Hl Hmax Hc Hn. destruct (get_many_turns (length l) uri e l counter p Hp Hl Hmax Hc Hn) as (p' & ids & E & Hlen & His).
  exists p'. split.
  - rewrite E. do 3 f_equal. apply list_eq_same_length with (length l); [by rewrite length_rotate|done|]. intros j x y Hj.
    rewrite His, lookup_rotate_r by done. unfold rotate_nat_add. rewrite Z2Nat.id, Hl by done. congruence.
  - unfold rotate. rewrite Permutation_app_comm. by rewrite take_drop.
Qed.
End spec.

(** ** Runs *)

Module PoolRuns.
Import ConnectionRuns.

Definition parse (uri : string) : option (string * string * string) := Some ("HTTPS", uri, "443").
Abbreviation pool_steps := (pool_step parse 2 curl 1000).
Definition pool_start : World HttpConnectionPool := mkWorld new_pool [].

Definition run_events (evs : list (@ThreadEvent PoolEvent)) : option (World HttpConnectionPool) := snd <$> run_ops pool_steps pool_start evs.

(** The first attempt creates two connections, which are not ready; one of them becomes so, and the
    third attempt is answered on it. *)
Definition three_attempts : list (@ThreadEvent PoolEvent) :=
  [Env CallPoolRun] ++ go 0%nat 1%nat ++ [Env (CallPerformRequest [] (attempt 0))] ++ go 1%nat 18%nat ++
  [Env (ConnectionEvent 0 SessionConnected)] ++ go 2%nat 3%nat ++ [Env (ConnectionEvent 0 (WorkerTakes answers_ok))] ++ go 3%nat 2%nat ++
  [Env (CallPerformRequest [] (attempt 1))] ++ go 4%nat 9%nat ++ [Env (CallPerformRequest [] (attempt 2))] ++ go 5%nat 11%nat ++
  [Env (ConnectionEvent 0 (WorkerTakes answers_ok))] ++ go 6%nat 3%nat ++ [Env (ConnectionEvent 0 (StreamCloses (mkUuid 2 0) 0))] ++ go 7%nat 3%nat.

Definition observe_pool {A} (f : HttpConnectionPool → A) (evs : list (@ThreadEvent PoolEvent)) : option (A * bool) :=
  (λ '(_, w), (f (shared w), ended w)) <$> run_ops pool_steps pool_start evs.

Lemma observe_pool_run {A} (f : HttpConnectionPool → A) evs a b : observe_pool f evs = Some (a, b) →
  ∃ rs w, run_ops pool_steps pool_start evs = Some (rs, w) ∧ f (shared w) = a ∧ ended w = b.
Proof. unfold observe_pool. destruct (run_ops _ pool_start evs) as [[rs w]|]; [|done]. cbn. intros [= <- <-]. eauto. Qed.

Lemma client_answers_once_witness :
  ∃ rs w, run_ops pool_steps pool_start three_attempts = Some (rs, w) ∧ all_of settled (shared w) = [attempt 1; attempt 0; attempt 2] ∧
    NoDup ((returned (shared w)).*1 ++ all_of settled (shared w)).
Proof.
  destruct (observe_pool_run (all_of settled) three_attempts [attempt 1; attempt 0; attempt 2] true) as (rs & w & E & Hf & He); [by vm_compute|].
  exists rs, w. split; [done|]. split; [done|]. apply (client_answers_once parse 2 curl 1000 three_attempts rs w E).
  by apply (bool_decide_unpack _); vm_compute.
Defined.

Lemma pool_entries_complete_witness :
  ∃ rs w, run_ops pool_steps pool_start three_attempts = Some (rs, w) ∧ is_initialized (entry 0 (shared w)) = true ∧
    is_Some (http_connections (entry 0 (shared w)) !! Z.to_nat (7 `mod` 2)).
Proof.
  destruct (observe_pool_run (λ p, is_initialized (entry 0 p)) three_attempts true true) as (rs & w & E & Hf & He); [by vm_compute|].
  exists rs, w. split; [done|]. split; [done|]. by apply (pool_entries_complete parse 2 curl 1000 three_attempts rs w E).
Defined.

(** Two connections, and a counter that is odd. *)
Definition used_pool : HttpConnectionPool :=
  mkPool true {["https://host/path:443" := 0%nat]} [mkEntry [4%nat; 9%nat] true 5] ∅ false [] [].

Lemma connections_take_turns_witness :
  ∃ p', get_many parse 2 2 "https://host/path" used_pool =
    Some (p', [(SuccessExecutionResult, Some 9%nat); (SuccessExecutionResult, Some 4%nat)]).
Proof.
  destruct (connections_take_turns parse 2 "https://host/path" 0 [4%nat; 9%nat] 5 used_pool) as (p' & E & _); [|done..|by exists p'].
  split; [done|by exists "https://host/path:443"|done|]. intros i _. by unfold object, used_pool; cbn; rewrite lookup_empty.
Defined.

(** A pool that is stopped while another thread creates the connections of a host misses them: the
    creation goes on, and leaves connections whose workers run. *)
Theorem creation_racing_stop_is_missed :
  observe_pool (λ p, (HttpPool.is_running_ p, worker_ <$> (snd <$> map_to_list (connection_objects p))))
    ([Env CallPoolRun] ++ go 0%nat 1%nat ++ [Env (CallPerformRequest [] (attempt 0))] ++ go 1%nat 1%nat ++
     [Env CallPoolStop] ++ go 2%nat 2%nat ++ go 1%nat 17%nat) =
  Some ((false, [Running; Running]), true).
Proof. vm_compute. reflexivity. Qed.

(** With no connections per host the choice of one divides by zero. *)
Theorem no_connections_faults hsf uri key p :
  pool_key hsf uri = Some key → HttpPool.is_running_ p = true → connections_ p !! key = None →
  run_code (GetConnection hsf 0 [] (Some uri)) p = None.
Proof.
  intros Hk Hr Hc. unfold GetConnection. cbn -[choose_connection insert_entry]. rewrite Hr. cbn -[choose_connection insert_entry].
  rewrite Hk. cbn -[choose_connection insert_entry].
  assert (insert_entry key p = (set_connections (<[key := length (entries p)]> (connections_ p)) (set_entries (entries p ++ [new_entry]) p),
    (true, length (entries p)))) as -> by (unfold insert_entry, CM_Insert; by rewrite Hc).
  cbn -[update_entry entry]. change (Z.to_nat 0) with 0%nat. cbn. unfold entry. cbn. rewrite list_lookup_alter_eq, list_lookup_middle by done. done.
Qed.

Lemma no_connections_faults_witness : run_code (GetConnection parse 0 [] (Some "h")) (HttpPool.set_running true new_pool) = None.
Proof. by apply (no_connections_faults parse "h" "h:443"). Defined.

End PoolRuns.
