(* ===== verification/CurlClient.v ===== *)
(** * CurlClient: the HTTP/1 client

    Models [http1_curl_wrapper.cc] and [http1_curl_client.cc] of
    [cc/core/curl_client/src]: the options that are set on a libcurl handle, the
    callbacks that libcurl calls, the result of a transfer, and what the client
    gives to the dispatcher.

    libcurl is not part of the sources.  A transfer is a parameter: the header
    lines that the header callback is called with, the pieces of the body that
    the write callback is called with (libcurl's documentation says that there
    may be any number of them), and the text of the error buffer when the
    transfer failed.  Allocation does not fail.  [None] is an exception in a [noexcept] function or
    undefined behaviour. *)

From Stdlib Require Import Ascii.
From stdpp Require Import pretty.
From S2P Require Import Prelude ExecResult UuidLib Serialization Decimal Provider Utils HttpExchange.

Local Open Scope string_scope.
Local Open Scope list_scope.
Local Open Scope Z_scope.

(** ** Error codes *)

Abbreviation SC_CURL_CLIENT := 0x0019%Z (only parsing).
Abbreviation SC_CURL_CLIENT_CURL_INIT_ERROR := (MakeErrorCode SC_CURL_CLIENT 0x0001).
Abbreviation SC_CURL_CLIENT_UNSUPPORTED_METHOD := (MakeErrorCode SC_CURL_CLIENT 0x0005).
Abbreviation SC_CURL_CLIENT_REQUEST_FAILED := (MakeErrorCode SC_CURL_CLIENT 0x0006).
Abbreviation SC_CURL_CLIENT_NO_PATH_SUPPLIED := (MakeErrorCode SC_CURL_CLIENT 0x0007).
Abbreviation SC_CURL_CLIENT_REQUEST_UNAUTHORIZED := (MakeErrorCode SC_CURL_CLIENT 0x0008).
Abbreviation SC_CURL_CLIENT_REQUEST_FORBIDDEN := (MakeErrorCode SC_CURL_CLIENT 0x0009).
Abbreviation SC_CURL_CLIENT_REQUEST_NOT_FOUND := (MakeErrorCode SC_CURL_CLIENT 0x000A).
Abbreviation SC_CURL_CLIENT_REQUEST_CONFLICT := (MakeErrorCode SC_CURL_CLIENT 0x000B).
Abbreviation SC_CURL_CLIENT_REQUEST_SERVER_ERROR := (MakeErrorCode SC_CURL_CLIENT 0x000C).
Abbreviation SC_CURL_CLIENT_REQUEST_NOT_IMPLEMENTED := (MakeErrorCode SC_CURL_CLIENT 0x000D).
Abbreviation SC_CURL_CLIENT_REQUEST_SERVICE_UNAVAILABLE := (MakeErrorCode SC_CURL_CLIENT 0x000E).
Abbreviation SC_CURL_CLIENT_REQUEST_OTHER_HTTP_ERROR := (MakeErrorCode SC_CURL_CLIENT 0x000F).
Abbreviation SC_CURL_CLIENT_REQUEST_BAD_REGEX_PARSING := (MakeErrorCode SC_CURL_CLIENT 0x0010).

(** ** The result of a failed transfer *)

(** The match of [[0-9]{3}] that [regex_search] finds first. *)
Fixpoint first_code (s : string) : option Z :=
  match s with
  | String a ((String b (String c _)) as s') =>
      match digit_of a, digit_of b, digit_of c with
      | Some x, Some y, Some z => Some (x * 100 + y * 10 + z)
      | _, _, _ => first_code s'
      end
  | _ => None
  end.

Definition GetExecutionResultFromCurlError (err_buffer : string) : ExecutionResult :=
  match first_code err_buffer with
  | None => RetryExecutionResult SC_CURL_CLIENT_REQUEST_BAD_REGEX_PARSING
  | Some http_code =>
      if http_code <? 400 then SuccessExecutionResult
      else match http_code with
           | 400 => FailureExecutionResult SC_CURL_CLIENT_REQUEST_FAILED
           | 401 => FailureExecutionResult SC_CURL_CLIENT_REQUEST_UNAUTHORIZED
           | 403 => FailureExecutionResult SC_CURL_CLIENT_REQUEST_FORBIDDEN
           | 404 => FailureExecutionResult SC_CURL_CLIENT_REQUEST_NOT_FOUND
           | 409 => FailureExecutionResult SC_CURL_CLIENT_REQUEST_CONFLICT
           | 500 => RetryExecutionResult SC_CURL_CLIENT_REQUEST_SERVER_ERROR
           | 501 => RetryExecutionResult SC_CURL_CLIENT_REQUEST_NOT_IMPLEMENTED
           | 503 => RetryExecutionResult SC_CURL_CLIENT_REQUEST_SERVICE_UNAVAILABLE
           | _ => RetryExecutionResult SC_CURL_CLIENT_REQUEST_OTHER_HTTP_ERROR
           end
  end.

(** ** Callbacks *)

(** The buffer that was there is replaced. *)
Definition ResponsePayloadHandler (contents : list Z) (output : BytesBuffer) : BytesBuffer :=
  mkBytesBuffer (Some contents) (zlen contents) (zlen contents).

(** Three digits before the end of the line. *)
Fixpoint line_has_code (s : string) : bool :=
  match s with
  | "" => false
  | String a s' =>
      if bool_decide (a = "010"%char ∨ a = "013"%char) then false
      else match s' with
           | String b (String c _) =>
               bool_decide (is_Some (digit_of a) ∧ is_Some (digit_of b) ∧ is_Some (digit_of c)) || line_has_code s'
           | _ => false
           end
  end.

(** [regex_search] for [HTTP.*[0-9]{3}]. *)
Fixpoint is_status_line (s : string) : bool :=
  match s with
  | "" => false
  | String _ s' => (String.prefix "HTTP" s && line_has_code (String.substring 4 (String.length s) s)) || is_status_line s'
  end.

Definition find_char (c : ascii) (s : string) : option nat := String.index 0 (String c "") s.

Definition ResponseHeaderHandler (contents : string) (header_map : HttpHeaders) : HttpHeaders :=
  if (String.length contents <=? 2)%nat || is_status_line contents then header_map
  else match find_char ":"%char contents, find_char "013"%char contents with
       | None, _ => header_map
       | Some colon_index, contents_end =>
           if match contents_end with Some e => (e <? colon_index)%nat | None => false end then header_map
           else
             let has_space_after_colon := bool_decide (String.get (S colon_index) contents = Some " "%char) in
             let value_index := if has_space_after_colon then S (S colon_index) else S colon_index in
             let contents_end := default (String.length contents) contents_end in
             multimap_insert (String.substring 0 colon_index contents)
               (String.substring value_index (contents_end - value_index) contents) header_map
       end.

(** What is copied into [contents], of at most [bytes_to_read] bytes. *)
Definition RequestReadHandler (bytes_to_read : Z) (input_buffer : BytesBuffer) : option (list Z) :=
  let bytes_to_read := if length_ input_buffer <? bytes_to_read then length_ input_buffer else bytes_to_read in
  if bytes_to_read =? 0 then Some [] else v ← bytes input_buffer; mem_read v 0 bytes_to_read.

(** ** The wrapper *)

Inductive CURLoption := CURLOPT_HTTPGET | CURLOPT_POST | CURLOPT_UPLOAD.

(** The options of a handle.  [post_fields] are the pointer and the size, [read_data] the buffer of the read callback. *)
Record Handle := mkHandle {
  request_option : option CURLoption;
  post_fields : option (option (list Z) * Z);
  read_data : option BytesBuffer;
  infile_size : Z;
  http_header : list string;
  url : string
}.

Definition new_handle : Handle := mkHandle None None None 0 [] "".

Definition SetUpPostData (body : BytesBuffer) (h : Handle) : Handle :=
  if length_ body =? 0 then h
  else mkHandle (request_option h) (Some (bytes body, length_ body)) (read_data h) (infile_size h) (http_header h) (url h).

Definition SetUpPutData (body : BytesBuffer) (h : Handle) : Handle :=
  mkHandle (request_option h) (post_fields h) (Some body) (length_ body) (http_header h) (url h).

Definition set_option (o : CURLoption) (h : Handle) : Handle :=
  mkHandle (Some o) (post_fields h) (read_data h) (infile_size h) (http_header h) (url h).

Definition set_url (s : string) (h : Handle) : Handle :=
  mkHandle (request_option h) (post_fields h) (read_data h) (infile_size h) (http_header h) s.

Definition AddHeadersToRequest (headers : option HttpHeaders) (h : Handle) : Handle :=
  match headers with
  | None | Some [] => h
  | Some l => mkHandle (request_option h) (post_fields h) (read_data h) (infile_size h) ((λ e, c_str (e.1 +:+ ": " +:+ e.2)) <$> l) (url h)
  end.

(** [set_up]: the option of the method, with the data of the request. *)
Definition set_up (request : HttpRequest) (h : Handle) : option Handle :=
  match method request with
  | GET => Some (set_option CURLOPT_HTTPGET h)
  | POST => Some (set_option CURLOPT_POST (SetUpPostData (body request) h))
  | PUT => Some (set_option CURLOPT_UPLOAD (SetUpPutData (body request) h))
  | UNKNOWN => None
  end.

Record Transfer := mkTransfer {
  header_lines : list string;
  payload : list (list Z);
  error_text : option string
}.

Section wrapper.
Context (curl_easy_escape : string → option string) (curl_easy_perform : Handle → Transfer).

Definition received (t : Transfer) : HttpResponse :=
  let body := foldl (λ b contents, ResponsePayloadHandler contents b) (BytesBuffer_of_size 0) (payload t) in
  mkHttpResponse (Some (foldl (λ m line, ResponseHeaderHandler line m) [] (header_lines t))) body (capacity body) 200.

Definition PerformRequest (curl_ok : bool) (request : HttpRequest) (h : Handle) : Handle * Fallible HttpResponse :=
  match path request with
  | None | Some "" => (h, fail_with SC_CURL_CLIENT_NO_PATH_SUPPLIED)
  | Some _ =>
      match set_up request h with
      | None => (h, fail_with SC_CURL_CLIENT_UNSUPPORTED_METHOD)
      | Some h =>
          let h := AddHeadersToRequest (headers request) h in
          match GetEscapedUriWithQuery curl_easy_escape curl_ok request with
          | None => (h, None)
          | Some (HasResult r) => (h, Some (HasResult r))
          | Some (HasValue uri) =>
              let h := set_url (c_str uri) h in
              let t := curl_easy_perform h in
              match error_text t with
              | Some err_str => (h, Some (HasResult (GetExecutionResultFromCurlError err_str)))
              | None => (h, Some (HasValue (received t)))
              end
          end
      end
  end.

(** ** The client *)

Definition MakeWrapper (init_ok : bool) : ExecutionResultOr Handle :=
  if init_ok then HasValue new_handle else HasResult (RetryExecutionResult SC_CURL_CLIENT_CURL_INIT_ERROR).

(** What the dispatched operation returns, and the response with which it finishes the context.  To
    take the value of a result that has none throws. *)
Definition perform_operation (curl_ok : bool) (request : HttpRequest) (h : Handle) : option (ExecutionResult * option HttpResponse) :=
  response_or ← (PerformRequest curl_ok request h).2;
  if negb (SuccessfulOr response_or) then Some (result_of response_or, None)
  else response ← value response_or; Some (SuccessExecutionResult, Some response).
End wrapper.

(** ** Facts *)

Lemma substring_skip a b i n : String.substring (String.length a + i) n (a +:+ b) = String.substring i n b.
Proof. induction a as [|c a IH]; [done|]. exact IH. Qed.

Lemma substring_prefix a b : String.substring 0 (String.length a) (a +:+ b) = a.
Proof. induction a as [|c a IH]; [by destruct b|]. change (String c (String.substring 0 (String.length a) (a +:+ b)) = String c a). by rewrite IH. Qed.

Lemma find_char_app c a b : without c a → find_char c (a +:+ String c b) = Some (String.length a).
Proof.
  unfold find_char. induction a as [|d a IH]; intros Ha.
  - change ("" +:+ String c b) with (String c b). cbn [String.index String.prefix]. destruct (ascii_dec c c); [|done]. by destruct b.
  - apply Forall_cons in Ha as [Hd Ha]. change (String d a +:+ String c b) with (String d (a +:+ String c b)).
    cbn [String.index String.prefix String.length]. destruct (ascii_dec c d); [congruence|]. by rewrite IH.
Qed.

Lemma get_app a b i : String.get (String.length a + i) (a +:+ b) = String.get i b.
Proof. induction a as [|c a IH]; [done|]. exact IH. Qed.

(** A header line of a response is parsed into its name and its value. *)
Theorem header_line_parsed name value m :
  let line := name +:+ ": " +:+ value +:+ String "013"%char (String "010"%char "") in
  without ":"%char name → without "013"%char name → without "013"%char value → is_status_line line = false →
  ResponseHeaderHandler line m = multimap_insert name value m.
Proof.
  intros line Hn1 Hn2 Hv Hs. unfold ResponseHeaderHandler. rewrite Hs.
  assert (find_char ":"%char line = Some (String.length name)) as -> by (by apply find_char_app).
  assert (find_char "013"%char line = Some (String.length (name +:+ ": " +:+ value))) as ->.
  { unfold line. rewrite !string_app_assoc. rewrite <-(string_app_assoc name). apply find_char_app.
    rewrite !list_ascii_app, !Forall_app. split; [done|]. split; [by repeat constructor|done]. }
  rewrite string_length_app. cbn [String.append String.length].
  assert ((String.length line <=? 2)%nat = false) as ->.
  { apply Nat.leb_gt. unfold line. rewrite !string_length_app. cbn. lia. }
  cbn [orb]. rewrite (proj2 (Nat.ltb_ge _ _)) by (cbn; lia).
  assert (String.get (S (String.length name)) line = Some " "%char) as ->.
  { unfold line. rewrite <-Nat.add_1_r, get_app. done. }
  rewrite bool_decide_true by done. cbn [default from_option]. unfold id. f_equal.
  - apply substring_prefix.
  - unfold line. replace (S (S (String.length name))) with (String.length name + 2)%nat by lia. rewrite substring_skip.
    rewrite string_length_app. cbn [String.length]. replace (_ - _)%nat with (String.length value) by lia. exact (substring_prefix value _).
Qed.

(** Of a body that libcurl hands over in pieces the response has the last one. *)
Theorem response_is_last_piece t :
  BytesBuffer_ToString (response_body (received t)) = Some (default [] (last (payload t))).
Proof.
  unfold received. cbn. generalize (BytesBuffer_of_size 0) (eq_refl : BytesBuffer_ToString (BytesBuffer_of_size 0) = Some []).
  assert (∀ l b, foldl (λ b contents, ResponsePayloadHandler contents b) b l =
    match last l with Some p => ResponsePayloadHandler p b | None => b end) as Hl.
  { intros l. induction l as [|p [|q l] IH]; intros b; [done|done|].
    change (foldl (λ b contents, ResponsePayloadHandler contents b) (ResponsePayloadHandler p b) (q :: l) =
      match last (q :: l) with Some p => ResponsePayloadHandler p b | None => b end).
    rewrite IH. destruct (last (q :: l)) eqn:E; [done|]. by apply last_None in E. }
  intros b Hb. rewrite Hl. destruct (last (payload t)) as [p|]; [|done]. unfold BytesBuffer_ToString. cbn [bytes ResponsePayloadHandler length_ mbind option_bind].
  rewrite mem_read_Some by lia. cbn [Z.to_nat drop default from_option]. by rewrite Nat2Z.id, firstn_all.
Qed.

(** The response of a transfer whose body comes in one piece at most is that body. *)
Lemma response_whole t : (length (payload t) ≤ 1)%nat → BytesBuffer_ToString (response_body (received t)) = Some (concat (payload t)).
Proof.
  intros Hl. rewrite response_is_last_piece. destruct (payload t) as [|p [|q l]]; [done|cbn; by rewrite app_nil_r|cbn in Hl; lia].
Qed.

(** Every call of the read callback copies from the beginning of the body. *)
Theorem read_starts_over n b v : bytes b = Some v → 0 < n → 0 ≤ length_ b ≤ zlen v →
  RequestReadHandler n b = Some (take (Z.to_nat (Z.min n (length_ b))) v).
Proof.
  intros Hb Hn Hl. unfold RequestReadHandler. rewrite Hb.
  assert ((if length_ b <? n then length_ b else n) = Z.min n (length_ b)) as -> by (destruct (Z.ltb_spec (length_ b) n); lia).
  destruct (Z.eqb_spec (Z.min n (length_ b)) 0) as [->|]; [done|]. cbn [mbind option_bind]. by rewrite mem_read_Some by lia.
Qed.

(** The result of a failed transfer is a success exactly when the first three digits of the text are
    a number below 400, whatever they are: a port, an address, a duration. *)
Lemma curl_error_success e : Successful (GetExecutionResultFromCurlError e) = true ↔ ∃ c, first_code e = Some c ∧ c < 400.
Proof.
  unfold GetExecutionResultFromCurlError. destruct (first_code e) as [c|]; [|split; [done|by intros (? & ? & _)]].
  destruct (Z.ltb_spec c 400) as [|Hc]; [split; [by exists c|done]|]. split; [|intros (? & [= <-] & ?); lia].
  intros H. exfalso. revert H.
  repeat match goal with |- context [match ?x with _ => _ end] => destruct x; try done end.
Qed.

(** What the dispatched operation does with a request that can be sent: it finishes the context with
    the response, returns the failure of the transfer, or throws, when the text of the error begins
    its digits with a number below 400. *)
Theorem operation_outcome curl_easy_escape curl_easy_perform curl_ok request h h1 uri :
  path request ≠ None → path request ≠ Some "" → set_up request h = Some h1 →
  GetEscapedUriWithQuery curl_easy_escape curl_ok request = Some (HasValue uri) →
  let t := curl_easy_perform (set_url (c_str uri) (AddHeadersToRequest (headers request) h1)) in
  perform_operation curl_easy_escape curl_easy_perform curl_ok request h =
    match error_text t with
    | None => Some (SuccessExecutionResult, Some (received t))
    | Some e =>
        match first_code e with
        | Some c => if c <? 400 then None else Some (GetExecutionResultFromCurlError e, None)
        | None => Some (GetExecutionResultFromCurlError e, None)
        end
    end.
Proof.
  intros H1 H2 Hset Huri t. unfold perform_operation, PerformRequest. destruct (path request) as [[|c p]|]; [done| |done].
  rewrite Hset, Huri. fold t. destruct (error_text t) as [e|]; [|done]. cbn [snd mbind option_bind SuccessfulOr result_of].
  assert (SuccessfulOr (HasResult (T:=HttpResponse) (GetExecutionResultFromCurlError e)) = match first_code e with Some c => c <? 400 | None => false end) as ->.
  { apply Bool.eq_iff_eq_true. etrans; [exact (curl_error_success e)|]. destruct (first_code e) as [code|]; [|naive_solver].
    rewrite Z.ltb_lt. naive_solver. }
  by destruct (first_code e) as [code|]; [destruct (code <? 400)|].
Qed.

Module CurlRuns.
Definition get_host : HttpRequest := mkHttpRequest GET (Some "http://host/") None None (BytesBuffer_of_size 0).
Definition refused_text : string := "Failed to connect to 127.0.0.1 port 8080: Connection refused".

(** A connection that is refused throws. *)
Lemma operation_outcome_witness :
  perform_operation Some (λ _, mkTransfer [] [] (Some refused_text)) true get_host new_handle = None ∧
  perform_operation Some (λ _, mkTransfer [] [[104]; [105]] None) true get_host new_handle =
    Some (SuccessExecutionResult, Some (received (mkTransfer [] [[104]; [105]] None))).
Proof.
  split.
  - by apply (operation_outcome Some (λ _, mkTransfer [] [] (Some refused_text)) true get_host new_handle (set_option CURLOPT_HTTPGET new_handle) "http://host/").
  - by apply (operation_outcome Some (λ _, mkTransfer [] [[104]; [105]] None) true get_host new_handle (set_option CURLOPT_HTTPGET new_handle) "http://host/").
Defined.

(** A body of four bytes that is read two at a time is sent as its first half twice. *)
Lemma read_starts_over_witness :
  let b := BytesBuffer_of_string [1; 2; 3; 4] in RequestReadHandler 2 b = Some [1; 2].
Proof. by apply (read_starts_over 2 (BytesBuffer_of_string [1; 2; 3; 4]) [1; 2; 3; 4]). Defined.

Lemma header_line_parsed_witness :
  ResponseHeaderHandler ("Content-Type: text" +:+ String "013"%char (String "010"%char "")) [] = [("Content-Type", "text")].
Proof. apply (header_line_parsed "Content-Type" "text" []); [by repeat constructor..|reflexivity]. Defined.
End CurlRuns.
